(* ===== verification/_CoqProject ===== *)
-Q . S2P
Prelude.v
MemPool.v
Queue.v
Posix.v
ConnMgr.v
ConnPool.v
Philosophers.v
ShmRing.v
SpliceProxy.v
HimProxy.v
OldProxy.v
Bson.v
Zigzag.v
EpollServer.v
EventServer.v
MongoApi.v
Supervisor.v
CondVar.v
LinkedList.v
Numbers.v
Text.v
Driver.v
FileCopy.v
EchoTcp.v
EchoUdp.v
EchoUnix.v
MemPoolTest.v
ConnTest.v
PoolTest.v
SpliceExp.v
BsonTest.v
MongoTest.v
Redis.v
RedisAsync.v
Icap.v
Files.v
Namespace.v
HttpClient.v
NetExamples.v
Exercises.v
