(* ===== verification/Prelude.v ===== *)
(** * TPT: a verification library for the C programs of the repository

    The repository collects small systems programs in C: libraries (a memory pool, a
    connection manager, a BSON API), servers and proxies, and exercises in concurrency.
    They share no code, so the library has one file per program, over a common
    language for C functions and a common model of the operating system.  Paths below
    are under src/src/.

    ** The common part

    - Prelude.v: the outcome monad, in which every C function is written (a result,
      undefined behaviour, the exit of the process, or fuel exhausted), total-correctness
      assertions [wp] and their rules, machine integers, shared lemmas and tactics.
    - Posix.v: the operating system as the class [OS], an arbitrary function from the
      history of calls to the reply of the next one.  Theorems quantify over it and speak
      about the recorded history: descriptors and blocks left open ([res_delta]), bytes
      sent and received, calls repeated until they are not interrupted.  Growing buffers
      are blocks of exactly the size that was asked for, and a store outside one is undefined
      ([store_bytes]).

    ** The programs

    - MemPool.v: system/mem_pool/argo_mem_pool.c.  The pool's slabs are blocks of a heap
      of 64-bit words, the free list is threaded through their headers as in the code,
      sizes are 32-bit.  Theorems: no client can make the pool misbehave (aligned,
      disjoint, stable objects), last-in first-out reuse, NULL only on exhaustion,
      destruction frees everything once; a pool of zero objects and a product that wraps
      around are shown to go wrong.
    - Queue.v: networking/conn_mgr/conn_mgr_queue.c, a linked list with head and tail, as
      a heap of items.  It refines an abstract list.
    - ConnMgr.v: networking/conn_mgr/conn_mgr_conn.c and conn_mgr_core.c, connections
      with a connect timeout and their error codes.  Theorems: exact ownership and error
      reporting for every behaviour of the kernel, the life cycle, and the refused
      connection that is reported as a success.
    - ConnPool.v: networking/conn_mgr/conn_mgr_pool.c, on top of Queue.v and ConnMgr.v.
      The critical sections are functions; [Threads] interleaves them with the mutex and
      the condition variable.  Theorems, by induction over all interleavings: accounting
      of connections, mutual exclusion, no lost wake-up; [try_pop] on an empty pool never
      returns; destruction releases what the pool holds.
    - Philosophers.v: system/diningphilo/dinphilo.c, the threads and semaphores as a
      transition system: mutual exclusion, absence of deadlock, termination.
    - ShmRing.v: system/ipc/sharedmemory/shm_producer.c and shm_consumer.c, the ring in
      shared memory and the semaphore protocol ([Procs], from the start of each process on):
      refinement of a bounded queue, first-in first-out delivery from one producer to any
      number of consumers, progress; a producer that starts later resets the ring.
    - SpliceProxy.v: networking/splice/sp_trans_proxy/src: complete or reported
      transmission, relaying in order, a request gives back what it owns, but for the socket
      it made when none of its connects succeeded; a partial splice loses data.
    - SpliceExp.v: networking/splice/sp_exp/src, a copy that connects without
      transparency: a request is followed from the accepting loop through the work queue
      to the end of its tunnel.
    - HimProxy.v: networking/himproxy/*.c: the receive buffer never overflows and keeps
      every byte, children are recorded within the table; the option that has no effect,
      the leaked connections and the failed realloc.
    - OldProxy.v: networking/himproxy/proxy_old/*.c, the first version, which splits the
      received data into a list of HTTP requests.  Theorems: whatever the parser rejects and
      the allocator refuses, parsing frames the buffer into consecutive requests, and it ends
      unless they do so for ever; freeing a connection gives back every block and parsed
      request once; a rejected request is parsed for ever, a moved buffer leaves requests dangling, and
      a configured number of children above the table's size is read out of bounds.
    - Bson.v: serialization/bson_api/bson_api.c.  libbson is the class [LIBBSON] of its
      functions, and [LIBBSON_OK] states its documented behaviour; the API's theorems are
      proved against that interface and a small library that satisfies it is given.
      Documents, arrays and elements make the round trip through the API; a failing realloc
      in the reader is undefined.
    - Zigzag.v: encoding/zigzag/zigzag.c: the encoding is a bijection.
    - EpollServer.v: system/poller/epoll.c: every event is served completely: accepting and
      reading go on until the kernel has nothing more, connections are closed exactly at their
      end, and the process aborts exactly when a call it cannot do without fails.
    - EventServer.v: networking/server/server.c: ownership of connections in the
      callbacks of libevent.
    - MongoApi.v: mongo_api/mongo_api.c.  The MongoDB client library is a function from
      the history of its calls to the next result; every operation gives back what it
      borrows, makes its steps in order and reports the one that failed.
    - Supervisor.v: system/waitForChild/waitforchild.c.  Signals are delivered at the
      calls of the program.  An interrupt reaches every running child once and ends the
      process; the program's own handler of SIGCHLD stops the supervision, so that no child
      is restarted, which the loop alone, without signals, would do.
    - CondVar.v: other/condvar.c, three threads with a mutex and a condition variable as
      a transition system: every schedule ends, and the signal is never lost.
    - LinkedList.v: other/linkedlist.c, on a heap of nodes: a session prints what was
      added and frees it once; the program's main displays the list once too often.
    - Numbers.v: other/int2bits.c, genUniqNumbers.c and bitscan.c: the bits of a number,
      the enumeration of all numbers of n digits and the scan for set bits are what they
      should be; the table of the last is initialised past its end.
    - Text.v: other/miniprintf.c, equal to a reference formatter, and
      system/getdir/getDir.c, the directory of a user.
    - Driver.v: system/ioctl, a character device and its user program: loading undoes
      itself on failure (but for one path), and a value makes the round trip.
    - FileCopy.v: system/aio, a file copy with read and the same with asynchronous
      requests: both write the file's bytes, and the two are equivalent for a file that can
      be read to its end; after a read error they differ.
    - EchoTcp.v, EchoUdp.v, EchoUnix.v: networking/socket and system/ipc/pipe, echo
      servers and clients over TCP, UDP and Unix-domain sockets, a socket pair and a
      pipe: messages are answered whole, in order and to their sender; messages that fill
      the buffer, the descriptor shared by all threads and the peers that go away are
      shown to break them.
    - MemPoolTest.v, ConnTest.v and PoolTest.v: the test programs of the memory pool and of the
      connection manager, on top of MemPool.v, Queue.v, ConnMgr.v and ConnPool.v; the
      workers of the pool test finish under every schedule and the whole program gives
      back every descriptor, block and queue item, when queue items can be allocated.
    - BsonTest.v: serialization/bson_api/test/test.c, on top of Bson.v: a document of any
      nesting is printed as the tree of values it holds, and the six tests print the
      documents that their code builds and leak none, when the library refuses no call about
      these documents and memory can be had.
    - MongoTest.v: mongo_api/test/test.c, on top of MongoApi.v.  The workers of one test are
      trees of calls that are interleaved in any order; the program accounts for every
      object of the library, unless the server refuses the update, which is undefined.
    - Redis.v: the programs of other/redistest and other/redisConnectionTest that send
      commands and wait for the reply.  hiredis is the class [HIREDIS].  Every reply, copy
      and connection is given back or its loss is proved; a structure makes the round trip.
    - RedisAsync.v: the programs with callbacks and the adapter to libev (libev.h): every
      event of a sequence that can be printed is served in order, a message that says quit
      ends the subscription, and the adapter keeps each watcher active exactly while it is
      wanted.
    - Icap.v: the programs of networking/icap-client-testing, with the thread that receives
      interleaved with the main thread: under every order the requests are sent in order and
      blocks and contexts are accounted for, those that are lost included; chunks make the
      round trip.
    - Files.v: system/memoryMap and three programs of other/ that write files and print the
      output of a command: an array makes the round trip through a mapped file, all but its
      last element; a stream reaches its file when it is closed.
    - Namespace.v: system/linux_namespace.  Parent and child are trees of atomic accesses to
      the memory they share; a rely-guarantee argument shows that no order of them overruns
      the command buffer when the lines typed are short enough, a long line does, and one
      order is shown to lose the parent's command.
    - HttpClient.v: networking/http_client_test: the client sends what is typed in order, and
      the growing buffer of the parser test never overflows.
    - NetExamples.v: name lookups (the resolver is a parameter), the echo of words with poll and
      a pair of datagram programs.
    - Exercises.v: the exercises of system/c, system/reentrant, system/load_so_runtime,
      system/newmalloc and other/: a handler that sees half an assignment, allocations that are
      given back, a search that ends, a loop that does not overflow.

    ** Loops and fuel

    Loops that C does not bound take a number of rounds as fuel.  A theorem about such a
    loop says how much is enough, so that it proves termination: one more than the items
    to traverse (queue lengths, elements and documents), one more than the interruptions
    a call meets ([settles]), or one more than the number of times the environment keeps
    the program busy ([calms_down]), which no function of a server can bound by itself.

    ** What is not modelled

    Two programs of other/ that only print constants (ats_ut_gen.c and size.c), a file that is
    a compiled program and one that is empty (other/redistest), and the headers of hiredis,
    libev and the ICAP library beyond what the programs use; libev.h is modelled once, in
    other/redistest, and its copy in other/redisKeySpaceNotifications is not.  Formatted output
    is recorded by its format and arguments.  The HTTP parser, the work queues, the resolver
    and the configuration reader of OldProxy are calls of the environment or parameters.  In
    HimProxy, [handle_client_data] has no definition in the repository and is a parameter, and
    two functions of core.c that do not compile are left out. *)

From Stdlib Require Import ZArith Lia.
From stdpp Require Import base gmap list strings numbers.

#[global] Open Scope Z_scope.

(** ** The outcome monad

    A C function of the repository is a state transformer with four kinds of
    result: it returns a value, it reaches undefined behaviour (a NULL, dangling
    or out-of-bounds access), the process exits, or the model ran out of the
    fuel that bounds the loops which C does not bound. *)

Inductive outcome (S A : Type) : Type :=
| Ok (a : A) (s : S)
| Undef
| Exit (code : Z) (s : S)
| OutOfFuel.
Arguments Ok {S A} _ _.
Arguments Undef {S A}.
Arguments Exit {S A} _ _.
Arguments OutOfFuel {S A}.

Definition M (S A : Type) : Type := S → outcome S A.

#[global] Instance M_ret S : MRet (M S) := λ A a s, Ok a s.

#[global] Instance M_bind S : MBind (M S) := λ A B k m s,
  match m s with
  | Ok a s' => k a s'
  | Undef => Undef
  | Exit c s' => Exit c s'
  | OutOfFuel => OutOfFuel
  end.

Definition undef {S A} : M S A := λ _, Undef.
Definition exit_with {S A} (code : Z) : M S A := λ s, Exit code s.
Definition get_st {S} : M S S := λ s, Ok s s.
Definition gets {S A} (f : S → A) : M S A := λ s, Ok (f s) s.
Definition modify {S} (f : S → S) : M S unit := λ s, Ok tt (f s).

(** [expect o]: read through a pointer that must be valid. *)
Definition expect {S A} (o : option A) : M S A :=
  match o with Some a => mret a | None => undef end.

(** [while (1) { ... }]: the body says [inl a] to go round again with loop
    variables [a], [inr b] to leave the loop with [b]. *)
Fixpoint loop {S A B} (fuel : nat) (body : A → M S (A + B)) (a : A) : M S B :=
  match fuel with
  | O => λ _, OutOfFuel
  | Datatypes.S n =>
      r ← body a;
      match r with inl a' => loop n body a' | inr b => mret b end
  end.

(** The first [n] rounds of such a loop: [inl] when it is still going round. *)
Fixpoint rounds {S A B} (n : nat) (body : A → M S (A + B)) (a : A) : M S (A + B) :=
  match n with
  | O => mret (inl a)
  | Datatypes.S n =>
      r ← body a;
      match r with inl a' => rounds n body a' | inr b => mret (inr b) end
  end.

(** [for (i = lo; i < lo + n; i++) { ... }] with an accumulator. *)
Fixpoint for_range {S A} (n : nat) (i : Z) (body : Z → A → M S A) (a : A) : M S A :=
  match n with
  | O => mret a
  | Datatypes.S k => a' ← body i a; for_range k (i + 1) body a'
  end.

(** ** Total-correctness assertions

    [wp m Q s]: from [s] the program [m] returns (it neither reaches undefined
    behaviour, nor exits, nor runs out of fuel) and its result satisfies [Q]. *)

Definition wp {S A} (m : M S A) (Q : A → S → Prop) (s : S) : Prop :=
  match m s with Ok a s' => Q a s' | _ => False end.

(** The null pointer. *)
Definition NULL : Z := 0.

(** ** Machine integers *)

Definition u16 (x : Z) : Z := x mod 2 ^ 16.
Definition u32 (x : Z) : Z := x mod 2 ^ 32.
Definition u64 (x : Z) : Z := x mod 2 ^ 64.

(** Conversion to a [w]-bit two's complement integer. *)
Definition sgn (w : Z) (x : Z) : Z :=
  let m := x mod 2 ^ w in if m <? 2 ^ (w - 1) then m else m - 2 ^ w.
Definition i16 (x : Z) : Z := sgn 16 x.
Definition i32 (x : Z) : Z := sgn 32 x.
Definition i64 (x : Z) : Z := sgn 64 x.

(** ** Automation *)

Create HintDb tpt.


(** Open one level of [match]/[if] in the goal or a hypothesis. *)
Ltac destr_match :=
  match goal with
  | |- context [match ?x with _ => _ end] => destruct x eqn:?
  | H : context [match ?x with _ => _ end] |- _ => destruct x eqn:?
  end.

Ltac mred := unfold mbind, mret, M_bind, M_ret in *; cbn in *.

(** ** Lemmas on the monad *)

Section monad_lemmas.
Context {S : Type}.

Lemma wp_ret {A} (a : A) (Q : A → S → Prop) s : Q a s → wp (mret a) Q s.
Proof. done. Qed.

Lemma wp_bind {A B} (m : M S A) (k : A → M S B) (Q : B → S → Prop) s :
  wp m (λ a s', wp (k a) Q s') s → wp (m ≫= k) Q s.
Proof. unfold wp, mbind, M_bind. by destruct (m s). Qed.

Lemma bind_ok {A B} (m : M S A) (k : A → M S B) s a s' :
  m s = Ok a s' → (m ≫= k) s = k a s'.
Proof. intros E. unfold mbind, M_bind. by rewrite E. Qed.

Lemma bind_out_of_fuel {A B} (m : M S A) (k : A → M S B) s :
  m s = OutOfFuel → (m ≫= k) s = OutOfFuel.
Proof. intros E. unfold mbind, M_bind. by rewrite E. Qed.

Lemma bind_undef {A B} (m : M S A) (k : A → M S B) s : m s = Undef → (m ≫= k) s = Undef.
Proof. intros E. unfold mbind, M_bind. by rewrite E. Qed.

Lemma bind_ext {A B} (m : M S A) (k k' : A → M S B) s : (∀ a s', k a s' = k' a s') → (m ≫= k) s = (m ≫= k') s.
Proof. intros H. unfold mbind, M_bind. destruct (m s); auto. Qed.

Lemma bind_ext_l {A B} (m m' : M S A) (k : A → M S B) s : m s = m' s → (m ≫= k) s = (m' ≫= k) s.
Proof. intros H. unfold mbind, M_bind. by rewrite H. Qed.

Lemma bind_undef_after {A B} (m : M S A) (k : A → M S B) (P : A → S → Prop) s :
  wp m P s → (∀ a s', P a s' → k a s' = Undef) → (m ≫= k) s = Undef.
Proof. unfold wp, mbind, M_bind. destruct (m s); try done. auto. Qed.

Lemma loop_undef_after {A B} (body : A → M S (A + B)) (P : A → S → Prop) n a s :
  wp (body a) (λ r s', match r with inl a' => P a' s' | inr _ => False end) s →
  (∀ a' s', P a' s' → loop n body a' s' = Undef) → loop (Datatypes.S n) body a s = Undef.
Proof.
  intros Hw HP. cbn [loop]. eapply bind_undef_after; [exact Hw|]. intros [a'|b] s' Hs; [by apply HP|done].
Qed.

Lemma loop_again {A B} (body : A → M S (A + B)) n a s a' s' :
  body a s = Ok (inl a') s' → loop (Datatypes.S n) body a s = loop n body a' s'.
Proof. intros E. cbn [loop]. by rewrite (bind_ok _ _ _ _ _ E). Qed.

Lemma loop_done {A B} (body : A → M S (A + B)) n a s b s' :
  body a s = Ok (inr b) s' → loop (Datatypes.S n) body a s = Ok b s'.
Proof. intros E. cbn [loop]. by rewrite (bind_ok _ _ _ _ _ E). Qed.

Lemma loop_undef {A B} (body : A → M S (A + B)) n a s :
  body a s = Undef → loop (Datatypes.S n) body a s = Undef.
Proof. intros E. cbn [loop]. unfold mbind, M_bind. by rewrite E. Qed.

Lemma wp_mono {A} (m : M S A) (P Q : A → S → Prop) s :
  wp m P s → (∀ a s', P a s' → Q a s') → wp m Q s.
Proof. unfold wp. destruct (m s); auto. Qed.

Lemma wp_bind_assoc {A B C} (m : M S A) (k : A → M S B) (h : B → M S C) (Q : C → S → Prop) s :
  wp ((m ≫= k) ≫= h) Q s → wp (m ≫= λ a, k a ≫= h) Q s.
Proof. unfold wp, mbind, M_bind. by destruct (m s). Qed.

Lemma wp_Ok {A} (m : M S A) (Q : A → S → Prop) s :
  wp m Q s ↔ ∃ a s', m s = Ok a s' ∧ Q a s'.
Proof.
  unfold wp. destruct (m s) eqn:E; split; try done.
  - eauto.
  - intros (a' & s' & [= <- <-] & ?). done.
  - intros (? & ? & ? & ?). done.
  - intros (? & ? & ? & ?). done.
  - intros (? & ? & ? & ?). done.
Qed.

Lemma wp_at {A} (m : M S A) (Q : A → S → Prop) s a s' : wp m Q s → m s = Ok a s' → Q a s'.
Proof. unfold wp. intros H E. by rewrite E in H. Qed.

(** A loop whose rounds keep an invariant and never leave: any number of rounds can be
    run, and no fuel makes the loop return. *)
Lemma rounds_forever {A B} (Inv : A → S → Prop) (body : A → M S (A + B)) :
  (∀ a s, Inv a s → wp (body a) (λ r s', match r with inl a' => Inv a' s' | inr _ => False end) s) →
  ∀ n a s, Inv a s →
    wp (rounds n body a) (λ r s', match r with inl a' => Inv a' s' | inr _ => False end) s ∧
    loop n body a s = OutOfFuel.
Proof.
  intros Hb. induction n as [|n IH]; intros a s Hi; [done|]. cbn [rounds loop].
  specialize (Hb _ _ Hi). apply wp_Ok in Hb as ([a'|b] & s' & E & Hi'); [|done].
  rewrite (bind_ok _ _ _ _ _ E). destruct (IH a' s' Hi') as [H1 H2]. split; [|done].
  apply wp_bind. unfold wp at 1. by rewrite E.
Qed.

Lemma wp_gets {A} (f : S → A) (Q : A → S → Prop) s : Q (f s) s → wp (gets f) Q s.
Proof. done. Qed.

Lemma wp_modify f (Q : unit → S → Prop) s : Q tt (f s) → wp (modify f) Q s.
Proof. done. Qed.

Lemma wp_expect {A} (o : option A) a (Q : A → S → Prop) s :
  o = Some a → Q a s → wp (expect o) Q s.
Proof. by intros ->. Qed.

(** A loop that returned keeps its result when it is given more fuel. *)
Lemma loop_fuel_mono {A B} (body : A → M S (A + B)) n k a s b s' :
  loop n body a s = Ok b s' → loop (n + k) body a s = Ok b s'.
Proof.
  revert a s. induction n as [|n IH]; intros a s; [done|].
  cbn. unfold mbind, M_bind. destruct (body a s) as [[a'|b'] s1| | |]; eauto.
Qed.

(** Invariant and measure rule: a loop whose rounds decrease a measure ends, given more
    fuel than the measure. *)
Lemma wp_loop {A B} (Inv : A → S → Prop) (μ : A → S → nat) (body : A → M S (A + B)) (Q : B → S → Prop) :
  (∀ a s, Inv a s → wp (body a) (λ r s', match r with
     | inl a' => Inv a' s' ∧ (μ a' s' < μ a s)%nat | inr b => Q b s' end) s) →
  ∀ fuel a s, Inv a s → (μ a s < fuel)%nat → wp (loop fuel body a) Q s.
Proof.
  intros Hbody. induction fuel as [|fuel IH]; intros a s Hi Hf; [lia|]. cbn [loop]. apply wp_bind.
  eapply wp_mono; [by apply Hbody|]. intros [a'|b] s'; [|auto]. intros [Hi' Hlt]. apply IH; [done|lia].
Qed.

(** Invariant rule for bounded loops. *)
Lemma wp_for_range {A} (Inv : Z → A → S → Prop) n lo body a s :
  Inv lo a s →
  (∀ i a s, lo ≤ i < lo + Z.of_nat n → Inv i a s →
            wp (body i a) (λ a' s', Inv (i + 1) a' s') s) →
  wp (for_range n lo body a) (λ a' s', Inv (lo + Z.of_nat n) a' s') s.
Proof.
  revert lo a s. induction n as [|n IH]; intros lo a s H0 Hstep.
  - replace (lo + Z.of_nat 0) with lo by lia. done.
  - cbn [for_range]. apply wp_bind. eapply wp_mono; [apply Hstep; [lia|done]|].
    intros a' s' HI. replace (lo + Z.of_nat (Datatypes.S n)) with (lo + 1 + Z.of_nat n) by lia.
    apply IH; [done|]. intros i a'' s'' Hi. apply Hstep. lia.
Qed.

(** A bounded loop one of whose rounds is undefined. *)
Lemma for_range_undef {A} (Inv : Z → A → S → Prop) n lo k body a s :
  lo ≤ k < lo + Z.of_nat n → Inv lo a s →
  (∀ i a s, lo ≤ i < k → Inv i a s → wp (body i a) (λ a' s', Inv (i + 1) a' s') s) →
  (∀ a s, Inv k a s → body k a s = Undef) →
  for_range n lo body a s = Undef.
Proof.
  revert lo a s. induction n as [|n IH]; intros lo a s Hk H0 Hstep Hundef; [lia|]. cbn [for_range].
  destruct (decide (lo = k)) as [->|Hne]; [apply bind_undef; auto|].
  eapply bind_undef_after; [apply Hstep; [lia|exact H0]|]. intros a' s' Hs'.
  apply IH; [lia|done| |done]. intros i a'' s'' Hi. apply Hstep. lia.
Qed.

End monad_lemmas.

#[export] Hint Resolve wp_ret wp_gets wp_modify : tpt.

(** [ends m Q E s]: the program returns with [Q] or exits with [E]; it neither reaches undefined
    behaviour nor runs out of fuel. *)
Definition ends {S A} (m : M S A) (Q : A → S → Prop) (E : Z → S → Prop) (s : S) : Prop :=
  match m s with Ok a s' => Q a s' | Exit c s' => E c s' | _ => False end.

Section ends_rules.
Context {S : Type} (E : Z → S → Prop).

Lemma ends_wp {A} (m : M S A) Q s : wp m Q s → ends m Q E s.
Proof. unfold wp, ends. by destruct (m s). Qed.

Lemma ends_bind {A B} (m : M S A) (k : A → M S B) Q s : ends m (λ a s', ends (k a) Q E s') E s → ends (m ≫= k) Q E s.
Proof. unfold ends, mbind, M_bind. by destruct (m s). Qed.

Lemma ends_mono {A} (m : M S A) (P Q : A → S → Prop) s : ends m P E s → (∀ a s', P a s' → Q a s') → ends m Q E s.
Proof. unfold ends. destruct (m s); auto. Qed.

Lemma ends_exit {A} code (Q : A → S → Prop) s : E code s → ends (exit_with code) Q E s.
Proof. done. Qed.

Lemma ends_loop {A B} (Inv : A → S → Prop) (μ : A → S → nat) (body : A → M S (A + B)) (Q : B → S → Prop) :
  (∀ a s, Inv a s → ends (body a) (λ r s', match r with
     | inl a' => Inv a' s' ∧ (μ a' s' < μ a s)%nat | inr b => Q b s' end) E s) →
  ∀ fuel a s, Inv a s → (μ a s < fuel)%nat → ends (loop fuel body a) Q E s.
Proof.
  intros Hbody. induction fuel as [|fuel IH]; intros a s Hi Hf; [lia|]. cbn [loop]. apply ends_bind.
  eapply ends_mono; [by apply Hbody|]. intros [a'|b] s'; [|done]. intros [Hi' Hlt]. apply IH; [done|lia].
Qed.

Lemma ends_for_range {A} (Inv : Z → A → S → Prop) n lo body a s :
  Inv lo a s → (∀ i a s, lo ≤ i < lo + Z.of_nat n → Inv i a s → ends (body i a) (λ a' s', Inv (i + 1) a' s') E s) →
  ends (for_range n lo body a) (λ a' s', Inv (lo + Z.of_nat n) a' s') E s.
Proof.
  revert lo a s. induction n as [|n IH]; intros lo a s H0 Hstep; cbn [for_range].
  - by rewrite Z.add_0_r.
  - apply ends_bind. eapply ends_mono; [apply Hstep; [lia|exact H0]|]. intros a' s' Hs.
    replace (lo + Z.of_nat (Datatypes.S n)) with (lo + 1 + Z.of_nat n) by lia.
    apply IH; [done|]. intros i b s1 Hi. apply Hstep. lia.
Qed.

End ends_rules.

(** One step of symbolic execution. *)
Ltac wp_step :=
  lazymatch goal with
  | |- wp (mbind _ _) _ _ => apply wp_bind
  | |- wp (mret _) _ _ => apply wp_ret
  | |- wp (gets _) _ _ => apply wp_gets
  | |- wp (modify _) _ _ => apply wp_modify
  end; cbn beta.

(** ** Lemmas on machine integers *)

Lemma u32_small x : 0 ≤ x < 2 ^ 32 → u32 x = x.
Proof. intros. by apply Z.mod_small. Qed.

Lemma u64_small x : 0 ≤ x < 2 ^ 64 → u64 x = x.
Proof. intros. by apply Z.mod_small. Qed.

Lemma u32_range x : 0 ≤ u32 x < 2 ^ 32.
Proof. apply Z.mod_pos_bound. lia. Qed.

Lemma u64_range x : 0 ≤ u64 x < 2 ^ 64.
Proof. apply Z.mod_pos_bound. lia. Qed.

Lemma sgn_range w x : 0 < w → - 2 ^ (w - 1) ≤ sgn w x < 2 ^ (w - 1).
Proof.
  intros Hw. unfold sgn.
  assert (Hp : 2 ^ w = 2 * 2 ^ (w - 1)).
  { rewrite <- Z.pow_succ_r by lia. f_equal. lia. }
  pose proof (Z.mod_pos_bound x (2 ^ w) ltac:(lia)).
  destruct (Z.ltb_spec (x mod 2 ^ w) (2 ^ (w - 1))); lia.
Qed.

Lemma sgn_small w x : 0 < w → - 2 ^ (w - 1) ≤ x < 2 ^ (w - 1) → sgn w x = x.
Proof.
  intros Hw Hx. unfold sgn.
  assert (Hp : 2 ^ w = 2 * 2 ^ (w - 1)).
  { rewrite <- Z.pow_succ_r by lia. f_equal. lia. }
  destruct (decide (0 ≤ x)).
  - rewrite Z.mod_small by lia. destruct (Z.ltb_spec x (2 ^ (w - 1))); lia.
  - replace (x mod 2 ^ w) with (x + 2 ^ w).
    + destruct (Z.ltb_spec (x + 2 ^ w) (2 ^ (w - 1))); lia.
    + symmetry. replace x with (x + 2 ^ w + (-1) * 2 ^ w) at 1 by lia.
      rewrite Z.mod_add by lia. apply Z.mod_small. lia.
Qed.

(** A [w]-bit two's complement value is congruent to what was converted. *)
Lemma sgn_mod w x : 0 < w → sgn w x mod 2 ^ w = x mod 2 ^ w.
Proof.
  intros Hw. unfold sgn. destruct (_ <? _).
  - apply Z.mod_mod. lia.
  - replace (x mod 2 ^ w - 2 ^ w) with (x mod 2 ^ w + (-1) * 2 ^ w) by lia.
    rewrite Z.mod_add by lia. apply Z.mod_mod. lia.
Qed.

(** Packing a field of [n] low bits under a shifted high part. *)
Lemma lor_shiftl_add a b n : 0 ≤ n → 0 ≤ b < 2 ^ n → Z.lor (Z.shiftl a n) b = a * 2 ^ n + b.
Proof.
  intros Hn Hb. rewrite <- Z.shiftl_mul_pow2 by lia. symmetry.
  rewrite Z.add_nocarry_lxor, Z.lxor_lor; [done| |].
  all: apply Z.bits_inj'; intros i Hi; rewrite Z.land_spec, Z.bits_0.
  all: destruct (decide (i < n)); [rewrite Z.shiftl_spec_low by lia; done|].
  all: rewrite <- (Z.mod_small b (2 ^ n)) by lia; rewrite Z.mod_pow2_bits_high by lia.
  all: apply andb_false_r.
Qed.

Lemma land_ones_mod x n : 0 ≤ n → Z.land x (2 ^ n - 1) = x mod 2 ^ n.
Proof.
  intros Hn. rewrite <- Z.land_ones by lia. f_equal.
  rewrite Z.ones_equiv. lia.
Qed.

(** ** Lemmas on lists *)

Lemma filter_all {A} (P : A → Prop) `{∀ x, Decision (P x)} (l : list A) :
  (∀ x, x ∈ l → P x) → filter P l = l.
Proof.
  induction l as [|x l IH]; intros Hl; [done|].
  rewrite filter_cons_True by (apply Hl; set_solver). f_equal. apply IH. set_solver.
Qed.

Lemma snoc_case {A} (l : list A) : l = [] ∨ ∃ l' x, l = l' ++ [x].
Proof. destruct l as [|x l] using rev_ind; eauto. Qed.

(** The total weight of a list. *)
Definition weigh {A} (f : A → nat) (l : list A) : nat := foldr (λ x n, (f x + n)%nat) 0%nat l.

Lemma weigh_insert {A} (f : A → nat) (l : list A) i a b : l !! i = Some a →
  (weigh f (<[i := b]> l) + f a = weigh f l + f b)%nat.
Proof.
  revert i. induction l as [|x l IH]; intros i Hi; [done|]. unfold weigh in *. destruct i as [|i].
  - injection Hi as ->. change (<[0%nat := b]> (a :: l)) with (b :: l). cbn [foldr]. lia.
  - change (<[S i := b]> (x :: l)) with (x :: <[i := b]> l). specialize (IH _ Hi). cbn [foldr]. lia.
Qed.

Lemma weigh_replicate {A} (f : A → nat) n a : weigh f (replicate n a) = (n * f a)%nat.
Proof. unfold weigh. induction n; cbn; lia. Qed.

Lemma weigh_pos {A} (f : A → nat) (l : list A) i a : l !! i = Some a → (f a ≤ weigh f l)%nat.
Proof.
  revert i. induction l as [|x l IH]; intros [|i] Hi; [done..|injection Hi as ->; cbn; lia|].
  specialize (IH i Hi). unfold weigh in *. cbn. lia.
Qed.

Lemma weigh_full {A} (f : A → nat) (l : list A) k :
  (∀ x, x ∈ l → f x = k) → weigh f l = (length l * k)%nat.
Proof.
  intros H. induction l as [|x l IH]; [done|]. unfold weigh in *. cbn.
  rewrite IH, (H x) by set_solver. done.
Qed.

#[global] Arguments weigh : simpl never.
