(* ===== verification/MemPool.v ===== *)
(** * The argo fixed-size object pool (src/system/mem_pool/argo_mem_pool.c)

    The heap is a set of blocks handed out by [ARGO_ALLOC]; a C pointer is a
    block with a byte offset.  The pool keeps its free list inside the free
    objects themselves: the first 8 bytes of every object hold a 64-bit word,
    slab index above 28 offset bits. *)

From Stdlib Require Import ZArith Lia.
From stdpp Require Import base gmap list strings numbers.
From S2P Require Import Prelude.

Definition MP_METADATA_SZ : Z := 8.
Definition MP_OFFSET_BITS : Z := 28.
Definition MP_OFFSET_MASK : Z := Z.shiftl 1 MP_OFFSET_BITS - 1.
Definition MP_OFFSET_INVALID : Z := MP_OFFSET_MASK.
Definition MP_SLAB_SIZE : Z := Z.shiftl 1 MP_OFFSET_BITS.
Definition MP_SLABS_MAX : Z := 4096.

(** [struct argo_mem_pool].  [slabs] is the array of [MP_SLABS_MAX] pointers;
    an index without an entry holds NULL, an entry is the block the slab starts. *)
Record argo_mem_pool := mk_pool {
  slabs : gmap Z Z;
  mp_free_next : Z;
  mp_slab_cnt : Z;
  mp_obj_sz : Z;
  mp_obj_cnt : Z }.

(** The size of the structure: 4096 pointers, two 64-bit and two 32-bit fields. *)
Definition sizeof_argo_mem_pool : Z := MP_SLABS_MAX * 8 + 8 + 8 + 4 + 4.

(** The memory the program sees: live blocks with their size, the 64-bit words
    written so far, the pool structures, and the next block the allocator uses. *)
Record heap := mk_heap {
  blocks : gmap Z Z;
  words : gmap (Z * Z) Z;
  pools : gmap Z argo_mem_pool;
  next_block : Z }.

Abbreviation ptr := (Z * Z)%type.

Section allocator.
(** [ARGO_ALLOC]/[ARGO_FREE] come from a header that is not in the repository:
    whether the [n]-th request for [size] bytes succeeds, and what a fresh block
    contains, are parameters. *)
Context (alloc_ok : Z → Z → bool) (junk : ptr → Z).

Definition ARGO_ALLOC (size : Z) : M heap (option Z) := λ h,
  let b := next_block h in
  if alloc_ok b size
  then Ok (Some b) (mk_heap (<[b := size]> (blocks h)) (words h) (pools h) (b + 1))
  else Ok None (mk_heap (blocks h) (words h) (pools h) (b + 1)).

(** Freeing a block that is not live is undefined. *)
Definition ARGO_FREE (b : Z) : M heap unit := λ h,
  match blocks h !! b with
  | Some _ => Ok tt (mk_heap (delete b (blocks h)) (words h) (delete b (pools h)) (next_block h))
  | None => Undef
  end.

(** An aligned 64-bit access that stays inside a live block. *)
Definition valid_word (h : heap) (p : ptr) : bool :=
  match blocks h !! p.1 with
  | Some size => (0 <=? p.2) && (p.2 + 8 <=? size) && (p.2 mod 8 =? 0)
  | None => false
  end.

Definition load64 (p : ptr) : M heap Z := λ h,
  if valid_word h p then Ok (default (junk p) (words h !! p)) h else Undef.

Definition store64 (p : ptr) (v : Z) : M heap unit := λ h,
  if valid_word h p
  then Ok tt (mk_heap (blocks h) (<[p := v]> (words h)) (pools h) (next_block h))
  else Undef.

(** Access to the structure behind [mp]. *)
Definition load_mp (mp : Z) : M heap argo_mem_pool := λ h,
  match pools h !! mp with Some s => Ok s h | None => Undef end.

Definition store_mp (mp : Z) (s : argo_mem_pool) : M heap unit := λ h,
  match pools h !! mp with
  | Some _ => Ok tt (mk_heap (blocks h) (words h) (<[mp := s]> (pools h)) (next_block h))
  | None => Undef
  end.

(** The loop of [__mp_free_list_init] from iteration [i] on; [n] iterations are
    left. *)
Fixpoint free_list_loop (n : nat) (slab next_free obj_sz : Z) (addr : ptr) : M heap ptr :=
  match n with
  | O => mret addr
  | S k =>
      let next_free := u64 (next_free + obj_sz) in
      store64 addr (Z.lor slab next_free);;
      free_list_loop k slab next_free obj_sz (addr.1, addr.2 + obj_sz)
  end.

Definition __mp_free_list_init (addr : ptr) (obj_sz obj_cnt slab_inx : Z) : M heap unit :=
  let slab := u64 (Z.shiftl slab_inx MP_OFFSET_BITS) in
  addr ← free_list_loop (Z.to_nat (u32 (obj_cnt - 1))) slab 0 obj_sz addr;
  store64 addr (Z.lor slab MP_OFFSET_INVALID).

(** Sizes are [uint32_t]: every operation wraps. *)
Definition __mp_adjust_size_and_count (sz cnt : Z) : Z * Z :=
  let sz := u32 (sz + MP_METADATA_SZ) in
  let sz := Z.land (u32 (sz + 7)) (u32 (-8)) in
  if MP_SLAB_SIZE <? u32 (sz * cnt) then (sz, MP_SLAB_SIZE / sz) else (sz, cnt).

Definition set_slab (s : argo_mem_pool) (i : Z) (b : option Z) : argo_mem_pool :=
  mk_pool (partial_alter (λ _, b) i (slabs s)) (mp_free_next s) (mp_slab_cnt s)
    (mp_obj_sz s) (mp_obj_cnt s).

Definition set_free_next (s : argo_mem_pool) (v : Z) : argo_mem_pool :=
  mk_pool (slabs s) v (mp_slab_cnt s) (mp_obj_sz s) (mp_obj_cnt s).

Definition incr_slab_cnt (s : argo_mem_pool) : argo_mem_pool :=
  mk_pool (slabs s) (mp_free_next s) (u64 (mp_slab_cnt s + 1)) (mp_obj_sz s) (mp_obj_cnt s).

Definition __mp_create_new_slab (mp : Z) : M heap Z :=
  s ← load_mp mp;
  let slab_cnt := mp_slab_cnt s in
  let obj_sz := mp_obj_sz s in
  let obj_cnt := mp_obj_cnt s in
  if slab_cnt <? MP_SLABS_MAX then
    b ← ARGO_ALLOC (u32 (obj_sz * obj_cnt));
    store_mp mp (set_slab s slab_cnt b);;
    match b with
    | None => mret 1
    | Some b =>
        __mp_free_list_init (b, 0) obj_sz obj_cnt slab_cnt;;
        s ← load_mp mp;
        store_mp mp (set_free_next s (u64 (Z.shiftl slab_cnt MP_OFFSET_BITS)));;
        s ← load_mp mp;
        store_mp mp (incr_slab_cnt s);;
        mret 0
    end
  else undef.

Definition argo_mem_pool_create (obj_sz obj_cnt : Z) : M heap (option Z) :=
  let '(obj_sz, obj_cnt) := __mp_adjust_size_and_count obj_sz obj_cnt in
  mp ← ARGO_ALLOC sizeof_argo_mem_pool;
  match mp with
  | None => mret None
  | Some mp =>
      modify (λ h, mk_heap (blocks h) (words h)
                     (<[mp := mk_pool ∅ 0 0 obj_sz obj_cnt]> (pools h)) (next_block h));;
      r ← __mp_create_new_slab mp;
      if r =? 0 then mret (Some mp) else ARGO_FREE mp;; mret None
  end.

(** [for (i = 0; i < MP_SLABS_MAX; i++) if (mp->slabs[i]) ARGO_FREE(...)]. *)
Definition argo_mem_pool_destroy (mp : Z) : M heap unit :=
  for_range (Z.to_nat MP_SLABS_MAX) 0
    (λ i _, s ← load_mp mp;
            match slabs s !! i with
            | Some b => ARGO_FREE b
            | None => mret tt
            end) tt;;
  ARGO_FREE mp.

Definition argo_mem_pool_expand (mp : Z) : M heap Z :=
  s ← load_mp mp;
  if mp_slab_cnt s =? MP_SLABS_MAX then mret 1
  else
    r ← __mp_create_new_slab mp;
    if r =? 0 then mret 0 else mret 2.

Definition __MP_METADATA_TO_INX_AND_OFFSET (metadata : Z) : Z * Z :=
  (Z.shiftr metadata MP_OFFSET_BITS, u32 (Z.land metadata MP_OFFSET_MASK)).

Definition __MP_INX_AND_OFFSET_TO_ADDR (s : argo_mem_pool) (inx offset : Z) : M heap ptr :=
  b ← expect (slabs s !! inx); mret (b, offset).

Definition argo_mem_pool_get (mp : Z) : M heap (option ptr) :=
  s ← load_mp mp;
  let '(inx, offset) := __MP_METADATA_TO_INX_AND_OFFSET (mp_free_next s) in
  r ← (if offset =? MP_OFFSET_INVALID then
         e ← argo_mem_pool_expand mp;
         if e =? 0 then
           s ← load_mp mp;
           mret (Some (__MP_METADATA_TO_INX_AND_OFFSET (mp_free_next s)))
         else mret None
       else mret (Some (inx, offset)));
  match r with
  | None => mret None
  | Some (inx, offset) =>
      s ← load_mp mp;
      addr ← __MP_INX_AND_OFFSET_TO_ADDR s inx offset;
      v ← load64 addr;
      store_mp mp (set_free_next s v);;
      store64 addr (Z.lor (u64 (Z.shiftl inx MP_OFFSET_BITS)) offset);;
      mret (Some (addr.1, addr.2 + MP_METADATA_SZ))
  end.

Definition argo_mem_pool_put (mp : Z) (addr : ptr) : M heap unit :=
  let metadata := (addr.1, addr.2 - MP_METADATA_SZ) in
  new_free ← load64 metadata;
  s ← load_mp mp;
  store64 metadata (mp_free_next s);;
  store_mp mp (set_free_next s new_free).

End allocator.

(** ** Specification vocabulary *)

(** An object of the pool: slab index and byte offset inside the slab. *)
Abbreviation obj := (Z * Z)%type.

(** The 64-bit word that names an object. *)
Definition enc (o : obj) : Z := o.1 * 2 ^ 28 + o.2.

Definition is_obj (s : argo_mem_pool) (o : obj) : Prop :=
  0 ≤ o.1 < mp_slab_cnt s ∧ ∃ k, 0 ≤ k < mp_obj_cnt s ∧ o.2 = k * mp_obj_sz s.

(** The objects of slab [i] in address order, from the [k]-th on. *)
Definition slab_objs (i sz : Z) (k : Z) (n : nat) : list obj :=
  (λ j : nat, (i, (k + Z.of_nat j) * sz)) <$> seq 0 n.

Definition addr_of (s : argo_mem_pool) (o : obj) : option ptr :=
  b ← slabs s !! o.1; Some (b, o.2).

Definition word_at (junk : ptr → Z) (h : heap) (s : argo_mem_pool) (o : obj) : option Z :=
  p ← addr_of s o; Some (default (junk p) (words h !! p)).

(** [free] is the list threaded through the first words of the free objects,
    starting from the word [w]. *)
Fixpoint chain (junk : ptr → Z) (h : heap) (s : argo_mem_pool) (w : Z) (free : list obj) : Prop :=
  match free with
  | [] => 0 ≤ w ∧ w mod 2 ^ 28 = MP_OFFSET_INVALID
  | o :: free' => w = enc o ∧ ∃ w', word_at junk h s o = Some w' ∧ chain junk h s w' free'
  end.

(** The pool invariant: every object of every slab is either on the free list
    or handed out, never both, never twice; a handed-out object remembers its own
    name in its first word. *)
Record pool_base (junk : ptr → Z) (h : heap) (mp : Z) (s : argo_mem_pool)
    (free live : list obj) : Prop := {
  pi_pool : pools h !! mp = Some s;
  pi_sz : 8 ≤ mp_obj_sz s ∧ mp_obj_sz s mod 8 = 0;
  pi_cnt : 1 ≤ mp_obj_cnt s ∧ mp_obj_sz s * mp_obj_cnt s ≤ 2 ^ 28;
  pi_slab_cnt : 0 ≤ mp_slab_cnt s ≤ MP_SLABS_MAX;
  pi_slab : ∀ i, 0 ≤ i < mp_slab_cnt s →
     ∃ b, slabs s !! i = Some b ∧ blocks h !! b = Some (mp_obj_sz s * mp_obj_cnt s);
  pi_slab_none : ∀ i, is_Some (slabs s !! i) → 0 ≤ i < mp_slab_cnt s;
  pi_inj : ∀ i j b, slabs s !! i = Some b → slabs s !! j = Some b → i = j;
  pi_mp : is_Some (blocks h !! mp) ∧ ∀ i, slabs s !! i ≠ Some mp;
  pi_fresh : ∀ b, is_Some (blocks h !! b) → b < next_block h;
  pi_objs : ∀ o, o ∈ free ++ live ↔ is_obj s o;
  pi_nodup : NoDup (free ++ live);
  pi_live : ∀ o, o ∈ live → word_at junk h s o = Some (enc o) }.

Definition pool_inv (junk : ptr → Z) (h : heap) (mp : Z) (s : argo_mem_pool)
    (free live : list obj) : Prop :=
  pool_base junk h mp s free live ∧ chain junk h s (mp_free_next s) free.

(** ** Encoding of object names *)

Lemma enc_lor i off : 0 ≤ off < 2 ^ 28 → Z.lor (Z.shiftl i 28) off = enc (i, off).
Proof. intros. unfold enc. cbn. by rewrite lor_shiftl_add by lia. Qed.

Lemma decode_enc i off : 0 ≤ off < 2 ^ 28 →
  __MP_METADATA_TO_INX_AND_OFFSET (enc (i, off)) = (i, off).
Proof.
  intros Ho. unfold __MP_METADATA_TO_INX_AND_OFFSET, enc, MP_OFFSET_BITS. cbn [fst snd].
  rewrite Z.shiftr_div_pow2 by lia.
  change MP_OFFSET_MASK with (2 ^ 28 - 1). rewrite land_ones_mod by lia.
  rewrite Z.div_add_l, Z.div_small, Z.add_0_r by lia.
  rewrite Z.add_comm, Z.mod_add, Z.mod_small by lia.
  rewrite u32_small by lia. done.
Qed.

Lemma decode_invalid w : 0 ≤ w → w mod 2 ^ 28 = MP_OFFSET_INVALID →
  (__MP_METADATA_TO_INX_AND_OFFSET w).2 = MP_OFFSET_INVALID.
Proof.
  intros Hw Hm. cbn. change MP_OFFSET_MASK with (2 ^ 28 - 1).
  rewrite land_ones_mod, Hm by lia. by apply u32_small.
Qed.

(** Object offsets fit the 28 offset bits and are never the end mark. *)
Lemma obj_off_range sz cnt k :
  8 ≤ sz → sz * cnt ≤ 2 ^ 28 → 0 ≤ k < cnt → 0 ≤ k * sz ∧ k * sz + sz ≤ 2 ^ 28.
Proof. intros. nia. Qed.

Lemma slab_shift_small i : 0 ≤ i < MP_SLABS_MAX →
  u64 (Z.shiftl i MP_OFFSET_BITS) = Z.shiftl i 28.
Proof.
  intros Hi. unfold MP_OFFSET_BITS. rewrite Z.shiftl_mul_pow2 by lia.
  unfold MP_SLABS_MAX in Hi. apply u64_small. lia.
Qed.

(** ** Slab initialisation *)

Section slabs.
Context (junk : ptr → Z).

Lemma valid_word_true h b off size :
  blocks h !! b = Some size → 0 ≤ off → off + 8 ≤ size → off mod 8 = 0 →
  valid_word h (b, off) = true.
Proof.
  intros Hb H1 H2 H3. unfold valid_word. cbn. rewrite Hb.
  rewrite !andb_true_iff, !Z.leb_le, Z.eqb_eq. lia.
Qed.

Lemma mul_mod_8 k sz : sz mod 8 = 0 → (k * sz) mod 8 = 0.
Proof. intros H. rewrite Z.mul_mod, H, Z.mul_0_r by lia. done. Qed.

Lemma free_list_loop_spec slab sz b size n : ∀ k h,
  8 ≤ sz → sz mod 8 = 0 → 0 ≤ k → blocks h !! b = Some size →
  (k + Z.of_nat n) * sz ≤ size → size ≤ 2 ^ 28 →
  ∃ ws, free_list_loop n slab (k * sz) sz (b, k * sz) h
        = Ok (b, (k + Z.of_nat n) * sz) (mk_heap (blocks h) ws (pools h) (next_block h))
   ∧ (∀ j, k ≤ j < k + Z.of_nat n → ws !! (b, j * sz) = Some (Z.lor slab ((j + 1) * sz)))
   ∧ (∀ p, (∀ j, k ≤ j < k + Z.of_nat n → p ≠ (b, j * sz)) → ws !! p = words h !! p).
Proof.
  induction n as [|n IH]; intros k h Hsz H8 Hk Hb Hn Hsize.
  - exists (words h). rewrite Z.add_0_r. split_and!; [|lia|done]. by destruct h.
  - cbn [free_list_loop]. unfold mbind, M_bind, store64.
    rewrite (valid_word_true h b (k * sz) size); [|done|nia|nia|by apply mul_mod_8].
    cbn [fst snd]. cbv beta iota. rewrite u64_small by nia.
    replace (k * sz + sz) with ((k + 1) * sz) by lia.
    destruct (IH (k + 1) (mk_heap (blocks h) (<[(b, k * sz) := Z.lor slab ((k + 1) * sz)]> (words h))
      (pools h) (next_block h))) as (ws & E & Hin & Hout); try done; try lia.
    exists ws. rewrite E. cbn [blocks pools next_block].
    replace (k + 1 + Z.of_nat n) with (k + Z.of_nat (S n)) in * by lia.
    split_and!; [done| |].
    + intros j Hj. destruct (decide (j = k)) as [->|]; [|apply Hin; lia].
      rewrite Hout; [by apply lookup_insert_eq|]. intros j' Hj' [= ?]. nia.
    + intros p Hp. rewrite Hout; [|intros; apply Hp; lia]. cbn.
      apply lookup_insert_ne. apply not_eq_sym, Hp. lia.
Qed.

Lemma mp_free_list_init_spec b sz cnt i h :
  8 ≤ sz → sz mod 8 = 0 → 1 ≤ cnt → sz * cnt ≤ 2 ^ 28 → 0 ≤ i < MP_SLABS_MAX →
  blocks h !! b = Some (sz * cnt) →
  ∃ ws, __mp_free_list_init (b, 0) sz cnt i h
        = Ok tt (mk_heap (blocks h) ws (pools h) (next_block h))
   ∧ (∀ j, 0 ≤ j < cnt - 1 → ws !! (b, j * sz) = Some (enc (i, (j + 1) * sz)))
   ∧ ws !! (b, (cnt - 1) * sz) = Some (enc (i, MP_OFFSET_INVALID))
   ∧ (∀ b' off, b' ≠ b → ws !! (b', off) = words h !! (b', off)).
Proof.
  intros Hsz H8 Hcnt Hle Hi Hb. unfold __mp_free_list_init.
  rewrite slab_shift_small by done.
  rewrite u32_small by nia.
  destruct (free_list_loop_spec (Z.shiftl i 28) sz b (sz * cnt) (Z.to_nat (cnt - 1)) 0 h)
    as (ws & E & Hin & Hout); try done; try nia.
  cbn in E. unfold mbind, M_bind. change (0 * sz) with 0 in E. rewrite E.
  rewrite Z2Nat.id in * by lia. rewrite ?Z.add_0_l in *. cbn [fst snd].
  unfold store64. rewrite (valid_word_true _ b _ (sz * cnt));
    [|done|nia|nia|by apply mul_mod_8].
  eexists. split; [done|]. cbn [words].
  split_and!.
  - intros j Hj. rewrite lookup_insert_ne by (intros [= ?]; nia).
    rewrite Hin by lia. rewrite enc_lor; [done|]. nia.
  - rewrite lookup_insert_eq. rewrite enc_lor; [done|]. unfold MP_OFFSET_INVALID.
    change MP_OFFSET_MASK with (2 ^ 28 - 1). lia.
  - intros b' off Hne. rewrite lookup_insert_ne by congruence.
    apply Hout. congruence.
Qed.

(** ** Lists of objects *)

Lemma elem_of_slab_objs i sz k n o :
  o ∈ slab_objs i sz k n ↔ ∃ j, k ≤ j < k + Z.of_nat n ∧ o = (i, j * sz).
Proof.
  unfold slab_objs. rewrite list_elem_of_fmap. split.
  - intros (j & -> & Hj%elem_of_seq). exists (k + Z.of_nat j). split; [lia|done].
  - intros (j & Hj & ->). exists (Z.to_nat (j - k)). split; [do 2 f_equal; lia|].
    apply elem_of_seq. lia.
Qed.

Lemma slab_objs_NoDup i sz k n : 0 < sz → NoDup (slab_objs i sz k n).
Proof.
  intros Hsz. apply NoDup_fmap_2_strong; [|apply NoDup_seq].
  intros x y _ _ [= H]. nia.
Qed.

Lemma slab_objs_S i sz k n :
  slab_objs i sz k (S n) = (i, k * sz) :: slab_objs i sz (k + 1) n.
Proof.
  unfold slab_objs. cbn. f_equal; [do 2 f_equal; lia|].
  rewrite <- fmap_S_seq, <- list_fmap_compose. apply list_fmap_ext.
  intros j x _. cbn. do 2 f_equal. lia.
Qed.

(** ** The free chain only depends on the first words of its objects *)

Lemma chain_frame h s h' s' free : ∀ w,
  (∀ o, o ∈ free → word_at junk h' s' o = word_at junk h s o) →
  chain junk h s w free → chain junk h' s' w free.
Proof.
  induction free as [|o free IH]; intros w Hw; cbn; [done|].
  intros (-> & w' & Ho & Hc). split; [done|]. exists w'.
  rewrite Hw by set_solver. split; [done|]. apply IH; [|done].
  intros o' Ho'. apply Hw. set_solver.
Qed.

(** A freshly initialised slab is one chain. *)
Lemma chain_slab h s i b sz cnt n : ∀ k,
  slabs s !! i = Some b → 0 ≤ i → 8 ≤ sz → sz * cnt ≤ 2 ^ 28 → 0 ≤ k →
  k + Z.of_nat (S n) = cnt →
  (∀ j, 0 ≤ j < cnt - 1 → words h !! (b, j * sz) = Some (enc (i, (j + 1) * sz))) →
  words h !! (b, (cnt - 1) * sz) = Some (enc (i, MP_OFFSET_INVALID)) →
  chain junk h s (enc (i, k * sz)) (slab_objs i sz k (S n)).
Proof.
  induction n as [|n IH]; intros k Hs Hi Hsz Hle Hk Hn Hin Hlast; rewrite slab_objs_S.
  - split; [done|]. eexists. unfold word_at, addr_of. cbn. rewrite Hs. cbn.
    replace k with (cnt - 1) by lia. rewrite Hlast. split; [done|]. cbn.
    unfold enc, MP_OFFSET_INVALID. change MP_OFFSET_MASK with (2 ^ 28 - 1). cbn [fst snd].
    rewrite Z.add_comm, Z.mod_add by lia. split; [nia|]. by apply Z.mod_small.
  - split; [done|]. eexists. unfold word_at, addr_of. cbn. rewrite Hs. cbn.
    rewrite Hin by lia. split; [done|]. apply IH; try done; lia.
Qed.

End slabs.

(** ** Rules for the primitive accesses *)

Section pool.
Context (alloc_ok : Z → Z → bool) (junk : ptr → Z).

Definition with_pool (h : heap) (mp : Z) (s : argo_mem_pool) : heap :=
  mk_heap (blocks h) (words h) (<[mp := s]> (pools h)) (next_block h).

Lemma wp_load_mp mp h s (Q : argo_mem_pool → heap → Prop) :
  pools h !! mp = Some s → Q s h → wp (load_mp mp) Q h.
Proof. intros E HQ. unfold wp, load_mp. by rewrite E. Qed.

Lemma wp_store_mp mp h s s' (Q : unit → heap → Prop) :
  pools h !! mp = Some s → Q tt (with_pool h mp s') → wp (store_mp mp s') Q h.
Proof. intros E HQ. unfold wp, store_mp. by rewrite E. Qed.

Lemma wp_alloc size h (Q : option Z → heap → Prop) :
  (alloc_ok (next_block h) size = false →
     Q None (mk_heap (blocks h) (words h) (pools h) (next_block h + 1))) →
  (alloc_ok (next_block h) size = true →
     Q (Some (next_block h))
       (mk_heap (<[next_block h := size]> (blocks h)) (words h) (pools h) (next_block h + 1))) →
  wp (ARGO_ALLOC alloc_ok size) Q h.
Proof. intros HN HS. unfold wp, ARGO_ALLOC. destruct (alloc_ok _ _); auto. Qed.

Lemma wp_load64 p h (Q : Z → heap → Prop) :
  valid_word h p = true → Q (default (junk p) (words h !! p)) h → wp (load64 junk p) Q h.
Proof. intros E HQ. unfold wp, load64. by rewrite E. Qed.

Lemma wp_store64 p v h (Q : unit → heap → Prop) :
  valid_word h p = true →
  Q tt (mk_heap (blocks h) (<[p := v]> (words h)) (pools h) (next_block h)) →
  wp (store64 p v) Q h.
Proof. intros E HQ. unfold wp, store64. by rewrite E. Qed.

(** What a new slab does to the pool, when the allocator provides it. *)
Definition new_slab_pool (s : argo_mem_pool) (b : Z) : argo_mem_pool :=
  mk_pool (<[mp_slab_cnt s := b]> (slabs s)) (enc (mp_slab_cnt s, 0)) (mp_slab_cnt s + 1)
    (mp_obj_sz s) (mp_obj_cnt s).

Lemma is_obj_new_slab s b o : 0 ≤ mp_slab_cnt s → 1 ≤ mp_obj_cnt s →
  is_obj (new_slab_pool s b) o ↔
  o ∈ slab_objs (mp_slab_cnt s) (mp_obj_sz s) 0 (Z.to_nat (mp_obj_cnt s)) ∨ is_obj s o.
Proof.
  intros Hc Hn. rewrite elem_of_slab_objs, Z2Nat.id by lia. unfold is_obj. cbn.
  destruct o as [i off]. cbn. split.
  - intros (Hi & k & Hk & ->). destruct (decide (i = mp_slab_cnt s)) as [->|].
    + left. exists k. split; [lia|done].
    + right. split; [lia|]. eauto.
  - intros [(j & Hj & [= -> ->])|(Hi & k & Hk & ->)].
    + split; [lia|]. exists j. split; [lia|done].
    + split; [lia|]. eauto.
Qed.

Lemma addr_of_new_slab s b o : o.1 ≠ mp_slab_cnt s →
  addr_of (new_slab_pool s b) o = addr_of s o.
Proof. intros H. unfold addr_of. cbn. by rewrite lookup_insert_ne. Qed.

(** Live objects keep their words when only other blocks are written. *)
Lemma word_at_new_slab h h' s b o :
  o.1 ≠ mp_slab_cnt s → slabs s !! o.1 ≠ Some b →
  (∀ b' off, b' ≠ b → words h' !! (b', off) = words h !! (b', off)) →
  word_at junk h' (new_slab_pool s b) o = word_at junk h s o.
Proof.
  intros Hne Hb Hw. unfold word_at. rewrite addr_of_new_slab by done.
  unfold addr_of. destruct (slabs s !! o.1) as [b'|]; cbn; [|done].
  by rewrite Hw by congruence.
Qed.

Lemma new_slab_inv h mp s live b ws :
  pool_base junk h mp s [] live → mp_slab_cnt s < MP_SLABS_MAX →
  b = next_block h →
  (∀ j, 0 ≤ j < mp_obj_cnt s - 1 →
     ws !! (b, j * mp_obj_sz s) = Some (enc (mp_slab_cnt s, (j + 1) * mp_obj_sz s))) →
  ws !! (b, (mp_obj_cnt s - 1) * mp_obj_sz s) = Some (enc (mp_slab_cnt s, MP_OFFSET_INVALID)) →
  (∀ b' off, b' ≠ b → ws !! (b', off) = words h !! (b', off)) →
  pool_inv junk
    (mk_heap (<[b := mp_obj_sz s * mp_obj_cnt s]> (blocks h)) ws
       (<[mp := new_slab_pool s b]> (pools h)) (next_block h + 1))
    mp (new_slab_pool s b)
    (slab_objs (mp_slab_cnt s) (mp_obj_sz s) 0 (Z.to_nat (mp_obj_cnt s))) live.
Proof.
  intros Hbase Hlt Hb Hin Hlast Hout.
  destruct Hbase as [Hp [Hsz H8] [Hcnt Hle] Hsc Hslab Hnone Hinj [Hmp Hmps] Hfr Hobjs Hnd Hlive].
  assert (Hfresh : ∀ i b', slabs s !! i = Some b' → b' ≠ b).
  { intros i b' E ->. destruct (Hslab i) as (b2 & E2 & B2); [eauto|].
    rewrite E in E2. injection E2 as <-. subst b. specialize (Hfr (next_block h)). rewrite B2 in Hfr. specialize (Hfr ltac:(eauto)). lia. }
  assert (HlI : ∀ o, o ∈ live → is_obj s o) by (intros o Ho; apply Hobjs; done).
  split; [split; cbn|].
  - by apply lookup_insert_eq.
  - done.
  - done.
  - lia.
  - intros i Hi. destruct (decide (i = mp_slab_cnt s)) as [->|].
    + exists b. rewrite !lookup_insert_eq. done.
    + destruct (Hslab i) as (b' & E & B); [lia|]. exists b'.
      rewrite lookup_insert_ne by done. split; [done|].
      rewrite lookup_insert_ne; [done|]. apply not_eq_sym. eauto.
  - intros i [b' E]. destruct (decide (i = mp_slab_cnt s)) as [->|]; [lia|].
    rewrite lookup_insert_ne in E by done. specialize (Hnone i). rewrite E in Hnone.
    specialize (Hnone ltac:(eauto)). lia.
  - intros i j b' Ei Ej. rewrite !lookup_insert in Ei, Ej.
    repeat case_decide; simplify_eq; eauto; exfalso; eapply Hfresh; eauto.
  - split.
    + destruct (decide (mp = b)) as [->|]; [rewrite lookup_insert_eq|rewrite lookup_insert_ne by done]; eauto.
    + intros i. rewrite lookup_insert. case_decide; [|apply Hmps].
      intros [= ->]. subst. apply Hfr in Hmp. lia.
  - intros b' [x E]. rewrite lookup_insert in E. case_decide; [lia|].
    specialize (Hfr b'). rewrite E in Hfr. specialize (Hfr ltac:(eauto)). lia.
  - intros o. rewrite is_obj_new_slab by lia. rewrite elem_of_app.
    rewrite <- Hobjs. done.
  - apply list.NoDup_app. split_and!; [apply slab_objs_NoDup; lia| |done].
    intros o Ho Hl. apply elem_of_slab_objs in Ho as (j & _ & ->).
    apply HlI in Hl as [Hl _]. cbn in Hl. lia.
  - intros o Ho. rewrite <- (Hlive o Ho). specialize (HlI o Ho) as [Hi _].
    apply word_at_new_slab; [lia| |done].
    intros E. eapply Hfresh; [exact E|done].
  - change (mp_free_next _) with (enc (mp_slab_cnt s, 0 * mp_obj_sz s)).
    destruct (Z.to_nat (mp_obj_cnt s)) eqn:En; [lia|].
    eapply (chain_slab junk _ _ _ b _ (mp_obj_cnt s)); cbn; try done; try lia.
    by apply lookup_insert_eq.
Qed.

Definition fresh_heap (h : heap) : heap :=
  mk_heap (blocks h) (words h) (pools h) (next_block h + 1).

Lemma set_slab_none_id s i : slabs s !! i = None → set_slab s i None = s.
Proof.
  intros E. unfold set_slab. destruct s as [sl f c z n]. cbn in *. f_equal.
  change (delete i sl = sl). by apply delete_id.
Qed.

Lemma slab_beyond_none h mp s free live : pool_base junk h mp s free live →
  slabs s !! mp_slab_cnt s = None.
Proof.
  intros Hb. destruct (slabs s !! mp_slab_cnt s) eqn:E; [|done].
  pose proof (pi_slab_none _ _ _ _ _ _ Hb (mp_slab_cnt s)) as H. rewrite E in H.
  specialize (H ltac:(eauto)). lia.
Qed.

Lemma slab_size_u32 h mp s free live : pool_base junk h mp s free live →
  u32 (mp_obj_sz s * mp_obj_cnt s) = mp_obj_sz s * mp_obj_cnt s.
Proof. intros [? [] [] ????????]. apply u32_small. nia. Qed.

Lemma wp_create_new_slab h mp s live (Q : Z → heap → Prop) :
  pool_base junk h mp s [] live → mp_slab_cnt s < MP_SLABS_MAX →
  (alloc_ok (next_block h) (mp_obj_sz s * mp_obj_cnt s) = false → Q 1 (fresh_heap h)) →
  (∀ ws, let h' := mk_heap (<[next_block h := mp_obj_sz s * mp_obj_cnt s]> (blocks h)) ws
                     (<[mp := new_slab_pool s (next_block h)]> (pools h)) (next_block h + 1) in
     alloc_ok (next_block h) (mp_obj_sz s * mp_obj_cnt s) = true →
     (∀ b off, b ≠ next_block h → ws !! (b, off) = words h !! (b, off)) →
     pool_inv junk h' mp (new_slab_pool s (next_block h))
       (slab_objs (mp_slab_cnt s) (mp_obj_sz s) 0 (Z.to_nat (mp_obj_cnt s))) live →
     Q 0 h') →
  wp (__mp_create_new_slab alloc_ok mp) Q h.
Proof.
  intros Hb Hlt Hfail Hok. pose proof Hb as [Hp [Hsz H8] [Hcnt Hle] Hsc _ _ _ _ _ _ _ _].
  unfold __mp_create_new_slab. wp_step. eapply wp_load_mp; [done|].
  destruct (Z.ltb_spec (mp_slab_cnt s) MP_SLABS_MAX); [|lia].
  rewrite (slab_size_u32 _ _ _ _ _ Hb).
  wp_step. apply wp_alloc; intros Ha.
  - wp_step. eapply wp_store_mp; [done|]. wp_step.
    rewrite (set_slab_none_id _ _ (slab_beyond_none _ _ _ _ _ Hb)).
    unfold with_pool. cbn. rewrite insert_id by done. by apply Hfail.
  - wp_step. eapply wp_store_mp; [done|]. wp_step. unfold with_pool. cbn.
    set (h1 := mk_heap _ _ _ _).
    destruct (mp_free_list_init_spec (next_block h) (mp_obj_sz s) (mp_obj_cnt s) (mp_slab_cnt s) h1)
      as (ws & E & Hin & Hlast & Hout); try done; try lia; try (cbn; by apply lookup_insert_eq).
    unfold wp at 1. rewrite E. wp_step. eapply wp_load_mp; [cbn; by apply lookup_insert_eq|].
    wp_step. eapply wp_store_mp; [cbn; by apply lookup_insert_eq|].
    wp_step. eapply wp_load_mp; [cbn; by apply lookup_insert_eq|].
    wp_step. eapply wp_store_mp; [cbn; by apply lookup_insert_eq|].
    wp_step. unfold with_pool. cbn. rewrite !insert_insert_eq.
    rewrite slab_shift_small by lia.
    specialize (Hok ws). unfold new_slab_pool, enc in Hok. cbn in Hok. rewrite Z.add_0_r in Hok.
    unfold incr_slab_cnt, set_free_next, set_slab. cbn. rewrite Z.shiftl_mul_pow2 by lia.
    rewrite u64_small by (unfold MP_SLABS_MAX in *; lia).
    apply Hok; [done|done|].
    pose proof (new_slab_inv h mp s live _ ws Hb Hlt eq_refl Hin Hlast Hout) as HI.
    unfold new_slab_pool, enc in HI. cbn in HI. rewrite Z.add_0_r in HI. done.
Qed.

(** ** Handing out and taking back objects *)

(** The heap after the header word of an object and the head of the free list
    have been exchanged. *)
Definition swap_head (h : heap) (mp : Z) (s : argo_mem_pool) (p : ptr) (v w : Z) : heap :=
  mk_heap (blocks h) (<[p := v]> (words h)) (<[mp := set_free_next s w]> (pools h)) (next_block h).

Lemma obj_addr h mp s free live o : pool_base junk h mp s free live → is_obj s o →
  ∃ b, slabs s !! o.1 = Some b ∧ addr_of s o = Some (b, o.2) ∧ valid_word h (b, o.2) = true
     ∧ blocks h !! b = Some (mp_obj_sz s * mp_obj_cnt s) ∧ 0 ≤ o.2 ∧ o.2 + mp_obj_sz s ≤ 2 ^ 28
     ∧ o.2 + mp_obj_sz s ≤ mp_obj_sz s * mp_obj_cnt s.
Proof.
  intros [_ [Hsz H8] [Hcnt Hle] _ Hslab _ _ _ _ _ _ _] [Hi (k & Hk & Ho)].
  destruct (Hslab _ Hi) as (b & E & B). exists b. unfold addr_of. rewrite E. cbn.
  assert (0 ≤ o.2 ∧ o.2 + mp_obj_sz s ≤ mp_obj_sz s * mp_obj_cnt s) by (rewrite Ho; nia).
  split_and!; try done; try lia.
  eapply valid_word_true; [done|lia|lia|]. rewrite Ho. by apply mul_mod_8.
Qed.

Lemma addr_of_inj h mp s free live o o' p : pool_base junk h mp s free live →
  addr_of s o = Some p → addr_of s o' = Some p → o = o'.
Proof.
  intros Hb. unfold addr_of. destruct o as [i x], o' as [j y]. cbn.
  destruct (slabs s !! i) as [b|] eqn:Ei; [|done].
  destruct (slabs s !! j) as [b'|] eqn:Ej; [|done]. cbn. intros [= <-] [= -> ->].
  f_equal. by eapply (pi_inj _ _ _ _ _ _ Hb).
Qed.

Lemma word_at_swap h mp s free live o p v w o' : pool_base junk h mp s free live →
  addr_of s o = Some p →
  word_at junk (swap_head h mp s p v w) (set_free_next s w) o'
  = if decide (o' = o) then Some v else word_at junk h s o'.
Proof.
  intros Hb Ho. unfold word_at. change (addr_of (set_free_next s w) o') with (addr_of s o').
  case_decide as Hd.
  - subst. rewrite Ho. cbn. by rewrite lookup_insert_eq.
  - destruct (addr_of s o') as [p'|] eqn:E; cbn; [|done].
    rewrite lookup_insert_ne; [done|]. intros ->. apply Hd. eapply addr_of_inj; eauto.
Qed.

Lemma swap_head_base h mp s p v w f1 l1 f2 l2 :
  pool_base junk h mp s f1 l1 → f2 ++ l2 ≡ₚ f1 ++ l1 →
  (∀ o, o ∈ l2 → word_at junk (swap_head h mp s p v w) (set_free_next s w) o = Some (enc o)) →
  pool_base junk (swap_head h mp s p v w) mp (set_free_next s w) f2 l2.
Proof.
  intros [Hp Hsz Hcnt Hsc Hslab Hnone Hinj Hmp Hfr Hobjs Hnd Hlive] Hperm Hl2.
  split; cbn; try done.
  - by apply lookup_insert_eq.
  - intros o. rewrite Hperm. apply Hobjs.
  - by rewrite Hperm.
Qed.

Lemma get_head h mp s o free live :
  pool_inv junk h mp s (o :: free) live →
  ∃ b w, slabs s !! o.1 = Some b ∧ 0 ≤ o.2 < 2 ^ 28 ∧ 0 ≤ o.1 < MP_SLABS_MAX ∧
    valid_word h (b, o.2) = true ∧ default (junk (b, o.2)) (words h !! (b, o.2)) = w ∧
    pool_inv junk (swap_head h mp s (b, o.2) (enc o) w) mp (set_free_next s w) free (o :: live).
Proof.
  intros [Hb (He & w & Hw & Hc)].
  assert (Ho : is_obj s o) by (apply (pi_objs _ _ _ _ _ _ Hb); set_solver).
  destruct (obj_addr _ _ _ _ _ _ Hb Ho) as (b & Es & Ea & Ev & _ & H0 & H1 & _).
  pose proof (pi_sz _ _ _ _ _ _ Hb) as [Hsz _].
  exists b, w. split_and!; try done; try lia.
  - apply Ho.
  - destruct Ho as [Ho _]. pose proof (pi_slab_cnt _ _ _ _ _ _ Hb). lia.
  - unfold word_at in Hw. rewrite Ea in Hw. cbn in Hw. congruence.
  - pose proof (pi_nodup _ _ _ _ _ _ Hb) as Hnd. cbn in Hnd. apply list.NoDup_cons in Hnd as [Hn1 Hn2].
    split.
    + eapply swap_head_base; [done| |].
      * by rewrite <- Permutation_middle.
      * intros o' Ho'. rewrite (word_at_swap _ _ _ _ _ o _ _ _ o' Hb Ea).
        case_decide; [congruence|]. apply (pi_live _ _ _ _ _ _ Hb).
        by apply elem_of_cons in Ho' as [|].
    + cbn. eapply chain_frame; [|exact Hc]. intros o' Ho'.
      rewrite (word_at_swap _ _ _ _ _ o _ _ _ o' Hb Ea). case_decide; [set_solver|done].
Qed.

(** The second half of [argo_mem_pool_get]: take the object the free list starts with. *)
Lemma get_take h mp s o free live (Q : option ptr → heap → Prop) :
  pool_inv junk h mp s (o :: free) live →
  (∀ b w, slabs s !! o.1 = Some b → valid_word h (b, o.2) = true →
     pool_inv junk (swap_head h mp s (b, o.2) (enc o) w) mp (set_free_next s w) free (o :: live) →
     Q (Some (b, o.2 + 8)) (swap_head h mp s (b, o.2) (enc o) w)) →
  wp (s ← load_mp mp;
      addr ← __MP_INX_AND_OFFSET_TO_ADDR s o.1 o.2;
      v ← load64 junk addr;
      store_mp mp (set_free_next s v);;
      store64 addr (Z.lor (u64 (Z.shiftl o.1 MP_OFFSET_BITS)) o.2);;
      mret (Some (addr.1, addr.2 + MP_METADATA_SZ))) Q h.
Proof.
  intros Hi HQ. pose proof Hi as [Hb _].
  destruct (get_head _ _ _ _ _ _ Hi) as (b & w & Es & Hoff & Hinx & Ev & Ew & Hi').
  wp_step. eapply wp_load_mp; [apply (pi_pool _ _ _ _ _ _ Hb)|].
  wp_step. unfold __MP_INX_AND_OFFSET_TO_ADDR. wp_step. eapply wp_expect; [done|].
  wp_step. wp_step. apply wp_load64; [done|]. rewrite Ew.
  wp_step. eapply wp_store_mp; [apply (pi_pool _ _ _ _ _ _ Hb)|].
  wp_step. apply wp_store64; [done|]. wp_step.
  rewrite slab_shift_small, enc_lor by lia. cbn [fst snd].
  rewrite <- surjective_pairing. by apply HQ.
Qed.

(** The address the client receives for object [o]: just after its header. *)
Definition handle (s : argo_mem_pool) (o : obj) : option ptr :=
  b ← slabs s !! o.1; Some (b, o.2 + MP_METADATA_SZ).

(** Words that [get] and [put] may change: the headers of the objects of the
    pool that are not handed out, the header of the object in transit, and the
    block a new slab lives in. *)
Definition frame (h h' : heap) (s : argo_mem_pool) (o : obj) : Prop :=
  ∀ q, q.1 < next_block h → addr_of s o ≠ Some q → words h' !! q = words h !! q.

Definition get_post (h : heap) (mp : Z) (s : argo_mem_pool) (free live : list obj)
    (r : option ptr) (h' : heap) : Prop :=
  match r with
  | None =>
      free = [] ∧ (mp_slab_cnt s = MP_SLABS_MAX
                   ∨ alloc_ok (next_block h) (mp_obj_sz s * mp_obj_cnt s) = false)
      ∧ words h' = words h ∧ pool_inv junk h' mp s [] live
  | Some p => ∃ s' o free',
      handle s' o = Some p ∧ (o ∉ live) ∧ frame h h' s o ∧
      pool_inv junk h' mp s' free' (o :: live) ∧
      (slabs s ⊆ slabs s' ∧ mp_obj_sz s' = mp_obj_sz s) ∧
      ((free = o :: free' ∧ mp_slab_cnt s' = mp_slab_cnt s)
       ∨ (free = [] ∧ o = (mp_slab_cnt s, 0) ∧ mp_slab_cnt s' = mp_slab_cnt s + 1
          ∧ o :: free' = slab_objs (mp_slab_cnt s) (mp_obj_sz s) 0 (Z.to_nat (mp_obj_cnt s))))
  end.

Lemma argo_mem_pool_get_wp h mp s free live :
  pool_inv junk h mp s free live →
  wp (argo_mem_pool_get alloc_ok junk mp) (get_post h mp s free live) h.
Proof.
  intros Hi. pose proof Hi as [Hb Hc]. unfold argo_mem_pool_get.
  wp_step. eapply wp_load_mp; [apply (pi_pool _ _ _ _ _ _ Hb)|].
  destruct free as [|o free].
  - destruct Hc as [Hw Hm]. pose proof (decode_invalid _ Hw Hm) as Hd.
    destruct (__MP_METADATA_TO_INX_AND_OFFSET (mp_free_next s)) as [i0 o0]. cbn in Hd. subst o0.
    rewrite Z.eqb_refl. wp_step. wp_step. unfold argo_mem_pool_expand. wp_step.
    eapply wp_load_mp; [apply (pi_pool _ _ _ _ _ _ Hb)|].
    destruct (Z.eqb_spec (mp_slab_cnt s) MP_SLABS_MAX) as [Hmax|Hmax].
    + repeat wp_step. cbn. split_and!; auto.
    + wp_step. eapply wp_create_new_slab; [done|pose proof (pi_slab_cnt _ _ _ _ _ _ Hb); lia| |].
      * intros Ha. repeat wp_step. cbn. split_and!; auto. split; [|done].
        destruct Hb. split; try done. cbn. intros b Hbk. apply pi_fresh0 in Hbk. lia.
      * intros ws h1 Ha Hout Hi1. cbn [Z.eqb]. wp_step. cbn [Z.eqb]. wp_step.
        eapply wp_load_mp; [apply (pi_pool _ _ _ _ _ _ (proj1 Hi1))|]. wp_step.
        change (mp_free_next (new_slab_pool s (next_block h))) with (enc (mp_slab_cnt s, 0)).
        rewrite decode_enc by lia.
        pose proof (pi_cnt _ _ _ _ _ _ Hb) as [Hcnt _].
        destruct (Z.to_nat (mp_obj_cnt s)) as [|n] eqn:En; [lia|].
        rewrite slab_objs_S in Hi1. change (0 * mp_obj_sz s) with 0 in Hi1.
        eapply (get_take h1 mp _ (mp_slab_cnt s, 0)); [exact Hi1|].
        intros b w Es Ev Hi2.
        exists (set_free_next (new_slab_pool s (next_block h)) w), (mp_slab_cnt s, 0),
          (slab_objs (mp_slab_cnt s) (mp_obj_sz s) (0 + 1) n).
        split_and!.
        -- unfold handle. cbn in Es |- *. by rewrite Es.
        -- intros Hl. assert (Ho : is_obj s (mp_slab_cnt s, 0)) by by apply (pi_objs _ _ _ _ _ _ Hb).
           destruct Ho as [Ho _]. cbn in Ho. lia.
        -- intros q Hq Hne. cbn in Es. rewrite lookup_insert_eq in Es. injection Es as <-.
           cbn. rewrite lookup_insert_ne by (intros <-; cbn in Hq; lia).
           destruct q as [qb qo]. apply Hout. cbn in Hq. lia.
        -- done.
        -- cbn. apply insert_subseteq. eapply slab_beyond_none; done.
        -- done.
        -- right. split_and!; try done. by rewrite ?En, slab_objs_S.
  - destruct (get_head _ _ _ _ _ _ Hi) as (b & w & Es & Hoff & Hinx & _).
    destruct Hc as [He _]. rewrite He. rewrite (surjective_pairing o), decode_enc by done.
    assert (Ho : is_obj s o) by (apply (pi_objs _ _ _ _ _ _ Hb); set_solver).
    destruct (obj_addr _ _ _ _ _ _ Hb Ho) as (_ & _ & _ & _ & _ & _ & Hle & _).
    pose proof (pi_sz _ _ _ _ _ _ Hb) as [Hsz _].
    destruct (Z.eqb_spec o.2 MP_OFFSET_INVALID) as [E|_].
    { change MP_OFFSET_INVALID with (2 ^ 28 - 1) in E. lia. }
    wp_step. wp_step. eapply get_take; [done|]. clear b Es.
    intros b w' Es Ev Hi'. exists (set_free_next s w'), o, free. split_and!.
    + unfold handle. cbn. by rewrite Es.
    + pose proof (pi_nodup _ _ _ _ _ _ Hb) as Hnd. cbn in Hnd.
      apply list.NoDup_cons in Hnd as [Hn _]. set_solver.
    + intros q _ Hne. cbn. rewrite lookup_insert_ne; [done|].
      intros <-. apply Hne. unfold addr_of. by rewrite Es.
    + done.
    + done.
    + done.
    + left. by destruct o.
Qed.

Lemma argo_mem_pool_put_wp h mp s free live live' o p :
  pool_inv junk h mp s free live → live ≡ₚ o :: live' → handle s o = Some p →
  wp (argo_mem_pool_put junk mp p)
     (λ _ h', pool_inv junk h' mp (set_free_next s (enc o)) (o :: free) live' ∧ frame h h' s o) h.
Proof.
  intros [Hb Hc] Hl Hh.
  assert (Ho : is_obj s o).
  { apply (pi_objs _ _ _ _ _ _ Hb). rewrite Hl. set_solver. }
  destruct (obj_addr _ _ _ _ _ _ Hb Ho) as (b & Es & Ea & Ev & _).
  unfold handle in Hh. rewrite Es in Hh. cbn in Hh. injection Hh as <-.
  assert (Hw : word_at junk h s o = Some (enc o)).
  { apply (pi_live _ _ _ _ _ _ Hb). rewrite Hl. set_solver. }
  unfold word_at in Hw. rewrite Ea in Hw. injection Hw as Hw.
  unfold argo_mem_pool_put. cbn [fst snd]. unfold MP_METADATA_SZ. rewrite Z.add_simpl_r.
  wp_step. apply wp_load64; [done|]. rewrite Hw.
  wp_step. eapply wp_load_mp; [apply (pi_pool _ _ _ _ _ _ Hb)|].
  wp_step. apply wp_store64; [done|].
  eapply wp_store_mp; [apply (pi_pool _ _ _ _ _ _ Hb)|]. unfold with_pool. cbn [blocks words pools next_block].
  change (mk_heap _ _ _ _) with (swap_head h mp s (b, o.2) (mp_free_next s) (enc o)).
  pose proof (pi_nodup _ _ _ _ _ _ Hb) as Hnd. rewrite Hl in Hnd.
  rewrite <- Permutation_middle in Hnd. apply list.NoDup_cons in Hnd as [Hn1 Hn2].
  split; [split|].
  - eapply swap_head_base; [done| |].
    + by rewrite Hl, <- Permutation_middle.
    + intros o' Ho'. rewrite (word_at_swap _ _ _ _ _ o _ _ _ o' Hb Ea).
      case_decide; [set_solver|]. apply (pi_live _ _ _ _ _ _ Hb). rewrite Hl. set_solver.
  - split; [done|]. exists (mp_free_next s).
    rewrite (word_at_swap _ _ _ _ _ o _ _ _ o Hb Ea), decide_True by done. split; [done|].
    eapply chain_frame; [|exact Hc]. intros o' Ho'.
    rewrite (word_at_swap _ _ _ _ _ o _ _ _ o' Hb Ea). case_decide; [set_solver|done].
  - intros q _ Hne. cbn. rewrite lookup_insert_ne; [done|]. intros <-. by apply Hne.
Qed.

(** ** Creation *)

(** The sizes for which [__mp_adjust_size_and_count] does not wrap: what the
    header comment calls the intended use (small objects, slabs up to 256MB). *)
Definition adj_sz (obj_sz : Z) : Z := (obj_sz + 15) / 8 * 8.

Definition sane_sizes (obj_sz obj_cnt : Z) : Prop :=
  0 ≤ obj_sz ∧ adj_sz obj_sz ≤ 2 ^ 28 ∧ 1 ≤ obj_cnt ∧ adj_sz obj_sz * obj_cnt < 2 ^ 32.

Lemma land_minus_8 x : 0 ≤ x < 2 ^ 32 → Z.land x (u32 (-8)) = x / 8 * 8.
Proof.
  intros Hx. change (u32 (-8)) with (Z.shiftl (Z.ones 29) 3).
  replace (x / 8 * 8) with (Z.shiftl (Z.shiftr x 3) 3)
    by (rewrite Z.shiftl_mul_pow2, Z.shiftr_div_pow2 by lia; done).
  apply Z.bits_inj'. intros i Hi. rewrite Z.land_spec.
  destruct (decide (i < 3)).
  - rewrite !Z.shiftl_spec_low by lia. apply andb_false_r.
  - rewrite !Z.shiftl_spec_high, Z.shiftr_spec by lia. replace (i - 3 + 3) with i by lia.
    destruct (decide (i - 3 < 29)).
    + rewrite Z.ones_spec_low by lia. apply andb_true_r.
    + rewrite Z.ones_spec_high by lia. rewrite andb_false_r. symmetry.
      rewrite <- (Z.mod_small x (2 ^ 32)) by lia. apply Z.mod_pow2_bits_high. lia.
Qed.

Lemma adjust_sane obj_sz obj_cnt : sane_sizes obj_sz obj_cnt →
  ∃ cnt, __mp_adjust_size_and_count obj_sz obj_cnt = (adj_sz obj_sz, cnt)
    ∧ 8 ≤ adj_sz obj_sz ∧ adj_sz obj_sz mod 8 = 0 ∧ obj_sz + 8 ≤ adj_sz obj_sz
    ∧ 1 ≤ cnt ≤ obj_cnt ∧ adj_sz obj_sz * cnt ≤ 2 ^ 28.
Proof.
  intros (H0 & H1 & H2 & H3). unfold __mp_adjust_size_and_count, MP_METADATA_SZ.
  assert (Hs : 8 ≤ adj_sz obj_sz ∧ obj_sz + 8 ≤ adj_sz obj_sz ≤ obj_sz + 15).
  { unfold adj_sz in *. pose proof (Z.div_mod (obj_sz + 15) 8). pose proof (Z.mod_pos_bound (obj_sz + 15) 8). lia. }
  rewrite (u32_small (obj_sz + 8)) by lia. rewrite (u32_small (obj_sz + 8 + 7)) by lia.
  replace (obj_sz + 8 + 7) with (obj_sz + 15) by lia. rewrite land_minus_8 by lia.
  fold (adj_sz obj_sz). rewrite (u32_small (adj_sz obj_sz * obj_cnt)) by nia.
  assert (Hm : adj_sz obj_sz mod 8 = 0) by (unfold adj_sz; by rewrite Z.mod_mul by lia).
  change MP_SLAB_SIZE with (2 ^ 28).
  destruct (Z.ltb_spec (2 ^ 28) (adj_sz obj_sz * obj_cnt)).
  - exists (2 ^ 28 / adj_sz obj_sz).
    pose proof (Z.div_le_lower_bound (2 ^ 28) (adj_sz obj_sz) 1 ltac:(lia) ltac:(lia)).
    pose proof (Z.div_le_upper_bound (2 ^ 28) (adj_sz obj_sz) obj_cnt ltac:(lia) ltac:(lia)).
    pose proof (Z.mul_div_le (2 ^ 28) (adj_sz obj_sz) ltac:(lia)).
    split_and!; try done; lia.
  - exists obj_cnt. split_and!; try done; lia.
Qed.

Definition heap_wf (h : heap) : Prop :=
  ∀ b, is_Some (blocks h !! b) → b < next_block h.

Definition create_post (h : heap) (obj_sz obj_cnt : Z) (r : option Z) (h' : heap) : Prop :=
  match r with
  | None => ∃ n size, next_block h ≤ n ≤ next_block h + 1 ∧ alloc_ok n size = false
  | Some mp => ∃ s cnt,
      mp_obj_sz s = adj_sz obj_sz ∧ mp_obj_cnt s = cnt ∧ 1 ≤ cnt ≤ obj_cnt ∧
      pool_inv junk h' mp s (slab_objs 0 (adj_sz obj_sz) 0 (Z.to_nat cnt)) []
  end.

Lemma fresh_pool_base h mp sz cnt :
  heap_wf h → 8 ≤ sz → sz mod 8 = 0 → 1 ≤ cnt → sz * cnt ≤ 2 ^ 28 → mp = next_block h →
  pool_base junk
    (mk_heap (<[mp := sizeof_argo_mem_pool]> (blocks h)) (words h)
       (<[mp := mk_pool ∅ 0 0 sz cnt]> (pools h)) (next_block h + 1))
    mp (mk_pool ∅ 0 0 sz cnt) [] [].
Proof.
  intros Hwf Hsz H8 Hcnt Hle ->. split; cbn; try done.
  - by apply lookup_insert_eq.
  - intros. lia.
  - intros i [? E]. rewrite lookup_empty in E. done.
  - split; [rewrite lookup_insert_eq; eauto|done].
  - intros b [x E]. rewrite lookup_insert in E. case_decide; [lia|].
    specialize (Hwf b). rewrite E in Hwf. specialize (Hwf ltac:(eauto)). lia.
  - intros o. split; [set_solver|]. intros [H _]. cbn in H. lia.
  - by apply list.NoDup_nil.
  - set_solver.
Qed.

Lemma argo_mem_pool_create_wp h obj_sz obj_cnt :
  heap_wf h → sane_sizes obj_sz obj_cnt →
  wp (argo_mem_pool_create alloc_ok obj_sz obj_cnt) (create_post h obj_sz obj_cnt) h.
Proof.
  intros Hwf Hsane. destruct (adjust_sane _ _ Hsane) as (cnt & E & H8 & Hm & _ & Hc & Hle).
  unfold argo_mem_pool_create. rewrite E. wp_step. apply wp_alloc; intros Ha.
  - wp_step. exists (next_block h), sizeof_argo_mem_pool. split; [lia|done].
  - wp_step. wp_step. wp_step. cbn [blocks words pools next_block].
    eapply wp_create_new_slab; [apply fresh_pool_base; try done; lia|done| |].
    + intros Hf. cbn [Z.eqb]. unfold wp, mbind, M_bind, ARGO_FREE, fresh_heap. cbn.
      rewrite lookup_insert_eq. do 2 eexists. split; [|exact Hf]. cbn. lia.
    + intros ws h' Hok Hout Hi. cbn [Z.eqb]. wp_step. do 2 eexists.
      split_and!; [| | | |exact Hi]; cbn; lia.
Qed.

(** ** A client of the pool *)

(** What a well-behaved client can do: get an object, put back an object it
    holds, write a word of the user part of an object it holds. *)
Inductive client_op :=
| CGet
| CPut (p : ptr)
| CWrite (p : ptr) (off v : Z).

Definition op_allowed (sz : Z) (held : list ptr) (op : client_op) : Prop :=
  match op with
  | CGet => True
  | CPut p => p ∈ held
  | CWrite p off v => p ∈ held ∧ 0 ≤ off ∧ off + 8 ≤ sz - MP_METADATA_SZ ∧ off mod 8 = 0
  end.

Definition run_op (mp : Z) (held : list ptr) (op : client_op) : M heap (list ptr) :=
  match op with
  | CGet =>
      r ← argo_mem_pool_get alloc_ok junk mp;
      mret (match r with Some p => p :: held | None => held end)
  | CPut p => argo_mem_pool_put junk mp p;; mret (filter (λ q, q ≠ p) held)
  | CWrite p off v => store64 (p.1, p.2 + off) v;; mret held
  end.

(** States a client can reach after creating the pool. *)
Inductive reach (mp sz : Z) (h0 : heap) : heap → list ptr → Prop :=
| reach_init : reach mp sz h0 h0 []
| reach_step h held op h' held' :
    reach mp sz h0 h held → op_allowed sz held op →
    run_op mp held op h = Ok held' h' → reach mp sz h0 h' held'.

(** The client holds exactly the handed-out objects. *)
Definition client_inv (mp sz : Z) (h : heap) (held : list ptr) : Prop :=
  ∃ s free live, pool_inv junk h mp s free live ∧ mp_obj_sz s = sz ∧
    Forall2 (λ o p, handle s o = Some p) live held.

Lemma handle_inj h mp s free live o o' p : pool_base junk h mp s free live →
  handle s o = Some p → handle s o' = Some p → o = o'.
Proof.
  intros Hb. unfold handle. destruct o as [i x], o' as [j y]. cbn.
  destruct (slabs s !! i) as [b|] eqn:Ei; [|done].
  destruct (slabs s !! j) as [b'|] eqn:Ej; [|done]. cbn. intros [= <-] [= -> ?].
  f_equal; [|lia]. by eapply (pi_inj _ _ _ _ _ _ Hb).
Qed.

Lemma held_NoDup h mp s free live held : pool_base junk h mp s free live →
  Forall2 (λ o p, handle s o = Some p) live held → NoDup held.
Proof.
  intros Hb HF. pose proof (pi_nodup _ _ _ _ _ _ Hb) as Hnd.
  apply list.NoDup_app in Hnd as (_ & _ & Hnd).
  assert (Hinj : ∀ o o' p, handle s o = Some p → handle s o' = Some p → o = o')
    by eauto using handle_inj.
  clear Hb. revert Hnd.
  induction HF as [|o p live held Hop HF IH]; intros Hnd; [by apply list.NoDup_nil|].
  apply list.NoDup_cons in Hnd as [Hn Hnd]. apply list.NoDup_cons. split; [|auto].
  intros Hin. apply Hn. apply list_elem_of_lookup in Hin as [k Hk].
  destruct (Forall2_lookup_r _ _ _ _ _ HF Hk) as (o' & Ho' & Hh').
  rewrite (Hinj o o' p Hop Hh'). by eapply list_elem_of_lookup_2.
Qed.

Lemma handle_mono s s' o p : slabs s ⊆ slabs s' → handle s o = Some p → handle s' o = Some p.
Proof.
  intros Hs. unfold handle. destruct (slabs s !! o.1) as [b|] eqn:E; [|done].
  by rewrite (lookup_weaken _ _ _ _ E Hs).
Qed.

(** The user part of a live object does not meet any object header. *)
Lemma user_word_not_header h mp s free live o o' b x : pool_base junk h mp s free live →
  is_obj s o → is_obj s o' → slabs s !! o.1 = Some b →
  o.2 < x < o.2 + mp_obj_sz s → addr_of s o' ≠ Some (b, x).
Proof.
  intros Hb [_ (k & Hk & Ho)] [_ (k' & Hk' & Ho')] Es Hx E.
  unfold addr_of in E. destruct (slabs s !! o'.1) as [b'|] eqn:Es'; [|done].
  cbn in E. injection E as -> E. rewrite Ho' in E. rewrite Ho in Hx.
  pose proof (pi_sz _ _ _ _ _ _ Hb) as [Hsz _]. subst x.
  assert (k < k') by nia. assert (k' < k + 1) by nia. lia.
Qed.

(** Splitting the held pointers at the one that is put back. *)
Lemma held_split h mp s free live held p : pool_base junk h mp s free live →
  Forall2 (λ o p, handle s o = Some p) live held → p ∈ held →
  ∃ o live', live ≡ₚ o :: live' ∧ handle s o = Some p ∧
    Forall2 (λ o p, handle s o = Some p) live' (filter (λ q, q ≠ p) held).
Proof.
  intros Hb HF Hp. pose proof (held_NoDup _ _ _ _ _ _ Hb HF) as Hnd.
  apply list_elem_of_split in Hp as (h1 & h2 & ->).
  apply Forall2_app_inv_r in HF as (l1 & l2 & HF1 & HF2 & ->).
  apply Forall2_cons_inv_r in HF2 as (o & l2' & Ho & HF2 & ->).
  apply list.NoDup_app in Hnd as (Hn1 & Hn12 & Hn2).
  apply list.NoDup_cons in Hn2 as [Hn3 Hn2].
  exists o, (l1 ++ l2'). split_and!; [by rewrite Permutation_middle|done|].
  rewrite list.filter_app, filter_cons_False by naive_solver.
  rewrite !filter_all; [by apply Forall2_app| |]; set_solver.
Qed.

Lemma set_word_inv h mp s free live q v :
  pool_inv junk h mp s free live →
  (∀ o, is_obj s o → addr_of s o ≠ Some q) →
  pool_inv junk (mk_heap (blocks h) (<[q := v]> (words h)) (pools h) (next_block h)) mp s free live.
Proof.
  intros [Hb Hc] Hq.
  assert (Hw : ∀ o, is_obj s o →
    word_at junk (mk_heap (blocks h) (<[q := v]> (words h)) (pools h) (next_block h)) s o
    = word_at junk h s o).
  { intros o Ho. unfold word_at. specialize (Hq o Ho).
    destruct (addr_of s o) as [p|]; cbn; [|done]. rewrite lookup_insert_ne; congruence. }
  split.
  - destruct Hb. split; try done. intros o Ho. rewrite Hw; [auto|]. apply pi_objs0.
    rewrite elem_of_app. by right.
  - eapply chain_frame; [|exact Hc]. intros o Ho. apply Hw.
    apply (pi_objs _ _ _ _ _ _ Hb). rewrite elem_of_app. by left.
Qed.

(** Every operation a client is allowed to do returns, and keeps the invariant. *)
Lemma run_op_safe mp sz h held op :
  client_inv mp sz h held → op_allowed sz held op →
  wp (run_op mp held op) (λ held' h', client_inv mp sz h' held') h.
Proof.
  intros (s & free & live & Hi & Hsz & HF) Ha. pose proof Hi as [Hb _].
  destruct op as [|p|p off v]; cbn [run_op].
  - wp_step. eapply wp_mono; [by apply argo_mem_pool_get_wp|].
    intros [p|] h' Hp; wp_step.
    + destruct Hp as (s' & o & free' & Hh & _ & _ & Hi' & [Hsub Hsz'] & _).
      exists s', free', (o :: live). split_and!; [done|congruence|].
      constructor; [done|]. eapply list.Forall2_impl; [exact HF|]. eauto using handle_mono.
    + destruct Hp as (-> & _ & _ & Hi'). exists s, [], live. split_and!; done.
  - destruct (held_split _ _ _ _ _ _ _ Hb HF Ha) as (o & live' & Hl & Hh & HF').
    wp_step. eapply wp_mono; [by eapply argo_mem_pool_put_wp|].
    intros [] h' [Hi' _]. wp_step. exists (set_free_next s (enc o)), (o :: free), live'. split_and!; done.
  - destruct Ha as (Hp & H0 & H1 & H8). apply list_elem_of_lookup in Hp as [k Hk].
    destruct (Forall2_lookup_r _ _ _ _ _ HF Hk) as (o & Ho%list_elem_of_lookup_2 & Hh).
    assert (Hob : is_obj s o) by (apply (pi_objs _ _ _ _ _ _ Hb); set_solver).
    destruct (obj_addr _ _ _ _ _ _ Hb Hob) as (b & Es & Ea & Ev & Bk & Hlo & _ & Hhi).
    unfold handle in Hh. rewrite Es in Hh. injection Hh as <-. cbn [fst snd] in *.
    unfold MP_METADATA_SZ in *.
    wp_step. apply wp_store64.
    { eapply valid_word_true; [done|lia|lia|]. destruct Hob as [_ (j & _ & Ej)]. rewrite Ej.
      rewrite <- Z.add_assoc, Z.add_mod, mul_mod_8 by first [lia|apply (pi_sz _ _ _ _ _ _ Hb)].
      rewrite (Z.add_mod 8 off), H8 by lia. done. }
    wp_step. exists s, free, live. split_and!; [|done|done]. apply set_word_inv; [done|].
    intros o' Ho'. eapply user_word_not_header; [done|exact Hob|done|done|lia].
Qed.

Lemma reach_inv mp sz h0 h held :
  client_inv mp sz h0 [] → reach mp sz h0 h held → client_inv mp sz h held.
Proof.
  intros H0. induction 1 as [|h held op h' held' _ IH Ha Hr]; [done|].
  pose proof (run_op_safe _ _ _ _ _ IH Ha) as Hw. unfold wp in Hw. by rewrite Hr in Hw.
Qed.

(** ** Helpers for the properties *)

Lemma held_obj h mp s free live held p : pool_base junk h mp s free live →
  Forall2 (λ o p, handle s o = Some p) live held → p ∈ held →
  ∃ o b, o ∈ live ∧ is_obj s o ∧ slabs s !! o.1 = Some b ∧ p = (b, o.2 + 8).
Proof.
  intros Hb HF Hp. apply list_elem_of_lookup in Hp as [k Hk].
  destruct (Forall2_lookup_r _ _ _ _ _ HF Hk) as (o & Ho%list_elem_of_lookup_2 & Hh).
  unfold handle in Hh. destruct (slabs s !! o.1) as [b|] eqn:E; [|done]. injection Hh as <-.
  exists o, b. split_and!; try done. apply (pi_objs _ _ _ _ _ _ Hb), elem_of_app. by right.
Qed.

(** Two different objects of the pool do not overlap. *)
Lemma obj_disjoint h mp s free live o o' b : pool_base junk h mp s free live →
  is_obj s o → is_obj s o' → slabs s !! o.1 = Some b → slabs s !! o'.1 = Some b → o ≠ o' →
  o.2 + mp_obj_sz s ≤ o'.2 ∨ o'.2 + mp_obj_sz s ≤ o.2.
Proof.
  intros Hb [_ (k & Hk & Ho)] [_ (k' & Hk' & Ho')] E E' Hne.
  pose proof (pi_inj _ _ _ _ _ _ Hb _ _ _ E E') as Hi.
  assert (k ≠ k') by (intros ->; apply Hne; destruct o, o'; cbn in *; congruence).
  pose proof (pi_sz _ _ _ _ _ _ Hb) as [Hsz _]. rewrite Ho, Ho'.
  destruct (decide (k < k')); nia.
Qed.

Lemma client_inv_create h obj_sz obj_cnt mp h0 : heap_wf h → sane_sizes obj_sz obj_cnt →
  argo_mem_pool_create alloc_ok obj_sz obj_cnt h = Ok (Some mp) h0 →
  client_inv mp (adj_sz obj_sz) h0 [].
Proof.
  intros Hwf Hs E. pose proof (argo_mem_pool_create_wp _ _ _ Hwf Hs) as Hw.
  unfold wp in Hw. rewrite E in Hw. destruct Hw as (s & cnt & Hsz & _ & _ & Hi).
  eexists s, _, []. split_and!; [exact Hi|done|constructor].
Qed.

(** All objects of the first [n] slabs. *)
Fixpoint all_objs (sz cnt : Z) (n : nat) : list obj :=
  match n with
  | O => []
  | S k => all_objs sz cnt k ++ slab_objs (Z.of_nat k) sz 0 (Z.to_nat cnt)
  end.

Lemma elem_of_all_objs sz cnt n o : 0 ≤ cnt →
  o ∈ all_objs sz cnt n ↔ 0 ≤ o.1 < Z.of_nat n ∧ ∃ k, 0 ≤ k < cnt ∧ o.2 = k * sz.
Proof.
  intros Hc. induction n as [|n IH]; cbn [all_objs].
  - split; [set_solver|]. intros [H _]. lia.
  - rewrite elem_of_app, IH, elem_of_slab_objs, Z2Nat.id by lia. destruct o as [i x]. cbn.
    split.
    + intros [(? & k & ? & ->)|(k & ? & [= -> ->])]; (split; [lia|]); exists k; lia.
    + intros (Hi & k & Hk & ->). destruct (decide (i = Z.of_nat n)) as [->|].
      * right. exists k. split; [lia|done].
      * left. split; [lia|]. eauto.
Qed.

Lemma all_objs_NoDup sz cnt n : 0 < sz → 0 ≤ cnt → NoDup (all_objs sz cnt n).
Proof.
  intros Hsz Hc. induction n as [|n IH]; cbn [all_objs]; [by apply list.NoDup_nil|].
  apply list.NoDup_app. split_and!; [done| |by apply slab_objs_NoDup].
  intros o Ho Ho'. apply elem_of_all_objs in Ho as [? _]; [|done].
  apply elem_of_slab_objs in Ho' as (j & _ & ->). cbn in *. lia.
Qed.

Lemma length_all_objs sz cnt n : 0 ≤ cnt →
  Z.of_nat (length (all_objs sz cnt n)) = Z.of_nat n * cnt.
Proof.
  intros Hc. induction n as [|n IH]; cbn [all_objs]; [done|].
  rewrite length_app. unfold slab_objs. rewrite length_fmap, length_seq. lia.
Qed.

(** No object is ever lost: free and handed-out objects add up to the capacity. *)
Lemma pool_count h mp s free live : pool_base junk h mp s free live →
  Z.of_nat (length free) + Z.of_nat (length live) = mp_slab_cnt s * mp_obj_cnt s.
Proof.
  intros Hb. pose proof (pi_sz _ _ _ _ _ _ Hb) as [Hsz _].
  pose proof (pi_cnt _ _ _ _ _ _ Hb) as [Hc _]. pose proof (pi_slab_cnt _ _ _ _ _ _ Hb) as Hn.
  assert (Hp : free ++ live ≡ₚ all_objs (mp_obj_sz s) (mp_obj_cnt s) (Z.to_nat (mp_slab_cnt s))).
  { apply NoDup_Permutation; [apply Hb|apply all_objs_NoDup; lia|].
    intros o. rewrite (pi_objs _ _ _ _ _ _ Hb), elem_of_all_objs, Z2Nat.id by lia. done. }
  apply Permutation_length in Hp. rewrite length_app in Hp.
  pose proof (length_all_objs (mp_obj_sz s) (mp_obj_cnt s) (Z.to_nat (mp_slab_cnt s)) ltac:(lia)). lia.
Qed.

End pool.

(** ** Destruction *)

(** The slabs with index below [i] have been freed, everything else is as in [h]. *)
Definition destroyed_upto (h : heap) (mp : Z) (s : argo_mem_pool) (i : Z) (h' : heap) : Prop :=
  pools h' !! mp = Some s ∧
  (∀ j b, slabs s !! j = Some b → j < i → blocks h' !! b = None) ∧
  (∀ b, (∀ j, j < i → slabs s !! j ≠ Some b) → blocks h' !! b = blocks h !! b).

Lemma destroy_step junk h mp s free live i h' : pool_base junk h mp s free live →
  destroyed_upto h mp s i h' →
  wp (s ← load_mp mp;
      match slabs s !! i with Some b => ARGO_FREE b | None => mret tt end)
     (λ _ h'', destroyed_upto h mp s (i + 1) h'') h'.
Proof.
  intros Hb (Hp & Hgone & Hkeep). wp_step. eapply wp_load_mp; [done|].
  destruct (slabs s !! i) as [b|] eqn:E.
  - destruct (pi_slab _ _ _ _ _ _ Hb i) as (b' & E' & Bk);
      [apply (pi_slab_none _ _ _ _ _ _ Hb); eauto|].
    rewrite E in E'. injection E' as <-.
    assert (Hlive : blocks h' !! b = blocks h !! b).
    { apply Hkeep. intros j Hj Ej. pose proof (pi_inj _ _ _ _ _ _ Hb _ _ _ E Ej). lia. }
    unfold wp, ARGO_FREE. rewrite Hlive, Bk. split_and!; cbn.
    + destruct (pi_mp _ _ _ _ _ _ Hb) as [_ Hne].
      rewrite lookup_delete_ne; [done|]. intros ->. by apply (Hne i).
    + intros j b' Ej Hj. rewrite lookup_delete. case_decide; [done|].
      apply (Hgone j); [done|]. destruct (decide (j = i)) as [->|]; [congruence|lia].
    + intros b' Hb'. assert (b ≠ b') by (intros ->; apply (Hb' i); [lia|done]).
      rewrite lookup_delete_ne by done. apply Hkeep. intros j Hj. apply Hb'. lia.
  - wp_step. split_and!; [done| |].
    + intros j b Ej Hj. apply (Hgone j); [done|].
      destruct (decide (j = i)) as [->|]; [congruence|lia].
    + intros b Hb'. apply Hkeep. intros j Hj. apply Hb'. lia.
Qed.

Lemma argo_mem_pool_destroy_wp junk h mp s free live : pool_base junk h mp s free live →
  wp (argo_mem_pool_destroy mp)
     (λ _ h', pools h' !! mp = None ∧ blocks h' !! mp = None ∧
        (∀ i b, slabs s !! i = Some b → blocks h' !! b = None) ∧
        (∀ b, b ≠ mp → (∀ i, slabs s !! i ≠ Some b) → blocks h' !! b = blocks h !! b)) h.
Proof.
  intros Hb. unfold argo_mem_pool_destroy. wp_step.
  eapply wp_mono; [eapply (wp_for_range (λ i _ h', destroyed_upto h mp s i h'))|].
  - split_and!; [apply Hb| |done]. intros j b Ej Hj.
    assert (0 ≤ j < mp_slab_cnt s) by (apply (pi_slab_none _ _ _ _ _ _ Hb); eauto). lia.
  - intros i [] h' _ HI. eapply wp_mono; [by eapply destroy_step|done].
  - intros [] h' (Hp & Hgone & Hkeep). destruct (pi_mp _ _ _ _ _ _ Hb) as [[sz Bm] Hne].
    pose proof (pi_slab_cnt _ _ _ _ _ _ Hb) as Hcnt.
    unfold wp, ARGO_FREE. rewrite Hkeep, Bm by auto. cbn. split_and!.
    + by rewrite lookup_delete_eq.
    + by rewrite lookup_delete_eq.
    + intros i b Ei. rewrite lookup_delete. case_decide; [done|]. apply (Hgone i); [done|].
      assert (0 ≤ i < mp_slab_cnt s) by (apply (pi_slab_none _ _ _ _ _ _ Hb); eauto).
      change (Z.of_nat (Z.to_nat MP_SLABS_MAX)) with MP_SLABS_MAX. lia.
    + intros b Hbm Hbs. rewrite lookup_delete_ne by done. apply Hkeep. auto.
Qed.

(** ** Properties *)

Section properties.
Context (alloc_ok : Z → Z → bool) (junk : ptr → Z).

(** C1: A client that creates a pool with sane sizes and then gets, puts back and
    writes the objects it holds, in any order, never triggers undefined behaviour;
    at every point the objects it holds are distinct, lie inside live blocks with
    room for [obj_sz] bytes, are 8-byte aligned and do not overlap. *)
Theorem pool_client_safe hinit obj_sz obj_cnt mp h0 h held :
  heap_wf hinit → sane_sizes obj_sz obj_cnt →
  argo_mem_pool_create alloc_ok obj_sz obj_cnt hinit = Ok (Some mp) h0 →
  reach alloc_ok junk mp (adj_sz obj_sz) h0 h held →
  NoDup held
  ∧ (∀ p, p ∈ held → p.2 mod 8 = 0 ∧
       ∃ size, blocks h !! p.1 = Some size ∧ 8 ≤ p.2 ∧ p.2 + obj_sz ≤ size)
  ∧ (∀ p q, p ∈ held → q ∈ held → p ≠ q → p.1 = q.1 →
       p.2 + adj_sz obj_sz ≤ q.2 ∨ q.2 + adj_sz obj_sz ≤ p.2)
  ∧ (∀ op, op_allowed (adj_sz obj_sz) held op →
       ∃ held' h', run_op alloc_ok junk mp held op h = Ok held' h').
Proof.
  intros Hwf Hs Hc Hr.
  pose proof (reach_inv _ _ _ _ _ _ _ (client_inv_create _ junk _ _ _ _ _ Hwf Hs Hc) Hr) as Hi.
  pose proof Hi as (s & free & live & [Hb _] & Hsz & HF).
  destruct (adjust_sane _ _ Hs) as (_ & _ & _ & _ & Hroom & _).
  split_and!.
  - eauto using held_NoDup.
  - intros p Hp. destruct (held_obj _ _ _ _ _ _ _ _ Hb HF Hp) as (o & b & _ & Ho & Es & ->).
    destruct (obj_addr _ _ _ _ _ _ _ Hb Ho) as (b' & Es' & _ & Hv & Bk & Hlo & _ & Hhi).
    rewrite Es in Es'. injection Es' as <-. cbn. split.
    + destruct Ho as [_ (k & _ & ->)].
      rewrite Z.add_mod, mul_mod_8 by first [lia|apply (pi_sz _ _ _ _ _ _ Hb)]. done.
    + eexists. split; [exact Bk|]. lia.
  - intros p q Hp Hq Hne E.
    destruct (held_obj _ _ _ _ _ _ _ _ Hb HF Hp) as (o & b & _ & Ho & Es & ->).
    destruct (held_obj _ _ _ _ _ _ _ _ Hb HF Hq) as (o' & b' & _ & Ho' & Es' & ->).
    cbn in *. subst b'. rewrite <- Hsz.
    destruct (obj_disjoint _ _ _ _ _ _ o o' b Hb Ho Ho' Es Es') as [|]; try lia.
    intros ->. done.
  - intros op Ha. pose proof (run_op_safe alloc_ok junk _ _ _ _ _ Hi Ha) as Hw.
    apply wp_Ok in Hw as (held' & h' & E & _). eauto.
Qed.

(** A pool whose fields are in range: sizes that fit 32 bits, a slab for every index below the
    count and for no other, each a block of its own with exactly the room for its objects. *)
Definition pool_typed (h : heap) (mp : Z) : Prop := ∃ s, pools h !! mp = Some s ∧
  (8 ≤ mp_obj_sz s ≤ 2 ^ 28 ∧ mp_obj_sz s mod 8 = 0) ∧ 1 ≤ mp_obj_cnt s ≤ 2 ^ 25 ∧ 0 ≤ mp_slab_cnt s ≤ MP_SLABS_MAX ∧ 0 ≤ mp_free_next s ∧
  (∀ i, is_Some (slabs s !! i) ↔ 0 ≤ i < mp_slab_cnt s) ∧ (∀ i j b, slabs s !! i = Some b → slabs s !! j = Some b → i = j) ∧
  (∀ i b, slabs s !! i = Some b → b ≠ mp ∧ blocks h !! b = Some (mp_obj_sz s * mp_obj_cnt s)).

Lemma pool_inv_typed h mp s free live : pool_inv junk h mp s free live → pool_typed h mp.
Proof.
  intros [Hb Hc]. pose proof (pi_sz _ _ _ _ _ _ Hb) as [H8 Hm]. pose proof (pi_cnt _ _ _ _ _ _ Hb) as [H1 Hle]. exists s. split; [apply (pi_pool _ _ _ _ _ _ Hb)|].
  split; [split; [nia|done]|]. split; [nia|]. split; [apply (pi_slab_cnt _ _ _ _ _ _ Hb)|]. split.
  { destruct free as [|o free]; cbn in Hc; [lia|]. destruct Hc as [-> _]. destruct (proj1 (pi_objs _ _ _ _ _ _ Hb o)) as [H0 (k & Hk & Ho)]; [set_solver|]. unfold enc. nia. }
  split; [intros i; split; [apply (pi_slab_none _ _ _ _ _ _ Hb)|intros Hi; destruct (pi_slab _ _ _ _ _ _ Hb i Hi) as (b & -> & _); eauto]|].
  split; [apply (pi_inj _ _ _ _ _ _ Hb)|]. intros i b Hi. split; [intros ->; by apply (proj2 (pi_mp _ _ _ _ _ _ Hb) i)|].
  destruct (pi_slab _ _ _ _ _ _ Hb i) as (b' & Hb' & Hbl); [apply (pi_slab_none _ _ _ _ _ _ Hb); eauto|]. congruence.
Qed.

(** C19: the pool keeps its type: whatever a client has done since it was created, the fields are in
    the ranges the encoding of objects needs, the slabs are distinct live blocks of the right size,
    and every operation the client may do next keeps it so. *)
Theorem pool_type_kept hinit obj_sz obj_cnt mp h0 h held op :
  heap_wf hinit → sane_sizes obj_sz obj_cnt → argo_mem_pool_create alloc_ok obj_sz obj_cnt hinit = Ok (Some mp) h0 →
  reach alloc_ok junk mp (adj_sz obj_sz) h0 h held → op_allowed (adj_sz obj_sz) held op →
  pool_typed h mp ∧ wp (run_op alloc_ok junk mp held op) (λ _ h', pool_typed h' mp) h.
Proof.
  intros Hwf Hs Hc Hr Ha. pose proof (reach_inv _ _ _ _ _ _ _ (client_inv_create _ junk _ _ _ _ _ Hwf Hs Hc) Hr) as Hi.
  split; [destruct Hi as (s & free & live & Hi & _); by eapply pool_inv_typed|].
  eapply wp_mono; [by eapply run_op_safe|]. intros held' h' (s & free & live & Hi' & _). by eapply pool_inv_typed.
Qed.

(** The pool is last-in first-out: after putting back an object, the next get
    hands out exactly that object again. *)
Theorem pool_put_get_roundtrip mp sz h held p :
  client_inv junk mp sz h held → p ∈ held →
  ∃ h1 h2, argo_mem_pool_put junk mp p h = Ok tt h1
         ∧ argo_mem_pool_get alloc_ok junk mp h1 = Ok (Some p) h2.
Proof.
  intros (s & free & live & Hi & _ & HF) Hp. pose proof Hi as [Hb _].
  destruct (held_split alloc_ok _ _ _ _ _ _ _ _ Hb HF Hp) as (o & live' & Hl & Hh & _).
  pose proof (argo_mem_pool_put_wp alloc_ok junk _ _ _ _ _ _ _ _ Hi Hl Hh) as Hw.
  apply wp_Ok in Hw as ([] & h1 & E1 & Hi1 & _).
  pose proof (argo_mem_pool_get_wp alloc_ok junk _ _ _ _ _ Hi1) as Hg.
  apply wp_Ok in Hg as (r & h2 & E2 & Hpost).
  destruct r as [p'|]; cbn in Hpost; [|naive_solver].
  destruct Hpost as (s' & o' & free' & Hh' & _ & _ & _ & [Hsub _] & [[[= <- _] _]|[[=] _]]).
  apply (handle_mono _ _ _ p Hsub) in Hh. exists h1, h2. split; [done|]. congruence.
Qed.

(** [argo_mem_pool_get] returns NULL only when every object of every slab is
    handed out, and then only because all 4096 slabs exist or the allocator
    refused a new slab. *)
Theorem pool_get_null_exhausted mp sz h held h' :
  client_inv junk mp sz h held →
  argo_mem_pool_get alloc_ok junk mp h = Ok None h' →
  ∃ s, pools h !! mp = Some s
     ∧ Z.of_nat (length held) = mp_slab_cnt s * mp_obj_cnt s
     ∧ (mp_slab_cnt s = MP_SLABS_MAX
        ∨ alloc_ok (next_block h) (mp_obj_sz s * mp_obj_cnt s) = false).
Proof.
  intros (s & free & live & Hi & _ & HF) E. pose proof Hi as [Hb _].
  pose proof (argo_mem_pool_get_wp alloc_ok junk _ _ _ _ _ Hi) as Hg.
  unfold wp in Hg. rewrite E in Hg. destruct Hg as (-> & Hwhy & _).
  exists s. split; [apply Hb|]. split; [|done].
  rewrite <- (pool_count _ _ _ _ _ _ Hb), (Forall2_length HF). done.
Qed.

(** The user bytes of an object the client holds keep their value through
    every get and through every put of another object. *)
Theorem pool_user_data_stable mp sz h held p off op held' h' :
  client_inv junk mp sz h held → p ∈ held →
  0 ≤ off → off < sz - MP_METADATA_SZ →
  (op = CGet ∨ ∃ q, op = CPut q ∧ q ∈ held) →
  run_op alloc_ok junk mp held op h = Ok held' h' →
  words h' !! (p.1, p.2 + off) = words h !! (p.1, p.2 + off).
Proof.
  intros (s & free & live & Hi & Hsz & HF) Hp H0 H1 Hop Hr. pose proof Hi as [Hb _].
  unfold MP_METADATA_SZ in *.
  destruct (held_obj _ _ _ _ _ _ _ _ Hb HF Hp) as (o & b & _ & Ho & Es & ->). cbn [fst snd].
  destruct (obj_addr _ _ _ _ _ _ _ Hb Ho) as (b' & Es' & _ & _ & Bk & _).
  rewrite Es in Es'. injection Es' as <-.
  assert (Hfr : b < next_block h) by (apply (pi_fresh _ _ _ _ _ _ Hb); eauto).
  assert (Huser : ∀ o', is_obj s o' → addr_of s o' ≠ Some (b, o.2 + 8 + off)).
  { intros o' Ho'. eapply user_word_not_header; [done|exact Ho|done|done|lia]. }
  destruct Hop as [->|(q & -> & Hq)]; cbn [run_op] in Hr; unfold mbind, M_bind in Hr.
  - pose proof (argo_mem_pool_get_wp alloc_ok junk _ _ _ _ _ Hi) as Hg. unfold wp in Hg.
    destruct (argo_mem_pool_get alloc_ok junk mp h) as [r hg| | |]; try done.
    injection Hr as _ <-. destruct r as [p'|].
    + destruct Hg as (s' & o' & free' & _ & _ & Hfrm & _ & _ & Hcase).
      apply Hfrm; [done|]. destruct Hcase as [[-> _]|(-> & -> & _)].
      * apply Huser, (pi_objs _ _ _ _ _ _ Hb). set_solver.
      * unfold addr_of. cbn. by rewrite (slab_beyond_none _ _ _ _ _ _ Hb).
    + destruct Hg as (_ & _ & -> & _). done.
  - destruct (held_split alloc_ok _ _ _ _ _ _ _ _ Hb HF Hq) as (oq & live' & Hl & Hh & _).
    pose proof (argo_mem_pool_put_wp alloc_ok junk _ _ _ _ _ _ _ _ Hi Hl Hh) as Hw. unfold wp in Hw.
    destruct (argo_mem_pool_put junk mp q h) as [[] hg| | |]; try done.
    injection Hr as _ <-. destruct Hw as [_ Hfrm]. apply Hfrm; [done|].
    apply Huser, (pi_objs _ _ _ _ _ _ Hb). rewrite Hl. set_solver.
Qed.

(** C14: Destroying the pool frees the structure and every slab exactly once (a
    second free would be undefined) and touches no other block. *)
Theorem pool_destroy_frees mp sz h held :
  client_inv junk mp sz h held →
  ∃ s h', pools h !! mp = Some s ∧ argo_mem_pool_destroy mp h = Ok tt h' ∧
    pools h' !! mp = None ∧ blocks h' !! mp = None ∧
    (∀ i b, slabs s !! i = Some b → blocks h' !! b = None) ∧
    (∀ b, b ≠ mp → (∀ i, slabs s !! i ≠ Some b) → blocks h' !! b = blocks h !! b).
Proof.
  intros (s & free & live & [Hb _] & _ & _).
  pose proof (argo_mem_pool_destroy_wp _ _ _ _ _ _ Hb) as Hw.
  apply wp_Ok in Hw as ([] & h' & E & Hpost). exists s, h'. split; [apply Hb|]. done.
Qed.

(** With an object count of 0 the pool is written out of bounds as soon as
    the two allocations succeed: the loop bound [obj_cnt - 1] wraps around. *)
Theorem pool_create_zero_count_undefined h obj_sz :
  (∀ n size, alloc_ok n size = true) → heap_wf h →
  0 ≤ obj_sz → obj_sz + 15 < 2 ^ 32 →
  argo_mem_pool_create alloc_ok obj_sz 0 h = Undef.
Proof.
  intros Ha Hwf H0 H1. unfold argo_mem_pool_create, __mp_adjust_size_and_count.
  rewrite Z.mul_0_r. change (MP_SLAB_SIZE <? u32 0) with false. cbv beta iota.
  unfold mbind, M_bind, ARGO_ALLOC. rewrite Ha. cbn.
  unfold __mp_create_new_slab, mbind, M_bind, load_mp, ARGO_ALLOC. cbn.
  rewrite lookup_insert_eq. cbn. rewrite Ha, Z.mul_0_r. cbn.
  unfold store_mp. cbn. rewrite lookup_insert_eq. cbn.
  unfold __mp_free_list_init, mbind, M_bind. change (u32 (0 - 1)) with 4294967295.
  destruct (Z.to_nat 4294967295) as [|n] eqn:En; [lia|].
  cbn [free_list_loop]. unfold mbind, M_bind, store64, valid_word. cbn.
  by rewrite lookup_insert_eq.
Qed.

End properties.

(** The 256MB cap on a slab is computed with 32-bit wrap-around: 65536 objects of
    65528 bytes (4GB) pass the test uncapped, and the slab that is then requested
    from the allocator has 0 bytes. *)
Theorem pool_size_cap_wraps :
  __mp_adjust_size_and_count 65528 65536 = (65536, 65536)
  ∧ MP_SLAB_SIZE < 65536 * 65536 ∧ u32 (65536 * 65536) = 0.
Proof. vm_compute. done. Qed.

(** ** Witnesses: a pool of 4 objects of 8 bytes on an empty heap *)

Definition always_ok (n size : Z) : bool := true.
Definition zero_junk (p : ptr) : Z := 0.
Definition empty_heap : heap := mk_heap ∅ ∅ ∅ 0.

Definition result_heap {A} (o : outcome heap A) : heap :=
  match o with Ok _ h => h | _ => empty_heap end.

Definition h_created : heap := result_heap (argo_mem_pool_create always_ok 8 4 empty_heap).
Definition h_one_held : heap := result_heap (argo_mem_pool_get always_ok zero_junk 0 h_created).

Lemma empty_heap_wf : heap_wf empty_heap.
Proof. intros b [x E]. cbn in E. rewrite lookup_empty in E. done. Qed.

Lemma sane_8_4 : sane_sizes 8 4.
Proof. unfold sane_sizes. split_and!; by vm_compute. Qed.

Lemma created_ok : argo_mem_pool_create always_ok 8 4 empty_heap = Ok (Some 0) h_created.
Proof. vm_compute. reflexivity. Qed.

Lemma created_inv : client_inv zero_junk 0 (adj_sz 8) h_created [].
Proof. eapply client_inv_create; [apply empty_heap_wf|apply sane_8_4|apply created_ok]. Qed.

Lemma one_held_reach : reach always_ok zero_junk 0 (adj_sz 8) h_created h_one_held [(1, 8)].
Proof.
  eapply (reach_step _ _ _ _ _ h_created [] CGet); [apply reach_init|done|].
  vm_compute. reflexivity.
Qed.

Lemma one_held_inv : client_inv zero_junk 0 (adj_sz 8) h_one_held [(1, 8)].
Proof. eapply (reach_inv always_ok); [apply created_inv|apply one_held_reach]. Qed.

Lemma pool_client_safe_witness :
  NoDup [(1, 8)] ∧ ∃ held' h', run_op always_ok zero_junk 0 [(1, 8)] (CPut (1, 8)) h_one_held = Ok held' h'.
Proof.
  destruct (pool_client_safe always_ok zero_junk empty_heap 8 4 0 h_created h_one_held [(1, 8)]
    empty_heap_wf sane_8_4 created_ok one_held_reach) as (Hnd & _ & _ & Hrun).
  split; [exact Hnd|]. apply Hrun. cbn. set_solver.
Defined.

Lemma pool_type_kept_witness : pool_typed h_one_held 0 ∧ wp (run_op always_ok zero_junk 0 [(1, 8)] CGet) (λ _ h', pool_typed h' 0) h_one_held.
Proof. exact (pool_type_kept always_ok zero_junk empty_heap 8 4 0 h_created h_one_held [(1, 8)] CGet empty_heap_wf sane_8_4 created_ok one_held_reach I). Defined.

Lemma pool_put_get_roundtrip_witness :
  ∃ h1 h2, argo_mem_pool_put zero_junk 0 (1, 8) h_one_held = Ok tt h1
         ∧ argo_mem_pool_get always_ok zero_junk 0 h1 = Ok (Some (1, 8)) h2.
Proof.
  apply (pool_put_get_roundtrip always_ok zero_junk 0 (adj_sz 8) h_one_held [(1, 8)] (1, 8)
    one_held_inv). set_solver.
Defined.

(** Only the first two allocations succeed: one slab of one object. *)
Definition two_only (n size : Z) : bool := n <? 2.
Definition h_tiny : heap :=
  result_heap (argo_mem_pool_get two_only zero_junk 0
                 (result_heap (argo_mem_pool_create two_only 8 1 empty_heap))).

Lemma tiny_inv : client_inv zero_junk 0 (adj_sz 8) h_tiny [(1, 8)].
Proof.
  eapply (reach_inv two_only).
  - eapply (client_inv_create two_only zero_junk empty_heap 8 1 0);
      [apply empty_heap_wf|unfold sane_sizes; split_and!; by vm_compute|vm_compute; reflexivity].
  - eapply (reach_step _ _ _ _ _ _ [] CGet); [apply reach_init|done|vm_compute; reflexivity].
Qed.

Lemma pool_get_null_exhausted_witness :
  ∃ s, pools h_tiny !! 0 = Some s ∧ 1 = mp_slab_cnt s * mp_obj_cnt s
     ∧ (mp_slab_cnt s = MP_SLABS_MAX
        ∨ two_only (next_block h_tiny) (mp_obj_sz s * mp_obj_cnt s) = false).
Proof.
  apply (pool_get_null_exhausted two_only zero_junk 0 (adj_sz 8) h_tiny [(1, 8)]
    (result_heap (argo_mem_pool_get two_only zero_junk 0 h_tiny)) tiny_inv).
  vm_compute. reflexivity.
Defined.

Lemma pool_user_data_stable_witness :
  words (result_heap (argo_mem_pool_get always_ok zero_junk 0 h_one_held)) !! (1, 8)
  = words h_one_held !! (1, 8).
Proof.
  apply (pool_user_data_stable always_ok zero_junk 0 (adj_sz 8) h_one_held [(1, 8)] (1, 8) 0
    CGet [(1, 24); (1, 8)] _ one_held_inv).
  - set_solver.
  - lia.
  - vm_compute. reflexivity.
  - by left.
  - vm_compute. reflexivity.
Defined.

Lemma pool_destroy_frees_witness :
  ∃ s h', pools h_one_held !! 0 = Some s ∧ argo_mem_pool_destroy 0 h_one_held = Ok tt h' ∧
    pools h' !! 0 = None ∧ blocks h' !! 0 = None ∧
    (∀ i b, slabs s !! i = Some b → blocks h' !! b = None) ∧
    (∀ b, b ≠ 0 → (∀ i, slabs s !! i ≠ Some b) → blocks h' !! b = blocks h_one_held !! b).
Proof. apply (pool_destroy_frees zero_junk 0 (adj_sz 8) h_one_held [(1, 8)] one_held_inv). Defined.

Lemma pool_create_zero_count_undefined_witness :
  argo_mem_pool_create always_ok 8 0 empty_heap = Undef.
Proof.
  apply (pool_create_zero_count_undefined always_ok empty_heap 8);
    [done|apply empty_heap_wf|lia|lia].
Defined.
