(* ===== verification/Queue.v ===== *)
(** * The connection queue (src/networking/conn_mgr/conn_mgr_queue.c)

    A singly linked list of heap items with head and tail pointers.  The heap maps
    item addresses to [(data, next)]; address 0 is NULL. *)

From Stdlib Require Import ZArith Lia.
From stdpp Require Import base gmap list numbers.
From S2P Require Import Prelude.

(** [struct conn_mgr_queue_item_t]. *)
Record conn_mgr_queue_item := mk_item { it_data : Z; it_next : Z }.

(** [struct conn_mgr_queue_t]. *)
Record conn_mgr_queue := mk_queue { q_head : Z; q_tail : Z }.

(** The part of memory the queue functions touch: the items, the queue objects,
    and the address the next [malloc] returns. *)
Record qheap := mk_qheap {
  items : gmap Z conn_mgr_queue_item;
  queues : gmap Z conn_mgr_queue;
  brk : Z }.

Section code.
(** Whether a [malloc] that would return this address succeeds. *)
Context (malloc_ok : Z → bool).

Definition malloc_item : M qheap Z := λ st,
  if malloc_ok (brk st)
  then Ok (brk st) (mk_qheap (<[brk st := mk_item 0 0]> (items st)) (queues st) (brk st + 1))
  else Ok NULL (mk_qheap (items st) (queues st) (brk st + 1)).

Definition free_item (a : Z) : M qheap unit := λ st,
  match items st !! a with
  | Some _ => Ok tt (mk_qheap (delete a (items st)) (queues st) (brk st))
  | None => Undef
  end.

Definition load_item (a : Z) : M qheap conn_mgr_queue_item := λ st,
  match items st !! a with Some i => Ok i st | None => Undef end.

Definition store_item (a : Z) (i : conn_mgr_queue_item) : M qheap unit := λ st,
  match items st !! a with
  | Some _ => Ok tt (mk_qheap (<[a := i]> (items st)) (queues st) (brk st))
  | None => Undef
  end.

Definition load_queue (q : Z) : M qheap conn_mgr_queue := λ st,
  match queues st !! q with Some x => Ok x st | None => Undef end.

Definition store_queue (q : Z) (x : conn_mgr_queue) : M qheap unit := λ st,
  match queues st !! q with
  | Some _ => Ok tt (mk_qheap (items st) (<[q := x]> (queues st)) (brk st))
  | None => Undef
  end.

(** Field assignments [queue->head = a] and [queue->tail = a]. *)
Definition set_head (q a : Z) : M qheap unit :=
  x ← load_queue q; store_queue q (mk_queue a (q_tail x)).
Definition set_tail (q a : Z) : M qheap unit :=
  x ← load_queue q; store_queue q (mk_queue (q_head x) a).

Definition conn_mgr_queue_init (q : Z) : M qheap unit :=
  if q =? NULL then mret tt else store_queue q (mk_queue 0 0).

Definition conn_mgr_queue_push_head (q d : Z) : M qheap unit :=
  if (q =? NULL) || (d =? NULL) then mret tt
  else
    item ← malloc_item;
    if item =? NULL then mret tt
    else
      it ← load_item item; store_item item (mk_item d (it_next it));;
      x ← load_queue q;
      it ← load_item item; store_item item (mk_item (it_data it) (q_head x));;
      set_head q item;;
      x ← load_queue q;
      if q_tail x =? NULL then set_tail q item else mret tt.

Definition conn_mgr_queue_push_tail (q d : Z) : M qheap unit :=
  if (q =? NULL) || (d =? NULL) then mret tt
  else
    item ← malloc_item;
    if item =? NULL then mret tt
    else
      it ← load_item item; store_item item (mk_item d (it_next it));;
      it ← load_item item; store_item item (mk_item (it_data it) NULL);;
      x ← load_queue q;
      (if negb (q_tail x =? NULL)
       then it ← load_item (q_tail x); store_item (q_tail x) (mk_item (it_data it) item)
       else set_head q item);;
      set_tail q item.

Definition conn_mgr_queue_pop_head (q : Z) : M qheap Z :=
  if q =? NULL then mret NULL
  else
    x ← load_queue q;
    let item := q_head x in
    if negb (item =? NULL) then
      it ← load_item item;
      (if it_next it =? NULL then set_tail q NULL else mret tt);;
      it ← load_item item;
      let d := it_data it in
      set_head q (it_next it);;
      free_item item;;
      mret d
    else mret NULL.

(** [for (item = queue->head; item != NULL; item = item->next)]. *)
Definition item_loop {B} (fuel : nat) (visit : conn_mgr_queue_item → B → M qheap B)
    (item : Z) (acc : B) : M qheap B :=
  loop fuel (λ '(item, acc),
    if item =? NULL then mret (inr acc)
    else it ← load_item item; acc ← visit it acc; mret (inl (it_next it, acc))) (item, acc).

Definition conn_mgr_queue_get_length (fuel : nat) (q : Z) : M qheap Z :=
  x ← load_queue q;
  item_loop fuel (λ _ count, mret (u32 (count + 1))) (q_head x) 0.

(** The callback is an argument of the function; [None] is a NULL pointer. *)
Definition conn_mgr_queue_print (fuel : nat) (q : Z)
    (print_callback : option (Z → M qheap unit)) : M qheap unit :=
  match print_callback with
  | None => mret tt
  | Some cb =>
      x ← load_queue q;
      item_loop fuel (λ it _, cb (it_data it)) (q_head x) tt
  end.

End code.

(** ** Representation *)

(** [nodes] are the [(address, data)] pairs of the list starting at [hd]. *)
Fixpoint lseg (m : gmap Z conn_mgr_queue_item) (hd : Z) (nodes : list (Z * Z)) : Prop :=
  match nodes with
  | [] => hd = NULL
  | (a, d) :: rest => hd = a ∧ a ≠ NULL ∧ ∃ nx, m !! a = Some (mk_item d nx) ∧ lseg m nx rest
  end.

Definition last_addr (nodes : list (Z * Z)) : Z :=
  match list.last nodes with Some n => n.1 | None => NULL end.

Record queue_rep (st : qheap) (q : Z) (nodes : list (Z * Z)) : Prop := {
  qr_q : q ≠ NULL;
  qr_queue : ∃ hd, queues st !! q = Some (mk_queue hd (last_addr nodes)) ∧ lseg (items st) hd nodes;
  qr_nodup : NoDup nodes.*1;
  qr_data : Forall (λ n, n.2 ≠ NULL) nodes;
  qr_dom : dom (items st) = list_to_set nodes.*1;
  qr_brk : 0 < brk st ∧ ∀ a, is_Some (items st !! a) → a < brk st }.

(** ** Lemmas on list segments *)

Lemma lseg_frame m m' hd nodes :
  (∀ a, a ∈ nodes.*1 → m' !! a = m !! a) → lseg m hd nodes → lseg m' hd nodes.
Proof.
  revert hd. induction nodes as [|[a d] nodes IH]; intros hd Hm; cbn; [done|].
  intros (-> & Hne & nx & E & Hl). split_and!; [done|done|]. exists nx. cbn in Hm.
  rewrite Hm by set_solver. split; [done|]. apply IH; [set_solver|done].
Qed.

Lemma lseg_dom m hd nodes a : lseg m hd nodes → a ∈ nodes.*1 → is_Some (m !! a) ∧ a ≠ NULL.
Proof.
  revert hd. induction nodes as [|[b d] nodes IH]; intros hd; cbn; [set_solver|].
  intros (-> & Hne & nx & E & Hl) Ha. apply elem_of_cons in Ha as [->|Ha]; [eauto|].
  by eapply IH.
Qed.

(** Appending a node behind the last one. *)
Lemma lseg_snoc m hd nodes l ld a d :
  lseg m hd (nodes ++ [(l, ld)]) → NoDup (nodes ++ [(l, ld)]).*1 →
  m !! a = None → a ≠ NULL →
  lseg (<[l := mk_item ld a]> (<[a := mk_item d NULL]> m)) hd (nodes ++ [(l, ld); (a, d)]).
Proof.
  revert hd. induction nodes as [|[b bd] nodes IH]; intros hd; cbn.
  - intros (-> & Hne & nx & E & ->) _ Ha Hn. split_and!; [done|done|].
    exists a. split; [by apply lookup_insert_eq|]. split_and!; [done|done|]. exists NULL.
    rewrite lookup_insert_ne by congruence. split; [by apply lookup_insert_eq|done].
  - intros (-> & Hne & nx & E & Hl) Hnd Ha Hn. apply list.NoDup_cons in Hnd as [Hb Hnd].
    split_and!; [done|done|]. exists nx. split; [|by apply IH].
    rewrite lookup_insert_ne; [rewrite lookup_insert_ne by congruence; done|].
    intros ->. apply Hb. rewrite fmap_app. set_solver.
Qed.

Lemma last_addr_cons a d n nodes : last_addr ((a, d) :: n :: nodes) = last_addr (n :: nodes).
Proof. done. Qed.

Lemma last_addr_snoc nodes a d : last_addr (nodes ++ [(a, d)]) = a.
Proof. unfold last_addr. by rewrite list.last_snoc. Qed.

Section rules.
Context (malloc_ok : Z → bool).

Lemma wp_load_item a st i (Q : conn_mgr_queue_item → qheap → Prop) :
  items st !! a = Some i → Q i st → wp (load_item a) Q st.
Proof. intros E HQ. unfold wp, load_item. by rewrite E. Qed.

Lemma wp_store_item a st i i' (Q : unit → qheap → Prop) :
  items st !! a = Some i → Q tt (mk_qheap (<[a := i']> (items st)) (queues st) (brk st)) →
  wp (store_item a i') Q st.
Proof. intros E HQ. unfold wp, store_item. by rewrite E. Qed.

Lemma wp_free_item a st i (Q : unit → qheap → Prop) :
  items st !! a = Some i → Q tt (mk_qheap (delete a (items st)) (queues st) (brk st)) →
  wp (free_item a) Q st.
Proof. intros E HQ. unfold wp, free_item. by rewrite E. Qed.

Lemma wp_load_queue q st x (Q : conn_mgr_queue → qheap → Prop) :
  queues st !! q = Some x → Q x st → wp (load_queue q) Q st.
Proof. intros E HQ. unfold wp, load_queue. by rewrite E. Qed.

Lemma wp_set_head q a st x (Q : unit → qheap → Prop) :
  queues st !! q = Some x →
  Q tt (mk_qheap (items st) (<[q := mk_queue a (q_tail x)]> (queues st)) (brk st)) →
  wp (set_head q a) Q st.
Proof.
  intros E HQ. unfold wp, set_head, mbind, M_bind, load_queue, store_queue.
  rewrite E. cbn. by rewrite E.
Qed.

Lemma wp_set_tail q a st x (Q : unit → qheap → Prop) :
  queues st !! q = Some x →
  Q tt (mk_qheap (items st) (<[q := mk_queue (q_head x) a]> (queues st)) (brk st)) →
  wp (set_tail q a) Q st.
Proof.
  intros E HQ. unfold wp, set_tail, mbind, M_bind, load_queue, store_queue.
  rewrite E. cbn. by rewrite E.
Qed.

Lemma fresh_item st q nodes : queue_rep st q nodes → items st !! brk st = None.
Proof.
  intros Hr. destruct (items st !! brk st) eqn:E; [|done].
  destruct (qr_brk _ _ _ Hr) as [_ H]. specialize (H (brk st)). rewrite E in H.
  specialize (H ltac:(eauto)). lia.
Qed.

(** What an operation does to the nodes of the queue. *)
Definition push_nodes (front : bool) (b d : Z) (nodes : list (Z * Z)) : list (Z * Z) :=
  if (d =? NULL) || negb (malloc_ok b) then nodes
  else if front then (b, d) :: nodes else nodes ++ [(b, d)].

Definition push_brk (b d : Z) : Z := if d =? NULL then b else b + 1.

Lemma malloc_fail_rep st q nodes : queue_rep st q nodes →
  queue_rep (mk_qheap (items st) (queues st) (brk st + 1)) q nodes.
Proof.
  intros [Hq Hqueue Hnd Hd Hdom [Hb Hlt]]. split; try done. split; cbn; [lia|].
  intros a Ha. specialize (Hlt a Ha). lia.
Qed.

Lemma dom_fresh (m : gmap Z conn_mgr_queue_item) a x (nodes : list (Z * Z)) :
  dom m = list_to_set nodes.*1 → dom (<[a := x]> m) = list_to_set (a :: nodes.*1).
Proof. intros Hd. rewrite dom_insert_L, Hd. set_solver. Qed.

Lemma push_head_wp st q nodes d : queue_rep st q nodes →
  wp (conn_mgr_queue_push_head malloc_ok q d)
     (λ _ st', queue_rep st' q (push_nodes true (brk st) d nodes) ∧ brk st' = push_brk (brk st) d) st.
Proof.
  intros Hr. pose proof Hr as [Hq (hd & Hqueue & Hl) Hnd Hd Hdom [Hb Hlt]].
  pose proof (fresh_item _ _ _ Hr) as Hf.
  unfold conn_mgr_queue_push_head, push_nodes, push_brk.
  rewrite (proj2 (Z.eqb_neq q NULL) Hq). cbn [orb].
  destruct (Z.eqb_spec d NULL) as [->|Hdn]; [by wp_step|]. cbn [orb].
  wp_step. unfold wp at 1, malloc_item. destruct (malloc_ok (brk st)) eqn:Ha; cbn [negb].
  - rewrite (proj2 (Z.eqb_neq (brk st) NULL)) by (unfold NULL; lia).
    wp_step. eapply wp_load_item; [cbn; by apply lookup_insert_eq|].
    wp_step. eapply wp_store_item; [cbn; by apply lookup_insert_eq|].
    wp_step. eapply wp_load_queue; [done|].
    wp_step. eapply wp_load_item; [cbn; by apply lookup_insert_eq|].
    wp_step. eapply wp_store_item; [cbn; by apply lookup_insert_eq|].
    wp_step. eapply wp_set_head; [done|].
    wp_step. eapply wp_load_queue; [cbn; by apply lookup_insert_eq|]. cbn [q_tail q_head it_data].
    cbn [items queues brk]. rewrite !insert_insert_eq.
    assert (Hnew : lseg (<[brk st := mk_item d hd]> (items st)) (brk st) ((brk st, d) :: nodes)).
    { split_and!; [done|unfold NULL; lia|]. exists hd. split; [by apply lookup_insert_eq|].
      eapply lseg_frame; [|exact Hl]. intros a Ha'.
      destruct (lseg_dom _ _ _ _ Hl Ha') as [Hs _]. apply Hlt in Hs. apply lookup_insert_ne. lia. }
    assert (Hfin : ∀ tl, tl = last_addr ((brk st, d) :: nodes) →
      queue_rep (mk_qheap (<[brk st := mk_item d hd]> (items st))
        (<[q := mk_queue (brk st) tl]> (queues st)) (brk st + 1)) q ((brk st, d) :: nodes)).
    { intros tl ->. split; cbn; try done.
      - exists (brk st). split; [by apply lookup_insert_eq|done].
      - apply list.NoDup_cons. split; [|done]. intros Hin.
        destruct (lseg_dom _ _ _ _ Hl Hin) as [Hs _]. apply Hlt in Hs. lia.
      - by constructor.
      - by apply dom_fresh.
      - split; [lia|]. intros a [x E]. rewrite lookup_insert in E. case_decide; [lia|].
        assert (a < brk st) by (apply Hlt; eauto). lia. }
    destruct nodes as [|n nodes].
    + change (last_addr [] =? NULL) with true. cbv iota. eapply wp_set_tail; [cbn; by apply lookup_insert_eq|]. cbn.
      rewrite insert_insert_eq. split; [by apply Hfin|done].
    + destruct n as [a0 d0].
      assert (Hla : last_addr ((a0, d0) :: nodes) ≠ NULL).
      { unfold last_addr. destruct (list.last ((a0, d0) :: nodes)) as [[l ld]|] eqn:El;
          [|by apply list.last_None in El].
        apply list.last_Some_elem_of in El. cbn.
        eapply lseg_dom; [exact Hl|]. apply list_elem_of_fmap. by exists (l, ld). }
      rewrite (proj2 (Z.eqb_neq _ _) Hla). wp_step. split; [|done].
      apply Hfin. by rewrite last_addr_cons.
  - rewrite Z.eqb_refl. wp_step. cbn. split; [by apply malloc_fail_rep|done].
Qed.

Lemma last_addr_nonnull m hd n nodes : lseg m hd (n :: nodes) → last_addr (n :: nodes) ≠ NULL.
Proof.
  intros Hl. unfold last_addr. destruct (list.last (n :: nodes)) as [[l ld]|] eqn:El;
    [|by apply list.last_None in El].
  apply list.last_Some_elem_of in El.
  eapply lseg_dom; [exact Hl|]. apply list_elem_of_fmap. by exists (l, ld).
Qed.

Lemma push_tail_wp st q nodes d : queue_rep st q nodes →
  wp (conn_mgr_queue_push_tail malloc_ok q d)
     (λ _ st', queue_rep st' q (push_nodes false (brk st) d nodes) ∧ brk st' = push_brk (brk st) d) st.
Proof.
  intros Hr. pose proof Hr as [Hq (hd & Hqueue & Hl) Hnd Hd Hdom [Hb Hlt]].
  pose proof (fresh_item _ _ _ Hr) as Hf.
  unfold conn_mgr_queue_push_tail, push_nodes, push_brk.
  rewrite (proj2 (Z.eqb_neq q NULL) Hq). cbn [orb].
  destruct (Z.eqb_spec d NULL) as [->|Hdn]; [by wp_step|]. cbn [orb].
  wp_step. unfold wp at 1, malloc_item. destruct (malloc_ok (brk st)) eqn:Ha; cbn [negb].
  - rewrite (proj2 (Z.eqb_neq (brk st) NULL)) by (unfold NULL; lia).
    wp_step. eapply wp_load_item; [cbn; by apply lookup_insert_eq|].
    wp_step. eapply wp_store_item; [cbn; by apply lookup_insert_eq|].
    wp_step. eapply wp_load_item; [cbn; by apply lookup_insert_eq|].
    wp_step. eapply wp_store_item; [cbn; by apply lookup_insert_eq|].
    wp_step. eapply wp_load_queue; [done|].
    cbn [q_tail q_head it_data items queues brk]. rewrite !insert_insert_eq.
    assert (Hfin : ∀ m hd', lseg m hd' (nodes ++ [(brk st, d)]) →
      dom m = {[brk st]} ∪ dom (items st) →
      queue_rep (mk_qheap m (<[q := mk_queue hd' (brk st)]> (queues st)) (brk st + 1)) q
        (nodes ++ [(brk st, d)])).
    { intros m hd' Hl' Hdm. split; cbn; try done.
      - exists hd'. rewrite last_addr_snoc. split; [by apply lookup_insert_eq|done].
      - rewrite fmap_app. apply list.NoDup_app. split_and!; [done| |by apply NoDup_singleton].
        intros a Hin Hin2. cbn in Hin2. apply list_elem_of_singleton in Hin2 as ->.
        destruct (lseg_dom _ _ _ _ Hl Hin) as [Hs _]. apply Hlt in Hs. lia.
      - apply Forall_app. split; [done|]. by constructor.
      - rewrite Hdm, Hdom, fmap_app, list_to_set_app_L. cbn. set_solver.
      - split; [lia|]. intros a Hs. apply elem_of_dom in Hs. rewrite Hdm in Hs.
        apply elem_of_union in Hs as [Hs|Hs]; [set_solver by lia|].
        apply elem_of_dom, Hlt in Hs. lia. }
    wp_step. destruct (snoc_case nodes) as [->|(nodes' & [l ld] & ->)].
    + cbn in Hl. subst hd. change (last_addr [] =? NULL) with true. cbn [negb].
      eapply wp_set_head; [done|]. eapply wp_set_tail; [cbn; by apply lookup_insert_eq|].
      cbn. rewrite insert_insert_eq. split; [|done]. apply Hfin.
      * cbn. split_and!; [done|unfold NULL; lia|]. exists NULL. by rewrite lookup_insert_eq.
      * apply dom_insert_L.
    + rewrite last_addr_snoc in *.
      assert (Hln : is_Some (items st !! l) ∧ l ≠ NULL).
      { eapply lseg_dom; [exact Hl|]. rewrite fmap_app. set_solver. }
      destruct Hln as [[il El] Hln].
      rewrite (proj2 (Z.eqb_neq _ _) Hln). cbn [negb].
      assert (l ≠ brk st) by congruence.
      wp_step. eapply wp_load_item; [cbn; by rewrite lookup_insert_ne|].
      eapply wp_store_item; [cbn; by rewrite lookup_insert_ne|].
      eapply wp_set_tail; [done|]. cbn. split; [|done].
      assert (Hdat : it_data il = ld).
      { clear -Hl El. revert hd Hl. induction nodes' as [|[a ad] nodes' IH]; intros hd; cbn.
        - intros (_ & _ & nx & E & _). rewrite E in El. by injection El as <-.
        - intros (_ & _ & nx & _ & Hl). eauto. }
      rewrite Hdat. rewrite <- app_assoc in Hfin |- *. cbn [app] in *. apply Hfin.
      * eapply lseg_snoc; try done. unfold NULL; lia.
      * rewrite !dom_insert_L.
        assert (l ∈ dom (items st)) by (apply elem_of_dom; eauto). set_solver.
  - rewrite Z.eqb_refl. wp_step. cbn. split; [by apply malloc_fail_rep|done].
Qed.

Lemma pop_head_wp st q nodes : queue_rep st q nodes →
  wp (conn_mgr_queue_pop_head q)
     (λ d st', brk st' = brk st ∧ queue_rep st' q (list.tail nodes)
             ∧ d = match nodes with [] => NULL | n :: _ => n.2 end) st.
Proof.
  intros Hr. pose proof Hr as [Hq (hd & Hqueue & Hl) Hnd Hd Hdom [Hb Hlt]].
  unfold conn_mgr_queue_pop_head. rewrite (proj2 (Z.eqb_neq q NULL) Hq).
  wp_step. eapply wp_load_queue; [done|]. cbn [q_head].
  destruct nodes as [|[a d] nodes].
  - cbn in Hl. subst hd. rewrite Z.eqb_refl. cbn [negb]. wp_step. done.
  - destruct Hl as (-> & Hne & nx & E & Hl). rewrite (proj2 (Z.eqb_neq _ _) Hne). cbn [negb].
    cbn in Hnd. apply list.NoDup_cons in Hnd as [Hn Hnd].
    apply list.Forall_cons in Hd as [_ Hd].
    assert (Hfin : ∀ tl, tl = last_addr nodes →
      queue_rep (mk_qheap (delete a (items st)) (<[q := mk_queue nx tl]> (queues st)) (brk st)) q nodes).
    { intros tl ->. split; cbn; try done.
      - exists nx. split; [by apply lookup_insert_eq|]. eapply lseg_frame; [|exact Hl].
        intros x Hx. apply lookup_delete_ne. intros ->. done.
      - rewrite dom_delete_L, Hdom. cbn. clear -Hn. set_solver.
      - split; [done|]. intros x [y Ey]. apply lookup_delete_Some in Ey as [_ Ey]. eauto. }
    wp_step. eapply wp_load_item; [done|]. cbn [it_next it_data].
    wp_step. destruct nodes as [|n nodes].
    + cbn in Hl. subst nx. rewrite Z.eqb_refl. eapply wp_set_tail; [done|].
      wp_step. eapply wp_load_item; [done|]. cbn.
      wp_step. eapply wp_set_head; [cbn; by apply lookup_insert_eq|].
      wp_step. eapply wp_free_item; [done|]. wp_step. cbn. rewrite insert_insert_eq.
      split_and!; [done| |done]. by apply Hfin.
    + assert (Hnx : nx ≠ NULL) by (destruct n; cbn in Hl; naive_solver).
      rewrite (proj2 (Z.eqb_neq _ _) Hnx). wp_step.
      wp_step. eapply wp_load_item; [done|]. cbn [it_next it_data].
      wp_step. eapply wp_set_head; [done|].
      wp_step. eapply wp_free_item; [done|]. wp_step. cbn [q_tail].
      split_and!; [done| |done]. apply Hfin. by destruct n.
Qed.

(** Sequential traversal of a list of data words, the reference for the loops. *)
Fixpoint visit_all {B} (visit : Z → B → M qheap B) (ds : list Z) (acc : B) : M qheap B :=
  match ds with
  | [] => mret acc
  | d :: ds => acc ← visit d acc; visit_all visit ds acc
  end.

(** A visitor that leaves the items alone sees every data word once, in order. *)
Lemma item_loop_visit {B} (visit : Z → B → M qheap B) nodes : ∀ hd acc st fuel,
  (∀ d acc st acc' st', visit d acc st = Ok acc' st' → items st' = items st) →
  lseg (items st) hd nodes → (length nodes < fuel)%nat →
  item_loop fuel (λ it, visit (it_data it)) hd acc st = visit_all visit nodes.*2 acc st.
Proof.
  induction nodes as [|[a d] nodes IH]; intros hd acc st fuel Hv Hl Hf;
    (destruct fuel as [|fuel]; [cbn in Hf; lia|]); unfold item_loop in *.
  - cbn in Hl. by subst hd.
  - destruct Hl as (-> & Hne & nx & E & Hl).
    assert (Ea : (a =? NULL) = false) by by apply Z.eqb_neq.
    assert (El : load_item a st = Ok (mk_item d nx) st) by (unfold load_item; by rewrite E).
    cbn [fmap list_fmap visit_all snd].
    destruct (visit d acc st) as [acc' st'| |c st'|] eqn:Ev.
    + rewrite (loop_again _ _ _ _ (nx, acc') st').
      * rewrite (bind_ok _ _ _ _ _ Ev). apply IH; [done| |cbn in Hf; lia].
        by rewrite (Hv _ _ _ _ _ Ev).
      * rewrite Ea, (bind_ok _ _ _ _ _ El). cbn [it_data it_next].
        by rewrite (bind_ok _ _ _ _ _ Ev).
    + cbn [loop]. unfold mbind, M_bind. rewrite Ea, El. cbn [it_data]. by rewrite Ev.
    + cbn [loop]. unfold mbind, M_bind. rewrite Ea, El. cbn [it_data]. by rewrite Ev.
    + cbn [loop]. unfold mbind, M_bind. rewrite Ea, El. cbn [it_data]. by rewrite Ev.
Qed.

Lemma visit_all_count ds c st :
  visit_all (λ _ count, mret (u32 (count + 1))) ds c st
  = Ok (if decide (ds = []) then c else u32 (c + Z.of_nat (length ds))) st.
Proof.
  revert c. induction ds as [|d ds IH]; intros c; [done|].
  cbn [visit_all]. unfold mbind, M_bind, mret, M_ret. rewrite IH.
  destruct (decide (d :: ds = [])); [done|]. f_equal.
  destruct (decide (ds = [])) as [->|]; [done|]. cbn [length].
  unfold u32. rewrite Z.add_mod_idemp_l by lia. f_equal. lia.
Qed.

Lemma get_length_ok st q nodes fuel : queue_rep st q nodes → (length nodes < fuel)%nat →
  conn_mgr_queue_get_length fuel q st = Ok (u32 (Z.of_nat (length nodes))) st.
Proof.
  intros Hr Hf. destruct (qr_queue _ _ _ Hr) as (hd & Hq & Hl).
  unfold conn_mgr_queue_get_length, mbind, M_bind, load_queue. rewrite Hq. cbn [q_head].
  rewrite (item_loop_visit (λ _ count, mret (u32 (count + 1))) nodes); [|by intros ????? [= _ <-]|done|done].
  rewrite visit_all_count, length_fmap. by destruct nodes.
Qed.

(** ** The abstract queue *)

Inductive qop := PushHead (d : Z) | PushTail (d : Z) | PopHead | GetLength.

(** The specification state: the next address the allocator uses (it decides
    whether an insertion succeeds) and the list of queued data. *)
Definition spec_qop (op : qop) (s : Z * list Z) : Z * (Z * list Z) :=
  let '(b, l) := s in
  match op with
  | PushHead d => (0, if d =? NULL then (b, l) else (b + 1, if malloc_ok b then d :: l else l))
  | PushTail d => (0, if d =? NULL then (b, l) else (b + 1, if malloc_ok b then l ++ [d] else l))
  | PopHead => match l with [] => (NULL, (b, [])) | d :: l => (d, (b, l)) end
  | GetLength => (u32 (Z.of_nat (length l)), (b, l))
  end.

Fixpoint spec_qops (ops : list qop) (s : Z * list Z) : list Z * (Z * list Z) :=
  match ops with
  | [] => ([], s)
  | op :: ops =>
      let '(r, s) := spec_qop op s in
      let '(rs, s) := spec_qops ops s in (r :: rs, s)
  end.

(** The same operations on the linked list; [fuel] bounds the length loop. *)
Definition run_qop (fuel : nat) (q : Z) (op : qop) : M qheap Z :=
  match op with
  | PushHead d => conn_mgr_queue_push_head malloc_ok q d;; mret 0
  | PushTail d => conn_mgr_queue_push_tail malloc_ok q d;; mret 0
  | PopHead => conn_mgr_queue_pop_head q
  | GetLength => conn_mgr_queue_get_length fuel q
  end.

Fixpoint run_qops (fuel : nat) (q : Z) (ops : list qop) : M qheap (list Z) :=
  match ops with
  | [] => mret []
  | op :: ops => r ← run_qop fuel q op; rs ← run_qops fuel q ops; mret (r :: rs)
  end.

Lemma run_qop_sim fuel q op st nodes : queue_rep st q nodes → (length nodes < fuel)%nat →
  ∃ st' nodes', run_qop fuel q op st = Ok (spec_qop op (brk st, nodes.*2)).1 st'
    ∧ queue_rep st' q nodes' ∧ (length nodes' ≤ S (length nodes))%nat
    ∧ (brk st', nodes'.*2) = (spec_qop op (brk st, nodes.*2)).2.
Proof.
  intros Hr Hf. destruct op as [d|d| |]; cbn [run_qop].
  - pose proof (push_head_wp _ _ _ d Hr) as Hw. apply wp_Ok in Hw as ([] & st' & E & Hr' & Hb).
    exists st', (push_nodes true (brk st) d nodes). unfold mbind, M_bind. rewrite E, Hb.
    revert Hr'. unfold push_nodes, push_brk, spec_qop.
    destruct (d =? NULL), (malloc_ok (brk st)); cbn; intros Hr'; split_and!; try done; lia.
  - pose proof (push_tail_wp _ _ _ d Hr) as Hw. apply wp_Ok in Hw as ([] & st' & E & Hr' & Hb).
    exists st', (push_nodes false (brk st) d nodes). unfold mbind, M_bind. rewrite E, Hb.
    revert Hr'. unfold push_nodes, push_brk, spec_qop.
    destruct (d =? NULL), (malloc_ok (brk st)); cbn; intros Hr'; rewrite ?fmap_app, ?length_app;
      cbn; split_and!; try done; lia.
  - pose proof (pop_head_wp _ _ _ Hr) as Hw. apply wp_Ok in Hw as (d & st' & E & Hb & Hr' & ->).
    exists st', (list.tail nodes). rewrite E, Hb. destruct nodes as [|[a d] nodes]; cbn.
    + split_and!; try done; lia.
    + split_and!; try done; lia.
  - exists st, nodes. rewrite (get_length_ok _ _ _ _ Hr Hf). cbn. rewrite length_fmap.
    split_and!; try done; lia.
Qed.

Lemma run_qops_sim q ops : ∀ st nodes fuel,
  queue_rep st q nodes → (length nodes + length ops < fuel)%nat →
  ∃ st' nodes', run_qops fuel q ops st = Ok (spec_qops ops (brk st, nodes.*2)).1 st'
    ∧ queue_rep st' q nodes' ∧ (brk st', nodes'.*2) = (spec_qops ops (brk st, nodes.*2)).2.
Proof.
  induction ops as [|op ops IH]; intros st nodes fuel Hr Hf; [by exists st, nodes|].
  cbn in Hf. destruct (run_qop_sim fuel q op st nodes Hr) as (st1 & n1 & E1 & Hr1 & Hlen & Es1); [lia|].
  destruct (IH st1 n1 fuel Hr1) as (st2 & n2 & E2 & Hr2 & Es2); [lia|].
  exists st2, n2. cbn [run_qops spec_qops]. unfold mbind, M_bind. rewrite E1, E2.
  destruct (spec_qop op (brk st, nodes.*2)) as [r s1]. cbn in Es1 |- *. subst s1.
  destruct (spec_qops ops (brk st1, n1.*2)) as [rs s2]. done.
Qed.

End rules.

(** The state in which [conn_mgr_queue_init] leaves a queue object. *)
Definition fresh_queue_heap (q : Z) : qheap := mk_qheap ∅ {[q := mk_queue 7 7]} 1.

Lemma init_rep q : q ≠ NULL →
  ∃ st, conn_mgr_queue_init q (fresh_queue_heap q) = Ok tt st ∧ queue_rep st q [] ∧ brk st = 1.
Proof.
  intros Hq. unfold conn_mgr_queue_init, store_queue. rewrite (proj2 (Z.eqb_neq _ _) Hq).
  cbn. rewrite lookup_singleton_eq. eexists. split; [done|]. split; [|done].
  split; cbn; try done.
  - exists 0. rewrite lookup_insert_eq. done.
  - by apply list.NoDup_nil.
  - split; [lia|]. intros a [x E]. done.
Qed.

(** ** Properties *)

(** C2: Starting from [conn_mgr_queue_init], every sequence of insertions at either
    end, removals and length queries on the linked list returns exactly what the
    same sequence returns on the abstract list; no step touches freed memory, and
    at the end the live heap items are exactly the queued elements (no leak).  An
    insertion whose [malloc] fails, or of a NULL pointer, leaves the list as it was. *)
Theorem queue_refines_list malloc_ok q ops :
  q ≠ NULL →
  ∃ st0 st, conn_mgr_queue_init q (fresh_queue_heap q) = Ok tt st0
    ∧ run_qops malloc_ok (S (length ops)) q ops st0 = Ok (spec_qops malloc_ok ops (1, [])).1 st
    ∧ size (items st) = length (spec_qops malloc_ok ops (1, [])).2.2.
Proof.
  intros Hq. destruct (init_rep q Hq) as (st0 & E0 & Hr0 & Hb0).
  destruct (run_qops_sim malloc_ok q ops st0 [] (S (length ops)) Hr0) as (st & nodes & E & Hr & Es);
    [cbn; lia|].
  rewrite Hb0 in E, Es. exists st0, st. split_and!; [done|exact E|].
  change ([].*2) with (@nil Z) in Es. rewrite <- Es. cbn [snd].
  rewrite <- size_dom, (qr_dom _ _ _ Hr), size_list_to_set by apply (qr_nodup _ _ _ Hr).
  by rewrite !length_fmap.
Qed.

Lemma queue_refines_list_witness :
  ∃ st0 st, conn_mgr_queue_init 5 (fresh_queue_heap 5) = Ok tt st0
    ∧ run_qops (λ b, negb (b =? 3)) 7 5 [PushHead 10; PushTail 20; PushTail 30; PopHead; GetLength; PopHead] st0
      = Ok [0; 0; 0; 10; 1; 20] st
    ∧ size (items st) = 0%nat.
Proof.
  apply (queue_refines_list (λ b, negb (b =? 3)) 5
    [PushHead 10; PushTail 20; PushTail 30; PopHead; GetLength; PopHead]). done.
Defined.

(** Printing calls the callback once per queued item, from head to tail, and the
    loop ends: with fuel above the queue length the whole traversal is done. *)
Theorem queue_print_in_order st q nodes cb fuel :
  queue_rep st q nodes → (length nodes < fuel)%nat →
  (∀ d st st', cb d st = Ok tt st' → items st' = items st) →
  conn_mgr_queue_print fuel q (Some cb) st = visit_all (λ d _, cb d) nodes.*2 tt st.
Proof.
  intros Hr Hf Hcb. destruct (qr_queue _ _ _ Hr) as (hd & Hq & Hl).
  unfold conn_mgr_queue_print, mbind, M_bind, load_queue. rewrite Hq. cbn [q_head].
  apply (item_loop_visit (λ d _, cb d) nodes); [|done|done].
  intros d [] st1 [] st2 E. by apply (Hcb d).
Qed.

(** A callback that counts its calls in the allocator mark. *)
Definition count_cb (d : Z) : M qheap unit :=
  modify (λ st, mk_qheap (items st) (queues st) (brk st + d)).

Lemma queue_print_in_order_witness :
  conn_mgr_queue_print 3 5 (Some count_cb)
    (mk_qheap {[1 := mk_item 10 NULL]} {[5 := mk_queue 1 1]} 2)
  = Ok tt (mk_qheap {[1 := mk_item 10 NULL]} {[5 := mk_queue 1 1]} 12).
Proof.
  rewrite (queue_print_in_order _ 5 [(1, 10)] count_cb 3).
  - vm_compute. reflexivity.
  - split; cbn.
    + done.
    + exists 1. split; [done|]. split_and!; [done|done|]. by exists NULL.
    + by apply NoDup_singleton.
    + by repeat constructor.
    + set_solver.
    + split; [lia|]. intros a [x E]. apply lookup_singleton_Some in E as [<- _]. lia.
  - cbn. lia.
  - intros d st st' [= <-]. done.
Defined.
