(* ===== verification/Posix.v ===== *)
(** * The interface to the operating system

    The C programs of the repository talk to the kernel and to the C library.  A
    call and its reply are recorded in a trace; what the environment answers is an
    arbitrary function of the history, the class [OS].  Theorems quantify over
    every [OS], so they hold for every behaviour of the kernel, and speak about the
    calls a function makes, in order, and about what it leaves open. *)

From Stdlib Require Import ZArith Lia ZifyBool.
From stdpp Require Import base gmap list strings numbers.
From S2P Require Import Prelude.

(** ** Calls *)

Inductive call :=
| Socket
| Bind (fd addr port : Z)
| Listen (fd backlog : Z)
| Connect (fd addr port : Z)
| Accept (fd : Z)
| Accept4 (fd flags : Z)
| Close (fd : Z)
| FcntlGetFL (fd : Z)
| FcntlSetFL (fd flags : Z)
| Setsockopt (fd level opt : Z) (val : list Z)
| Getsockopt (fd level opt : Z)
| Getsockname (fd : Z)
| InetAton (ip : string)
| InetPton (ip : string)
| InetNtoa (addr : Z)
| Poll (fds : list (Z * Z)) (timeout : Z)
| Recv (fd len flags : Z)
| Send (fd : Z) (buf : list Z) (flags : Z)
| Read (fd len : Z)
| Write (fd : Z) (buf : list Z)
| Open (path : string) (flags : Z)
| Recvfrom (fd len : Z)
| Sendto (fd : Z) (buf : list Z) (addr port : Z)
| Sleep (secs : Z)
| Splice (fd_in fd_out len flags : Z)
| Pipe
| EpollCreate
| EpollCtlAdd (epfd fd events data : Z)
| EpollWait (epfd max timeout : Z)
| Fork
| Waitpid (pid options : Z)
| Kill (pid sig : Z)
| Sigaction (sig : Z) (handler : string)
| SignalDfl (sig : Z)
| Raise (sig : Z)
| Malloc (size : Z)
| Calloc (n size : Z)
| Realloc (p size : Z)
| Free (p : Z)
| PthreadCreate (routine : string) (arg : Z)
| PthreadCancel (id : Z)
| PthreadJoin (id : Z)
| Syslog (level : Z) (fmt : string)
| Openlog (ident : string) (options facility : Z)
| Setlogmask (mask : Z)
| Closelog
| Printf (fmt : string) (args : list Z)
| Ext (name : string) (args : list Z).

(** The return value, the value of [errno] a failing call leaves, and what is in the
    objects its pointer arguments designate when it returns (for a failing
    [inet_aton] or [inet_pton]: whatever the uninitialised address held). *)
Record reply := mk_reply { r_ret : Z; r_errno : Z; r_out : list Z }.

Definition event : Type := call * reply.

(** The environment: how it answers a call after a history (newest event first). *)
Class OS := os_answer : list event → call → reply.

(** A running program: its history and its global variables. *)
Record world (G : Type) := mk_world { w_trace : list event; w_glob : G }.
Arguments mk_world {G} _ _.
Arguments w_trace {G} _.
Arguments w_glob {G} _.

Section calls.
Context {os : OS} {G : Type}.

Definition sys (c : call) : M (world G) reply := λ w,
  let r := os_answer (w_trace w) c in
  Ok r (mk_world ((c, r) :: w_trace w) (w_glob w)).

Definition get_glob : M (world G) G := gets w_glob.
Definition set_glob (g : G) : M (world G) unit := modify (λ w, mk_world (w_trace w) g).
Definition upd_glob (f : G → G) : M (world G) unit :=
  modify (λ w, mk_world (w_trace w) (f (w_glob w))).

(** A call whose result the program ignores. *)
Definition sys_ (c : call) : M (world G) unit := sys c;; mret tt.

End calls.

(** ** Strings *)

(** [strncpy(dst, s, n)]: at most [n] bytes, padded with NUL bytes. *)
Definition strncpy (n : nat) (s : string) : list Ascii.ascii :=
  take n (String.list_ascii_of_string s ++ replicate n Ascii.zero).

(** The C string in an array; [None] when it is not terminated inside it. *)
Fixpoint c_string (l : list Ascii.ascii) : option string :=
  match l with
  | [] => None
  | c :: l => if bool_decide (c = Ascii.zero) then Some EmptyString else String c <$> c_string l
  end.

(** The string a call stored. *)
Definition str_of (l : list Z) : string :=
  String.string_of_list_ascii (map (λ z, Ascii.ascii_of_N (Z.to_N z)) l).

Lemma c_string_is_Some l : Ascii.zero ∈ l → is_Some (c_string l).
Proof.
  induction l as [|c l IH]; intros Hin; [by apply elem_of_nil in Hin|]. cbn.
  case_bool_decide; [by eexists|]. apply fmap_is_Some, IH. set_solver.
Qed.

Lemma strncpy_terminated n s : (String.length s < n)%nat → is_Some (c_string (strncpy n s)).
Proof.
  intros Hl. apply c_string_is_Some. unfold strncpy.
  assert (Hlen : length (String.list_ascii_of_string s) = String.length s).
  { clear. by induction s; cbn; congruence. }
  rewrite take_app_ge, Hlen by lia. apply elem_of_app. right.
  rewrite take_replicate. apply elem_of_replicate. split; [done|lia].
Qed.

(** ** Constants of the Linux ABI *)

Definition EINTR : Z := 4.
Definition EAGAIN : Z := 11.
Definition EEXIST : Z := 17.
Definition EINPROGRESS : Z := 115.
Definition O_NONBLOCK : Z := 2048.
Definition SOCK_NONBLOCK : Z := 2048.
Definition SOL_SOCKET : Z := 1.
Definition SOL_IP : Z := 0.
Definition SO_REUSEADDR : Z := 2.
Definition SO_ERROR : Z := 4.
Definition SO_LINGER : Z := 13.
Definition IP_TRANSPARENT : Z := 19.
Definition POLLIN : Z := 1.
Definition POLLPRI : Z := 2.
Definition POLLOUT : Z := 4.
Definition EPOLLIN : Z := 1.
Definition EPOLLPRI : Z := 2.
Definition EPOLLOUT : Z := 4.
Definition EPOLLERR : Z := 8.
Definition EPOLLHUP : Z := 16.
Definition EPOLLET : Z := 2147483648.
Definition SPLICE_F_MOVE : Z := 1.
Definition SPLICE_F_NONBLOCK : Z := 2.
Definition WUNTRACED : Z := 2.
Definition LOG_EMERG : Z := 0.
Definition LOG_ALERT : Z := 1.
Definition LOG_CRIT : Z := 2.
Definition LOG_ERR : Z := 3.
Definition LOG_WARNING : Z := 4.
Definition LOG_NOTICE : Z := 5.
Definition LOG_INFO : Z := 6.
Definition LOG_DEBUG : Z := 7.
Definition LOG_PID : Z := 1.
Definition LOG_NDELAY : Z := 8.
Definition LOG_LOCAL1 : Z := 136.

(** [x & mask] as a C condition. *)
Definition has_bits (x mask : Z) : bool := negb (Z.land x mask =? 0).

(** ** What a history leaves open

    [fd_delta e fd]: how the event changes the number of open descriptions the
    program owns under the descriptor [fd]; likewise for heap blocks. *)

Definition fd_delta (e : event) (fd : Z) : Z :=
  let '(c, r) := e in
  match c with
  | Socket | Accept _ | Accept4 _ _ | EpollCreate | Open _ _ => Z.b2z ((0 <=? r_ret r) && (r_ret r =? fd))
  | Pipe => if r_ret r =? 0 then Z.b2z (r_out r !!! 0%nat =? fd) + Z.b2z (r_out r !!! 1%nat =? fd) else 0
  | Close fd' => - Z.b2z (fd' =? fd)
  | _ => 0
  end.

Fixpoint fd_balance (tr : list event) (fd : Z) : Z :=
  match tr with [] => 0 | e :: tr => fd_delta e fd + fd_balance tr fd end.

Definition mem_delta (e : event) (p : Z) : Z :=
  let '(c, r) := e in
  match c with
  | Malloc _ | Calloc _ _ => Z.b2z (negb (r_ret r =? 0) && (r_ret r =? p))
  | Realloc p' _ => if r_ret r =? 0 then 0 else Z.b2z (r_ret r =? p) - Z.b2z (negb (p' =? 0) && (p' =? p))
  | Free p' => - Z.b2z (negb (p' =? 0) && (p' =? p))
  | _ => 0
  end.

Fixpoint mem_balance (tr : list event) (p : Z) : Z :=
  match tr with [] => 0 | e :: tr => mem_delta e p + mem_balance tr p end.

(** [log_msg] writes a record to the system log and changes nothing else. *)
Definition log_msg {os : OS} {G} (level : Z) (fmt : string) : M (world G) unit :=
  sys_ (Syslog level fmt).

(** [res_delta tr tr' fds ps]: between the histories [tr] and [tr'] the program has
    become the owner of exactly the descriptors [fds] and the heap blocks [ps] more. *)
Definition count (x : Z) (l : list Z) : Z := foldr (λ y n, Z.b2z (y =? x) + n) 0 l.

Definition res_delta (tr tr' : list event) (fds ps : list Z) : Prop :=
  (∀ fd, fd_balance tr' fd = fd_balance tr fd + count fd fds) ∧
  (∀ p, mem_balance tr' p = mem_balance tr p + count p ps).

(** Between [tr] and [tr'] nothing was acquired or released for good. *)
Definition res_eq (tr tr' : list event) : Prop := res_delta tr tr' [] [].

(** ** What went over the sockets *)

(** The bytes the kernel accepted for [fd], and those it delivered from it. *)
Fixpoint sent (fd : Z) (tr : list event) : list Z :=
  match tr with
  | [] => []
  | (Send fd' b _, r) :: tr => sent fd tr ++ (if fd' =? fd then take (Z.to_nat (r_ret r)) b else [])
  | _ :: tr => sent fd tr
  end.

Fixpoint received (fd : Z) (tr : list event) : list Z :=
  match tr with
  | [] => []
  | (Recv fd' _ _, r) :: tr =>
      received fd tr ++ (if fd' =? fd then take (Z.to_nat (r_ret r)) (r_out r) else [])
  | _ :: tr => received fd tr
  end.

(** ** Calls repeated until they are not interrupted *)

Definition interrupted (r : reply) : bool := (r_ret r <? 0) && (r_errno r =? EINTR).

(** The history after [k] further calls [c]. *)
Fixpoint retries {os : OS} (k : nat) (c : call) (tr : list event) : list event :=
  match k with
  | O => tr
  | Datatypes.S k => retries k c ((c, os_answer tr c) :: tr)
  end.

(** A call is not interrupted by signals [fuel] times in a row. *)
Definition settles {os : OS} (fuel : nat) (c : call) : Prop :=
  ∀ tr, ∃ k, (k < fuel)%nat ∧ interrupted (os_answer (retries k c tr) c) = false.

(** ** Rules *)

Section rules.
Context {os : OS} {G : Type}.
Implicit Types w : world G.

Lemma wp_sys c tr (g : G) (Q : reply → world G → Prop) :
  (∀ r, r = os_answer tr c → Q r (mk_world ((c, r) :: tr) g)) → wp (sys c) Q (mk_world tr g).
Proof. intros H. by apply H. Qed.

Lemma wp_sys_ c tr (g : G) (Q : unit → world G → Prop) :
  (∀ r, r = os_answer tr c → Q tt (mk_world ((c, r) :: tr) g)) → wp (sys_ c) Q (mk_world tr g).
Proof. intros H. by apply H. Qed.

Lemma wp_log level fmt tr (g : G) (Q : unit → world G → Prop) :
  (∀ r, r = os_answer tr (Syslog level fmt) → Q tt (mk_world ((Syslog level fmt, r) :: tr) g)) →
  wp (log_msg level fmt) Q (mk_world tr g).
Proof. intros H. by apply H. Qed.

Lemma wp_get_glob tr (g : G) (Q : G → world G → Prop) : Q g (mk_world tr g) → wp get_glob Q (mk_world tr g).
Proof. done. Qed.

Lemma wp_upd_glob f tr (g : G) (Q : unit → world G → Prop) :
  Q tt (mk_world tr (f g)) → wp (upd_glob f) Q (mk_world tr g).
Proof. done. Qed.

Lemma wp_set_glob g' tr (g : G) (Q : unit → world G → Prop) :
  Q tt (mk_world tr g') → wp (set_glob g') Q (mk_world tr g).
Proof. done. Qed.

Lemma wp_expect_eq {A} (o : option A) (Q : A → world G → Prop) w :
  is_Some o → (∀ a, o = Some a → Q a w) → wp (expect o) Q w.
Proof. intros [a ->] H. by apply H. Qed.

End rules.

#[global] Instance res_eq_equiv : Equivalence res_eq.
Proof.
  split.
  - split; intros z; cbn; lia.
  - intros x y [H1 H2]; split; intros z; [specialize (H1 z)|specialize (H2 z)]; cbn in *; lia.
  - intros x y z [H1 H2] [H3 H4]; split; intros a;
      [specialize (H1 a); specialize (H3 a)|specialize (H2 a); specialize (H4 a)]; cbn in *; lia.
Qed.

Lemma count_app x l k : count x (l ++ k) = count x l + count x k.
Proof. unfold count. induction l as [|y l IH]; cbn [foldr app]; [lia|]. rewrite IH. lia. Qed.

Lemma res_delta_trans a b c f1 p1 f2 p2 :
  res_delta a b f1 p1 → res_delta b c f2 p2 → res_delta a c (f1 ++ f2) (p1 ++ p2).
Proof. intros [H1 H2] [H3 H4]. split; intros x; rewrite count_app; [rewrite H3, H1|rewrite H4, H2]; lia. Qed.

Lemma res_delta_cons a b c f p fs ps :
  res_delta b c [f] [p] → res_delta a b fs ps → res_delta a c (f :: fs) (p :: ps).
Proof. intros [H1 H2] [H3 H4]. split; intros x; [rewrite H1, H3|rewrite H2, H4]; unfold count; cbn [foldr]; lia. Qed.

Lemma res_delta_block a b c p fs ps :
  res_delta a b [] [p] → res_delta b c fs ps → res_delta a c fs (p :: ps).
Proof. intros [H1 H2] [H3 H4]. split; intros x; [rewrite H3, H1|rewrite H4, H2]; unfold count; cbn [foldr]; lia. Qed.

#[global] Instance res_delta_proper : Proper (res_eq ==> res_eq ==> eq ==> eq ==> iff) res_delta.
Proof.
  assert (Hd : ∀ a b c d f p, res_eq a b → res_eq c d → res_delta a c f p → res_delta b d f p).
  { intros a b c d f p [H1 H2] [H3 H4] [H5 H6]; split; intros x.
    - rewrite H3, H5. specialize (H1 x). cbn in *. lia.
    - rewrite H4, H6. specialize (H2 x). cbn in *. lia. }
  intros a b Hab c d Hcd f _ <- p _ <-. split; [by apply Hd|by apply Hd; symmetry].
Qed.

(** Symbolic execution: run every call, split on every condition of the source, keep
    the conditions as hypotheses. *)
Ltac wp_sys_step :=
  lazymatch goal with
  | |- wp (mbind _ _) _ _ => apply wp_bind; cbn beta
  | |- wp (mret _) _ _ => apply wp_ret; cbn beta
  | |- wp (expect (Some _)) _ _ => apply wp_ret; cbn beta
  | |- wp (sys_ _) _ (mk_world _ _) =>
      apply wp_sys_; let r := fresh "r" in let Hr := fresh "Hr" in intros r Hr
  | |- wp (sys _) _ (mk_world _ _) =>
      apply wp_sys; let r := fresh "r" in let Hr := fresh "Hr" in intros r Hr
  | |- wp (log_msg _ _) _ (mk_world _ _) => apply wp_log; let r := fresh "r" in let Hr := fresh "Hr" in intros r Hr
  | |- wp get_glob _ (mk_world _ _) => apply wp_get_glob; cbn beta
  | |- wp (upd_glob _) _ (mk_world _ _) => apply wp_upd_glob; cbn beta
  | |- wp (set_glob _) _ (mk_world _ _) => apply wp_set_glob; cbn beta
  | |- wp (if ?x then _ else _) _ _ =>
      let E := fresh "E" in destruct x eqn:E; try discriminate E
  | |- wp (match ?x with _ => _ end) _ _ =>
      first [progress cbv iota | let E := fresh "E" in destruct x eqn:E]
  end.

Ltac wp_run := repeat wp_sys_step.

(** Close a goal about what a history leaves open. *)
Ltac res_solve :=
  first [ done |
  repeat match goal with H : res_eq _ _ |- _ => destruct H as [??] | H : res_delta _ _ _ _ |- _ => destruct H as [??] end;
  split; intros ?x; cbn [fd_balance fd_delta mem_balance mem_delta count foldr app w_trace w_glob] in *;
  repeat match goal with
  | H : ∀ _ : Z, fd_balance _ _ = _ |- context [fd_balance _ ?x] => specialize (H x)
  | H : ∀ _ : Z, mem_balance _ _ = _ |- context [mem_balance _ ?x] => specialize (H x)
  end; unfold res_eq, NULL in *; cbn [count foldr] in *; repeat destr_match; lia ].

Section retry.
Context {os : OS} {G : Type}.

(** A loop that repeats an interrupted call: it leaves after finitely many
    interruptions, with a reply that is not one, and owns what it owned before. *)
Lemma wp_retry {B} fuel c (body : unit → M (world G) (unit + B)) (Q : B → world G → Prop) tr (g : G) :
  settles fuel c → (∀ e fd, e.1 = c → fd_delta e fd = 0) → (∀ e p, e.1 = c → mem_delta e p = 0) →
  (∀ tr, interrupted (os_answer tr c) = true →
     body tt (mk_world tr g) = Ok (inl tt) (mk_world ((c, os_answer tr c) :: tr) g)) →
  (∀ tr', res_eq tr tr' → interrupted (os_answer tr' c) = false →
     wp (body tt) (λ x w, match x with inl _ => False | inr b => Q b w end) (mk_world tr' g)) →
  wp (loop fuel body tt) Q (mk_world tr g).
Proof.
  intros Hs Hfd Hmem Hagain Hdone. destruct (Hs tr) as (k & Hk & Hint).
  clear Hs. revert tr k Hk Hint Hdone. induction fuel as [|fuel IH]; intros tr k Hk Hint Hdone; [lia|].
  destruct (interrupted (os_answer tr c)) eqn:Ei.
  - unfold wp. rewrite (loop_again _ _ _ _ _ _ (Hagain _ Ei)).
    destruct k as [|k]; [cbn in Hint; congruence|].
    apply (IH _ k); [lia|done|]. intros tr' Hr. apply Hdone. etrans; [|exact Hr].
    split; intros x; cbn [fd_balance mem_balance count foldr]; rewrite ?Hfd, ?Hmem by done; lia.
  - specialize (Hdone tr (reflexivity _) Ei). cbn [loop]. apply wp_bind.
    eapply wp_mono; [exact Hdone|]. intros [|b] s; [done|]. auto.
Qed.

End retry.

(** ** Environments that calm down

    A program that serves a peer runs as long as the peer keeps it busy.  An event is
    busy when it makes such a program go on: data or readiness, or an interruption. *)

Definition busy (e : event) : bool :=
  interrupted e.2 ||
  match e.1 with
  | Poll _ _ | Recv _ _ _ | Read _ _ | Splice _ _ _ _ | EpollWait _ _ _ => 0 <? r_ret e.2
  | Send _ _ _ | Accept _ | Accept4 _ _ | Recvfrom _ _ | Waitpid _ _ => 0 <=? r_ret e.2
  | _ => false
  end.

Definition busy_count (tr : list event) : nat := length (filter (λ e, busy e = true) tr).

(** At most [K] busy events ever happen. *)
Definition calms_down {os : OS} (K : nat) : Prop :=
  ∀ tr c, (K ≤ busy_count tr)%nat → busy (c, os_answer tr c) = false.

(** [tr'] continues [tr] with answers of this environment. *)
Inductive os_ext {os : OS} (tr : list event) : list event → Prop :=
| os_ext_refl : os_ext tr tr
| os_ext_cons tr' c r : os_ext tr tr' → r = os_answer tr' c → os_ext tr ((c, r) :: tr').

(** [tr'] continues [tr] and the program owns at [tr'] what it owned at [tr]. *)
Definition quiet {os : OS} (tr tr' : list event) : Prop := res_eq tr tr' ∧ os_ext tr tr'.

Section calm.
Context {os : OS} {G : Type}.

Lemma os_ext_trans a b c : os_ext a b → os_ext b c → os_ext a c.
Proof. intros H1 H2. induction H2; [done|by constructor]. Qed.

#[global] Instance quiet_preorder : PreOrder quiet.
Proof.
  split.
  - intros a. split; [reflexivity|constructor].
  - intros a b c [H1 H2] [H3 H4]. split; [by etrans|by eapply os_ext_trans].
Qed.

Lemma busy_count_cons e tr : busy_count (e :: tr) = ((if busy e then 1 else 0) + busy_count tr)%nat.
Proof. unfold busy_count. rewrite filter_cons. by destruct (busy e). Qed.

Lemma os_ext_busy tr tr' : os_ext tr tr' → (busy_count tr ≤ busy_count tr')%nat.
Proof. induction 1 as [|tr' c r H IH E]; [done|]. rewrite busy_count_cons. lia. Qed.

Lemma os_ext_elem tr tr' e : os_ext tr tr' → e ∈ tr → e ∈ tr'.
Proof. induction 1; [done|]. intros. by apply elem_of_cons; right; auto. Qed.

Lemma os_ext_calm K tr tr' : calms_down K → os_ext tr tr' →
  (busy_count tr' ≤ busy_count tr)%nat ∨ (busy_count tr' ≤ K)%nat.
Proof.
  intros HK. induction 1 as [|tr' c r H IH ->]; [by left|]. rewrite busy_count_cons.
  destruct (busy (c, os_answer tr' c)) eqn:E; [|done]. right.
  destruct (decide (K ≤ busy_count tr')%nat) as [Hle|]; [|lia]. by rewrite HK in E.
Qed.

(** A loop each of whose rounds meets a busy event ends in a calm environment. *)
Lemma wp_calm_loop {A B} K fuel (body : A → M (world G) (A + B)) (P : A → world G → Prop)
    (Q : B → world G → Prop) a w :
  calms_down K → (K < fuel)%nat → P a w →
  (∀ a w, P a w → wp (body a) (λ r w', match r with
     | inl a' => P a' w' ∧ os_ext (w_trace w) (w_trace w') ∧
                 (busy_count (w_trace w) < busy_count (w_trace w'))%nat
     | inr b => Q b w' end) w) →
  wp (loop fuel body a) Q w.
Proof.
  intros HK Hf HP Hbody.
  apply (wp_loop P (λ _ w, (K - busy_count (w_trace w))%nat)); [|done|lia].
  intros a' w' HP'. eapply wp_mono; [by apply Hbody|]. intros [a2|b] w2; [|done].
  intros (HP2 & He & Hb). split; [done|]. destruct (os_ext_calm K _ _ HK He); lia.
Qed.

Lemma ends_calm_loop {A B} K fuel (body : A → M (world G) (A + B)) (P : A → world G → Prop)
    (Q : B → world G → Prop) E a w :
  calms_down K → (K < fuel)%nat → P a w →
  (∀ a w, P a w → ends (body a) (λ r w', match r with
     | inl a' => P a' w' ∧ os_ext (w_trace w) (w_trace w') ∧
                 (busy_count (w_trace w) < busy_count (w_trace w'))%nat
     | inr b => Q b w' end) E w) →
  ends (loop fuel body a) Q E w.
Proof.
  intros HK Hf HP Hbody.
  apply (ends_loop E P (λ _ w, (K - busy_count (w_trace w))%nat)); [|done|lia].
  intros a' w' HP'. eapply ends_mono; [by apply Hbody|]. intros [a2|b] w2; [|done].
  intros (HP2 & He & Hb). split; [done|]. destruct (os_ext_calm K _ _ HK He); lia.
Qed.

End calm.

(** Close a goal about the continuation of a history. *)
Ltac ext_solve := repeat first [assumption | eapply os_ext_cons; [|eassumption] | apply os_ext_refl |
  match goal with H : quiet _ _ |- _ => destruct H as [??] end |
  match goal with H : os_ext ?a ?b |- os_ext _ ?b => refine (os_ext_trans _ _ _ _ H); clear H end].
Ltac quiet_solve := split; [repeat match goal with H : quiet _ _ |- _ => destruct H as [? _] end; res_solve|ext_solve].

(** Close a goal about the number of busy events. *)
Ltac busy_solve :=
  rewrite !busy_count_cons; unfold busy, interrupted in *; cbn [fst snd] in *;
  repeat match goal with |- context [if ?b then _ else _] => destruct b eqn:? end; lia.

(** An environment that answers like [o] until [K] busy events have happened, and then
    fails every call. *)
Definition calm_os (K : nat) (o : OS) : OS := λ tr c,
  if (K <=? busy_count tr)%nat then mk_reply (-1) 5 [] else o tr c.

Lemma calm_os_calms K o : calms_down (os := calm_os K o) K.
Proof.
  intros tr c HK. unfold os_answer, calm_os. rewrite (proj2 (Nat.leb_le _ _) HK). by destruct c.
Qed.

(** ** Allocators *)

(** [calloc] succeeds and never returns a block the program still owns. *)
Definition calloc_fresh {os : OS} : Prop :=
  ∀ tr n s, let p := r_ret (os_answer tr (Calloc n s)) in p ≠ NULL ∧ mem_balance tr p = 0.

(** An allocator can hand out addresses above every address of the history. *)
Definition event_top (e : event) : Z :=
  Z.max (r_ret e.2) (match e.1 with Free p | Realloc p _ => p | _ => 0 end).

Definition brk (tr : list event) : Z := foldr (λ e n, Z.max (event_top e) n) 0 tr.

Lemma brk_fresh tr p : brk tr < p → mem_balance tr p = 0.
Proof.
  unfold brk. induction tr as [|[c r] tr IH]; cbn [foldr mem_balance]; [done|]. intros Hp.
  rewrite IH by lia. unfold event_top in Hp. cbn [fst snd] in Hp. destruct c; cbn [mem_delta]; try case_match; lia.
Qed.

Lemma brk_nonneg tr : 0 ≤ brk tr.
Proof. unfold brk. induction tr; cbn; lia. Qed.

(** ** Arrays and printed text *)

Section arrays.
Context {S : Type}.

Definition rd (l : list Z) (i : Z) : M S Z := if i <? 0 then undef else expect (l !! Z.to_nat i).
Definition wr (l : list Z) (i v : Z) : M S (list Z) :=
  if (0 <=? i) && (i <? Z.of_nat (length l)) then mret (<[Z.to_nat i := v]> l) else undef.

Lemma rd_ok l i v s : 0 ≤ i → l !! Z.to_nat i = Some v → rd l i s = Ok v s.
Proof. intros Hi Hl. unfold rd. destruct (Z.ltb_spec i 0); [lia|]. by rewrite Hl. Qed.

Lemma wr_ok l i v s : 0 ≤ i < Z.of_nat (length l) → wr l i v s = Ok (<[Z.to_nat i := v]> l) s.
Proof. intros Hi. unfold wr. destruct (Z.leb_spec 0 i), (Z.ltb_spec i (Z.of_nat (length l))); done || lia. Qed.

End arrays.

(** The codes of the characters of a string. *)
Definition codes (s : string) : list Z := map (λ c, Z.of_N (Ascii.N_of_ascii c)) (String.list_ascii_of_string s).

(** The C string in an array of characters. *)
Fixpoint cstr (l : list Z) : list Z :=
  match l with [] => [] | c :: l => if c =? 0 then [] else c :: cstr l end.

(** [%s] of an array that holds no terminator reads past its end. *)
Definition print_str {os : OS} {G} (fmt : string) (buf : list Z) : M (world G) unit :=
  if bool_decide (0 ∈ buf) then sys_ (Printf fmt (cstr buf)) else undef.

(** The arguments of the lines printed with the format [fmt], oldest first. *)
Fixpoint lines (fmt : string) (tr : list event) : list (list Z) :=
  match tr with
  | [] => []
  | (Printf f args, _) :: tr => lines fmt tr ++ (if String.eqb f fmt then [args] else [])
  | _ :: tr => lines fmt tr
  end.

(** Everything printed, as formats with their arguments, oldest first. *)
Fixpoint text (tr : list event) : list (string * list Z) :=
  match tr with
  | [] => []
  | (Printf f args, _) :: tr => text tr ++ [(f, args)]
  | _ :: tr => text tr
  end.

(** A program that prints nothing. *)
Definition mute {G A} (m : M (world G) A) : Prop := ∀ w a w', m w = Ok a w' → text (w_trace w') = text (w_trace w).

Definition is_printf (c : call) : bool := match c with Printf _ _ => true | _ => false end.

Section mute_rules.
Context {os : OS} {G : Type}.

Lemma mute_ret {A} (a : A) : mute (G := G) (mret a).
Proof. by intros w b w' [= _ <-]. Qed.

Lemma mute_undef {A} : mute (G := G) (A := A) undef.
Proof. done. Qed.

Lemma mute_bind {A B} (m : M (world G) A) (k : A → M (world G) B) : mute m → (∀ a, mute (k a)) → mute (m ≫= k).
Proof.
  intros Hm Hk w b w'. unfold mbind, M_bind. destruct (m w) as [a w1| | |] eqn:E; try done. intros E'.
  etrans; [by eapply Hk|by eapply Hm].
Qed.

Lemma mute_sys c : is_printf c = false → mute (G := G) (sys c).
Proof. intros Hc w r w' [= _ <-]. cbn. by destruct c. Qed.

Lemma mute_sys_ c : is_printf c = false → mute (G := G) (sys_ c).
Proof. intros Hc. apply mute_bind; [by apply mute_sys|]. intros r. apply mute_ret. Qed.

Lemma mute_get_glob : mute (G := G) get_glob.
Proof. by intros w g w' [= _ <-]. Qed.

Lemma mute_upd_glob f : mute (G := G) (upd_glob f).
Proof. by intros w g w' [= _ <-]. Qed.

Lemma mute_expect {A} (o : option A) : mute (G := G) (expect o).
Proof. destruct o; [apply mute_ret|apply mute_undef]. Qed.

Lemma mute_loop {A B} fuel (body : A → M (world G) (A + B)) : (∀ a, mute (body a)) → ∀ a, mute (loop fuel body a).
Proof.
  intros Hb. induction fuel as [|fuel IH]; intros a; [done|]. cbn [loop]. apply mute_bind; [done|].
  intros [a'|b]; [apply IH|apply mute_ret].
Qed.

Lemma mute_for_range {A} n (body : Z → A → M (world G) A) : (∀ i a, mute (body i a)) → ∀ i a, mute (for_range n i body a).
Proof.
  intros Hb. induction n as [|n IH]; intros i a; [apply mute_ret|]. cbn [for_range]. apply mute_bind; [done|]. intros a'. apply IH.
Qed.

Lemma wp_mute {A} (m : M (world G) A) (Q : A → world G → Prop) w : mute m → wp m Q w →
  wp m (λ a w', Q a w' ∧ text (w_trace w') = text (w_trace w)) w.
Proof. intros Hm (a & w' & E & HQ)%wp_Ok. apply wp_Ok. exists a, w'. split; [done|]. split; [done|]. by eapply Hm. Qed.

End mute_rules.

Create HintDb mute.
#[export] Hint Resolve mute_ret mute_undef mute_get_glob mute_upd_glob mute_expect : mute.
#[export] Hint Extern 2 (mute (sys _)) => apply mute_sys; reflexivity : mute.
#[export] Hint Extern 2 (mute (sys_ _)) => apply mute_sys_; reflexivity : mute.

(** Show that a program prints nothing by following its structure. *)
Ltac mute_solve :=
  repeat match goal with
  | |- mute (mbind _ _) => apply mute_bind; [|intros ?]
  | |- mute (loop _ _ _) => apply mute_loop; intros ?
  | |- mute (for_range _ _ _ _) => apply mute_for_range; intros ? ?
  | |- mute (match ?x with _ => _ end) => destruct x
  | |- mute (if ?x then _ else _) => destruct x
  | |- mute _ => solve [eauto with mute]
  end.

Lemma wp_print_str {os : OS} {G} fmt buf tr (g : G) (Q : unit → world G → Prop) : 0 ∈ buf →
  (∀ r, r = os_answer tr (Printf fmt (cstr buf)) → Q tt (mk_world ((Printf fmt (cstr buf), r) :: tr) g)) →
  wp (print_str fmt buf) Q (mk_world tr g).
Proof. intros H0 HQ. unfold print_str. rewrite bool_decide_true by done. by apply wp_sys_. Qed.

(** ** Messages *)

(** The messages received from [fd], and those offered to it, oldest first. *)
Fixpoint messages (fd : Z) (tr : list event) : list (list Z) :=
  match tr with
  | [] => []
  | (Recv fd' _ _, r) :: tr =>
      messages fd tr ++ (if (fd' =? fd) && (0 <? r_ret r) then [take (Z.to_nat (r_ret r)) (r_out r)] else [])
  | _ :: tr => messages fd tr
  end.

Fixpoint offers (fd : Z) (tr : list event) : list (list Z) :=
  match tr with
  | [] => []
  | (Send fd' b _, _) :: tr => offers fd tr ++ (if fd' =? fd then [b] else [])
  | _ :: tr => offers fd tr
  end.

(** The kernel stores as many bytes as it says and at most as many as there is room for. *)
Definition recv_honest {os : OS} : Prop := ∀ tr fd len flags, 0 ≤ len →
  let r := os_answer tr (Recv fd len flags) in r_ret r ≤ len ∧ (0 ≤ r_ret r → Z.of_nat (length (r_out r)) = r_ret r).

(** ** Blocks with their contents

    A block is the list of its bytes, as many as were requested.  What [malloc] and [realloc]
    leave in new bytes is the environment's; a store outside the block is undefined. *)

Section blocks.
Context {os : OS} {G : Type}.

Definition sys_malloc (size : Z) : M (world G) (Z * list Z) :=
  r ← sys (Malloc size); mret (r_ret r, resize (Z.to_nat size) 0 (r_out r)).

Definition sys_calloc (n size : Z) : M (world G) (Z * list Z) :=
  r ← sys (Calloc n size); mret (r_ret r, replicate (Z.to_nat (n * size)) 0).

(** The old contents as far as they fit. *)
Definition sys_realloc (p : Z) (block : list Z) (size : Z) : M (world G) (Z * list Z) :=
  r ← sys (Realloc p size); mret (r_ret r, resize (Z.to_nat size) 0 (block ++ r_out r)).

End blocks.

(** The block with [data] stored at the offset [off]. *)
Definition overwrite (block : list Z) (off : Z) (data : list Z) : list Z :=
  take (Z.to_nat off) block ++ data ++ drop (Z.to_nat off + length data) block.

Definition store_bytes {S} (block : list Z) (off : Z) (data : list Z) : M S (list Z) :=
  if (0 <=? off) && (off + Z.of_nat (length data) <=? Z.of_nat (length block)) then mret (overwrite block off data) else undef.

Section overwrite_facts.
Context (block data : list Z) (off : Z).
Context (Hfit : 0 ≤ off ∧ off + Z.of_nat (length data) ≤ Z.of_nat (length block)).

Lemma wp_store_bytes {S} (Q : list Z → S → Prop) s : Q (overwrite block off data) s → wp (store_bytes block off data) Q s.
Proof using Hfit. unfold store_bytes. by replace ((0 <=? off) && (off + Z.of_nat (length data) <=? Z.of_nat (length block))) with true by lia. Qed.

Lemma length_overwrite : length (overwrite block off data) = length block.
Proof using Hfit. unfold overwrite. rewrite !length_app, length_take, length_drop. lia. Qed.

(** The bytes up to the end of what was stored, and those after it. *)
Lemma take_overwrite n : n = off + Z.of_nat (length data) →
  take (Z.to_nat n) (overwrite block off data) = take (Z.to_nat off) block ++ data.
Proof using Hfit.
  intros ->. unfold overwrite. rewrite app_assoc, take_app_le by (rewrite length_app, length_take; lia).
  apply take_ge. rewrite length_app, length_take. lia.
Qed.

Lemma drop_overwrite n : n = off + Z.of_nat (length data) →
  drop (Z.to_nat n) (overwrite block off data) = drop (Z.to_nat n) block.
Proof using Hfit.
  intros ->. unfold overwrite. rewrite app_assoc, drop_app_ge by (rewrite length_app, length_take; lia).
  rewrite drop_drop, length_app, length_take. f_equal. lia.
Qed.

End overwrite_facts.

(** A grown block still starts with what the old one held. *)
Lemma take_resize_grow (block junk : list Z) n size : (n ≤ length block)%nat → (length block ≤ size)%nat →
  take n (resize size 0 (block ++ junk)) = take n block.
Proof.
  intros Hn Hs. rewrite take_resize_le by lia. rewrite resize_le by (rewrite length_app; lia). by rewrite take_app_le.
Qed.
