(* ===== verification/ConnMgr.v ===== *)
(** * Connections (src/networking/conn_mgr/conn_mgr_conn.c, conn_mgr_core.c)

    A connection object owns a TCP socket: [conn_mgr_conn_new] opens it, connects with
    a timeout (non-blocking connect, then [poll]), makes it blocking again and wraps
    it in a heap object; [conn_mgr_conn_destroy] closes and frees.  The memory is the
    global error variable and the heap of connection objects; [rest] is whatever
    else the client of these functions keeps. *)

From Stdlib Require Import ZArith Lia ZifyBool.
From stdpp Require Import base gmap list strings numbers.
From S2P Require Import Prelude Posix Queue.

(** ** Error codes (include/conn_mgr_errors.h) *)

Definition CONN_MGR_MIN_ERR_CODE : Z := -2100.

Inductive conn_mgr_err :=
| CONN_MGR_SUCCESS | CONN_MGR_ERR_NULL_PARAMS | CONN_MGR_ERR_MEM_ALLOC | CONN_MGR_CONN_ERR_SOCKET
| CONN_MGR_CONN_ERR_SETNONBLOCKING | CONN_MGR_CONN_ERR_SETBLOCKING | CONN_MGR_CONN_ERR_CONNECT
| CONN_MGR_CONN_ERR_TIMEDOUT | CONN_MGR_CONN_ERR_POLL | CONN_MGR_CONN_ERR_CONNECTING.

#[global] Instance conn_mgr_err_dec : EqDecision conn_mgr_err.
Proof. solve_decision. Defined.

(** The integer value of an enumerator. *)
Definition conn_mgr_code (e : conn_mgr_err) : Z :=
  match e with
  | CONN_MGR_SUCCESS => 0
  | CONN_MGR_ERR_NULL_PARAMS => CONN_MGR_MIN_ERR_CODE
  | CONN_MGR_ERR_MEM_ALLOC => CONN_MGR_MIN_ERR_CODE + 1
  | CONN_MGR_CONN_ERR_SOCKET => CONN_MGR_MIN_ERR_CODE + 2
  | CONN_MGR_CONN_ERR_SETNONBLOCKING => CONN_MGR_MIN_ERR_CODE + 3
  | CONN_MGR_CONN_ERR_SETBLOCKING => CONN_MGR_MIN_ERR_CODE + 4
  | CONN_MGR_CONN_ERR_CONNECT => CONN_MGR_MIN_ERR_CODE + 5
  | CONN_MGR_CONN_ERR_TIMEDOUT => CONN_MGR_MIN_ERR_CODE + 6
  | CONN_MGR_CONN_ERR_POLL => CONN_MGR_MIN_ERR_CODE + 7
  | CONN_MGR_CONN_ERR_CONNECTING => CONN_MGR_MIN_ERR_CODE + 8
  end.

#[global] Arguments conn_mgr_code : simpl never.

(** A [switch] over enumerators that returns the name of the first case equal to
    [code]; [None] is NULL. *)
Definition switch_name {E} (code_of : E → Z) (cases : list (E * string)) (code : Z) : option string :=
  match list_find (λ c, code_of c.1 = code) cases with
  | Some (_, c) => Some c.2
  | None => None
  end.

Definition conn_mgr_err_msg (code : Z) : option string :=
  switch_name conn_mgr_code
    [ (CONN_MGR_SUCCESS, "CONN_MGR_SUCCESS");
      (CONN_MGR_ERR_NULL_PARAMS, "CONN_MGR_ERR_NULL_PARAMS");
      (CONN_MGR_ERR_MEM_ALLOC, "CONN_MGR_ERR_MEM_ALLOC");
      (CONN_MGR_CONN_ERR_SOCKET, "CONN_MGR_CONN_ERR_SOCKET");
      (CONN_MGR_CONN_ERR_SETNONBLOCKING, "CONN_MGR_CONN_ERR_SETNONBLOCKING");
      (CONN_MGR_CONN_ERR_SETBLOCKING, "CONN_MGR_CONN_ERR_SETBLOCKING");
      (CONN_MGR_CONN_ERR_CONNECT, "CONN_MGR_CONN_ERR_CONNECT");
      (CONN_MGR_CONN_ERR_TIMEDOUT, "CONN_MGR_CONN_ERR_TIMEDOUT");
      (CONN_MGR_CONN_ERR_POLL, "CONN_MGR_CONN_ERR_POLL");
      (CONN_MGR_CONN_ERR_CONNECTING, "CONN_MGR_CONN_ERR_CONNECTING") ]%string code.

(** ** Data *)

(** [struct conn_mgr_conn_t]. *)
Record conn_mgr_conn_t := mk_conn { conn_fd : Z }.

Record cm_mem (X : Type) := mk_cm {
  conn_mgr_conn_errno : Z;
  conns : gmap Z conn_mgr_conn_t;
  rest : X }.
Arguments mk_cm {X} _ _ _.
Arguments conn_mgr_conn_errno {X} _.
Arguments conns {X} _.
Arguments rest {X} _.

Definition sizeof_conn_mgr_conn_t : Z := 4.

(** ** Code *)

Section code.
Context {os : OS} {X : Type} (fuel : nat).

Abbreviation CM := (M (world (cm_mem X))).

Definition set_conn_errno (e : conn_mgr_err) : CM unit :=
  upd_glob (λ g, mk_cm (conn_mgr_code e) (conns g) (rest g)).

(** [conn->fd = fd], and the object's allocation and release. *)
Definition store_conn (p : Z) (c : conn_mgr_conn_t) : CM unit :=
  upd_glob (λ g, mk_cm (conn_mgr_conn_errno g) (<[p := c]> (conns g)) (rest g)).
Definition load_conn (p : Z) : CM conn_mgr_conn_t :=
  g ← get_glob; expect (conns g !! p).
Definition drop_conn (p : Z) : CM unit :=
  upd_glob (λ g, mk_cm (conn_mgr_conn_errno g) (delete p (conns g)) (rest g)).

Definition set_socket_non_blocking (fd : Z) : CM Z :=
  r ← sys (FcntlGetFL fd);
  if r_ret r <? 0 then mret (-1)
  else
    let flags := Z.lor (r_ret r) O_NONBLOCK in
    r ← sys (FcntlSetFL fd flags);
    if r_ret r <? 0 then mret (-1) else mret (r_ret r).

Definition set_socket_blocking (fd : Z) : CM Z :=
  r ← sys (FcntlGetFL fd);
  if r_ret r <? 0 then mret (-1)
  else
    let flags := Z.land (r_ret r) (Z.lnot O_NONBLOCK) in
    r ← sys (FcntlSetFL fd flags);
    if r_ret r <? 0 then mret (-1) else mret (r_ret r).

(** [fuel] bounds the number of polls that signals interrupt. *)
Definition poll_for_connect (fd timeout : Z) : CM Z :=
  loop fuel (λ _,
    r ← sys (Poll [(fd, POLLOUT)] timeout);
    if r_ret r <? 0 then
      if r_errno r =? EINTR then mret (inl tt)
      else set_conn_errno CONN_MGR_CONN_ERR_POLL;; mret (inr (r_ret r))
    else if r_ret r =? 0 then
      set_conn_errno CONN_MGR_CONN_ERR_TIMEDOUT;; mret (inr (-1))
    else if has_bits (r_out r !!! 0%nat) POLLOUT then mret (inr (r_ret r))
    else
      sys_ (Getsockopt fd SOL_SOCKET SO_ERROR);;
      set_conn_errno CONN_MGR_CONN_ERR_CONNECTING;;
      mret (inr (-1))) tt.

Definition tcp_connect_with_timeout (fd addr port timeout : Z) : CM Z :=
  nb ← set_socket_non_blocking fd;
  if nb <? 0 then set_conn_errno CONN_MGR_CONN_ERR_SETNONBLOCKING;; mret (-1)
  else
    c ← sys (Connect fd addr port);
    let finish (ret : Z) : CM Z :=
      b ← set_socket_blocking fd;
      if b <? 0 then set_conn_errno CONN_MGR_CONN_ERR_SETBLOCKING;; mret (-1)
      else mret ret in
    if r_ret c <? 0 then
      if r_errno c =? EINPROGRESS then ret ← poll_for_connect fd timeout; finish ret
      else set_conn_errno CONN_MGR_CONN_ERR_CONNECT;; mret 0
    else finish 0.

Definition conn_mgr_conn_new (ip : option string) (port timeout : Z) : CM Z :=
  match ip with
  | None => mret NULL
  | Some ip =>
      s ← sys Socket;
      let fd := r_ret s in
      if fd <? 0 then set_conn_errno CONN_MGR_CONN_ERR_SOCKET;; mret NULL
      else
        a ← sys (InetPton ip);
        c ← tcp_connect_with_timeout fd (r_out a !!! 0%nat) (u16 port) timeout;
        if c <? 0 then sys_ (Close fd);; mret NULL
        else
          m ← sys (Malloc sizeof_conn_mgr_conn_t);
          let conn := r_ret m in
          if conn =? NULL then
            set_conn_errno CONN_MGR_ERR_MEM_ALLOC;; sys_ (Close fd);; mret NULL
          else
            set_conn_errno CONN_MGR_SUCCESS;; store_conn conn (mk_conn fd);; mret conn
  end.

Definition conn_mgr_conn_destroy (conn : Z) : CM unit :=
  if conn =? NULL then mret tt
  else
    c ← load_conn conn; sys_ (Close (conn_fd c));;
    sys_ (Free conn);; drop_conn conn;;
    set_conn_errno CONN_MGR_SUCCESS.

Definition conn_mgr_conn_get_fd (conn : Z) : CM Z :=
  if conn =? NULL then set_conn_errno CONN_MGR_ERR_NULL_PARAMS;; mret (-1)
  else
    c ← load_conn conn;
    set_conn_errno CONN_MGR_SUCCESS;; mret (conn_fd c).

End code.

(** ** Specifications *)

Section specs.
Context {os : OS} {X : Type}.
Implicit Types (g : cm_mem X) (tr : list event).

(** [g'] is [g] up to the error variable. *)
Definition upto_errno (g g' : cm_mem X) : Prop := conns g' = conns g ∧ rest g' = rest g.

(** The error variable holds a failure code. *)
Definition errno_fails (g : cm_mem X) : Prop :=
  ∃ e, e ≠ CONN_MGR_SUCCESS ∧ conn_mgr_conn_errno g = conn_mgr_code e.

Lemma set_non_blocking_wp fd tr g :
  wp (set_socket_non_blocking fd) (λ _ w', res_eq tr (w_trace w') ∧ w_glob w' = g) (mk_world tr g).
Proof. unfold set_socket_non_blocking. wp_run; (split; [res_solve|done]). Qed.

Lemma set_blocking_wp fd tr g :
  wp (set_socket_blocking fd) (λ _ w', res_eq tr (w_trace w') ∧ w_glob w' = g) (mk_world tr g).
Proof. unfold set_socket_blocking. wp_run; (split; [res_solve|done]). Qed.

Lemma poll_for_connect_wp fuel fd timeout tr g : settles fuel (Poll [(fd, POLLOUT)] timeout) →
  wp (poll_for_connect fuel fd timeout) (λ ret w',
    res_eq tr (w_trace w') ∧ upto_errno g (w_glob w') ∧
    (ret < 0 → errno_fails (w_glob w')) ∧ (0 ≤ ret → w_glob w' = g)) (mk_world tr g).
Proof.
  intros Hs. unfold poll_for_connect. eapply wp_retry; [exact Hs|by intros [? ?] ? [= ->]..| |].
  - intros tr' Hi. unfold interrupted in Hi. mred. apply andb_true_iff in Hi as [-> ->]. done.
  - intros tr' Heq Hi. unfold set_conn_errno, interrupted in *. wp_run; subst.
    1: by rewrite E, E0 in Hi.
    all: split_and!; [etrans; [exact Heq|res_solve]|done| |lia || done]; intros;
      (lia || by eexists; split; [|reflexivity]).
Qed.

Lemma tcp_connect_wp fuel fd addr port timeout tr g : settles fuel (Poll [(fd, POLLOUT)] timeout) →
  wp (tcp_connect_with_timeout fuel fd addr port timeout) (λ ret w',
    res_eq tr (w_trace w') ∧ upto_errno g (w_glob w') ∧
    (ret < 0 → errno_fails (w_glob w'))) (mk_world tr g).
Proof.
  intros Hs. unfold tcp_connect_with_timeout, set_conn_errno.
  apply wp_bind. eapply wp_mono; [apply set_non_blocking_wp|].
  intros nb [tr1 g1] [H1 Hg]; cbn [w_trace w_glob] in *; subst g1. wp_run.
  - split_and!; [done|done|]. intros _. by eexists; split; [|reflexivity].
  - eapply wp_mono; [by apply poll_for_connect_wp|].
    intros ret [tr2 g2] (H2 & Hu & Hf & _); cbn [w_trace w_glob] in *.
    apply wp_bind. eapply wp_mono; [apply set_blocking_wp|].
    intros b [tr3 g3] [H3 Hg]; cbn [w_trace w_glob] in *; subst g3. wp_run.
    + split_and!; [res_solve|done|]. intros _. by eexists; split; [|reflexivity].
    + split_and!; [res_solve|done|done].
  - split_and!; [res_solve|done|lia].
  - eapply wp_mono; [apply set_blocking_wp|].
    intros b [tr3 g3] [H3 Hg]; cbn [w_trace w_glob] in *; subst g3. wp_run.
    + split_and!; [res_solve|done|]. intros _. by eexists; split; [|reflexivity].
    + split_and!; [res_solve|done|lia].
Qed.

(** What the caller of [conn_mgr_conn_new] gets. *)
Definition conn_new_post (ip : option string) tr g (p : Z) (w' : world (cm_mem X)) : Prop :=
  rest (w_glob w') = rest g ∧
  if p =? NULL
  then res_eq tr (w_trace w') ∧ conns (w_glob w') = conns g ∧
       (is_Some ip → errno_fails (w_glob w'))
  else ∃ fd, 0 ≤ fd ∧ res_delta tr (w_trace w') [fd] [p] ∧
       conns (w_glob w') = <[p := mk_conn fd]> (conns g) ∧
       conn_mgr_conn_errno (w_glob w') = conn_mgr_code CONN_MGR_SUCCESS ∧
       ∃ trm, (∀ a, mem_balance trm a = mem_balance tr a) ∧
              p = r_ret (os_answer trm (Malloc sizeof_conn_mgr_conn_t)).

Lemma conn_new_wp fuel ip port timeout tr g :
  (∀ fd, settles fuel (Poll [(fd, POLLOUT)] timeout)) →
  wp (conn_mgr_conn_new fuel ip port timeout) (conn_new_post ip tr g) (mk_world tr g).
Proof.
  intros Hs. unfold conn_mgr_conn_new, conn_new_post, store_conn, set_conn_errno.
  destruct ip as [ip|]; [|cbn; split_and!; [done|reflexivity|done|by intros []]].
  wp_run; [cbn; split_and!; [done|res_solve|done|]; by eexists; split; [|reflexivity]|].
  eapply wp_mono; [by apply tcp_connect_wp|].
  intros ret [tr2 g2] (H2 & [Hc Hrest] & Hf); cbn [w_trace w_glob] in *. wp_run; cbn.
  - split_and!; [done|res_solve|done|]. intros _. apply Hf. lia.
  - split_and!; [done|res_solve|done|]. intros _. by eexists; split; [|reflexivity].
  - rewrite E1. split; [done|]. exists (r_ret r). split_and!; [lia|res_solve|by rewrite Hc|done|].
    exists tr2. split; [|congruence]. intros a. destruct H2 as [_ H2]. rewrite H2. cbn. lia.
Qed.

Lemma conn_destroy_wp p c tr g : p ≠ NULL → conns g !! p = Some c →
  wp (conn_mgr_conn_destroy p) (λ _ w',
    rest (w_glob w') = rest g ∧ conns (w_glob w') = delete p (conns g) ∧
    res_delta (w_trace w') tr [conn_fd c] [p]) (mk_world tr g).
Proof.
  intros Hp Hc. unfold conn_mgr_conn_destroy, load_conn, drop_conn, set_conn_errno.
  rewrite (proj2 (Z.eqb_neq p NULL) Hp). wp_run. rewrite Hc. wp_run. cbn. split_and!; [done..|res_solve].
Qed.

End specs.

(** ** Theorems *)

(** C8: ownership and error reporting of [conn_mgr_conn_new].  Whatever the kernel
    answers, provided signals do not interrupt [poll] [fuel] times in a row, the call
    returns.  When it returns NULL it has released every descriptor and block it
    acquired and left the connection objects alone; the error variable then holds a failure code that
    [conn_mgr_err_msg] names, except that a NULL address leaves it as it was.  When it returns a
    connection the caller owns exactly one new descriptor, stored in the object, and
    one new block, and the error variable says success (also when the peer has refused the
    connection, [conn_refused_reported_success]). *)
Theorem conn_new_owns_exactly {os : OS} {X} fuel ip port timeout tr (g : cm_mem X) :
  (∀ fd, settles fuel (Poll [(fd, POLLOUT)] timeout)) →
  wp (conn_mgr_conn_new fuel ip port timeout) (λ p w',
    rest (w_glob w') = rest g ∧
    if p =? NULL
    then res_eq tr (w_trace w') ∧ conns (w_glob w') = conns g ∧
         match ip with
         | None => conn_mgr_conn_errno (w_glob w') = conn_mgr_conn_errno g
         | Some _ => conn_mgr_conn_errno (w_glob w') ≠ 0 ∧ is_Some (conn_mgr_err_msg (conn_mgr_conn_errno (w_glob w')))
         end
    else is_Some ip ∧ ∃ fd, 0 ≤ fd ∧ res_delta tr (w_trace w') [fd] [p] ∧
         conns (w_glob w') = <[p := mk_conn fd]> (conns g) ∧
         conn_mgr_conn_errno (w_glob w') = conn_mgr_code CONN_MGR_SUCCESS) (mk_world tr g).
Proof.
  intros Hs. destruct ip as [ip|]; [|apply wp_ret; cbn; by split_and!]. eapply wp_mono; [by apply conn_new_wp|]. intros p w' [Hr H]. split; [done|].
  destruct (p =? NULL); [|naive_solver]. destruct H as (? & ? & He). split; [done|]. split; [done|].
  destruct (He ltac:(by eexists)) as (e & Hne & ->). destruct e; try done; (split; [by vm_compute|vm_compute; by eexists]).
Qed.

(** A connection object's life.  Creating a connection and destroying it returns,
    and leaves the process with the descriptors and heap blocks it had before, and no
    new connection object; so does asking for its descriptor in between, which is the
    descriptor the object owns. *)
Theorem conn_lifecycle {os : OS} {X} fuel ip port timeout tr (g : cm_mem X) :
  (∀ fd, settles fuel (Poll [(fd, POLLOUT)] timeout)) →
  wp (p ← conn_mgr_conn_new fuel ip port timeout;
      fd ← conn_mgr_conn_get_fd p;
      conn_mgr_conn_destroy p;; mret (p, fd))
    (λ '(p, fd) w',
      res_eq tr (w_trace w') ∧ rest (w_glob w') = rest g ∧
      (p ≠ NULL → conns (w_glob w') = delete p (conns g)) ∧ (p = NULL ↔ fd < 0)) (mk_world tr g).
Proof.
  intros Hs. apply wp_bind. eapply wp_mono; [by apply conn_new_wp|].
  intros p [tr1 g1] [Hr H]; cbn [w_trace w_glob] in *. destruct (p =? NULL) eqn:Ep.
  - destruct H as (H & Hc & _). assert (p = NULL) as -> by lia.
    unfold conn_mgr_conn_get_fd, conn_mgr_conn_destroy, set_conn_errno. cbn. wp_run. cbn.
    split_and!; [done..|lia].
  - destruct H as (fd & Hfd & Hd & Hc & _). apply wp_bind.
    unfold conn_mgr_conn_get_fd at 1, load_conn, set_conn_errno. rewrite Ep. wp_run.
    rewrite Hc, lookup_insert_eq. wp_run.
    eapply wp_mono; [apply (conn_destroy_wp _ (mk_conn fd)); [by apply Z.eqb_neq|by cbn; rewrite Hc, lookup_insert_eq]|].
    intros [] [tr2 g2] (Hr2 & Hc2 & Hd2); cbn [w_trace w_glob rest conns conn_fd] in *. cbn.
    split_and!; [res_solve|congruence|by intros; rewrite Hc2, Hc, delete_insert_eq|unfold NULL in *; lia].
Qed.

(** A refused connection is reported as success.  When [connect] fails outright,
    with an error other than EINPROGRESS, and nothing else fails, the call still
    returns a connection object and the error variable says success: the error branch
    of [tcp_connect_with_timeout] jumps to the exit with the return value 0. *)
Theorem conn_refused_reported_success {os : OS} {X} fuel ip port timeout tr (g : cm_mem X) :
  (∀ tr, 0 ≤ r_ret (os_answer tr Socket)) →
  (∀ tr fd, 0 ≤ r_ret (os_answer tr (FcntlGetFL fd))) →
  (∀ tr fd fl, 0 ≤ r_ret (os_answer tr (FcntlSetFL fd fl))) →
  (∀ tr n, r_ret (os_answer tr (Malloc n)) ≠ NULL) →
  (∀ tr fd a p, r_ret (os_answer tr (Connect fd a p)) < 0 ∧
                r_errno (os_answer tr (Connect fd a p)) ≠ EINPROGRESS) →
  wp (conn_mgr_conn_new fuel (Some ip) port timeout) (λ p w',
    p ≠ NULL ∧ conn_mgr_conn_errno (w_glob w') = conn_mgr_code CONN_MGR_SUCCESS)
    (mk_world tr g).
Proof.
  intros Hs Hg Hf Hm Hc.
  unfold conn_mgr_conn_new, tcp_connect_with_timeout, set_socket_non_blocking, set_conn_errno, store_conn.
  wp_run; cbn.
  all: try (exfalso; match goal with
    | Hr : ?r = os_answer ?t Socket, E : (r_ret ?r <? 0) = true |- _ => specialize (Hs t); subst; lia
    | Hr : ?r = os_answer ?t (FcntlGetFL ?fd), E : (r_ret ?r <? 0) = true |- _ => specialize (Hg t fd); subst; lia
    | Hr : ?r = os_answer ?t (FcntlSetFL ?fd ?fl), E : (r_ret ?r <? 0) = true |- _ =>
        specialize (Hf t fd fl); subst; lia
    | Hr : ?r = os_answer ?t (Connect ?fd ?a ?p), E : (r_errno ?r =? EINPROGRESS) = true |- _ =>
        destruct (Hc t fd a p); subst; lia
    | Hr : ?r = os_answer ?t (Connect ?fd ?a ?p), E : (r_ret ?r <? 0) = false |- _ =>
        destruct (Hc t fd a p); subst; lia
    | Hr : ?r = os_answer ?t (Malloc ?n), E : (r_ret ?r =? NULL) = true |- _ =>
        destruct (Hm t n); subst; lia
    end).
  all: split; [by apply Z.eqb_neq|done].
Qed.

(** ** Witnesses *)

(** A kernel that grants descriptor 5 and the block 4096, interrupts the first [poll]
    of a history and reports the socket writable at the next. *)
#[local] Instance demo_os : OS := λ tr c,
  match c with
  | Socket => mk_reply 5 0 []
  | Malloc _ => mk_reply 4096 0 []
  | Connect _ _ _ => mk_reply (-1) EINPROGRESS []
  | Poll _ _ => if bool_decide (Exists (λ e, interrupted e.2 = true) tr)
                then mk_reply 1 0 [POLLOUT] else mk_reply (-1) EINTR []
  | _ => mk_reply 0 0 []
  end.

Lemma demo_settles fd t : settles 3 (Poll [(fd, POLLOUT)] t).
Proof.
  intros tr. exists 1%nat. split; [lia|]. cbn [retries].
  set (c := Poll _ _). unfold interrupted at 1.
  assert (He : Exists (λ e, interrupted e.2 = true) ((c, os_answer tr c) :: tr)).
  { unfold os_answer, demo_os; subst c; cbn. case_bool_decide; [by right|by left]. }
  unfold os_answer at 1 2, demo_os at 1 2. subst c; cbn [r_ret].
  rewrite !bool_decide_true by exact He. done.
Qed.

Definition cm0 : cm_mem unit := mk_cm 0 ∅ tt.

Lemma conn_new_owns_exactly_witness :
  (∀ fd, settles 3 (Poll [(fd, POLLOUT)] 1000)) ∧
  (∃ tr', conn_mgr_conn_new 3 (Some "10.0.0.1"%string) 80 1000 (mk_world [] cm0)
    = Ok 4096 (mk_world tr' (mk_cm 0 {[4096 := mk_conn 5]} tt))) ∧
  wp (conn_mgr_conn_new 3 (Some "10.0.0.1"%string) 80 1000) (λ p w',
    rest (w_glob w') = tt ∧
    if p =? NULL
    then res_eq [] (w_trace w') ∧ conns (w_glob w') = ∅ ∧
         conn_mgr_conn_errno (w_glob w') ≠ 0 ∧ is_Some (conn_mgr_err_msg (conn_mgr_conn_errno (w_glob w')))
    else is_Some (Some "10.0.0.1"%string) ∧ ∃ fd, 0 ≤ fd ∧ res_delta [] (w_trace w') [fd] [p] ∧
         conns (w_glob w') = <[p := mk_conn fd]> ∅ ∧
         conn_mgr_conn_errno (w_glob w') = conn_mgr_code CONN_MGR_SUCCESS) (mk_world [] cm0).
Proof.
  split_and!; [intros; apply demo_settles|eexists; vm_compute; reflexivity|].
  apply (conn_new_owns_exactly 3 (Some "10.0.0.1"%string) 80 1000 [] cm0). intros. apply demo_settles.
Defined.

Lemma conn_lifecycle_witness :
  (∀ fd, settles 3 (Poll [(fd, POLLOUT)] 1000)) ∧
  wp (p ← conn_mgr_conn_new 3 (Some "10.0.0.1"%string) 80 1000;
      fd ← conn_mgr_conn_get_fd p;
      conn_mgr_conn_destroy p;; mret (p, fd))
    (λ '(p, fd) w',
      res_eq [] (w_trace w') ∧ rest (w_glob w') = tt ∧
      (p ≠ NULL → conns (w_glob w') = delete p ∅) ∧ (p = NULL ↔ fd < 0)) (mk_world [] cm0).
Proof.
  split; [intros; apply demo_settles|].
  apply (conn_lifecycle 3 (Some "10.0.0.1"%string) 80 1000 [] cm0). intros. apply demo_settles.
Defined.

(** A kernel that refuses every connection. *)
Definition refusing_os : OS := λ tr c,
  match c with
  | Malloc _ => mk_reply 4096 0 []
  | Connect _ _ _ => mk_reply (-1) 111 []
  | _ => mk_reply 0 0 []
  end.

Lemma conn_refused_reported_success_witness :
  wp (conn_mgr_conn_new (os := refusing_os) 3 (Some "10.0.0.1"%string) 80 1000) (λ p w',
    p ≠ NULL ∧ conn_mgr_conn_errno (w_glob w') = conn_mgr_code CONN_MGR_SUCCESS)
    (mk_world [] cm0).
Proof.
  apply (conn_refused_reported_success (os := refusing_os) 3 "10.0.0.1"%string 80 1000 [] cm0);
    intros; cbn; unfold NULL, EINPROGRESS; lia.
Defined.
