(* ===== verification/ConnPool.v ===== *)
(** * The connection pool (src/networking/conn_mgr/conn_mgr_pool.c)

    A pool lends connections to threads: [pop] takes an idle connection, or opens a
    new one while fewer than [max_pool_size] exist, or waits; [push] gives one back
    and signals a waiter.  The functions that run under the pool's mutex are programs;
    the threads, the mutex and the condition variable are a step relation. *)

From Stdlib Require Import ZArith Lia ZifyBool.
From stdpp Require Import base gmap list strings numbers.
From S2P Require Import Prelude Posix Queue ConnMgr.

(** ** Data *)

(** [struct conn_mgr_pool_t], less its mutex, condition variable and queue: the queue
    object lives at the pool's address in the queue heap. *)
Record conn_mgr_pool_t := mk_pool {
  pl_ip : list Ascii.ascii;
  pl_port : Z;
  pl_max_pool_size : Z;
  pl_size : Z;
  pl_connect_timeout : Z }.

Record pmem := mk_pmem { pools : gmap Z conn_mgr_pool_t; qh : qheap }.

Definition sizeof_conn_mgr_pool_t : Z := 152.

(** ** Code *)

Section code.
Context {os : OS} (fuel : nat) (malloc_ok : Z → bool).

Abbreviation PW := (world (cm_mem pmem)).
Abbreviation PM := (M PW).

Definition upd_rest (f : pmem → pmem) : PM unit :=
  upd_glob (λ g, mk_cm (conn_mgr_conn_errno g) (conns g) (f (rest g))).

(** Run a queue function on the queue heap. *)
Definition q_op {A} (m : M qheap A) : PM A := λ w,
  let g := w_glob w in
  match m (qh (rest g)) with
  | Ok a h => Ok a (mk_world (w_trace w)
                     (mk_cm (conn_mgr_conn_errno g) (conns g) (mk_pmem (pools (rest g)) h)))
  | Undef => Undef
  | Exit c _ => Exit c w
  | OutOfFuel => OutOfFuel
  end.

Definition load_pool (p : Z) : PM conn_mgr_pool_t := g ← get_glob; expect (pools (rest g) !! p).
Definition store_pool (p : Z) (pl : conn_mgr_pool_t) : PM unit :=
  upd_rest (λ r, mk_pmem (<[p := pl]> (pools r)) (qh r)).

Definition conn_mgr_pool_new (ip : option string) (port max_pool_size connect_timeout : Z) : PM Z :=
  match ip with
  | None => mret NULL
  | Some ip =>
      m ← sys (Malloc sizeof_conn_mgr_pool_t);
      let pool := r_ret m in
      if pool =? NULL then mret NULL
      else
        upd_rest (λ r, mk_pmem (pools r)
          (mk_qheap (items (qh r)) (<[pool := mk_queue (r_out m !!! 0%nat) (r_out m !!! 1%nat)]> (queues (qh r)))
                    (brk (qh r))));;
        sys_ (Ext "pthread_mutex_init" [pool]);;
        sys_ (Ext "pthread_cond_init" [pool]);;
        store_pool pool (mk_pool (strncpy 16 ip) port max_pool_size 0 connect_timeout);;
        q_op (conn_mgr_queue_init pool);;
        mret pool
  end.

(** [fuel] bounds the number of idle connections. *)
Definition conn_mgr_pool_destroy (pool : Z) : PM unit :=
  if pool =? NULL then mret tt
  else
    loop fuel (λ _,
      conn ← q_op (conn_mgr_queue_pop_head pool);
      if conn =? NULL then mret (inr tt) else conn_mgr_conn_destroy conn;; mret (inl tt)) tt;;
    sys_ (Ext "pthread_mutex_destroy" [pool]);;
    sys_ (Ext "pthread_cond_destroy" [pool]);;
    sys_ (Free pool);;
    upd_rest (λ r, mk_pmem (delete pool (pools r))
      (mk_qheap (items (qh r)) (delete pool (queues (qh r))) (brk (qh r)))).

(** [conn_mgr_conn_new(pool->ip, pool->port, pool->connect_timeout)]; the timeout is
    converted from [uint32_t] to [int]. *)
Definition pool_connect (pl : conn_mgr_pool_t) : PM Z :=
  ip ← expect (c_string (pl_ip pl));
  conn_mgr_conn_new fuel (Some ip) (pl_port pl) (i32 (pl_connect_timeout pl)).

Definition incr_size (pool : Z) : PM unit :=
  pl ← load_pool pool;
  store_pool pool (mk_pool (pl_ip pl) (pl_port pl) (pl_max_pool_size pl)
                           (u32 (pl_size pl + 1)) (pl_connect_timeout pl)).

(** One round of the loop of [conn_mgr_pool_pop], the mutex held: [inl conn] leaves
    the loop, [inr tt] is the call of [pthread_cond_wait]. *)
Definition pop_round (pool : Z) : PM (Z + unit) :=
  conn ← q_op (conn_mgr_queue_pop_head pool);
  if conn =? NULL then
    pl ← load_pool pool;
    if pl_size pl <? pl_max_pool_size pl then
      conn ← pool_connect pl;
      (if negb (conn =? NULL) then incr_size pool else mret tt);;
      mret (inl conn)
    else mret (inr tt)
  else mret (inl conn).

(** One round of the loop of [conn_mgr_pool_try_pop], the mutex held: [inl conn]
    leaves the loop, [inr new] goes round again, where [new] is the connection the
    round created and the next round overwrites. *)
Definition try_pop_round (pool : Z) : PM (Z + option Z) :=
  conn ← q_op (conn_mgr_queue_pop_head pool);
  if conn =? NULL then
    pl ← load_pool pool;
    if pl_size pl <? pl_max_pool_size pl then
      conn ← pool_connect pl;
      incr_size pool;;
      mret (inr (Some conn))
    else mret (inr None)
  else mret (inl conn).

(** No other thread runs the pool's code while this one holds the mutex, so the whole
    call is one program. *)
Definition conn_mgr_pool_try_pop (pool : Z) : PM Z :=
  if pool =? NULL then mret NULL
  else
    sys_ (Ext "pthread_mutex_lock" [pool]);;
    conn ← loop fuel (λ _,
      r ← try_pop_round pool;
      match r with inl conn => mret (inr conn) | inr _ => mret (inl tt) end) tt;
    sys_ (Ext "pthread_mutex_unlock" [pool]);;
    mret conn.

(** The critical section of [conn_mgr_pool_push], up to the signal. *)
Definition push_section (pool conn : Z) : PM unit :=
  q_op (conn_mgr_queue_push_head malloc_ok pool conn).

End code.

(** ** Specifications of the critical sections *)

Record pool_rep (g : cm_mem pmem) (P : Z) (pl : conn_mgr_pool_t) (q : list Z) : Prop := {
  pr_pool : pools (rest g) !! P = Some pl;
  pr_queue : ∃ nodes, queue_rep (qh (rest g)) P nodes ∧ nodes.*2 = q;
  pr_ip : is_Some (c_string (pl_ip pl));
  pr_size : 0 ≤ pl_size pl ≤ pl_max_pool_size pl ∧ pl_max_pool_size pl < 2 ^ 32 }.

Definition with_size (pl : conn_mgr_pool_t) (n : Z) : conn_mgr_pool_t :=
  mk_pool (pl_ip pl) (pl_port pl) (pl_max_pool_size pl) n (pl_connect_timeout pl).

(** [malloc] never returns a block the program still owns. *)
Definition malloc_fresh {os : OS} : Prop :=
  ∀ tr n, r_ret (os_answer tr (Malloc n)) ≠ NULL →
          mem_balance tr (r_ret (os_answer tr (Malloc n))) ≤ 0.

(** No block was freed more often than it was allocated, and every connection object
    is a block the program owns. *)
Definition live (w : world (cm_mem pmem)) : Prop :=
  (∀ p, 0 ≤ mem_balance (w_trace w) p) ∧
  ∀ c, c ∈ dom (conns (w_glob w)) → 1 ≤ mem_balance (w_trace w) c.

Section specs.
Context {os : OS} (fuel : nat).
Hypothesis Hfresh : malloc_fresh.
Hypothesis Hpoll : ∀ fd t, settles fuel (Poll [(fd, POLLOUT)] t).

Lemma wp_q_op {A} (m : M qheap A) (Q : A → world (cm_mem pmem) → Prop) w :
  wp m (λ a h, Q a (mk_world (w_trace w)
    (mk_cm (conn_mgr_conn_errno (w_glob w)) (conns (w_glob w)) (mk_pmem (pools (rest (w_glob w))) h))))
     (qh (rest (w_glob w))) → wp (q_op m) Q w.
Proof. unfold wp, q_op. by destruct (m _). Qed.

(** Taking an idle connection from the queue. *)
Lemma pool_pop_head_wp w P pl q : pool_rep (w_glob w) P pl q →
  wp (q_op (conn_mgr_queue_pop_head P)) (λ c w',
    pool_rep (w_glob w') P pl (list.tail q) ∧ w_trace w' = w_trace w ∧
    conns (w_glob w') = conns (w_glob w) ∧ c = default NULL (head q)) w.
Proof.
  intros [Hp (nodes & Hq & <-) Hip Hsz]. apply wp_q_op. eapply wp_mono; [by apply (pop_head_wp (λ _, true))|].
  intros c h (_ & Hr & ->). split_and!; [|done|done|by destruct nodes].
  split; cbn; [done| |done|done]. exists (list.tail nodes). split; [done|by destruct nodes].
Qed.

(** The outcome of an attempt to open a connection for the pool. *)
Definition connected (w : world (cm_mem pmem)) (c : Z) (w' : world (cm_mem pmem)) : Prop :=
  rest (w_glob w') = rest (w_glob w) ∧ (live w → live w') ∧
  if c =? NULL then conns (w_glob w') = conns (w_glob w)
  else dom (conns (w_glob w')) = {[c]} ∪ dom (conns (w_glob w)) ∧
       (live w → c ∉ dom (conns (w_glob w))).

Lemma pool_connect_wp w pl : is_Some (c_string (pl_ip pl)) →
  wp (pool_connect fuel pl) (λ c w', connected w c w') w.
Proof.
  destruct w as [tr g]. intros [ip Hip]. unfold pool_connect. rewrite Hip. wp_run.
  eapply wp_mono; [by apply conn_new_wp|]. intros c [tr' g'] [Hr H]. unfold connected, live.
  cbn [w_trace w_glob] in *. split; [done|]. destruct (c =? NULL) eqn:Ec.
  - destruct H as ([_ Hm] & Hc & _). rewrite Hc. split; [|done]. intros [Hp Hl].
    split; intros c' *; rewrite Hm; cbn; [specialize (Hp c'); lia|intros Hin; specialize (Hl c' Hin); lia].
  - destruct H as (fd & _ & [_ Hm] & Hc & _ & trm & Htrm & Hcm).
    rewrite Hc, dom_insert_L. split_and!; [|done|].
    + intros [Hp Hl]. split; intros c' *; rewrite Hm; cbn; [specialize (Hp c'); lia|].
      intros [->%elem_of_singleton|Hin]%elem_of_union; [specialize (Hp c); lia|specialize (Hl c' Hin); lia].
    + intros [_ Hl] Hin. specialize (Hl c Hin). rewrite <- Htrm in Hl.
      pose proof (Hfresh trm sizeof_conn_mgr_conn_t) as Hf. rewrite <- Hcm in Hf.
      specialize (Hf ltac:(unfold NULL in *; lia)). lia.
Qed.

Lemma incr_size_wp w P pl q : pool_rep (w_glob w) P pl q → pl_size pl < pl_max_pool_size pl →
  wp (incr_size P) (λ _ w',
    pool_rep (w_glob w') P (with_size pl (pl_size pl + 1)) q ∧ w_trace w' = w_trace w ∧
    conns (w_glob w') = conns (w_glob w)) w.
Proof.
  destruct w as [tr g]. intros [Hp Hq Hip Hsz] Hlt. unfold incr_size, load_pool, store_pool, upd_rest.
  cbn [w_glob] in *. wp_run. rewrite Hp. wp_run. split_and!; [|done|done]. split; cbn.
  - rewrite lookup_insert_eq. unfold with_size. by rewrite u32_small by lia.
  - done.
  - done.
  - lia.
Qed.

Lemma pool_rep_rest g g' P pl q : rest g' = rest g → pool_rep g P pl q → pool_rep g' P pl q.
Proof. intros E [Hp Hq Hip Hsz]. split; by rewrite ?E. Qed.

Lemma live_same w w' : w_trace w' = w_trace w → conns (w_glob w') = conns (w_glob w) → live w → live w'.
Proof. unfold live. by intros -> ->. Qed.

(** A round of [conn_mgr_pool_pop]. *)
Definition pop_round_post (P : Z) pl (q : list Z) w (r : Z + unit) w' : Prop :=
  (live w → live w') ∧
  match q, r with
  | c :: q', inl c' => c' = c ∧ pool_rep (w_glob w') P pl q' ∧ conns (w_glob w') = conns (w_glob w)
  | [], inl c =>
      pl_size pl < pl_max_pool_size pl ∧
      if c =? NULL then pool_rep (w_glob w') P pl [] ∧ conns (w_glob w') = conns (w_glob w)
      else pool_rep (w_glob w') P (with_size pl (pl_size pl + 1)) [] ∧
           dom (conns (w_glob w')) = {[c]} ∪ dom (conns (w_glob w)) ∧
           (live w → c ∉ dom (conns (w_glob w)))
  | [], inr _ => pl_max_pool_size pl ≤ pl_size pl ∧ pool_rep (w_glob w') P pl [] ∧
                 conns (w_glob w') = conns (w_glob w)
  | _ :: _, inr _ => False
  end.

Lemma queue_data_nonnull g P pl c q : pool_rep g P pl (c :: q) → c ≠ NULL.
Proof.
  intros [_ ([|[a d] nodes] & Hq & E) _ _]; [done|]. injection E as <- _.
  pose proof (qr_data _ _ _ Hq) as [H _]%list.Forall_cons. done.
Qed.

Lemma pop_round_wp w P pl q : pool_rep (w_glob w) P pl q →
  wp (pop_round fuel P) (pop_round_post P pl q w) w.
Proof.
  intros Hrep. unfold pop_round. apply wp_bind. eapply wp_mono; [by apply pool_pop_head_wp|].
  intros c0 w1 (Hrep1 & Ht1 & Hc1 & ->). destruct q as [|c q]; cbn [head list.tail default id] in *.
  - change (NULL =? NULL) with true. cbv iota. destruct w1 as [tr1 g1]. unfold load_pool at 1.
    wp_run. cbn [w_glob w_trace] in *. rewrite (pr_pool _ _ _ _ Hrep1). wp_run.
    + eapply wp_mono; [apply pool_connect_wp, Hrep1|]. intros c w2 (Hr2 & Hl2 & H2).
      pose proof (pool_rep_rest _ _ _ _ _ Hr2 Hrep1) as Hrep2. cbn [w_glob] in *.
      assert (Hlw : live w → live w2).
      { intros Hl. by apply Hl2, (live_same w). }
      destruct (c =? NULL) eqn:Ec; cbn [negb]; wp_run.
      * split; [done|]. split; [lia|]. rewrite Ec. split; [done|congruence].
      * eapply wp_mono; [apply (incr_size_wp _ _ _ _ Hrep2); lia|]. intros [] w3 (Hrep3 & Ht3 & Hc3).
        wp_run. split; [intros; by apply (live_same w2), Hlw|]. split; [lia|]. rewrite Ec, Hc3.
        destruct H2 as [-> H2]. rewrite Hc1 in *. split_and!; [done..|].
        intros Hl. by apply H2, (live_same w).
    + split; [by apply live_same|]. split_and!; [lia|done|done].
  - rewrite (proj2 (Z.eqb_neq _ _) (queue_data_nonnull _ _ _ _ _ Hrep)). wp_run.
    split; [by apply live_same|done].
Qed.

(** A round of [conn_mgr_pool_try_pop]. *)
Definition try_pop_round_post (P : Z) pl (q : list Z) w (r : Z + option Z) w' : Prop :=
  (live w → live w') ∧
  match q, r with
  | c :: q', inl c' => c' = c ∧ pool_rep (w_glob w') P pl q' ∧ conns (w_glob w') = conns (w_glob w)
  | [], inr (Some c) =>
      pl_size pl < pl_max_pool_size pl ∧ pool_rep (w_glob w') P (with_size pl (pl_size pl + 1)) [] ∧
      if c =? NULL then conns (w_glob w') = conns (w_glob w)
      else dom (conns (w_glob w')) = {[c]} ∪ dom (conns (w_glob w)) ∧
           (live w → c ∉ dom (conns (w_glob w)))
  | [], inr None => pl_max_pool_size pl ≤ pl_size pl ∧ pool_rep (w_glob w') P pl [] ∧
                    conns (w_glob w') = conns (w_glob w)
  | _, _ => False
  end.

Lemma try_pop_round_wp w P pl q : pool_rep (w_glob w) P pl q →
  wp (try_pop_round fuel P) (try_pop_round_post P pl q w) w.
Proof.
  intros Hrep. unfold try_pop_round. apply wp_bind. eapply wp_mono; [by apply pool_pop_head_wp|].
  intros c0 w1 (Hrep1 & Ht1 & Hc1 & ->). destruct q as [|c q]; cbn [head list.tail default id] in *.
  - change (NULL =? NULL) with true. cbv iota. destruct w1 as [tr1 g1]. unfold load_pool at 1.
    wp_run. cbn [w_glob w_trace] in *. rewrite (pr_pool _ _ _ _ Hrep1). wp_run.
    + eapply wp_mono; [apply pool_connect_wp, Hrep1|]. intros c w2 (Hr2 & Hl2 & H2).
      pose proof (pool_rep_rest _ _ _ _ _ Hr2 Hrep1) as Hrep2. cbn [w_glob] in *. wp_run.
      eapply wp_mono; [apply (incr_size_wp _ _ _ _ Hrep2); lia|]. intros [] w3 (Hrep3 & Ht3 & Hc3).
      wp_run. split; [intros Hl; by apply (live_same w2), Hl2, (live_same w)|]. split; [lia|].
      split; [done|]. rewrite Hc3. destruct (c =? NULL); [congruence|]. destruct H2 as [-> H2].
      rewrite Hc1 in *. split; [done|]. intros Hl. by apply H2, (live_same w).
    + split; [by apply live_same|]. split_and!; [lia|done|done].
  - rewrite (proj2 (Z.eqb_neq _ _) (queue_data_nonnull _ _ _ _ _ Hrep)). wp_run.
    split; [by apply live_same|done].
Qed.

Lemma push_section_wp malloc_ok w P pl q c : pool_rep (w_glob w) P pl q → c ≠ NULL →
  wp (push_section malloc_ok P c) (λ _ w',
    pool_rep (w_glob w') P pl (if malloc_ok (brk (qh (rest (w_glob w)))) then c :: q else q) ∧
    w_trace w' = w_trace w ∧ conns (w_glob w') = conns (w_glob w)) w.
Proof.
  intros [Hp (nodes & Hq & <-) Hip Hsz] Hc. apply wp_q_op. eapply wp_mono; [by apply push_head_wp|].
  intros [] h [Hr _]. split_and!; [|done|done]. split; cbn; [done| |done|done].
  unfold push_nodes in Hr. rewrite (proj2 (Z.eqb_neq _ _) Hc) in Hr. cbn in Hr.
  destruct (malloc_ok _); cbn in *; eauto.
Qed.

End specs.

(** ** Threads *)

Module Threads.
Section machine.
Context {os : OS} (fuel : nat) (malloc_ok : Z → bool) (P : Z).

(** A call on the pool [P]. *)
Inductive req := RPop | RTryPop | RPush (conn : Z).

(** Where a thread is: outside the pool's code, before [pthread_mutex_lock], inside
    the critical section, blocked in [pthread_cond_wait], or woken there and waiting
    to take the mutex again. *)
Inductive pc := Idle | AtLock (k : req) | Holding (k : req) | Waiting | Signalled.

(** [m_owned] are the connections threads have popped and not pushed back; [m_lost]
    and [m_phantom] record what the code loses: connections nobody refers to any
    more, and increments of [pool->size] without a connection. *)
Record machine := mk_machine {
  m_world : world (cm_mem pmem);
  m_mutex : option nat;
  m_threads : list pc;
  m_owned : list (nat * Z);
  m_lost : list Z;
  m_phantom : nat }.

Definition give (t : nat) (conn : Z) (owned : list (nat * Z)) : list (nat * Z) :=
  if conn =? NULL then owned else (t, conn) :: owned.

(** Which connection [push_section] loses: the one whose queue item cannot be
    allocated. *)
Definition dropped (w : world (cm_mem pmem)) (conn : Z) : list Z :=
  if malloc_ok (brk (qh (rest (w_glob w)))) then [] else [conn].

(** What a round of [try_pop] that goes round again leaves behind. *)
Definition abandoned (new : option Z) : list Z * nat :=
  match new with
  | None => ([], 0%nat)
  | Some conn => if conn =? NULL then ([], 1%nat) else ([conn], 0%nat)
  end.

(** [pthread_cond_signal]: one waiter, if there is one, is woken. *)
Inductive signal (thr : list pc) : list pc → Prop :=
| signal_one u : thr !! u = Some Waiting → signal thr (<[u := Signalled]> thr)
| signal_none : (Waiting ∉ thr) → signal thr thr.

Inductive step : machine → machine → Prop :=
| s_call_pop w mu thr ow lo ph t : thr !! t = Some Idle →
    step (mk_machine w mu thr ow lo ph) (mk_machine w mu (<[t := AtLock RPop]> thr) ow lo ph)
| s_call_try_pop w mu thr ow lo ph t : thr !! t = Some Idle →
    step (mk_machine w mu thr ow lo ph) (mk_machine w mu (<[t := AtLock RTryPop]> thr) ow lo ph)
| s_call_push w mu thr ow lo ph t c : thr !! t = Some Idle → (t, c) ∈ ow →
    step (mk_machine w mu thr ow lo ph) (mk_machine w mu (<[t := AtLock (RPush c)]> thr) ow lo ph)
| s_lock w thr ow lo ph t k : thr !! t = Some (AtLock k) →
    step (mk_machine w None thr ow lo ph) (mk_machine w (Some t) (<[t := Holding k]> thr) ow lo ph)
| s_pop_leave w w' mu thr ow lo ph t c : thr !! t = Some (Holding RPop) →
    pop_round fuel P w = Ok (inl c) w' →
    step (mk_machine w mu thr ow lo ph) (mk_machine w' None (<[t := Idle]> thr) (give t c ow) lo ph)
| s_pop_wait w w' mu thr ow lo ph t : thr !! t = Some (Holding RPop) →
    pop_round fuel P w = Ok (inr tt) w' →
    step (mk_machine w mu thr ow lo ph) (mk_machine w' None (<[t := Waiting]> thr) ow lo ph)
| s_wake w mu thr ow lo ph t : thr !! t = Some Waiting →
    step (mk_machine w mu thr ow lo ph) (mk_machine w mu (<[t := Signalled]> thr) ow lo ph)
| s_relock w thr ow lo ph t : thr !! t = Some Signalled →
    step (mk_machine w None thr ow lo ph) (mk_machine w (Some t) (<[t := Holding RPop]> thr) ow lo ph)
| s_try_leave w w' mu thr ow lo ph t c : thr !! t = Some (Holding RTryPop) →
    try_pop_round fuel P w = Ok (inl c) w' →
    step (mk_machine w mu thr ow lo ph) (mk_machine w' None (<[t := Idle]> thr) (give t c ow) lo ph)
| s_try_again w w' mu thr ow lo ph t new : thr !! t = Some (Holding RTryPop) →
    try_pop_round fuel P w = Ok (inr new) w' →
    step (mk_machine w mu thr ow lo ph)
         (mk_machine w' mu thr ow ((abandoned new).1 ++ lo) ((abandoned new).2 + ph))
| s_push w w' mu thr thr' ow1 ow2 lo ph t c : thr !! t = Some (Holding (RPush c)) →
    push_section malloc_ok P c w = Ok tt w' → signal (<[t := Idle]> thr) thr' →
    step (mk_machine w mu thr (ow1 ++ (t, c) :: ow2) lo ph)
         (mk_machine w' None thr' (ow1 ++ ow2) (dropped w c ++ lo) ph).

(** A scheduler: what a given thread does next, as a function.  [ARun t u] runs one
    round of the critical section of [t]; [u] is the waiter a push wakes. *)
Inductive action := ACall (t : nat) (k : req) | ALock (t : nat) | ARun (t : nat) (u : option nat).

#[global] Instance req_dec : EqDecision req.
Proof. solve_decision. Defined.
#[global] Instance pc_dec : EqDecision pc.
Proof. solve_decision. Defined.

Definition exec1 (a : action) (m : machine) : option machine :=
  let 'mk_machine w mu thr ow lo ph := m in
  match a with
  | ACall t k =>
      if bool_decide (thr !! t = Some Idle)
         && match k with RPush c => bool_decide ((t, c) ∈ ow) | _ => true end
      then Some (mk_machine w mu (<[t := AtLock k]> thr) ow lo ph) else None
  | ALock t =>
      match mu, thr !! t with
      | None, Some (AtLock k) => Some (mk_machine w (Some t) (<[t := Holding k]> thr) ow lo ph)
      | None, Some Signalled => Some (mk_machine w (Some t) (<[t := Holding RPop]> thr) ow lo ph)
      | _, _ => None
      end
  | ARun t u =>
      match thr !! t with
      | Some (Holding RPop) =>
          match pop_round fuel P w with
          | Ok (inl c) w' => Some (mk_machine w' None (<[t := Idle]> thr) (give t c ow) lo ph)
          | Ok (inr _) w' => Some (mk_machine w' None (<[t := Waiting]> thr) ow lo ph)
          | _ => None
          end
      | Some (Holding RTryPop) =>
          match try_pop_round fuel P w with
          | Ok (inl c) w' => Some (mk_machine w' None (<[t := Idle]> thr) (give t c ow) lo ph)
          | Ok (inr new) w' =>
              Some (mk_machine w' mu thr ow ((abandoned new).1 ++ lo) ((abandoned new).2 + ph))
          | _ => None
          end
      | Some (Holding (RPush c)) =>
          match push_section malloc_ok P c w, list_find (λ x, x = (t, c)) ow with
          | Ok _ w', Some (i, _) =>
              let thr1 := <[t := Idle]> thr in
              let done thr2 :=
                Some (mk_machine w' None thr2 (take i ow ++ drop (S i) ow) (dropped w c ++ lo) ph) in
              match u with
              | Some u => if bool_decide (thr1 !! u = Some Waiting) then done (<[u := Signalled]> thr1) else None
              | None => if bool_decide (Waiting ∈ thr1) then None else done thr1
              end
          | _, _ => None
          end
      | _ => None
      end
  end.

Fixpoint exec (acts : list action) (m : machine) : option machine :=
  match acts with [] => Some m | a :: acts => exec1 a m ≫= exec acts end.

Lemma exec1_sound a m m' : exec1 a m = Some m' → step m m'.
Proof.
  destruct m as [w mu thr ow lo ph]. destruct a as [t k|t|t u]; cbn.
  - case_bool_decide as Ht; [|done]. destruct k; cbn; [intros [= <-]; by econstructor..|].
    case_bool_decide; [|done]. intros [= <-]. by econstructor.
  - destruct mu; [done|]. destruct (thr !! t) as [[|k|k| |]|] eqn:Ht; try done; intros [= <-]; by econstructor.
  - destruct (thr !! t) as [[|k|[| |c]| |]|] eqn:Ht; try done.
    + destruct (pop_round fuel P w) as [[c|[]] w'| | |] eqn:E; try done; intros [= <-]; by econstructor.
    + destruct (try_pop_round fuel P w) as [[c|new] w'| | |] eqn:E; try done; intros [= <-]; by econstructor.
    + destruct (push_section malloc_ok P c w) as [[] w'| | |] eqn:E; try done.
      destruct (list_find _ ow) as [[i y]|] eqn:Ef; [|done].
      apply list_find_Some in Ef as (Hi & -> & _). intros Hu.
      assert (Ho : ow = take i ow ++ (t, c) :: drop (S i) ow) by (by rewrite take_drop_middle).
      rewrite Ho at 1. destruct u as [u|]; case_bool_decide as Hb; try done; injection Hu as <-;
        (econstructor; [done|done|]); by constructor.
Qed.

Lemma exec_sound acts m m' : exec acts m = Some m' → rtc step m m'.
Proof.
  revert m. induction acts as [|a acts IH]; intros m; [by intros [= ->]|]. cbn [exec].
  destruct (exec1 a m) as [m1|] eqn:E; [|done]. intros H. eapply rtc_l; [by eapply exec1_sound|by apply IH].
Qed.

(** ** The invariant *)

(** A thread that will take a connection from the queue once it runs. *)
Definition weight (x : pc) : nat := match x with Signalled | Holding RPop => 1 | _ => 0 end.
Definition wakers (thr : list pc) : nat := weigh weight thr.

#[local] Arguments wakers : simpl never.

(** Every connection that was ever opened for the pool. *)
Definition all_conns (q : list Z) (m : machine) : list Z := q ++ (m_owned m).*2 ++ m_lost m.

Record conn_inv (max : Z) (pl : conn_mgr_pool_t) (q : list Z) (m : machine) : Prop := {
  ci_rep : pool_rep (w_glob (m_world m)) P pl q;
  ci_max : pl_max_pool_size pl = max;
  ci_nodup : NoDup (all_conns q m);
  ci_dom : ∀ c, c ∈ all_conns q m → c ≠ NULL ∧ c ∈ dom (conns (w_glob (m_world m)));
  ci_live : live (m_world m);
  ci_size : pl_size pl = Z.of_nat (length (all_conns q m) + m_phantom m) }.

Record thread_inv (q : list Z) (m : machine) : Prop := {
  ti_holder : ∀ t k, m_threads m !! t = Some (Holding k) → m_mutex m = Some t;
  ti_mutex : ∀ t, m_mutex m = Some t → ∃ k, m_threads m !! t = Some (Holding k);
  ti_push : ∀ t c, m_threads m !! t = Some (AtLock (RPush c)) ∨ m_threads m !! t = Some (Holding (RPush c)) →
              (t, c) ∈ m_owned m;
  ti_wake : Waiting ∈ m_threads m → (length q ≤ wakers (m_threads m))%nat }.

Definition inv (max : Z) (m : machine) : Prop :=
  ∃ pl q, conn_inv max pl q m ∧ thread_inv q m.

Lemma wakers_insert thr t a b : thr !! t = Some a →
  (wakers (<[t := b]> thr) + weight a = wakers thr + weight b)%nat.
Proof. apply weigh_insert. Qed.

Lemma waiting_insert (thr : list pc) t a b : thr !! t = Some a → b ≠ Waiting →
  Waiting ∈ <[t := b]> thr → Waiting ∈ thr.
Proof.
  intros Ht Hb Hin. apply list_elem_of_lookup in Hin as (u & Hu).
  destruct (decide (u = t)) as [->|Hne].
  - rewrite list_lookup_insert_eq in Hu by (by eapply lookup_lt_Some). congruence.
  - rewrite list_lookup_insert_ne in Hu by done. by eapply list_elem_of_lookup_2.
Qed.

Lemma weight_le x : (weight x ≤ 1)%nat.
Proof. destruct x as [| |[]| |]; cbn; lia. Qed.

(** A thread that does not hold the mutex moves to another such place. *)
Lemma thread_inv_move q w w' mu thr ow lo lo' ph ph' t a b :
  thread_inv q (mk_machine w mu thr ow lo ph) → thr !! t = Some a →
  (∀ k, a ≠ Holding k) → (∀ k, b ≠ Holding k) → b ≠ Waiting → weight a = 0%nat ∨ weight b = 1%nat →
  (∀ c, b = AtLock (RPush c) → (t, c) ∈ ow) →
  thread_inv q (mk_machine w' mu (<[t := b]> thr) ow lo' ph').
Proof.
  intros [H1 H2 H3 H4] Ha Hna Hnb Hbw Hw Hp. cbn in *.
  assert (Hl : (t < length thr)%nat) by (by eapply lookup_lt_Some). split; cbn.
  - intros u k Hu. destruct (decide (u = t)) as [->|Hne].
    + rewrite list_lookup_insert_eq in Hu by done. naive_solver.
    + rewrite list_lookup_insert_ne in Hu by done. eauto.
  - intros u Hu. destruct (H2 u Hu) as [k Hk]. exists k.
    rewrite list_lookup_insert_ne; [done|]. intros <-. naive_solver.
  - intros u c Hu. destruct (decide (u = t)) as [->|Hne].
    + rewrite list_lookup_insert_eq in Hu by done. destruct Hu as [[= ->]|[= ->]]; [by apply Hp|].
      naive_solver.
    + rewrite !list_lookup_insert_ne in Hu by done. eauto.
  - intros Hin. pose proof (wakers_insert thr t a b Ha). apply (waiting_insert _ _ _ _ Ha Hbw) in Hin.
    specialize (H4 Hin). pose proof (weight_le a). lia.
Qed.

Lemma thread_inv_lock q w thr ow lo ph t a k :
  thread_inv q (mk_machine w None thr ow lo ph) → thr !! t = Some a →
  a = AtLock k ∨ (a = Signalled ∧ k = RPop) →
  thread_inv q (mk_machine w (Some t) (<[t := Holding k]> thr) ow lo ph).
Proof.
  intros [H1 H2 H3 H4] Ha Hak. cbn in *.
  assert (Hl : (t < length thr)%nat) by (by eapply lookup_lt_Some). split; cbn.
  - intros u k' Hu. destruct (decide (u = t)) as [->|Hne]; [done|].
    rewrite list_lookup_insert_ne in Hu by done. by specialize (H1 _ _ Hu).
  - intros u [= <-]. exists k. by rewrite list_lookup_insert_eq.
  - intros u c Hu. destruct (decide (u = t)) as [->|Hne].
    + rewrite list_lookup_insert_eq in Hu by done. apply H3. naive_solver.
    + rewrite !list_lookup_insert_ne in Hu by done. eauto.
  - intros Hin. pose proof (wakers_insert thr t a (Holding k) Ha) as Hw.
    apply (waiting_insert _ _ _ _ Ha) in Hin; [|done]. specialize (H4 Hin).
    destruct Hak as [->|[-> ->]]; cbn in *; lia.
Qed.

Lemma thread_inv_unlock q q' w w' mu thr ow ow' lo lo' ph ph' t k b :
  thread_inv q (mk_machine w mu thr ow lo ph) → thr !! t = Some (Holding k) →
  (b = Idle ∨ b = Waiting ∧ q' = []) →
  q' = [] ∨ (length q' + weight (Holding k) ≤ length q)%nat →
  (∀ u c, u ≠ t → (u, c) ∈ ow → (u, c) ∈ ow') →
  thread_inv q' (mk_machine w' None (<[t := b]> thr) ow' lo' ph').
Proof.
  intros [H1 H2 H3 H4] Ha Hb Hq How. cbn in *. pose proof (H1 _ _ Ha) as ->.
  assert (Hl : (t < length thr)%nat) by (by eapply lookup_lt_Some). split; cbn.
  - intros u k' Hu. destruct (decide (u = t)) as [->|Hne].
    + rewrite list_lookup_insert_eq in Hu by done. naive_solver.
    + rewrite list_lookup_insert_ne in Hu by done. specialize (H1 _ _ Hu). congruence.
  - done.
  - intros u c Hu. destruct (decide (u = t)) as [->|Hne].
    + rewrite list_lookup_insert_eq in Hu by done. naive_solver.
    + rewrite !list_lookup_insert_ne in Hu by done. eauto.
  - destruct Hq as [->|Hq]; [cbn; lia|]. intros Hin. destruct Hb as [->|[-> ->]]; [|cbn; lia].
    pose proof (wakers_insert thr t _ Idle Ha). apply (waiting_insert _ _ _ _ Ha) in Hin; [|done].
    specialize (H4 Hin). cbn [weight] in *. lia.
Qed.

Lemma thread_inv_signal q q' w thr thr' ow lo ph :
  thread_inv q (mk_machine w None thr ow lo ph) → signal thr thr' →
  (length q' ≤ S (length q))%nat → thread_inv q' (mk_machine w None thr' ow lo ph).
Proof.
  intros Hti [u Hu|Hno] Hq.
  - pose proof (wakers_insert thr u _ Signalled Hu) as Hwk. pose proof (ti_wake _ _ Hti) as Hw0.
    assert (Hw : Waiting ∈ thr) by (by eapply list_elem_of_lookup_2). specialize (Hw0 Hw).
    assert (Hm : thread_inv q (mk_machine w None (<[u := Signalled]> thr) ow lo ph)).
    { eapply (thread_inv_move _ _ _ _ _ _ _ _ _ _ _ Waiting); [done..|by left|done]. }
    destruct Hm as [H1 H2 H3 H4]. split; cbn in *; [done..|]. intros _. lia.
  - destruct Hti as [H1 H2 H3 H4]. by split.
Qed.

(** The connections of the pool change hands. *)
Lemma conn_inv_perm max pl q q' m m' :
  conn_inv max pl q m → pool_rep (w_glob (m_world m')) P pl q' → live (m_world m') →
  conns (w_glob (m_world m')) = conns (w_glob (m_world m)) →
  all_conns q' m' ≡ₚ all_conns q m → m_phantom m' = m_phantom m → conn_inv max pl q' m'.
Proof.
  intros [Hr Hm Hn Hd Hl Hs] Hr' Hl' Hc Hp Hph.
  split; [done|done|by rewrite Hp|by intros c; rewrite Hp, Hc; apply Hd|done|by rewrite Hp, Hph].
Qed.

(** A connection is opened for the pool. *)
Lemma conn_inv_add max pl m m' c :
  conn_inv max pl [] m → pool_rep (w_glob (m_world m')) P (with_size pl (pl_size pl + 1)) [] →
  live (m_world m') → c ≠ NULL →
  dom (conns (w_glob (m_world m'))) = {[c]} ∪ dom (conns (w_glob (m_world m))) →
  (c ∉ dom (conns (w_glob (m_world m)))) →
  all_conns [] m' ≡ₚ c :: all_conns [] m → m_phantom m' = m_phantom m →
  conn_inv max (with_size pl (pl_size pl + 1)) [] m'.
Proof.
  intros [Hr Hm Hn Hd Hl Hs] Hr' Hl' Hc0 Hdom Hni Hp Hph. split; [done|done| | |done|].
  - rewrite Hp. apply list.NoDup_cons. split; [|done]. intros Hin. by apply Hni, Hd.
  - intros c'. rewrite Hp, Hdom. intros [->|Hin]%elem_of_cons; [set_solver|].
    destruct (Hd c' Hin). split; [done|set_solver].
  - cbn [with_size pl_size]. rewrite Hp, Hph, Hs. cbn [length]. lia.
Qed.

Context (Hfresh : malloc_fresh) (Hpoll : ∀ fd t, settles fuel (Poll [(fd, POLLOUT)] t)).

Lemma owned_give t c ow : c ≠ NULL → give t c ow = (t, c) :: ow.
Proof. intros Hc. unfold give. by rewrite (proj2 (Z.eqb_neq _ _) Hc). Qed.

Lemma inv_pop_leave max w w' mu thr ow lo ph t c :
  inv max (mk_machine w mu thr ow lo ph) → thr !! t = Some (Holding RPop) →
  pop_round fuel P w = Ok (inl c) w' →
  inv max (mk_machine w' None (<[t := Idle]> thr) (give t c ow) lo ph).
Proof.
  intros (pl & q & Hci & Hti) Ht E. pose proof (ci_rep _ _ _ _ Hci) as Hr. cbn in Hr.
  pose proof (ci_live _ _ _ _ Hci) as Hlv. cbn in Hlv.
  pose proof (wp_at _ _ _ _ _ (pop_round_wp fuel Hfresh Hpoll w P pl q Hr) E) as [Hl H].
  destruct q as [|c0 q].
  - destruct H as [Hlt H]. destruct (c =? NULL) eqn:Ec.
    + destruct H as [Hr' Hc']. exists pl, []. unfold give. rewrite Ec. split.
      * by apply (conn_inv_perm _ _ _ _ _ _ Hci); cbn; auto.
      * eapply thread_inv_unlock; [done|done|by left|by left|auto].
    + apply Z.eqb_neq in Ec as Hne. destruct H as (Hr' & Hdom & Hni).
      exists (with_size pl (pl_size pl + 1)), []. rewrite owned_give by done. split.
      * apply (conn_inv_add _ _ (mk_machine w mu thr ow lo ph) _ c); cbn; auto. 
      * eapply thread_inv_unlock; [done|done|by left|by left|set_solver].
  - destruct H as (-> & Hr' & Hc'). exists pl, q.
    pose proof (queue_data_nonnull _ _ _ _ _ Hr). rewrite owned_give by done. split.
    + apply (conn_inv_perm _ _ _ _ _ _ Hci); cbn; auto. unfold all_conns; cbn. solve_Permutation.
    + eapply thread_inv_unlock; [done|done|by left|right; cbn; lia|set_solver].
Qed.

Lemma inv_pop_wait max w w' mu thr ow lo ph t :
  inv max (mk_machine w mu thr ow lo ph) → thr !! t = Some (Holding RPop) →
  pop_round fuel P w = Ok (inr tt) w' →
  inv max (mk_machine w' None (<[t := Waiting]> thr) ow lo ph).
Proof.
  intros (pl & q & Hci & Hti) Ht E. pose proof (ci_rep _ _ _ _ Hci) as Hr. cbn in Hr.
  pose proof (ci_live _ _ _ _ Hci) as Hlv. cbn in Hlv.
  pose proof (wp_at _ _ _ _ _ (pop_round_wp fuel Hfresh Hpoll w P pl q Hr) E) as [Hl H].
  destruct q as [|c0 q]; [|done]. destruct H as (Hge & Hr' & Hc'). exists pl, []. split.
  - by apply (conn_inv_perm _ _ _ _ _ _ Hci); cbn; auto.
  - eapply thread_inv_unlock; [done|done|by right|by left|auto].
Qed.

Lemma inv_try_leave max w w' mu thr ow lo ph t c :
  inv max (mk_machine w mu thr ow lo ph) → thr !! t = Some (Holding RTryPop) →
  try_pop_round fuel P w = Ok (inl c) w' →
  inv max (mk_machine w' None (<[t := Idle]> thr) (give t c ow) lo ph).
Proof.
  intros (pl & q & Hci & Hti) Ht E. pose proof (ci_rep _ _ _ _ Hci) as Hr. cbn in Hr.
  pose proof (ci_live _ _ _ _ Hci) as Hlv. cbn in Hlv.
  pose proof (wp_at _ _ _ _ _ (try_pop_round_wp fuel Hfresh Hpoll w P pl q Hr) E) as [Hl H].
  destruct q as [|c0 q]; [done|]. destruct H as (-> & Hr' & Hc'). exists pl, q.
  pose proof (queue_data_nonnull _ _ _ _ _ Hr). rewrite owned_give by done. split.
  - apply (conn_inv_perm _ _ _ _ _ _ Hci); cbn; auto. unfold all_conns; cbn. solve_Permutation.
  - eapply thread_inv_unlock; [done|done|by left|right; cbn; lia|set_solver].
Qed.

Lemma inv_try_again max w w' mu thr ow lo ph t new :
  inv max (mk_machine w mu thr ow lo ph) → thr !! t = Some (Holding RTryPop) →
  try_pop_round fuel P w = Ok (inr new) w' →
  inv max (mk_machine w' mu thr ow ((abandoned new).1 ++ lo) ((abandoned new).2 + ph)).
Proof.
  intros (pl & q & Hci & Hti) Ht E. pose proof (ci_rep _ _ _ _ Hci) as Hr. cbn in Hr.
  pose proof (ci_live _ _ _ _ Hci) as Hlv. cbn in Hlv.
  pose proof (wp_at _ _ _ _ _ (try_pop_round_wp fuel Hfresh Hpoll w P pl q Hr) E) as [Hl H].
  destruct q as [|c0 q]; [|done].
  assert (Hti' : ∀ lo ph, thread_inv [] (mk_machine w' mu thr ow lo ph)).
  { intros. destruct Hti. by split. }
  destruct new as [c|]; cbn [abandoned].
  - destruct H as (Hlt & Hr' & H). exists (with_size pl (pl_size pl + 1)), []. split; [|done].
    destruct (c =? NULL) eqn:Ec; cbn [fst snd app].
    + destruct Hci as [_ Hm Hn Hd _ Hs]. split; cbn in *; [done|done|done|by rewrite H|auto|].
      rewrite Hs. unfold all_conns; cbn. lia.
    + destruct H as [Hdom Hni]. apply Z.eqb_neq in Ec.
      apply (conn_inv_add _ _ (mk_machine w mu thr ow lo ph) _ c); cbn; auto.
      unfold all_conns; cbn. solve_Permutation.
  - destruct H as (Hge & Hr' & Hc'). exists pl, []. split; [|done].
    by apply (conn_inv_perm _ _ _ _ _ _ Hci); cbn; auto.
Qed.

Lemma inv_push max w w' mu thr thr' ow1 ow2 lo ph t c :
  inv max (mk_machine w mu thr (ow1 ++ (t, c) :: ow2) lo ph) → thr !! t = Some (Holding (RPush c)) →
  push_section malloc_ok P c w = Ok tt w' → signal (<[t := Idle]> thr) thr' →
  inv max (mk_machine w' None thr' (ow1 ++ ow2) (dropped w c ++ lo) ph).
Proof.
  intros (pl & q & Hci & Hti) Ht E Hsig. pose proof (ci_rep _ _ _ _ Hci) as Hr. cbn in Hr.
  pose proof (ci_live _ _ _ _ Hci) as Hlv. cbn in Hlv.
  destruct (ci_dom _ _ _ _ Hci c) as [Hne _]; [unfold all_conns; cbn; rewrite fmap_app; set_solver|].
  pose proof (wp_at _ _ _ _ _ (push_section_wp malloc_ok w P pl q c Hr Hne) E) as (Hr' & Htr & Hc').
  exists pl, (if malloc_ok (brk (qh (rest (w_glob w)))) then c :: q else q). split.
  - apply (conn_inv_perm _ _ _ _ _ _ Hci); cbn; auto; [by apply (live_same w)|].
    unfold all_conns, dropped; cbn. rewrite !fmap_app. cbn. destruct (malloc_ok _); solve_Permutation.
  - eapply (thread_inv_signal q); [|exact Hsig|destruct (malloc_ok _); cbn; lia].
    eapply thread_inv_unlock; [done|done|by left|right; cbn; lia|]. set_solver.
Qed.

Lemma inv_threads max w mu thr ow lo ph mu' thr' :
  inv max (mk_machine w mu thr ow lo ph) →
  (∀ q, thread_inv q (mk_machine w mu thr ow lo ph) → thread_inv q (mk_machine w mu' thr' ow lo ph)) →
  inv max (mk_machine w mu' thr' ow lo ph).
Proof. intros (pl & q & [] & Hti) H. exists pl, q. split; [by split|by apply H]. Qed.

Lemma pool_step_inv max m m' : inv max m → step m m' → inv max m'.
Proof.
  intros Hi Hs. destruct Hs as [w mu thr ow lo ph t Ht|w mu thr ow lo ph t Ht|w mu thr ow lo ph t c Ht Hin
    |w thr ow lo ph t k Ht|w w' mu thr ow lo ph t c Ht E|w w' mu thr ow lo ph t Ht E|w mu thr ow lo ph t Ht
    |w thr ow lo ph t Ht|w w' mu thr ow lo ph t c Ht E|w w' mu thr ow lo ph t new Ht E
    |w w' mu thr thr' ow1 ow2 lo ph t c Ht E Hsig].
  1-3: apply (inv_threads _ _ _ _ _ _ _ _ _ Hi); intros q Hq;
    apply (thread_inv_move _ _ _ _ _ _ _ _ _ _ _ _ _ Hq Ht); [done..|by left|naive_solver].
  - apply (inv_threads _ _ _ _ _ _ _ _ _ Hi). intros q Hq. eapply thread_inv_lock; [done|done|by left].
  - by eapply inv_pop_leave.
  - by eapply inv_pop_wait.
  - apply (inv_threads _ _ _ _ _ _ _ _ _ Hi). intros q Hq.
    apply (thread_inv_move _ _ _ _ _ _ _ _ _ _ _ _ _ Hq Ht); [done..|by left|naive_solver].
  - apply (inv_threads _ _ _ _ _ _ _ _ _ Hi). intros q Hq. eapply thread_inv_lock; [done|done|by right].
  - by eapply inv_try_leave.
  - by eapply inv_try_again.
  - by eapply inv_push.
Qed.

(** [n] threads, none of them in the pool's code. *)
Definition start (n : nat) (w : world (cm_mem pmem)) : machine :=
  mk_machine w None (replicate n Idle) [] [] 0.

Lemma pool_start_inv pl n w : pool_rep (w_glob w) P pl [] → live w → pl_size pl = 0 →
  inv (pl_max_pool_size pl) (start n w).
Proof.
  intros Hr Hl Hs. exists pl, []. split.
  - split; cbn; [done|done|by apply list.NoDup_nil|by intros c ?%elem_of_nil|done|done].
  - split; cbn; [|done| |lia].
    + intros t k Ht%lookup_replicate. naive_solver.
    + intros t c [Ht|Ht]; apply lookup_replicate in Ht; naive_solver.
Qed.

Lemma pool_reachable_inv pl n w m : pool_rep (w_glob w) P pl [] → live w → pl_size pl = 0 →
  rtc step (start n w) m → inv (pl_max_pool_size pl) m.
Proof.
  intros Hr Hl Hs H. assert (Hi : inv (pl_max_pool_size pl) (start n w)) by by apply pool_start_inv.
  induction H as [|m1 m2 m3 Hst _ IH]; [done|]. apply IH. by eapply pool_step_inv.
Qed.

End machine.
End Threads.

(** ** Creation *)

(** The memory of a process that has not used the library yet. *)
Definition cm_start : cm_mem pmem := mk_cm 0 ∅ (mk_pmem ∅ (mk_qheap ∅ ∅ 1)).

(** [w] is the state in which a call of [conn_mgr_pool_new] made the pool [P]. *)
Definition pool_made {os : OS} (ip : string) (port max timeout P : Z) (w : world (cm_mem pmem)) : Prop :=
  conn_mgr_pool_new (Some ip) port max timeout (mk_world [] cm_start) = Ok P w ∧ P ≠ NULL ∧
  (String.length ip < 16)%nat ∧ 0 ≤ max < 2 ^ 32.

Lemma pool_new_rep {os : OS} ip port max timeout P w : pool_made ip port max timeout P w →
  pool_rep (w_glob w) P (mk_pool (strncpy 16 ip) port max 0 timeout) [] ∧ live w.
Proof.
  intros (E & HP & Hip & Hmax). revert HP.
  refine (wp_at (conn_mgr_pool_new (Some ip) port max timeout) (λ P w, P ≠ NULL →
    pool_rep (w_glob w) P (mk_pool (strncpy 16 ip) port max 0 timeout) [] ∧ live w) _ _ _ _ E).
  unfold conn_mgr_pool_new, store_pool, upd_rest. clear E. wp_run; [done|].
  apply wp_q_op. unfold conn_mgr_queue_init. rewrite E. unfold store_queue, wp; cbn.
  rewrite lookup_insert_eq. intros Hm. split.
  - split; cbn; [by rewrite lookup_insert_eq| |by apply strncpy_terminated|lia].
    exists []. split; [|done]. split; cbn; [done| |by apply list.NoDup_nil|done|done|].
    + exists 0. by rewrite lookup_insert_eq.
    + split; [lia|]. by intros a [x Hx].
  - split; cbn; [lia|]. set_solver.
Qed.

Lemma made_inv {os : OS} fuel malloc_ok ip port max timeout P w n m :
  malloc_fresh → (∀ fd t, settles fuel (Poll [(fd, POLLOUT)] t)) →
  pool_made ip port max timeout P w →
  rtc (Threads.step fuel malloc_ok P) (Threads.start n w) m → Threads.inv P max m.
Proof.
  intros Hf Hp Hm Hr. destruct (pool_new_rep _ _ _ _ _ _ Hm) as [Hrep Hl].
  by apply (Threads.pool_reachable_inv fuel malloc_ok P Hf Hp _ n w m Hrep Hl).
Qed.

(** ** Destruction *)

Lemma pool_drain_wp {os : OS} P pl (q : list Z) : ∀ fuel w, pool_rep (w_glob w) P pl q →
  (length q < fuel)%nat → NoDup q → (∀ c, c ∈ q → c ∈ dom (conns (w_glob w))) →
  wp (loop fuel (λ _ : unit,
      conn ← q_op (conn_mgr_queue_pop_head P);
      if conn =? NULL then mret (inr tt) else conn_mgr_conn_destroy conn;; mret (inl tt)) tt)
    (λ _ w', pool_rep (w_glob w') P pl [] ∧
       (∃ fds, Forall2 (λ c fd, conns (w_glob w) !! c = Some (mk_conn fd)) q fds ∧
               res_delta (w_trace w') (w_trace w) fds q) ∧
       conns (w_glob w') = foldr delete (conns (w_glob w)) q) w.
Proof.
  induction q as [|c q IH]; intros [|fuel] w Hrep Hf Hnd Hin; cbn in Hf; try lia; cbn [loop].
  - apply wp_bind, wp_bind. eapply wp_mono; [by apply pool_pop_head_wp|].
    intros c w1 (Hr1 & Ht1 & Hc1 & ->). cbn. split_and!; [done| |done].
    exists []. split; [constructor|]. rewrite Ht1. change (res_eq (w_trace w) (w_trace w)). reflexivity.
  - apply list.NoDup_cons in Hnd as [Hni Hnd].
    apply wp_bind, wp_bind. eapply wp_mono; [by apply pool_pop_head_wp|].
    intros c' [tr1 g1] (Hr1 & Ht1 & Hc1 & ->). cbn [head default id list.tail w_trace w_glob] in *.
    pose proof (queue_data_nonnull _ _ _ _ _ Hrep) as Hne. rewrite (proj2 (Z.eqb_neq _ _) Hne).
    destruct (conns (w_glob w) !! c) as [cn|] eqn:Ec; [|apply not_elem_of_dom in Ec; set_solver].
    apply wp_bind. eapply wp_mono; [apply (conn_destroy_wp c cn); [done|by rewrite Hc1]|].
    intros [] w2 (Hr2 & Hc2 & Hd2). wp_run. subst tr1.
    assert (Hrep2 : pool_rep (w_glob w2) P pl q) by (by eapply pool_rep_rest).
    eapply wp_mono; [apply (IH fuel w2 Hrep2); [lia|done|]|].
    + intros c' Hc'. rewrite Hc2, Hc1, dom_delete_L. set_solver.
    + intros [] w3 (Hr3 & (fds & Hfds & Hd3) & Hc3). split_and!; [done| |].
      * exists (conn_fd cn :: fds). split; [|by eapply res_delta_cons].
        constructor; [by destruct cn|]. eapply list.Forall2_impl; [exact Hfds|].
        intros c' fd Hl. cbn in Hl. rewrite Hc2, Hc1 in Hl. by apply lookup_delete_Some in Hl as [_ ?].
      * rewrite Hc3, Hc2, Hc1. cbn. clear. induction q as [|c' q IH]; cbn; [done|].
        rewrite IH. apply delete_delete.
Qed.

Lemma pool_destroy_wp {os : OS} fuel w P pl q :
  pool_rep (w_glob w) P pl q → (length q < fuel)%nat → NoDup q →
  (∀ c, c ∈ q → c ∈ dom (conns (w_glob w))) →
  wp (conn_mgr_pool_destroy fuel P) (λ _ w',
    (∃ fds, Forall2 (λ c fd, conns (w_glob w) !! c = Some (mk_conn fd)) q fds ∧
            res_delta (w_trace w') (w_trace w) fds (P :: q)) ∧
    conns (w_glob w') = foldr delete (conns (w_glob w)) q ∧
    pools (rest (w_glob w')) !! P = None ∧ queues (qh (rest (w_glob w'))) !! P = None ∧
    items (qh (rest (w_glob w'))) = ∅) w.
Proof.
  intros Hrep Hf Hnd Hin. destruct (pr_queue _ _ _ _ Hrep) as (nodes & Hq & _).
  pose proof (proj2 (Z.eqb_neq _ _) (qr_q _ _ _ Hq)) as HP. unfold conn_mgr_pool_destroy, upd_rest.
  rewrite HP. apply wp_bind. eapply wp_mono; [by apply pool_drain_wp|].
  intros [] [tr1 g1] (Hr1 & (fds & Hfds & Hd) & Hc). wp_run. cbn [w_trace w_glob] in *.
  split_and!; [|done|apply lookup_delete_eq|apply lookup_delete_eq|].
  - exists fds. split; [done|]. apply (res_delta_block _ tr1); [|done]. res_solve.
  - destruct (pr_queue _ _ _ _ Hr1) as (nodes1 & Hq1 & ->%fmap_nil_inv). cbn. apply dom_empty_inv_L. by rewrite (qr_dom _ _ _ Hq1).
Qed.

(** ** Theorems *)

(** C3: the pool's accounting under every interleaving.  From a new pool and any number
    of threads that pop, push back what they popped and call [try_pop], in every
    reachable state the connections in the queue, in the hands of threads and lost by
    the code are pairwise different live objects (no connection is lent twice), the
    pool's counter is their number plus the increments that had no connection, and it
    never exceeds the configured maximum. *)
Theorem pool_conns_accounted {os : OS} fuel malloc_ok ip port max timeout P w n m :
  malloc_fresh → (∀ fd t, settles fuel (Poll [(fd, POLLOUT)] t)) →
  pool_made ip port max timeout P w →
  rtc (Threads.step fuel malloc_ok P) (Threads.start n w) m →
  ∃ pl q, pool_rep (w_glob (Threads.m_world m)) P pl q ∧
    NoDup (q ++ (Threads.m_owned m).*2 ++ Threads.m_lost m) ∧
    (∀ c, c ∈ q ++ (Threads.m_owned m).*2 ++ Threads.m_lost m →
          c ∈ dom (conns (w_glob (Threads.m_world m)))) ∧
    pl_size pl = Z.of_nat (length (q ++ (Threads.m_owned m).*2 ++ Threads.m_lost m)
                           + Threads.m_phantom m) ∧
    pl_size pl ≤ max.
Proof.
  intros Hf Hp Hm Hr. destruct (made_inv _ _ _ _ _ _ _ _ _ _ Hf Hp Hm Hr) as (pl & q & [] & _).
  exists pl, q. split_and!; [done|done|naive_solver|done|]. destruct ci_rep as [_ _ _ ?]. lia.
Qed.

(** Mutual exclusion, and the critical sections run to completion.  In every
    reachable state at most one thread is inside a critical section, and its next
    round neither touches invalid memory nor gets stuck. *)
Theorem pool_sections_safe {os : OS} fuel malloc_ok ip port max timeout P w n m :
  malloc_fresh → (∀ fd t, settles fuel (Poll [(fd, POLLOUT)] t)) →
  pool_made ip port max timeout P w →
  rtc (Threads.step fuel malloc_ok P) (Threads.start n w) m →
  (∀ t u k k', Threads.m_threads m !! t = Some (Threads.Holding k) →
               Threads.m_threads m !! u = Some (Threads.Holding k') → t = u) ∧
  (∀ t k, Threads.m_threads m !! t = Some (Threads.Holding k) →
     match k with
     | Threads.RPop => ∃ r w', pop_round fuel P (Threads.m_world m) = Ok r w'
     | Threads.RTryPop => ∃ r w', try_pop_round fuel P (Threads.m_world m) = Ok r w'
     | Threads.RPush c => ∃ w', push_section malloc_ok P c (Threads.m_world m) = Ok tt w'
     end).
Proof.
  intros Hf Hp Hm Hr. destruct (made_inv _ _ _ _ _ _ _ _ _ _ Hf Hp Hm Hr) as (pl & q & Hci & []).
  split; [intros t u k k' H1 H2; apply ti_holder in H1, H2; congruence|].
  intros t [| |c] Ht; destruct Hci as [Hrep _ _ Hd _ _].
  - apply (pop_round_wp fuel Hf Hp) in Hrep. apply wp_Ok in Hrep as (r & w' & E & _). eauto.
  - apply (try_pop_round_wp fuel Hf Hp) in Hrep. apply wp_Ok in Hrep as (r & w' & E & _). eauto.
  - destruct (Hd c) as [Hne _].
    { unfold Threads.all_conns. specialize (ti_push t c (or_intror Ht)).
      apply (list_elem_of_fmap_2 snd) in ti_push. set_solver. }
    apply (push_section_wp malloc_ok _ _ _ _ c) in Hrep; [|done].
    apply wp_Ok in Hrep as ([] & w' & E & _). eauto.
Qed.

(** C15: no wake-up is lost.  Whenever the mutex is free, a thread is blocked in
    [pthread_cond_wait] and an idle connection is in the queue, some thread has been
    woken and is about to take the mutex. *)
Theorem pool_no_lost_wakeup {os : OS} fuel malloc_ok ip port max timeout P w n m hd tl :
  malloc_fresh → (∀ fd t, settles fuel (Poll [(fd, POLLOUT)] t)) →
  pool_made ip port max timeout P w →
  rtc (Threads.step fuel malloc_ok P) (Threads.start n w) m →
  Threads.m_mutex m = None → Threads.Waiting ∈ Threads.m_threads m →
  queues (qh (rest (w_glob (Threads.m_world m)))) !! P = Some (mk_queue hd tl) → hd ≠ NULL →
  Threads.Signalled ∈ Threads.m_threads m.
Proof.
  intros Hf Hp Hm Hr Hmu Hw Hq Hhd.
  destruct (made_inv _ _ _ _ _ _ _ _ _ _ Hf Hp Hm Hr) as (pl & q & [Hrep] & []).
  destruct Hrep as [_ (nodes & [_ (hd' & Hq' & Hl)] & <-) _ _].
  destruct nodes as [|nd nodes]; [cbn in Hl; congruence|].
  specialize (ti_wake Hw). cbn in ti_wake. assert (Hk : ∀ k, Threads.Holding k ∉ Threads.m_threads m).
  { intros k (t & Ht)%list_elem_of_lookup. apply ti_holder in Ht. congruence. }
  clear -ti_wake Hk. unfold Threads.wakers, weigh in ti_wake. induction (Threads.m_threads m) as [|x thr IH]; cbn in ti_wake; [lia|].
  destruct x as [|k|k| |]; cbn in ti_wake; try set_solver.
Qed.

(** [conn_mgr_pool_try_pop] on a pool with no idle connection never returns.  Its
    loop overwrites the connection it has just opened with the result of the next
    [conn_mgr_queue_pop_head], which is NULL because no other thread can push while
    this one holds the mutex: whatever number of rounds it is given, it is still
    spinning, and the documentation's immediate NULL is not delivered. *)
Theorem try_pop_empty_never_returns {os : OS} fuel w P pl :
  malloc_fresh → (∀ fd t, settles fuel (Poll [(fd, POLLOUT)] t)) →
  pool_rep (w_glob w) P pl [] → conn_mgr_pool_try_pop fuel P w = OutOfFuel.
Proof.
  intros Hf Hp Hrep. destruct (pr_queue _ _ _ _ Hrep) as (nodes & Hq & _).
  unfold conn_mgr_pool_try_pop. rewrite (proj2 (Z.eqb_neq _ _) (qr_q _ _ _ Hq)).
  erewrite bind_ok by reflexivity. apply bind_out_of_fuel.
  enough (Hl : ∀ n w pl, pool_rep (w_glob w) P pl [] → loop n (λ _ : unit,
      r ← try_pop_round fuel P;
      match r with inl conn => mret (inr conn) | inr _ => mret (inl tt) end) tt w = OutOfFuel).
  { by apply (Hl _ _ pl). }
  clear -Hf Hp. induction n as [|n IH]; intros w pl Hrep; [done|]. cbn [loop].
  pose proof (try_pop_round_wp fuel Hf Hp w P pl [] Hrep) as (r & w' & E & _ & H)%wp_Ok.
  destruct r as [c|[c|]]; [done| |]; (rewrite (bind_ok _ _ _ (inl tt) w'); [by eapply IH, H|]);
    by rewrite (bind_ok _ _ _ _ _ E).
Qed.

(** C17: destroying a pool releases everything it still has.  The drain loop ends, every
    idle connection's descriptor is closed and its block freed exactly once, and the
    pool's own block is freed, and so are the items of its queue; connections that threads still hold are not touched. *)
Theorem pool_destroy_releases {os : OS} fuel w P pl q :
  pool_rep (w_glob w) P pl q → (length q < fuel)%nat → NoDup q →
  (∀ c, c ∈ q → c ∈ dom (conns (w_glob w))) →
  wp (conn_mgr_pool_destroy fuel P) (λ _ w',
    (∃ fds, Forall2 (λ c fd, conns (w_glob w) !! c = Some (mk_conn fd)) q fds ∧
            res_delta (w_trace w') (w_trace w) fds (P :: q)) ∧
    conns (w_glob w') = foldr delete (conns (w_glob w)) q ∧
    pools (rest (w_glob w')) !! P = None ∧ queues (qh (rest (w_glob w'))) !! P = None ∧
    items (qh (rest (w_glob w'))) = ∅) w.
Proof. apply pool_destroy_wp. Qed.

(** ** Witnesses *)

(** A kernel that hands out addresses above every value it has returned so far, and
    connects at once. *)
Definition top (tr : list event) : Z := foldr (λ e n, Z.max (r_ret e.2) n) 0 tr.

#[local] Instance bump_os : OS := λ tr c,
  match c with
  | Malloc _ | Socket => mk_reply (1 + top tr) 0 [0; 0]
  | Poll _ _ => mk_reply 1 0 [POLLOUT]
  | _ => mk_reply 0 0 []
  end.

Lemma bump_malloc_fresh : malloc_fresh.
Proof.
  intros tr n _. change (r_ret _) with (1 + top tr).
  enough (H : ∀ p, top tr < p → mem_balance tr p ≤ 0) by (apply H; lia).
  induction tr as [|[c r] tr IH]; intros p Hp; [done|]. cbn in Hp. cbn [mem_balance].
  specialize (IH p). change (foldr _ _ tr) with (top tr) in Hp.
  assert (Hr : r_ret r < p) by lia. specialize (IH ltac:(lia)).
  destruct c; cbn [mem_delta]; try destr_match; lia.
Qed.

Lemma bump_settles fd t : settles 1 (Poll [(fd, POLLOUT)] t).
Proof. intros tr. exists 0%nat. split; [lia|done]. Qed.

Definition demo_made : outcome (world (cm_mem pmem)) Z :=
  Eval vm_compute in conn_mgr_pool_new (Some "10.0.0.1"%string) 80 1 1000 (mk_world [] cm_start).
Definition demo_w : world (cm_mem pmem) :=
  Eval vm_compute in match demo_made with Ok _ w => w | _ => mk_world [] cm_start end.

Lemma demo_pool_made : pool_made "10.0.0.1" 80 1 1000 1 demo_w.
Proof. split_and!; [by vm_compute|done|vm_compute; lia|lia|lia]. Qed.

(** Three threads on a pool of one connection: thread 0 pops it, threads 1 and 2 wait,
    thread 0 pushes it back and wakes thread 1. *)
Definition demo_pop (t : nat) : list Threads.action :=
  [Threads.ACall t Threads.RPop; Threads.ALock t; Threads.ARun t None].
Definition demo_schedule : list Threads.action :=
  demo_pop 0 ++ demo_pop 1 ++ demo_pop 2 ++
  [Threads.ACall 0 (Threads.RPush 3); Threads.ALock 0; Threads.ARun 0 (Some 1%nat)].

Definition demo_final : Threads.machine :=
  Eval vm_compute in
    match Threads.exec 1 (λ _, true) 1 demo_schedule (Threads.start 3 demo_w) with
    | Some m => m
    | None => Threads.start 3 demo_w
    end.

Lemma demo_reach : rtc (Threads.step 1 (λ _, true) 1) (Threads.start 3 demo_w) demo_final.
Proof. apply (Threads.exec_sound 1 (λ _, true) 1 demo_schedule). vm_compute. reflexivity. Qed.

Lemma pool_conns_accounted_witness :
  ∃ pl q, pool_rep (w_glob (Threads.m_world demo_final)) 1 pl q ∧
    NoDup (q ++ (Threads.m_owned demo_final).*2 ++ Threads.m_lost demo_final) ∧
    (∀ c, c ∈ q ++ (Threads.m_owned demo_final).*2 ++ Threads.m_lost demo_final →
          c ∈ dom (conns (w_glob (Threads.m_world demo_final)))) ∧
    pl_size pl = Z.of_nat (length (q ++ (Threads.m_owned demo_final).*2 ++ Threads.m_lost demo_final)
                           + Threads.m_phantom demo_final) ∧
    pl_size pl ≤ 1.
Proof.
  apply (pool_conns_accounted 1 (λ _, true) "10.0.0.1" 80 1 1000 1 demo_w 3);
    [apply bump_malloc_fresh|apply bump_settles|apply demo_pool_made|apply demo_reach].
Defined.

Lemma pool_sections_safe_witness :
  length (Threads.m_threads demo_final) = 3%nat ∧
  (∀ t u k k', Threads.m_threads demo_final !! t = Some (Threads.Holding k) →
               Threads.m_threads demo_final !! u = Some (Threads.Holding k') → t = u).
Proof.
  split; [reflexivity|]. apply (pool_sections_safe 1 (λ _, true) "10.0.0.1" 80 1 1000 1 demo_w 3);
    [apply bump_malloc_fresh|apply bump_settles|apply demo_pool_made|apply demo_reach].
Defined.

Lemma pool_no_lost_wakeup_witness :
  Threads.m_mutex demo_final = None ∧ Threads.Waiting ∈ Threads.m_threads demo_final ∧
  Threads.Signalled ∈ Threads.m_threads demo_final.
Proof.
  assert (Hw : Threads.Waiting ∈ Threads.m_threads demo_final) by (cbn; set_solver).
  split_and!; [done|exact Hw|].
  apply (pool_no_lost_wakeup 1 (λ _, true) "10.0.0.1" 80 1 1000 1 demo_w 3 demo_final 1 1);
    [apply bump_malloc_fresh|apply bump_settles|apply demo_pool_made|apply demo_reach|done|exact Hw
    |by vm_compute|done].
Defined.

Lemma demo_w_rep : pool_rep (w_glob demo_w) 1 (mk_pool (strncpy 16 "10.0.0.1") 80 1 0 1000) [].
Proof. apply (pool_new_rep "10.0.0.1" 80 1 1000 1 demo_w demo_pool_made). Qed.

Lemma try_pop_empty_never_returns_witness : conn_mgr_pool_try_pop 1 1 demo_w = OutOfFuel.
Proof.
  apply (try_pop_empty_never_returns 1 demo_w 1 _ bump_malloc_fresh bump_settles demo_w_rep).
Defined.

(** A pool with two idle connections. *)
Definition idle_pool : conn_mgr_pool_t := mk_pool (strncpy 16 "10.0.0.1") 80 4 2 1000.
Definition idle_w : world (cm_mem pmem) :=
  mk_world [] (mk_cm 0 {[64 := mk_conn 5; 72 := mk_conn 6]}
    (mk_pmem {[1 := idle_pool]} (mk_qheap {[2 := mk_item 64 3; 3 := mk_item 72 NULL]} {[1 := mk_queue 2 3]} 4))).

Lemma idle_w_rep : pool_rep (w_glob idle_w) 1 idle_pool [64; 72].
Proof.
  split; [reflexivity| |by exists "10.0.0.1"%string|cbn; lia]. exists [(2, 64); (3, 72)]. split; [|reflexivity].
  split; [done| |by repeat constructor; set_solver|by repeat constructor| |].
  - exists 2. split; [reflexivity|]. split; [done|]. split; [done|]. exists 3. split; [reflexivity|].
    split; [done|]. split; [done|]. by exists NULL.
  - by vm_compute.
  - split; [done|]. cbn [items idle_w w_glob rest qh brk]. intros a [x Hx].
    apply lookup_insert_Some in Hx as [[<- _]|[_ Hx]]; [done|]. by apply lookup_singleton_Some in Hx as [<- _].
Qed.

Lemma pool_destroy_releases_witness :
  wp (conn_mgr_pool_destroy 3 1) (λ _ w',
    (∃ fds, Forall2 (λ c fd, conns (w_glob idle_w) !! c = Some (mk_conn fd)) [64; 72] fds ∧
            res_delta (w_trace w') (w_trace idle_w) fds [1; 64; 72]) ∧
    conns (w_glob w') = foldr delete (conns (w_glob idle_w)) [64; 72] ∧
    pools (rest (w_glob w')) !! 1 = None ∧ queues (qh (rest (w_glob w'))) !! 1 = None ∧
    items (qh (rest (w_glob w'))) = ∅) idle_w.
Proof.
  apply (pool_destroy_releases 3 idle_w 1 idle_pool [64; 72] idle_w_rep); [cbn; lia|by repeat constructor; set_solver|].
  intros c Hc. cbn [conns idle_w w_glob]. set_solver.
Defined.
