(* ===== verification/Philosophers.v ===== *)
(** * The dining philosophers (src/system/diningphilo/dinphilo.c)

    [n] threads share a semaphore per fork and a semaphore [lock] that admits all but
    one of them.  Each thread runs the statement list of [philosopher]; the machine
    interleaves them one statement at a time, and a [sem_wait] on a semaphore of value
    0 blocks. *)

From Stdlib Require Import ZArith Lia.
From stdpp Require Import base list numbers relations.
From S2P Require Import Prelude.

#[local] Open Scope nat_scope.

(** ** Code *)

Inductive sem := Lock | Fork (i : nat).

Inductive stmt := Think | Eat | SemWait (s : sem) | SemPost (s : sem).

(** The body of [philosopher], its loop of one round unrolled. *)
Definition philosopher (position count : nat) : list stmt :=
  [ Think;
    SemWait Lock;
    SemWait (Fork position);
    SemWait (Fork ((position + 1) mod count));
    Eat;
    SemPost (Fork position);
    SemPost (Fork ((position + 1) mod count));
    SemPost Lock;
    Think ].

Record state := mk_state {
  lock : nat;
  forks : list nat;
  pcs : list nat;
  output : list (nat * stmt) }.

(** [initialize_semaphores]: the value of [lock] and of each fork. *)
Definition initialize_semaphores (num_forks : nat) : nat * list nat :=
  (num_forks - 1, replicate num_forks 1).

(** [run_all_threads]: every thread starts at its first statement. *)
Definition run_all_threads (num_philosophers : nat) : state :=
  let '(l, f) := initialize_semaphores num_philosophers in
  mk_state l f (replicate num_philosophers 0) [].

Definition sem_wait (x : sem) (s : state) : option state :=
  match x with
  | Lock => if lock s =? 0 then None
            else Some (mk_state (lock s - 1) (forks s) (pcs s) (output s))
  | Fork i => match forks s !! i with
              | Some (S v) => Some (mk_state (lock s) (<[i := v]> (forks s)) (pcs s) (output s))
              | _ => None
              end
  end.

Definition sem_post (x : sem) (s : state) : option state :=
  match x with
  | Lock => Some (mk_state (lock s + 1) (forks s) (pcs s) (output s))
  | Fork i => match forks s !! i with
              | Some v => Some (mk_state (lock s) (<[i := v + 1]> (forks s)) (pcs s) (output s))
              | None => None
              end
  end.

Definition exec_stmt (i : nat) (c : stmt) (s : state) : option state :=
  match c with
  | Think | Eat => Some (mk_state (lock s) (forks s) (pcs s) ((i, c) :: output s))
  | SemWait x => sem_wait x s
  | SemPost x => sem_post x s
  end.

(** Thread [i] runs its next statement; [None]: it has none, or it is blocked. *)
Definition step_thread (i : nat) (s : state) : option state :=
  pc ← pcs s !! i;
  c ← philosopher i (length (pcs s)) !! pc;
  s' ← exec_stmt i c s;
  Some (mk_state (lock s') (forks s') (<[i := S pc]> (pcs s')) (output s')).

Inductive step (s : state) : state → Prop :=
| step_intro i s' : step_thread i s = Some s' → step s s'.

(** A schedule: which thread runs next. *)
Fixpoint run (sched : list nat) (s : state) : option state :=
  match sched with [] => Some s | i :: sched => step_thread i s ≫= run sched end.

Definition finished (s : state) : Prop := ∀ pc, pc ∈ pcs s → pc = 9.
Definition eating (s : state) (i : nat) : Prop := pcs s !! i = Some 4.

(** ** The invariant *)

(** What a thread holds at statement [pc]: the lock, its left fork, its right fork. *)
Definition hl (pc : nat) : nat := if (2 <=? pc) && (pc <=? 7) then 1 else 0.
Definition hL (pc : nat) : nat := if (3 <=? pc) && (pc <=? 5) then 1 else 0.
Definition hR (pc : nat) : nat := if (4 <=? pc) && (pc <=? 6) then 1 else 0.

Definition right (n i : nat) : nat := (i + 1) mod n.

Record inv (n : nat) (s : state) : Prop := {
  i_n : 2 ≤ n;
  i_pcs : length (pcs s) = n;
  i_forks : length (forks s) = n;
  i_range : ∀ pc, pc ∈ pcs s → pc ≤ 9;
  i_lock : lock s + weigh hl (pcs s) = n - 1;
  i_fork : ∀ k, k < n → forks s !!! right n k + hR (pcs s !!! k) + hL (pcs s !!! right n k) = 1 }.

Lemma right_lt n i : 2 ≤ n → right n i < n.
Proof. intros. apply Nat.mod_upper_bound. lia. Qed.

Lemma right_cases n i : i < n → right n i = if i + 1 =? n then 0 else i + 1.
Proof.
  intros. unfold right. destruct (Nat.eqb_spec (i + 1) n) as [->|]; [apply Nat.Div0.mod_same|].
  apply Nat.mod_small. lia.
Qed.

Lemma right_ne n i : 2 ≤ n → i < n → right n i ≠ i.
Proof. intros. rewrite right_cases by done. destruct (Nat.eqb_spec (i + 1) n); lia. Qed.

Lemma right_inj n i j : i < n → j < n → right n i = right n j → i = j.
Proof.
  intros Hi Hj. rewrite !right_cases by done.
  destruct (Nat.eqb_spec (i + 1) n), (Nat.eqb_spec (j + 1) n); lia.
Qed.

Lemma right_surj n j : 2 ≤ n → j < n → ∃ i, i < n ∧ right n i = j.
Proof.
  intros. exists (if j =? 0 then n - 1 else j - 1). destruct (Nat.eqb_spec j 0).
  - split; [lia|]. rewrite right_cases by lia. destruct (Nat.eqb_spec (n - 1 + 1) n); lia.
  - split; [lia|]. rewrite right_cases by lia. destruct (Nat.eqb_spec (j - 1 + 1) n); lia.
Qed.

Definition ind (b : bool) : nat := if b then 1 else 0.

(** A thread moves and the semaphores change by what it takes or gives. *)
Lemma inv_move n s s' i pc pc' : inv n s → pcs s !! i = Some pc → pc' ≤ 9 →
  pcs s' = <[i := pc']> (pcs s) → length (forks s') = n →
  lock s' + hl pc' = lock s + hl pc →
  (∀ j, j < n → forks s' !!! j + ind (j =? i) * hL pc' + ind (j =? right n i) * hR pc'
              = forks s !!! j + ind (j =? i) * hL pc + ind (j =? right n i) * hR pc) →
  inv n s'.
Proof.
  intros [Hn Hp Hf Hr Hl Hk] Hpc Hle Hp' Hf' Hl' Hc.
  assert (Hi : i < n) by (rewrite <- Hp; by eapply lookup_lt_Some).
  split; [done|by rewrite Hp', length_insert|done| | |].
  - rewrite Hp'. intros x (j & Hj)%list_elem_of_lookup. destruct (decide (j = i)) as [->|Hne].
    + rewrite list_lookup_insert_eq in Hj by lia. congruence.
    + rewrite list_lookup_insert_ne in Hj by done. apply Hr. by eapply list_elem_of_lookup_2.
  - pose proof (weigh_insert hl _ _ _ pc' Hpc). rewrite Hp'. lia.
  - intros k Hkn. specialize (Hk k Hkn). specialize (Hc (right n k) (right_lt n k Hn)).
    rewrite Hp'. assert (Hpt : pcs s !!! i = pc) by (by apply list_lookup_total_correct).
    pose proof (right_inj n k i Hkn Hi) as Hinj. pose proof (right_ne n i Hn Hi) as Hne.
    destruct (decide (k = i)) as [->|Hki].
    + rewrite list_lookup_total_insert_eq by lia. rewrite list_lookup_total_insert_ne by done.
      rewrite Nat.eqb_refl, (proj2 (Nat.eqb_neq _ _) Hne) in Hc. rewrite Hpt in Hk. cbn [ind] in Hc. lia.
    + rewrite (list_lookup_total_insert_ne (pcs s)) by done.
      rewrite (proj2 (Nat.eqb_neq (right n k) (right n i))) in Hc by (intros ?; auto).
      destruct (Nat.eqb_spec (right n k) i) as [Hrk|Hrk]; cbn [ind] in Hc.
      * rewrite Hrk in *. rewrite list_lookup_total_insert_eq by lia. rewrite Hpt in Hk. lia.
      * rewrite list_lookup_total_insert_ne by done. lia.
Qed.

Lemma sem_wait_fork i s s' : sem_wait (Fork i) s = Some s' →
  pcs s' = pcs s ∧ lock s' = lock s ∧ length (forks s') = length (forks s) ∧
  ∀ j, forks s' !!! j + ind (j =? i) = forks s !!! j.
Proof.
  cbn. destruct (forks s !! i) as [[|v]|] eqn:E; try done. intros [= <-]; cbn.
  split_and!; [done|done|apply length_insert|]. intros j. destruct (Nat.eqb_spec j i) as [->|Hne]; cbn.
  - rewrite list_lookup_total_insert_eq by (by eapply lookup_lt_Some).
    apply list_lookup_total_correct in E. lia.
  - rewrite list_lookup_total_insert_ne by done. lia.
Qed.

Lemma sem_post_fork i s s' : sem_post (Fork i) s = Some s' →
  pcs s' = pcs s ∧ lock s' = lock s ∧ length (forks s') = length (forks s) ∧
  ∀ j, forks s' !!! j = forks s !!! j + ind (j =? i).
Proof.
  cbn. destruct (forks s !! i) as [v|] eqn:E; try done. intros [= <-]; cbn.
  split_and!; [done|done|apply length_insert|]. intros j. destruct (Nat.eqb_spec j i) as [->|Hne]; cbn.
  - rewrite list_lookup_total_insert_eq by (by eapply lookup_lt_Some).
    apply list_lookup_total_correct in E. lia.
  - rewrite list_lookup_total_insert_ne by done. lia.
Qed.

(** How a statement changes the semaphores. *)
Lemma step_thread_inv n i s s' : inv n s → step_thread i s = Some s' → inv n s'.
Proof.
  intros Hi. unfold step_thread. destruct (pcs s !! i) as [pc|] eqn:Hpc; [|done]. cbn [mbind option_bind].
  rewrite (i_pcs _ _ Hi).
  assert (Hcase : pc = 0 ∨ pc = 1 ∨ pc = 2 ∨ pc = 3 ∨ pc = 4 ∨ pc = 5 ∨ pc = 6 ∨ pc = 7 ∨ pc = 8 ∨ pc = 9).
  { pose proof (i_range _ _ Hi pc ltac:(by eapply list_elem_of_lookup_2)). lia. }
  destruct_or! Hcase; subst pc; cbn [philosopher lookup list_lookup mbind option_bind]; [..|done];
    destruct (exec_stmt _ _ s) as [s1|] eqn:E; try done; cbn [exec_stmt mbind option_bind] in *;
    intros [= <-]; fold (right n i) in *.
  all: try (apply sem_wait_fork in E as (Hp & Hl & Hfl & Hj)).
  all: try (apply sem_post_fork in E as (Hp & Hl & Hfl & Hj)).
  all: try (cbn in E; try destruct (Nat.eqb_spec (lock s) 0); simplify_eq).
  all: match goal with |- inv _ (mk_state _ _ (<[_ := ?p]> _) _) => apply (inv_move _ _ _ _ _ p Hi Hpc) end.
  all: cbn [pcs forks lock]; rewrite ?Hp, ?Hl, ?Hfl; try done; try lia; try apply Hi.
  all: unfold hl, hL, hR; cbn; try lia.
  all: intros j _; specialize (Hj j); lia.
Qed.

Lemma table_start_inv n : 2 ≤ n → inv n (run_all_threads n).
Proof.
  intros Hn. split; cbn; [done|apply length_replicate|apply length_replicate| | |].
  - intros pc [-> _]%elem_of_replicate. lia.
  - rewrite weigh_replicate. cbn. lia.
  - intros k Hk. pose proof (right_lt n k Hn). by rewrite !lookup_total_replicate_2.
Qed.

Lemma table_reachable_inv n s : 2 ≤ n → rtc step (run_all_threads n) s → inv n s.
Proof.
  intros Hn H. assert (Hi := table_start_inv n Hn).
  induction H as [|s1 s2 s3 [i s' E] _ IH]; [done|]. apply IH. by eapply step_thread_inv.
Qed.

(** ** Progress *)

(** A set of philosophers closed under taking the right neighbour is everybody. *)
Lemma right_closed n (Q : nat → Prop) i : 2 ≤ n → i < n → Q i →
  (∀ k, k < n → Q k → Q (right n k)) → ∀ k, k < n → Q k.
Proof.
  intros Hn Hi Hq Hstep.
  assert (Hfwd : ∀ d, i + d < n → Q (i + d)).
  { induction d as [|d IH]; intros Hd; [by rewrite Nat.add_0_r|].
    specialize (Hstep (i + d) ltac:(lia) (IH ltac:(lia))). rewrite right_cases in Hstep by lia.
    destruct (Nat.eqb_spec (i + d + 1) n); [lia|]. by replace (i + S d) with (i + d + 1) by lia. }
  assert (H0 : Q 0).
  { specialize (Hfwd (n - 1 - i) ltac:(lia)). replace (i + (n - 1 - i)) with (n - 1) in Hfwd by lia.
    specialize (Hstep (n - 1) ltac:(lia) Hfwd). rewrite right_cases in Hstep by lia.
    destruct (Nat.eqb_spec (n - 1 + 1) n); [done|lia]. }
  induction k as [|k IH]; intros Hk; [done|]. specialize (Hstep k ltac:(lia) (IH ltac:(lia))).
  rewrite right_cases in Hstep by lia. destruct (Nat.eqb_spec (k + 1) n); [lia|].
  by replace (S k) with (k + 1) by lia.
Qed.

(** Which threads can run. *)
Definition enabled (n : nat) (s : state) (i : nat) : bool :=
  match pcs s !!! i with
  | 1 => negb (lock s =? 0)
  | 2 => negb (forks s !!! i =? 0)
  | 3 => negb (forks s !!! right n i =? 0)
  | pc => pc <? 9
  end.

Lemma enabled_step n s i : inv n s → i < n → enabled n s i = true → ∃ s', step_thread i s = Some s'.
Proof.
  intros Hi Hin. unfold enabled, step_thread.
  destruct (lookup_lt_is_Some_2 (pcs s) i) as [pc Hpc]; [rewrite (i_pcs _ _ Hi); lia|].
  rewrite Hpc, (list_lookup_total_correct _ _ _ Hpc), (i_pcs _ _ Hi). cbn [mbind option_bind].
  assert (Hf : ∀ j, j < n → ∃ v, forks s !! j = Some v ∧ forks s !!! j = v).
  { intros j Hj. destruct (lookup_lt_is_Some_2 (forks s) j) as [v Hv]; [rewrite (i_forks _ _ Hi); lia|].
    exists v. split; [done|by apply list_lookup_total_correct]. }
  pose proof (right_lt n i (i_n _ _ Hi)) as Hr. unfold right in Hr.
  destruct (Hf i Hin) as (vi & Hvi & Hti), (Hf _ Hr) as (vr & Hvr & Htr). unfold right. rewrite Hti, Htr.
  do 9 (destruct pc as [|pc]; [cbn -[Nat.modulo]; rewrite ?Hvi, ?Hvr; intros He;
    try (destruct (lock s =? 0); [done|]); try (destruct vi; [done|]); try (destruct vr; [done|]); by eexists|]).
  intros He%Nat.ltb_lt. lia.
Qed.

Lemma pc_total n s pc : inv n s → pc ∈ pcs s → ∃ i, i < n ∧ pcs s !!! i = pc.
Proof.
  intros Hi (i & Hpc)%list_elem_of_lookup. exists i. rewrite <- (i_pcs _ _ Hi).
  split; [by eapply lookup_lt_Some|by apply list_lookup_total_correct].
Qed.

(** Where a thread that cannot run is. *)
Lemma blocked_at n s i : inv n s → i < n → enabled n s i = false →
  pcs s !!! i = 1 ∧ lock s = 0 ∨ pcs s !!! i = 2 ∧ forks s !!! i = 0 ∨
  pcs s !!! i = 3 ∧ forks s !!! right n i = 0 ∨ pcs s !!! i = 9.
Proof.
  intros Hi Hin He. unfold enabled in He.
  assert (Hle : pcs s !!! i ≤ 9).
  { apply (i_range _ _ Hi), list_elem_of_lookup_total_2. rewrite (i_pcs _ _ Hi). lia. }
  destruct (pcs s !!! i) as [|[|[|[|pc]]]]; [done|..].
  1-3: apply negb_false_iff, Nat.eqb_eq in He; auto.
  apply Nat.ltb_ge in He. lia.
Qed.

Lemma some_enabled n s : inv n s → (∀ i, i < n → enabled n s i = false) → finished s.
Proof.
  intros Hi Hno. pose proof (i_n _ _ Hi) as Hn.
  assert (HA : ∀ i, i < n → _) by exact (λ i Hin, blocked_at n s i Hi Hin (Hno i Hin)). cbn beta in HA.
  assert (HB : ∀ i, i < n → pcs s !!! i ≠ 2).
  { intros i Hin H2. destruct (HA i Hin) as [[? _]|[[_ Hf]|[[? _]|?]]]; [lia| |lia..].
    destruct (right_surj n i Hn Hin) as (p & Hp & Hpi). pose proof (i_fork _ _ Hi p Hp) as Hfp.
    rewrite Hpi, H2, Hf in Hfp. destruct (HA p Hp) as [[E _]|[[E _]|[[E _]|E]]]; by rewrite E in Hfp. }
  assert (HC : ∀ i, i < n → pcs s !!! i ≠ 3).
  { intros i Hin H3. assert (Hall : ∀ k, k < n → pcs s !!! k = 3).
    { apply (right_closed n (λ k, pcs s !!! k = 3) i Hn Hin H3). intros k Hk H3k.
      pose proof (right_lt n k Hn) as Hr. pose proof (i_fork _ _ Hi k Hk) as Hfk.
      destruct (HA k Hk) as [[? _]|[[? _]|[[_ Hf]|?]]]; [lia..| |lia]. rewrite H3k, Hf in Hfk.
      destruct (HA _ Hr) as [[E _]|[[E _]|[[E _]|E]]]; rewrite E in Hfk |- *; done. }
    pose proof (i_lock _ _ Hi) as Hl. rewrite (weigh_full hl (pcs s) 1), (i_pcs _ _ Hi) in Hl; [lia|].
    intros pc (k & Hk & <-)%(pc_total n s pc Hi). by rewrite Hall. }
  assert (HD : ∀ i, i < n → pcs s !!! i = 1 ∧ lock s = 0 ∨ pcs s !!! i = 9).
  { intros i Hin. specialize (HA i Hin). specialize (HB i Hin). specialize (HC i Hin). naive_solver. }
  pose proof (i_lock _ _ Hi) as Hl. rewrite (weigh_full hl (pcs s) 0) in Hl.
  - intros pc (k & Hk & <-)%(pc_total n s pc Hi). destruct (HD k Hk) as [[_ ?]|?]; lia.
  - intros pc (k & Hk & <-)%(pc_total n s pc Hi). by destruct (HD k Hk) as [[-> _]| ->].
Qed.

Lemma table_progress n s : inv n s → finished s ∨ ∃ i s', step_thread i s = Some s'.
Proof.
  intros Hi. destruct (decide (Forall (λ i, enabled n s i = false) (seq 0 n))) as [Hf|Hf].
  - left. apply (some_enabled n s Hi). intros i Hin. rewrite Forall_forall in Hf. apply Hf.
    apply elem_of_seq. lia.
  - right. apply not_Forall_Exists in Hf; [|apply _]. apply Exists_exists in Hf as (i & Hin & He).
    apply elem_of_seq in Hin. apply not_false_is_true in He.
    destruct (enabled_step n s i Hi ltac:(lia) He) as [s' E]. eauto.
Qed.

(** Every step brings a thread closer to its end. *)
Definition todo (s : state) : nat := weigh (λ pc, 9 - pc) (pcs s).

Lemma step_todo n i s s' : inv n s → step_thread i s = Some s' → S (todo s') = todo s.
Proof.
  intros Hi E. pose proof (step_thread_inv n i s s' Hi E) as Hi'. revert E. unfold step_thread, todo.
  destruct (pcs s !! i) as [pc|] eqn:Hpc; [|done]. cbn [mbind option_bind].
  destruct (philosopher _ _ !! pc) as [c|] eqn:Hc; [|done]. cbn.
  assert (Hlt : pc < 9) by (by apply lookup_lt_Some in Hc).
  destruct (exec_stmt i c s) as [s1|] eqn:E; [|done]. cbn. intros [= <-]. cbn [pcs].
  assert (Hp : pcs s1 = pcs s).
  { destruct c as [| |[|j]|[|j]]; cbn in E; repeat destr_match; simplify_eq; done. }
  rewrite Hp. pose proof (weigh_insert (λ pc, 9 - pc) (pcs s) i pc (S pc) Hpc) as Hw.
  cbn beta in Hw. lia.
Qed.

Lemma run_inv n sched : ∀ s s', inv n s → run sched s = Some s' →
  inv n s' ∧ todo s' + length sched = todo s.
Proof.
  induction sched as [|i sched IH]; intros s s' Hi; cbn [run].
  - intros [= <-]. cbn. split; [done|lia].
  - destruct (step_thread i s) as [s1|] eqn:E; [|done]. cbn. intros Hr.
    pose proof (step_todo n i s s1 Hi E). destruct (IH s1 s' (step_thread_inv n i s s1 Hi E) Hr).
    split; [done|lia].
Qed.

Lemma table_run_reach sched : ∀ s s', run sched s = Some s' → rtc step s s'.
Proof.
  induction sched as [|i sched IH]; intros s s'; cbn [run]; [by intros [= ->]|].
  destruct (step_thread i s) as [s1|] eqn:E; [|done]. intros H.
  eapply rtc_l; [by econstructor|by apply IH].
Qed.

(** ** Theorems *)

(** Neighbours never eat at the same time, whatever the scheduling: in every
    reachable state of at least two philosophers, a thread at its [eat] statement
    excludes its right neighbour from its own. *)
Theorem neighbours_exclude n s i : 2 ≤ n → i < n →
  rtc step (run_all_threads n) s → eating s i → ¬ eating s (right n i).
Proof.
  intros Hn Hi Hr. pose proof (table_reachable_inv n s Hn Hr) as Hinv. unfold eating. intros H1 H2.
  pose proof (i_fork _ _ Hinv i Hi) as Hf.
  rewrite (list_lookup_total_correct _ _ _ H1), (list_lookup_total_correct _ _ _ H2) in Hf. cbn in Hf. lia.
Qed.

Lemma neighbours_exclude_witness :
  ∃ s, run [0; 0; 0; 0; 1; 1] (run_all_threads 5) = Some s ∧ eating s 0 ∧ ¬ eating s (right 5 0).
Proof.
  assert (Hr : ∃ s, run [0; 0; 0; 0; 1; 1] (run_all_threads 5) = Some s ∧
                    rtc step (run_all_threads 5) s ∧ eating s 0).
  { eexists. split; [vm_compute; reflexivity|]. split; [|reflexivity].
    apply (table_run_reach [0; 0; 0; 0; 1; 1]). vm_compute. reflexivity. }
  destruct Hr as (s & E & Hr & He). exists s. split; [exact E|]. split; [exact He|].
  apply (neighbours_exclude 5 s 0); [lia|lia|exact Hr|exact He].
Defined.

(** C5: the table never deadlocks.  In every reachable state of at least two
    philosophers either all of them have finished or some thread can run. *)
Theorem philosophers_no_deadlock n s : 2 ≤ n → rtc step (run_all_threads n) s →
  finished s ∨ ∃ s', step s s'.
Proof.
  intros Hn Hr. destruct (table_progress n s (table_reachable_inv n s Hn Hr)) as [|(i & s' & E)]; [by left|].
  right. exists s'. by econstructor.
Qed.

Lemma philosophers_no_deadlock_witness :
  finished (run_all_threads 5) ∨ ∃ s', step (run_all_threads 5) s'.
Proof. apply (philosophers_no_deadlock 5 (run_all_threads 5)); [lia|apply rtc_refl]. Defined.

(** C23: every philosopher finishes.  No schedule is longer than nine statements a
    philosopher, and a schedule that cannot be continued has brought every thread to
    its end, with every fork back on the table and the lock at its initial value. *)
Theorem philosophers_finish n sched s : 2 ≤ n → run sched (run_all_threads n) = Some s →
  length sched ≤ 9 * n ∧
  ((∀ i, step_thread i s = None) →
   finished s ∧ length sched = 9 * n ∧ lock s = n - 1 ∧ ∀ k, k < n → forks s !!! right n k = 1).
Proof.
  intros Hn Hr. destruct (run_inv n sched _ _ (table_start_inv n Hn) Hr) as [Hi Ht].
  assert (Ht0 : todo (run_all_threads n) = 9 * n) by (unfold todo; cbn; rewrite weigh_replicate; lia).
  split; [lia|]. intros Hend. destruct (table_progress n s Hi) as [Hfin|(i & s' & E)]; [|by rewrite Hend in E].
  assert (Hpc : ∀ k, k < n → pcs s !!! k = 9).
  { intros k Hk. apply Hfin, list_elem_of_lookup_total_2. rewrite (i_pcs _ _ Hi). lia. }
  split_and!; [done| | |].
  - rewrite Ht0 in Ht. unfold todo in Ht. rewrite (weigh_full _ (pcs s) 0) in Ht; [lia|]. intros pc ->%Hfin. done.
  - pose proof (i_lock _ _ Hi) as Hl. rewrite (weigh_full hl (pcs s) 0) in Hl; [lia|]. by intros pc ->%Hfin.
  - intros k Hk. pose proof (i_fork _ _ Hi k Hk) as Hf.
    rewrite (Hpc k Hk), (Hpc _ (right_lt n k Hn)) in Hf. cbn in Hf. lia.
Qed.

Lemma philosophers_finish_witness :
  ∃ s, run (replicate 9 0 ++ replicate 9 1) (run_all_threads 2) = Some s ∧ finished s.
Proof.
  eexists. split; [vm_compute; reflexivity|].
  match goal with |- finished ?s =>
    apply (philosophers_finish 2 (replicate 9 0 ++ replicate 9 1) s); [lia|vm_compute; reflexivity|]
  end.
  intros i. do 2 (destruct i as [|i]; [vm_compute; reflexivity|]). vm_compute. reflexivity.
Defined.
