(* ===== verification/ShmRing.v ===== *)
(** * Producer and consumer over shared memory
    (src/system/ipc/sharedmemory/shm_producer.c, shm_consumer.c)

    A ring of four integers in a shared memory segment, filled by a producer process
    and emptied by a consumer process under three named semaphores: [empty] counts free
    slots, [full] counts filled ones, [mutex] guards the ring.  The ring functions and
    the start-up code are programs; the processes are a step relation. *)

From Stdlib Require Import ZArith Lia ZifyBool.
From stdpp Require Import base list strings numbers relations.
From S2P Require Import Prelude Posix.

(** ** Data *)

Definition QUEUE_SIZE : Z := 4.

(** [struct queue]. *)
Record queue := mk_ring { arr : list Z; head : Z; tail : Z }.

(** The shared segment: [None] while [q] is NULL. *)
Abbreviation SM := (M (world (option queue))).

Definition arr_get (a : list Z) (i : Z) : option Z :=
  if (0 <=? i) && (i <? QUEUE_SIZE) then a !! Z.to_nat i else None.
Definition arr_set (a : list Z) (i v : Z) : option (list Z) :=
  if (0 <=? i) && (i <? QUEUE_SIZE) then Some (<[Z.to_nat i := v]> a) else None.

(** ** Code *)

Section code.
Context {os : OS}.

Definition queue_init : SM Z :=
  q ← get_glob;
  match q with
  | None => mret (-1)
  | Some q =>
      set_glob (Some (mk_ring (arr q) (-1) (tail q)));;
      set_glob (Some (mk_ring (arr q) (-1) (-1)));;
      mret 0
  end.

Definition queue_add (val : Z) : SM Z :=
  q ← get_glob;
  match q with
  | None => mret (-1)
  | Some q =>
      if Z.rem (tail q + 1) QUEUE_SIZE =? head q then
        sys_ (Printf "Queue is full !!!" []);; mret 0
      else
        let q' := if (head q =? -1) && (tail q =? -1) then mk_ring (arr q) 0 0
                  else mk_ring (arr q) (head q) (Z.rem (tail q + 1) QUEUE_SIZE) in
        a ← expect (arr_set (arr q') (tail q') val);
        set_glob (Some (mk_ring a (head q') (tail q')));;
        mret 0
  end.

Definition queue_delete : SM Z :=
  q ← get_glob;
  match q with
  | None => mret (-1)
  | Some q =>
      if head q =? -1 then sys_ (Printf "Queue is empty !!!" []);; mret 0
      else
        v ← expect (arr_get (arr q) (head q));
        sys_ (Printf "Deleting %d from queue" [v]);;
        (if head q =? tail q then set_glob (Some (mk_ring (arr q) (-1) (-1)))
         else set_glob (Some (mk_ring (arr q) (Z.rem (head q + 1) QUEUE_SIZE) (tail q))));;
        mret 0
  end.

(** The loop visits at most [QUEUE_SIZE] slots of a well-formed ring. *)
Definition queue_print : SM Z :=
  q ← get_glob;
  match q with
  | None => mret (-1)
  | Some q =>
      if head q =? -1 then sys_ (Printf "Queue is empty!!!" []);; mret 0
      else
        loop (Z.to_nat QUEUE_SIZE) (λ i,
          v ← expect (arr_get (arr q) i);
          sys_ (Printf "%d " [v]);;
          if i =? tail q then mret (inr tt)
          else mret (inl (Z.rem (i + 1) QUEUE_SIZE))) (head q);;
        sys_ (Printf "" []);;
        mret 0
  end.

(** Attach the segment: [q] points to whatever the segment holds. *)
Definition attach (out : list Z) : queue :=
  mk_ring (take (Z.to_nat QUEUE_SIZE) (out ++ replicate (Z.to_nat QUEUE_SIZE) 0))
          (out !!! 4%nat) (out !!! 5%nat).

Definition sizeof_queue : Z := 24.

(** The start of [main] of both programs, up to the loop; [create] is the producer,
    which makes the segment and initialises the ring. *)
Definition shm_main (create : bool) : SM unit :=
  r ← sys (Sigaction 2 "signal_handler");
  if negb (r_ret r =? 0) then
    sys_ (Printf "Error in registering signal" []);; exit_with 1
  else
    k ← sys (Ext "ftok" [1]);
    if r_ret k <? 0 then sys_ (Printf "Error [%d] [%s] in ftok" [r_errno k]);; exit_with 1
    else
      sys_ (Printf "shm_key is [%d]" [r_ret k]);;
      id ← (if create then
              (* IPC_CREAT | IPC_EXCL | 0666 *)
              s ← sys (Ext "shmget" [r_ret k; sizeof_queue; 1974]);
              if r_ret s <? 0 then
                if r_errno s =? EEXIST then
                  sys_ (Printf "Shared memory segment exists..." []);;
                  (* IPC_CREAT | 0666 *)
                  s ← sys (Ext "shmget" [r_ret k; sizeof_queue; 950]);
                  if r_ret s <? 0 then
                    sys_ (Printf "Error [%d] [%s] in shmget" [r_errno s]);; exit_with 1
                  else mret (r_ret s)
                else sys_ (Printf "Error [%d] [%s] in shmget" [r_errno s]);; exit_with 1
              else mret (r_ret s)
            else
              s ← sys (Ext "shmget" [r_ret k; sizeof_queue; 438]);
              if r_ret s <? 0 then
                sys_ (Printf "Error [%d] [%s] in shmget" [r_errno s]);; exit_with 1
              else mret (r_ret s));
      sys_ (Printf "shm_id is [%d]" [id]);;
      a ← sys (Ext "shmat" [id; NULL; 0]);
      if r_ret a =? -1 then sys_ (Printf "Error [%d] [%s] in shmat" [r_errno a]);; exit_with 1
      else
        set_glob (Some (attach (r_out a)));;
        (if create then queue_init;; mret tt else mret tt);;
        sys_ (Ext "sem_open" [0; 0]);;
        sys_ (Ext "sem_open" [1; QUEUE_SIZE]);;
        sys_ (Ext "sem_open" [2; 1]).

(** The consumer's start. *)
Definition consumer_start : SM unit := shm_main false.

(** Both programs detach the segment and die of the signal. *)
Definition signal_handler (signum : Z) : SM unit :=
  sys_ (Printf "Received signal [%d] [%s]" [signum]);;
  d ← sys (Ext "shmdt" []);
  (if r_ret d <? 0 then sys_ (Printf "Error [%d] [%s] in shmdt" [r_errno d]) else mret tt);;
  sys_ (SignalDfl signum);;
  sys_ (Raise signum).

(** What the loops do with the ring under [mutex]. *)
Definition produce (val : Z) : SM unit := queue_add val;; queue_print;; mret tt.
Definition consume : SM unit := queue_delete;; queue_print;; mret tt.

End code.

(** ** The ring refines a bounded queue *)

Record ring_rep (q : queue) (l : list Z) : Prop := {
  rr_arr : length (arr q) = 4%nat;
  rr_len : (length l ≤ 4)%nat;
  rr_idx : l = [] ∧ head q = -1 ∧ tail q = -1 ∨
           l ≠ [] ∧ 0 ≤ head q < 4 ∧ tail q = (head q + Z.of_nat (length l) - 1) mod 4;
  rr_val : ∀ k x, l !! k = Some x → arr q !! Z.to_nat ((head q + Z.of_nat k) mod 4) = Some x }.

Lemma rem4 x : 0 ≤ x → Z.rem x QUEUE_SIZE = x mod 4.
Proof. intros. by apply Z.rem_mod_nonneg. Qed.

(** Slots at different distances from the head are different. *)
Lemma slot_inj h i j : 0 ≤ i < 4 → 0 ≤ j < 4 → (h + i) mod 4 = (h + j) mod 4 → i = j.
Proof.
  intros Hi Hj E. pose proof (Z.div_mod (h + i) 4 ltac:(lia)). pose proof (Z.div_mod (h + j) 4 ltac:(lia)). lia.
Qed.

Lemma slot_range x : 0 ≤ x mod 4 < 4.
Proof. apply Z.mod_pos_bound. lia. Qed.

Section ring.
Context {os : OS}.

Lemma queue_init_wp tr q : length (arr q) = 4%nat →
  wp queue_init (λ r w', r = 0 ∧ w_trace w' = tr ∧ ∃ q', w_glob w' = Some q' ∧ ring_rep q' [])
     (mk_world tr (Some q)).
Proof.
  intros Ha. unfold queue_init. wp_run. split_and!; [done|done|]. eexists. split; [done|].
  split; cbn; [done|lia|by left|done].
Qed.

Lemma queue_add_wp tr q l v : ring_rep q l → (length l < 4)%nat →
  wp (queue_add v) (λ r w', r = 0 ∧ w_trace w' = tr ∧
    ∃ q', w_glob w' = Some q' ∧ ring_rep q' (l ++ [v])) (mk_world tr (Some q)).
Proof.
  intros [Ha Hl Hi Hv] Hlt. unfold queue_add. wp_run.
  - exfalso. destruct Hi as [(-> & Hh & Ht)|(Hne & Hh & Ht)].
    + by rewrite Ht, Hh in E.
    + destruct l as [|x l]; [done|]. cbn [length] in *. pose proof (slot_range (head q + Z.of_nat (S (length l)) - 1)).
      rewrite rem4 in E by lia. apply Z.eqb_eq in E. rewrite Ht, Zplus_mod_idemp_l in E.
      assert (Z.of_nat (S (length l)) = 0); [|lia]. apply (slot_inj (head q)); [lia|lia|].
      rewrite Z.add_0_r, (Z.mod_small (head q)) by lia. rewrite <- E at 2. f_equal. lia.
  - set (q' := if _ : bool then _ else _).
    assert (Hq' : arr q' = arr q ∧ 0 ≤ head q' < 4 ∧ tail q' = (head q' + Z.of_nat (length l)) mod 4 ∧
                  (l ≠ [] → head q' = head q)).
    { subst q'. destruct Hi as [(-> & -> & ->)|(Hne & Hh & Ht)]; [done|].
      replace (head q =? -1) with false by lia. cbn. split_and!; [done|lia|lia| |done].
      pose proof (slot_range (head q + Z.of_nat (length l) - 1)).
      rewrite rem4 by lia. rewrite Ht, Zplus_mod_idemp_l. f_equal. lia. }
    destruct Hq' as (Ha' & Hh' & Ht' & Hne').
    unfold arr_set. pose proof (slot_range (head q' + Z.of_nat (length l))) as Hs. rewrite <- Ht' in Hs.
    replace ((0 <=? tail q') && (tail q' <? QUEUE_SIZE)) with true by (unfold QUEUE_SIZE; lia).
    wp_run. split_and!; [done|done|]. eexists. split; [done|]. rewrite Ha'. split; cbn.
    + by rewrite length_insert.
    + rewrite length_app. cbn. lia.
    + right. rewrite length_app. cbn. split_and!; [by destruct l|lia|lia|]. rewrite Ht'. f_equal. lia.
    + intros k x Hk. apply lookup_snoc_Some in Hk as [[Hk Hlk]|[-> ->]].
      * assert (Hne : l ≠ []) by (by intros ->). rewrite (Hne' Hne) in *. rewrite list_lookup_insert_ne; [by apply Hv|].
        intros Eq. pose proof (slot_range (head q + Z.of_nat k)).
        apply (f_equal Z.of_nat) in Eq. rewrite !Z2Nat.id, Ht' in Eq by lia.
        apply slot_inj in Eq; lia.
      * rewrite <- Ht'. apply list_lookup_insert_eq. lia.
Qed.

Lemma arr_get_slot q l k x : ring_rep q l → l !! k = Some x → 0 ≤ head q →
  arr_get (arr q) ((head q + Z.of_nat k) mod 4) = Some x.
Proof.
  intros Hr Hk Hh. unfold arr_get. pose proof (slot_range (head q + Z.of_nat k)).
  replace ((0 <=? (head q + Z.of_nat k) mod 4) && ((head q + Z.of_nat k) mod 4 <? QUEUE_SIZE)) with true
    by (unfold QUEUE_SIZE; lia). by apply Hr.
Qed.

Lemma queue_delete_wp tr q v l : ring_rep q (v :: l) →
  wp queue_delete (λ r w', r = 0 ∧ ∃ q' p, w_glob w' = Some q' ∧ ring_rep q' l ∧
    w_trace w' = (Printf "Deleting %d from queue" [v], p) :: tr) (mk_world tr (Some q)).
Proof.
  intros Hr. pose proof Hr as [Ha Hl Hi Hv]. destruct Hi as [(Hnil & _)|(_ & Hh & Ht)]; [done|].
  pose proof (arr_get_slot q _ 0 v Hr eq_refl ltac:(lia)) as Hg. cbn in Hg.
  rewrite Z.add_0_r, Z.mod_small in Hg by lia. cbn [length] in *.
  unfold queue_delete. wp_run; [lia|]. rewrite Hg. wp_run; (split; [done|]); do 2 eexists; (split; [done|]);
    (split; [|done]).
  - assert (Hz : Z.of_nat (length l) = 0).
    { apply (slot_inj (head q)); [lia|lia|]. rewrite Z.add_0_r, (Z.mod_small (head q)) by lia.
      replace (head q + Z.of_nat (length l)) with (head q + Z.of_nat (S (length l)) - 1) by lia. lia. }
    destruct l; [|cbn in Hz; lia]. split; cbn; [done|lia|by left|done].
  - assert (Hl0 : l ≠ []).
    { intros ->. cbn in Ht. replace (head q + 1 - 1) with (head q) in Ht by lia.
      rewrite Z.mod_small in Ht by lia. lia. }
    rewrite rem4 by lia. pose proof (slot_range (head q + 1)). split; cbn; [done|lia| |].
    + right. split_and!; [done|lia|lia|]. rewrite Ht.
      replace ((head q + 1) mod 4 + Z.of_nat (length l) - 1) with ((head q + 1) mod 4 + (Z.of_nat (length l) - 1)) by lia.
      rewrite Zplus_mod_idemp_l. f_equal. lia.
    + intros k x Hk. rewrite Zplus_mod_idemp_l. specialize (Hv (S k) x Hk).
      by replace (head q + 1 + Z.of_nat k) with (head q + Z.of_nat (S k)) by lia.
Qed.

(** [queue_print] writes the elements from the oldest to the newest and its loop ends. *)
Definition prints (l : list Z) (ps : list reply) : list event :=
  zip_with (λ v p, (Printf "%d " [v], p)) l ps.

Lemma print_loop_wp q l0 l : ∀ tr k fuel, ring_rep q (l0 ++ l) → l ≠ [] → k = length l0 →
  (length l ≤ fuel)%nat →
  wp (loop fuel (λ i,
          v ← expect (arr_get (arr q) i);
          sys_ (Printf "%d " [v]);;
          if i =? tail q then mret (inr tt)
          else mret (inl (Z.rem (i + 1) QUEUE_SIZE))) ((head q + Z.of_nat k) mod 4))
     (λ _ w', w_glob w' = Some q ∧ ∃ ps, length ps = length l ∧
        w_trace w' = rev (prints l ps) ++ tr) (mk_world tr (Some q)).
Proof.
  revert l0. induction l as [|v l IH]; intros l0 tr k fuel Hr Hne -> Hf; [done|].
  destruct fuel as [|fuel]; [cbn in Hf; lia|]. cbn [loop length] in *.
  pose proof (rr_len _ _ Hr) as Hlen. rewrite length_app in Hlen. cbn [length] in Hlen.
  destruct (rr_idx _ _ Hr) as [(Hnil & _)|(_ & Hh & Ht)]; [by destruct l0|].
  rewrite length_app in Ht. cbn [length] in Ht.
  assert (Hg : arr_get (arr q) ((head q + Z.of_nat (length l0)) mod 4) = Some v).
  { apply (arr_get_slot _ _ _ _ Hr); [|lia]. by rewrite lookup_app_r, Nat.sub_diag by lia. }
  apply wp_bind. rewrite Hg. wp_run.
  - assert (Hl : l = []).
    { destruct l as [|x l]; [done|]. exfalso. cbn [length] in *. apply Z.eqb_eq in E. rewrite Ht in E.
      replace (head q + Z.of_nat (length l0 + S (S (length l))) - 1)
        with (head q + Z.of_nat (length l0 + S (length l))) in E by lia.
      apply slot_inj in E; lia. }
    subst l. split; [done|]. by exists [r].
  - assert (Hl : l ≠ []).
    { intros ->. apply Z.eqb_neq in E. apply E. rewrite Ht. f_equal. cbn. lia. }
    pose proof (slot_range (head q + Z.of_nat (length l0))).
    rewrite rem4, Zplus_mod_idemp_l by lia.
    replace (head q + Z.of_nat (length l0) + 1) with (head q + Z.of_nat (S (length l0))) by lia.
    eapply wp_mono.
    + apply (IH (l0 ++ [v])); [by rewrite <- app_assoc|done|rewrite length_app; cbn; lia|lia].
    + intros [] w' (Hg' & ps & Hps & Htr). split; [done|]. exists (r :: ps). split; [cbn; lia|].
      rewrite Htr. cbn. by rewrite <- app_assoc.
Qed.

Lemma queue_print_wp tr q l : ring_rep q l →
  wp queue_print (λ r w', r = 0 ∧ w_glob w' = Some q ∧ ∃ p ps, length ps = length l ∧
    w_trace w' = (Printf (if bool_decide (l = []) then "Queue is empty!!!" else "") [], p)
                 :: rev (prints l ps) ++ tr) (mk_world tr (Some q)).
Proof.
  intros Hr. unfold queue_print. wp_run.
  - destruct (rr_idx _ _ Hr) as [(-> & Hh & Ht)|(Hne & Hh & Ht)]; [|lia].
    split_and!; [done|done|]. by exists r, [].
  - destruct (rr_idx _ _ Hr) as [(-> & Hh & Ht)|(Hne & Hh & Ht)]; [lia|].
    pose proof (print_loop_wp q [] l tr 0 (Z.to_nat QUEUE_SIZE) Hr Hne eq_refl (rr_len _ _ Hr)) as Hp.
    rewrite Z.add_0_r, Z.mod_small in Hp by lia. eapply wp_mono; [exact Hp|].
    intros [] [tr' g'] (Hg & ps & Hps & Htr). cbn [w_trace w_glob] in *. wp_run.
    split_and!; [done|done|]. rewrite bool_decide_false by done. exists r, ps. split; [done|]. by rewrite Htr.
Qed.

End ring.

(** ** The processes *)

Module Procs.
Section procs.
Context {os : OS}.
#[local] Open Scope nat_scope.

(** A process is a role and a place in its program: in its loop before the first [sem_wait] (0), before
    [sem_wait(mutex)] (1), in the critical section (2), before [sem_post(mutex)] (3), before the
    last [sem_post] (4); or in its start-up (5), which ends with [queue_init] in a producer, without any lock. *)
Inductive role := Producer | Consumer.

#[global] Instance role_eq_dec : EqDecision role.
Proof. solve_decision. Defined.

(** [m_produced] and [m_consumed] list the values that went through the critical
    sections, in order. *)
Record machine := mk_machine {
  m_world : world (option queue);
  m_empty : nat; m_full : nat; m_mutex : nat;
  m_procs : list (role * nat);
  m_produced : list Z; m_consumed : list Z }.

(** [sem_wait] blocks on 0. *)
Definition down (v : nat) : option nat := match v with 0 => None | S v => Some v end.

(** The value the next [queue_delete] removes. *)
Definition oldest (w : world (option queue)) : list Z :=
  match w_glob w with Some q => option_list (arr_get (arr q) (head q)) | None => [] end.

(** Process [i] runs its next statement; [val] is the next value of [rand]. *)
Definition step_proc (i : nat) (val : Z) (m : machine) : option machine :=
  let 'mk_machine w e f mu ps pr co := m in
  p ← ps !! i;
  match p with
  | (Producer, 0) => e ← down e; Some (mk_machine w e f mu (<[i := (Producer, 1)]> ps) pr co)
  | (Producer, 1) => mu ← down mu; Some (mk_machine w e f mu (<[i := (Producer, 2)]> ps) pr co)
  | (Producer, 2) =>
      match produce val w with
      | Ok _ w' => Some (mk_machine w' e f mu (<[i := (Producer, 3)]> ps) (pr ++ [val]) co)
      | _ => None
      end
  | (Producer, 3) => Some (mk_machine w e f (S mu) (<[i := (Producer, 4)]> ps) pr co)
  | (Producer, 4) => Some (mk_machine w e (S f) mu (<[i := (Producer, 0)]> ps) pr co)
  | (Producer, _) =>
      match queue_init w with
      | Ok _ w' => Some (mk_machine w' e f mu (<[i := (Producer, 0)]> ps) pr co)
      | _ => None
      end
  | (Consumer, 0) => f ← down f; Some (mk_machine w e f mu (<[i := (Consumer, 1)]> ps) pr co)
  | (Consumer, 1) => mu ← down mu; Some (mk_machine w e f mu (<[i := (Consumer, 2)]> ps) pr co)
  | (Consumer, 2) =>
      match consume w with
      | Ok _ w' => Some (mk_machine w' e f mu (<[i := (Consumer, 3)]> ps) pr (co ++ oldest w))
      | _ => None
      end
  | (Consumer, 3) => Some (mk_machine w e f (S mu) (<[i := (Consumer, 4)]> ps) pr co)
  | (Consumer, 4) => Some (mk_machine w (S e) f mu (<[i := (Consumer, 0)]> ps) pr co)
  | (Consumer, _) => Some (mk_machine w e f mu (<[i := (Consumer, 0)]> ps) pr co)
  end.

Inductive step (m : machine) : machine → Prop :=
| step_intro i val m' : step_proc i val m = Some m' → step m m'.

(** Fresh semaphores, and every process in its start-up. *)
Definition start (w : world (option queue)) (roles : list role) : machine :=
  mk_machine w (Z.to_nat QUEUE_SIZE) 0 1 (map (λ r, (r, 5)) roles) [] [].

(** *** Invariant *)

Definition producing (p : role * nat) : nat := match p with (Producer, (1 | 2)) => 1 | _ => 0 end.
Definition produced (p : role * nat) : nat := match p with (Producer, (3 | 4)) => 1 | _ => 0 end.
Definition consuming (p : role * nat) : nat := match p with (Consumer, (1 | 2)) => 1 | _ => 0 end.
Definition consumed (p : role * nat) : nat := match p with (Consumer, (3 | 4)) => 1 | _ => 0 end.
Definition inside (p : role * nat) : nat := match p with (_, (2 | 3)) => 1 | _ => 0 end.

(** A process that will not initialise the ring any more. *)
Definition pc_ok (p : role * nat) : Prop := p.2 ≤ 4 ∨ p = (Consumer, 5).

Record inv (q : queue) (l : list Z) (m : machine) : Prop := {
  i_glob : w_glob (m_world m) = Some q;
  i_rep : ring_rep q l;
  i_pc : ∀ p, p ∈ m_procs m → pc_ok p;
  i_full : length l = m_full m + weigh produced (m_procs m) + weigh consuming (m_procs m);
  i_empty : m_empty m + length l + weigh producing (m_procs m) + weigh consumed (m_procs m) = 4;
  i_mutex : m_mutex m + weigh inside (m_procs m) = 1;
  i_fifo : m_produced m = m_consumed m ++ l }.

Lemma insert_all (P : role * nat → Prop) (ps : list (role * nat)) i p x : (∀ p, p ∈ ps → P p) → P p →
  x ∈ <[i := p]> ps → P x.
Proof.
  intros H Hp (j & Hj)%list_elem_of_lookup. destruct (decide (j = i)) as [->|Hne].
  - apply list_lookup_insert_Some in Hj as [(_ & <- & _)|(? & _)]; done.
  - rewrite list_lookup_insert_ne in Hj by done. apply H. by eapply list_elem_of_lookup_2.
Qed.

(** A process moves without touching the ring. *)
Lemma inv_sem q l w e f mu ps pr co i p p' e' f' mu' :
  inv q l (mk_machine w e f mu ps pr co) → ps !! i = Some p → pc_ok p' →
  f' + produced p' + consuming p' = f + produced p + consuming p →
  e' + producing p' + consumed p' = e + producing p + consumed p →
  mu' + inside p' = mu + inside p →
  inv q l (mk_machine w e' f' mu' (<[i := p']> ps) pr co).
Proof.
  intros [Hg Hr Hpc Hf He Hm Hfi] Hp Hp' Hf' He' Hm'. cbn in *.
  pose proof (weigh_insert produced _ _ _ p' Hp). pose proof (weigh_insert consuming _ _ _ p' Hp).
  pose proof (weigh_insert producing _ _ _ p' Hp). pose proof (weigh_insert consumed _ _ _ p' Hp).
  pose proof (weigh_insert inside _ _ _ p' Hp).
  split; cbn; [done|done|by intros x; apply insert_all|lia|lia|lia|done].
Qed.

Lemma inv_produce q l w e f mu ps pr co i val w' :
  inv q l (mk_machine w e f mu ps pr co) → ps !! i = Some (Producer, 2) → produce val w = Ok tt w' →
  ∃ q', inv q' (l ++ [val]) (mk_machine w' e f mu (<[i := (Producer, 3)]> ps) (pr ++ [val]) co).
Proof.
  intros [Hg Hr Hpc Hf He Hm Hfi] Hp E. cbn in *.
  pose proof (weigh_insert produced _ _ _ (Producer, 3) Hp). pose proof (weigh_insert consuming _ _ _ (Producer, 3) Hp).
  pose proof (weigh_insert producing _ _ _ (Producer, 3) Hp). pose proof (weigh_insert consumed _ _ _ (Producer, 3) Hp).
  pose proof (weigh_insert inside _ _ _ (Producer, 3) Hp). pose proof (weigh_pos producing _ _ _ Hp). cbn in *.
  destruct w as [tr g]. cbn in Hg. subst g.
  assert (Hw : wp (produce val) (λ _ w', ∃ q', w_glob w' = Some q' ∧ ring_rep q' (l ++ [val])) (mk_world tr (Some q))).
  { unfold produce. apply wp_bind. eapply wp_mono; [apply (queue_add_wp tr q l val Hr); lia|].
    intros r [tr1 g1] (-> & _ & q' & Hq' & Hr'). cbn in Hq'. subst g1. apply wp_bind.
    eapply wp_mono; [by apply queue_print_wp|]. intros r2 w2 (_ & Hg2 & _). wp_run. eauto. }
  pose proof (wp_at _ _ _ _ _ Hw E) as (q' & Hq' & Hr'). exists q'.
  split; cbn; [done|done|intros x; apply insert_all; [done|left; cbn; lia]|..|by rewrite Hfi, app_assoc];
    rewrite ?length_app; cbn; lia.
Qed.

Lemma inv_consume q l w e f mu ps pr co i w' :
  inv q l (mk_machine w e f mu ps pr co) → ps !! i = Some (Consumer, 2) → consume w = Ok tt w' →
  ∃ q' v l', l = v :: l' ∧ oldest w = [v] ∧
    inv q' l' (mk_machine w' e f mu (<[i := (Consumer, 3)]> ps) pr (co ++ oldest w)).
Proof.
  intros [Hg Hr Hpc Hf He Hm Hfi] Hp E. cbn in *.
  pose proof (weigh_insert produced _ _ _ (Consumer, 3) Hp). pose proof (weigh_insert consuming _ _ _ (Consumer, 3) Hp).
  pose proof (weigh_insert producing _ _ _ (Consumer, 3) Hp). pose proof (weigh_insert consumed _ _ _ (Consumer, 3) Hp).
  pose proof (weigh_insert inside _ _ _ (Consumer, 3) Hp). pose proof (weigh_pos consuming _ _ _ Hp). cbn in *.
  destruct l as [|v l]; [cbn in *; lia|]. destruct w as [tr g]. cbn in Hg. subst g.
  assert (Hw : wp consume (λ _ w', ∃ q', w_glob w' = Some q' ∧ ring_rep q' l) (mk_world tr (Some q))).
  { unfold consume. apply wp_bind. eapply wp_mono; [apply (queue_delete_wp tr q v l Hr)|].
    intros r [tr1 g1] (-> & q' & p & Hq' & Hr' & _). cbn in Hq'. subst g1. apply wp_bind.
    eapply wp_mono; [by apply queue_print_wp|]. intros r2 w2 (_ & Hg2 & _). wp_run. eauto. }
  pose proof (wp_at _ _ _ _ _ Hw E) as (q' & Hq' & Hr').
  assert (Ho : oldest (mk_world tr (Some q)) = [v]).
  { unfold oldest. cbn. destruct (rr_idx _ _ Hr) as [(? & _)|(_ & Hh & _)]; [done|].
    pose proof (arr_get_slot q _ 0 v Hr eq_refl ltac:(lia)) as Hgt. cbn in Hgt.
    rewrite Z.add_0_r, Z.mod_small in Hgt by lia. by rewrite Hgt. }
  exists q', v, l. split; [done|]. split; [done|]. rewrite Ho.
  split; cbn in *; [done|done|intros x; apply insert_all; [done|left; cbn; lia]|lia|lia|lia|].
  by rewrite Hfi, <- app_assoc.
Qed.

Lemma procs_step_inv q l m m' : inv q l m → step m m' → ∃ q' l', inv q' l' m'.
Proof.
  intros Hi [i val m1 E]. destruct m as [w e f mu ps pr co]. unfold step_proc in E.
  destruct (ps !! i) as [[r pc]|] eqn:Hp; [|done]. cbn [mbind option_bind] in E.
  pose proof (i_pc _ _ _ Hi _ (list_elem_of_lookup_2 _ _ _ Hp)) as Hpc. unfold pc_ok in Hpc. cbn in Hpc.
  destruct r, pc as [|[|[|[|[|pc]]]]]; cbn [mbind option_bind] in E;
    repeat match type of E with context [down ?x] => destruct x; [done|]; cbn in E end.
  3: destruct (produce val w) as [[] w'| | |] eqn:Ew; try done; injection E as <-;
     destruct (inv_produce _ _ _ _ _ _ _ _ _ _ _ _ Hi Hp Ew) as [q' Hq']; eauto.
  5: destruct Hpc as [?|[=]]; lia.
  7: destruct (consume w) as [[] w'| | |] eqn:Ew; try done; injection E as <-;
     destruct (inv_consume _ _ _ _ _ _ _ _ _ _ _ Hi Hp Ew) as (q' & v & l' & -> & _ & Hq'); eauto.
  all: injection E as <-; exists q, l;
    apply (inv_sem _ _ _ _ _ _ _ _ _ _ _ _ _ _ _ Hi Hp); unfold pc_ok; cbn; try lia.
Qed.

(** Before the producer, if there is one, has initialised the ring nobody has touched it. *)
Definition is_producer (p : role * nat) : nat := match p with (Producer, _) => 1 | _ => 0 end.

Record booting (m : machine) : Prop := {
  b_glob : ∃ q, w_glob (m_world m) = Some q ∧ length (arr q) = 4;
  b_sems : m_empty m = 4 ∧ m_full m = 0 ∧ m_mutex m = 1;
  b_pc : ∀ p, p ∈ m_procs m → p = (Consumer, 0) ∨ p.2 = 5;
  b_one : weigh is_producer (m_procs m) ≤ 1;
  b_none : m_produced m = [] ∧ m_consumed m = [] }.

Lemma boot_weigh g (ps : list (role * nat)) : (∀ r, g (r, 0) = 0) → (∀ r, g (r, 5) = 0) →
  (∀ p, p ∈ ps → p.2 = 0 ∨ p.2 = 5) → weigh g ps = 0.
Proof.
  intros H0 H5 Hps. rewrite (weigh_full g _ 0); [lia|]. intros [r pc] Hin. destruct (Hps _ Hin) as [E|E]; cbn in E; subst; auto.
Qed.

Lemma procs_step_booting m m' : booting m → step m m' → booting m' ∨ ∃ q l, inv q l m'.
Proof.
  intros [(q & Hq & Ha) (He & Hf & Hm) Hpc Hone [Hpr Hco]] [i val m1 E]. destruct m as [[tr g] e f mu ps pr co]. cbn in *. subst g e f mu pr co.
  destruct (ps !! i) as [[r pc]|] eqn:Hp; [|done]. cbn in E. pose proof (weigh_insert is_producer _ _ _ (Consumer, 0) Hp) as Hw. cbn in Hw.
  destruct (Hpc _ (list_elem_of_lookup_2 _ _ _ Hp)) as [[= -> ->]|H5]; [done|]. cbn in H5. subst pc. destruct r; injection E as <-.
  - right. exists (mk_ring (arr q) (-1) (-1)), [].
    assert (∀ p, p ∈ <[i := (Producer, 0)]> ps → p = (Producer, 0) ∨ p = (Consumer, 0) ∨ p = (Consumer, 5)) as Hps.
    { intros p (j & Hj)%list_elem_of_lookup. apply list_lookup_insert_Some in Hj as [(_ & <- & _)|(Hne & Hj)]; [by left|]. right.
      destruct (Hpc _ (list_elem_of_lookup_2 _ _ _ Hj)) as [->|H5]; [by left|]. destruct p as [[] pc]; cbn in H5; subst pc; [|by right].
      assert (<[i := (Consumer, 0)]> ps !! j = Some (Producer, 5)) as Hj' by (by rewrite list_lookup_insert_ne).
      pose proof (weigh_pos is_producer _ _ _ Hj') as H1. cbn in H1. lia. }
    assert (∀ p, p ∈ <[i := (Producer, 0)]> ps → p.2 = 0 ∨ p.2 = 5) as Hps2 by (intros p Hin; destruct (Hps p Hin) as [->|[->| ->]]; auto).
    split; cbn; [done|split; cbn; [done|lia|by left|done]| |rewrite !boot_weigh by (done || by intros []); done..|done].
    intros p Hin. unfold pc_ok. destruct (Hps p Hin) as [->|[->| ->]]; cbn; auto with lia.
  - left. split; cbn; [by exists q|done| |lia|done]. intros p. apply (insert_all (λ p, p = (Consumer, 0) ∨ p.2 = 5)); [done|by left].
Qed.

Lemma booting_start tr q roles : length (arr q) = 4 → weigh is_producer (map (λ r, (r, 0)) roles) ≤ 1 →
  booting (start (mk_world tr (Some q)) roles).
Proof.
  intros Ha Hone. unfold start. split; cbn; [by exists q|done| | |done].
  - intros p (r & -> & _)%list_elem_of_fmap. by right.
  - clear -Hone. enough (weigh is_producer (map (λ r, (r, 5)) roles) = weigh is_producer (map (λ r, (r, 0)) roles)) by lia.
    clear. unfold weigh. induction roles as [|[] roles IH]; cbn; lia.
Qed.

Lemma procs_reachable tr q roles m : length (arr q) = 4 → weigh is_producer (map (λ r, (r, 0)) roles) ≤ 1 →
  rtc step (start (mk_world tr (Some q)) roles) m → booting m ∨ ∃ q' l, inv q' l m.
Proof.
  intros Ha Hone H. pose proof (or_introl (B := ∃ q' l, inv q' l (start (mk_world tr (Some q)) roles)) (booting_start tr q roles Ha Hone)) as Hi.
  induction H as [|m1 m2 m3 Hs _ IH]; [done|]. apply IH. destruct Hi as [Hb|(q' & l & Hi)]; [by eapply procs_step_booting|]. right. by eapply procs_step_inv.
Qed.

(** A process in the critical section, or in its start-up, can go on. *)
Lemma inside_runs q l m i r pc val : inv q l m → m_procs m !! i = Some (r, S (S pc)) →
  ∃ m', step_proc i val m = Some m'.
Proof.
  intros Hi Hp. destruct m as [w e f mu ps pr co]. cbn in Hp. unfold step_proc. rewrite Hp. cbn.
  destruct Hi as [Hg Hr _ Hf He _ _]. cbn in *. destruct w as [tr g]. cbn in Hg. subst g.
  destruct r, pc as [|[|[|pc]]]; eauto.
  - pose proof (weigh_pos producing _ _ _ Hp). cbn in *.
    assert (Hw : wp (produce val) (λ _ _, True) (mk_world tr (Some q))).
    { unfold produce. apply wp_bind. eapply wp_mono; [apply (queue_add_wp tr q l val Hr); lia|].
      intros r [tr1 g1] (-> & _ & q' & Hq' & Hr'). cbn in Hq'. subst g1. apply wp_bind.
      eapply wp_mono; [by apply queue_print_wp|]. intros r2 w2 _. by wp_run. }
    apply wp_Ok in Hw as ([] & w' & E & _). rewrite E. eauto.
  - pose proof (weigh_pos consuming _ _ _ Hp). cbn in *. destruct l as [|v l]; [cbn in *; lia|].
    assert (Hw : wp consume (λ _ _, True) (mk_world tr (Some q))).
    { unfold consume. apply wp_bind. eapply wp_mono; [apply (queue_delete_wp tr q v l Hr)|].
      intros r [tr1 g1] (-> & q' & p & Hq' & Hr' & _). cbn in Hq'. subst g1. apply wp_bind.
      eapply wp_mono; [by apply queue_print_wp|]. intros r2 w2 _. by wp_run. }
    apply wp_Ok in Hw as ([] & w' & E & _). rewrite E. eauto.
Qed.

Lemma procs_progress q l m i j pi pj : inv q l m →
  m_procs m !! i = Some (Producer, pi) → m_procs m !! j = Some (Consumer, pj) → ∃ m', step m m'.
Proof.
  intros Hi Hpi Hpj. destruct (decide (Exists (λ p, 2 ≤ p.2) (m_procs m))) as [Hex|Hno].
  { apply Exists_exists in Hex as ([r pc] & (k & Hk)%list_elem_of_lookup & Hpc). cbn in Hpc.
    destruct pc as [|[|pc]]; [lia|lia|]. destruct (inside_runs q l m k r pc 0 Hi Hk) as [m' E].
    exists m'. by econstructor. }
  assert (Hle : ∀ p, p ∈ m_procs m → p.2 ≤ 1).
  { intros p Hin. destruct (decide (p.2 ≤ 1)); [done|]. exfalso. apply Hno, Exists_exists. exists p.
    split; [done|lia]. }
  destruct Hi as [Hg Hr Hpc Hf He Hm Hfi]. destruct m as [w e f mu ps pr co]. cbn in *.
  rewrite (weigh_full inside _ 0) in Hm by (intros [r [|[|pc]]] Hin; specialize (Hle _ Hin); cbn in *; lia).
  destruct (decide (Exists (λ p, p.2 = 1) ps)) as [Hex|Hno1].
  { apply Exists_exists in Hex as ([r pc] & (k & Hk)%list_elem_of_lookup & Hpc1). cbn in Hpc1. subst pc.
    destruct mu as [|mu]; [lia|]. eexists. apply (step_intro _ k 0%Z). cbn. rewrite Hk. cbn.
    by destruct r. }
  assert (H0 : ∀ p, p ∈ ps → p.2 = 0).
  { intros p Hin. specialize (Hle p Hin). destruct (decide (p.2 = 1)); [|lia]. exfalso.
    apply Hno1, Exists_exists. eauto. }
  assert (∀ g, (∀ r, g (r, 0) = 0) → (∀ r, g (r, 5) = 0) → weigh g ps = 0) as Hw by (intros g ? ?; apply boot_weigh; auto).
  rewrite !Hw in Hf by (by intros []). rewrite !Hw in He by (by intros []).
  pose proof (H0 _ (list_elem_of_lookup_2 _ _ _ Hpi)) as Hi0. cbn in Hi0. subst pi.
  pose proof (H0 _ (list_elem_of_lookup_2 _ _ _ Hpj)) as Hj0. cbn in Hj0. subst pj.
  destruct e as [|e].
  - destruct f as [|f]; [lia|]. eexists. apply (step_intro _ j 0%Z). cbn. by rewrite Hpj.
  - eexists. apply (step_intro _ i 0%Z). cbn. by rewrite Hpi.
Qed.

(** The producer can always finish its start-up. *)
Lemma booting_progress m i pc : booting m → m_procs m !! i = Some (Producer, pc) → ∃ m', step m m'.
Proof.
  intros [(q & Hq & Ha) _ Hpc _ _] Hp. destruct m as [[tr g] e f mu ps pr co]. cbn in *. subst g.
  destruct (Hpc _ (list_elem_of_lookup_2 _ _ _ Hp)) as [[=]|H5]. cbn in H5. subst pc. eexists. apply (step_intro _ i 0%Z). cbn. by rewrite Hp.
Qed.

Lemma producers_counted roles : weigh is_producer (map (λ r, (r, 0)) roles) = length (filter (λ r, r = Producer) roles).
Proof. unfold weigh. induction roles as [|r roles IH]; [done|]. rewrite filter_cons. case_decide; destruct r; try done; cbn [map foldr is_producer length]; lia. Qed.

Lemma one_inside q l m i j r r' a b : inv q l m → a = 2 ∨ a = 3 → b = 2 ∨ b = 3 →
  m_procs m !! i = Some (r, a) → m_procs m !! j = Some (r', b) → i = j.
Proof.
  intros [_ _ _ _ _ Hm _] Ha Hb Hpi Hpj. destruct (decide (i = j)); [done|]. exfalso.
  pose proof (weigh_insert inside _ _ _ (Producer, 0) Hpi) as Hw. cbn in Hw.
  assert (Hpj' : <[i := (Producer, 0)]> (m_procs m) !! j = Some (r', b)) by (by rewrite list_lookup_insert_ne).
  pose proof (weigh_pos inside _ _ _ Hpj') as Hp. cbn in Hp. destruct Ha as [-> | ->], Hb as [-> | ->]; cbn in *; lia.
Qed.

(** A schedule: which process runs next and what [rand] gives it. *)
Fixpoint run (sched : list (nat * Z)) (m : machine) : option machine :=
  match sched with [] => Some m | (i, v) :: sched => step_proc i v m ≫= run sched end.

Lemma procs_run_reach sched : ∀ m m', run sched m = Some m' → rtc step m m'.
Proof.
  induction sched as [|[i v] sched IH]; intros m m'; cbn [run]; [by intros [= ->]|].
  destruct (step_proc i v m) as [m1|] eqn:E; [|done]. intros H.
  eapply rtc_l; [by econstructor|by apply IH].
Qed.

End procs.
End Procs.

(** ** The abstract bounded queue *)

Inductive ring_op := Add (v : Z) | Delete.

Definition spec_op (op : ring_op) (l : list Z) : list Z :=
  match op with
  | Add v => if (length l =? 4)%nat then l else l ++ [v]
  | Delete => list.tail l
  end.
Definition spec_ops (ops : list ring_op) (l : list Z) : list Z := foldl (flip spec_op) l ops.

Section refinement.
Context {os : OS}.

Definition run_op (op : ring_op) : SM Z := match op with Add v => queue_add v | Delete => queue_delete end.
Fixpoint run_ops (ops : list ring_op) : SM unit :=
  match ops with [] => mret tt | op :: ops => run_op op;; run_ops ops end.

Lemma queue_add_full tr q l v : ring_rep q l → length l = 4%nat →
  wp (queue_add v) (λ r w', r = 0 ∧ w_glob w' = Some q) (mk_world tr (Some q)).
Proof.
  intros [Ha Hl Hi Hv] Hlen. unfold queue_add. wp_run; [done|]. exfalso.
  destruct Hi as [(-> & _)|(Hne & Hh & Ht)]; [done|]. rewrite Hlen in Ht.
  pose proof (slot_range (head q + Z.of_nat 4 - 1)). rewrite rem4 in E by lia.
  apply Z.eqb_neq in E. apply E. rewrite Ht, Zplus_mod_idemp_l.
  replace (head q + Z.of_nat 4 - 1 + 1) with (head q + 1 * 4) by lia. rewrite Z.mod_add by lia.
  apply Z.mod_small. lia.
Qed.

Lemma run_op_wp tr q l op : ring_rep q l →
  wp (run_op op) (λ r w', r = 0 ∧ ∃ q', w_glob w' = Some q' ∧ ring_rep q' (spec_op op l)) (mk_world tr (Some q)).
Proof.
  intros Hr. destruct op as [v|]; cbn [run_op spec_op].
  - destruct (Nat.eqb_spec (length l) 4) as [Hl|Hl].
    + eapply wp_mono; [by eapply queue_add_full|]. naive_solver.
    + pose proof (rr_len _ _ Hr). eapply wp_mono; [apply (queue_add_wp tr q l v Hr); lia|]. naive_solver.
  - destruct l as [|v l].
    + destruct (rr_idx _ _ Hr) as [(_ & Hh & _)|(? & _)]; [|done].
      unfold queue_delete. wp_run; [|lia]. cbn. eauto.
    + eapply wp_mono; [by apply queue_delete_wp|]. naive_solver.
Qed.

Lemma run_ops_wp ops : ∀ tr q l, ring_rep q l →
  wp (run_ops ops) (λ _ w', ∃ q', w_glob w' = Some q' ∧ ring_rep q' (spec_ops ops l)) (mk_world tr (Some q)).
Proof.
  induction ops as [|op ops IH]; intros tr q l Hr; cbn [run_ops]; [wp_run; cbn; eauto|].
  apply wp_bind. eapply wp_mono; [by apply (run_op_wp tr q l op)|].
  intros r [tr1 g1] (_ & q1 & Hq1 & Hr1). cbn in Hq1. subst g1. by apply IH.
Qed.

End refinement.

(** ** Theorems *)

(** C10: the ring buffer is a FIFO queue of at most four values.  After [queue_init],
    every sequence of [queue_add] and [queue_delete] runs inside the array and leaves
    the ring holding exactly what the abstract queue holds, an addition to a full ring
    and a deletion from an empty one leaving it as it is; printing then shows those
    values, oldest first. *)
Theorem ring_refines_bounded_queue {os : OS} ops tr q : length (arr q) = 4%nat →
  wp (queue_init;; run_ops ops;; queue_print) (λ r w', r = 0 ∧
    ∃ q' p ps tr', w_glob w' = Some q' ∧ ring_rep q' (spec_ops ops []) ∧
      length ps = length (spec_ops ops []) ∧ (length (spec_ops ops []) ≤ 4)%nat ∧
      w_trace w' = (Printf (if bool_decide (spec_ops ops [] = []) then "Queue is empty!!!" else "") [], p)
                   :: rev (prints (spec_ops ops []) ps) ++ tr') (mk_world tr (Some q)).
Proof.
  intros Ha. apply wp_bind. eapply wp_mono; [by apply queue_init_wp|].
  intros r [tr1 g1] (_ & _ & q1 & Hg1 & Hr1). cbn in Hg1. subst g1.
  apply wp_bind. eapply wp_mono; [by apply run_ops_wp|].
  intros [] [tr2 g2] (q2 & Hg2 & Hr2). cbn in Hg2. subst g2.
  eapply wp_mono; [by apply queue_print_wp|]. intros r2 w3 (-> & Hg3 & p & ps & Hps & Ht).
  split; [done|]. exists q2, p, ps, tr2. split_and!; [done|done|done|apply Hr2|done].
Qed.

(** A kernel that answers 0 to everything. *)
Definition zero_os : OS := λ _ _, mk_reply 0 0 [].

Lemma ring_refines_bounded_queue_witness :
  spec_ops [Add 1; Add 2; Add 3; Add 4; Add 5; Delete; Add 6; Delete] [] = [3; 4; 6] ∧
  wp (queue_init;; run_ops (os := zero_os) [Add 1; Add 2; Add 3; Add 4; Add 5; Delete; Add 6; Delete];;
      queue_print (os := zero_os))
    (λ r w', r = 0 ∧
      ∃ q' p ps tr', w_glob w' = Some q' ∧ ring_rep q' [3; 4; 6] ∧
        length ps = 3%nat ∧ (3 ≤ 4)%nat ∧
        w_trace w' = (Printf "" [], p) :: rev (prints [3; 4; 6] ps) ++ tr')
    (mk_world [] (Some (mk_ring [9; 9; 9; 9] 7 7))).
Proof.
  split; [reflexivity|].
  apply (ring_refines_bounded_queue (os := zero_os)
    [Add 1; Add 2; Add 3; Add 4; Add 5; Delete; Add 6; Delete] [] (mk_ring [9; 9; 9; 9] 7 7)).
  reflexivity.
Defined.

(** C6: one producer and any number of consumers, started in any order on a segment with any content and with
    fresh semaphores, hand over every value once and in order.  In every reachable state the values
    consumed so far followed by the ring's content are the values produced so far, at
    most four values are in the ring, and at most one process is in the critical
    section; once the producer has initialised the segment the ring is well formed. *)
Theorem producer_consumer_fifo {os : OS} tr q roles m : length (arr q) = 4%nat →
  (length (filter (λ r, r = Procs.Producer) roles) ≤ 1)%nat →
  rtc Procs.step (Procs.start (mk_world tr (Some q)) roles) m →
  (∃ q' l, w_glob (Procs.m_world m) = Some q' ∧
    (ring_rep q' l ∨ l = [] ∧ ∀ p, p ∈ Procs.m_procs m → p = (Procs.Consumer, 0%nat) ∨ p.2 = 5%nat) ∧
    Procs.m_produced m = Procs.m_consumed m ++ l ∧ (length l ≤ 4)%nat) ∧
  ∀ i j r r' a b, (a = 2 ∨ a = 3)%nat → (b = 2 ∨ b = 3)%nat →
      Procs.m_procs m !! i = Some (r, a) → Procs.m_procs m !! j = Some (r', b) → i = j.
Proof.
  intros Ha Hone Hs. rewrite <- Procs.producers_counted in Hone. destruct (Procs.procs_reachable tr q roles m Ha Hone Hs) as [Hb|(q' & l & Hi)].
  - destruct Hb as [(q' & Hq & _) _ Hpc _ [Hp Hc]]. split; [exists q', []; rewrite Hp, Hc; cbn; split_and!; [done|by right|done|lia]|].
    intros i j r r' a b H2 _ Hpi _. destruct (Hpc _ (list_elem_of_lookup_2 _ _ _ Hpi)) as [[= _ E]|E]; cbn in E; lia.
  - pose proof Hi as [Hg Hrep _ _ _ _ Hf]. split; [exists q', l; split_and!; [done|by left|done|apply Hrep]|].
    intros i j r r' a b H2 H3. by eapply Procs.one_inside.
Qed.

(** The protocol never blocks for good.  With one producer and at least one
    consumer, every reachable state has a next step. *)
Theorem producer_consumer_progress {os : OS} tr q roles m i j pi pj : length (arr q) = 4%nat →
  (length (filter (λ r, r = Procs.Producer) roles) ≤ 1)%nat →
  rtc Procs.step (Procs.start (mk_world tr (Some q)) roles) m →
  Procs.m_procs m !! i = Some (Procs.Producer, pi) → Procs.m_procs m !! j = Some (Procs.Consumer, pj) →
  ∃ m', Procs.step m m'.
Proof.
  intros Ha Hone Hs Hi Hj. rewrite <- Procs.producers_counted in Hone. destruct (Procs.procs_reachable tr q roles m Ha Hone Hs) as [Hb|(q' & l & Hinv)].
  - by eapply Procs.booting_progress.
  - by eapply Procs.procs_progress.
Qed.

(** A segment left by an earlier run, and a schedule: both processes start, the producer adds two
    values and the consumer takes one. *)
Definition old_ring : queue := mk_ring [9; 9; 9; 9] 2 3.
Definition demo_sched : list (nat * Z) :=
  [(1%nat, 0)] ++ ((λ v, (0%nat, v)) <$> [0; 7; 7; 7; 7; 7; 8; 8; 8; 8; 8]) ++ [(1%nat, 0); (1%nat, 0); (1%nat, 0)].

Lemma producer_consumer_fifo_witness :
  ∃ m, Procs.run (os := zero_os) demo_sched (Procs.start (mk_world [] (Some old_ring)) [Procs.Producer; Procs.Consumer]) = Some m ∧
    Procs.m_produced m = [7; 8] ∧ Procs.m_consumed m = [7] ∧
    (∃ q' l, w_glob (Procs.m_world m) = Some q' ∧
      (ring_rep q' l ∨ l = [] ∧ ∀ p, p ∈ Procs.m_procs m → p = (Procs.Consumer, 0%nat) ∨ p.2 = 5%nat) ∧
      Procs.m_produced m = Procs.m_consumed m ++ l ∧ (length l ≤ 4)%nat) ∧
    ∀ i j r r' a b, (a = 2 ∨ a = 3)%nat → (b = 2 ∨ b = 3)%nat →
        Procs.m_procs m !! i = Some (r, a) → Procs.m_procs m !! j = Some (r', b) → i = j.
Proof.
  eexists. split; [vm_compute; reflexivity|]. split; [reflexivity|]. split; [reflexivity|].
  match goal with |- context [Procs.m_world ?m] =>
    apply (producer_consumer_fifo (os := zero_os) [] old_ring [Procs.Producer; Procs.Consumer] m);
      [reflexivity|vm_compute; lia|]
  end.
  apply (Procs.procs_run_reach (os := zero_os) demo_sched). vm_compute. reflexivity.
Defined.

Lemma producer_consumer_progress_witness :
  ∃ m', Procs.step (os := zero_os) (Procs.start (mk_world [] (Some old_ring)) [Procs.Producer; Procs.Consumer]) m'.
Proof.
  apply (producer_consumer_progress (os := zero_os) [] old_ring [Procs.Producer; Procs.Consumer] _ 0 1 5 5);
    [reflexivity|vm_compute; lia|apply rtc_refl|reflexivity|reflexivity].
Defined.

(** A second producer that starts later initialises the ring again: a value that was produced and
    not yet consumed is lost, and the consumer that is woken for it finds the ring empty. *)
Theorem late_producer_loses_value :
  ∃ m, Procs.run (os := zero_os) ([(2%nat, 0); (0%nat, 0)] ++ ((λ v, (0%nat, v)) <$> [7; 7; 7; 7; 7]) ++ [(1%nat, 0)] ++ replicate 5 (2%nat, 0))
         (Procs.start (mk_world [] (Some old_ring)) [Procs.Producer; Procs.Producer; Procs.Consumer]) = Some m ∧
    Procs.m_produced m = [7] ∧ w_glob (Procs.m_world m) = Some (mk_ring [7; 9; 9; 9] (-1) (-1)) ∧ Procs.m_consumed m = [].
Proof. eexists. split; [vm_compute; reflexivity|]. by split_and!. Qed.
