(* ===== verification/SpliceProxy.v ===== *)
(** * The splicing TCP proxies (src/networking/splice/sp_trans_proxy, sp_exp)

    A proxy accepts clients, hands each to a work queue, connects to the configured
    server (under the client's address in [sp_trans_proxy], under its own in [sp_exp])
    and tunnels: client data is received and sent on, server data is spliced through a
    pipe.  Every function runs against an arbitrary kernel; [fuel] bounds the rounds
    of each loop. *)

From Stdlib Require Import ZArith Lia ZifyBool.
From stdpp Require Import base gmap list strings numbers.
From S2P Require Import Prelude Posix.

(** ** Data (include/sproxy_globals.h) *)

Definition MAX_LENGTH : Z := 8192.
Definition SPROXY_POLL_TIMEOUT : Z := 10000.

(** [struct Proxy_Info]; an address is a pair of IPv4 address and port. *)
Record Proxy_Info := mk_info {
  client_socket : Z;
  client_address : Z * Z;
  os_socket : Z }.

(** The globals, and the heap of [Proxy_Info] objects. *)
Record sp_glob := mk_sp {
  g_server_socket : Z;
  g_dest_ip : list Ascii.ascii;
  g_dest_port : Z;
  g_splice_size : Z;
  infos : gmap Z Proxy_Info }.

Definition sizeof_Proxy_Info : Z := 24.

Section code.
Context {os : OS} (fuel : nat).
(** What an uninitialised [sin_port] holds. *)
Context (junk_port : Z).

Abbreviation SP := (M (world sp_glob)).

(** ** sproxy_log.c *)

Definition open_system_logger (log_ident : string) (log_level : Z) : SP Z :=
  let log_options := Z.lor LOG_PID LOG_NDELAY in
  let log_facility := LOG_LOCAL1 in
  sys_ (Openlog log_ident log_options log_facility);;
  sys_ (Setlogmask (Z.shiftl 1 (log_level + 1) - 1));;
  mret 0.

Definition close_system_logger : SP Z := sys_ Closelog;; mret 0.

(** ** sproxy_net.c *)

Definition set_socket_non_blocking (sock : Z) : SP Z :=
  r ← sys (FcntlGetFL sock);
  let socket_flags := r_ret r in
  if socket_flags <? 0 then log_msg LOG_ERR "fcntl Error [%d] [%s] when F_GETFL";; mret (-1)
  else
    let socket_flags := Z.lor socket_flags O_NONBLOCK in
    r ← sys (FcntlSetFL sock socket_flags);
    if r_ret r <? 0 then log_msg LOG_ERR "fcntl Error [%d] [%s] when F_SETFL";; mret (-1)
    else mret 0.

(** The result and the value stored through [server_socket].  The source tests the
    pointer, not the descriptor, for a negative value, so a failing [socket] is not
    noticed here. *)
Definition tcp_bind_and_listen (bind_ip : option string) (bind_port : Z) : SP (Z * option Z) :=
  match bind_ip with
  | None => log_msg LOG_CRIT "Invalid params received !!!";; mret (-1, None)
  | Some bind_ip =>
      if (bind_port <? 0) || (65535 <? bind_port) then
        log_msg LOG_CRIT "Invalid params received !!!";; mret (-1, None)
      else
        s ← sys Socket;
        let server_socket := r_ret s in
        sys_ (Setsockopt server_socket SOL_SOCKET SO_REUSEADDR [1]);;
        a ← sys (InetAton bind_ip);
        if r_ret a =? 0 then
          log_msg LOG_ERR "Error in inet_aton  !!! ";; mret (-1, Some server_socket)
        else
          b ← sys (Bind server_socket (r_out a !!! 0%nat) bind_port);
          if r_ret b <? 0 then log_msg LOG_ERR "Bind Error [%d] [%s] ";; mret (-1, Some server_socket)
          else
            l ← sys (Listen server_socket 128);
            if r_ret l <? 0 then log_msg LOG_ERR "Listen Error [%d] [%s] ";; mret (-1, Some server_socket)
            else mret (0, Some server_socket)
  end.

(** The result and the value stored through [local_socket].  In [sp_trans_proxy] the
    guard compares the function [socket] with NULL, which never holds; [sp_exp] tests
    the pointer, which the callers never pass as NULL. *)
Definition tcp_connect_to_server (server_ip : option string) (server_port : Z) : SP (Z * option Z) :=
  match server_ip with
  | None => log_msg LOG_ERR "Invalid params received !!! ";; mret (-1, None)
  | Some server_ip =>
      if (server_port <? 0) || (65535 <? server_port) then
        log_msg LOG_ERR "Invalid params received !!! ";; mret (-1, None)
      else
        s ← sys Socket;
        let sock := r_ret s in
        if sock <? 0 then log_msg LOG_ERR "Socket Creation Error [%d] [%s] ";; mret (-1, None)
        else
          a ← sys (InetAton server_ip);
          if r_ret a =? 0 then log_msg LOG_ERR "Error in inet_aton  !!! ";; mret (-1, None)
          else
            c ← sys (Connect sock (r_out a !!! 0%nat) server_port);
            if r_ret c <? 0 then log_msg LOG_ERR "Error [%d] [%s] in connect !!! ";; mret (-1, None)
            else mret (0, Some sock)
  end.

(** The client's port is not put into the address that is bound. *)
Definition tcp_transparent_connect_to_server (server_ip : option string) (server_port : Z)
    (client_ip : string) (client_port : Z) : SP (Z * option Z) :=
  match server_ip with
  | None => log_msg LOG_ERR "Invalid params received !!! ";; mret (-1, None)
  | Some server_ip =>
      if (server_port <? 0) || (65535 <? server_port) then
        log_msg LOG_ERR "Invalid params received !!! ";; mret (-1, None)
      else
        s ← sys Socket;
        let sock := r_ret s in
        if sock <? 0 then log_msg LOG_ERR "Socket Creation Error [%d] [%s] ";; mret (-1, None)
        else
          sys_ (Setsockopt sock SOL_SOCKET SO_REUSEADDR [1]);;
          t ← sys (Setsockopt sock SOL_IP IP_TRANSPARENT [1]);
          if r_ret t <? 0 then log_msg LOG_ERR "Error [%d] [%s] in setsockopt !!! ";; mret (-1, None)
          else
            ca ← sys (InetAton client_ip);
            if r_ret ca =? 0 then log_msg LOG_ERR "Error in inet_aton  !!! ";; mret (-1, None)
            else
              b ← sys (Bind sock (r_out ca !!! 0%nat) junk_port);
              if r_ret b <? 0 then
                log_msg LOG_ERR "Error [%d] [%s] in bind for Client [%s : %d]!!! ";; mret (-1, None)
              else
                a ← sys (InetAton server_ip);
                if r_ret a =? 0 then log_msg LOG_ERR "Error in inet_aton  !!! ";; mret (-1, None)
                else
                  c ← sys (Connect sock (r_out a !!! 0%nat) server_port);
                  if r_ret c <? 0 then
                    log_msg LOG_ERR "Error [%d] [%s] in connect !!! ";; mret (-1, None)
                  else mret (0, Some sock)
  end.

(** [buf + bytes_sent], [buf_len - bytes_sent] bytes of it. *)
Definition rest_of (buf : list Z) (bytes_sent : Z) : list Z := drop (Z.to_nat bytes_sent) buf.

Definition tcp_send_data (socket : Z) (buf : option (list Z)) (flags : Z) : SP Z :=
  match buf with
  | None => log_msg LOG_ERR "Invalid params received !!! ";; mret (-1)
  | Some buf =>
      let buf_len := Z.of_nat (length buf) in
      if socket <? 0 then log_msg LOG_ERR "Invalid params received !!! ";; mret (-1)
      else
        loop fuel (λ bytes_sent,
          if bytes_sent <? buf_len then
            r ← sys (Send socket (rest_of buf bytes_sent) flags);
            if r_ret r <? 0 then
              if r_errno r =? EINTR then mret (inl bytes_sent)
              else log_msg LOG_ERR "Send Error [%d] [%s] ";; mret (inr (-1))
            else mret (inl (bytes_sent + r_ret r))
          else mret (inr bytes_sent)) 0
  end.

Definition tcp_send_data_with_poll (socket : Z) (buf : list Z) (flags : Z) : SP Z :=
  let buf_len := Z.of_nat (length buf) in
  loop fuel (λ bytes_sent,
    if bytes_sent <? buf_len then
      p ← sys (Poll [(socket, POLLOUT)] SPROXY_POLL_TIMEOUT);
      if r_ret p <? 0 then
        if r_errno p =? EINTR then mret (inl bytes_sent)
        else log_msg LOG_ERR "Error [%d] [%s] in poll !!!";; mret (inr (-1))
      else if r_ret p =? 0 then log_msg LOG_ERR "Poll timed out !!!";; mret (inr (-1))
      else if has_bits (r_out p !!! 0%nat) POLLOUT then
        r ← sys (Send socket (rest_of buf bytes_sent) flags);
        if r_ret r <? 0 then
          if r_errno r =? EINTR then mret (inl bytes_sent)
          else log_msg LOG_ERR "Send Error [%d] [%s] ";; mret (inr (-1))
        else mret (inl (bytes_sent + r_ret r))
      else mret (inl bytes_sent)
    else mret (inr bytes_sent)) 0.

(** The result and the bytes stored in the buffer. *)
Definition tcp_receive_data_with_poll (socket : Z) (buf : bool) (buf_len flags : Z) : SP (Z * list Z) :=
  if negb buf || (buf_len <=? 0) then
    log_msg LOG_ERR "Invalid params received !!! ";; mret (-1, [])
  else
    loop fuel (λ _,
      p ← sys (Poll [(socket, Z.lor POLLIN POLLPRI)] SPROXY_POLL_TIMEOUT);
      if r_ret p <? 0 then
        if r_errno p =? EINTR then mret (inl tt)
        else log_msg LOG_ERR "Error [%d] [%s] in poll !!!";; mret (inr (-1, []))
      else if r_ret p =? 0 then log_msg LOG_ERR "Poll timed out !!!";; mret (inr (-1, []))
      else if has_bits (r_out p !!! 0%nat) POLLIN || has_bits (r_out p !!! 0%nat) POLLPRI then
        r ← sys (Recv socket buf_len flags);
        if r_ret r <? 0 then
          if r_errno r =? EINTR then mret (inl tt)
          else log_msg LOG_ERR "Recv Error [%d] [%s] ";; mret (inr (-1, []))
        else if r_ret r =? 0 then
          log_msg LOG_DEBUG "Peer performned a orderly shutdown ";; mret (inr (0, []))
        else mret (inr (r_ret r, take (Z.to_nat (r_ret r)) (r_out r)))
      else mret (inl tt)) tt.

(** ** sproxy_splice.c *)

Definition splice_flags : Z := Z.lor SPLICE_F_MOVE SPLICE_F_NONBLOCK.

Definition splice_with_poll (fd_in fd_out len : Z) : SP Z :=
  loop fuel (λ _,
    p ← sys (Poll [(fd_out, POLLOUT)] SPROXY_POLL_TIMEOUT);
    if r_ret p <? 0 then
      if r_errno p =? EINTR then mret (inl tt)
      else log_msg LOG_ERR "Error [%d] [%s] in poll !!!";; mret (inr (-1))
    else if r_ret p =? 0 then log_msg LOG_ERR "Poll timed out !!!";; mret (inr (-1))
    else if has_bits (r_out p !!! 0%nat) POLLOUT then
      r ← sys (Splice fd_in fd_out len splice_flags);
      if r_ret r <? 0 then log_msg LOG_ERR "splice Error [%d] [%s]";; mret (inr (-1))
      else if r_ret r =? 0 then log_msg LOG_INFO "NOTHING to splice !!!";; mret (inr 0)
      else mret (inr (r_ret r))
    else mret (inl tt)) tt.

(** [pipefd_arr] is the pair of its two descriptors, [None] for NULL. *)
Definition make_splice (fd_in fd_out : Z) (pipefd_arr : option (Z * Z)) (len : Z) : SP Z :=
  match pipefd_arr with
  | None => log_msg LOG_CRIT "NULL params received !!!";; mret (-1)
  | Some (p0, p1) =>
      loop fuel (λ _,
        r ← sys (Splice fd_in p1 len splice_flags);
        if r_ret r <? 0 then
          if r_errno r =? EAGAIN then
            log_msg LOG_NOTICE "splicing S->P will block now...exiting from while loop and polling again !!!";;
            mret (inr 1)
          else log_msg LOG_ERR "splice Error [%d] [%s]";; mret (inr (-1))
        else if r_ret r =? 0 then log_msg LOG_INFO "NOTHING to splice !!!";; mret (inr 0)
        else
          ret ← splice_with_poll p0 fd_out len;
          if ret <? 0 then log_msg LOG_ERR "Error in splice_with_poll P->S!!!";; mret (inr (-1))
          else if ret =? 0 then mret (inr 0)
          else log_msg LOG_DEBUG "spliced [%d] bytes from OS to client";; mret (inl tt)) tt
  end.

(** ** sproxy_core.c *)

Definition proxy_recv_and_send (recv_sock send_sock : Z) : SP Z :=
  loop fuel (λ _,
    r ← sys (Recv recv_sock MAX_LENGTH 0);
    if r_ret r <? 0 then
      if r_errno r =? EAGAIN then mret (inr 1)
      else log_msg LOG_ERR "Error [%d] [%s] in recv !!!";; mret (inr (-1))
    else if r_ret r =? 0 then
      log_msg LOG_INFO "Peer performed an orderly shutdown";; mret (inr 0)
    else
      log_msg LOG_DEBUG "Received [%d] bytes";;
      ret ← tcp_send_data_with_poll send_sock (take (Z.to_nat (r_ret r)) (r_out r)) 0;
      if ret <? 0 then log_msg LOG_ERR "Error in tcp_send_data_with_poll !!!";; mret (inr ret)
      else log_msg LOG_DEBUG "Sent [%d] bytes";; mret (inl tt)) tt.

Definition proxy_poll_and_tunnel (client_socket os_socket : Z) : SP Z :=
  p ← sys Pipe;
  if negb (r_ret p =? 0) then log_msg LOG_ERR "Error [%d] [%s] in pipe !!!";; mret (-1)
  else
    let p0 := r_out p !!! 0%nat in
    let p1 := r_out p !!! 1%nat in
    let want := Z.lor POLLIN POLLPRI in
    ret ← loop fuel (λ _,
      r ← sys (Poll [(client_socket, want); (os_socket, want)] SPROXY_POLL_TIMEOUT);
      if r_ret r <? 0 then log_msg LOG_ERR "Error [%d] [%s] in poll !!!";; mret (inr (-1))
      else if r_ret r =? 0 then
        log_msg LOG_WARNING "Poll timed out while waiting for data!!!";; mret (inr (-1))
      else
        let rev0 := r_out r !!! 0%nat in
        let rev1 := r_out r !!! 1%nat in
        if has_bits rev0 POLLIN || has_bits rev0 POLLPRI then
          log_msg LOG_DEBUG "Data available on client socket";;
          ret ← proxy_recv_and_send client_socket os_socket;
          if ret <? 0 then log_msg LOG_CRIT "Error in proxy_recv_and_send !!!";; mret (inr (-1))
          else if ret =? 0 then log_msg LOG_INFO "Close from one side";; mret (inr 0)
          else mret (inl tt)
        else if has_bits rev1 POLLIN || has_bits rev1 POLLPRI then
          log_msg LOG_DEBUG "Data available on os socket";;
          g ← get_glob;
          ret ← make_splice os_socket client_socket (Some (p0, p1)) (g_splice_size g);
          if ret <? 0 then log_msg LOG_ERR "Error in make_splice !!!";; mret (inr (-1))
          else if ret =? 0 then mret (inr 0)
          else mret (inl tt)
        else mret (inl tt)) tt;
    sys_ (Close p0);; sys_ (Close p1);;
    mret ret.

(** The heap of requests. *)
Definition set_infos (f : gmap Z Proxy_Info → gmap Z Proxy_Info) : SP unit :=
  upd_glob (λ g, mk_sp (g_server_socket g) (g_dest_ip g) (g_dest_port g) (g_splice_size g) (f (infos g))).
Definition load_info (p : Z) : SP Proxy_Info := g ← get_glob; expect (infos g !! p).

(** The two exits of [tunnel_the_request]. *)
Definition tunnel_label1 (arg : Z) : SP unit :=
  i ← load_info arg; sys_ (Close (client_socket i));; sys_ (Free arg);; set_infos (delete arg).
Definition tunnel_label (arg : Z) : SP unit :=
  i ← load_info arg; sys_ (Close (client_socket i));; sys_ (Close (os_socket i));;
  sys_ (Free arg);; set_infos (delete arg).

(** The rest of [tunnel_the_request] once a connect function has run. *)
Definition tunnel_connected (arg : Z) (r : Z * option Z) (err : string) : SP unit :=
  let '(ret, sock) := r in
  (match sock with
   | Some s => i ← load_info arg; set_infos (<[arg := mk_info (client_socket i) (client_address i) s]>)
   | None => mret tt
   end);;
  i ← load_info arg;
  if negb (ret =? 0) then log_msg LOG_ERR err;; tunnel_label1 arg
  else
    nb ← set_socket_non_blocking (os_socket i);
    if nb <? 0 then log_msg LOG_ALERT "Error in set_socket_non_blocking !!!";; tunnel_label arg
    else
      log_msg LOG_DEBUG "Waiting for data...";;
      ret ← proxy_poll_and_tunnel (client_socket i) (os_socket i);
      if ret <? 0 then log_msg LOG_ERR "Error in proxy_poll_and_tunnel !!!";; tunnel_label arg
      else if ret =? 0 then tunnel_label arg
      else tunnel_label1 arg.

(** A NULL argument is reported and then dereferenced: [load_info] is undefined. *)
Definition tunnel_the_request (arg : Z) : SP unit :=
  (if arg =? NULL then log_msg LOG_CRIT "NULL params received !!!" else mret tt);;
  i ← load_info arg;
  sys_ (InetNtoa (client_address i).1);;
  log_msg LOG_INFO "Client IP [%s] Client Port [%d]";;
  n ← sys (InetNtoa (client_address i).1);
  g ← get_glob;
  ip ← expect (c_string (g_dest_ip g));
  r ← tcp_transparent_connect_to_server (Some ip) (g_dest_port g) (str_of (r_out n)) (client_address i).2;
  tunnel_connected arg r "Error in tcp_transparent_connect_to_server !!!".

(** The same function of sp_exp. *)
Definition tunnel_the_request_exp (arg : Z) : SP unit :=
  (if arg =? NULL then log_msg LOG_CRIT "NULL params received !!!" else mret tt);;
  i ← load_info arg;
  sys_ (InetNtoa (client_address i).1);;
  log_msg LOG_INFO "Client IP [%s] Client Port [%d]";;
  g ← get_glob;
  ip ← expect (c_string (g_dest_ip g));
  r ← tcp_connect_to_server (Some ip) (g_dest_port g);
  tunnel_connected arg r "Error in tcp_connect_to_server !!!".

(** ** sproxy_main.c *)

Definition init_workq : SP Z :=
  r ← sys (Ext "WorkQInit" [200; 5]);
  if negb (r_ret r =? 0) then log_msg LOG_EMERG "WorkQInit failed for tunnel workq";; mret (-1)
  else mret 0.

(** One round of the accept loop of [main]. *)
Definition accept_round : SP unit :=
  g ← get_glob;
  a ← sys (Accept (g_server_socket g));
  let client := r_ret a in
  if client <? 0 then log_msg LOG_ALERT "Accept Error [%d] [%s]"
  else
    nb ← set_socket_non_blocking client;
    if nb <? 0 then log_msg LOG_ALERT "Error in set_socket_non_blocking !!!";; sys_ (Close client)
    else
      sys_ (Setsockopt client SOL_SOCKET SO_LINGER [0; 0]);;
      c ← sys (Calloc 1 sizeof_Proxy_Info);
      if r_ret c =? NULL then undef
      else
        set_infos (<[r_ret c := mk_info client (r_out a !!! 0%nat, r_out a !!! 1%nat) 0]>);;
        log_msg LOG_INFO "Adding to tunnel workq...";;
        q ← sys (Ext "WorkQAdd" [r_ret c]);
        if negb (r_ret q =? 0) then log_msg LOG_ALERT "Error in WorkQAdd for client_handler!!!"
        else mret tt.

(** [argv] without the program's name; [atoi] of the numeric arguments is [nums]:
    bind port, destination port, splice size, log level. *)
Definition main (ident : string) (argv : option (string * string * (Z * Z * Z * Z))) : SP unit :=
  sys_ (Sigaction 2 "handle_signal");;
  match argv with
  | None =>
      sys_ (Printf "main : Insufficient arguments to program !!!" []);;
      sys_ (Printf "Usage : %s <bind_ip> <bind_port> <dest_ip> <dest_port> <splice_size> <log_level>" []);;
      exit_with 1
  | Some (bind_ip, dest_ip, (bind_port, dest_port, splice_size, log_level)) =>
      upd_glob (λ g, mk_sp (g_server_socket g) (strncpy 16 dest_ip) dest_port splice_size (infos g));;
      open_system_logger ident log_level;;
      w ← init_workq;
      if negb (w =? 0) then log_msg LOG_EMERG "Error in init_workq !!!";; exit_with 1
      else
        ip ← expect (c_string (strncpy 16 bind_ip));
        r ← tcp_bind_and_listen (Some ip) bind_port;
        (match r.2 with
         | Some s => upd_glob (λ g, mk_sp s (g_dest_ip g) (g_dest_port g) (g_splice_size g) (infos g))
         | None => mret tt
         end);;
        if negb (r.1 =? 0) then log_msg LOG_EMERG "Error in server_bind_and_listen!!!";; exit_with 1
        else
          log_msg LOG_INFO "Waiting for client connections...";;
          loop fuel (λ _, accept_round;; mret (inl tt)) tt
  end.

Definition handle_signal (signo : Z) : SP unit :=
  (if signo =? 2 then log_msg LOG_EMERG "Recieved SIGINT...Exiting now" else mret tt);;
  g ← get_glob;
  sys_ (Close (g_server_socket g));;
  close_system_logger;;
  exit_with 0.

End code.

(** ** What went over the sockets *)

(** [send] accepts at most the bytes it was given. *)
Definition send_sane {os : OS} : Prop :=
  ∀ tr fd b fl, r_ret (os_answer tr (Send fd b fl)) ≤ Z.of_nat (length b).

(** [leak] is nothing, or the one socket that was made between [tr] and [tr'] and never connected. *)
Definition lost_socket (tr tr' : list event) (leak : list Z) : Prop :=
  leak = [] ∨ ∃ new r, tr' = new ++ tr ∧ leak = [r_ret r] ∧ 0 ≤ r_ret r ∧ (Socket, r) ∈ new ∧
    ∀ addr port r', (Connect (r_ret r) addr port, r') ∈ new → r_ret r' < 0.

Definition is_connect (c : call) : bool := match c with Connect _ _ _ => true | _ => false end.

Lemma lost_made r tr : 0 ≤ r_ret r → lost_socket tr ((Socket, r) :: tr) [r_ret r].
Proof.
  intros Hr. right. exists [(Socket, r)], r. split_and!; [done|done|done|by left|].
  intros addr port r' [E|E%elem_of_nil]%elem_of_cons; [by injection E|done].
Qed.

Lemma lost_event c r tr tr' leak : (is_connect c = false ∨ r_ret r < 0) → lost_socket tr tr' leak → lost_socket tr ((c, r) :: tr') leak.
Proof.
  intros Hc [->|(new & s & -> & -> & Hs & Hin & Hno)]; [by left|]. right. exists ((c, r) :: new), s. split_and!; [done|done|done|by right|].
  intros addr port r' [E|Hin']%elem_of_cons; [|by eapply Hno]. injection E as <- ->. by destruct Hc.
Qed.

Lemma lost_earlier c r tr tr' leak : is_connect c = false → lost_socket ((c, r) :: tr) tr' leak → lost_socket tr tr' leak.
Proof.
  intros Hc [->|(new & s & -> & -> & Hs & Hin & Hno)]; [by left|]. right. exists (new ++ [(c, r)]), s. split_and!; [by rewrite <- app_assoc|done|done|set_solver|].
  intros addr port r' [Hin'|[E|[]%elem_of_nil]%elem_of_cons]%elem_of_app; [by eapply Hno|]. injection E as <- ->. done.
Qed.

Ltac lost_solve := cbn [w_trace]; repeat first [assumption | apply lost_made; lia | apply lost_event; [first [by left | right; lia]|]].

(** Count the run from an earlier event. *)
Ltac lost_widen := repeat match goal with H : lost_socket (_ :: _) _ _ |- _ => eapply lost_earlier in H; [|reflexivity] end.

Section specs.
Context {os : OS} (fuel K : nat) (junk_port : Z).
Context (Hcalm : calms_down K) (Hfuel : (K < fuel)%nat) (Hsane : send_sane).
Implicit Types (tr : list event) (g : sp_glob).

(** The state of a transmission of [buf] on [fd] after [n] accepted bytes. *)
Record sending (fd : Z) (buf : list Z) tr g (n : Z) (w : world sp_glob) : Prop := {
  sd_quiet : quiet tr (w_trace w);
  sd_glob : w_glob w = g;
  sd_range : 0 ≤ n ≤ Z.of_nat (length buf);
  sd_sent : sent fd (w_trace w) = sent fd tr ++ take (Z.to_nat n) buf;
  sd_recv : ∀ fd', received fd' (w_trace w) = received fd' tr }.

Definition send_post (fd : Z) (buf : list Z) tr g (ret : Z) (w : world sp_glob) : Prop :=
  ∃ n, sending fd buf tr g n w ∧
    (ret = Z.of_nat (length buf) ∧ n = ret ∨ ret = -1 ∧ n < Z.of_nat (length buf)).

Lemma sending_refl fd buf tr g : sending fd buf tr g 0 (mk_world tr g).
Proof. split; cbn; [reflexivity|done|lia|by rewrite app_nil_r|done]. Qed.

(** An event that is no transmission. *)
Lemma sending_other fd buf tr g n tr1 c r :
  sending fd buf tr g n (mk_world tr1 g) → r = os_answer tr1 c →
  (∀ fd', fd_delta (c, r) fd' = 0) → (∀ p, mem_delta (c, r) p = 0) →
  sent fd ((c, r) :: tr1) = sent fd tr1 → (∀ fd', received fd' ((c, r) :: tr1) = received fd' tr1) →
  sending fd buf tr g n (mk_world ((c, r) :: tr1) g).
Proof.
  intros [Hq Hg Hr Hs Hv] Er Hfd Hmem Es Ev. cbn [w_trace w_glob] in *. split; cbn [w_trace w_glob]; [|done|done|congruence|].
  - destruct Hq as [[H1 H2] H3]. split; [|by constructor]. split; intros x.
    + cbn [fd_balance]. rewrite Hfd, H1. cbn. lia.
    + cbn [mem_balance]. rewrite Hmem, H2. cbn. lia.
  - intros fd'. by rewrite Ev, Hv.
Qed.

(** A transmission. *)
Lemma sending_send fd buf tr g n tr1 fl r :
  sending fd buf tr g n (mk_world tr1 g) → r = os_answer tr1 (Send fd (rest_of buf n) fl) → 0 ≤ r_ret r →
  sending fd buf tr g (n + r_ret r) (mk_world ((Send fd (rest_of buf n) fl, r) :: tr1) g).
Proof.
  intros [Hq Hg Hr Hs Hv] Er H0. cbn in *. pose proof (Hsane tr1 fd (rest_of buf n) fl) as Hle.
  rewrite <- Er in Hle. unfold rest_of in *. rewrite length_drop in Hle.
  split; cbn [w_trace w_glob]; [|done|lia| |done].
  - destruct Hq as [H1 H2]. split; [|by constructor]. res_solve.
  - cbn [sent]. rewrite Z.eqb_refl, Hs, <- app_assoc. f_equal.
    rewrite Z2Nat.inj_add by lia. by rewrite take_take_drop.
Qed.

Ltac send_other :=
  eapply sending_other; [|eassumption|by intros|by intros
    |first [reflexivity|cbn [sent]; rewrite Z2Nat.nonpos, take_0 by lia; by case_match; rewrite app_nil_r]
    |by intros].

Ltac send_again := split_and!; [repeat send_other|ext_solve|busy_solve].

Lemma tcp_send_data_with_poll_wp fd buf fl tr g :
  wp (tcp_send_data_with_poll fuel fd buf fl) (send_post fd buf tr g) (mk_world tr g).
Proof.
  unfold tcp_send_data_with_poll.
  apply (wp_calm_loop K fuel _ (sending fd buf tr g)); [done|done|apply sending_refl|].
  intros n [tr1 g1] Hs. pose proof (sd_glob _ _ _ _ _ _ Hs) as Hg. cbn in Hg. subst g1.
  wp_run; cbn [w_trace w_glob].
  - by send_again.
  - exists n. split; [by repeat send_other|]. right. lia.
  - exists n. split; [by repeat send_other|]. right. lia.
  - by send_again.
  - exists n. split; [by repeat send_other|]. right. lia.
  - split_and!; [|ext_solve|busy_solve]. apply sending_send; [by repeat send_other|done|lia].
  - by send_again.
  - exists n. split; [done|]. left. pose proof (sd_range _ _ _ _ _ _ Hs). lia.
Qed.

Lemma tcp_send_data_wp fd buf fl tr g : 0 ≤ fd →
  wp (tcp_send_data fuel fd (Some buf) fl) (send_post fd buf tr g) (mk_world tr g).
Proof.
  intros Hfd. unfold tcp_send_data. wp_run; [lia|].
  apply (wp_calm_loop K fuel _ (sending fd buf tr g)); [done|done|apply sending_refl|].
  intros n [tr1 g1] Hs. pose proof (sd_glob _ _ _ _ _ _ Hs) as Hg. cbn in Hg. subst g1.
  wp_run; cbn [w_trace w_glob].
  - by send_again.
  - exists n. split; [by repeat send_other|]. right. lia.
  - split_and!; [|ext_solve|busy_solve]. by apply sending_send; [|done|lia].
  - exists n. split; [done|]. left. pose proof (sd_range _ _ _ _ _ _ Hs). lia.
Qed.

(** The state of a relay from [a] to [b]: the [data] received has been sent on, up to
    [pre] of it. *)
Record relaying (a b : Z) tr g (data pre : list Z) (w : world sp_glob) : Prop := {
  rl_quiet : quiet tr (w_trace w);
  rl_glob : w_glob w = g;
  rl_recv : received a (w_trace w) = received a tr ++ data;
  rl_sent : sent b (w_trace w) = sent b tr ++ pre }.

Definition relay_post (a b : Z) tr g (ret : Z) (w : world sp_glob) : Prop :=
  ∃ data pre, relaying a b tr g data pre w ∧ -1 ≤ ret ≤ 1 ∧ pre `prefix_of` data ∧ (0 ≤ ret → pre = data).

(** An event that carries no data. *)
Lemma relaying_other a b tr g data pre tr1 c r :
  relaying a b tr g data pre (mk_world tr1 g) → r = os_answer tr1 c →
  (∀ fd, fd_delta (c, r) fd = 0) → (∀ p, mem_delta (c, r) p = 0) →
  sent b ((c, r) :: tr1) = sent b tr1 → received a ((c, r) :: tr1) = received a tr1 →
  relaying a b tr g data pre (mk_world ((c, r) :: tr1) g).
Proof.
  intros [[[H1 H2] H3] Hg Hv Hs] Er Hfd Hmem Es Ev. cbn [w_trace w_glob] in *.
  split; cbn [w_trace w_glob]; [|done|by rewrite Ev|by rewrite Es].
  split; [|by constructor]. split; intros x.
  - cbn [fd_balance]. rewrite Hfd, H1. cbn. lia.
  - cbn [mem_balance]. rewrite Hmem, H2. cbn. lia.
Qed.

Ltac relay_other :=
  eapply relaying_other; [|eassumption|by intros|by intros|reflexivity
    |first [reflexivity|cbn [received]; rewrite Z2Nat.nonpos, take_0 by lia; by case_match; rewrite app_nil_r]].

(** What one received chunk does, sent on completely or not. *)
Lemma relaying_chunk a b tr g data tr1 tr2 buf n r :
  relaying a b tr g data data (mk_world tr1 g) →
  r = os_answer tr1 (Recv a MAX_LENGTH 0) → 0 < r_ret r → buf = take (Z.to_nat (r_ret r)) (r_out r) →
  ∀ l rl, rl = os_answer ((Recv a MAX_LENGTH 0, r) :: tr1) (Syslog l "Received [%d] bytes") →
  sending b buf ((Syslog l "Received [%d] bytes", rl) :: (Recv a MAX_LENGTH 0, r) :: tr1) g n (mk_world tr2 g) →
  relaying a b tr g (data ++ buf) (data ++ take (Z.to_nat n) buf) (mk_world tr2 g).
Proof.
  intros [Hq Hg Hv Hs] Er Hpos -> l rl Erl [Hq2 _ _ Hs2 Hv2]. cbn [w_trace w_glob] in *.
  split; cbn [w_trace w_glob]; [|done| |].
  - etrans; [exact Hq|]. etrans; [|exact Hq2]. quiet_solve.
  - rewrite Hv2. cbn [received]. by rewrite Z.eqb_refl, Hv, app_assoc.
  - rewrite Hs2. cbn [sent]. by rewrite Hs, app_assoc.
Qed.

Lemma proxy_recv_and_send_wp a b tr g :
  wp (proxy_recv_and_send fuel a b) (λ ret w, relay_post a b tr g ret w ∧
    (0 < ret → os_ext tr (w_trace w))) (mk_world tr g).
Proof.
  unfold proxy_recv_and_send.
  apply (wp_calm_loop K fuel _ (λ _ w, ∃ data, relaying a b tr g data data w)); [done|done| |].
  { exists []. by split; cbn; rewrite ?app_nil_r. }
  intros [] [tr1 g1] (data & Hs). pose proof (rl_glob _ _ _ _ _ _ _ Hs) as Hg. cbn in Hg. subst g1.
  pose proof (rl_quiet _ _ _ _ _ _ _ Hs) as Hq. cbn in Hq. wp_run; cbn [w_trace w_glob].
  - split; [|intros; ext_solve]. exists data, data. split_and!; [by repeat relay_other|lia|lia|done|done].
  - split; [|lia]. exists data, data. split_and!; [by repeat relay_other|lia|lia|done|done].
  - split; [|lia]. exists data, data. split_and!; [by repeat relay_other|lia|lia|done|done].
  - eapply wp_mono; [apply tcp_send_data_with_poll_wp|]. intros ret [tr2 g2] (n & Hn & Hret).
    pose proof (sd_glob _ _ _ _ _ _ Hn) as Hg. cbn in Hg. subst g2.
    pose proof (sd_quiet _ _ _ _ _ _ Hn) as Hq2. cbn in Hq2.
    assert (Hc := relaying_chunk a b tr g data tr1 tr2 _ n r Hs ltac:(done) ltac:(lia) eq_refl _ _ ltac:(eassumption) Hn).
    wp_run; cbn [w_trace w_glob].
    + split; [|lia]. destruct Hret as [Hret|[-> Hlt]]; [lia|]. do 2 eexists.
      split_and!; [repeat relay_other; exact Hc|lia|lia| |lia].
      apply prefix_app, prefix_take.
    + destruct Hret as [[-> ->]|[-> _]]; [|lia]. rewrite Nat2Z.id, firstn_all in Hc.
      split_and!; [eexists; repeat relay_other; exact Hc|ext_solve|].
      destruct Hq2 as [_ Hx%os_ext_busy]. revert Hx. busy_solve.
Qed.

(** *** Resources *)

(** A call that owns at the end what it owned before and leaves the globals alone. *)
Definition neutral tr g (w : world sp_glob) : Prop := quiet tr (w_trace w) ∧ w_glob w = g.

Lemma neutral_ext tr g tr1 : quiet tr tr1 → neutral tr g (mk_world tr1 g).
Proof. done. Qed.

Lemma splice_with_poll_wp a b len tr g :
  wp (splice_with_poll fuel a b len) (λ _ w, neutral tr g w) (mk_world tr g).
Proof.
  unfold splice_with_poll.
  apply (wp_calm_loop K fuel _ (λ _ w, neutral tr g w)); [done|done|split; [reflexivity|done]|].
  intros [] [tr1 g1] [Hq Hg]. cbn in Hq, Hg. subst g1.
  wp_run; cbn [w_trace w_glob]; try (split; [etrans; [exact Hq|quiet_solve]|done]);
    (split_and!; [split; [etrans; [exact Hq|quiet_solve]|done]|ext_solve|busy_solve]).
Qed.

Lemma make_splice_wp a b p len tr g :
  wp (make_splice fuel a b p len) (λ ret w, neutral tr g w) (mk_world tr g).
Proof.
  unfold make_splice. destruct p as [[p0 p1]|]; [|wp_run; split; [quiet_solve|done]].
  apply (wp_calm_loop K fuel _ (λ _ w, neutral tr g w)); [done|done|split; [reflexivity|done]|].
  intros [] [tr1 g1] [Hq Hg]. cbn in Hq, Hg. subst g1. wp_run; cbn [w_trace w_glob].
  1-3: split; [etrans; [exact Hq|quiet_solve]|done].
  eapply wp_mono; [apply splice_with_poll_wp|]. intros ret [tr2 g2] [Hq2 Hg2]. cbn in Hq2, Hg2. subst g2.
  wp_run; cbn [w_trace w_glob].
  - split; [|done]. etrans; [exact Hq|]. etrans; [|etrans; [exact Hq2|]]; quiet_solve.
  - split; [|done]. etrans; [exact Hq|]. etrans; [|exact Hq2]. quiet_solve.
  - assert (Hq3 : quiet tr1 tr2) by (etrans; [|exact Hq2]; quiet_solve). split_and!.
    + split; [|done]. etrans; [exact Hq|]. etrans; [exact Hq3|]. quiet_solve.
    + ext_solve.
    + destruct Hq2 as [_ Hx%os_ext_busy]. revert Hx. busy_solve.
Qed.

Lemma tunnel_loop_wp a b tr g :
  wp (proxy_poll_and_tunnel fuel a b) (λ ret w, neutral tr g w ∧ -1 ≤ ret ≤ 0) (mk_world tr g).
Proof.
  unfold proxy_poll_and_tunnel. apply wp_bind, wp_sys. intros p Hp.
  destruct (negb (r_ret p =? 0)) eqn:Ep; [wp_run; split; [split; [quiet_solve|done]|lia]|].
  apply wp_bind. set (trp := (Pipe, p) :: tr).
  eapply wp_mono.
  { apply (wp_calm_loop K fuel _ (λ _ w, neutral trp g w) (λ ret w, neutral trp g w ∧ -1 ≤ ret ≤ 0));
      [done|done|split; [reflexivity|done]|].
    intros [] [tr1 g1] [Hq Hg]. cbn in Hq, Hg. subst g1. wp_run; cbn [w_trace w_glob].
    - split; [split; [etrans; [exact Hq|quiet_solve]|done]|lia].
    - split; [split; [etrans; [exact Hq|quiet_solve]|done]|lia].
    - eapply wp_mono; [apply proxy_recv_and_send_wp|].
      intros ret [tr2 g2] [(data & pre & [Hq2 Hg2 _ _] & Hrange & _) _]. cbn in Hq2, Hg2. subst g2.
      assert (Hq3 : quiet tr1 tr2) by (etrans; [|exact Hq2]; quiet_solve).
      wp_run; cbn [w_trace w_glob].
      + split; [split; [etrans; [exact Hq|etrans; [exact Hq3|quiet_solve]]|done]|lia].
      + split; [split; [etrans; [exact Hq|etrans; [exact Hq3|quiet_solve]]|done]|lia].
      + split_and!; [split; [etrans; [exact Hq|exact Hq3]|done]|apply Hq3|].
        destruct Hq2 as [_ Hx%os_ext_busy]. revert Hx. busy_solve.
    - eapply wp_mono; [apply make_splice_wp|].
      intros ret [tr2 g2] [Hq2 Hg2]. cbn in Hq2, Hg2. subst g2.
      assert (Hq3 : quiet tr1 tr2) by (etrans; [|exact Hq2]; quiet_solve).
      wp_run; cbn [w_trace w_glob].
      + split; [split; [etrans; [exact Hq|etrans; [exact Hq3|quiet_solve]]|done]|lia].
      + split; [split; [etrans; [exact Hq|exact Hq3]|done]|lia].
      + split_and!; [split; [etrans; [exact Hq|exact Hq3]|done]|apply Hq3|].
        destruct Hq2 as [_ Hx%os_ext_busy]. revert Hx. busy_solve.
    - split_and!; [split; [etrans; [exact Hq|quiet_solve]|done]|ext_solve|busy_solve]. }
  intros ret [tr2 g2] [[Hq Hg] Hret]. cbn in Hq, Hg. subst g2 trp. wp_run. cbn [w_trace w_glob].
  split; [|done]. split; [|done]. cbn [w_trace]. apply negb_false_iff in Ep.
  destruct Hq as [[H1 H2] H3]. split; [|ext_solve].
  split; intros x; cbn [fd_balance mem_balance fd_delta mem_delta].
  - rewrite H1. cbn [fd_balance fd_delta count foldr]. rewrite Ep. lia.
  - rewrite H2. cbn [mem_balance mem_delta count foldr]. lia.
Qed.

(** A connect function: the new socket on success; on failure at most the socket it made, which
    nobody closes. *)
Definition connect_post tr g (r : Z * option Z) (w : world sp_glob) : Prop :=
  os_ext tr (w_trace w) ∧ w_glob w = g ∧
  (r.1 = 0 ∧ (∃ s, r.2 = Some s ∧ res_delta tr (w_trace w) [s] []) ∨
   r.1 = -1 ∧ r.2 = None ∧ ∃ leak, lost_socket tr (w_trace w) leak ∧ res_delta tr (w_trace w) leak []).

Ltac connect_case :=
  split_and!; [cbn [w_trace]; ext_solve|done|cbn [fst snd w_trace w_glob]];
  first [ left; split; [done|eexists; split; [done|res_solve]]
        | right; split; [done|]; split; [done|]; first [exists []; split; [by left|by res_solve]
        | match goal with H : (r_ret ?s <? 0) = false |- _ => exists [r_ret s]; split; [lost_solve|by res_solve] end ] ].

Lemma sp_tcp_connect_wp ip port tr g :
  wp (tcp_connect_to_server ip port) (connect_post tr g) (mk_world tr g).
Proof. unfold tcp_connect_to_server. wp_run; connect_case. Qed.

Lemma tcp_transparent_connect_wp ip port cip cport tr g :
  wp (tcp_transparent_connect_to_server junk_port ip port cip cport) (connect_post tr g) (mk_world tr g).
Proof. unfold tcp_transparent_connect_to_server. wp_run; connect_case. Qed.

Lemma sp_set_non_blocking_wp fd tr g :
  wp (set_socket_non_blocking fd) (λ _ w, neutral tr g w) (mk_world tr g).
Proof. unfold set_socket_non_blocking. wp_run; (split; [quiet_solve|done]). Qed.

(** What [tunnel_the_request] gives back: the client's descriptor and the request, less
    the socket that a failed connect function has lost. *)
Definition tunnel_post (arg : Z) (i : Proxy_Info) tr g (leak : list Z) (w : world sp_glob) : Prop :=
  lost_socket tr (w_trace w) leak ∧
  (∀ fd, fd_balance (w_trace w) fd + count fd [client_socket i] = fd_balance tr fd + count fd leak) ∧
  (∀ p, mem_balance (w_trace w) p + count p [arg] = mem_balance tr p) ∧
  infos (w_glob w) = delete arg (infos g) ∧ g_server_socket (w_glob w) = g_server_socket g.

Lemma tunnel_label1_wp arg i leak tr0 tr g : arg ≠ NULL → infos g !! arg = Some i →
  lost_socket tr0 tr leak → res_delta tr0 tr leak [] →
  wp (tunnel_label1 arg) (λ _ w, tunnel_post arg i tr0 g leak w) (mk_world tr g).
Proof.
  intros Ha Hi Hl [H1 H2]. unfold tunnel_label1, load_info, set_infos. wp_run. rewrite Hi. wp_run.
  split; [lost_solve|]. unfold NULL in *. cbn [w_trace w_glob infos g_server_socket fd_balance mem_balance fd_delta mem_delta].
  split_and!; [intros fd; specialize (H1 fd)|intros p; specialize (H2 p)|done|done];
    cbn [count foldr] in *; lia.
Qed.

Lemma tunnel_label_wp arg i tr0 tr g g0 : arg ≠ NULL → infos g !! arg = Some i →
  res_delta tr0 tr [os_socket i] [] → delete arg (infos g) = delete arg (infos g0) →
  g_server_socket g = g_server_socket g0 →
  wp (tunnel_label arg) (λ _ w, tunnel_post arg i tr0 g0 [] w) (mk_world tr g).
Proof.
  intros Ha Hi [H1 H2] Hd Hg. unfold tunnel_label, load_info, set_infos. wp_run. rewrite Hi. wp_run.
  split; [by left|]. unfold NULL in *. cbn [w_trace w_glob infos g_server_socket fd_balance mem_balance fd_delta mem_delta].
  split_and!; [intros fd; specialize (H1 fd)|intros p; specialize (H2 p)|done|done];
    cbn [count foldr] in *; lia.
Qed.

Lemma tunnel_connected_wp arg i r err tr0 tr g : arg ≠ NULL →
  infos g !! arg = Some i → connect_post tr0 g r (mk_world tr g) →
  wp (tunnel_connected fuel arg r err) (λ _ w, ∃ leak,
    tunnel_post arg i tr0 g leak w) (mk_world tr g).
Proof.
  intros Ha Hi (Hext & _ & Hc). cbn [w_trace] in *. destruct r as [ret sock]. cbn [fst snd] in *.
  unfold tunnel_connected, load_info at 1 2, set_infos at 1. apply wp_bind.
  destruct Hc as [(-> & s & -> & Hd)|(-> & -> & leak & Hl & Hd)].
  - wp_run. rewrite Hi. wp_run. cbn [infos]. rewrite lookup_insert_eq. wp_run.
    cbn [client_socket os_socket]. eapply wp_mono; [apply sp_set_non_blocking_wp|].
    intros nb [tr1 g1] [[Hq _] Hg]. cbn [w_trace w_glob] in Hq, Hg. subst g1.
    assert (Hfin : ∀ tr2, res_eq tr1 tr2 → wp (tunnel_label arg) (λ _ w, ∃ leak,
      tunnel_post arg i tr0 g leak w)
      (mk_world tr2 (mk_sp (g_server_socket g) (g_dest_ip g) (g_dest_port g) (g_splice_size g)
         (<[arg := mk_info (client_socket i) (client_address i) s]> (infos g))))).
    { intros tr2 H2. eapply wp_mono.
      - eapply (tunnel_label_wp arg (mk_info (client_socket i) (client_address i) s) tr0); [done|..];
          cbn [infos os_socket g_server_socket]; [apply lookup_insert_eq| |apply delete_insert_eq|done].
        by rewrite <- H2, <- Hq.
      - intros [] w Hp. by exists []. }
    wp_run.
    + apply Hfin. res_solve.
    + eapply wp_mono; [apply tunnel_loop_wp|]. intros ret [tr2 g2] [[[Hq2 _] Hg2] Hret].
      cbn [w_trace w_glob] in Hq2, Hg2. subst g2.
      assert (Hq3 : res_eq tr1 tr2) by (rewrite <- Hq2; res_solve). wp_run; [|by apply Hfin|lia].
      apply Hfin. rewrite Hq3. res_solve.
  - wp_run. rewrite Hi. wp_run.
    eapply wp_mono; [eapply (tunnel_label1_wp arg i leak tr0); [done|done|lost_solve|]|].
    { destruct Hd as [H1 H2]. split; [exact H1|exact H2]. }
    intros [] w Hp. by exists leak.
Qed.

Lemma tunnel_the_request_wp arg i tr g : arg ≠ NULL → infos g !! arg = Some i →
  is_Some (c_string (g_dest_ip g)) →
  wp (tunnel_the_request fuel junk_port arg) (λ _ w, ∃ leak,
    tunnel_post arg i tr g leak w) (mk_world tr g).
Proof.
  intros Ha Hi [ip Hip]. unfold tunnel_the_request, load_info.
  rewrite (proj2 (Z.eqb_neq _ _) Ha). wp_run. rewrite Hi. wp_run. rewrite Hip. wp_run.
  eapply wp_mono; [apply tcp_transparent_connect_wp|]. intros cr [tr1 g1] Hc.
  pose proof Hc as (_ & Hg & _). cbn [w_glob] in Hg. subst g1.
  eapply wp_mono.
  - eapply (tunnel_connected_wp arg i cr _ tr); [done|done|]. destruct Hc as (Hx & _ & Hd).
    split_and!; [cbn [w_trace] in *; ext_solve|done|]. destruct Hd as [(? & s & ? & Hd)|(? & ? & leak & ? & Hd)].
    + left. split; [done|]. exists s. split; [done|]. cbn [w_trace] in *. res_solve.
    + right. split_and!; [done|done|]. exists leak. split; [cbn [w_trace] in *; by lost_widen|]. destruct Hd as [Hd1 Hd2].
      split; [exact Hd1|exact Hd2].
  - intros [] w (leak & ?). eauto.
Qed.

Lemma tunnel_the_request_exp_wp arg i tr g : arg ≠ NULL → infos g !! arg = Some i →
  is_Some (c_string (g_dest_ip g)) →
  wp (tunnel_the_request_exp fuel arg) (λ _ w, ∃ leak,
    tunnel_post arg i tr g leak w) (mk_world tr g).
Proof.
  intros Ha Hi [ip Hip]. unfold tunnel_the_request_exp, load_info.
  rewrite (proj2 (Z.eqb_neq _ _) Ha). wp_run. rewrite Hi. wp_run. rewrite Hip. wp_run.
  eapply wp_mono; [apply sp_tcp_connect_wp|]. intros cr [tr1 g1] Hc.
  pose proof Hc as (_ & Hg & _). cbn [w_glob] in Hg. subst g1.
  eapply wp_mono.
  - eapply (tunnel_connected_wp arg i cr _ tr); [done|done|]. destruct Hc as (Hx & _ & Hd).
    split_and!; [cbn [w_trace] in *; ext_solve|done|]. destruct Hd as [(? & s & ? & Hd)|(? & ? & leak & ? & Hd)].
    + left. split; [done|]. exists s. split; [done|]. cbn [w_trace] in *. res_solve.
    + right. split_and!; [done|done|]. exists leak. split; [cbn [w_trace] in *; by lost_widen|]. destruct Hd as [Hd1 Hd2].
      split; [exact Hd1|exact Hd2].
  - intros [] w (leak & ?). eauto.
Qed.

End specs.

(** ** Theorems *)

(** A transmission is complete or reported.  Both send functions return, whatever
    partial sends, interruptions and time-outs the kernel produces (finitely many busy
    answers, [fuel] above their number): the result is the length of the buffer and the
    kernel has accepted exactly the buffer's bytes in order, or it is -1 and the kernel
    has accepted a proper prefix of them. *)
Theorem send_all_or_prefix {os : OS} fuel K fd buf fl tr g :
  calms_down K → (K < fuel)%nat → send_sane → 0 ≤ fd →
  let post (ret : Z) (w : world sp_glob) :=
    (ret = Z.of_nat (length buf) ∧ sent fd (w_trace w) = sent fd tr ++ buf) ∨
    (ret = -1 ∧ ∃ n, (n < length buf)%nat ∧ sent fd (w_trace w) = sent fd tr ++ take n buf) in
  wp (tcp_send_data fuel fd (Some buf) fl) post (mk_world tr g) ∧
  wp (tcp_send_data_with_poll fuel fd buf fl) post (mk_world tr g).
Proof.
  intros HK Hf Hs Hfd post.
  assert (Hpost : ∀ ret w, send_post fd buf tr g ret w → post ret w).
  { intros ret w (n & [_ _ Hr Hsent _] & [[-> ->]|[-> Hlt]]).
    - left. split; [done|]. by rewrite Hsent, Nat2Z.id, firstn_all.
    - right. split; [done|]. exists (Z.to_nat n). split; [lia|done]. }
  split; (eapply wp_mono; [|exact Hpost]).
  - by eapply (tcp_send_data_wp fuel K).
  - by eapply (tcp_send_data_with_poll_wp fuel K).
Qed.

(** C13: the client-to-server direction relays bytes in order.  [proxy_recv_and_send]
    returns -1, 0 or 1; what it has sent on since it was called is a prefix of what it
    has received, and all of it unless the result is an error; descriptors, heap and
    globals are as before. *)
Theorem relay_in_order {os : OS} fuel K a b tr g :
  calms_down K → (K < fuel)%nat → send_sane →
  wp (proxy_recv_and_send fuel a b) (λ ret w, ∃ data pre,
    received a (w_trace w) = received a tr ++ data ∧ sent b (w_trace w) = sent b tr ++ pre ∧
    pre `prefix_of` data ∧ (0 ≤ ret → pre = data) ∧ -1 ≤ ret ≤ 1 ∧
    res_eq tr (w_trace w) ∧ w_glob w = g) (mk_world tr g).
Proof.
  intros HK Hf Hs. eapply wp_mono; [by eapply (proxy_recv_and_send_wp fuel K)|].
  intros ret w [(data & pre & [[Hq _] Hg Hv Hse] & Hr & Hp & Hz) _]. exists data, pre. done.
Qed.

(** C7: a request gives back what it owns.  When the kernel's [send] accepts no more than it is given and the tunnel is kept busy
    finitely often, [tunnel_the_request] (of both proxies) called with a request
    returns whatever the peers do, closes the client's descriptor exactly once, frees
    the request exactly once and removes it, and closes the pipe and the server's
    socket; the only descriptor that can be left over is the socket that this call has made and whose
    connection was never established. *)
Theorem tunnel_gives_back {os : OS} fuel K junk_port arg i tr g :
  calms_down K → (K < fuel)%nat → send_sane →
  arg ≠ NULL → infos g !! arg = Some i → is_Some (c_string (g_dest_ip g)) →
  let post (w : world sp_glob) := ∃ leak, lost_socket tr (w_trace w) leak ∧
    (∀ fd, fd_balance (w_trace w) fd + count fd [client_socket i] = fd_balance tr fd + count fd leak) ∧
    (∀ p, mem_balance (w_trace w) p + count p [arg] = mem_balance tr p) ∧
    infos (w_glob w) = delete arg (infos g) ∧ g_server_socket (w_glob w) = g_server_socket g in
  wp (tunnel_the_request fuel junk_port arg) (λ _, post) (mk_world tr g) ∧
  wp (tunnel_the_request_exp fuel arg) (λ _, post) (mk_world tr g).
Proof.
  intros HK Hf Hs Ha Hi Hip post. split.
  - by eapply (tunnel_the_request_wp fuel K).
  - by eapply (tunnel_the_request_exp_wp fuel K).
Qed.

(** A failed connection leaks its socket.  When [socket] and [inet_aton] succeed and
    [connect] fails, [tcp_connect_to_server] returns -1 and the descriptor stays open:
    it is neither closed nor handed to the caller. *)
Theorem connect_failure_leaks {os : OS} ip port tr g :
  0 ≤ port ≤ 65535 → (∀ tr, 0 ≤ r_ret (os_answer tr Socket)) →
  (∀ tr ip, r_ret (os_answer tr (InetAton ip)) ≠ 0) →
  (∀ tr fd a p, r_ret (os_answer tr (Connect fd a p)) < 0) →
  wp (tcp_connect_to_server (Some ip) port) (λ r w,
    r = (-1, None) ∧ ∃ fd, 0 ≤ fd ∧ res_delta tr (w_trace w) [fd] []) (mk_world tr g).
Proof.
  intros Hp Hs Ha Hc. unfold tcp_connect_to_server. wp_run; try lia.
  - specialize (Hs tr). subst; lia.
  - exfalso. subst. eapply Ha. by apply Z.eqb_eq.
  - split; [done|]. exists (r_ret r). split; [lia|]. res_solve.
  - exfalso. match goal with H : ?r = os_answer ?t (Connect ?fd ?a ?p) |- _ => specialize (Hc t fd a p) end.
    subst; lia.
Qed.

(** *** Witnesses *)

(** A kernel that delivers one chunk, accepts two bytes at a time and calms down. *)
Definition demo_os : OS := calm_os 6 (λ tr c,
  match c with
  | Recv _ _ _ => if existsb (λ e, match e.1 with Recv _ _ _ => true | _ => false end) tr
                  then mk_reply 0 0 [] else mk_reply 3 0 [7; 8; 9]
  | Send _ b _ => mk_reply (Z.min 2 (Z.of_nat (length b))) 0 []
  | Poll _ _ => mk_reply 1 0 [POLLOUT]
  | _ => mk_reply 1 0 [127]
  end).

Lemma demo_sane : send_sane (os := demo_os).
Proof.
  intros tr fd b fl. unfold os_answer, demo_os, calm_os. destruct (_ <=? _)%nat; cbn; lia.
Qed.

Definition sp0 : sp_glob := mk_sp 3 (strncpy 16 "10.0.0.2") 80 4096 {[ 64 := mk_info 5 (1, 2) 0 ]}.

Lemma send_all_or_prefix_witness :
  let post (ret : Z) (w : world sp_glob) :=
    (ret = 5 ∧ sent 5 (w_trace w) = sent 5 [] ++ [1; 2; 3; 4; 5]) ∨
    (ret = -1 ∧ ∃ n, (n < 5)%nat ∧ sent 5 (w_trace w) = sent 5 [] ++ take n [1; 2; 3; 4; 5]) in
  wp (tcp_send_data (os := demo_os) 7 5 (Some [1; 2; 3; 4; 5]) 0) post (mk_world [] sp0) ∧
  wp (tcp_send_data_with_poll (os := demo_os) 7 5 [1; 2; 3; 4; 5] 0) post (mk_world [] sp0).
Proof.
  apply (send_all_or_prefix (os := demo_os) 7 6 5 [1; 2; 3; 4; 5] 0 [] sp0);
    [apply calm_os_calms|lia|apply demo_sane|lia].
Defined.

Lemma relay_in_order_witness :
  wp (proxy_recv_and_send (os := demo_os) 7 5 6) (λ ret w, ∃ data pre,
    received 5 (w_trace w) = received 5 [] ++ data ∧ sent 6 (w_trace w) = sent 6 [] ++ pre ∧
    pre `prefix_of` data ∧ (0 ≤ ret → pre = data) ∧ -1 ≤ ret ≤ 1 ∧
    res_eq [] (w_trace w) ∧ w_glob w = sp0) (mk_world [] sp0).
Proof.
  apply (relay_in_order (os := demo_os) 7 6 5 6 [] sp0); [apply calm_os_calms|lia|apply demo_sane].
Defined.

Lemma tunnel_gives_back_witness :
  let post (w : world sp_glob) := ∃ leak, lost_socket [] (w_trace w) leak ∧
    (∀ fd, fd_balance (w_trace w) fd + count fd [5] = fd_balance [] fd + count fd leak) ∧
    (∀ p, mem_balance (w_trace w) p + count p [64] = mem_balance [] p) ∧
    infos (w_glob w) = delete 64 (infos sp0) ∧ g_server_socket (w_glob w) = 3 in
  wp (tunnel_the_request (os := demo_os) 7 0 64) (λ _, post) (mk_world [] sp0) ∧
  wp (tunnel_the_request_exp (os := demo_os) 7 64) (λ _, post) (mk_world [] sp0).
Proof.
  apply (tunnel_gives_back (os := demo_os) 7 6 0 64 (mk_info 5 (1, 2) 0) [] sp0);
    [apply calm_os_calms|lia|apply demo_sane|done|reflexivity|].
  exists "10.0.0.2"%string. reflexivity.
Defined.

(** A kernel on which every connection fails. *)
Definition refusing_os : OS := λ tr c,
  match c with Connect _ _ _ => mk_reply (-1) 111 [] | _ => mk_reply 4 0 [1] end.

Lemma connect_failure_leaks_witness :
  wp (tcp_connect_to_server (os := refusing_os) (Some "10.0.0.2"%string) 80) (λ r w,
    r = (-1, None) ∧ ∃ fd, 0 ≤ fd ∧ res_delta [] (w_trace w) [fd] []) (mk_world [] sp0).
Proof.
  apply (connect_failure_leaks (os := refusing_os) "10.0.0.2"%string 80 [] sp0);
    intros; cbn; lia.
Defined.

(** *** Bytes left in the pipe *)

(** How many bytes were spliced into and out of the pipe with descriptors [p0], [p1]. *)
Fixpoint piped (p0 p1 : Z) (tr : list event) : Z * Z :=
  match tr with
  | [] => (0, 0)
  | (Splice a b _ _, r) :: tr =>
      let '(i, o) := piped p0 p1 tr in
      (i + (if b =? p1 then Z.max 0 (r_ret r) else 0), o + (if a =? p0 then Z.max 0 (r_ret r) else 0))
  | _ :: tr => piped p0 p1 tr
  end.

(** A kernel with 100 bytes from the server of which the client's socket takes 60 at
    once, after which both sides are silent. *)
Definition slow_client_os : OS := λ tr c,
  let n := busy_count tr in
  match c with
  | Pipe => mk_reply 0 0 [8; 9]
  | Poll [_] _ => mk_reply 1 0 [POLLOUT]
  | Poll _ _ => if (n =? 0)%nat then mk_reply 1 0 [0; POLLIN] else mk_reply 0 0 []
  | Splice _ 9 _ _ => if (n =? 1)%nat then mk_reply 100 0 [] else mk_reply (-1) EAGAIN []
  | Splice 8 _ _ _ => mk_reply 60 0 []
  | _ => mk_reply 0 0 []
  end.

(** The server-to-client direction can lose data.  [splice_with_poll] moves what the
    client's socket accepts at once and [make_splice] does not come back for the rest:
    with a client that takes 60 of 100 bytes, [make_splice] returns 1 (poll again) with
    40 bytes in the pipe, and when the tunnel then times out the pipe is closed with
    them inside. *)
Theorem splice_loses_residue :
  (∃ w, make_splice (os := slow_client_os) 3 4 5 (Some (8, 9)) 4096
          (mk_world [(Poll [(5, 3); (4, 3)] SPROXY_POLL_TIMEOUT, mk_reply 1 0 [0; POLLIN])] sp0) = Ok 1 w ∧
        piped 8 9 (w_trace w) = (100, 60)) ∧
  (∃ w, proxy_poll_and_tunnel (os := slow_client_os) 3 5 4 (mk_world [] sp0) = Ok (-1) w ∧
        piped 8 9 (w_trace w) = (100, 60) ∧
        fd_balance (w_trace w) 8 = 0 ∧ fd_balance (w_trace w) 9 = 0).
Proof. split; eexists; split_and!; vm_compute; reflexivity. Qed.
