(* ===== verification/HimProxy.v ===== *)
(** * HimProxy (src/networking/himproxy)

    A pre-forking transparent proxy: the parent process binds a socket, forks children
    and waits for them; each child runs an epoll loop that accepts clients and receives
    their data into growing buffers.  The functions run against an arbitrary kernel;
    [fuel] bounds the rounds of each loop. *)

From Stdlib Require Import ZArith Lia ZifyBool Ascii.
From stdpp Require Import base gmap list strings numbers.
From S2P Require Import Prelude Posix.

(** ** Data (include/core.h, include/poller.h, include/globals.h) *)

Definition MAX_CHILD : Z := 16.
Definition ALLOC_SIZE : Z := 8192.
Definition REALLOC_THRESHOLD : Z := 128.
Definition EPOLL_MAX_EVENTS : Z := 10000.

Inductive event_flag := EVENT_IN | EVENT_OUT | EVENT_INOUT | EVENT_OTHER (n : Z).
Inductive poll_side := PROXY_SIDE | CLIENT_SIDE | SERVER_SIDE.

(** [struct client_info]: the receive buffer is its address and the bytes of its block, as many
    as were requested; [cbuf_size] is the size the code believes it has, and [cbuf_len] bytes
    of it are used. *)
Record client_info := mk_client {
  client_sock : Z;
  cbuf : Z;
  cbuf_data : list Z;
  cbuf_size : Z;
  cbuf_len : Z }.

(** [struct poller_info]. *)
Record poller_info := mk_poller { epoll_fd : Z; events : Z; event_size : Z }.

(** The global and static variables and the heap objects of a process. *)
Record hp_glob := mk_hp {
  g_log_level : Z;
  g_server_sock : Z;
  g_num_child : Z;
  g_active_child_count : Z;
  g_child_table : list Z;
  listen_ip : list Ascii.ascii;
  listen_port : Z;
  poll_info : Z;
  pollers : gmap Z poller_info;
  ctxs : gmap Z poll_side;
  clients : gmap Z client_info }.

Definition proxy_ctx : Z := 1.

Section setters.
Abbreviation HP := (M (world hp_glob)).
Definition set_active (n : Z) : HP unit :=
  upd_glob (λ g, mk_hp (g_log_level g) (g_server_sock g) (g_num_child g) n (g_child_table g) (listen_ip g)
                       (listen_port g) (poll_info g) (pollers g) (ctxs g) (clients g)).
Definition set_table (l : list Z) : HP unit :=
  upd_glob (λ g, mk_hp (g_log_level g) (g_server_sock g) (g_num_child g) (g_active_child_count g) l (listen_ip g)
                       (listen_port g) (poll_info g) (pollers g) (ctxs g) (clients g)).
Definition set_server_sock (s : Z) : HP unit :=
  upd_glob (λ g, mk_hp (g_log_level g) s (g_num_child g) (g_active_child_count g) (g_child_table g) (listen_ip g)
                       (listen_port g) (poll_info g) (pollers g) (ctxs g) (clients g)).
Definition set_options (log num port : Z) (ip : list Ascii.ascii) : HP unit :=
  upd_glob (λ g, mk_hp log (g_server_sock g) num (g_active_child_count g) (g_child_table g) ip
                       port (poll_info g) (pollers g) (ctxs g) (clients g)).
Definition set_poller (p : Z) (m : gmap Z poller_info) : HP unit :=
  upd_glob (λ g, mk_hp (g_log_level g) (g_server_sock g) (g_num_child g) (g_active_child_count g) (g_child_table g)
                       (listen_ip g) (listen_port g) p m (ctxs g) (clients g)).
Definition set_ctxs (m : gmap Z poll_side) : HP unit :=
  upd_glob (λ g, mk_hp (g_log_level g) (g_server_sock g) (g_num_child g) (g_active_child_count g) (g_child_table g)
                       (listen_ip g) (listen_port g) (poll_info g) (pollers g) m (clients g)).
Definition set_clients (m : gmap Z client_info) : HP unit :=
  upd_glob (λ g, mk_hp (g_log_level g) (g_server_sock g) (g_num_child g) (g_active_child_count g) (g_child_table g)
                       (listen_ip g) (listen_port g) (poll_info g) (pollers g) (ctxs g) m).
End setters.

(** An access to [g_child_table\[i\]] outside its bounds is undefined. *)
Definition table_get (l : list Z) (i : Z) : option Z :=
  if (0 <=? i) && (i <? MAX_CHILD) then l !! Z.to_nat i else None.
Definition table_set (l : list Z) (i v : Z) : option (list Z) :=
  if (0 <=? i) && (i <? MAX_CHILD) then Some (<[Z.to_nat i := v]> l) else None.

Section code.
Context {os : OS} (fuel : nat).
(** [handle_client_data] is declared and called but not defined in the source. *)
Context (handle_client_data : Z → M (world hp_glob) Z).
(** What an uninitialised [sin_port] holds. *)
Context (junk_port : Z).

Abbreviation HP := (M (world hp_glob)).

(** ** log.c *)

Definition open_system_logger (log_ident : string) (log_level : Z) : HP Z :=
  let log_options := Z.lor LOG_PID LOG_NDELAY in
  let log_facility := LOG_LOCAL1 in
  sys_ (Openlog log_ident log_options log_facility);;
  sys_ (Setlogmask (Z.shiftl 1 (log_level + 1) - 1));;
  mret 0.

Definition close_system_logger : HP Z := sys_ Closelog;; mret 0.

(** ** network.c: [None] is a NULL pointer *)

Definition set_socket_non_blocking (sock : option Z) : HP Z :=
  match sock with
  | None => mret (-1)
  | Some sock =>
      r ← sys (FcntlGetFL sock);
      if r_ret r <? 0 then log_msg LOG_ERR "fcntl Error [%d] [%s] when F_GETFL";; mret (-2)
      else
        s ← sys (FcntlSetFL sock (Z.lor (r_ret r) O_NONBLOCK));
        if r_ret s <? 0 then log_msg LOG_ERR "fcntl Error [%d] [%s] when F_SETFL";; mret (-3)
        else mret 0
  end.

(** The result and the value stored through [server_sock]; the source tests the
    pointer, not the descriptor, so [-2] is never returned. *)
Definition tcp_bind_and_listen (bind_ip : option string) (bind_port : Z) : HP (Z * option Z) :=
  match bind_ip with
  | None => mret (-1, None)
  | Some bind_ip =>
      if (bind_port <? 0) || (65535 <? bind_port) then mret (-1, None)
      else
        s ← sys Socket;
        let server_sock := r_ret s in
        sys_ (Setsockopt server_sock SOL_SOCKET SO_REUSEADDR [1]);;
        a ← sys (InetAton bind_ip);
        if r_ret a =? 0 then mret (-3, Some server_sock)
        else
          b ← sys (Bind server_sock (r_out a !!! 0%nat) bind_port);
          if r_ret b <? 0 then log_msg LOG_ERR "Bind Error [%d] [%s] ";; mret (-4, Some server_sock)
          else
            l ← sys (Listen server_sock 128);
            if r_ret l <? 0 then log_msg LOG_ERR "Listen Error [%d] [%s] ";; mret (-5, Some server_sock)
            else mret (0, Some server_sock)
  end.

(** The result and the value stored through [local_sock]: here the caller sees the
    descriptor also when the call fails. *)
Definition tcp_connect_to_server (server_ip : option string) (server_port : Z) : HP (Z * option Z) :=
  match server_ip with
  | None => mret (-1, None)
  | Some server_ip =>
      if (server_port <? 0) || (65535 <? server_port) then mret (-1, None)
      else
        s ← sys Socket;
        let sock := r_ret s in
        if sock <? 0 then log_msg LOG_ERR "Socket Creation Error [%d] [%s] ";; mret (-2, Some sock)
        else
          a ← sys (InetAton server_ip);
          if r_ret a =? 0 then mret (-3, Some sock)
          else
            c ← sys (Connect sock (r_out a !!! 0%nat) server_port);
            if r_ret c <? 0 then log_msg LOG_ERR "Error [%d] [%s] in connect !!! ";; mret (-4, Some sock)
            else mret (0, Some sock)
  end.

Definition tcp_transparent_connect_to_server (server_ip : option string) (server_port : Z)
    (client_ip : string) (client_port : Z) : HP (Z * option Z) :=
  match server_ip with
  | None => mret (-1, None)
  | Some server_ip =>
      if (server_port <? 0) || (65535 <? server_port) then mret (-1, None)
      else
        s ← sys Socket;
        let sock := r_ret s in
        if sock <? 0 then log_msg LOG_ERR "Socket Creation Error [%d] [%s] ";; mret (-2, None)
        else
          sys_ (Setsockopt sock SOL_SOCKET SO_REUSEADDR [1]);;
          t ← sys (Setsockopt sock SOL_IP IP_TRANSPARENT [1]);
          if r_ret t <? 0 then log_msg LOG_ERR "Error [%d] [%s] in setsockopt !!! ";; mret (-3, None)
          else
            ca ← sys (InetAton client_ip);
            if r_ret ca =? 0 then mret (-4, None)
            else
              b ← sys (Bind sock (r_out ca !!! 0%nat) junk_port);
              if r_ret b <? 0 then
                log_msg LOG_ERR "Error [%d] [%s] in bind for Client [%s : %d]!!! ";; mret (-5, None)
              else
                a ← sys (InetAton server_ip);
                if r_ret a =? 0 then mret (-6, None)
                else
                  c ← sys (Connect sock (r_out a !!! 0%nat) server_port);
                  if r_ret c <? 0 then
                    log_msg LOG_ERR "Error [%d] [%s] in connect !!! ";; mret (-7, None)
                  else mret (0, Some sock)
  end.

Definition set_socket_ip_transparent (sock : option Z) : HP Z :=
  match sock with
  | None => log_msg LOG_ERR "NULL params passed";; mret (-1)
  | Some sock =>
      r ← sys (Setsockopt sock SOL_IP IP_TRANSPARENT [1]);
      if r_ret r <? 0 then log_msg LOG_CRIT "Error %d %s in setsockopt";; mret (-2)
      else mret (r_ret r)
  end.

(** The result, the address stored in [*dest_ip] and the port stored in [*dest_port].
    The source tests [dest_ip], not [*dest_ip], so a failing [strdup] is not noticed. *)
Definition get_orig_dest_addr (sock : Z) : HP (Z * option (Z * Z)) :=
  r ← sys (Getsockname sock);
  if r_ret r <? 0 then log_msg LOG_ERR "Error %d %s in getsockopt";; mret (-1, None)
  else
    n ← sys (InetNtoa (r_out r !!! 0%nat));
    d ← sys (Malloc (Z.of_nat (length (r_out n)) + 1));
    mret (r_ret r, Some (r_ret d, u16 (r_out r !!! 1%nat))).

(** ** poller.c *)

Definition sizeof_poller_info : Z := 24.
Definition sizeof_epoll_event : Z := 12.

(** The result and the value stored through [poller_info]. *)
Definition init_poller : HP (Z * Z) :=
  m ← sys (Malloc sizeof_poller_info);
  let p := r_ret m in
  g ← get_glob;
  set_poller p (pollers g);;
  if p =? NULL then log_msg LOG_ERR "Error in malloc";; mret (-1, p)
  else
    e ← sys EpollCreate;
    g ← get_glob;
    set_poller p (<[p := mk_poller (r_ret e) 0 0]> (pollers g));;
    if r_ret e <? 0 then log_msg LOG_ERR "Error [%d] [%s] in epoll_create1";; mret (-2, p)
    else
      c ← sys (Calloc EPOLL_MAX_EVENTS sizeof_epoll_event);
      g ← get_glob;
      set_poller p (<[p := mk_poller (r_ret e) (r_ret c) EPOLL_MAX_EVENTS]> (pollers g));;
      if r_ret c =? NULL then
        log_msg LOG_CRIT "Error in calloc";; sys_ (Close (r_ret e));; mret (-3, p)
      else mret (0, p).

Definition load_poller (p : Z) : HP poller_info := g ← get_glob; expect (pollers g !! p).

Definition destroy_poller (p : Z) : HP Z :=
  if p =? NULL then log_msg LOG_ERR "NULL params received";; mret (-1)
  else
    i ← load_poller p;
    sys_ (Close (epoll_fd i));;
    sys_ (Free (events i));;
    g ← get_glob;
    set_poller (poll_info g) (<[p := mk_poller (epoll_fd i) NULL (event_size i)]> (pollers g));;
    mret 0.

Definition event_bits (f : event_flag) : option Z :=
  match f with
  | EVENT_IN => Some (Z.lor EPOLLIN (Z.lor EPOLLPRI EPOLLET))
  | EVENT_OUT => Some (Z.lor EPOLLOUT EPOLLET)
  | EVENT_INOUT => Some (Z.lor EPOLLIN (Z.lor EPOLLPRI (Z.lor EPOLLOUT EPOLLET)))
  | EVENT_OTHER _ => None
  end.

Definition add_to_poller (epoll_fd fd : Z) (f : event_flag) (data : Z) : HP Z :=
  match event_bits f with
  | None => log_msg LOG_ERR "Invalid event_flag [%d]";; mret (-1)
  | Some bits =>
      r ← sys (EpollCtlAdd epoll_fd fd bits data);
      if r_ret r <? 0 then log_msg LOG_ERR "Error [%d] [%s] in epoll_ctl";; mret (-2)
      else mret (r_ret r)
  end.

(** ** signal_handler.c *)

Definition SIGCHLD : Z := 17.

(** SIGHUP, SIGINT, SIGQUIT, SIGILL, SIGTRAP, SIGABRT, SIGFPE, SIGUSR1, SIGSEGV, SIGUSR2,
    SIGPIPE, SIGALRM, SIGCHLD, SIGCONT, SIGTSTP, SIGTTIN, SIGTTOU. *)
Definition signums : list Z := [1; 2; 3; 4; 5; 6; 8; 10; 11; 12; 13; 14; 17; 18; 20; 21; 22].

Definition register_signal_handler (signum : Z) (handler : string) : HP Z :=
  r ← sys (Sigaction signum handler);
  if r_ret r <? 0 then
    log_msg LOG_CRIT "Error [%d] [%s] in registering signal handler for signal [%d] !!!";; mret (-1)
  else mret (r_ret r).

Fixpoint register_signals (sigs : list Z) (handler : string) : HP unit :=
  match sigs with
  | [] => mret tt
  | s :: sigs => register_signal_handler s handler;; register_signals sigs handler
  end.

Definition register_all_signal_handler (handler : string) : HP Z :=
  register_signals signums handler;; mret 0.

(** [for (i = 0; i < g_num_child; i++)]: the bound is the global as it was set, which
    [create_multiple_child] clamps only in its own copy. *)
Definition kill_all_children (signum : Z) : HP Z :=
  g ← get_glob;
  for_range (Z.to_nat (g_num_child g)) 0 (λ i _,
    g ← get_glob;
    pid ← expect (table_get (g_child_table g) i);
    log_msg LOG_EMERG "Sending signal [%d] [%s] to child [%d]";;
    r ← sys (Kill pid signum);
    if r_ret r <? 0 then log_msg LOG_CRIT "Error [%d] [%s] in kill";; mret (-1)
    else mret (r_ret r)) 0.

Definition proxy_parent_cleanup : HP Z :=
  log_msg LOG_DEBUG "Proxy parent cleanup...";;
  g ← get_glob;
  sys_ (Close (g_server_sock g));;
  close_system_logger;;
  log_msg LOG_DEBUG "parent cleanup done";;
  mret 0.

Definition proxy_child_cleanup : HP Z :=
  log_msg LOG_DEBUG "Proxy child cleanup...";;
  g ← get_glob;
  sys_ (Close (g_server_sock g));;
  close_system_logger;;
  log_msg LOG_DEBUG "child cleanup done";;
  mret 0.

Definition parent_signal_handler (signum : Z) : HP unit :=
  log_msg LOG_EMERG "Received signal [%d] [%s] in parent [%d]";;
  (if signum =? SIGCHLD then
     log_msg LOG_EMERG "SIGCHLD received.si_signo [%d] si_code [%d] si_pid [%d] !!!"
   else
     ret ← kill_all_children signum;
     (if ret <? 0 then log_msg LOG_CRIT "Error in kill_all_children !!!" else mret tt);;
     proxy_parent_cleanup;; mret tt);;
  sys_ (SignalDfl signum);;
  sys_ (Raise signum).

Definition child_signal_handler (signum : Z) : HP unit :=
  log_msg LOG_EMERG "Received signal [%d] [%s] in child [%d] !!!";;
  proxy_child_cleanup;;
  sys_ (SignalDfl signum);;
  sys_ (Raise signum).

(** ** core.c *)

(** The accepted descriptor is neither stored nor closed. *)
Definition accept_and_add_conn_to_poller : HP Z :=
  loop fuel (λ _,
    g ← get_glob;
    a ← sys (Accept4 (g_server_sock g) SOCK_NONBLOCK);
    if r_ret a <? 0 then
      if r_errno a =? EINTR then mret (inl tt)
      else if r_errno a =? EAGAIN then log_msg LOG_DEBUG "EAGAIN on proxy server sock";; mret (inr 0)
      else log_msg LOG_ERR "Error [%d] [%s] in accept";; mret (inr (-1))
    else
      sys_ (InetNtoa (r_out a !!! 0%nat));;
      log_msg LOG_DEBUG "Accepted conn from client [%s:%d]";;
      mret (inl tt)) tt.

(** An epoll event is a pair of its bits and its data pointer; [None] is NULL. *)
Definition handle_proxy_listen_event (ev : option (Z * Z)) : HP Z :=
  match ev with
  | None => log_msg LOG_ERR "NULL params passed";; mret (-1)
  | Some (bits, _) =>
      if has_bits bits EPOLLERR then log_msg LOG_ERR "Error occured on proxy server sock";; mret (-2)
      else if has_bits bits EPOLLHUP then log_msg LOG_ERR "Hang up happened on proxy server sock";; mret (-3)
      else if has_bits bits EPOLLIN || has_bits bits EPOLLPRI then
        ret ← accept_and_add_conn_to_poller;
        if ret <? 0 then log_msg LOG_ERR "Error %d in accept_and_add_conn_to_poller";; mret (-4)
        else mret ret
      else log_msg LOG_WARNING "Error on proxy server sock";; mret (-5)
  end.

Definition handle_client_event (ev : option (Z * Z)) : HP Z :=
  match ev with
  | None => log_msg LOG_ERR "NULL params passed";; mret (-1)
  | Some (bits, pinfo) =>
      if has_bits bits EPOLLERR then log_msg LOG_ERR "Error occured on client sock %d";; mret (-2)
      else if has_bits bits EPOLLHUP then log_msg LOG_ERR "Hang up happened on client sock %d";; mret (-3)
      else if has_bits bits EPOLLIN || has_bits bits EPOLLPRI then
        log_msg LOG_DEBUG "Data available on client sock %d";;
        ret ← handle_client_data pinfo;
        if ret <? 0 then log_msg LOG_ERR "Error %d in handle_client_data";; mret (-4)
        else mret ret
      else log_msg LOG_WARNING "Error on client sock %d";; mret (-4)
  end.

(** The loop over the events; its result is that of the last handler. *)
Fixpoint handle_events (evs : list (Z * Z)) (ret : Z) : HP Z :=
  match evs with
  | [] => mret ret
  | ev :: evs =>
      g ← get_glob;
      side ← expect (ctxs g !! ev.2);
      ret ← match side with
            | PROXY_SIDE =>
                r ← handle_proxy_listen_event (Some ev);
                if r <? 0 then log_msg LOG_ERR "Error %d in handle_proxy_listen_event";; mret (-2)
                else mret r
            | CLIENT_SIDE =>
                r ← handle_client_event (Some ev);
                if r <? 0 then log_msg LOG_ERR "Error %d in handle_client_event";; mret (-3)
                else mret r
            | SERVER_SIDE => mret ret
            end;
      handle_events evs ret
  end.

Definition handle_epoll_events (evs : option (list (Z * Z))) : HP Z :=
  match evs with
  | None => log_msg LOG_ERR "NULL params passed";; mret (-1)
  | Some evs => handle_events evs 0
  end.

Definition init_proxy : HP Z :=
  register_all_signal_handler "child_signal_handler";;
  p ← init_poller;
  if p.1 <? 0 then log_msg LOG_CRIT "Error in init_poller. ret [%d]";; mret (-1)
  else
    g ← get_glob;
    set_ctxs (<[proxy_ctx := PROXY_SIDE]> (ctxs g));;
    i ← load_poller p.2;
    ret ← add_to_poller (epoll_fd i) (g_server_sock g) EVENT_IN proxy_ctx;
    if ret <? 0 then log_msg LOG_CRIT "Error in add_to_poller. ret [%d]";; mret (-3)
    else mret ret.

(** The [n] events [epoll_wait] stored: bits and data, alternating. *)
Fixpoint stored_events (n : nat) (l : list Z) : list (Z * Z) :=
  match n, l with
  | S n, b :: d :: l => (b, d) :: stored_events n l
  | _, _ => []
  end.

Definition start_proxy : HP unit :=
  ret ← init_proxy;
  if negb (ret =? 0) then log_msg LOG_EMERG "Error in init_proxy. ret [%d]";; exit_with 0
  else
    log_msg LOG_INFO "Waiting for client connections...";;
    loop fuel (λ _,
      g ← get_glob;
      i ← load_poller (poll_info g);
      r ← sys (EpollWait (epoll_fd i) (event_size i) (-1));
      if r_ret r <? 0 then
        (if r_errno r =? EINTR then mret tt
         else log_msg LOG_ALERT "Error [%d] [%s] in epoll_wait");;
        mret (inl tt)
      else
        log_msg LOG_DEBUG "%d sockets ready...";;
        ret ← handle_epoll_events (if events i =? NULL then None
                                   else Some (stored_events (Z.to_nat (r_ret r)) (r_out r)));
        (if ret <? 0 then log_msg LOG_CRIT "Error %d in handle_epoll_events" else mret tt);;
        mret (inl tt)) tt.

Definition start_child (index : Z) : HP Z :=
  f ← sys Fork;
  let pid := r_ret f in
  (if pid <? 0 then
     log_msg LOG_ALERT "Error [%d] [%s] in fork !!!";;
     g ← get_glob; t ← expect (table_set (g_child_table g) index (-1)); set_table t
   else if pid =? 0 then start_proxy
   else
     log_msg LOG_INFO "Created Child Process with pid [%d]";;
     g ← get_glob; t ← expect (table_set (g_child_table g) index pid); set_table t);;
  mret pid.

(** [if (start_child(i))] counts every non-zero result, a failed fork included. *)
Definition create_multiple_child (num_child : Z) : HP unit :=
  let n := if num_child <=? 0 then 1 else if MAX_CHILD <? num_child then MAX_CHILD else num_child in
  count ← for_range (Z.to_nat n) 0 (λ i count,
    pid ← start_child i;
    if negb (pid =? 0) then
      g ← get_glob; set_active (g_active_child_count g + 1);; mret (count + 1)
    else mret count) 0;
  if count =? 0 then log_msg LOG_EMERG "Failed to start any child processes !!!"
  else log_msg LOG_INFO "Proxy started...".

(** The argument is the content of [*proxy_info]; [None] is a NULL [proxy_info]. *)
Definition free_proxy_info (proxy_info : option Z) : HP Z :=
  match proxy_info with
  | None => log_msg LOG_CRIT "NULL params received";; mret (-1)
  | Some p => sys_ (Free p);; mret 0
  end.

Definition sizeof_proxy_info : Z := 16.
Definition sizeof_client_info : Z := 48.

(** When the second allocation fails the source frees [pinfo], the address of the
    caller's variable, which is not a heap block. *)
Definition create_proxy_conn_info (pinfo : bool) : HP (Z * Z) :=
  if negb pinfo then log_msg LOG_ERR "NULL params passed";; mret (-1, NULL)
  else
    p ← sys (Calloc 1 sizeof_proxy_info);
    if r_ret p =? NULL then log_msg LOG_CRIT "Error in malloc";; mret (-2, NULL)
    else
      c ← sys (Calloc 1 sizeof_client_info);
      if r_ret c =? NULL then log_msg LOG_CRIT "Error in malloc";; undef
      else
        g ← get_glob;
        set_clients (<[r_ret c := mk_client 0 NULL [] 0 0]> (clients g));;
        mret (0, r_ret p).

Definition load_client (c : Z) : HP client_info := g ← get_glob; expect (clients g !! c).
Definition store_client (c : Z) (i : client_info) : HP unit :=
  g ← get_glob; set_clients (<[c := i]> (clients g)).

Definition INT_MAX : Z := 2147483647.

(** A round of the receive loop; [c] is the address of [pinfo->cinfo].  Receiving into a
    NULL buffer or beyond the end of the block, and doubling [cbuf_size] beyond the range of
    [int], are undefined. *)
Definition recv_round (c : Z) : HP (unit + Z) :=
  i ← load_client c;
  (if cbuf i =? NULL then undef else mret tt);;
  r ← sys (Recv (client_sock i) (cbuf_size i - cbuf_len i) 0);
  let ret := r_ret r in
  if ret <? 0 then
    if r_errno r =? EINTR then mret (inl tt)
    else if r_errno r =? EAGAIN then log_msg LOG_DEBUG "EAGAIN on client sock %d";; mret (inr 0)
    else log_msg LOG_ERR "Error [%d] [%s] in recv";; mret (inr (-3))
  else if ret =? 0 then log_msg LOG_INFO "client closed the conn on sock %d";; mret (inr 0)
  else
    data ← store_bytes (cbuf_data i) (cbuf_len i) (take (Z.to_nat ret) (r_out r));
    store_client c (mk_client (client_sock i) (cbuf i) data (cbuf_size i) (cbuf_len i + ret));;
    log_msg LOG_DEBUG "recv_bytes %d, cbuf_len %d";;
    log_msg LOG_DEBUG "cbuf [%.*s]";;
    i ← load_client c;
    (if cbuf_size i - cbuf_len i <=? REALLOC_THRESHOLD then
       if INT_MAX <? cbuf_size i * 2 then undef
       else
         store_client c (mk_client (client_sock i) (cbuf i) (cbuf_data i) (cbuf_size i * 2) (cbuf_len i));;
         i ← load_client c;
         '(p, data) ← sys_realloc (cbuf i) (cbuf_data i) (cbuf_size i);
         store_client c (mk_client (client_sock i) p data (cbuf_size i) (cbuf_len i));;
         if p =? NULL then log_msg LOG_CRIT "Error in realloc"
         else log_msg LOG_DEBUG "realloced cbuf to %d"
     else mret tt);;
    mret (inl tt).

Definition recv_client_data (c : Z) : HP Z :=
  if c =? NULL then log_msg LOG_ERR "NULL params passed";; mret (-1)
  else
    i ← load_client c;
    ok ← (if cbuf_size i =? 0 then
            store_client c (mk_client (client_sock i) (cbuf i) (cbuf_data i) ALLOC_SIZE (cbuf_len i));;
            i ← load_client c;
            '(p, data) ← sys_malloc (cbuf_size i * 1);
            store_client c (mk_client (client_sock i) p data (cbuf_size i) (cbuf_len i));;
            if p =? NULL then log_msg LOG_CRIT "Error in malloc";; mret false else mret true
          else mret true);
    if negb ok then mret (-2)
    else loop fuel (λ _, recv_round c) tt.

(** ** main.c *)

Definition handle_child_exit (pid : Z) : HP Z :=
  g ← get_glob;
  for_range (Z.to_nat (g_num_child g)) 0 (λ i _,
    g ← get_glob;
    p ← expect (table_get (g_child_table g) i);
    if pid =? p then
      log_msg LOG_ALERT "Restarting process on index [%d]";; start_child i;; mret tt
    else mret tt) tt;;
  mret 0.

Definition wait_for_child : HP Z :=
  loop fuel (λ _,
    g ← get_glob;
    if 0 <? g_active_child_count g then
      r ← sys (Waitpid (-1) WUNTRACED);
      let pid := r_ret r in
      if pid <? 0 then
        if r_errno r =? EINTR then mret (inl tt)
        else log_msg LOG_ALERT "Error [%d] [%s] in waitpid";; mret (inr 0)
      else
        log_msg LOG_CRIT "child [%d] exit status [%d]";;
        (if 0 <? r_out r !!! 0%nat then handle_child_exit pid;; mret tt
         else g ← get_glob; set_active (g_active_child_count g - 1));;
        log_msg LOG_DEBUG "active count [%d]";;
        mret (inl tt)
    else mret (inr 0)) tt.

Definition print_help : HP unit := sys_ (Printf "Usage" []).

(** What [getopt] returns: the character and [optarg], a string and its [atoi]. *)
Definition opt : Type := Ascii.ascii * (string * Z).

Fixpoint parse_command_line (opts : list opt) (ret : Z) : HP Z :=
  match opts with
  | [] => mret ret
  | (c, (s, n)) :: opts =>
      g ← get_glob;
      ret ← match c with
            | "h" => print_help;; mret ret
            | "i" => set_options (g_log_level g) (g_num_child g) (listen_port g) (strncpy 16 s);; mret ret
            | "l" => set_options n (g_num_child g) (listen_port g) (listen_ip g);; mret ret
            | "n" => set_options (g_log_level g) n (listen_port g) (listen_ip g);; mret ret
            | "p" => set_options (g_log_level g) (g_num_child g) n (listen_ip g);; mret ret
            | "v" => sys_ (Printf "HIMPROXY_VERSION_DETAILS" []);; mret ret
            | "?" => sys_ (Printf "%s: Invalid option argument -- '%c'" []);; print_help;; mret (-1)
            | ":" => sys_ (Printf "%s: Option requires an argument -- '%c'" []);; print_help;; mret (-1)
            | _ => print_help;; mret ret
            end%char;
      parse_command_line opts ret
  end.

Definition main (ident : string) (opts : list opt) : HP Z :=
  ret ← parse_command_line opts 0;
  if ret <? 0 then exit_with 1
  else
    g ← get_glob;
    open_system_logger ident (g_log_level g);;
    register_all_signal_handler "parent_signal_handler";;
    g ← get_glob;
    ip ← expect (c_string (listen_ip g));
    b ← tcp_bind_and_listen (Some ip) (listen_port g);
    (match b.2 with Some s => set_server_sock s | None => mret tt end);;
    if b.1 <? 0 then log_msg LOG_EMERG "Error in tcp_bind_and_listen !!!";; exit_with 1
    else
      g ← get_glob;
      nb ← set_socket_non_blocking (Some (g_server_sock g));
      if nb <? 0 then log_msg LOG_EMERG "Error in set_socket_non_blocking !!!";; exit_with 1
      else
        t ← set_socket_ip_transparent (Some (g_server_sock g));
        if t <? 0 then log_msg LOG_EMERG "Error in set_socket_ip_transparent !!!";; exit_with 1
        else
          log_msg LOG_INFO "HimProxy listening on [%s:%d]";;
          g ← get_glob;
          create_multiple_child (g_num_child g);;
          wait_for_child;;
          mret 0.

(** The globals as the program starts. *)
Definition hp_start : hp_glob :=
  mk_hp LOG_ERR 0 0 0 (replicate 16 0) (strncpy 16 "0.0.0.0") 5401 NULL ∅ ∅ ∅.

End code.

(** ** The receive buffer *)

(** What the kernel may do on a client's socket: it stores no more than asked for, and
    no more than [B] bytes arrive in all. *)
Definition recv_sane {os : OS} (sock B : Z) : Prop :=
  ∀ tr len fl, let r := os_answer tr (Recv sock len fl) in
    0 ≤ len → r_ret r ≤ len ∧ r_ret r ≤ Z.of_nat (length (r_out r)) ∧
    (0 < r_ret r → Z.of_nat (length (received sock tr)) + r_ret r ≤ B).

Definition allocs_succeed {os : OS} : Prop :=
  (∀ tr n, r_ret (os_answer tr (Malloc n)) ≠ NULL) ∧
  (∀ tr p n, r_ret (os_answer tr (Realloc p n)) ≠ NULL).

(** The buffer before its first use, or one with room for more. *)
Record buffer_ok (i : client_info) : Prop := {
  bo_len : 0 ≤ cbuf_len i;
  bo_room : cbuf_size i = 0 ∧ cbuf_len i = 0 ∨
            cbuf i ≠ NULL ∧ Z.of_nat (length (cbuf_data i)) = cbuf_size i ∧
            REALLOC_THRESHOLD < cbuf_size i - cbuf_len i ∧ cbuf_size i ≤ INT_MAX }.

(** The bytes of the buffer that are in use. *)
Definition used (i : client_info) : list Z := take (Z.to_nat (cbuf_len i)) (cbuf_data i).

Section recv.
Context {os : OS} (fuel K : nat).
Context (Hcalm : calms_down K) (Hfuel : (K < fuel)%nat) (Halloc : allocs_succeed).
Context (sock B : Z) (Hrecv : recv_sane sock B) (HB : B + REALLOC_THRESHOLD < 2 ^ 30).
Implicit Types (tr : list event).

(** While [recv_client_data] runs: [new] has arrived since it was called. *)
Record receiving (c : Z) (i0 : client_info) tr (w : world hp_glob) : Prop := {
  rv_client : ∃ i new, clients (w_glob w) !! c = Some i ∧ client_sock i = sock ∧
    buffer_ok i ∧ cbuf_size i ≠ 0 ∧ used i = used i0 ++ new ∧ cbuf_len i = cbuf_len i0 + Z.of_nat (length new) ∧
    received sock (w_trace w) = received sock tr ++ new;
  rv_ext : os_ext tr (w_trace w) }.

(** A system log record changes nothing here. *)
Lemma receiving_log c i0 tr tr1 g l f r : receiving c i0 tr (mk_world tr1 g) →
  r = os_answer tr1 (Syslog l f) → receiving c i0 tr (mk_world ((Syslog l f, r) :: tr1) g).
Proof. intros [H1 H2] E. split; [exact H1|by constructor]. Qed.

(** Doubling a buffer that is almost full. *)
Lemma grown_ok i p junk : 0 ≤ cbuf_len i → Z.of_nat (length (cbuf_data i)) = cbuf_size i → 2 * cbuf_size i ≤ INT_MAX →
  REALLOC_THRESHOLD < cbuf_size i → cbuf_len i ≤ cbuf_size i → p ≠ NULL →
  let i' := mk_client (client_sock i) p (resize (Z.to_nat (cbuf_size i * 2)) 0 (cbuf_data i ++ junk)) (cbuf_size i * 2) (cbuf_len i) in
  buffer_ok i' ∧ used i' = used i.
Proof.
  intros H0 Hl Hmax Hth Hle Hp i'. unfold REALLOC_THRESHOLD in *. split.
  - split; [done|]. right. cbn. rewrite length_resize. unfold REALLOC_THRESHOLD. split_and!; [done|lia|lia|lia].
  - unfold used, i'. cbn. apply take_resize_grow; lia.
Qed.

Lemma recv_round_wp c i0 tr w : 0 ≤ cbuf_len i0 ≤ Z.of_nat (length (received sock tr)) → receiving c i0 tr w →
  wp (recv_round c) (λ r w', match r with
    | inl _ => receiving c i0 tr w' ∧ os_ext (w_trace w) (w_trace w') ∧
               (busy_count (w_trace w) < busy_count (w_trace w'))%nat
    | inr ret => (ret = 0 ∨ ret = -3) ∧ receiving c i0 tr w' end) w.
Proof.
  intros Hlen0 [(i & new & Hi & Hs & Hok & Hsz & Hd & Hl & Hr) Hx]. destruct w as [tr1 g].
  cbn [w_trace w_glob] in *. pose proof Hok as [Hbl [[? _]|(Hcb & Hblk & Hroom & Hmax)]]; [done|].
  unfold recv_round, load_client, store_client, set_clients, sys_realloc. wp_run. rewrite Hi. wp_run.
  { exfalso. by apply Hcb, Z.eqb_eq. }
  all: pose proof (Hrecv tr1 (cbuf_size i - cbuf_len i) 0) as Hv; rewrite <- Hs, <- Hr0 in Hv; cbv zeta in Hv;
    rewrite Hs in Hv; unfold REALLOC_THRESHOLD in *; specialize (Hv ltac:(lia)).
  1-4: assert (Hst : receiving c i0 tr (mk_world ((Recv (client_sock i) (cbuf_size i - cbuf_len i) 0, r) :: tr1) g)) by
    (split; [exists i, new; split_and!; try done; cbn [w_trace received]; rewrite Z2Nat.nonpos, take_0 by lia; case_match; by rewrite app_nil_r|ext_solve]).
  - split_and!; [done|ext_solve|cbn [w_trace]; busy_solve].
  - split; [by left|by apply receiving_log].
  - split; [by right|by apply receiving_log].
  - split; [by left|by apply receiving_log].
  - destruct Hv as (Hle & Hout & HvB). specialize (HvB ltac:(lia)).
    set (chunk := take (Z.to_nat (r_ret r)) (r_out r)).
    assert (Hchunk : Z.of_nat (length chunk) = r_ret r) by (subst chunk; rewrite length_take; lia).
    assert (Hfit : 0 ≤ cbuf_len i ∧ cbuf_len i + Z.of_nat (length chunk) ≤ Z.of_nat (length (cbuf_data i))) by lia.
    assert (Hlen : cbuf_len i ≤ Z.of_nat (length (received sock tr1))) by (rewrite Hr, length_app; lia).
    assert (Hnew : received sock ((Recv (client_sock i) (cbuf_size i - cbuf_len i) 0, r) :: tr1)
      = received sock tr ++ (new ++ chunk)) by (cbn [received]; rewrite Hs, Z.eqb_refl, Hr; by rewrite app_assoc).
    apply wp_store_bytes; [done|]. set (i1 := mk_client _ _ (overwrite _ _ _) _ _).
    assert (Hd1 : used i1 = used i0 ++ new ++ chunk)
      by (unfold used at 1, i1; cbn; rewrite take_overwrite by lia; fold (used i); by rewrite Hd, app_assoc).
    assert (Hlb : Z.of_nat (length (cbuf_data i1)) = cbuf_size i1) by (cbn; rewrite length_overwrite by done; done).
    assert (Hdone : ∀ tr2 g2 i2, clients g2 !! c = Some i2 → client_sock i2 = sock → buffer_ok i2 → cbuf_size i2 ≠ 0 → used i2 = used i1 → cbuf_len i2 = cbuf_len i1 →
      received sock tr2 = received sock ((Recv (client_sock i) (cbuf_size i - cbuf_len i) 0, r) :: tr1) →
      os_ext ((Recv (client_sock i) (cbuf_size i - cbuf_len i) 0, r) :: tr1) tr2 →
      receiving c i0 tr (mk_world tr2 g2) ∧ os_ext tr1 tr2 ∧ (busy_count tr1 < busy_count tr2)%nat).
    { intros tr2 g2 i2 H1 H2 H3 H4 H5 H6 H7 H8. split_and!; [split|ext_solve|].
      - exists i2, (new ++ chunk). split_and!; [done|done|done|done|by rewrite H5|rewrite H6, length_app; cbn; lia|by rewrite <- Hnew].
      - cbn [w_trace]. eapply os_ext_trans; [|exact H8]. ext_solve.
      - apply os_ext_busy in H8. rewrite busy_count_cons in H8. unfold busy in H8. cbn [fst snd] in H8.
        replace (0 <? r_ret r) with true in H8 by lia. rewrite orb_true_r in H8. lia. }
    wp_run. cbn [clients]. rewrite lookup_insert_eq. wp_run; cbn [clients]; rewrite ?lookup_insert_eq; cbn [expect]; wp_run; cbn [i1 cbuf_size cbuf_len] in *.
    + exfalso. unfold INT_MAX in *. cbn in E3. lia.
    + exfalso. destruct Halloc as [_ Ha]. eapply Ha. match goal with H : ?p = os_answer _ (Realloc _ _) |- _ => rewrite <- H end.
      by apply Z.eqb_eq.
    + cbn [cbuf_size i1] in E3. destruct (grown_ok i1 (r_ret r2) (r_out r2)) as [Hok2 Hu2];
        [cbn; lia|done|cbn; lia|unfold REALLOC_THRESHOLD; cbn; lia|cbn; lia|by apply Z.eqb_neq|].
      eapply Hdone; cbn [w_glob clients]; [apply lookup_insert_eq|done|done|cbn; lia|done|done|done|repeat first [apply os_ext_refl|eapply os_ext_cons; [|eassumption]] ].
    + eapply Hdone; cbn [w_glob clients]; [apply lookup_insert_eq|done| |cbn; lia|done|done|done|repeat first [apply os_ext_refl|eapply os_ext_cons; [|eassumption]] ].
      split; [cbn; lia|]. right. unfold REALLOC_THRESHOLD. cbn in *. split_and!; [done|done|lia|lia].
Qed.

Lemma recv_client_data_wp c i0 tr g : c ≠ NULL → clients g !! c = Some i0 → client_sock i0 = sock →
  buffer_ok i0 → cbuf_len i0 ≤ Z.of_nat (length (received sock tr)) →
  wp (recv_client_data fuel c) (λ ret w, (ret = 0 ∨ ret = -3) ∧ receiving c i0 tr w) (mk_world tr g).
Proof.
  intros Hc Hi Hs Hok Hlen. pose proof Hok as [Hbl Hroom].
  assert (Hloop : ∀ w, receiving c i0 tr w →
    wp (loop fuel (λ _, recv_round c) tt) (λ ret w, (ret = 0 ∨ ret = -3) ∧ receiving c i0 tr w) w).
  { intros w Hw. apply (wp_calm_loop K fuel _ (λ _ w, receiving c i0 tr w)); [done|done|done|].
    intros [] w1 Hw1. by apply recv_round_wp. }
  unfold recv_client_data, load_client, store_client, set_clients, sys_malloc.
  rewrite (proj2 (Z.eqb_neq _ _) Hc). wp_run. rewrite Hi. wp_run; cbn [clients]; rewrite ?lookup_insert_eq; cbn [expect]; wp_run.
  - exfalso. destruct Halloc as [Ha _]. eapply Ha. match goal with H : ?p = os_answer _ (Malloc _) |- _ => rewrite <- H end.
    by apply Z.eqb_eq.
  - destruct Hroom as [[H0 Hnil]|(_ & _ & Hroom & _)]; [|unfold REALLOC_THRESHOLD in *; lia].
    apply Hloop. split; [|cbn [w_trace]; ext_solve]. cbn [w_glob clients w_trace].
    eexists _, []. rewrite lookup_insert_eq. split; [done|]. unfold used. cbn [client_sock cbuf_size cbuf_data cbuf_len]. rewrite Hnil.
    split_and!; [done| |done|by rewrite app_nil_r|cbn; lia|by rewrite app_nil_r].
    split; cbn [cbuf_len cbuf_size cbuf_data cbuf]; [lia|]. right. rewrite length_resize. unfold REALLOC_THRESHOLD, INT_MAX, ALLOC_SIZE. split_and!; [by apply Z.eqb_neq|lia|lia|lia].
  - apply Hloop. split; [|constructor]. cbn [w_glob w_trace]. exists i0, [].
    rewrite !app_nil_r. split_and!; [done|done|done|lia|done|cbn; lia|done].
Qed.
End recv.

Lemma load_client_ok c i tr g : clients g !! c = Some i →
  load_client c (mk_world tr g) = Ok i (mk_world tr g).
Proof. intros Hi. unfold load_client. erewrite bind_ok by reflexivity. cbn [w_glob]. by rewrite Hi. Qed.

(** ** Theorems *)

(** C9: the receive buffer never overflows and keeps every byte.  For a client whose
    buffer is unused, or is a block of [cbuf_size] bytes with room, when allocations succeed, the
    kernel stores no more than it is asked for and less than a gigabyte arrives and the calls of the
    function are interrupted or busy finitely often, [recv_client_data] returns 0 or -3 without storing outside
    the block that was allocated; the first [cbuf_len] bytes of the block are those that were there followed by all that has been
    received, in order; the block has exactly [cbuf_size] bytes, an int, and more than the threshold of them are free. *)
Theorem recv_buffer_keeps_data {os : OS} fuel K sock B c i0 tr g :
  calms_down K → (K < fuel)%nat → allocs_succeed → recv_sane sock B → B + REALLOC_THRESHOLD < 2 ^ 30 →
  c ≠ NULL → clients g !! c = Some i0 → client_sock i0 = sock → buffer_ok i0 →
  cbuf_len i0 ≤ Z.of_nat (length (received sock tr)) →
  wp (recv_client_data fuel c) (λ ret w, (ret = 0 ∨ ret = -3) ∧ ∃ i new,
    clients (w_glob w) !! c = Some i ∧ received sock (w_trace w) = received sock tr ++ new ∧
    take (Z.to_nat (cbuf_len i)) (cbuf_data i) = take (Z.to_nat (cbuf_len i0)) (cbuf_data i0) ++ new ∧
    cbuf_len i = cbuf_len i0 + Z.of_nat (length new) ∧ Z.of_nat (length (cbuf_data i)) = cbuf_size i ∧
    REALLOC_THRESHOLD < cbuf_size i - cbuf_len i ∧ cbuf_size i ≤ INT_MAX) (mk_world tr g).
Proof.
  intros HK Hf Ha Hr HB Hc Hi Hs Hok Hlen.
  eapply wp_mono; [by eapply (recv_client_data_wp fuel K HK Hf Ha sock B Hr HB)|].
  intros ret w [Hret [(i & new & Hi' & _ & [Hbl Hroom] & Hsz & Hd & Hl & Hrv) _]]. split; [done|].
  exists i, new. destruct Hroom as [[? _]|(_ & ? & ? & ?)]; [done|]. done.
Qed.

(** A failing [realloc] is not survived.  When the buffer must grow and [realloc]
    returns NULL, the loop does not leave: the next round receives into the NULL
    buffer. *)
Theorem recv_realloc_failure_undefined {os : OS} fuel c i tr g :
  (1 < fuel)%nat → c ≠ NULL → clients g !! c = Some i → cbuf i ≠ NULL →
  0 < cbuf_size i ≤ 2 ^ 30 - 1 → 0 ≤ cbuf_len i → Z.of_nat (length (cbuf_data i)) = cbuf_size i →
  (∀ tr len, let r := os_answer tr (Recv (client_sock i) len 0) in
     0 < r_ret r ∧ Z.of_nat (length (r_out r)) ≤ cbuf_size i - cbuf_len i ∧ cbuf_size i - (cbuf_len i + r_ret r) ≤ REALLOC_THRESHOLD) →
  (∀ tr p n, r_ret (os_answer tr (Realloc p n)) = NULL) →
  recv_client_data fuel c (mk_world tr g) = Undef.
Proof.
  intros Hf Hc Hi Hb Hsz Hl0 Hl Hr Ha. unfold recv_client_data. rewrite (proj2 (Z.eqb_neq _ _) Hc).
  rewrite (bind_ok _ _ _ _ _ (load_client_ok c i tr g Hi)).
  replace (cbuf_size i =? 0) with false by lia. erewrite bind_ok by reflexivity. cbn [negb].
  destruct fuel as [|[|fuel]]; [lia|lia|].
  specialize (Hr tr (cbuf_size i - cbuf_len i)). cbv zeta in Hr.
  assert (Hw : wp (recv_round c) (λ r w', r = inl tt ∧ ∃ i', clients (w_glob w') !! c = Some i' ∧ cbuf i' = NULL)
    (mk_world tr g)).
  { unfold recv_round, load_client, store_client, set_clients, sys_realloc. wp_run. rewrite Hi. wp_run.
    - exfalso. by apply Hb, Z.eqb_eq.
    - subst; lia.
    - subst; lia.
    - subst; lia.
    - subst; lia.
    - apply wp_store_bytes; [rewrite length_take; subst; lia|]. wp_run. cbn [clients]. rewrite lookup_insert_eq.
      wp_run; cbn [clients]; rewrite ?lookup_insert_eq; cbn [expect]; wp_run; cbn [cbuf_size cbuf_len cbuf clients w_glob] in *.
      + unfold INT_MAX in *. lia.
      + split; [done|]. eexists. rewrite lookup_insert_eq. split; [done|]. cbn.
        match goal with H : ?p = os_answer _ (Realloc _ _) |- _ => rewrite H end. apply Ha.
      + exfalso. match goal with H : ?p = os_answer _ (Realloc _ _), E : (r_ret ?p =? NULL) = false |- _ =>
          rewrite H, Ha in E end. done.
      + subst; unfold REALLOC_THRESHOLD in *; lia. }
  apply wp_Ok in Hw as (r1 & w1 & E & -> & i1 & Hi1 & Hn).
  rewrite (loop_again _ _ _ _ _ _ E). apply loop_undef. destruct w1 as [tr1 g1]. cbn [w_glob] in Hi1.
  change (recv_round c (mk_world tr1 g1) = Undef). unfold recv_round.
  rewrite (bind_ok _ _ _ _ _ (load_client_ok c i1 tr1 g1 Hi1)). apply bind_undef. by rewrite Hn.
Qed.

(** *** The children *)

(** Seen from the parent: [fork] never returns 0. *)
Definition fork_parent {os : OS} : Prop := ∀ tr, r_ret (os_answer tr Fork) ≠ 0.

(** What [start_child] records for the result of a fork. *)
Definition recorded (pid : Z) : Z := if pid <? 0 then -1 else pid.

Lemma table_set_ok l i v : 0 ≤ i < MAX_CHILD → table_set l i v = Some (<[Z.to_nat i := v]> l).
Proof. intros H. unfold table_set. by replace ((0 <=? i) && (i <? MAX_CHILD)) with true by lia. Qed.

Lemma start_child_wp {os : OS} fuel hcd index tr g : fork_parent → 0 ≤ index < MAX_CHILD →
  wp (start_child fuel hcd index) (λ pid w, pid ≠ 0 ∧
    g_child_table (w_glob w) = <[Z.to_nat index := recorded pid]> (g_child_table g) ∧
    g_active_child_count (w_glob w) = g_active_child_count g ∧ g_num_child (w_glob w) = g_num_child g)
    (mk_world tr g).
Proof.
  intros Hf Hi. unfold start_child, set_table. specialize (Hf tr). unfold recorded. wp_run.
  - rewrite table_set_ok by done. wp_run. split_and!; [congruence|cbn|done|done]. by rewrite E.
  - subst. lia.
  - rewrite table_set_ok by done. wp_run. split_and!; [congruence|cbn|done|done]. by rewrite E.
Qed.

(** The number of children [create_multiple_child] starts. *)
Definition clamp (num_child : Z) : Z :=
  if num_child <=? 0 then 1 else if MAX_CHILD <? num_child then MAX_CHILD else num_child.

Lemma clamp_range n : 1 ≤ clamp n ≤ MAX_CHILD.
Proof. unfold clamp, MAX_CHILD. destruct (n <=? 0) eqn:?, (16 <? n) eqn:?; lia. Qed.

(** The children are started and recorded within the table.  For every requested
    number, between one and sixteen children are forked, the i-th entry of the table
    records the i-th fork (-1 for one that failed), the rest of the table is kept, and
    the active count grows by the number of attempts: a fork that failed is counted as
    an active child. *)
Theorem children_recorded {os : OS} fuel hcd num_child tr g :
  fork_parent → length (g_child_table g) = 16%nat →
  wp (create_multiple_child fuel hcd num_child) (λ _ w, ∃ pids,
    Z.of_nat (length pids) = clamp num_child ∧ Forall (λ p, p ≠ 0) pids ∧
    g_child_table (w_glob w) = map recorded pids ++ drop (length pids) (g_child_table g) ∧
    g_active_child_count (w_glob w) = g_active_child_count g + clamp num_child) (mk_world tr g).
Proof.
  intros Hf Hl. unfold create_multiple_child. cbv zeta. fold (clamp num_child). pose proof (clamp_range num_child) as Hn.
  apply wp_bind. eapply wp_mono.
  { apply (wp_for_range (λ i count w, count = i ∧ ∃ pids,
      Z.of_nat (length pids) = i ∧ Forall (λ p, p ≠ 0) pids ∧
      g_child_table (w_glob w) = map recorded pids ++ drop (length pids) (g_child_table g) ∧
      g_active_child_count (w_glob w) = g_active_child_count g + i)).
    - split; [done|]. exists []. split_and!; [done|by constructor|done|cbn; lia].
    - intros i count [tr1 g1] Hi [-> (pids & Hp & Hfa & Ht & Ha)]. cbn [w_glob] in *.
      apply wp_bind. eapply wp_mono; [apply start_child_wp; [done|lia]|].
      intros pid [tr2 g2] (Hpid & Ht2 & Ha2 & _). cbn [w_glob] in *. unfold set_active.
      replace (negb (pid =? 0)) with true by lia. wp_run. split; [done|]. exists (pids ++ [pid]).
      rewrite length_app. cbn [length w_glob g_child_table g_active_child_count].
      split_and!; [lia|by apply Forall_app_2; [|constructor]| |lia].
      rewrite Ht2, Ht, map_app, insert_app_r_alt by (rewrite length_map; lia).
      rewrite length_map, <- app_assoc. f_equal.
      replace (Z.to_nat i - length pids)%nat with 0%nat by lia.
      destruct (drop (length pids) (g_child_table g)) as [|x l] eqn:Ed.
      + apply (f_equal length) in Ed. rewrite length_drop, Hl in Ed. unfold MAX_CHILD in *. cbn in Ed. lia.
      + cbn. f_equal. assert (Hd : l = drop 1 (drop (length pids) (g_child_table g))) by (by rewrite Ed).
        by rewrite Hd, drop_drop. }
  intros count [tr1 g1] [-> (pids & Hp & Hfa & Ht & Ha)]. cbn [w_glob] in *.
  wp_run; (exists pids; cbn [w_glob]; split_and!; [lia|done|done|lia]).
Qed.

(** *** Options *)

Definition calls_of (f : call → bool) (tr : list event) : nat := length (filter (λ e, f e.1 = true) tr).
Definition is_fork (c : call) : bool := match c with Fork => true | _ => false end.
Definition is_kill (c : call) : bool := match c with Kill _ _ => true | _ => false end.

(** What [getopt(argc, argv, ":hi:l:p:v")] can return. *)
Definition himproxy_options : list ascii := ["h"; "i"; "l"; "p"; "v"; "?"; ":"]%char.

Lemma parse_keeps_num_child {os : OS} opts : ∀ ret tr g, Forall (λ o : opt, o.1 ∈ himproxy_options) opts →
  wp (parse_command_line opts ret) (λ _ w, g_num_child (w_glob w) = g_num_child g ∧
    calls_of is_fork (w_trace w) = calls_of is_fork tr ∧ calls_of is_kill (w_trace w) = calls_of is_kill tr)
    (mk_world tr g).
Proof.
  induction opts as [|[c [s n]] opts IH]; intros ret tr g Hall; [done|].
  apply list.Forall_cons in Hall as [Hc Hall]. cbn [parse_command_line fst] in *.
  unfold himproxy_options in Hc. rewrite !elem_of_cons in Hc.
  destruct_or! Hc; [subst c; unfold print_help, set_options..|by apply elem_of_nil in Hc];
    wp_run; (eapply wp_mono; [by apply IH|]); intros ? w (H1 & H2 & H3); done.
Qed.

(** The option for the number of children has no effect.  [getopt] is given a list
    without ['n'], so for every command line the number of children stays at its initial
    0; a child that dies is then never restarted and a signal is never passed on:
    [handle_child_exit] forks nothing and [kill_all_children] kills nothing. *)
Theorem num_child_never_set {os : OS} fuel hcd opts pid signum tr :
  Forall (λ o : opt, o.1 ∈ himproxy_options) opts →
  wp (parse_command_line opts 0;; handle_child_exit fuel hcd pid;; kill_all_children signum) (λ _ w,
    g_num_child (w_glob w) = 0 ∧ calls_of is_fork (w_trace w) = calls_of is_fork tr ∧
    calls_of is_kill (w_trace w) = calls_of is_kill tr) (mk_world tr hp_start).
Proof.
  intros Hall. apply wp_bind. eapply wp_mono; [by apply parse_keeps_num_child|].
  intros r [tr1 g1] (Hn & Hf & Hk). cbn [w_trace w_glob] in *.
  unfold handle_child_exit, kill_all_children. cbn in Hn. wp_run. rewrite Hn.
  change (Z.to_nat 0) with 0%nat. cbn [for_range]. wp_run. rewrite Hn.
  change (Z.to_nat 0) with 0%nat. cbn [for_range]. by wp_run.
Qed.

(** Accepted connections are dropped.  [accept_and_add_conn_to_poller] accepts until
    the queue is empty, but keeps no reference to what it accepts: when it returns, every
    accepted descriptor is still open and the process's data is unchanged. *)
Theorem accepted_descriptors_leak {os : OS} fuel K tr g :
  calms_down K → (K < fuel)%nat →
  wp (accept_and_add_conn_to_poller fuel) (λ ret w, w_glob w = g ∧ ∃ fds,
    Forall (λ fd, 0 ≤ fd) fds ∧ res_delta tr (w_trace w) fds []) (mk_world tr g).
Proof.
  intros HK Hf. unfold accept_and_add_conn_to_poller.
  apply (wp_calm_loop K fuel _ (λ _ w, w_glob w = g ∧ ∃ fds,
    Forall (λ fd, 0 ≤ fd) fds ∧ res_delta tr (w_trace w) fds [])); [done|done| |].
  { split; [done|]. exists []. split; [constructor|]. cbn [w_trace]. change (res_eq tr tr). reflexivity. }
  intros [] [tr1 g1] [Hg (fds & Hfa & H1 & H2)]. cbn [w_glob w_trace] in *. subst g1. wp_run; cbn [w_trace w_glob].
  - split; [|split; [ext_solve|busy_solve]]. split; [done|]. exists fds. split; [done|].
    split; intros x; cbn [fd_balance mem_balance fd_delta mem_delta]; [rewrite H1|rewrite H2]; lia.
  - split; [done|]. exists fds. split; [done|].
    split; intros x; cbn [fd_balance mem_balance fd_delta mem_delta]; [rewrite H1|rewrite H2]; lia.
  - split; [done|]. exists fds. split; [done|].
    split; intros x; cbn [fd_balance mem_balance fd_delta mem_delta]; [rewrite H1|rewrite H2]; lia.
  - split; [|split; [ext_solve|busy_solve]]. split; [done|]. exists (r_ret r :: fds). split; [constructor; [lia|done]|].
    split; intros x; cbn [fd_balance mem_balance fd_delta mem_delta]; [rewrite H1|rewrite H2];
      unfold count; cbn [foldr]; lia.
Qed.

(** *** Witnesses *)

Definition demo_client : client_info := mk_client 5 NULL [] 0 0.
Definition hp1 : hp_glob := mk_hp LOG_ERR 3 0 0 (replicate 16 0) [] 0 NULL ∅ ∅ {[ 64 := demo_client ]}.

(** A kernel that delivers three bytes at a time, twice, and then fails. *)
Definition demo_os : OS := λ tr c,
  match c with
  | Recv _ len _ => if (busy_count tr <? 2)%nat && (3 <=? len) && (length (received 5 tr) <? 100)%nat
                    then mk_reply 3 0 [7; 8; 9] else mk_reply (-1) EAGAIN []
  | Malloc _ | Calloc _ _ | Realloc _ _ => mk_reply 4096 0 []
  | Fork => mk_reply 77 0 []
  | Accept4 _ _ => if (busy_count tr <? 2)%nat then mk_reply 9 0 [1] else mk_reply (-1) EAGAIN []
  | _ => mk_reply (-1) 5 []
  end.

Lemma demo_calm : calms_down (os := demo_os) 2.
Proof.
  intros tr c H. unfold os_answer, demo_os. replace (busy_count tr <? 2)%nat with false by (symmetry; apply Nat.ltb_ge; lia).
  by destruct c.
Qed.

Lemma demo_recv_sane : recv_sane (os := demo_os) 5 200.
Proof.
  intros tr len fl. unfold os_answer, demo_os.
  destruct (busy_count tr <? 2)%nat, (3 <=? len) eqn:E2, (length (received 5 tr) <? 100)%nat eqn:E3; cbn; intros Hl;
    try apply Nat.ltb_lt in E3; split_and!; lia.
Qed.

Lemma recv_buffer_keeps_data_witness :
  wp (recv_client_data (os := demo_os) 3 64) (λ ret w, (ret = 0 ∨ ret = -3) ∧ ∃ i new,
    clients (w_glob w) !! 64 = Some i ∧ received 5 (w_trace w) = received 5 [] ++ new ∧
    take (Z.to_nat (cbuf_len i)) (cbuf_data i) = [] ++ new ∧
    cbuf_len i = 0 + Z.of_nat (length new) ∧ Z.of_nat (length (cbuf_data i)) = cbuf_size i ∧
    REALLOC_THRESHOLD < cbuf_size i - cbuf_len i ∧ cbuf_size i ≤ INT_MAX) (mk_world [] hp1).
Proof.
  apply (recv_buffer_keeps_data (os := demo_os) 3 2 5 200 64 demo_client [] hp1);
    [apply demo_calm|lia| |apply demo_recv_sane|unfold REALLOC_THRESHOLD; lia|done|reflexivity|reflexivity| |].
  - split; intros; done.
  - split; [done|left; split; reflexivity].
  - cbn. lia.
Defined.

(** A client whose buffer is almost full, and a kernel without memory. *)
Definition full_client : client_info := mk_client 5 4096 (replicate 200 0) 200 100.
Definition hp2 : hp_glob := mk_hp LOG_ERR 3 0 0 (replicate 16 0) [] 0 NULL ∅ ∅ {[ 64 := full_client ]}.
Definition no_memory_os : OS := λ tr c,
  match c with Recv _ _ _ => mk_reply 50 0 (replicate 50 1) | _ => mk_reply 0 0 [] end.

Lemma recv_realloc_failure_undefined_witness :
  recv_client_data (os := no_memory_os) 2 64 (mk_world [] hp2) = Undef.
Proof.
  apply (recv_realloc_failure_undefined (os := no_memory_os) 2 64 full_client [] hp2);
    [lia|done|reflexivity|done|cbn; lia|done|done| |reflexivity].
  intros tr len. cbn. unfold REALLOC_THRESHOLD. lia.
Defined.

Lemma children_recorded_witness :
  wp (create_multiple_child (os := demo_os) 3 (λ _, mret 0) 2) (λ _ w, ∃ pids,
    Z.of_nat (length pids) = 2 ∧ Forall (λ p, p ≠ 0) pids ∧
    g_child_table (w_glob w) = map recorded pids ++ drop (length pids) (replicate 16 0) ∧
    g_active_child_count (w_glob w) = 0 + 2) (mk_world [] hp1).
Proof.
  apply (children_recorded (os := demo_os) 3 (λ _, mret 0) 2 [] hp1); [intros tr; done|reflexivity].
Defined.

Lemma num_child_never_set_witness :
  wp (parse_command_line (os := demo_os) [("p"%char, ("80"%string, 80)); ("?"%char, ("n"%string, 0))] 0;;
      handle_child_exit (os := demo_os) 3 (λ _, mret 0) 77;; kill_all_children (os := demo_os) 15) (λ _ w,
    g_num_child (w_glob w) = 0 ∧ calls_of is_fork (w_trace w) = calls_of is_fork [] ∧
    calls_of is_kill (w_trace w) = calls_of is_kill []) (mk_world [] hp_start).
Proof.
  apply (num_child_never_set (os := demo_os) 3 (λ _, mret 0)
    [("p"%char, ("80"%string, 80)); ("?"%char, ("n"%string, 0))] 77 15 []).
  repeat constructor; vm_compute; tauto.
Defined.

Lemma accepted_descriptors_leak_witness :
  wp (accept_and_add_conn_to_poller (os := demo_os) 3) (λ ret w, w_glob w = hp1 ∧ ∃ fds,
    Forall (λ fd, 0 ≤ fd) fds ∧ res_delta [] (w_trace w) fds []) (mk_world [] hp1).
Proof. apply (accepted_descriptors_leak (os := demo_os) 3 2 [] hp1); [apply demo_calm|lia]. Defined.
