(* ===== verification/OldProxy.v ===== *)
(** * The old HTTP proxy

    Models src/src/networking/himproxy/proxy_old: a parent that supervises children, each
    of which accepts clients, receives their data into a growing buffer and splits it
    into a list of HTTP requests.  The HTTP parser, the work queue and the configuration
    reader are libraries outside the repository: their functions are calls of the
    environment, the parser being given the unparsed bytes. *)

From Stdlib Require Import ZArith Lia ZifyBool Ascii.
From stdpp Require Import base gmap list strings numbers.
From S2P Require Import Prelude Posix.

(** ** The headers *)

Definition MAX_CHILD : Z := 16.
Definition EPOLL_MAX_EVENTS : Z := 10000.
Definition REQUEST_BUF_SIZE : Z := 8192.
Definition REALLOC_LIMIT : Z := 128.

Inductive event_flag := EVENT_IN | EVENT_OUT | EVENT_INOUT | EVENT_OTHER (n : Z).

(** The three work queues, by address; 0 is NULL. *)
Definition g_parse_request_workq : Z := 1.
Definition g_forward_request_workq : Z := 2.
Definition g_parse_response_workq : Z := 3.

(** [poller_routine] is NULL or the default poller. *)
Record poller_info := mk_poller {
  epoll_fd : Z; workq : Z; events : Z; poller_id : Z; poller_routine : bool }.

(** The client's half of [struct proxy_info], which is all the code uses besides
    [os_sock]; [client_data] is what the buffer holds up to [client_buf_curr_len]. *)
Record proxy_info := mk_info {
  client_sock : Z;
  client_addr : Z * Z;
  client_buf : Z;
  client_data : list Z;
  client_buf_size : Z;
  client_buf_curr_len : Z;
  client_buf_parsed_len : Z;
  curr_req : Z;
  last_req : Z;
  os_sock : Z }.

(** [req_buf] points into a client buffer: the buffer's address and an offset. *)
Record proxy_req_info := mk_req {
  req_buf : Z * Z; req_buf_len : Z; host : Z; dest_ip : Z; http_request_info : Z; next : Z }.

Record proxy_config := mk_config {
  listen_ip : list ascii; listen_port : Z; log_level : Z; child_count : Z;
  workq_parallelism : Z; workq_thread_timeout : Z; workq_length : Z; ip_transparency : Z }.

(** The globals, and the heap: connections, requests, strings and the header lengths the
    parser has stored in its results. *)
Record op_glob := mk_op {
  g_server_sock : Z;
  g_active_child_count : Z;
  g_child_table : list Z;
  g_proxy_config : proxy_config;
  g_client_poller_info : poller_info;
  g_os_poller_info : poller_info;
  infos : gmap Z proxy_info;
  reqs : gmap Z proxy_req_info;
  strs : gmap Z string;
  header_length : gmap Z Z }.

Inductive poller := CLIENT_POLLER | OS_POLLER.

Section setters.
Abbreviation OP := (M (world op_glob)).
Definition set_server_sock (s : Z) : OP unit :=
  upd_glob (λ g, mk_op s (g_active_child_count g) (g_child_table g) (g_proxy_config g)
    (g_client_poller_info g) (g_os_poller_info g) (infos g) (reqs g) (strs g) (header_length g)).
Definition set_active (n : Z) : OP unit :=
  upd_glob (λ g, mk_op (g_server_sock g) n (g_child_table g) (g_proxy_config g)
    (g_client_poller_info g) (g_os_poller_info g) (infos g) (reqs g) (strs g) (header_length g)).
Definition set_table (t : list Z) : OP unit :=
  upd_glob (λ g, mk_op (g_server_sock g) (g_active_child_count g) t (g_proxy_config g)
    (g_client_poller_info g) (g_os_poller_info g) (infos g) (reqs g) (strs g) (header_length g)).
Definition set_config (f : proxy_config → proxy_config) : OP unit :=
  upd_glob (λ g, mk_op (g_server_sock g) (g_active_child_count g) (g_child_table g) (f (g_proxy_config g))
    (g_client_poller_info g) (g_os_poller_info g) (infos g) (reqs g) (strs g) (header_length g)).
Definition get_poller (p : poller) : OP poller_info :=
  g ← get_glob; mret (match p with CLIENT_POLLER => g_client_poller_info g | OS_POLLER => g_os_poller_info g end).
Definition set_poller (p : poller) (i : poller_info) : OP unit :=
  upd_glob (λ g, mk_op (g_server_sock g) (g_active_child_count g) (g_child_table g) (g_proxy_config g)
    (match p with CLIENT_POLLER => i | OS_POLLER => g_client_poller_info g end)
    (match p with CLIENT_POLLER => g_os_poller_info g | OS_POLLER => i end)
    (infos g) (reqs g) (strs g) (header_length g)).
Definition set_infos (f : gmap Z proxy_info → gmap Z proxy_info) : OP unit :=
  upd_glob (λ g, mk_op (g_server_sock g) (g_active_child_count g) (g_child_table g) (g_proxy_config g)
    (g_client_poller_info g) (g_os_poller_info g) (f (infos g)) (reqs g) (strs g) (header_length g)).
Definition set_reqs (f : gmap Z proxy_req_info → gmap Z proxy_req_info) : OP unit :=
  upd_glob (λ g, mk_op (g_server_sock g) (g_active_child_count g) (g_child_table g) (g_proxy_config g)
    (g_client_poller_info g) (g_os_poller_info g) (infos g) (f (reqs g)) (strs g) (header_length g)).
Definition set_strs (f : gmap Z string → gmap Z string) : OP unit :=
  upd_glob (λ g, mk_op (g_server_sock g) (g_active_child_count g) (g_child_table g) (g_proxy_config g)
    (g_client_poller_info g) (g_os_poller_info g) (infos g) (reqs g) (f (strs g)) (header_length g)).
Definition set_header_length (f : gmap Z Z → gmap Z Z) : OP unit :=
  upd_glob (λ g, mk_op (g_server_sock g) (g_active_child_count g) (g_child_table g) (g_proxy_config g)
    (g_client_poller_info g) (g_os_poller_info g) (infos g) (reqs g) (strs g) (f (header_length g))).

(** Reads and writes through pointers. *)
Definition load_info (p : Z) : OP proxy_info := g ← get_glob; expect (infos g !! p).
Definition store_info (p : Z) (i : proxy_info) : OP unit := set_infos (<[p := i]>).
Definition load_req (p : Z) : OP proxy_req_info := g ← get_glob; expect (reqs g !! p).
Definition store_req (p : Z) (q : proxy_req_info) : OP unit := set_reqs (<[p := q]>).
End setters.

Definition table_get (l : list Z) (i : Z) : option Z :=
  if (0 <=? i) && (i <? MAX_CHILD) then l !! Z.to_nat i else None.
Definition table_set (l : list Z) (i v : Z) : option (list Z) :=
  if (0 <=? i) && (i <? MAX_CHILD) then Some (<[Z.to_nat i := v]> l) else None.

(** Fields of a connection. *)
Definition with_buf (i : proxy_info) (buf : Z) (data : list Z) (size curr : Z) : proxy_info :=
  mk_info (client_sock i) (client_addr i) buf data size curr (client_buf_parsed_len i)
    (curr_req i) (last_req i) (os_sock i).
Definition with_parsed (i : proxy_info) (n : Z) : proxy_info :=
  mk_info (client_sock i) (client_addr i) (client_buf i) (client_data i) (client_buf_size i)
    (client_buf_curr_len i) n (curr_req i) (last_req i) (os_sock i).
Definition with_reqs (i : proxy_info) (head last : Z) : proxy_info :=
  mk_info (client_sock i) (client_addr i) (client_buf i) (client_data i) (client_buf_size i)
    (client_buf_curr_len i) (client_buf_parsed_len i) head last (os_sock i).
Definition with_os_sock (i : proxy_info) (s : Z) : proxy_info :=
  mk_info (client_sock i) (client_addr i) (client_buf i) (client_data i) (client_buf_size i)
    (client_buf_curr_len i) (client_buf_parsed_len i) (curr_req i) (last_req i) s.

Section code.
Context {os : OS} (fuel : nat) (junk_port : Z).
Abbreviation OP := (M (world op_glob)).

(** ** proxy_log.c *)

Definition open_system_logger (log_ident : string) (log_level : Z) : OP Z :=
  sys_ (Openlog log_ident (Z.lor LOG_PID LOG_NDELAY) LOG_LOCAL1);;
  sys_ (Setlogmask (Z.shiftl 1 (log_level + 1) - 1));;
  mret 0.

Definition close_system_logger : OP Z := sys_ Closelog;; mret 0.

(** ** proxy_net.c *)

Definition set_socket_non_blocking (sock : option Z) : OP Z :=
  match sock with
  | None => log_msg LOG_CRIT "Invalid params received !!!";; mret (-1)
  | Some sock =>
      r ← sys (FcntlGetFL sock);
      if r_ret r <? 0 then log_msg LOG_ERR "fcntl Error [%d] [%s] when F_GETFL";; mret (-1)
      else
        s ← sys (FcntlSetFL sock (Z.lor (r_ret r) O_NONBLOCK));
        if r_ret s <? 0 then log_msg LOG_ERR "fcntl Error [%d] [%s] when F_SETFL";; mret (-1)
        else mret 0
  end.

(** The result and the value stored through [server_sock]. *)
Definition tcp_bind_and_listen (bind_ip : option string) (bind_port : Z) : OP (Z * option Z) :=
  match bind_ip with
  | None => log_msg LOG_CRIT "Invalid params received !!!";; mret (-1, None)
  | Some bind_ip =>
      if (bind_port <? 0) || (65535 <? bind_port) then
        log_msg LOG_CRIT "Invalid params received !!!";; mret (-1, None)
      else
        s ← sys Socket;
        let server_sock := r_ret s in
        sys_ (Setsockopt server_sock SOL_SOCKET SO_REUSEADDR [1]);;
        a ← sys (InetAton bind_ip);
        if r_ret a =? 0 then log_msg LOG_ERR "Error in inet_aton  !!! ";; mret (-1, Some server_sock)
        else
          b ← sys (Bind server_sock (r_out a !!! 0%nat) bind_port);
          if r_ret b <? 0 then log_msg LOG_ERR "Bind Error [%d] [%s] ";; mret (-1, Some server_sock)
          else
            l ← sys (Listen server_sock 128);
            if r_ret l <? 0 then log_msg LOG_ERR "Listen Error [%d] [%s] ";; mret (-1, Some server_sock)
            else mret (0, Some server_sock)
  end.

Definition tcp_connect_to_server (server_ip : option string) (server_port : Z) : OP (Z * option Z) :=
  match server_ip with
  | None => log_msg LOG_ERR "Invalid params received !!! ";; mret (-1, None)
  | Some server_ip =>
      if (server_port <? 0) || (65535 <? server_port) then
        log_msg LOG_ERR "Invalid params received !!! ";; mret (-1, None)
      else
        s ← sys Socket;
        let sock := r_ret s in
        if sock <? 0 then log_msg LOG_ERR "Socket Creation Error [%d] [%s] ";; mret (-1, Some sock)
        else
          a ← sys (InetAton server_ip);
          if r_ret a =? 0 then log_msg LOG_ERR "Error in inet_aton  !!! ";; mret (-1, Some sock)
          else
            c ← sys (Connect sock (r_out a !!! 0%nat) server_port);
            if r_ret c <? 0 then log_msg LOG_ERR "Error [%d] [%s] in connect !!! ";; mret (-1, Some sock)
            else mret (0, Some sock)
  end.

(** The client's port is left uninitialised: [junk_port]. *)
Definition tcp_transparent_connect_to_server (server_ip : option string) (server_port : Z)
    (client_ip : string) (client_port : Z) : OP (Z * option Z) :=
  match server_ip with
  | None => log_msg LOG_ERR "Invalid params received !!! ";; mret (-1, None)
  | Some server_ip =>
      if (server_port <? 0) || (65535 <? server_port) then
        log_msg LOG_ERR "Invalid params received !!! ";; mret (-1, None)
      else
        s ← sys Socket;
        let sock := r_ret s in
        if sock <? 0 then log_msg LOG_ERR "Socket Creation Error [%d] [%s] ";; mret (-1, None)
        else
          sys_ (Setsockopt sock SOL_SOCKET SO_REUSEADDR [1]);;
          t ← sys (Setsockopt sock SOL_IP IP_TRANSPARENT [1]);
          if r_ret t <? 0 then log_msg LOG_ERR "Error [%d] [%s] in setsockopt !!! ";; mret (-1, None)
          else
            ca ← sys (InetAton client_ip);
            if r_ret ca =? 0 then log_msg LOG_ERR "Error in inet_aton  !!! ";; mret (-1, None)
            else
              b ← sys (Bind sock (r_out ca !!! 0%nat) junk_port);
              if r_ret b <? 0 then
                log_msg LOG_ERR "Error [%d] [%s] in bind for Client [%s : %d]!!! ";; mret (-1, None)
              else
                a ← sys (InetAton server_ip);
                if r_ret a =? 0 then log_msg LOG_ERR "Error in inet_aton  !!! ";; mret (-1, None)
                else
                  c ← sys (Connect sock (r_out a !!! 0%nat) server_port);
                  if r_ret c <? 0 then log_msg LOG_ERR "Error [%d] [%s] in connect !!! ";; mret (-1, None)
                  else mret (0, Some sock)
  end.

(** ** proxy_request_handler.c *)

(** [node] is the address of the request; the caller's pointer is a local variable. *)
Definition free_proxy_req_info (node : Z) : OP Z :=
  q ← load_req node;
  sys_ (Free (host q));;
  sys_ (Free (dest_ip q));;
  h ← sys (Ext "http_request_info_free" [http_request_info q]);
  ret ← (if r_ret h <? 0 then log_msg LOG_ERR "Error [%d] [%s] in free_http_request_info";; mret (-1)
         else mret 0);
  sys_ (Free node);;
  set_reqs (delete node);;
  mret ret.

(** A round of the loop, with the variables [curr] and [ret]. *)
Definition free_round (v : Z * Z) : OP (Z * Z + Z) :=
  let '(curr, ret) := v in
  if curr =? NULL then mret (inr ret)
  else
    q ← load_req curr;
    rv ← free_proxy_req_info curr;
    if rv <? 0 then
      log_msg LOG_ERR "Error in free_proxy_req_info";; mret (inl (next q, Z.lor ret rv))
    else mret (inl (next q, ret)).

Definition free_proxy_req_list (head : Z) : OP Z := loop fuel free_round (head, 0).

(** proxy_core.c: [p] is the value of the caller's pointer. *)
Definition free_proxy_info (p : Z) : OP Z :=
  i ← load_info p;
  sys_ (Free (client_buf i));;
  tmp ← free_proxy_req_list (curr_req i);
  ret ← (if tmp <? 0 then log_msg LOG_CRIT "Error in free_proxy_req_list";; mret tmp else mret 0);
  sys_ (Free p);;
  set_infos (delete p);;
  mret ret.

Definition proxy_request_list_add (p : Z) (buf : Z * Z) (len info : Z) : OP Z :=
  if (buf.1 + buf.2 =? NULL) || (info =? NULL) then log_msg LOG_ERR "NULL params received";; mret (-1)
  else
    c ← sys (Calloc 1 48);
    let tmp := r_ret c in
    if tmp =? NULL then log_msg LOG_ERR "Error in calloc";; mret (-1)
    else
      store_req tmp (mk_req buf len NULL NULL info NULL);;
      i ← load_info p;
      if curr_req i =? NULL then store_info p (with_reqs i tmp tmp);; mret 0
      else
        l ← load_req (last_req i);
        store_req (last_req i) (mk_req (req_buf l) (req_buf_len l) (host l) (dest_ip l) (http_request_info l) tmp);;
        store_info p (with_reqs i (curr_req i) tmp);;
        mret 0.

Definition add_to_request_list (p info : Z) : OP Z :=
  if (p =? NULL) || (info =? NULL) then log_msg LOG_ERR "NULL params received";; mret (-1)
  else
    i ← load_info p;
    g ← get_glob;
    len ← expect (header_length g !! info);
    ret ← proxy_request_list_add p (client_buf i, client_buf_parsed_len i) len info;
    if ret <? 0 then log_msg LOG_CRIT "Error in proxy_request_list_add";; mret (-1) else mret ret.

Definition handle_request (p info : Z) : OP Z :=
  if (p =? NULL) || (info =? NULL) then log_msg LOG_ERR "NULL params received";; mret (-1)
  else
    a ← add_to_request_list p info;
    if a <? 0 then log_msg LOG_ERR "Error in add_to_request_list";; mret (-1)
    else
      log_msg LOG_DEBUG "Added to request list [%.*s]";;
      i ← load_info p;
      g ← get_glob;
      len ← expect (header_length g !! info);
      store_info p (with_parsed i (client_buf_parsed_len i + len));;
      mret 0.

(** [http_parse_request] is given the unparsed bytes; it stores a result and its header
    length when it returns 0.  [info] is the local [http_request_info]. *)
Definition parse_round (p info : Z) : OP (Z + Z) :=
  i ← load_info p;
  r ← sys (Ext "http_parse_request" (drop (Z.to_nat (client_buf_parsed_len i)) (client_data i)));
  if r_ret r <? 0 then log_msg LOG_ERR "Error [%d] [%s] in http_parse_request";; mret (inl info)
  else if r_ret r =? 0 then
    let info := r_out r !!! 0%nat in
    set_header_length (<[info := r_out r !!! 1%nat]>);;
    h ← handle_request p info;
    (if h <? 0 then log_msg LOG_ERR "Error in handle_request" else mret tt);;
    mret (inl info)
  else mret (inr (r_ret r)).

Definition parse_request_buffer (p : Z) : OP Z :=
  if p =? NULL then mret (-1) else loop fuel (parse_round p) NULL.

Definition INT_MAX : Z := 2147483647.

(** The result and [*rem_len].  [client_buf > 0] is true of every pointer but NULL. *)
Definition alloc_client_buf (p rem_len : Z) : OP (Z * Z) :=
  if p =? NULL then log_msg LOG_ERR "NULL params received";; mret (-1, rem_len)
  else
    i ← load_info p;
    '(size, rem_len) ← (if client_buf_size i =? 0 then mret (REQUEST_BUF_SIZE, REQUEST_BUF_SIZE)
       else if (rem_len <? REALLOC_LIMIT) && negb (client_buf i =? NULL) then
         if INT_MAX <? client_buf_size i * 2 then undef
         else mret (client_buf_size i * 2, client_buf_size i * 2 - client_buf_curr_len i)
       else mret (client_buf_size i, rem_len));
    store_info p (with_buf i (client_buf i) (client_data i) size (client_buf_curr_len i));;
    t ← sys (Realloc (client_buf i) size);
    if r_ret t =? NULL then log_msg LOG_CRIT "Error in realloc";; mret (-1, rem_len)
    else
      i ← load_info p;
      store_info p (with_buf i (r_ret t) (client_data i) (client_buf_size i) (client_buf_curr_len i));;
      mret (0, rem_len).

(** A round of the receive loop; it leaves with [ret]. *)
Definition recv_round (p : Z) : OP (unit + Z) :=
  i ← load_info p;
  '(a, rem_len) ← alloc_client_buf p (client_buf_size i - client_buf_curr_len i);
  if a <? 0 then log_msg LOG_CRIT "Error in alloc_client_buf";; mret (inr (-1))
  else
    i ← load_info p;
    r ← sys (Recv (client_sock i) rem_len 0);
    let ret := r_ret r in
    if ret <? 0 then
      if r_errno r =? EINTR then mret (inl tt)
      else if r_errno r =? EAGAIN then log_msg LOG_DEBUG "EAGAIN on fd [%d]";; mret (inr 1)
      else log_msg LOG_ERR "Error [%d] [%s] in recv";; mret (inr ret)
    else if ret =? 0 then log_msg LOG_DEBUG "Client closed conn on fd [%d]";; mret (inr 0)
    else
      store_info p (with_buf i (client_buf i) (client_data i ++ take (Z.to_nat ret) (r_out r))
        (client_buf_size i) (client_buf_curr_len i + ret));;
      mret (inl tt).

Definition recv_client_data (p : Z) : OP Z :=
  if p =? NULL then log_msg LOG_ERR "NULL params received";; mret (-1)
  else loop fuel (λ _, recv_round p) tt.

(** Printing a request reads [req_buf_len] bytes of the buffer its pointer is in, which
    must still be the buffer of some connection. *)
Definition req_readable (g : op_glob) (q : proxy_req_info) : bool :=
  existsb (λ pi, (client_buf pi.2 =? (req_buf q).1)) (map_to_list (infos g)).

Definition proxy_request_list_print (head : Z) : OP Z :=
  loop fuel (λ tmp,
    if tmp =? NULL then mret (inr 0)
    else
      q ← load_req tmp;
      g ← get_glob;
      (if req_readable g q then log_msg LOG_DEBUG "[%.*s]" else undef);;
      mret (inl (next q))) head.

Definition cleanup_client (p : Z) : OP unit :=
  i ← load_info p;
  sys_ (Close (client_sock i));;
  f ← free_proxy_info p;
  if f <? 0 then log_msg LOG_CRIT "Error in free_proxy_info" else mret tt.

Definition receive_parse_request (arg : Z) : OP unit :=
  if arg =? NULL then log_msg LOG_ERR "NULL params received !!!"
  else
    ret ← recv_client_data arg;
    if ret <? 0 then log_msg LOG_CRIT "Error in recv_client_data";; cleanup_client arg
    else if ret =? 0 then cleanup_client arg
    else
      log_msg LOG_DEBUG "client_buf [%.*s]";;
      r ← parse_request_buffer arg;
      if r <? 0 then log_msg LOG_CRIT "Error in parse_request_buffer";; cleanup_client arg
      else
        i ← load_info arg;
        proxy_request_list_print (curr_req i);;
        mret tt.

(** ** proxy_dns_lookup.c: the result and the value stored through [ip_address] *)

Definition dns_lookup (host service : option string) : OP (Z * option Z) :=
  match host, service with
  | Some _, Some _ =>
      r ← sys (Ext "getaddrinfo" []);
      if r_ret r <? 0 then log_msg LOG_ERR "Error [%d] [%s] in getaddrinfo !!!";; mret (-1, None)
      else
        addr ← expect (r_out r !! 0%nat);
        n ← sys (InetNtoa addr);
        d ← sys (Malloc (Z.of_nat (length (r_out n)) + 1));
        (if r_ret d =? NULL then mret tt else set_strs (<[r_ret d := str_of (r_out n)]>));;
        sys_ (Ext "freeaddrinfo" []);;
        mret (r_ret r, Some (r_ret d))
  | _, _ => log_msg LOG_CRIT "Invalid params received !!!";; mret (-1, None)
  end.

(** ** proxy_request_forwarder.c *)

Definition get_os_info (req : Z) : OP Z :=
  if req =? NULL then log_msg LOG_ERR "NULL params received";; mret (-1)
  else
    q ← load_req req;
    (if http_request_info q =? NULL then undef else mret tt);;
    v ← sys (Ext "http_get_header_value" [http_request_info q]);
    if r_ret v <? 0 then log_msg LOG_ERR "Error [%d] [%s] in http_get_header_value";; mret (-1)
    else
      c ← sys (Calloc (Z.of_nat (length (r_out v)) + 1) 1);
      store_req req (mk_req (req_buf q) (req_buf_len q) (r_ret c) (dest_ip q) (http_request_info q) (next q));;
      if r_ret c =? NULL then log_msg LOG_ALERT "Error in calloc";; mret (-1)
      else
        set_strs (<[r_ret c := str_of (r_out v)]>);;
        '(ret, ip) ← dns_lookup (Some (str_of (r_out v))) (Some "http");
        (match ip with
         | Some ip => store_req req (mk_req (req_buf q) (req_buf_len q) (r_ret c) ip (http_request_info q) (next q))
         | None => mret tt end);;
        if ret <? 0 then log_msg LOG_CRIT "Error in dns_lookup";; mret (-1) else mret ret.

(** The local [proxy_info] is never set from the argument: it is dereferenced as NULL. *)
Definition forward_request (arg : Z) : OP unit :=
  if arg =? NULL then log_msg LOG_ERR "NULL params received"
  else
    let proxy_info := NULL in
    i ← load_info proxy_info;
    ret ← get_os_info (curr_req i);
    if ret <? 0 then log_msg LOG_ERR "Error in get_os_info"
    else
      g ← get_glob;
      q ← load_req (curr_req i);
      let ip := strs g !! dest_ip q in
      '(ret, s) ← (if negb (ip_transparency (g_proxy_config g) =? 0) then
         n ← sys (InetNtoa (client_addr i).1);
         tcp_transparent_connect_to_server ip 80 (str_of (r_out n)) (client_addr i).2
       else tcp_connect_to_server ip 80);
      (match s with Some s => store_info proxy_info (with_os_sock i s) | None => mret tt end);;
      if ret <? 0 then log_msg LOG_ERR "Error connecting to OS" else mret tt.

(** ** proxy_response_handler.c *)

Definition receive_parse_response (arg : Z) : OP unit := mret tt.

(** ** proxy_poller.c *)

Definition sizeof_epoll_event : Z := 12.

(** The test [pthread_create(...) < 0] misses its errors, which are positive. *)
Definition create_poller_thread (p : option poller) : OP Z :=
  match p with
  | None => log_msg LOG_ERR "NULL params received";; mret (-1)
  | Some p =>
      i ← get_poller p;
      t ← sys (PthreadCreate "proxy_default_poller" (match p with CLIENT_POLLER => 1 | OS_POLLER => 2 end));
      set_poller p (mk_poller (epoll_fd i) (workq i) (events i) (r_out t !!! 0%nat) true);;
      if r_ret t <? 0 then log_msg LOG_ERR "Error in pthread_create ";; mret (-1) else mret 0
  end.

Definition init_poller (p : option poller) : OP Z :=
  match p with
  | None => log_msg LOG_ERR "NULL params received !!!";; mret (-1)
  | Some p =>
      e ← sys EpollCreate;
      i ← get_poller p;
      set_poller p (mk_poller (r_ret e) (workq i) (events i) (poller_id i) (poller_routine i));;
      if r_ret e <? 0 then log_msg LOG_ERR "Error [%d] [%s] in epoll_create1";; mret (-1)
      else
        c ← sys (Calloc EPOLL_MAX_EVENTS sizeof_epoll_event);
        set_poller p (mk_poller (r_ret e) (workq i) (r_ret c) (poller_id i) (poller_routine i));;
        if r_ret c =? NULL then log_msg LOG_CRIT "Error in calloc";; sys_ (Close (r_ret e));; mret (-1)
        else
          t ← create_poller_thread (Some p);
          if t <? 0 then
            sys_ (Close (r_ret e));; sys_ (Free (r_ret c));;
            i ← get_poller p;
            set_poller p (mk_poller (epoll_fd i) (workq i) NULL (poller_id i) (poller_routine i));;
            log_msg LOG_ERR "Error in create_poller_thread";; mret (-1)
          else mret 0
  end.

Definition destroy_poller (p : option poller) : OP Z :=
  match p with
  | None => log_msg LOG_ERR "NULL params received";; mret (-1)
  | Some p =>
      i ← get_poller p;
      sys_ (Close (epoll_fd i));;
      sys_ (Free (events i));;
      set_poller p (mk_poller (epoll_fd i) (workq i) NULL (poller_id i) (poller_routine i));;
      c ← sys (PthreadCancel (poller_id i));
      if negb (r_ret c =? 0) then log_msg LOG_ERR "Error [%d] [%s] in phread_cancel";; mret (-1)
      else
        j ← sys (PthreadJoin (poller_id i));
        if negb (r_ret j =? 0) then log_msg LOG_ERR "Error [%d] [%s] in phread_join";; mret (-1)
        else mret 0
  end.

Definition event_bits (f : event_flag) : option Z :=
  match f with
  | EVENT_IN => Some (Z.lor EPOLLIN (Z.lor EPOLLPRI EPOLLET))
  | EVENT_OUT => Some (Z.lor EPOLLOUT EPOLLET)
  | EVENT_INOUT => Some (Z.lor EPOLLIN (Z.lor EPOLLPRI (Z.lor EPOLLOUT EPOLLET)))
  | EVENT_OTHER _ => None
  end.

Definition add_to_poller (epoll_fd fd : Z) (f : event_flag) (data : Z) : OP Z :=
  match event_bits f with
  | None => log_msg LOG_ERR "Invalid event_flag [%d]";; mret (-1)
  | Some bits =>
      r ← sys (EpollCtlAdd epoll_fd fd bits data);
      (if r_ret r <? 0 then log_msg LOG_ERR "Error [%d] [%s] in epoll_ctl" else mret tt);;
      mret (r_ret r)
  end.

(** The events that [epoll_wait] stored: flags and data in turn. *)
Fixpoint event_array (l : list Z) : list (Z * Z) :=
  match l with ev :: d :: l => (ev, d) :: event_array l | _ => [] end.

Fixpoint handle_each (evs : list (Z * Z)) (wq : Z) : OP unit :=
  match evs with
  | [] => mret tt
  | (ev, p) :: evs =>
      i ← load_info p;
      (if has_bits ev EPOLLERR || has_bits ev EPOLLHUP then
         log_msg LOG_ERR "Error occured on fd";;
         sys_ (Close (client_sock i));;
         f ← free_proxy_info p;
         if f <? 0 then log_msg LOG_ERR "Error in free_proxy_info" else mret tt
       else
         log_msg LOG_DEBUG "Added fd [%d] to workq";;
         a ← sys (Ext "WorkQAdd" [wq; p]);
         if negb (r_ret a =? 0) then log_msg LOG_ALERT "Error in WorkQAdd" else mret tt);;
      handle_each evs wq
  end.

Definition handle_epoll_events (evs : option (list (Z * Z))) (wq : Z) : OP Z :=
  match evs with
  | None => log_msg LOG_ERR "NULL params received";; mret (-1)
  | Some evs =>
      if wq =? NULL then log_msg LOG_ERR "NULL params received";; mret (-1)
      else log_msg LOG_INFO "Events on [%d] fds";; handle_each evs wq;; mret 0
  end.

Definition proxy_default_poller (arg : option poller) : OP unit :=
  match arg with
  | None => log_msg LOG_ERR "NULL params received";; exit_with 0
  | Some p =>
      loop fuel (λ _,
        i ← get_poller p;
        r ← sys (EpollWait (epoll_fd i) EPOLL_MAX_EVENTS (-1));
        if r_ret r <? 0 then
          if r_errno r =? EINTR then mret (inl tt)
          else log_msg LOG_ALERT "Error [%d] [%s] inepoll_wait";; mret (inr tt)
        else
          h ← handle_epoll_events
                (if events i =? NULL then None else Some (take (Z.to_nat (r_ret r)) (event_array (r_out r))))
                (workq i);
          (if h <? 0 then log_msg LOG_ERR "Error in handle_epoll_event" else mret tt);;
          mret (inl tt)) tt;;
      exit_with 0
  end.

(** ** proxy_config.c *)

(** [g_proxy_config.f = GetIntConf(fp, section, key); if (... < 0) ... = default]. *)
Definition int_conf (fp : Z) (key : string) (dflt : Z) (set : Z → proxy_config → proxy_config) : OP unit :=
  r ← sys (Ext key [fp]);
  let v := if r_ret r <? 0 then dflt else r_ret r in
  set_config (set v);;
  sys_ (Printf key [v]).

Definition conf_set_ip (s : list ascii) (c : proxy_config) : proxy_config :=
  mk_config s (listen_port c) (log_level c) (child_count c) (workq_parallelism c)
    (workq_thread_timeout c) (workq_length c) (ip_transparency c).

(** [strncpy] from a NULL string is undefined; a ListenIP that is there is not used. *)
Definition get_proxy_config (fp : Z) (proxy_sec_name : option string) : OP Z :=
  match proxy_sec_name with
  | None => sys_ (Printf "%s : Invalid Params received !!!" []);; mret (-1)
  | Some _ =>
      if fp =? NULL then sys_ (Printf "%s : Invalid Params received !!!" []);; mret (-1)
      else
        r ← sys (Ext "ListenIP" [fp]);
        let str := if r_ret r =? NULL then None else Some (str_of (r_out r)) in
        (match str with
         | None => s ← expect str; set_config (conf_set_ip (strncpy 16 s))
         | Some _ => set_config (conf_set_ip (strncpy 16 "0.0.0.0"))
         end);;
        sys_ (Free (r_ret r));;
        sys_ (Printf "%s : ListenIP [%s]" []);;
        int_conf fp "ListenPort" 9001 (λ v c, mk_config (listen_ip c) v (log_level c) (child_count c)
          (workq_parallelism c) (workq_thread_timeout c) (workq_length c) (ip_transparency c));;
        int_conf fp "ChildCount" 1 (λ v c, mk_config (listen_ip c) (listen_port c) (log_level c) v
          (workq_parallelism c) (workq_thread_timeout c) (workq_length c) (ip_transparency c));;
        int_conf fp "LogLevel" 4 (λ v c, mk_config (listen_ip c) (listen_port c) v (child_count c)
          (workq_parallelism c) (workq_thread_timeout c) (workq_length c) (ip_transparency c));;
        int_conf fp "WorkqParallelism" 25 (λ v c, mk_config (listen_ip c) (listen_port c) (log_level c) (child_count c)
          v (workq_thread_timeout c) (workq_length c) (ip_transparency c));;
        int_conf fp "WorkqThreadTimeout" 10 (λ v c, mk_config (listen_ip c) (listen_port c) (log_level c) (child_count c)
          (workq_parallelism c) v (workq_length c) (ip_transparency c));;
        int_conf fp "WorkqLength" 0 (λ v c, mk_config (listen_ip c) (listen_port c) (log_level c) (child_count c)
          (workq_parallelism c) (workq_thread_timeout c) v (ip_transparency c));;
        int_conf fp "IPTransparency" 0 (λ v c, mk_config (listen_ip c) (listen_port c) (log_level c) (child_count c)
          (workq_parallelism c) (workq_thread_timeout c) (workq_length c) v);;
        mret 0
  end.

Definition get_config (conf_file : option string) : OP Z :=
  match conf_file with
  | None => sys_ (Printf "%s : Invalid Params received !!!" []);; mret (-1)
  | Some _ =>
      l ← sys (Ext "jsf_conf_load" []);
      if r_ret l <? 0 then sys_ (Printf "%s : Error in jsf_conf_load for [%s]" []);; mret (-1)
      else
        let fp := r_out l !!! 0%nat in
        r ← get_proxy_config fp (Some "PROXY");
        ret ← (if r <? 0 then sys_ (Printf "%s : Error in get_proxy_config !!!" []);; mret (-1) else mret 0);
        sys_ (Ext "jsf_conf_unload" [fp]);;
        mret ret
  end.

Definition free_proxy_config : OP Z := mret 0.
Definition free_config : OP Z := free_proxy_config;; mret 0.

(** ** proxy_core.c *)

Definition proxy_parent_cleanup : OP Z :=
  log_msg LOG_DEBUG "Proxy parent cleanup...";;
  f ← free_config;
  (if f <? 0 then log_msg LOG_ERR "Error in free_config" else mret tt);;
  g ← get_glob;
  sys_ (Close (g_server_sock g));;
  close_system_logger;;
  log_msg LOG_DEBUG "parent cleanup done";;
  mret 0.

Definition proxy_child_cleanup : OP Z :=
  log_msg LOG_DEBUG "Proxy child cleanup...";;
  g ← get_glob;
  sys_ (Close (g_server_sock g));;
  destroy_poller (Some CLIENT_POLLER);;
  destroy_poller (Some OS_POLLER);;
  close_system_logger;;
  log_msg LOG_DEBUG "child cleanup done";;
  mret 0.

Definition init_one_workq (wq : Z) (err : string) : OP Z :=
  g ← get_glob;
  let c := g_proxy_config g in
  r ← sys (Ext "WorkQInit" [wq; workq_parallelism c; workq_thread_timeout c; workq_length c]);
  if negb (r_ret r =? 0) then log_msg LOG_EMERG err;; mret (-1) else mret 0.

Definition init_workq : OP Z :=
  a ← init_one_workq g_parse_request_workq "WorkQInit failed for parse_request_workq";
  if a <? 0 then mret (-1)
  else
    b ← init_one_workq g_forward_request_workq "WorkQInit failed for forward_request_workq";
    if b <? 0 then mret (-1)
    else
      c ← init_one_workq g_parse_response_workq "WorkQInit failed for parse_request_workq";
      if c <? 0 then mret (-1) else mret 0.

Definition set_workq (p : poller) (wq : Z) : OP unit :=
  i ← get_poller p;
  set_poller p (mk_poller (epoll_fd i) wq (events i) (poller_id i) true).

Definition intialize_proxy : OP Z :=
  w ← init_workq;
  if w <? 0 then log_msg LOG_EMERG "Error in init_workq!!!";; mret (-1)
  else
    set_workq CLIENT_POLLER g_parse_request_workq;;
    set_workq OS_POLLER g_parse_response_workq;;
    a ← init_poller (Some CLIENT_POLLER);
    if a <? 0 then log_msg LOG_EMERG "Error in init_poller";; mret (-1)
    else
      b ← init_poller (Some OS_POLLER);
      if b <? 0 then log_msg LOG_EMERG "Error in init_poller";; mret (-1) else mret 0.

(** The result of [calloc] is used without a test. *)
Definition add_to_request_poller (client_sock : Z) (client_addr : Z * Z) : OP Z :=
  nb ← set_socket_non_blocking (Some client_sock);
  if nb <? 0 then log_msg LOG_ALERT "Error in set_socket_non_blocking !!!";; mret (-1)
  else
    sys_ (Setsockopt client_sock SOL_SOCKET SO_LINGER [0; 0]);;
    c ← sys (Calloc 1 112);
    let p := r_ret c in
    (if p =? NULL then undef else mret tt);;
    store_info p (mk_info client_sock client_addr NULL [] 0 0 0 NULL NULL 0);;
    g ← get_glob;
    a ← add_to_poller (epoll_fd (g_client_poller_info g)) client_sock EVENT_IN p;
    if a <? 0 then
      log_msg LOG_ERR "Error in add_to_poller";;
      f ← free_proxy_info p;
      (if f <? 0 then log_msg LOG_CRIT "Error in free_proxy_info" else mret tt);;
      mret (-1)
    else log_msg LOG_DEBUG "Added fd [%d] to poller";; mret 0.

(** ** proxy_signal_handler.c *)

Definition SIGCHLD : Z := 17.

Definition signums : list Z := [1; 2; 3; 4; 5; 6; 8; 10; 11; 12; 13; 14; 17; 18; 20; 21; 22].

Definition register_signal_handler (signum : Z) (handler : string) : OP Z :=
  r ← sys (Sigaction signum handler);
  if r_ret r <? 0 then
    log_msg LOG_CRIT "Error [%d] [%s] in registering signal handler for signal [%d] !!!";; mret (-1)
  else mret (r_ret r).

Fixpoint register_signals (sigs : list Z) (handler : string) : OP unit :=
  match sigs with
  | [] => mret tt
  | s :: sigs => register_signal_handler s handler;; register_signals sigs handler
  end.

Definition register_all_signal_handler (handler : string) : OP Z := register_signals signums handler;; mret 0.

Definition kill_all_children (signum : Z) : OP Z :=
  g ← get_glob;
  for_range (Z.to_nat (child_count (g_proxy_config g))) 0 (λ i _,
    g ← get_glob;
    pid ← expect (table_get (g_child_table g) i);
    log_msg LOG_EMERG "Sending signal [%d] [%s] to child [%d]";;
    k ← sys (Kill pid signum);
    if r_ret k <? 0 then log_msg LOG_CRIT "Error [%d] [%s] in kill";; mret (-1)
    else mret (r_ret k)) 0.

Definition parent_signal_handler (signum : Z) : OP unit :=
  log_msg LOG_EMERG "Received signal [%d] [%s] in parent [%d]";;
  (if signum =? SIGCHLD then
     log_msg LOG_EMERG "SIGCHLD received.si_signo [%d] si_code [%d] si_pid [%d] !!!"
   else
     r ← kill_all_children signum;
     (if r <? 0 then log_msg LOG_CRIT "Error in kill_all_children !!!" else mret tt);;
     proxy_parent_cleanup;; mret tt);;
  sys_ (SignalDfl signum);;
  sys_ (Raise signum).

Definition child_signal_handler (signum : Z) : OP unit :=
  log_msg LOG_EMERG "Received signal [%d] [%s] in child [%d] !!!";;
  proxy_child_cleanup;;
  sys_ (SignalDfl signum);;
  sys_ (Raise signum).

(** ** proxy_core.c, the children *)

Definition start_proxy (index : Z) : OP unit :=
  r ← register_all_signal_handler "child_signal_handler";
  if r <? 0 then log_msg LOG_EMERG "Error in register_signal_handler !!!";; exit_with 0
  else
    i ← intialize_proxy;
    if i <? 0 then log_msg LOG_EMERG "Error in intialize_proxy";; exit_with 0
    else
      log_msg LOG_INFO "Waiting for client connections...";;
      loop fuel (λ _,
        g ← get_glob;
        a ← sys (Accept (g_server_sock g));
        let client_sock := r_ret a in
        if client_sock <? 0 then
          if r_errno a =? EINTR then mret (inl tt)
          else log_msg LOG_ALERT "Error [%d] [%s] in accept";; mret (inr tt)
        else
          sys_ (InetNtoa (r_out a !!! 0%nat));;
          log_msg LOG_DEBUG "Accepted connection from Client [%s : %d]";;
          q ← add_to_request_poller client_sock (r_out a !!! 0%nat, r_out a !!! 1%nat);
          (if q <? 0 then
             sys_ (Close client_sock);; log_msg LOG_ALERT "Error in add_to_parse_request_workq"
           else mret tt);;
          mret (inl tt)) tt;;
      exit_with 0.

Definition start_child (index : Z) : OP Z :=
  f ← sys Fork;
  let pid := r_ret f in
  g ← get_glob;
  if pid <? 0 then
    log_msg LOG_ALERT "Error [%d] [%s] in fork !!!";;
    t ← expect (table_set (g_child_table g) index (-1)); set_table t;; mret pid
  else if pid =? 0 then start_proxy index;; mret pid
  else
    log_msg LOG_INFO "Created Child Process with pid [%d]";;
    t ← expect (table_set (g_child_table g) index pid); set_table t;; mret pid.

Definition create_multiple_child (num_child : Z) : OP unit :=
  let n := if num_child <=? 0 then 1 else if MAX_CHILD <? num_child then MAX_CHILD else num_child in
  count ← for_range (Z.to_nat n) 0 (λ i count,
    s ← start_child i;
    if negb (s =? 0) then g ← get_glob; set_active (g_active_child_count g + 1);; mret (count + 1)
    else mret count) 0;
  if count =? 0 then log_msg LOG_EMERG "Failed to start any child processes !!!"
  else log_msg LOG_INFO "Proxy started...".

(** ** proxy_main.c *)

Definition handle_child_exit (pid : Z) : OP Z :=
  g ← get_glob;
  for_range (Z.to_nat (child_count (g_proxy_config g))) 0 (λ i _,
    g ← get_glob;
    p ← expect (table_get (g_child_table g) i);
    if pid =? p then log_msg LOG_ALERT "Restarting processon index [%d]";; start_child i;; mret tt
    else mret tt) tt;;
  mret 0.

Definition wait_for_child : OP Z :=
  loop fuel (λ _,
    g ← get_glob;
    if 0 <? g_active_child_count g then
      r ← sys (Waitpid (-1) WUNTRACED);
      if r_ret r <? 0 then
        if r_errno r =? EINTR then mret (inl tt)
        else log_msg LOG_ALERT "Error [%d] [%s] in waitpid";; mret (inr 0)
      else
        log_msg LOG_CRIT "child [%d] exit status [%d]";;
        (if 0 <? r_out r !!! 0%nat then handle_child_exit (r_ret r);; mret tt
         else g ← get_glob; set_active (g_active_child_count g - 1));;
        log_msg LOG_DEBUG "active count [%d]";;
        mret (inl tt)
    else mret (inr 0)) tt.

Definition print_help : OP unit := sys_ (Printf "USAGE :" []).

(** The options [getopt] found, and [conf_file]. *)
Fixpoint parse_command_line_arguments (opts : list (ascii * string)) (conf_file : list ascii) : OP (list ascii) :=
  match opts with
  | [] => mret conf_file
  | (c, optarg) :: opts =>
      conf_file ← match c with
        | "c" => mret (strncpy 32 optarg)
        | "v" => sys_ (Printf "PROXY_VERSION_DETAILS" []);; mret conf_file
        | "h" => print_help;; mret conf_file
        | "?" => sys_ (Printf "Invalid Option %c !!!" []);; print_help;; mret conf_file
        | ":" => sys_ (Printf "Missing argument for option %c" []);; print_help;; mret conf_file
        | _ => print_help;; mret conf_file
        end%char;
      parse_command_line_arguments opts conf_file
  end.

Definition main (ident : string) (opts : list (ascii * string)) : OP Z :=
  conf_file ← parse_command_line_arguments opts (replicate 32 Ascii.zero);
  f ← expect (c_string conf_file);
  r ← get_config (Some f);
  if r <? 0 then sys_ (Printf "%s : Error in get_config !!!" []);; exit_with 1
  else
    g ← get_glob;
    open_system_logger ident (log_level (g_proxy_config g));;
    register_all_signal_handler "parent_signal_handler";;
    g ← get_glob;
    ip ← expect (c_string (listen_ip (g_proxy_config g)));
    b ← tcp_bind_and_listen (Some ip) (listen_port (g_proxy_config g));
    (match b.2 with Some s => set_server_sock s | None => mret tt end);;
    log_msg LOG_INFO "Proxy listening on [%s : %d]";;
    if b.1 <? 0 then log_msg LOG_EMERG "Error in tcp_bind_and_listen !!!";; exit_with 1
    else
      create_multiple_child (child_count (g_proxy_config g));;
      wait_for_child;;
      mret 0.

End code.

(** ** The list of requests *)

(** The chain of requests from [hd]: their addresses, and the slice of a buffer each is. *)
Fixpoint rseg (m : gmap Z proxy_req_info) (hd : Z) (l : list (Z * (Z * Z * Z))) : Prop :=
  match l with
  | [] => hd = NULL
  | (a, (buf, len)) :: l =>
      hd = a ∧ a ≠ NULL ∧ ∃ q, m !! a = Some q ∧ req_buf q = buf ∧ req_buf_len q = len ∧ rseg m (next q) l
  end.

Definition req_next (q : proxy_req_info) (n : Z) : proxy_req_info :=
  mk_req (req_buf q) (req_buf_len q) (host q) (dest_ip q) (http_request_info q) n.

Lemma rseg_frame m m' hd l : (∀ a, a ∈ l.*1 → m' !! a = m !! a) → rseg m hd l → rseg m' hd l.
Proof.
  revert hd. induction l as [|[a [b n]] l IH]; intros hd Hm; cbn; [done|].
  intros (-> & Ha & q & Hq & Hb & Hn & Hl). split_and!; [done|done|]. exists q.
  split_and!; [rewrite Hm by (cbn; set_solver); done|done|done|]. apply IH; [|done]. intros. apply Hm. cbn. set_solver.
Qed.

(** Appending a new request behind the last one. *)
Lemma rseg_snoc m hd l a d q t new : rseg m hd (l ++ [(a, d)]) → NoDup (l ++ [(a, d)]).*1 →
  t ∉ (l ++ [(a, d)]).*1 → m !! a = Some q → t ≠ NULL → next new = NULL →
  rseg (<[a := req_next q t]> (<[t := new]> m)) hd ((l ++ [(a, d)]) ++ [(t, (req_buf new, req_buf_len new))]).
Proof.
  revert hd. induction l as [|[b [bb bn]] l IH]; intros hd; cbn.
  - destruct d as [db dn]. intros (-> & Ha & q' & Hq' & Hb & Hn & _) _ Ht Hq Htn Hnew.
    assert (q' = q) as -> by congruence. split_and!; [done|done|]. exists (req_next q t).
    rewrite lookup_insert_eq. split_and!; [done|done|done|done|done|]. exists new.
    rewrite lookup_insert_ne by set_solver. by rewrite lookup_insert_eq.
  - intros (-> & Hb & q' & Hq' & Hbb & Hbn & Hl) Hnd Ht Hq Htn Hnew. apply list.NoDup_cons in Hnd as [Hnin Hnd].
    apply not_elem_of_cons in Ht as [Htb Ht].
    assert (b ≠ a) by (intros ->; apply Hnin; rewrite fmap_app; apply elem_of_app; right; by left).
    split_and!; [done|done|]. exists q'. rewrite !lookup_insert_ne by done.
    split_and!; [done|done|done|]. by apply IH.
Qed.

(** The requests of a connection: the chain, its last element, and blocks the program owns. *)
Record req_rep (tr : list event) (m : gmap Z proxy_req_info) (i : proxy_info) (l : list (Z * (Z * Z * Z))) : Prop := {
  rr_seg : rseg m (curr_req i) l;
  rr_nodup : NoDup l.*1;
  rr_last : l = [] ∨ ∃ l0 d, l = l0 ++ [(last_req i, d)];
  rr_owned : ∀ a, a ∈ l.*1 → 1 ≤ mem_balance tr a }.

(** The parser: a complete request has a header inside the bytes it was given.  It may
    reject any bytes. *)
Definition parser_ok {os : OS} : Prop :=
  ∀ tr d, let r := os_answer tr (Ext "http_parse_request" d) in
    r_ret r = 0 → r_out r !!! 0%nat ≠ NULL ∧ 0 < r_out r !!! 1%nat ≤ Z.of_nat (length d).

(** The allocator: a block it grants is not one the program owns.  It may refuse. *)
Definition calloc_sane {os : OS} : Prop :=
  ∀ tr n s, let p := r_ret (os_answer tr (Calloc n s)) in p ≠ NULL → mem_balance tr p = 0.

(** The calls of a history that failed: bytes that the parser rejected and blocks that
    the allocator refused. *)
Definition failed (e : event) : bool :=
  match e with
  | (Ext "http_parse_request" _, r) => r_ret r <? 0
  | (Calloc _ _, r) => r_ret r =? NULL
  | _ => false
  end.

Definition failures (tr : list event) : nat := length (List.filter failed tr).

(** Consecutive slices of the buffer [b] from [off], of lengths [lens]. *)
Fixpoint slices (b off : Z) (lens : list Z) : list (Z * Z * Z) :=
  match lens with [] => [] | n :: lens => ((b, off), n) :: slices b (off + n) lens end.

Definition sum (l : list Z) : Z := foldr Z.add 0 l.

Lemma slices_snoc b off lens n : slices b off (lens ++ [n]) = slices b off lens ++ [((b, off + sum lens), n)].
Proof.
  revert off. induction lens as [|x lens IH]; intros off; cbn; [by rewrite Z.add_0_r|].
  rewrite IH. unfold sum. cbn. by rewrite Z.add_assoc.
Qed.

Lemma sum_snoc lens n : sum (lens ++ [n]) = sum lens + n.
Proof. unfold sum. induction lens; cbn in *; lia. Qed.

Lemma rseg_lookup m hd l a d : rseg m hd l → (a, d) ∈ l → ∃ q, m !! a = Some q.
Proof.
  revert hd. induction l as [|[b [bb bn]] l IH]; intros hd; cbn; [by intros _ ?%elem_of_nil|].
  intros (-> & Hb & q & Hq & _ & _ & Hl) [[= -> ->]|Ha]%elem_of_cons; [by exists q|by eapply IH].
Qed.

(** A call that neither allocates nor frees. *)
Lemma req_rep_quiet tr c r m i l : (∀ p, mem_delta (c, r) p = 0) → req_rep tr m i l → req_rep ((c, r) :: tr) m i l.
Proof.
  intros Hc [H1 H2 H3 H4]. split; [done|done|done|]. intros a Ha. cbn [mem_balance].
  rewrite Hc. specialize (H4 a Ha). lia.
Qed.

(** The two branches of adding a request. *)
Section add.
Context (tr : list event) (m : gmap Z proxy_req_info) (i : proxy_info) (l : list (Z * (Z * Z * Z))).
Context (n s : Z) (r : reply) (new : proxy_req_info).
Context (Hrep : req_rep tr m i l) (Hn : r_ret r ≠ NULL) (Hbal : mem_balance tr (r_ret r) = 0).
Context (Hnext : next new = NULL).

Lemma add_fresh : r_ret r ∉ l.*1.
Proof. intros Ht. pose proof (rr_owned _ _ _ _ Hrep _ Ht). lia. Qed.

Lemma add_nodup d : NoDup (l ++ [(r_ret r, d)]).*1.
Proof.
  rewrite fmap_app. apply list.NoDup_app. split_and!; [by apply Hrep| |apply NoDup_singleton].
  cbn. intros a Ha ->%list_elem_of_singleton. by apply add_fresh.
Qed.

Lemma add_owned d a : a ∈ (l ++ [(r_ret r, d)]).*1 → 1 ≤ mem_balance ((Calloc n s, r) :: tr) a.
Proof.
  rewrite fmap_app. cbn [mem_balance mem_delta fmap list_fmap].
  intros [Ha| ->%list_elem_of_singleton]%elem_of_app.
  - pose proof (rr_owned _ _ _ _ Hrep _ Ha). repeat case_match; lia.
  - unfold NULL in *. cbn. repeat case_match; lia.
Qed.

Lemma add_first : curr_req i = NULL →
  req_rep ((Calloc n s, r) :: tr) (<[r_ret r := new]> m) (with_reqs i (r_ret r) (r_ret r))
    (l ++ [(r_ret r, (req_buf new, req_buf_len new))]).
Proof.
  intros Hc. assert (l = []) as Hl.
  { pose proof (rr_seg _ _ _ _ Hrep) as H. destruct l as [|[a [b k]] l']; [done|].
    cbn in H. destruct H as (Eh & Ha & _). congruence. }
  split; [|apply add_nodup|right; by eexists l, _|by apply add_owned].
  rewrite Hl. cbn. split_and!; [done|done|]. exists new. rewrite lookup_insert_eq. done.
Qed.

Lemma add_later : curr_req i ≠ NULL →
  ∃ q, <[r_ret r := new]> m !! last_req i = Some q ∧
  req_rep ((Calloc n s, r) :: tr) (<[last_req i := req_next q (r_ret r)]> (<[r_ret r := new]> m))
    (with_reqs i (curr_req i) (r_ret r)) (l ++ [(r_ret r, (req_buf new, req_buf_len new))]).
Proof.
  intros Hc. pose proof add_fresh as Hf. pose proof (rr_seg _ _ _ _ Hrep) as Hseg.
  destruct (rr_last _ _ _ _ Hrep) as [Hl|(l0 & d & Hl)]; [rewrite Hl in Hseg; done|].
  assert (Hin : (last_req i, d) ∈ l) by (rewrite Hl; apply elem_of_app; right; by left).
  destruct (rseg_lookup _ _ _ _ _ Hseg Hin) as [q Hq]. exists q.
  assert (last_req i ≠ r_ret r).
  { intros E. apply Hf. rewrite <- E. apply list_elem_of_fmap. by exists (last_req i, d). }
  rewrite lookup_insert_ne by done. split; [done|].
  split; [|apply add_nodup|right; by eexists l, _|by apply add_owned].
  cbn [curr_req with_reqs]. rewrite Hl. apply rseg_snoc; rewrite <- ?Hl; try done. by apply Hrep.
Qed.
End add.

Section specs.
Context {os : OS} (fuel : nat) (Hfresh : calloc_sane).
Implicit Types (tr : list event) (g : op_glob).

Lemma list_add_wp p buf len info i l tr g :
  infos g !! p = Some i → req_rep tr (reqs g) i l → buf.1 + buf.2 ≠ NULL → info ≠ NULL →
  wp (proxy_request_list_add p buf len info) (λ ret w,
    (ret = -1 ∧ w_glob w = g ∧ req_rep (w_trace w) (reqs g) i l ∧ failures (w_trace w) = S (failures tr)) ∨
    (ret = 0 ∧ ∃ t head last,
      infos (w_glob w) = <[p := with_reqs i head last]> (infos g) ∧
      header_length (w_glob w) = header_length g ∧ failures (w_trace w) = failures tr ∧
      req_rep (w_trace w) (reqs (w_glob w)) (with_reqs i head last) (l ++ [(t, (buf, len))]))) (mk_world tr g).
Proof.
  intros Hi Hrep Hb Hinfo. unfold proxy_request_list_add.
  rewrite (proj2 (Z.eqb_neq _ _) Hb), (proj2 (Z.eqb_neq _ _) Hinfo). cbn [orb].
  unfold store_req, load_info, store_info, load_req, set_reqs, set_infos.
  apply wp_bind, wp_sys. intros r Hr. pose proof (Hfresh tr 1 48) as Hbal. rewrite <- Hr in Hbal.
  destruct (r_ret r =? NULL) eqn:En.
  { wp_run. left. split_and!; [done|done| |].
    - apply req_rep_quiet; [done|]. apply req_rep_quiet; [|done]. apply Z.eqb_eq in En. intros x. cbn. by rewrite En.
    - unfold failures. cbn. by rewrite En. }
  pose proof En as Hn. apply Z.eqb_neq in Hn. specialize (Hbal Hn). wp_run. cbn [infos]. rewrite Hi.
  assert (Hf : failures ((Calloc 1 48, r) :: tr) = failures tr) by (unfold failures; cbn; by rewrite En).
  pose (new := mk_req buf len NULL NULL info NULL). wp_run.
  - right. split; [done|]. exists (r_ret r), (r_ret r), (r_ret r). split_and!; [done|done|done|].
    apply (add_first _ _ _ _ 1 48 _ new Hrep); [done|done|done|by apply Z.eqb_eq].
  - destruct (add_later _ _ _ _ 1 48 _ new Hrep Hn Hbal eq_refl ltac:(by apply Z.eqb_neq)) as (q & Hq & Hrep').
    cbn [reqs]. fold new. rewrite Hq. wp_run. right. split; [done|]. exists (r_ret r), (curr_req i), (r_ret r). split_and!; done.
Qed.

Lemma req_rep_parsed tr m i l n : req_rep tr m i l → req_rep tr m (with_parsed i n) l.
Proof. intros [H1 H2 H3 H4]. by split. Qed.

Lemma handle_request_wp p info i l len tr g :
  infos g !! p = Some i → req_rep tr (reqs g) i l → header_length g !! info = Some len →
  p ≠ NULL → info ≠ NULL → client_buf i + client_buf_parsed_len i ≠ NULL →
  wp (handle_request p info) (λ ret w,
    (ret = -1 ∧ w_glob w = g ∧ req_rep (w_trace w) (reqs g) i l ∧ failures (w_trace w) = S (failures tr)) ∨
    (ret = 0 ∧ ∃ t head last,
      infos (w_glob w) !! p = Some (with_parsed (with_reqs i head last) (client_buf_parsed_len i + len)) ∧
      failures (w_trace w) = failures tr ∧
      req_rep (w_trace w) (reqs (w_glob w)) (with_reqs i head last)
        (l ++ [(t, ((client_buf i, client_buf_parsed_len i), len))]))) (mk_world tr g).
Proof.
  intros Hi Hrep Hlen Hp Hinfo Hb. unfold handle_request, add_to_request_list, load_info, store_info, set_infos.
  rewrite (proj2 (Z.eqb_neq _ _) Hp), (proj2 (Z.eqb_neq _ _) Hinfo). cbn [orb].
  wp_run. rewrite Hi. wp_run. rewrite Hlen. wp_run. eapply wp_mono; [by eapply list_add_wp|].
  intros ret [tr' g'] [(-> & Hg & Hrep' & Hfl)|(-> & t & hd & la & Hinfos & Hhl & Hfl & Hrep')]; cbn [w_glob w_trace] in *.
  - wp_run. left. split_and!; [done|done|by do 2 (apply req_rep_quiet; [done|])|done].
  - wp_run. rewrite Hinfos, lookup_insert_eq. wp_run. rewrite Hhl, Hlen. wp_run. right. split; [done|].
    exists t, hd, la. cbn [w_glob w_trace infos reqs]. rewrite Hinfos, lookup_insert_eq.
    split_and!; [done|done|]. by apply req_rep_quiet.
Qed.

(** The connection [i] at [p] whose list was [l] has been parsed on: consecutive slices
    of its buffer follow in the list, none empty and none past the data. *)
Definition framed (p : Z) (i : proxy_info) (l : list (Z * (Z * Z * Z))) (w : world op_glob) : Prop :=
  ∃ i' l' lens,
    infos (w_glob w) !! p = Some i' ∧
    req_rep (w_trace w) (reqs (w_glob w)) i' (l ++ l') ∧
    l'.*2 = slices (client_buf i) (client_buf_parsed_len i) lens ∧
    Forall (λ n, 0 < n) lens ∧
    client_buf_parsed_len i' = client_buf_parsed_len i + sum lens ∧
    client_buf_parsed_len i' ≤ client_buf_curr_len i' ∧
    client_buf i' = client_buf i ∧ client_data i' = client_data i ∧
    client_buf_curr_len i' = client_buf_curr_len i.

(** A buffer that holds [client_buf_curr_len] bytes of which some are parsed. *)
Definition buf_ok (i : proxy_info) : Prop :=
  0 < client_buf i ∧ client_buf_curr_len i = Z.of_nat (length (client_data i)) ∧
  0 ≤ client_buf_parsed_len i ≤ client_buf_curr_len i.

Definition unparsed (p : Z) (w : world op_glob) : nat :=
  match infos (w_glob w) !! p with
  | Some i => Z.to_nat (client_buf_curr_len i - client_buf_parsed_len i)
  | None => 0
  end.

Lemma sum_pos lens : Forall (λ n, 0 < n) lens → 0 ≤ sum lens.
Proof. unfold sum. induction 1; cbn; lia. Qed.

Lemma framed_quiet p i l c r tr g : (∀ x, mem_delta (c, r) x = 0) →
  framed p i l (mk_world tr g) → framed p i l (mk_world ((c, r) :: tr) g).
Proof.
  intros Hc (i' & l' & lens & Hi & Hrep & H). exists i', l', lens. split_and!; [done|by apply req_rep_quiet|apply H..].
Qed.

Lemma parse_round_wp p i l info w : parser_ok → p ≠ NULL → buf_ok i → framed p i l w →
  wp (parse_round p info) (λ r w', framed p i l w' ∧ match r with
    | inl _ => (unparsed p w' + failures (w_trace w) < unparsed p w + failures (w_trace w'))%nat
    | inr ret => 0 < ret end) w.
Proof.
  intros Hpar Hp (Hbuf & Hcl & Hle) Hfr. pose proof Hfr as (i' & l' & lens & Hi & Hrep & Hsl & Hpos & Hpl & Hpc & Eb & Ed & Ec).
  destruct w as [tr g]. cbn [w_glob w_trace] in *. unfold parse_round, load_info, set_header_length.
  wp_run. rewrite Hi. wp_run; specialize (Hpar tr (drop (Z.to_nat (client_buf_parsed_len i')) (client_data i')));
    rewrite <- Hr in Hpar; pose proof (sum_pos _ Hpos).
  - split; [by do 2 (apply framed_quiet; [done|])|].
    unfold failures, unparsed. cbn [w_trace w_glob List.filter failed]. rewrite E. cbn. lia.
  - destruct (Hpar ltac:(lia)) as [Hout Hlen]. rewrite length_drop in Hlen.
    assert (Hok : failures ((Ext "http_parse_request" (drop (Z.to_nat (client_buf_parsed_len i')) (client_data i')), r) :: tr) = failures tr).
    { unfold failures. cbn [List.filter failed]. by rewrite E. }
    eapply wp_mono; [eapply handle_request_wp|].
    + exact Hi.
    + apply req_rep_quiet; [done|exact Hrep].
    + apply lookup_insert_eq.
    + done.
    + done.
    + unfold NULL. lia.
    + intros ret [tr' g'] [(-> & Hg & Hrep' & Hfl)|(-> & t & hd & la & Hi' & Hfl & Hrep')]; cbn [w_glob w_trace] in *;
        rewrite Hok in Hfl; wp_run.
      { split.
        - exists i', l', lens. rewrite Hg. split_and!; [done|by apply req_rep_quiet|done..].
        - unfold unparsed. rewrite Hg. cbn. rewrite Hi. unfold failures in *. cbn. lia. }
      split.
      * eexists _, (l' ++ [_]), (lens ++ [_]). cbn [w_glob w_trace]. split_and!; [exact Hi'|..].
        -- rewrite app_assoc. apply req_rep_parsed. exact Hrep'.
        -- rewrite fmap_app, Hsl, slices_snoc. cbn. by rewrite Eb, Hpl.
        -- apply Forall_app. split; [done|]. constructor; [lia|done].
        -- rewrite sum_snoc. cbn. lia.
        -- cbn. rewrite Ed in Hlen. lia.
        -- done.
        -- done.
        -- done.
      * unfold unparsed. cbn [w_glob w_trace]. rewrite Hi, Hi'. cbn. rewrite Ed in Hlen. lia.
  - split; [by apply framed_quiet|lia].
Qed.

Lemma parse_rounds_wp p i l n : parser_ok → p ≠ NULL → buf_ok i → ∀ info w, framed p i l w →
  wp (rounds n (parse_round p) info) (λ r w', framed p i l w' ∧ match r with
    | inl _ => (n + unparsed p w' + failures (w_trace w) ≤ unparsed p w + failures (w_trace w'))%nat
    | inr ret => 0 < ret ∧ loop n (parse_round p) info w = Ok ret w' end) w.
Proof.
  intros Hpar Hp Hok. induction n as [|n IH]; intros info w Hfr; [split; [done|cbn; lia]|].
  pose proof (parse_round_wp p i l info w Hpar Hp Hok Hfr) as Hw.
  apply wp_Ok in Hw as ([info'|ret] & w1 & E & Hfr1 & H1); cbn [rounds]; apply wp_bind, wp_Ok.
  - exists (inl info'), w1. split; [done|]. eapply wp_mono; [by apply IH|]. intros [?|ret] w2 [Hfr2 H2].
    + split; [done|lia].
    + split; [done|]. by rewrite (loop_again _ _ _ _ _ _ E).
  - exists (inr ret), w1. split; [done|]. split; [done|]. split; [done|]. by rewrite (loop_done _ _ _ _ _ _ E).
Qed.

End specs.

(** ** Releasing a connection *)

(** The blocks that the requests of a list own. *)
Definition req_blocks (m : gmap Z proxy_req_info) (l : list (Z * (Z * Z * Z))) : list Z :=
  l ≫= λ '(a, _), match m !! a with Some q => [host q; dest_ip q; a] | None => [] end.

(** The parsed requests they own, which are the HTTP library's. *)
Definition req_parsed (m : gmap Z proxy_req_info) (l : list (Z * (Z * Z * Z))) : list Z :=
  l ≫= λ '(a, _), match m !! a with Some q => [http_request_info q] | None => [] end.

(** How often a parsed request was handed back to the library. *)
Definition parsed_freed (e : event) (x : Z) : Z :=
  match e with (Ext "http_request_info_free" [y], _) => Z.b2z (y =? x) | _ => 0 end.

Fixpoint parsed_frees (tr : list event) (x : Z) : Z :=
  match tr with [] => 0 | e :: tr => parsed_freed e x + parsed_frees tr x end.

(** Between [tr] and [tr'] the blocks [ps] and the parsed requests [hs] were given back,
    each once, and no descriptor. *)
Definition given_back (tr tr' : list event) (ps hs : list Z) : Prop :=
  (∀ fd, fd_balance tr' fd = fd_balance tr fd) ∧
  (∀ x, x ≠ NULL → mem_balance tr' x = mem_balance tr x - count x ps) ∧
  (∀ x, parsed_frees tr' x = parsed_frees tr x + count x hs).

Lemma given_back_trans a b c ps qs hs ks :
  given_back a b ps hs → given_back b c qs ks → given_back a c (ps ++ qs) (hs ++ ks).
Proof.
  intros (H1 & H2 & H3) (H4 & H5 & H6). split_and!.
  - intros fd. by rewrite H4, H1.
  - intros x Hx. rewrite H5, H2, count_app by done. lia.
  - intros x. rewrite H6, H3, count_app by done. lia.
Qed.

Lemma given_back_quiet tr c r ps hs :
  (∀ p, mem_delta (c, r) p = 0) → (∀ fd, fd_delta (c, r) fd = 0) → (∀ x, parsed_freed (c, r) x = 0) →
  ∀ tr', given_back tr' tr ps hs → given_back tr' ((c, r) :: tr) ps hs.
Proof.
  intros Hm Hf Hh tr' (H1 & H2 & H3). split_and!; [intros fd|intros x Hx|intros x];
    cbn [fd_balance mem_balance parsed_frees].
  - by rewrite Hf, H1.
  - by rewrite Hm, H2.
  - by rewrite Hh, H3.
Qed.

Ltac gb_solve :=
  split_and!; [intros ?fd; cbn [fd_balance fd_delta w_trace]; lia|
  intros ?x ?Hx; unfold NULL in *; cbn [mem_balance mem_delta count foldr w_trace]; lia|
  intros ?x; cbn [parsed_frees parsed_freed count foldr w_trace]; lia].

Lemma free_req_wp {os : OS} a q tr g : reqs g !! a = Some q →
  wp (free_proxy_req_info a) (λ _ w,
    given_back tr (w_trace w) [host q; dest_ip q; a] [http_request_info q] ∧
    infos (w_glob w) = infos g ∧ reqs (w_glob w) = delete a (reqs g)) (mk_world tr g).
Proof.
  intros Hq. unfold free_proxy_req_info, load_req, set_reqs. wp_run. rewrite Hq. wp_run.
  all: split; [gb_solve|done].
Qed.

Lemma req_blocks_delete m a l : a ∉ l.*1 → req_blocks (delete a m) l = req_blocks m l.
Proof.
  induction l as [|[b d] l IH]; [done|]. rewrite fmap_cons. intros [Hb Hl]%not_elem_of_cons.
  unfold req_blocks in *. rewrite !bind_cons, IH by done. by rewrite lookup_delete_ne.
Qed.

Lemma req_parsed_delete m a l : a ∉ l.*1 → req_parsed (delete a m) l = req_parsed m l.
Proof.
  induction l as [|[b d] l IH]; [done|]. rewrite fmap_cons. intros [Hb Hl]%not_elem_of_cons.
  unfold req_parsed in *. rewrite !bind_cons, IH by done. by rewrite lookup_delete_ne.
Qed.

Lemma free_list_wp {os : OS} fuel l : ∀ hd ret tr g,
  rseg (reqs g) hd l → NoDup l.*1 → (length l < fuel)%nat →
  wp (loop fuel free_round (hd, ret)) (λ _ w, given_back tr (w_trace w) (req_blocks (reqs g) l) (req_parsed (reqs g) l) ∧
    infos (w_glob w) = infos g ∧
    ∀ a, reqs (w_glob w) !! a = if decide (a ∈ l.*1) then None else reqs g !! a) (mk_world tr g).
Proof.
  revert fuel. induction l as [|[a [b n]] l IH]; intros [|fuel] hd ret tr g Hseg Hnd Hf;
    [cbn in Hf; lia| |cbn in Hf; lia|].
  - cbn in Hseg. subst. unfold wp. cbn. by split_and!; [gb_solve|..].
  - cbn in Hseg. destruct Hseg as (-> & Ha & q & Hq & _ & _ & Hl).
    rewrite fmap_cons in Hnd. apply list.NoDup_cons in Hnd as [Hnin Hnd].
    cbn [loop]. apply wp_bind. unfold free_round at 1. rewrite (proj2 (Z.eqb_neq _ _) Ha). unfold load_req. wp_run.
    rewrite Hq. wp_run. eapply wp_mono; [by apply free_req_wp|]. intros rv [tr' g'] (Hgb & Hin & Hre).
    cbn [w_trace w_glob] in *.
    assert (Hk : ∀ ret' tr'', given_back tr tr'' [host q; dest_ip q; a] [http_request_info q] →
      wp (loop fuel free_round (next q, ret')) (λ _ w,
        given_back tr (w_trace w) (req_blocks (reqs g) ((a, (b, n)) :: l)) (req_parsed (reqs g) ((a, (b, n)) :: l)) ∧
        infos (w_glob w) = infos g ∧
        ∀ c, reqs (w_glob w) !! c = if decide (c ∈ ((a, (b, n)) :: l).*1) then None else reqs g !! c)
        (mk_world tr'' g')).
    { intros ret' tr'' Hgb'. eapply wp_mono; [apply IH; [|done|cbn in Hf; lia]|].
      - eapply rseg_frame; [|exact Hl]. intros c Hc. rewrite Hre. apply lookup_delete_ne. by intros ->.
      - intros _ w (Hgb2 & Hin2 & Hre2). rewrite Hre, req_blocks_delete, req_parsed_delete in Hgb2 by done. split_and!.
        + unfold req_blocks, req_parsed in *. rewrite !bind_cons, Hq. by eapply given_back_trans.
        + congruence.
        + intros c. rewrite Hre2, Hre, fmap_cons. cbn [fst].
          destruct (decide (c = a)) as [->|Hne]; [rewrite lookup_delete_eq, (decide_True (P := a ∈ a :: _)) by left; by case_decide|].
          rewrite lookup_delete_ne by done. by repeat case_decide; set_solver. }
    wp_run; apply Hk; [by apply given_back_quiet|done].
Qed.

(** C12: whatever bytes the parser rejects and whatever blocks the allocator refuses, after
    any number of rounds of the parsing loop the requests appended to the connection's
    list are consecutive non-empty slices of the buffer from where parsing had stopped,
    in order, up to the new [client_buf_parsed_len], which stays within the received
    data; the requests already in the list stay, and the list's invariant holds.  The
    loop goes on for at most one round per byte parsed and one per rejection or refusal,
    and where it stops parse_request_buffer returns a positive number: without a failure
    it returns, within one round per unparsed byte.  Assumed: a header that the parser
    reports is not empty and lies within the bytes it was given, and a block granted by
    calloc is not one the program owns. *)
Theorem requests_framed {os : OS} n p i l tr g :
  calloc_sane → parser_ok → p ≠ NULL → infos g !! p = Some i → buf_ok i → req_rep tr (reqs g) i l →
  wp (rounds n (parse_round p) NULL) (λ r w, framed p i l w ∧ match r with
    | inl _ => (n + unparsed p w + failures tr ≤ unparsed p (mk_world tr g) + failures (w_trace w))%nat
    | inr ret => 0 < ret ∧ parse_request_buffer n p (mk_world tr g) = Ok ret w end) (mk_world tr g).
Proof.
  intros Hfr Hpar Hp Hi Hok Hrep. unfold parse_request_buffer. rewrite (proj2 (Z.eqb_neq _ _) Hp).
  apply (parse_rounds_wp Hfr p i l n Hpar Hp Hok).
  exists i, [], []. rewrite app_nil_r. destruct Hok as (? & ? & ?). unfold sum. cbn. split_and!; try done; lia.
Qed.

(** Bytes that the parser rejects are parsed again for ever: the error is logged and
    the loop has no way out. *)
Theorem parse_error_never_returns {os : OS} fuel p i tr g :
  p ≠ NULL → infos g !! p = Some i →
  (∀ tr, r_ret (os_answer tr
    (Ext "http_parse_request" (drop (Z.to_nat (client_buf_parsed_len i)) (client_data i)))) < 0) →
  parse_request_buffer fuel p (mk_world tr g) = OutOfFuel.
Proof.
  intros Hp Hi Hneg. unfold parse_request_buffer. rewrite (proj2 (Z.eqb_neq _ _) Hp).
  generalize NULL as info. revert tr. induction fuel as [|fuel IH]; intros tr info; [done|].
  assert (Hround : wp (parse_round p info) (λ r w, ∃ tr', r = inl info ∧ w = mk_world tr' g) (mk_world tr g)).
  { unfold parse_round, load_info. wp_run. rewrite Hi. wp_run; [by eexists| |];
      specialize (Hneg tr); rewrite <- Hr in Hneg; lia. }
  apply wp_Ok in Hround as (r & w & Hr & tr' & -> & ->). by rewrite (loop_again _ _ _ _ _ _ Hr).
Qed.

Lemma int_conf_ip {os : OS} fp key d set ip tr g :
  (∀ v c, listen_ip (set v c) = listen_ip c) →
  listen_ip (g_proxy_config g) = ip →
  wp (int_conf fp key d set) (λ _ w, listen_ip (g_proxy_config (w_glob w)) = ip) (mk_world tr g).
Proof. intros Hset Hip. unfold int_conf, set_config. wp_run; cbn; by rewrite Hset. Qed.

(** A configuration without ListenIP copies from a NULL pointer, and one with it has
    its address replaced by the default. *)
Theorem listen_ip_test_inverted {os : OS} fp sec tr g :
  fp ≠ NULL →
  let r := os_answer tr (Ext "ListenIP" [fp]) in
  (r_ret r = NULL → get_proxy_config fp (Some sec) (mk_world tr g) = Undef) ∧
  (r_ret r ≠ NULL → wp (get_proxy_config fp (Some sec))
     (λ ret w, ret = 0 ∧ listen_ip (g_proxy_config (w_glob w)) = strncpy 16 "0.0.0.0") (mk_world tr g)).
Proof.
  intros Hfp r. unfold get_proxy_config. rewrite (proj2 (Z.eqb_neq _ _) Hfp). split; intros Hr.
  - unfold sys. mred. fold r. by rewrite Hr.
  - apply wp_bind, wp_sys. intros r' ->. fold r. rewrite (proj2 (Z.eqb_neq _ _) Hr). unfold set_config. wp_run.
    do 7 (eapply wp_mono; [by eapply int_conf_ip|intros _ [? ?] ?; wp_step]).
    by split.
Qed.

(** C26: freeing a connection ends, and gives back its buffer, the host name, the address
    and the node of every request of its list and the connection itself, each exactly
    once, and hands the parsed request of every one of them back to the HTTP library
    exactly once, whatever the library answers; no descriptor is closed by it, and neither
    the connection nor its requests can be reached afterwards. *)
Theorem connection_released {os : OS} fuel p i l tr g :
  infos g !! p = Some i → req_rep tr (reqs g) i l → (length l < fuel)%nat →
  wp (free_proxy_info fuel p) (λ _ w,
    given_back tr (w_trace w) (client_buf i :: req_blocks (reqs g) l ++ [p]) (req_parsed (reqs g) l) ∧
    infos (w_glob w) = delete p (infos g) ∧
    ∀ a, reqs (w_glob w) !! a = if decide (a ∈ l.*1) then None else reqs g !! a) (mk_world tr g).
Proof.
  intros Hi [Hseg Hnd _ _] Hf. unfold free_proxy_info, load_info, set_infos. wp_run. rewrite Hi. wp_run.
  unfold free_proxy_req_list. eapply wp_mono; [by apply free_list_wp|].
  intros tmp [tr' g'] (Hgb & Hin & Hre). cbn [w_trace w_glob] in *.
  assert (H1 : given_back tr ((Free (client_buf i), r) :: tr) [client_buf i] []) by gb_solve.
  pose proof (given_back_trans _ _ _ _ _ _ _ H1 Hgb) as H2.
  assert (H3 : ∀ tr' r, given_back tr' ((Free p, r) :: tr') [p] []) by (intros; gb_solve).
  wp_run; split_and!; cbn [w_trace w_glob infos reqs]; try done; try congruence;
    rewrite app_comm_cons, <- (app_nil_r (req_parsed _ _)); (eapply given_back_trans; [|apply H3]); [by apply given_back_quiet|done].
Qed.

(** ** Requests of a buffer that has moved *)

Section moved.
Context {os : OS} (fuel : nat) (p : Z) (i : proxy_info) (q : proxy_req_info) (b' : Z) (g : op_glob).
Context (Hp : p ≠ NULL) (Hi : infos g !! p = Some i).
Context (Hc : curr_req i ≠ NULL) (Hq : reqs g !! curr_req i = Some q).
Context (Hbq : (req_buf q).1 = client_buf i) (Hb : client_buf i ≠ NULL).
Context (Huniq : ∀ p' i', infos g !! p' = Some i' → client_buf i' = client_buf i → p' = p).
Context (Hfull : client_buf_size i - client_buf_curr_len i < REALLOC_LIMIT).
Context (Hsize : 0 < client_buf_size i * 2 ≤ INT_MAX).
Context (Hmove : ∀ tr, r_ret (os_answer tr (Realloc (client_buf i) (client_buf_size i * 2))) = b').
Context (Hb' : b' ≠ NULL) (Hne : b' ≠ client_buf i).
Context (Hrecv : ∀ tr s n, r_ret (os_answer tr (Recv s n 0)) < 0 ∧ r_errno (os_answer tr (Recv s n 0)) = EAGAIN).
Context (Hparse : ∀ tr d, 0 < r_ret (os_answer tr (Ext "http_parse_request" d))).

(** The heap after the receive loop. *)
Definition moved_glob (g' : op_glob) : Prop :=
  reqs g' = reqs g ∧ infos g' = <[p := with_buf i b' (client_data i) (client_buf_size i * 2) (client_buf_curr_len i)]> (infos g).

Lemma alloc_moves tr : wp (alloc_client_buf p (client_buf_size i - client_buf_curr_len i))
  (λ r w, r.1 = 0 ∧ moved_glob (w_glob w)) (mk_world tr g).
Proof.
  unfold alloc_client_buf, load_info, store_info, set_infos. rewrite (proj2 (Z.eqb_neq _ _) Hp). wp_run. rewrite Hi.
  apply wp_ret. assert ((client_buf_size i =? 0) = false) as -> by lia.
  rewrite (proj2 (Z.ltb_lt _ _) Hfull), (proj2 (Z.eqb_neq _ _) Hb). cbn [negb andb].
  assert ((INT_MAX <? client_buf_size i * 2) = false) as -> by lia.
  apply wp_bind, wp_ret, wp_bind, wp_upd_glob, wp_bind, wp_sys. intros r Hr.
  assert (r_ret r = b') as -> by (rewrite Hr; apply Hmove). rewrite (proj2 (Z.eqb_neq _ _) Hb').
  wp_run. cbn [infos]. rewrite lookup_insert_eq. wp_run. split; [done|]. split; [done|].
  cbn [w_glob infos]. by rewrite insert_insert_eq.
Qed.

Lemma recv_moves tr : wp (recv_client_data (S fuel) p) (λ ret w, ret = 1 ∧ moved_glob (w_glob w)) (mk_world tr g).
Proof.
  unfold recv_client_data. rewrite (proj2 (Z.eqb_neq _ _) Hp). cbn [loop]. apply wp_bind.
  unfold recv_round, load_info. wp_run. rewrite Hi. wp_run. eapply wp_mono; [apply alloc_moves|].
  intros [a n] [tr' g'] [Ha [Hr Hin]]. cbn [w_glob fst] in *. subst a. wp_run. rewrite Hin, lookup_insert_eq.
  apply wp_ret. cbn [client_sock with_buf]. apply wp_bind, wp_sys. intros r Hr'.
  destruct (Hrecv tr' (client_sock i) n) as [H1 H2]. rewrite <- Hr' in H1, H2.
  rewrite (proj2 (Z.ltb_lt _ _) H1), H2. cbn. wp_run. done.
Qed.

Lemma parse_incomplete g' tr : moved_glob g' →
  wp (parse_request_buffer (S fuel) p) (λ ret w, 0 < ret ∧ w_glob w = g') (mk_world tr g').
Proof.
  intros [_ Hin]. unfold parse_request_buffer, parse_round, load_info. rewrite (proj2 (Z.eqb_neq _ _) Hp).
  cbn [loop]. apply wp_bind. wp_run. rewrite Hin, lookup_insert_eq. apply wp_ret, wp_bind, wp_sys.
  intros r Hr. assert (0 < r_ret r) by (rewrite Hr; apply Hparse). wp_run; [lia|lia|done].
Qed.

Lemma moved_unreadable g' : moved_glob g' → req_readable g' q = false.
Proof.
  intros [_ Hin]. unfold req_readable. apply not_true_iff_false. intros (x & Hx & E)%existsb_exists.
  destruct x as [p' i']. apply list_elem_of_In, elem_of_map_to_list in Hx. cbn in E. rewrite Hin in Hx. 
  apply Z.eqb_eq in E. rewrite Hbq in E. destruct (decide (p' = p)) as [->|Hpp].
  - rewrite lookup_insert_eq in Hx. injection Hx as <-. cbn in E. done.
  - rewrite lookup_insert_ne in Hx by done. apply Hpp. by eapply Huniq.
Qed.

Lemma moved_print_undef tr g' : moved_glob g' →
  proxy_request_list_print (S fuel) (curr_req i) (mk_world tr g') = Undef.
Proof.
  intros Hg. unfold proxy_request_list_print, load_req. apply loop_undef.
  rewrite (proj2 (Z.eqb_neq _ _) Hc). destruct Hg as [Hr Hin].
  unfold get_glob, gets. mred. rewrite Hr, Hq. cbn. by rewrite (moved_unreadable _ (conj Hr Hin)).
Qed.

(** The requests of a list point into the client's buffer, and the buffer may move
    when it grows: if data arrives for a connection with a nearly full buffer whose
    request is still in the list, and [realloc] returns another block, the next listing
    of the requests reads the block that was freed. *)
Theorem stale_request_undefined tr : receive_parse_request (S fuel) p (mk_world tr g) = Undef.
Proof.
  unfold receive_parse_request. rewrite (proj2 (Z.eqb_neq _ _) Hp).
  eapply bind_undef_after; [apply recv_moves|]. intros ret [tr1 g1] [-> Hg]. cbn [w_glob] in Hg. cbn.
  apply (bind_undef_after _ _ (λ _ w, moved_glob (w_glob w))); [apply wp_log; intros; exact Hg|]. intros _ [tr2 g2] Hg2.
  eapply bind_undef_after; [apply parse_incomplete, Hg2|]. intros ret [tr3 g3] [Hret Hg3]. cbn [w_glob] in *.
  subst g3. rewrite (proj2 (Z.ltb_ge ret 0) ltac:(lia)).
  rewrite (bind_ok _ _ _ (with_buf i b' (client_data i) (client_buf_size i * 2) (client_buf_curr_len i)) (mk_world tr3 g2)).
  - by apply bind_undef, moved_print_undef.
  - unfold load_info, get_glob, gets. mred. by rewrite (proj2 Hg2), lookup_insert_eq.
Qed.

End moved.

(** ** The table of children *)

Lemma table_get_ok l i : length l = Z.to_nat MAX_CHILD → 0 ≤ i < MAX_CHILD → ∃ pid, table_get l i = Some pid.
Proof.
  intros Hl Hi. unfold table_get. replace ((0 <=? i) && (i <? MAX_CHILD)) with true by (unfold MAX_CHILD in *; lia).
  apply lookup_lt_is_Some. unfold MAX_CHILD in *. lia.
Qed.

(** Sending a signal to all children is defined exactly when the configured
    ChildCount is at most the 16 entries of the table: the number of children started is
    capped, the bound of this loop is not. *)
Theorem kill_all_children_bounds {os : OS} signum tr g :
  length (g_child_table g) = Z.to_nat MAX_CHILD →
  (child_count (g_proxy_config g) ≤ MAX_CHILD →
     wp (kill_all_children signum) (λ _ w, w_glob w = g) (mk_world tr g)) ∧
  (MAX_CHILD < child_count (g_proxy_config g) → kill_all_children signum (mk_world tr g) = Undef).
Proof.
  intros Hl. set (body := λ (i : Z) (_ : Z), g ← get_glob; pid ← expect (table_get (g_child_table g) i);
    log_msg LOG_EMERG "Sending signal [%d] [%s] to child [%d]";; k ← sys (Kill pid signum);
    if r_ret k <? 0 then log_msg LOG_CRIT "Error [%d] [%s] in kill";; mret (-1) else mret (r_ret k) : M (world op_glob) Z).
  assert (Hstep : ∀ i a (w : world op_glob), 0 ≤ i < MAX_CHILD → w_glob w = g →
    wp (body i a) (λ _ w', w_glob w' = g) w).
  { intros i a [tr' g'] Hi Hg. cbn in Hg. subst g'. destruct (table_get_ok _ i Hl Hi) as [pid Hpid].
    subst body. cbn beta. wp_run. rewrite Hpid. by wp_run. }
  unfold kill_all_children. fold body. split; intros Hc.
  - apply wp_bind, wp_get_glob. apply (wp_for_range (λ _ _ w, w_glob w = g)); [done|]. intros. apply Hstep; [lia|done].
  - rewrite (bind_ok _ _ _ g (mk_world tr g)) by done.
    apply (for_range_undef (λ _ _ w, w_glob w = g) _ _ MAX_CHILD); [unfold MAX_CHILD in *; lia|done|by intros; apply Hstep|].
    intros a [tr' g'] E. cbn in E. subst g'. done.
Qed.

(** ** Concrete environments

    Addresses are handed out above every address of the history; the parser finds
    requests of four bytes; the configuration has ListenIP; the peer is silent. *)

Definition demo_os : OS := λ tr c,
  match c with
  | Malloc _ | Calloc _ _ | Realloc _ _ => mk_reply (brk tr + 1) 0 []
  | Ext "http_parse_request" d => if (4 <=? length d)%nat then mk_reply 0 0 [500; 4] else mk_reply 1 0 []
  | Ext "ListenIP" _ => mk_reply 300 0 [49; 46; 50; 46; 51; 46; 52]
  | _ => mk_reply (-1) EAGAIN []
  end.

Lemma demo_calloc : calloc_sane (os := demo_os).
Proof. intros tr n s. cbn. intros _. apply brk_fresh. pose proof (brk_nonneg tr). lia. Qed.

Lemma demo_parser : parser_ok (os := demo_os).
Proof.
  intros tr d. unfold os_answer, demo_os. destruct (4 <=? length d)%nat eqn:E; cbn; [|done].
  apply Nat.leb_le in E. unfold NULL. intros _. lia.
Qed.

Definition demo_config : proxy_config := mk_config (strncpy 16 "0.0.0.0") 9001 4 20 25 10 0 0.

(** A connection with ten bytes of which one request of four is parsed. *)
Definition demo_info : proxy_info :=
  mk_info 7 (1, 2) 64 [71; 69; 84; 10; 71; 69; 84; 10; 71; 69] 130 10 4 32 32 0.

Definition demo_glob : op_glob :=
  mk_op 3 0 (replicate 16 0) demo_config (mk_poller 0 0 0 0 false) (mk_poller 0 0 0 0 false)
    {[ 16 := demo_info ]} {[ 32 := mk_req (64, 0) 4 NULL NULL 400 NULL ]} ∅ ∅.

Definition demo_trace : list event := [(Calloc 1 48, mk_reply 32 0 [])].

Lemma demo_rep : req_rep demo_trace (reqs demo_glob) demo_info [(32, ((64, 0), 4))].
Proof.
  split.
  - cbn. split_and!; [done|done|]. eexists. split_and!; [by rewrite lookup_singleton_eq|done..].
  - apply NoDup_singleton.
  - right. by exists [], ((64, 0), 4).
  - intros a ->%list_elem_of_singleton. done.
Qed.

(** Six unparsed bytes: one more request, and the parser asks for more. *)
Lemma requests_framed_witness :
  wp (rounds 7 (parse_round (os := demo_os) 16) NULL) (λ r w, framed 16 demo_info [(32, ((64, 0), 4))] w ∧ match r with
    | inl _ => (7 + unparsed 16 w + 0 ≤ 6 + failures (w_trace w))%nat
    | inr ret => 0 < ret ∧ parse_request_buffer (os := demo_os) 7 16 (mk_world demo_trace demo_glob) = Ok ret w end)
    (mk_world demo_trace demo_glob).
Proof.
  apply (requests_framed (os := demo_os) 7 16 demo_info [(32, ((64, 0), 4))] demo_trace demo_glob).
  - apply demo_calloc.
  - apply demo_parser.
  - done.
  - apply lookup_singleton_eq.
  - by repeat split.
  - apply demo_rep.
Defined.

Lemma connection_released_witness :
  wp (free_proxy_info (os := demo_os) 2 16) (λ _ w,
    given_back demo_trace (w_trace w) (64 :: req_blocks (reqs demo_glob) [(32, ((64, 0), 4))] ++ [16])
      (req_parsed (reqs demo_glob) [(32, ((64, 0), 4))]) ∧
    infos (w_glob w) = delete 16 (infos demo_glob) ∧
    ∀ a, reqs (w_glob w) !! a = if decide (a ∈ [32]) then None else reqs demo_glob !! a)
    (mk_world demo_trace demo_glob).
Proof.
  apply (connection_released (os := demo_os) 2 16 demo_info [(32, ((64, 0), 4))] demo_trace demo_glob).
  - apply lookup_singleton_eq.
  - apply demo_rep.
  - cbn. lia.
Defined.

Definition rejecting_os : OS := λ tr c, mk_reply (-1) 0 [].

Lemma parse_error_never_returns_witness :
  parse_request_buffer (os := rejecting_os) 1000 16 (mk_world demo_trace demo_glob) = OutOfFuel.
Proof.
  apply (parse_error_never_returns (os := rejecting_os) 1000 16 demo_info demo_trace demo_glob);
    [done|apply lookup_singleton_eq|done].
Defined.

Lemma listen_ip_test_inverted_witness :
  wp (get_proxy_config (os := demo_os) 5 (Some "PROXY"))
     (λ ret w, ret = 0 ∧ listen_ip (g_proxy_config (w_glob w)) = strncpy 16 "0.0.0.0") (mk_world [] demo_glob).
Proof. apply (listen_ip_test_inverted (os := demo_os) 5 "PROXY" [] demo_glob); done. Defined.

(** [realloc] moves the buffer, the peer is silent, no further request is complete. *)
Definition moving_os : OS := λ tr c,
  match c with
  | Realloc _ _ => mk_reply 9000 0 []
  | Ext "http_parse_request" _ => mk_reply 1 0 []
  | _ => mk_reply (-1) EAGAIN []
  end.

Lemma stale_request_undefined_witness :
  receive_parse_request (os := moving_os) 5 16 (mk_world demo_trace demo_glob) = Undef.
Proof.
  apply (stale_request_undefined (os := moving_os) 4 16 demo_info (mk_req (64, 0) 4 NULL NULL 400 NULL) 9000);
    try done.
  intros p' i' H _. cbn [infos demo_glob] in H. by apply lookup_singleton_Some in H as [<- _].
Defined.

Lemma kill_all_children_bounds_witness :
  kill_all_children (os := demo_os) 15 (mk_world [] demo_glob) = Undef.
Proof. by apply (kill_all_children_bounds (os := demo_os) 15 [] demo_glob). Defined.
