(* ===== verification/Bson.v ===== *)
(** * The BSON serialisation library

    Models src/src/serialization/bson_api/bson_api.c and its headers: building values
    and documents, writing a list of documents to one buffer and reading them back.
    The functions of libbson are the parameters of the class [LIBBSON]; what the code
    relies on of them is the class [LIBBSON_OK], stated on a view of the documents,
    writers and readers the library holds.  The library's own allocator aborts the
    process when it fails, so a copied document is never NULL. *)

From Stdlib Require Import ZArith Lia ZifyBool.
From stdpp Require Import base gmap list strings numbers countable.
From S2P Require Import Prelude Posix ConnMgr.

(** ** bson_errors.h *)

Definition MIN_ERR_CODE : Z := -2100.

Inductive bson_api_err :=
| BSON_SUCCESS | BSON_ERR_NULL_PARAMS | BSON_ERR_CONTEXT_NEW | BSON_ERR_MEM_ALLOC
| BSON_ERR_CREAT_NEW | BSON_ERR_CONVERT_JSON | BSON_ERR_APPEND_VAL | BSON_ERR_WRITER_NEW
| BSON_ERR_WRITER_BEGIN | BSON_ERR_INVALID_BUFLEN | BSON_ERR_READER_NEW | BSON_ERR_READER_TELL
| BSON_ERR_READER_READ | BSON_ERR_ITER_INIT.

#[global] Instance bson_api_err_eq_dec : EqDecision bson_api_err.
Proof. solve_decision. Defined.

Definition bson_code (e : bson_api_err) : Z :=
  match e with
  | BSON_SUCCESS => 0
  | BSON_ERR_NULL_PARAMS => MIN_ERR_CODE
  | BSON_ERR_CONTEXT_NEW => MIN_ERR_CODE + 1
  | BSON_ERR_MEM_ALLOC => MIN_ERR_CODE + 2
  | BSON_ERR_CREAT_NEW => MIN_ERR_CODE + 3
  | BSON_ERR_CONVERT_JSON => MIN_ERR_CODE + 4
  | BSON_ERR_APPEND_VAL => MIN_ERR_CODE + 5
  | BSON_ERR_WRITER_NEW => MIN_ERR_CODE + 6
  | BSON_ERR_WRITER_BEGIN => MIN_ERR_CODE + 7
  | BSON_ERR_INVALID_BUFLEN => MIN_ERR_CODE + 8
  | BSON_ERR_READER_NEW => MIN_ERR_CODE + 9
  | BSON_ERR_READER_TELL => MIN_ERR_CODE + 10
  | BSON_ERR_READER_READ => MIN_ERR_CODE + 11
  | BSON_ERR_ITER_INIT => MIN_ERR_CODE + 12
  end.

(** The result of a function: an error code, or 0. *)
Abbreviation ok := BSON_SUCCESS.

Definition bson_err_msg (code : Z) : option string :=
  switch_name bson_code
    [ (BSON_ERR_NULL_PARAMS, "BSON_ERR_NULL_PARAMS"); (BSON_ERR_MEM_ALLOC, "BSON_ERR_MEM_ALLOC");
      (BSON_ERR_CONTEXT_NEW, "BSON_ERR_CONTEXT_NEW"); (BSON_ERR_CREAT_NEW, "BSON_ERR_CREAT_NEW");
      (BSON_ERR_CONVERT_JSON, "BSON_ERR_CONVERT_JSON"); (BSON_ERR_APPEND_VAL, "BSON_ERR_APPEND_VAL");
      (BSON_ERR_WRITER_NEW, "BSON_ERR_WRITER_NEW"); (BSON_ERR_WRITER_BEGIN, "BSON_ERR_WRITER_BEGIN");
      (BSON_ERR_INVALID_BUFLEN, "BSON_ERR_INVALID_BUFLEN"); (BSON_ERR_READER_NEW, "BSON_ERR_READER_NEW");
      (BSON_ERR_READER_TELL, "BSON_ERR_READER_TELL"); (BSON_ERR_READER_READ, "BSON_ERR_READER_READ");
      (BSON_ERR_ITER_INIT, "BSON_ERR_ITER_INIT") ] code.

(** ** Values and documents *)

(** A [bson_value_t] with what its pointers designate: the tag and the member of the
    union in use.  A failed [strdup] leaves a NULL string; a document or array value is
    a buffer with the length recorded for it. *)
Inductive bson_value :=
| V_int32 (v : Z)
| V_int64 (v : Z)
| V_double (bits : Z)
| V_utf8 (len : Z) (str : option string)
| V_document (data : list Z) (data_len : Z)
| V_array (data : list Z) (data_len : Z)
| V_other (tag : Z) (payload : list Z).

(** [v_doc] read from a value: the first [data_len] bytes of the buffer. *)
Definition v_doc (v : bson_value) : option (list Z) :=
  match v with
  | V_document d n | V_array d n => Some (take (Z.to_nat n) d)
  | _ => None
  end.

(** The elements of a document, in order. *)
Abbreviation content := (list (string * bson_value)).

(** ** libbson *)

(** Documents, writers and readers are pointers into the library's state [bson]. *)
Class LIBBSON := {
  bson : Type;
  bson_iter : Type;
  sizeof_value : Z;
  bson_uint32_to_string : Z → string;
  bson_value_copy : bson_value → bson_value;
  bson_value_destroy : bson_value → bson → bson;
  bson_new : bson → Z * bson;
  bson_new_from_data : list Z → bson → Z * bson;
  bson_copy : Z → bson → Z * bson;
  bson_destroy : Z → bson → bson;
  bson_append_value : Z → string → bson_value → bson → bool * bson;
  bson_count_keys : Z → bson → Z;
  bson_as_json : Z → bson → option string;
  bson_iter_init : Z → bson → option bson_iter;
  bson_iter_next : bson_iter → bson → option bson_iter;
  bson_iter_key : bson_iter → string;
  bson_iter_value : bson_iter → bson_value;
  bson_writer_new : Z → Z → bson → Z * bson;
  (** what the writer has stored through [buf] and [buf_len], and the bytes written there *)
  bson_writer_buf : Z → bson → Z * Z * list Z;
  bson_writer_begin : Z → bson → option Z * bson;
  bson_writer_end : Z → bson → bson;
  bson_writer_get_length : Z → bson → Z;
  bson_writer_destroy : Z → bson → bson;
  bson_reader_new_from_data : list Z → bson → Z * bson;
  (** the document read, and what is stored through [reached_eof] *)
  bson_reader_read : Z → bson → (Z * bool) * bson;
  bson_reader_tell : Z → bson → Z;
  bson_reader_destroy : Z → bson → bson }.

(** ** bson_api.c *)

Definition BSON_ARRAY_SIZE : Z := 4.

(** The program's memory: the library's state, arrays of document pointers (an
    uninitialised slot is [None]) and byte buffers. *)
Record bs_mem `{LIBBSON} := mk_bs {
  bl : bson;
  arrays : gmap Z (list (option Z));
  bufs : gmap Z (list Z) }.

(** [for (i = lo; i < lo + n; i++)] left early with a result. *)
Fixpoint for_break {S B} (n : nat) (i : Z) (body : Z → M S (option B)) : M S (option B) :=
  match n with
  | O => mret None
  | Datatypes.S k =>
      r ← body i;
      match r with Some b => mret (Some b) | None => for_break k (i + 1) body end
  end.

(** [a[i]] and [a[i] = x] in an array of the program. *)
Definition slot_get {A} (l : list A) (i : Z) : option A :=
  if 0 <=? i then l !! Z.to_nat i else None.
Definition slot_set {A} (l : list (option A)) (i : Z) (x : A) : option (list (option A)) :=
  if (0 <=? i) && (i <? Z.of_nat (length l)) then Some (<[Z.to_nat i := Some x]> l) else None.

Section code.
Context {os : OS} `{LIBBSON} (fuel : nat).
Abbreviation BM := (M (world bs_mem)).

Definition set_bl (l : bson) : BM unit :=
  upd_glob (λ g, mk_bs _ l (arrays g) (bufs g)).
Definition set_arrays (f : gmap Z (list (option Z)) → gmap Z (list (option Z))) : BM unit :=
  upd_glob (λ g, mk_bs _ (bl g) (f (arrays g)) (bufs g)).
Definition set_bufs (f : gmap Z (list Z) → gmap Z (list Z)) : BM unit :=
  upd_glob (λ g, mk_bs _ (bl g) (arrays g) (f (bufs g))).

(** A call into the library. *)
Definition lib {A} (f : bson → A * bson) : BM A :=
  g ← get_glob; let '(a, l) := f (bl g) in set_bl l;; mret a.
Definition lib_ (f : bson → bson) : BM unit := g ← get_glob; set_bl (f (bl g)).
Definition lib_read {A} (f : bson → A) : BM A := g ← get_glob; mret (f (bl g)).

(** Appending to a NULL document is outside the library's contract. *)
Definition append (doc : Z) (key : string) (v : bson_value) : BM bool :=
  if doc =? NULL then undef else lib (bson_append_value doc key v).

(** [strdup] allocates; NULL when it cannot. *)
Definition strdup (s : string) : BM (option string) :=
  m ← sys (Malloc (Z.of_nat (String.length s) + 1));
  mret (if r_ret m =? NULL then None else Some s).

(** The setters return the code and what [*val] holds afterwards. *)
Definition bson_value_set_int32 (val : option bson_value) (x : Z) : bson_api_err * option bson_value :=
  match val with None => (BSON_ERR_NULL_PARAMS, None) | Some _ => (ok, Some (V_int32 (i32 x))) end.

Definition bson_value_set_int64 (val : option bson_value) (x : Z) : bson_api_err * option bson_value :=
  match val with None => (BSON_ERR_NULL_PARAMS, None) | Some _ => (ok, Some (V_int64 (i64 x))) end.

Definition bson_value_set_double (val : option bson_value) (d : Z) : bson_api_err * option bson_value :=
  match val with None => (BSON_ERR_NULL_PARAMS, None) | Some _ => (ok, Some (V_double d)) end.

Definition bson_value_set_str (val : option bson_value) (str : option string) :
    BM (bson_api_err * option bson_value) :=
  match val, str with
  | Some _, Some s => d ← strdup s; mret (ok, Some (V_utf8 (u32 (Z.of_nat (String.length s))) d))
  | _, _ => mret (BSON_ERR_NULL_PARAMS, val)
  end.

Definition bson_doc_copy_by_iter (dst src : Z) : BM bson_api_err :=
  it ← lib_read (bson_iter_init src);
  match it with
  | None => mret BSON_ERR_ITER_INIT
  | Some it =>
      loop fuel (λ it,
        n ← lib_read (bson_iter_next it);
        match n with
        | None => mret (inr ok)
        | Some it =>
            b ← append dst (bson_iter_key it) (bson_iter_value it);
            if negb b then mret (inr BSON_ERR_APPEND_VAL) else mret (inl it)
        end) it
  end.

Definition bson_buffer_write (writer : Z) (doc_arr : list Z) (arr_size : Z) : BM bson_api_err :=
  r ← for_break (Z.to_nat arr_size) 0 (λ i,
    d ← lib (bson_writer_begin writer);
    match d with
    | None => mret (Some BSON_ERR_WRITER_BEGIN)
    | Some doc =>
        src ← expect (slot_get doc_arr i);
        ret ← bson_doc_copy_by_iter doc src;
        lib_ (bson_writer_end writer);;
        if bson_code ret <? 0 then mret (Some ret) else mret None
    end);
  mret (default ok r).

(** [buf] is [*buf] and [*buf_len] at the call; the result is the code and [*buf] and
    [*buf_len] at the return.  [realloc(p, 0)] frees a block [p] when it returns NULL,
    so that the second [free] of it is undefined. *)
Definition bson_write_to_buffer (buf : option (Z * Z)) (doc_arr : option (list Z)) (arr_size : Z) :
    BM (bson_api_err * (Z * Z)) :=
  match buf, doc_arr with
  | Some (b0, n0), Some docs =>
      w ← lib (bson_writer_new b0 n0);
      if w =? NULL then mret (BSON_ERR_WRITER_NEW, (b0, n0))
      else
        ret ← bson_buffer_write w docs arr_size;
        '(p, size, bytes) ← lib_read (bson_writer_buf w);
        if bson_code ret <? 0 then
          sys_ (Free p);; lib_ (bson_writer_destroy w);; mret (ret, (NULL, size))
        else
          len ← lib_read (bson_writer_get_length w);
          t ← sys (Realloc p len);
          if r_ret t =? NULL then
            (if (len =? 0) && negb (p =? NULL) then undef else sys_ (Free p));;
            lib_ (bson_writer_destroy w);;
            mret (BSON_ERR_MEM_ALLOC, (NULL, len))
          else
            set_bufs (<[r_ret t := take (Z.to_nat len) bytes]>);;
            lib_ (bson_writer_destroy w);;
            mret (ok, (r_ret t, len))
  | Some b, None => mret (BSON_ERR_NULL_PARAMS, b)
  | None, _ => mret (BSON_ERR_NULL_PARAMS, (NULL, 0))
  end.

Definition load_array (a : Z) : BM (list (option Z)) := g ← get_glob; expect (arrays g !! a).

(** Free and clear the first [arr_len] documents of the array, then free the array. *)
Definition free_docs (doc_arr arr_len : Z) : BM unit :=
  for_range (Z.to_nat arr_len) 0 (λ i _,
    a ← load_array doc_arr;
    d ← expect (mjoin (slot_get a i));
    sys_ (Free d);;
    a' ← expect (slot_set a i NULL);
    set_arrays (<[doc_arr := a']>)) tt;;
  sys_ (Free doc_arr);;
  set_arrays (delete doc_arr).

(** A round of the reading loop with [*doc_arr], [*arr_len] and [arr_size]; it leaves
    with the code, [eof], [*doc_arr] and [*arr_len].  [arr_size] is an [int]. *)
Definition read_round (reader : Z) (st : Z * Z * Z) : BM (Z * Z * Z + bson_api_err * bool * Z * Z) :=
  let '(doc_arr, arr_len, arr_size) := st in
  '(doc, eof) ← lib (bson_reader_read reader);
  if doc =? NULL then mret (inr (ok, eof, doc_arr, arr_len))
  else
    c ← lib (bson_copy doc);
    a ← load_array doc_arr;
    a' ← expect (slot_set a arr_len c);
    set_arrays (<[doc_arr := a']>);;
    let arr_len := arr_len + 1 in
    if arr_size <=? arr_len then
      let arr_size := arr_size * 2 in
      if 2147483647 <? arr_size then undef
      else
        t ← sys (Realloc doc_arr (arr_size * 8));
        let tmp := r_ret t in
        if tmp =? NULL then
          free_docs tmp arr_len;;
          mret (inr (BSON_ERR_MEM_ALLOC, eof, NULL, arr_len))
        else
          set_arrays (λ m, <[tmp := a' ++ replicate (Z.to_nat arr_size - length a') None]> (delete doc_arr m));;
          mret (inl (tmp, arr_len, arr_size))
    else mret (inl (doc_arr, arr_len, arr_size)).

Definition read_and_alloc_bson_array (reader : Z) : BM (bson_api_err * bool * Z * Z) :=
  let arr_size := BSON_ARRAY_SIZE in
  m ← sys (Malloc (arr_size * 8));
  if r_ret m =? NULL then mret (BSON_ERR_MEM_ALLOC, false, NULL, 0)
  else
    set_arrays (<[r_ret m := replicate (Z.to_nat arr_size) None]>);;
    loop fuel (read_round reader) (r_ret m, 0, arr_size).

(** The code and [*parsed_len]. *)
Definition get_parsed_len (reader : Z) (eof : bool) (parsed_len : Z) : BM (bson_api_err * Z) :=
  if eof then
    n ← lib_read (bson_reader_tell reader);
    if n <? 0 then mret (BSON_ERR_READER_TELL, n) else mret (ok, n)
  else mret (BSON_ERR_READER_READ, parsed_len).

(** [buf] is the buffer's bytes and [outs] says that no pointer to a result is NULL,
    here and below; the result is the code, [*parsed_len], [*doc_arr] and
    [*arr_len].  [buf_len < 0] is never true of a [size_t]. *)
Definition bson_read_from_buffer (outs : bool) (buf : option (list Z)) (buf_len parsed_len : Z) :
    BM (bson_api_err * Z * Z * Z) :=
  match guard (outs = true);; buf with
  | None => mret (BSON_ERR_NULL_PARAMS, parsed_len, NULL, 0)
  | Some data =>
      reader ← lib (bson_reader_new_from_data (take (Z.to_nat buf_len) data));
      if reader =? NULL then mret (BSON_ERR_READER_NEW, parsed_len, NULL, 0)
      else
        '(ret, eof, doc_arr, arr_len) ← read_and_alloc_bson_array reader;
        if bson_code ret <? 0 then
          lib_ (bson_reader_destroy reader);; mret (ret, parsed_len, doc_arr, arr_len)
        else
          '(ret, parsed_len) ← get_parsed_len reader eof parsed_len;
          if bson_code ret <? 0 then
            free_docs doc_arr arr_len;; lib_ (bson_reader_destroy reader);;
            mret (ret, parsed_len, NULL, arr_len)
          else
            t ← sys (Realloc doc_arr (arr_len * 8));
            let tmp := r_ret t in
            if (tmp =? NULL) && negb (arr_len =? 0) then
              free_docs doc_arr arr_len;; lib_ (bson_reader_destroy reader);;
              mret (BSON_ERR_MEM_ALLOC, parsed_len, NULL, arr_len)
            else
              set_arrays (λ m, let a := default [] (m !! doc_arr) in
                let m := delete doc_arr m in
                if tmp =? NULL then m else <[tmp := take (Z.to_nat arr_len) a]> m);;
              lib_ (bson_reader_destroy reader);;
              mret (ok, parsed_len, tmp, arr_len)
  end.

(** *** Arrays and documents as values *)

Definition bson_value_set_array (val : option bson_value) (arr_vals : option (list bson_value)) (arr_len : Z) :
    BM (bson_api_err * option bson_value) :=
  match val, arr_vals with
  | Some _, Some vals =>
      doc ← lib bson_new;
      if doc =? NULL then mret (BSON_ERR_CREAT_NEW, val)
      else
        r ← for_break (Z.to_nat arr_len) 0 (λ i,
          v ← expect (slot_get vals i);
          b ← append doc (bson_uint32_to_string i) v;
          if negb b then lib_ (bson_destroy doc);; mret (Some BSON_ERR_APPEND_VAL) else mret None);
        match r with
        | Some e => mret (e, val)
        | None =>
            '(ret, (buf, len)) ← bson_write_to_buffer (Some (NULL, 0)) (Some [doc]) 1;
            if bson_code ret <? 0 then lib_ (bson_destroy doc);; mret (ret, val)
            else
              g ← get_glob;
              data ← expect (bufs g !! buf);
              lib_ (bson_destroy doc);;
              mret (ret, Some (V_array data (u32 len)))
        end
  | _, _ => mret (BSON_ERR_NULL_PARAMS, val)
  end.

Definition bson_value_set_doc (val : option bson_value) (doc : Z) : BM (bson_api_err * option bson_value) :=
  match val with
  | Some _ =>
      if doc =? NULL then mret (BSON_ERR_NULL_PARAMS, val)
      else
        '(ret, (buf, len)) ← bson_write_to_buffer (Some (NULL, 0)) (Some [doc]) 1;
        if bson_code ret <? 0 then mret (ret, val)
        else
          g ← get_glob;
          data ← expect (bufs g !! buf);
          mret (ret, Some (V_document data (u32 len)))
  | None => mret (BSON_ERR_NULL_PARAMS, val)
  end.

(** [while (bson_iter_next(&iter))]: fill the slots of a new array, in order. *)
Definition fill {A} (take_elem : bson_iter → BM A) (it : bson_iter) (slots : list (option A)) :
    BM (list (option A)) :=
  loop fuel (λ '(it, count, slots),
    n ← lib_read (bson_iter_next it);
    match n with
    | None => mret (inr slots)
    | Some it =>
        x ← take_elem it;
        slots' ← expect (slot_set slots count x);
        mret (inl (it, count + 1, slots'))
    end) (it, 0, slots).

(** The code, [*arr_len], and the array [*arr_vals] points to (its address and slots). *)
Definition bson_value_get_array (outs : bool) (val : option bson_value) :
    BM (bson_api_err * Z * option (Z * list (option bson_value))) :=
  match guard (outs = true);; val with
  | None => mret (BSON_ERR_NULL_PARAMS, 0, None)
  | Some v =>
      data ← expect (v_doc v);
      doc ← lib (bson_new_from_data data);
      if doc =? NULL then mret (BSON_ERR_CREAT_NEW, 0, None)
      else
        n ← lib_read (bson_count_keys doc);
        let arr_len := i32 n in
        if arr_len =? 0 then lib_ (bson_destroy doc);; mret (ok, 0, None)
        else
          m ← sys (Malloc (u64 (arr_len * sizeof_value)));
          if r_ret m =? NULL then lib_ (bson_destroy doc);; mret (BSON_ERR_MEM_ALLOC, arr_len, None)
          else
            it ← lib_read (bson_iter_init doc);
            match it with
            | None => lib_ (bson_destroy doc);; sys_ (Free (r_ret m));; mret (BSON_ERR_ITER_INIT, arr_len, None)
            | Some it =>
                slots ← fill (λ it, mret (bson_value_copy (bson_iter_value it))) it
                          (replicate (Z.to_nat arr_len) None);
                lib_ (bson_destroy doc);;
                mret (ok, arr_len, Some (r_ret m, slots))
            end
  end.

Definition bson_value_get_doc (outs : bool) (val : option bson_value) : BM (bson_api_err * Z) :=
  match guard (outs = true);; val with
  | None => mret (BSON_ERR_NULL_PARAMS, NULL)
  | Some v =>
      data ← expect (v_doc v);
      doc ← lib (bson_new_from_data data);
      if doc =? NULL then mret (BSON_ERR_CREAT_NEW, doc) else mret (ok, doc)
  end.

Definition bson_value_free (val : bson_value) : BM unit := lib_ (bson_value_destroy val).

(** *** Documents from elements and back *)

Record bson_element := mk_element { key : option string; val : bson_value }.

(** The code and [*bdoc].  The guard after [bson_new] tests [bdoc], which is not NULL,
    instead of [*bdoc]; a document whose append failed is left dangling in [*bdoc]. *)
Definition bson_doc_create (outs : bool) (earr : option (list bson_element)) (ecount : Z) :
    BM (bson_api_err * Z) :=
  match guard (outs = true);; earr with
  | None => mret (BSON_ERR_NULL_PARAMS, NULL)
  | Some elems =>
      bdoc ← lib bson_new;
      r ← for_break (Z.to_nat ecount) 0 (λ i,
        e ← expect (slot_get elems i);
        k ← expect (key e);
        b ← append bdoc k (val e);
        if negb b then lib_ (bson_destroy bdoc);; mret (Some BSON_ERR_APPEND_VAL) else mret None);
      mret (default ok r, bdoc)
  end.

Definition bson_fill_element_array (slots : list (option bson_element)) (bdoc : Z) :
    BM (bson_api_err * list (option bson_element)) :=
  it ← lib_read (bson_iter_init bdoc);
  match it with
  | None => mret (BSON_ERR_ITER_INIT, slots)
  | Some it =>
      slots ← fill (λ it, k ← strdup (bson_iter_key it);
                          mret (mk_element k (bson_value_copy (bson_iter_value it)))) it slots;
      mret (ok, slots)
  end.

(** The code, [*ecount], and the array [*earr] points to; [calloc] fills the slots with
    elements that have no key, written [None] here. *)
Definition bson_doc_get_elements (outs : bool) (bdoc : Z) :
    BM (bson_api_err * Z * option (Z * list (option bson_element))) :=
  if (bdoc =? NULL) || negb outs then mret (BSON_ERR_NULL_PARAMS, 0, None)
  else
    n ← lib_read (bson_count_keys bdoc);
    let ecount := i32 n in
    if ecount =? 0 then mret (ok, 0, None)
    else
      m ← sys (Calloc ecount (sizeof_value + 8));
      if r_ret m =? NULL then mret (BSON_ERR_MEM_ALLOC, ecount, None)
      else
        '(ret, slots) ← bson_fill_element_array (replicate (Z.to_nat ecount) None) bdoc;
        mret (ret, ecount, Some (r_ret m, slots)).

Definition bson_doc_destroy (bdoc : Z) : BM unit :=
  if bdoc =? NULL then mret tt else lib_ (bson_destroy bdoc).

Definition bson_to_json (doc : Z) (json : bool) : BM (bson_api_err * option string) :=
  if (doc =? NULL) || negb json then mret (BSON_ERR_NULL_PARAMS, None)
  else
    s ← lib_read (bson_as_json doc);
    match s with None => mret (BSON_ERR_CONVERT_JSON, None) | Some s => mret (ok, Some s) end.

End code.

(** ** What the code relies on of libbson *)

(** A writer: the bytes of the finished documents and the document it has open.  A
    reader: the bytes read and to be read, and the document it last handed out. *)
Record bview := mk_view {
  docs : gmap Z content;
  writers : gmap Z (list Z * option Z);
  readers : gmap Z (list Z * list Z * option Z) }.

(** The documents without the one a reader has lent. *)
Definition unlent (cur : option Z) (m : gmap Z content) : gmap Z content :=
  match cur with Some p => delete p m | None => m end.

(** The documented behaviour of the library: [enc] is the encoding of a document. *)
Class LIBBSON_OK (LB : LIBBSON) := {
  view : bson → bview;
  enc : content → list Z;
  enc_nonempty c : enc c ≠ [];
  iter_rest : bson_iter → content;
  copy_ok v : bson_value_copy v = v;
  new_ok l p l' : bson_new l = (p, l') →
    p = NULL ∧ view l' = view l ∨
    p ≠ NULL ∧ docs (view l) !! p = None ∧
    view l' = mk_view (<[p := []]> (docs (view l))) (writers (view l)) (readers (view l));
  new_from_data_ok l c p l' : bson_new_from_data (enc c) l = (p, l') →
    p = NULL ∧ view l' = view l ∨
    p ≠ NULL ∧ docs (view l) !! p = None ∧
    view l' = mk_view (<[p := c]> (docs (view l))) (writers (view l)) (readers (view l));
  doc_copy_ok l d c p l' : docs (view l) !! d = Some c → bson_copy d l = (p, l') →
    p ≠ NULL ∧ docs (view l) !! p = None ∧
    view l' = mk_view (<[p := c]> (docs (view l))) (writers (view l)) (readers (view l));
  destroy_ok l d : is_Some (docs (view l) !! d) →
    view (bson_destroy d l) = mk_view (delete d (docs (view l))) (writers (view l)) (readers (view l));
  append_ok l d c k v b l' : docs (view l) !! d = Some c → bson_append_value d k v l = (b, l') →
    view l' = if b then mk_view (<[d := c ++ [(k, v)]]> (docs (view l))) (writers (view l)) (readers (view l))
              else view l;
  count_ok l d c : docs (view l) !! d = Some c → bson_count_keys d l = Z.of_nat (length c);
  iter_init_ok l d c : docs (view l) !! d = Some c →
    match bson_iter_init d l with Some it => iter_rest it = c | None => True end;
  iter_next_ok l it : match bson_iter_next it l with
    | Some it' => iter_rest it = (bson_iter_key it', bson_iter_value it') :: iter_rest it'
    | None => iter_rest it = [] end;
  writer_new_ok l b n w l' : bson_writer_new b n l = (w, l') →
    w = NULL ∧ view l' = view l ∨
    w ≠ NULL ∧ writers (view l) !! w = None ∧
    view l' = mk_view (docs (view l)) (<[w := ([], None)]> (writers (view l))) (readers (view l));
  writer_begin_ok l w bytes r l' : writers (view l) !! w = Some (bytes, None) → bson_writer_begin w l = (r, l') →
    match r with
    | None => view l' = view l
    | Some d => d ≠ NULL ∧ docs (view l) !! d = None ∧
        view l' = mk_view (<[d := []]> (docs (view l))) (<[w := (bytes, Some d)]> (writers (view l)))
                    (readers (view l))
    end;
  writer_end_ok l w bytes d c : writers (view l) !! w = Some (bytes, Some d) → docs (view l) !! d = Some c →
    view (bson_writer_end w l) = mk_view (delete d (docs (view l)))
      (<[w := (bytes ++ enc c, None)]> (writers (view l))) (readers (view l));
  writer_length_ok l w bytes cur : writers (view l) !! w = Some (bytes, cur) →
    bson_writer_get_length w l = Z.of_nat (length bytes) ∧ (bson_writer_buf w l).2 = bytes;
  writer_destroy_ok l w bytes : writers (view l) !! w = Some (bytes, None) →
    view (bson_writer_destroy w l) = mk_view (docs (view l)) (delete w (writers (view l))) (readers (view l));
  reader_new_ok l data r l' : bson_reader_new_from_data data l = (r, l') →
    r = NULL ∧ view l' = view l ∨
    r ≠ NULL ∧ readers (view l) !! r = None ∧
    view l' = mk_view (docs (view l)) (writers (view l)) (<[r := ([], data, None)]> (readers (view l)));
  reader_end_ok l r past cur : readers (view l) !! r = Some (past, [], cur) →
    ∃ l', bson_reader_read r l = ((NULL, true), l') ∧ view l' = view l;
  reader_read_ok l r past c rest cur : readers (view l) !! r = Some (past, enc c ++ rest, cur) →
    ∃ p l', bson_reader_read r l = ((p, false), l') ∧ p ≠ NULL ∧ unlent cur (docs (view l)) !! p = None ∧
      view l' = mk_view (<[p := c]> (unlent cur (docs (view l)))) (writers (view l))
                  (<[r := (past ++ enc c, rest, Some p)]> (readers (view l)));
  reader_tell_ok l r past rest cur : readers (view l) !! r = Some (past, rest, cur) →
    bson_reader_tell r l = Z.of_nat (length past);
  reader_destroy_ok l r past rest cur : readers (view l) !! r = Some (past, rest, cur) →
    view (bson_reader_destroy r l) = mk_view (unlent cur (docs (view l))) (writers (view l))
                                       (delete r (readers (view l))) }.

(** ** Specifications *)

Section rules.
Context {os : OS} {LB : LIBBSON}.

Lemma wp_lib {A} (f : bson → A * bson) tr g (Q : A → world bs_mem → Prop) :
  (∀ a l, f (bl g) = (a, l) → Q a (mk_world tr (mk_bs _ l (arrays g) (bufs g)))) →
  wp (lib f) Q (mk_world tr g).
Proof. unfold lib, set_bl. intros HQ. wp_run. by apply HQ. Qed.

Lemma wp_for_break {S B} (Inv : Z → S → Prop) (Q : option B → S → Prop) n lo body s :
  Inv lo s →
  (∀ i s, lo ≤ i < lo + Z.of_nat n → Inv i s → wp (body i) (λ r s', match r with
     | None => Inv (i + 1) s' | Some b => Q (Some b) s' end) s) →
  (∀ s, Inv (lo + Z.of_nat n) s → Q None s) →
  wp (for_break n lo body) Q s.
Proof.
  revert lo s. induction n as [|n IH]; intros lo s H0 Hb HQ.
  - apply wp_ret, HQ. by rewrite Z.add_0_r.
  - cbn [for_break]. apply wp_bind. eapply wp_mono; [by apply Hb; [lia|]|]. intros [b|] s' Hs; [done|].
    apply IH; [done| |].
    + intros i s1 Hi. apply Hb. lia.
    + intros s1. replace (lo + 1 + Z.of_nat n) with (lo + Z.of_nat (Datatypes.S n)) by lia. apply HQ.
Qed.

End rules.

(** The documents and the buffers that a refusal is about. *)
Record limits := mk_limits { small_doc : content → Prop; small_buf : list Z → Prop }.

Definition no_limits : limits := mk_limits (λ _, True) (λ _, True).

(** A document all of whose beginnings are small. *)
Definition buildable (L : limits) (c : content) : Prop := ∀ k, k `prefix_of` c → small_doc L k.

Section specs.
Context {os : OS} {LB : LIBBSON} {OK : LIBBSON_OK LB} (fuel : nat) (L : limits).
Implicit Types (g : bs_mem) (tr : list event).

(** Only the library's state changed, to one with the view [V]. *)
Definition lib_to g (V : bview) (w : world bs_mem) : Prop :=
  arrays (w_glob w) = arrays g ∧ bufs (w_glob w) = bufs g ∧ view (bl (w_glob w)) = V.

Definition with_docs (V : bview) (m : gmap Z content) : bview := mk_view m (writers V) (readers V).

(** The documents [ps] hold [cs]. *)
Definition holding (m : gmap Z content) (ps : list Z) (cs : list content) : Prop :=
  Forall2 (λ p c, m !! p = Some c) ps cs.

(** A reason for a function to fail: the library or the allocator refused a call.  The
    refusals of the library that its documentation allows are about a document or a
    buffer, which is small. *)
Definition allocates (c : call) : Prop :=
  match c with Malloc _ | Calloc _ _ => True | Realloc _ n => 0 < n | _ => False end.

Inductive trouble : Prop :=
| no_document l : (bson_new l).1 = NULL → trouble
| no_document_from c l : small_doc L c → (bson_new_from_data (enc c) l).1 = NULL → trouble
| no_append d c k v l : docs (view l) !! d = Some c → small_doc L (c ++ [(k, v)]) →
    (bson_append_value d k v l).1 = false → trouble
| no_iterator d c l : docs (view l) !! d = Some c → small_doc L c → bson_iter_init d l = None → trouble
| no_writer b n l : (bson_writer_new b n l).1 = NULL → trouble
| no_begin w bytes l : writers (view l) !! w = Some (bytes, None) → small_buf L bytes →
    (bson_writer_begin w l).1 = None → trouble
| no_reader data l : small_buf L data → (bson_reader_new_from_data data l).1 = NULL → trouble
| no_memory tr c : allocates c → r_ret (os_answer tr c) = NULL → trouble.

Lemma append_wp d c k v tr g : docs (view (bl g)) !! d = Some c → d ≠ NULL → small_doc L (c ++ [(k, v)]) →
  wp (append d k v) (λ b w, w_trace w = tr ∧ (b = false → trouble) ∧ lib_to g (if b then
    with_docs (view (bl g)) (<[d := c ++ [(k, v)]]> (docs (view (bl g)))) else view (bl g)) w) (mk_world tr g).
Proof.
  intros Hd Hn Hs. unfold append. rewrite (proj2 (Z.eqb_neq _ _) Hn). apply wp_lib. intros b l E.
  split; [done|]. split; [intros ->; eapply (no_append d c k v (bl g)); [done|done|by rewrite E]|].
  split; [done|]. split; [done|]. cbn. rewrite (append_ok _ _ _ _ _ _ _ Hd E). by destruct b.
Qed.

Lemma copy_by_iter_wp dst src c0 c tr g :
  docs (view (bl g)) !! src = Some c → docs (view (bl g)) !! dst = Some c0 → src ≠ dst → dst ≠ NULL →
  (length c < fuel)%nat → (∀ k, k `prefix_of` c → small_doc L (c0 ++ k)) → small_doc L c →
  wp (bson_doc_copy_by_iter fuel dst src) (λ ret w, ∃ k,
    lib_to g (with_docs (view (bl g)) (<[dst := c0 ++ k]> (docs (view (bl g))))) w ∧
    (ret = ok ∧ k = c ∨ bson_code ret < 0 ∧ trouble)) (mk_world tr g).
Proof.
  intros Hs Hd Hne Hn Hf Hsm Hsc. unfold bson_doc_copy_by_iter, lib_read. wp_run; cbn beta.
  2: { exists []. rewrite app_nil_r, insert_id by done. unfold with_docs, lib_to. cbn.
       split; [split_and!; [done|done|by destruct (view (bl g))]|right].
       split; [done|]. by eapply (no_iterator src c (bl g)). }
  pose proof (iter_init_ok _ _ _ Hs) as Hi. rewrite E in Hi.
  apply (wp_loop (λ it w, ∃ k, c = k ++ iter_rest it ∧
    lib_to g (with_docs (view (bl g)) (<[dst := c0 ++ k]> (docs (view (bl g))))) w) (λ it _, length (iter_rest it))).
  - intros it [tr1 g1] (k & Hk & Ha & Hb & Hv). wp_run. cbn [w_glob] in *.
    + pose proof (iter_next_ok (bl g1) it) as Hnx. rewrite E0 in Hnx. eapply wp_mono.
      { apply (append_wp _ (c0 ++ k)); [rewrite Hv; cbn; by rewrite lookup_insert_eq|done|].
        rewrite <- app_assoc. apply Hsm. rewrite Hk, Hnx. apply prefix_app, prefix_cons, prefix_nil. }
      intros [] w (_ & Ht1 & Ha1 & Hb1 & Hv1); wp_run; cbn.
      * split; [|rewrite Hnx; cbn; lia]. exists (k ++ [(bson_iter_key b0, bson_iter_value b0)]).
        split; [by rewrite Hk, Hnx, <- app_assoc|].
        split_and!; [congruence|congruence|]. rewrite Hv1, Hv. unfold with_docs. cbn.
        by rewrite insert_insert_eq, app_assoc.
      * exists k. split; [|right; split; [done|by apply Ht1]]. split_and!; [congruence|congruence|congruence].
    + pose proof (iter_next_ok (bl g1) it) as Hnx. rewrite E0 in Hnx. exists k. split; [done|]. left.
      split; [done|]. by rewrite Hk, Hnx, app_nil_r.
  - exists []. rewrite Hi, app_nil_r, insert_id by done. split; [done|]. split_and!; [done|done|].
    cbn. by destruct (view (bl g)).
  - by rewrite Hi.
Qed.

Definition encoded (cs : list content) : list Z := concat (enc <$> cs).

Lemma encoded_app cs cs' : encoded (cs ++ cs') = encoded cs ++ encoded cs'.
Proof. unfold encoded. by rewrite fmap_app, concat_app. Qed.

(** With a writer's document [d] open beside them, other documents keep their contents. *)
Lemma holding_insert m ps cs d c : holding m ps cs → m !! d = None → holding (<[d := c]> m) ps cs.
Proof.
  intros Hh Hd. eapply list.Forall2_impl; [exact Hh|]. intros p x Hp. rewrite lookup_insert_ne; [done|]. congruence.
Qed.

Lemma buffer_write_wp w ps cs tr g :
  writers (view (bl g)) !! w = Some ([], None) → holding (docs (view (bl g))) ps cs →
  Forall (λ c, length c < fuel)%nat cs → Forall (buildable L) cs → (∀ i, small_buf L (encoded (take i cs))) →
  wp (bson_buffer_write fuel w ps (Z.of_nat (length ps))) (λ ret w', ∃ bytes,
    lib_to g (mk_view (docs (view (bl g))) (<[w := (bytes, None)]> (writers (view (bl g)))) (readers (view (bl g)))) w' ∧
    (ret = ok ∧ bytes = encoded cs ∨ bson_code ret < 0 ∧ trouble)) (mk_world tr g).
Proof.
  intros Hw Hh Hfuel Hsm Hsb. unfold bson_buffer_write. apply wp_bind. rewrite Nat2Z.id.
  set (V bytes := mk_view (docs (view (bl g))) (<[w := (bytes, None)]> (writers (view (bl g)))) (readers (view (bl g)))).
  apply (wp_for_break (λ i w', lib_to g (V (encoded (take (Z.to_nat i) cs))) w')
    (λ r w', wp (mret (default ok r)) (λ ret w', ∃ bytes, lib_to g (V bytes) w' ∧
       (ret = ok ∧ bytes = encoded cs ∨ bson_code ret < 0 ∧ trouble)) w')).
  - split_and!; [done|done|]. cbn. unfold V. rewrite take_0, insert_id by done. by destruct (view (bl g)).
  - intros i [tr1 g1] Hi (Ha & Hb & Hv). cbn [w_glob] in *. apply wp_bind, wp_lib. intros d l Hbeg.
    assert (Hw1 : writers (view (bl g1)) !! w = Some (encoded (take (Z.to_nat i) cs), None))
      by (rewrite Hv; cbn; by rewrite lookup_insert_eq).
    pose proof (writer_begin_ok _ _ _ _ _ Hw1 Hbeg) as Hd. destruct d as [d|]; wp_run.
    2: { exists (encoded (take (Z.to_nat i) cs)). split; [split_and!; [done|done|cbn; congruence]|right].
         split; [done|]. eapply (no_begin w _ (bl g1)); [exact Hw1|apply Hsb|by rewrite Hbeg]. }
    destruct Hd as (Hdn & Hdf & Hdv). rewrite Hv in Hdf, Hdv. cbn in Hdf, Hdv.
    destruct (lookup_lt_is_Some_2 ps (Z.to_nat i)) as [src Hsrc]; [lia|].
    destruct (Forall2_lookup_l _ _ _ _ _ Hh Hsrc) as (c & Hc & Hm).
    unfold slot_get. replace (0 <=? i) with true by lia. rewrite Hsrc. wp_run.
    eapply wp_mono. { apply (copy_by_iter_wp d src [] c); cbn; rewrite ?Hdv; cbn.
      - rewrite lookup_insert_ne by congruence. done.
      - by rewrite lookup_insert_eq.
      - congruence.
      - done.
      - by eapply (Forall_lookup_1 _ _ _ _ Hfuel).
      - exact (Forall_lookup_1 _ _ _ _ Hsm Hc).
      - by apply (Forall_lookup_1 _ _ _ _ Hsm Hc). }
    intros ret [tr2 g2] (k & (Ha2 & Hb2 & Hv2) & Hret). cbn [w_glob app bl arrays bufs] in *.
    rewrite Hdv in Hv2. unfold with_docs in Hv2. cbn in Hv2. rewrite insert_insert_eq in Hv2.
    assert (Hend : view (bson_writer_end w (bl g2)) = V (encoded (take (Z.to_nat i) cs) ++ enc k)).
    { rewrite (writer_end_ok _ w (encoded (take (Z.to_nat i) cs)) d k) by (rewrite Hv2; cbn; by rewrite lookup_insert_eq).
      rewrite Hv2. unfold V. cbn. by rewrite delete_insert_id, !insert_insert_eq by done. }
    unfold lib_, set_bl. wp_run.
    + exists (encoded (take (Z.to_nat i) cs) ++ enc k). split; [|right; cbn; destruct Hret as [[-> _]|[_ ?]]; [cbn in *; lia|split; [lia|done]]]. split_and!; cbn; congruence.
    + split_and!; cbn; [congruence|congruence|]. destruct Hret as [[-> ->]|[? _]]; [|lia].
      rewrite Hend. f_equal. replace (Z.to_nat (i + 1)) with (S (Z.to_nat i)) by lia.
      rewrite (take_S_r _ _ _ Hc), encoded_app. f_equal. unfold encoded. cbn. by rewrite app_nil_r.
  - intros w' Hl. wp_run. exists (encoded cs). split; [|by left]. rewrite Z.add_0_l, Nat2Z.id in Hl.
    by rewrite (Forall2_length Hh), firstn_all in Hl.
Qed.

(** What [bson_write_to_buffer] leaves: the library as it was, and the encoded documents
    in a new buffer, or an error and no buffer. *)
Definition write_post g (cs : list content) (r : bson_api_err * (Z * Z)) (w : world bs_mem) : Prop :=
  let '(ret, (buf, len)) := r in
  arrays (w_glob w) = arrays g ∧ view (bl (w_glob w)) = view (bl g) ∧
  (ret = ok ∧ buf ≠ NULL ∧ len = Z.of_nat (length (encoded cs)) ∧ bufs (w_glob w) = <[buf := encoded cs]> (bufs g) ∨
   bson_code ret < 0 ∧ (buf = NULL ∨ ret = BSON_ERR_WRITER_NEW) ∧ bufs (w_glob w) = bufs g ∧ trouble).

Lemma encoded_nonempty cs : cs ≠ [] → (0 < length (encoded cs))%nat.
Proof.
  destruct cs as [|c cs]; [done|]. intros _. unfold encoded. cbn. rewrite length_app.
  pose proof (enc_nonempty c). destruct (enc c); [done|cbn; lia].
Qed.

Lemma write_to_buffer_wp b n ps cs tr g :
  holding (docs (view (bl g))) ps cs → Forall (λ c, length c < fuel)%nat cs → Forall (buildable L) cs →
  (∀ i, small_buf L (encoded (take i cs))) → cs ≠ [] →
  wp (bson_write_to_buffer fuel (Some (b, n)) (Some ps) (Z.of_nat (length ps))) (write_post g cs) (mk_world tr g).
Proof.
  intros Hh Hf Hsm Hsb Hne. unfold bson_write_to_buffer. apply wp_bind, wp_lib. intros w l Hnew.
  destruct (writer_new_ok _ _ _ _ _ Hnew) as [[-> Hv]|(Hw & Hfr & Hv)].
  { cbn. apply wp_ret. split_and!; [done|done|]. right.
    split_and!; [done|by right|done|]. eapply (no_writer b n (bl g)). by rewrite Hnew. }
  rewrite (proj2 (Z.eqb_neq _ _) Hw). apply wp_bind. eapply wp_mono.
  { apply (buffer_write_wp _ _ cs); cbn; rewrite ?Hv; cbn; [by rewrite lookup_insert_eq|done..]. }
  intros ret [tr1 g1] (bytes & (Ha & Hb & Hv1) & Hret). cbn [w_glob bl arrays bufs] in *.
  rewrite Hv in Hv1. cbn in Hv1. rewrite insert_insert_eq in Hv1.
  destruct (writer_length_ok (bl g1) w bytes None) as [Hlen Hbytes].
  { rewrite Hv1. cbn. by rewrite lookup_insert_eq. }
  assert (Hdes : view (bson_writer_destroy w (bl g1)) = view (bl g)).
  { rewrite (writer_destroy_ok _ w bytes) by (rewrite Hv1; cbn; by rewrite lookup_insert_eq).
    rewrite Hv1. cbn. rewrite delete_insert_id by done. by destruct (view (bl g)). }
  unfold lib_read, lib_, set_bl, set_bufs. wp_run; cbn [w_glob bl arrays bufs] in *.
  - split_and!; cbn; [done|done|]. right. split_and!; [lia|by left|done|].
    destruct Hret as [[-> _]|[_ ?]]; [cbn in *; lia|done].
  - exfalso. destruct Hret as [[-> ->]|[? _]]; [|lia]. pose proof (encoded_nonempty cs Hne). lia.
  - split_and!; cbn; [done|done|]. right. split_and!; [done|by left|done|].
    destruct Hret as [[-> ->]|[_ ?]]; [|done]. eapply (no_memory _ (Realloc _ _)); [|by subst; apply Z.eqb_eq].
    cbn. rewrite Hlen. pose proof (encoded_nonempty cs Hne). lia.
  - destruct Hret as [[-> ->]|[? _]]; [|lia]. split_and!; cbn; [done|done|]. left.
    rewrite Hlen, Nat2Z.id. cbn in Hbytes. subst.
    split_and!; [done|by apply Z.eqb_neq|done|]. by rewrite Hb, firstn_all.
Qed.

(** *** Reading *)

(** [m'] is [m] with the new documents [ps], which hold [cs]. *)
Inductive added (m : gmap Z content) : list Z → list content → gmap Z content → Prop :=
| added_nil : added m [] [] m
| added_snoc ps cs m' p c : added m ps cs m' → p ≠ NULL → m' !! p = None → added m (ps ++ [p]) (cs ++ [c]) (<[p := c]> m').

Lemma added_subseteq m ps cs m' : added m ps cs m' → m ⊆ m'.
Proof. induction 1; [done|]. etrans; [eassumption|]. by apply insert_subseteq. Qed.

(** The reading loop: [ps] are the copies of the documents read so far. *)
Record reading (r : Z) g (cs : list content) (st : Z * Z * Z) (ps : list Z) (w : world bs_mem) : Prop := {
  rd_cur : ∃ past rest cur, cs = past ++ rest ∧ length past = length ps ∧
    readers (view (bl (w_glob w))) = <[r := (encoded past, encoded rest, cur)]> (readers (view (bl g))) ∧
    holding (unlent cur (docs (view (bl (w_glob w))))) ps past ∧
    added (docs (view (bl g))) ps past (unlent cur (docs (view (bl (w_glob w)))));
  rd_writers : writers (view (bl (w_glob w))) = writers (view (bl g));
  rd_array : arrays (w_glob w) !! st.1.1 =
    Some ((Some <$> ps) ++ replicate (Z.to_nat st.2 - length ps) None);
  rd_ptr : st.1.1 ≠ NULL;
  rd_len : st.1.2 = Z.of_nat (length ps) ∧ Z.of_nat (length ps) < st.2;
  rd_bufs : bufs (w_glob w) = bufs g }.

(** Storing into the first free slot. *)
Lemma slot_set_next (ps : list Z) n p : (length ps < n)%nat →
  slot_set ((Some <$> ps) ++ replicate (n - length ps) None) (Z.of_nat (length ps)) p =
  Some ((Some <$> (ps ++ [p])) ++ replicate (n - length (ps ++ [p])) None).
Proof.
  intros Hn. unfold slot_set. rewrite length_app, length_fmap, length_replicate.
  replace ((0 <=? Z.of_nat (length ps)) && _) with true by lia. f_equal. rewrite Nat2Z.id.
  rewrite insert_app_r_alt by (rewrite length_fmap; lia). rewrite length_fmap, Nat.sub_diag.
  rewrite fmap_app, length_app, <- app_assoc. f_equal. cbn.
  replace (n - length ps)%nat with (S (n - (length ps + 1)))%nat by lia. done.
Qed.

(** Copying a lent document leaves the copy after the loan ends. *)
Lemma unlent_copy m p q (c : content) : m !! p = None → <[p := c]> m !! q = None →
  unlent (Some p) (<[q := c]> (<[p := c]> m)) = <[q := c]> m.
Proof.
  intros Hp Hq. cbn. assert (p ≠ q) by (intros ->; by rewrite lookup_insert_eq in Hq).
  rewrite delete_insert_ne by done. by rewrite delete_insert_id.
Qed.

Lemma read_round_wp r g cs st ps w :
  (st.2 ≤ st.1.2 + 1 → ∀ tr p n, 0 < n → r_ret (os_answer tr (Realloc p n)) ≠ NULL) → Z.of_nat (length cs) < 2 ^ 30 →
  reading r g cs st ps w →
  wp (read_round r st) (λ x w', match x with
    | inl st' => (∃ p, reading r g cs st' (ps ++ [p]) w') ∧
        (st.1.2 + 1 < st.2 → st' = (st.1.1, st.1.2 + 1, st.2) ∧
           arrays (w_glob w') !! NULL = arrays (w_glob w) !! NULL)
    | inr res => res = (ok, true, st.1.1, st.1.2) ∧ length ps = length cs ∧ reading r g cs st ps w' end) w.
Proof.
  intros Hgrow Hcs Hrd. destruct st as [[arr len] size], w as [tr1 g1].
  destruct Hrd as [(past & rest & cur & Hsplit & Hl & Hrs & Hh & Hsub) Hws Harr Hptr [Hlen Hsz] Hbufs].
  cbn in *. unfold read_round. apply wp_bind, wp_lib. intros [doc eof] l Hread.
  assert (Hr : readers (view (bl g1)) !! r = Some (encoded past, encoded rest, cur))
    by (rewrite Hrs; by rewrite lookup_insert_eq).
  destruct rest as [|c rest].
  { destruct (reader_end_ok _ _ _ _ Hr) as (l' & Hend & Hv). rewrite Hend in Hread. injection Hread as <- <- <-.
    cbn. apply wp_ret. rewrite app_nil_r in Hsplit. subst past. split_and!; [done|lia|].
    split; cbn; rewrite ?Hv; try done. exists cs, [], cur. by rewrite app_nil_r. }
  destruct (reader_read_ok (bl g1) r (encoded past) c (encoded rest) cur) as (p & l' & Hrd & Hpn & Hfr & Hv).
  { rewrite Hr. done. }
  rewrite Hrd in Hread. injection Hread as <- <- <-. rewrite (proj2 (Z.eqb_neq _ _) Hpn).
  apply wp_bind, wp_lib. intros q l2 Hcopy. cbn [bl arrays bufs] in *.
  destruct (doc_copy_ok l' p c q l2) as (Hqn & Hqf & Hv2); [rewrite Hv; by apply lookup_insert_eq|done|].
  rewrite Hv in Hqf, Hv2. cbn in Hqf, Hv2. set (base := unlent cur (docs (view (bl g1)))) in *.
  assert (Hbase : unlent (Some p) (docs (view l2)) = <[q := c]> base) by (rewrite Hv2; by apply unlent_copy).
  assert (Hq : base !! q = None) by (destruct (decide (p = q)) as [->|]; [done|by rewrite lookup_insert_ne in Hqf]).
  assert (Hnew : ∃ past' rest' cur', cs = past' ++ rest' ∧ length past' = length (ps ++ [q]) ∧
    readers (view l2) = <[r := (encoded past', encoded rest', cur')]> (readers (view (bl g))) ∧
    holding (unlent cur' (docs (view l2))) (ps ++ [q]) past' ∧ added (docs (view (bl g))) (ps ++ [q]) past' (unlent cur' (docs (view l2)))).
  { exists (past ++ [c]), rest, (Some p). rewrite Hbase, Hv2. split_and!.
    - by rewrite <- app_assoc.
    - rewrite !length_app. cbn. lia.
    - cbn. rewrite Hrs, insert_insert_eq, encoded_app. unfold encoded at 3. cbn. by rewrite app_nil_r.
    - apply Forall2_app; [by apply holding_insert|]. constructor; [apply lookup_insert_eq|constructor].
    - by constructor. }
  assert (Hwr : writers (view l2) = writers (view (bl g))) by (rewrite Hv2; done).
  unfold load_array, set_arrays. wp_run; cbn [w_glob bl arrays bufs]. rewrite Harr. wp_run.
  rewrite Hlen, slot_set_next by lia. wp_run; cbn [w_glob bl arrays bufs].
  - exfalso. assert (Z.of_nat (length ps) < Z.of_nat (length cs)) by (rewrite Hsplit, length_app; cbn; lia). lia.
  - exfalso. eapply (Hgrow ltac:(lia) _ arr (size * 2 * 8)); [lia|]. match goal with H : ?t = os_answer _ (Realloc _ _) |- _ => rewrite <- H end.
    by apply Z.eqb_eq.
  - split; [|lia]. exists q. split; cbn; [done|done| | |rewrite length_app; cbn; lia|done].
    + rewrite lookup_insert_eq. f_equal. rewrite <- app_assoc. f_equal. rewrite !length_app, length_fmap, length_app, length_replicate.
      cbn. rewrite <- replicate_add. f_equal. lia.
    + by apply Z.eqb_neq.
  - split; [|cbn; by rewrite lookup_insert_ne]. exists q.
    split; cbn; [done|done| |done|rewrite length_app; cbn; lia|done]. by rewrite lookup_insert_eq.
Qed.

(** What [bson_read_from_buffer] leaves: new documents with the contents [cs] in an array
    of that length, beside those there were; or an error and the library as it was. *)
Definition read_post g (cs : list content) (r : bson_api_err * Z * Z * Z) (w : world bs_mem) : Prop :=
  let '(ret, parsed_len, doc_arr, arr_len) := r in
  bufs (w_glob w) = bufs g ∧
  (ret = ok ∧ parsed_len = Z.of_nat (length (encoded cs)) ∧ arr_len = Z.of_nat (length cs) ∧
     (∃ ps, (cs ≠ [] → arrays (w_glob w) !! doc_arr = Some (Some <$> ps)) ∧
       holding (docs (view (bl (w_glob w)))) ps cs ∧
       added (docs (view (bl g))) ps cs (docs (view (bl (w_glob w))))) ∧
     writers (view (bl (w_glob w))) = writers (view (bl g)) ∧
     readers (view (bl (w_glob w))) = readers (view (bl g)) ∨
   (ret = BSON_ERR_READER_NEW ∨ ret = BSON_ERR_MEM_ALLOC) ∧ view (bl (w_glob w)) = view (bl g) ∧ trouble).

Lemma reading_loop_wp r g cs st w :
  (∀ tr p n, 0 < n → r_ret (os_answer tr (Realloc p n)) ≠ NULL) → Z.of_nat (length cs) < 2 ^ 30 →
  (length cs < fuel)%nat → reading r g cs st [] w →
  wp (loop fuel (read_round r) st) (λ res w', ∃ arr size ps,
    res = (ok, true, arr, Z.of_nat (length cs)) ∧ length ps = length cs ∧
    reading r g cs (arr, Z.of_nat (length cs), size) ps w') w.
Proof.
  intros Hgrow Hcs Hf Hrd.
  apply (wp_loop (λ st w, ∃ ps, reading r g cs st ps w) (λ st _, length cs - Z.to_nat st.1.2)%nat).
  - intros st1 w1 [ps Hps]. eapply wp_mono; [by apply (read_round_wp r g cs _ ps)|]. intros [st2|res] w2.
    + intros [[p Hp] _]. split; [by exists (ps ++ [p])|].
      destruct Hp as [(past & rest & _ & -> & Hl & _) _ _ _ [Hl2 _] _], Hps as [_ _ _ _ [Hl1 _] _].
      rewrite Hl1, Hl2, !Nat2Z.id. rewrite !length_app in *. cbn in *. lia.
    + destruct st1 as [[arr len] size]. cbn. intros (-> & Hl & Hr). pose proof (rd_len _ _ _ _ _ _ Hr) as [El _].
      cbn in El. subst len. rewrite Hl in *. exists arr, size, ps. done.
  - by exists [].
  - lia.
Qed.

Lemma read_from_buffer_wp cs rest n0 tr g :
  (∀ tr p n, 0 < n → r_ret (os_answer tr (Realloc p n)) ≠ NULL) → Z.of_nat (length cs) < 2 ^ 30 →
  (length cs < fuel)%nat → small_buf L (encoded cs) →
  wp (bson_read_from_buffer fuel true (Some (encoded cs ++ rest)) (Z.of_nat (length (encoded cs))) n0)
     (read_post g cs) (mk_world tr g).
Proof.
  intros Hgrow Hcs Hf Hsb. unfold bson_read_from_buffer. cbn [guard]. change (guard (true = true);; ?x) with x.
  rewrite Nat2Z.id, take_app_length. apply wp_bind, wp_lib. intros r l Hnew.
  destruct (reader_new_ok _ _ _ _ Hnew) as [[-> Hv]|(Hr & Hfr & Hv)].
  { cbn. apply wp_ret. split; [done|]. right. split; [by left|]. split; [done|].
    eapply (no_reader (encoded cs) (bl g)); [done|by rewrite Hnew]. }
  rewrite (proj2 (Z.eqb_neq _ _) Hr). apply wp_bind. unfold read_and_alloc_bson_array, set_arrays. wp_run.
  { unfold lib_, set_bl. wp_run. split; [done|]. right. split; [by right|].
    split; [|eapply (no_memory _ (Malloc _)); [done|by subst; apply Z.eqb_eq]]. cbn.
    rewrite (reader_destroy_ok _ r [] (encoded cs) None) by (rewrite Hv; apply lookup_insert_eq). rewrite Hv. cbn.
    rewrite delete_insert_id by done. by destruct (view (bl g)). }
  eapply wp_mono. { apply (reading_loop_wp r g cs); [done|done|done|]. split; cbn; rewrite ?Hv; cbn.
    - exists [], cs, None. split_and!; [done|done|done|constructor|constructor].
    - done.
    - by rewrite lookup_insert_eq.
    - by apply Z.eqb_neq.
    - done.
    - done. }
  intros res [tr1 g1] (arr & size & ps & -> & Hlen & [(past & rst & cur & Hsplit & Hl & Hrs & Hh & Hsub) Hws Harr Hptr _ Hbufs]).
  cbn [w_glob fst snd] in *. assert (rst = []) as -> by (destruct rst; [done|]; rewrite Hsplit, length_app in Hlen; cbn in Hlen; lia).
  rewrite app_nil_r in Hsplit. subst past.
  assert (Hl' : readers (view (bl g1)) !! r = Some (encoded cs, encoded [], cur)) by (rewrite Hrs; apply lookup_insert_eq).
  assert (Hdes : view (bson_reader_destroy r (bl g1)) =
    mk_view (unlent cur (docs (view (bl g1)))) (writers (view (bl g))) (readers (view (bl g)))).
  { rewrite (reader_destroy_ok _ _ _ _ _ Hl'), Hrs, Hws. f_equal. by rewrite delete_insert_id. }
  unfold get_parsed_len, lib_read, lib_, set_bl. cbn. wp_run; cbn [w_glob bl arrays bufs] in *.
  all: rewrite (reader_tell_ok _ _ _ _ _ Hl') in *.
  all: try lia.
  - exfalso. eapply (Hgrow tr1 arr (Z.of_nat (length cs) * 8)); [unfold NULL in *; lia|]. subst. unfold NULL in *. lia.
  - split; [done|]. left. split_and!; [done|done|done| |cbn; by rewrite Hdes|cbn; by rewrite Hdes].
    exists ps. cbn. rewrite Hdes. split; [|by split]. intros Hne.
    assert (Hnn : r_ret r1 ≠ NULL) by (subst; apply Hgrow; destruct cs; [done|cbn; lia]).
    rewrite (proj2 (Z.eqb_neq _ _) Hnn), lookup_insert_eq, Harr. cbn. f_equal.
    by rewrite Nat2Z.id, <- Hlen, take_app_length' by (by rewrite length_fmap).
Qed.

(** Appending a list of elements one by one. *)
Lemma append_loop_wp {B} (body : Z → M (world bs_mem) (option B)) (err : B → Prop) doc (es : content) n tr g :
  docs (view (bl g)) !! doc = Some [] → n = length es →
  (∀ i k v tr1 g1 c, es !! Z.to_nat i = Some (k, v) → 0 ≤ i → docs (view (bl g1)) !! doc = Some c →
     c ++ [(k, v)] `prefix_of` es →
     wp (body i) (λ r w, match r with
       | None => lib_to g1 (with_docs (view (bl g1)) (<[doc := c ++ [(k, v)]]> (docs (view (bl g1))))) w
       | Some e => err e ∧ lib_to g1 (with_docs (view (bl g1)) (delete doc (docs (view (bl g1))))) w end)
       (mk_world tr1 g1)) →
  wp (for_break n 0 body) (λ r w, match r with
    | None => lib_to g (with_docs (view (bl g)) (<[doc := es]> (docs (view (bl g))))) w
    | Some e => err e ∧ lib_to g (with_docs (view (bl g)) (delete doc (docs (view (bl g))))) w end) (mk_world tr g).
Proof.
  intros Hd -> Hbody.
  apply (wp_for_break (λ i w, lib_to g (with_docs (view (bl g)) (<[doc := take (Z.to_nat i) es]> (docs (view (bl g))))) w)).
  - split_and!; [done|done|]. cbn. rewrite take_0, insert_id by done. by destruct (view (bl g)).
  - intros i [tr1 g1] Hi (Ha & Hb & Hv). cbn [w_glob] in *.
    destruct (lookup_lt_is_Some_2 es (Z.to_nat i)) as [[k v] Hkv]; [lia|].
    eapply wp_mono; [apply (Hbody i k v _ _ (take (Z.to_nat i) es)); [done|lia|rewrite Hv; apply lookup_insert_eq|]|].
    { rewrite <- (take_S_r _ _ _ Hkv). apply prefix_take. }
    intros [e|] w; rewrite Hv; unfold with_docs; cbn.
    + intros [He (Ha1 & Hb1 & Hv1)]. split; [done|]. split_and!; [congruence|congruence|].
      rewrite Hv1. f_equal. by rewrite delete_insert_eq.
    + intros (Ha1 & Hb1 & Hv1). split_and!; [congruence|congruence|]. rewrite Hv1, insert_insert_eq.
      replace (Z.to_nat (i + 1)) with (S (Z.to_nat i)) by lia. by rewrite (take_S_r _ _ _ Hkv).
  - intros w. by rewrite Z.add_0_l, Nat2Z.id, firstn_all.
Qed.

Lemma slot_set_some {A} (xs : list A) k x :
  slot_set ((Some <$> xs) ++ None :: replicate k None) (Z.of_nat (length xs)) x =
  Some ((Some <$> (xs ++ [x])) ++ replicate k None).
Proof.
  unfold slot_set. rewrite length_app, length_fmap. cbn [length].
  replace ((0 <=? Z.of_nat (length xs)) && _) with true by lia. f_equal. rewrite Nat2Z.id.
  rewrite insert_app_r_alt by (rewrite length_fmap; lia). rewrite length_fmap, Nat.sub_diag.
  by rewrite fmap_app, <- app_assoc.
Qed.

(** Filling an array as long as the document stores every element, in order. *)
Lemma fill_wp {A} (tk : bson_iter → M (world bs_mem) A) (R : string * bson_value → A → Prop) it tr g :
  (length (iter_rest it) < fuel)%nat →
  (∀ it tr1, wp (tk it) (λ x w, R (bson_iter_key it, bson_iter_value it) x ∧ w_glob w = g) (mk_world tr1 g)) →
  wp (fill fuel tk it (replicate (length (iter_rest it)) None)) (λ slots w,
    w_glob w = g ∧ ∃ xs, slots = Some <$> xs ∧ Forall2 R (iter_rest it) xs) (mk_world tr g).
Proof.
  intros Hf Htk. unfold fill.
  apply (wp_loop (λ '(it1, n, slots) w, w_glob w = g ∧ ∃ past xs, iter_rest it = past ++ iter_rest it1 ∧
    Forall2 R past xs ∧ n = Z.of_nat (length xs) ∧
    slots = (Some <$> xs) ++ replicate (length (iter_rest it1)) None) (λ st _, length (iter_rest st.1.1))).
  - intros [[it1 n] slots] [tr1 g1] (Eg & past & xs & Hp & HR & -> & ->). cbn in Eg. subst g1. cbn [fst].
    unfold lib_read. wp_run; pose proof (iter_next_ok (bl g) it1) as Hn; cbn [w_glob] in E; rewrite E in Hn.
    + eapply wp_mono; [apply Htk|]. intros x [tr2 g2] [Hx Eg]. cbn in Eg. subst g2.
      rewrite Hn. cbn [length replicate]. rewrite slot_set_some. wp_run. split; [|cbn; lia]. split; [done|].
      eexists (past ++ [(bson_iter_key b, bson_iter_value b)]), (xs ++ [x]). split_and!.
      * by rewrite Hp, Hn, <- app_assoc.
      * apply Forall2_app; [done|by constructor].
      * rewrite length_app. cbn. lia.
      * done.
    + split; [done|]. rewrite Hn, app_nil_r in *. subst past. by exists xs.
  - split; [done|]. by exists [], [].
  - done.
Qed.

(** The keys of an array: the decimal strings of the indices. *)
Definition keyed (vals : list bson_value) : content :=
  imap (λ i v, (bson_uint32_to_string (Z.of_nat i), v)) vals.

Lemma set_array_wp v0 vals tr g :
  (length vals < fuel)%nat → Z.of_nat (length (enc (keyed vals))) < 2 ^ 32 →
  buildable L (keyed vals) → (∀ i, small_buf L (encoded (take i [keyed vals]))) →
  wp (bson_value_set_array fuel (Some v0) (Some vals) (Z.of_nat (length vals))) (λ r w,
    arrays (w_glob w) = arrays g ∧ view (bl (w_glob w)) = view (bl g) ∧
    (r = (ok, Some (V_array (enc (keyed vals)) (Z.of_nat (length (enc (keyed vals)))))) ∨
     bson_code r.1 < 0 ∧ r.2 = Some v0 ∧ trouble)) (mk_world tr g).
Proof.
  intros Hf Hlen Hsm Hsb. unfold bson_value_set_array. apply wp_bind, wp_lib. intros doc l Hnew.
  destruct (new_ok _ _ _ Hnew) as [[-> Hv]|(Hd & Hfr & Hv)].
  { cbn. apply wp_ret. split_and!; [done|done|]. right. split; [done|]. split; [done|]. eapply (no_document (bl g)). by rewrite Hnew. }
  rewrite (proj2 (Z.eqb_neq _ _) Hd). apply wp_bind. rewrite Nat2Z.id.
  assert (Hlk : length (keyed vals) = length vals) by (unfold keyed; by rewrite length_imap).
  eapply wp_mono. { apply (append_loop_wp _ (λ e, bson_code e < 0 ∧ trouble) doc (keyed vals)); [cbn; rewrite Hv; apply lookup_insert_eq|done|].
    intros i k v tr1 g1 c Hi Hpos Hc Hpre. apply list_lookup_imap_Some in Hi as (v' & Hi & [= -> ->]).
    unfold slot_get. replace (0 <=? i) with true by lia. rewrite Hi. wp_run. rewrite Z2Nat.id in * by lia.
    eapply wp_mono; [apply append_wp; [done|done|by apply Hsm]|]. intros b [tr2 g2] (_ & Ht2 & Ha2 & Hb2 & Hv2). cbn [w_glob] in *.
    unfold lib_, set_bl. destruct b; wp_run; cbn.
    - done.
    - split; [split; [done|by apply Ht2]|]. split_and!; [done|done|]. cbn. rewrite destroy_ok by (rewrite Hv2, Hc; done). by rewrite Hv2. }
  cbn [bl arrays bufs]. rewrite Hv. cbn. unfold with_docs. cbn. rewrite insert_insert_eq, delete_insert_id by done.
  intros [e|] [tr1 g1]; cbn [w_glob].
  { intros [[He Ht] (Ha & Hb & Hv1)]. wp_run. cbn in *. split_and!; [done|rewrite Hv1; by destruct (view (bl g))|by right]. }
  intros (Ha & Hb & Hv1). cbn [w_glob arrays bufs] in *. apply wp_bind. eapply wp_mono.
  { apply (write_to_buffer_wp _ _ [doc] [keyed vals]); [|by repeat constructor; lia|by repeat constructor|done|done].
    rewrite Hv1. constructor; [apply lookup_insert_eq|constructor]. }
  intros [ret [buf len]] [tr2 g2] (Ha2 & Hv2 & Hret). cbn [w_glob] in *.
  assert (Hdes : view (bson_destroy doc (bl g2)) = view (bl g)).
  { rewrite destroy_ok by (rewrite Hv2, Hv1; cbn; rewrite lookup_insert_eq; done). rewrite Hv2, Hv1. cbn.
    rewrite delete_insert_id by done. by destruct (view (bl g)). }
  unfold lib_, set_bl. wp_run; cbn [w_glob bl arrays bufs] in *.
  - cbn. split_and!; [congruence|done|]. right.
    destruct Hret as [(-> & _)|(_ & _ & _ & ?)]; [cbn in *; lia|]. split; [lia|done].
  - destruct Hret as [(-> & _ & -> & Hbufs)|[? _]]; [|lia]. rewrite Hbufs, lookup_insert_eq. wp_run. cbn.
    split_and!; [congruence|done|]. left. unfold encoded in *. cbn in *. rewrite app_nil_r in *.
    by rewrite u32_small by lia.
Qed.

Lemma get_array_wp vals data tr g :
  (length vals < fuel)%nat → Z.of_nat (length vals) < 2 ^ 31 →
  take (Z.to_nat (Z.of_nat (length (enc (keyed vals))))) data = enc (keyed vals) → small_doc L (keyed vals) →
  wp (bson_value_get_array fuel true (Some (V_array data (Z.of_nat (length (enc (keyed vals)))))))
     (λ '(ret, n, arr) w, view (bl (w_glob w)) = view (bl g) ∧
        (ret = ok ∧ n = Z.of_nat (length vals) ∧ (vals = [] ∧ arr = None ∨ ∃ p, arr = Some (p, Some <$> vals)) ∨
         (ret = BSON_ERR_CREAT_NEW ∨ ret = BSON_ERR_MEM_ALLOC ∨ ret = BSON_ERR_ITER_INIT) ∧ trouble)) (mk_world tr g).
Proof.
  intros Hf Hsz Hdata Hsm. unfold bson_value_get_array. change (guard (true = true);; ?x) with x. cbn [v_doc].
  rewrite Hdata. wp_run. apply wp_lib. intros doc l Hnew.
  destruct (new_from_data_ok _ _ _ _ Hnew) as [[-> Hv]|(Hd & Hfr & Hv)].
  { cbn. apply wp_ret. split; [done|]. right. split; [auto|]. eapply (no_document_from (keyed vals) (bl g)); [done|by rewrite Hnew]. }
  assert (Hdoc : docs (view l) !! doc = Some (keyed vals)) by (rewrite Hv; apply lookup_insert_eq).
  assert (Hdes : view (bson_destroy doc l) = view (bl g)).
  { rewrite destroy_ok by (by eexists). rewrite Hv. cbn. rewrite delete_insert_id by done. by destruct (view (bl g)). }
  assert (Hlk : length (keyed vals) = length vals) by (unfold keyed; by rewrite length_imap).
  assert (Hn : i32 (bson_count_keys doc l) = Z.of_nat (length vals)).
  { rewrite (count_ok _ _ _ Hdoc), Hlk. apply sgn_small; lia. }
  rewrite (proj2 (Z.eqb_neq _ _) Hd). unfold lib_read, lib_, set_bl. wp_run; cbn [w_glob bl] in *; rewrite ?Hn in *.
  - cbn. split; [done|]. left. destruct vals; [|cbn in *; lia]. split_and!; [done|done|by left].
  - cbn. split; [done|]. right. split; [auto|]. eapply (no_memory _ (Malloc _)); [done|by subst; apply Z.eqb_eq].
  - pose proof (iter_init_ok _ _ _ Hdoc) as Hit. rewrite E1 in Hit.
    rewrite Nat2Z.id, <- Hlk, <- Hit. eapply wp_mono.
    { apply (fill_wp _ (λ kv x, x = kv.2)); [rewrite Hit; lia|]. intros it tr1. wp_run. by rewrite copy_ok. }
    intros slots [tr1 g1] (Eg & xs & -> & HR). cbn in Eg. subst g1. wp_run. cbn. split; [done|]. left.
    rewrite Hit, Hlk in *. split_and!; [done|done|]. right. exists (r_ret r). do 3 f_equal.
    symmetry. apply list_eq. intros i. clear -HR. unfold keyed in HR.
    destruct (xs !! i) as [x|] eqn:Ex.
    + destruct (Forall2_lookup_r _ _ _ _ _ HR Ex) as (kv & Hkv & ->).
      apply list_lookup_imap_Some in Hkv as (v & Hv & ->). by rewrite Hv.
    + apply lookup_ge_None in Ex. apply lookup_ge_None. apply Forall2_length in HR. rewrite length_imap in HR. lia.
  - cbn. split; [done|]. right. split; [auto|]. by eapply (no_iterator doc (keyed vals) l).
Qed.

(** A document built from elements, and the elements of a document. *)
Definition element_of (kv : string * bson_value) : bson_element := mk_element (Some kv.1) kv.2.

Lemma doc_create_wp es tr g : (∀ l, (bson_new l).1 ≠ NULL) → buildable L es →
  wp (bson_doc_create true (Some (element_of <$> es)) (Z.of_nat (length es))) (λ '(ret, bdoc) w,
    bdoc ≠ NULL ∧ docs (view (bl g)) !! bdoc = None ∧
    (ret = ok ∧ view (bl (w_glob w)) = with_docs (view (bl g)) (<[bdoc := es]> (docs (view (bl g)))) ∨
     ret = BSON_ERR_APPEND_VAL ∧ view (bl (w_glob w)) = view (bl g) ∧ trouble)) (mk_world tr g).
Proof.
  intros Hnn Hsm. unfold bson_doc_create. change (guard (true = true);; ?x) with x. apply wp_bind, wp_lib. intros doc l Hnew.
  destruct (new_ok _ _ _ Hnew) as [[-> Hv]|(Hd & Hfr & Hv)]; [specialize (Hnn (bl g)); by rewrite Hnew in Hnn|].
  apply wp_bind. rewrite Nat2Z.id.
  eapply wp_mono. { apply (append_loop_wp _ (λ e, e = BSON_ERR_APPEND_VAL ∧ trouble) doc es); [cbn; rewrite Hv; apply lookup_insert_eq|done|].
    intros i k v tr1 g1 c Hi Hpos Hc Hpre. unfold slot_get. replace (0 <=? i) with true by lia.
    rewrite list_lookup_fmap, Hi. cbn. wp_run. cbn [element_of key val fst snd]. wp_run.
    eapply wp_mono; [apply append_wp; [done|done|by apply Hsm]|]. intros b [tr2 g2] (_ & Ht2 & Ha2 & Hb2 & Hv2). cbn [w_glob] in *.
    unfold lib_, set_bl. destruct b; wp_run; cbn.
    - done.
    - split; [split; [done|by apply Ht2]|]. split_and!; [done|done|]. cbn. rewrite destroy_ok by (rewrite Hv2, Hc; done). by rewrite Hv2. }
  cbn [bl arrays bufs]. rewrite Hv. cbn. unfold with_docs. cbn. rewrite insert_insert_eq, delete_insert_id by done.
  intros [e|] [tr1 g1]; cbn [w_glob].
  - intros [[-> Ht] (_ & _ & Hv1)]. wp_run. cbn. split_and!; [done|done|]. right. cbn in Hv1. split; [done|]. split; [|done].
    rewrite Hv1. by destruct (view (bl g)).
  - intros (_ & _ & Hv1). wp_run. cbn. split_and!; [done|done|]. by left.
Qed.

Lemma get_elements_wp doc es tr g : doc ≠ NULL → docs (view (bl g)) !! doc = Some es →
  (∀ tr n, r_ret (os_answer tr (Malloc n)) ≠ NULL) → (length es < fuel)%nat → Z.of_nat (length es) < 2 ^ 31 → small_doc L es →
  wp (bson_doc_get_elements fuel true doc) (λ '(ret, n, arr) w, w_glob w = g ∧
    (ret = ok ∧ n = Z.of_nat (length es) ∧
       (es = [] ∧ arr = None ∨ ∃ p, arr = Some (p, Some ∘ element_of <$> es)) ∨
     (ret = BSON_ERR_MEM_ALLOC ∨ ret = BSON_ERR_ITER_INIT) ∧ trouble)) (mk_world tr g).
Proof.
  intros Hd Hdoc Hm Hf Hsz Hsm. unfold bson_doc_get_elements. rewrite (proj2 (Z.eqb_neq _ _) Hd). cbn [orb negb].
  assert (Hn : i32 (bson_count_keys doc (bl g)) = Z.of_nat (length es)).
  { rewrite (count_ok _ _ _ Hdoc). apply sgn_small; lia. }
  unfold lib_read, bson_fill_element_array. wp_run; cbn [w_glob] in *; rewrite ?Hn in *.
  - split; [done|]. left. destruct es; [|cbn in *; lia]. split_and!; [done|done|by left].
  - split; [done|]. right. split; [auto|]. eapply (no_memory _ (Calloc _ _)); [done|by subst; apply Z.eqb_eq].
  - unfold lib_read. wp_run; [|split; [done|]; right; split; [auto|]; by eapply (no_iterator doc es (bl g))]. pose proof (iter_init_ok _ _ _ Hdoc) as Hit. cbn [w_glob] in E1. rewrite E1 in Hit.
    rewrite Nat2Z.id, <- Hit. eapply wp_mono.
    { apply (fill_wp _ (λ kv x, x = element_of kv)); [rewrite Hit; lia|]. intros it tr1. unfold strdup. wp_run.
      split; [|done]. rewrite copy_ok. unfold element_of. f_equal.
      match goal with H : ?t = os_answer _ (Malloc _) |- _ => rewrite H end. by rewrite (proj2 (Z.eqb_neq _ _) (Hm _ _)). }
    intros slots [tr1 g1] (Eg & xs & -> & HR). cbn in Eg. subst g1. wp_run. split; [done|]. left.
    rewrite Hit in *. split_and!; [done|done|]. right. exists (r_ret r). do 3 f_equal. rewrite list_fmap_compose. f_equal.
    clear -HR. induction HR; cbn; congruence.
Qed.

End specs.

Lemma buildable_any cs : Forall (buildable no_limits) cs.
Proof. by apply list.Forall_true. Qed.

(** ** Growing the array *)

Section growth.
Context {os : OS} {LB : LIBBSON} {OK : LIBBSON_OK LB} (fuel : nat).

Lemma free_docs_null n w : arrays (w_glob w) !! NULL = None → 0 < n → free_docs NULL n w = Undef.
Proof.
  intros Hn Hpos. unfold free_docs. apply bind_undef. destruct (Z.to_nat n) as [|k] eqn:Ek; [lia|].
  cbn [for_range]. apply bind_undef, bind_undef. unfold load_array. unfold get_glob.
  erewrite bind_ok by reflexivity. by rewrite Hn.
Qed.

(** The round that fills the array, when [realloc] fails. *)
Lemma read_round_full r g cs arr len size ps w :
  (∀ tr p n, r_ret (os_answer tr (Realloc p n)) = NULL) → arrays (w_glob w) !! NULL = None →
  size = len + 1 → size * 2 < 2 ^ 31 → len < Z.of_nat (length cs) →
  reading r g cs (arr, len, size) ps w → read_round r (arr, len, size) w = Undef.
Proof.
  intros Hre Hnull -> Hint Hcs [(past & rest & cur & Hsplit & Hl & Hrs & _ & _) _ Harr Hptr [Hlen _] _].
  cbn in *. destruct w as [tr1 g1], rest as [|c rest]; [rewrite app_nil_r in Hsplit; subst; lia|]. cbn [w_glob] in *.
  destruct (reader_read_ok (bl g1) r (encoded past) c (encoded rest) cur) as (p & l' & Hrd & Hpn & _ & Hv).
  { rewrite Hrs. apply lookup_insert_eq. }
  unfold read_round.
  eapply (bind_undef_after _ _ (λ d w, d = (p, false) ∧ w = mk_world tr1 (mk_bs _ l' (arrays g1) (bufs g1)))).
  { apply wp_lib. rewrite Hrd. by intros ? ? [= <- <-]. }
  intros _ _ [-> ->]. rewrite (proj2 (Z.eqb_neq _ _) Hpn).
  eapply (bind_undef_after _ _ (λ q w, arrays (w_glob w) = arrays g1)); [by apply wp_lib|].
  intros q [tr2 g2] Ha. cbn [w_glob] in Ha. unfold load_array, set_arrays.
  eapply (bind_undef_after _ _ (λ a w, a = _ ∧ w = mk_world tr2 g2)).
  { wp_run. cbn [w_glob]. rewrite Ha, Harr. by apply wp_ret. }
  intros _ _ [-> ->]. rewrite Hlen, slot_set_next by lia. erewrite bind_ok by reflexivity.
  erewrite bind_ok by reflexivity. cbn [w_trace w_glob].
  replace (Z.of_nat (length ps) + 1 <=? Z.of_nat (length ps) + 1) with true by lia.
  replace (2147483647 <? _) with false by lia. erewrite bind_ok by reflexivity. rewrite Hre. cbn [Z.eqb NULL].
  apply bind_undef, free_docs_null; [|lia]. cbn. rewrite Ha. by rewrite lookup_insert_ne.
Qed.

(** A round that leaves room in the array. *)
Lemma read_round_room r g cs arr len size w :
  len + 1 < size → len < Z.of_nat (length cs) < 2 ^ 30 → arrays (w_glob w) !! NULL = None →
  (∃ ps, reading r g cs (arr, len, size) ps w) →
  wp (read_round r (arr, len, size)) (λ x w', match x with
    | inl st' => st' = (arr, len + 1, size) ∧ arrays (w_glob w') !! NULL = None ∧ ∃ ps, reading r g cs st' ps w'
    | inr _ => False end) w.
Proof.
  intros Hroom Hcs Hnull [ps Hps]. pose proof (rd_len _ _ _ _ _ _ Hps) as [Hl _]. cbn in Hl.
  eapply wp_mono; [apply (read_round_wp r g cs _ ps); cbn; [lia|lia|done]|]. intros [st'|res] w'; cbn.
  - intros [[p Hp] Heq]. destruct (Heq Hroom) as [-> Hn]. split_and!; [done|by rewrite Hn|by exists (ps ++ [p])].
  - intros (_ & He & _). lia.
Qed.

End growth.

(** ** Theorems *)

Section programs.
Context {os : OS} {LB : LIBBSON} (fuel : nat).

(** Write documents to a buffer and read them back from it. *)
Definition write_then_read (ps : list Z) : M (world bs_mem) (bson_api_err + bson_api_err * Z * Z * Z) :=
  '(ret, (buf, len)) ← bson_write_to_buffer fuel (Some (NULL, 0)) (Some ps) (Z.of_nat (length ps));
  if bson_code ret <? 0 then mret (inl ret)
  else
    g ← get_glob;
    data ← expect (bufs g !! buf);
    r ← bson_read_from_buffer fuel true (Some data) len 0;
    mret (inr r).

(** Store an array of values in a value and take it out again. *)
Definition set_then_get (v0 : bson_value) (vals : list bson_value) :
    M (world bs_mem) (bson_api_err + bson_api_err * Z * option (Z * list (option bson_value))) :=
  '(ret, v) ← bson_value_set_array fuel (Some v0) (Some vals) (Z.of_nat (length vals));
  if bson_code ret <? 0 then mret (inl ret)
  else r ← bson_value_get_array fuel true v; mret (inr r).

(** Build a document from elements and list its elements. *)
Definition create_then_list (es : content) :
    M (world bs_mem) (bson_api_err + bson_api_err * Z * option (Z * list (option bson_element))) :=
  '(ret, bdoc) ← bson_doc_create true (Some (element_of <$> es)) (Z.of_nat (length es));
  if bson_code ret <? 0 then mret (inl ret)
  else r ← bson_doc_get_elements fuel true bdoc; mret (inr r).

End programs.

(** C4: when no [realloc] of the program's own fails (a failing one is undefined behaviour in the reader,
    [bson_read_growth_failure_undefined]), documents written to a buffer are read back as they were.  Writing returns an
    error and leaves the documents as they were, or reading the buffer that was filled returns as many new documents
    as were written, with the same contents in the same order, and has parsed the whole buffer, or reports that it
    could not start (no reader or no array); the documents there were keep their contents. *)
Theorem bson_write_read_roundtrip {os : OS} {LB : LIBBSON} {OK : LIBBSON_OK LB} fuel ps cs tr g :
  (∀ tr p n, 0 < n → r_ret (os_answer tr (Realloc p n)) ≠ NULL) →
  holding (docs (view (bl g))) ps cs → cs ≠ [] → Z.of_nat (length cs) < 2 ^ 30 →
  (length cs < fuel)%nat → Forall (λ c, length c < fuel)%nat cs →
  wp (write_then_read fuel ps) (λ r w, match r with
    | inl e => bson_code e < 0 ∧ view (bl (w_glob w)) = view (bl g)
    | inr (ret, parsed_len, doc_arr, arr_len) =>
        docs (view (bl g)) ⊆ docs (view (bl (w_glob w))) ∧
        (ret = ok ∧ parsed_len = Z.of_nat (length (encoded cs)) ∧ arr_len = Z.of_nat (length ps) ∧
         (∃ qs, arrays (w_glob w) !! doc_arr = Some (Some <$> qs) ∧ holding (docs (view (bl (w_glob w)))) qs cs) ∨
         ret = BSON_ERR_READER_NEW ∨ ret = BSON_ERR_MEM_ALLOC)
    end) (mk_world tr g).
Proof.
  intros Hgrow Hh Hne Hsz Hf Hfs. unfold write_then_read. apply wp_bind.
  eapply wp_mono; [apply (write_to_buffer_wp fuel no_limits); first [done | apply buildable_any]|]. intros [ret [buf len]] [tr1 g1] (Ha & Hv & Hret). cbn [w_glob] in *.
  destruct Hret as [(-> & Hb & -> & Hbufs)|(He & _ & _)]; [|rewrite (proj2 (Z.ltb_lt _ _) He); by apply wp_ret].
  cbn [bson_code]. cbv beta. wp_run. cbn [w_glob]. rewrite Hbufs, lookup_insert_eq. wp_run.
  eapply wp_mono. { rewrite <- (app_nil_r (encoded cs)) at 1. by apply (read_from_buffer_wp fuel no_limits cs []). }
  intros [[[ret plen] arr] n] [tr2 g2] [_ [(-> & -> & -> & (qs & Hqs & Hhq & Hsub%added_subseteq) & _)|(He & Hv2 & _)]]; wp_run; cbn [w_glob] in *; rewrite <- Hv.
  - split; [done|]. left. split_and!; [done|done|by rewrite (Forall2_length Hh)|]. exists qs. auto.
  - split; [by rewrite Hv2|]. by right.
Qed.

(** C18: an array stored in a value comes out as it went in, and no document is left
    behind in the library, whatever fails on the way. *)
Theorem bson_array_roundtrip {os : OS} {LB : LIBBSON} {OK : LIBBSON_OK LB} fuel v0 vals tr g :
  (length vals < fuel)%nat → Z.of_nat (length vals) < 2 ^ 31 → Z.of_nat (length (enc (keyed vals))) < 2 ^ 32 →
  wp (set_then_get fuel v0 vals) (λ r w, view (bl (w_glob w)) = view (bl g) ∧ match r with
    | inl e => bson_code e < 0
    | inr (ret, n, arr) =>
        ret = ok ∧ n = Z.of_nat (length vals) ∧ (vals = [] ∧ arr = None ∨ ∃ p, arr = Some (p, Some <$> vals)) ∨
        ret = BSON_ERR_CREAT_NEW ∨ ret = BSON_ERR_MEM_ALLOC ∨ ret = BSON_ERR_ITER_INIT
    end) (mk_world tr g).
Proof.
  intros Hf Hsz Hlen. unfold set_then_get. apply wp_bind. eapply wp_mono; [by apply (set_array_wp fuel no_limits)|].
  intros [ret v] [tr1 g1] (_ & Hv & Hr). cbn [w_glob] in *.
  destruct Hr as [[= -> ->]|[He _]]; [|cbn in He; rewrite (proj2 (Z.ltb_lt _ _) He); by apply wp_ret].
  cbn [bson_code]. cbv beta. wp_run. eapply wp_mono; [apply (get_array_wp fuel no_limits); [done|done|by rewrite Nat2Z.id, firstn_all|done]|].
  intros [[ret n] arr] w. rewrite Hv. intros [? Hr]. wp_run. split; [done|]. destruct Hr as [Hr|[Hr _]]; auto.
Qed.

(** The elements of a new document are those it was made from. *)
Theorem bson_elements_roundtrip {os : OS} {LB : LIBBSON} {OK : LIBBSON_OK LB} fuel es tr g :
  (∀ l, (bson_new l).1 ≠ NULL) → (∀ tr n, r_ret (os_answer tr (Malloc n)) ≠ NULL) →
  (length es < fuel)%nat → Z.of_nat (length es) < 2 ^ 31 →
  wp (create_then_list fuel es) (λ r w, match r with
    | inl e => e = BSON_ERR_APPEND_VAL ∧ view (bl (w_glob w)) = view (bl g)
    | inr (ret, n, arr) =>
        ret = ok ∧ n = Z.of_nat (length es) ∧
          (es = [] ∧ arr = None ∨ ∃ p, arr = Some (p, Some ∘ element_of <$> es)) ∨
        ret = BSON_ERR_MEM_ALLOC ∨ ret = BSON_ERR_ITER_INIT
    end) (mk_world tr g).
Proof.
  intros Hnew Hm Hf Hsz. unfold create_then_list. apply wp_bind. eapply wp_mono; [by apply (doc_create_wp no_limits)|].
  intros [ret doc] [tr1 g1] (Hd & _ & [[-> Hv]|(-> & Hv & _)]); cbn [w_glob] in *; cbn [bson_code]; wp_run; [|done].
  eapply wp_mono; [apply (get_elements_wp fuel no_limits doc es); [done|rewrite Hv; apply lookup_insert_eq|done..]|].
  intros [[ret n] arr] w [_ Hr]. wp_run. destruct Hr as [Hr|[Hr _]]; auto.
Qed.

(** A failing [realloc] is not survived.  Reading a buffer of four documents or more
    fills the first array; when it cannot be enlarged, the clean-up goes through the NULL
    pointer [realloc] returned instead of the array. *)
Theorem bson_read_growth_failure_undefined {os : OS} {LB : LIBBSON} {OK : LIBBSON_OK LB} fuel cs tr g :
  (∀ data l, (bson_reader_new_from_data data l).1 ≠ NULL) →
  (∀ tr n, r_ret (os_answer tr (Malloc n)) ≠ NULL) → (∀ tr p n, r_ret (os_answer tr (Realloc p n)) = NULL) →
  arrays g !! NULL = None → 4 ≤ Z.of_nat (length cs) < 2 ^ 30 → (4 < fuel)%nat →
  bson_read_from_buffer fuel true (Some (encoded cs)) (Z.of_nat (length (encoded cs))) 0 (mk_world tr g) = Undef.
Proof.
  intros Hnn Hm Hre Hnull Hcs Hf. unfold bson_read_from_buffer. change (guard (true = true);; ?x) with x.
  rewrite Nat2Z.id, firstn_all. destruct (bson_reader_new_from_data (encoded cs) (bl g)) as [r l] eqn:Hnew.
  specialize (Hnn (encoded cs) (bl g)). rewrite Hnew in Hnn. cbn in Hnn.
  destruct (reader_new_ok _ _ _ _ Hnew) as [[-> _]|(Hr & Hfr & Hv)]; [done|].
  eapply (bind_undef_after _ _ (λ d w, d = r ∧ w = mk_world tr (mk_bs _ l (arrays g) (bufs g)))).
  { apply wp_lib. rewrite Hnew. by intros ? ? [= <- <-]. }
  intros _ _ [-> ->]. rewrite (proj2 (Z.eqb_neq _ _) Hr). apply bind_undef.
  unfold read_and_alloc_bson_array, set_arrays. erewrite bind_ok by reflexivity. rewrite (proj2 (Z.eqb_neq _ _) (Hm _ _)).
  erewrite bind_ok by reflexivity. cbn [w_trace w_glob bl arrays bufs]. set (arr := r_ret _). set (w0 := mk_world _ _).
  assert (H0 : reading r g cs (arr, 0, BSON_ARRAY_SIZE) [] w0).
  { split; cbn; rewrite ?Hv; cbn; [|done|by rewrite lookup_insert_eq|apply Hm|done|done].
    exists [], cs, None. split_and!; [done|done|done|constructor|constructor]. }
  assert (Hn0 : arrays (w_glob w0) !! NULL = None) by (cbn; rewrite lookup_insert_ne by apply Hm; done).
  clearbody w0. unfold BSON_ARRAY_SIZE in *. destruct fuel as [|[|[|[|fuel]]]]; try lia.
  do 3 (eapply loop_undef_after;
    [eapply read_round_room; [|split; [|apply Hcs]|eassumption|eexists; eassumption]; cbn; lia
    |intros ? ? (-> & ? & ? & ?)]).
  apply loop_undef. eapply (read_round_full r g cs); [done|done|done|done|lia|eassumption].
Qed.

(** ** A library that keeps the contract

    Documents are kept as lists of elements; a document is encoded as one number. *)

#[global] Instance bson_value_eq_dec : EqDecision bson_value.
Proof. solve_decision. Defined.

Definition value_to (v : bson_value) : Z * (Z * option string) * list Z :=
  match v with
  | V_int32 z => (0, (z, None), [])
  | V_int64 z => (1, (z, None), [])
  | V_double z => (2, (z, None), [])
  | V_utf8 n s => (3, (n, s), [])
  | V_document d n => (4, (n, None), d)
  | V_array d n => (5, (n, None), d)
  | V_other t d => (6, (t, None), d)
  end.

Definition value_of (x : Z * (Z * option string) * list Z) : bson_value :=
  let '(t, (z, s), d) := x in
  match t with
  | 0 => V_int32 z | 1 => V_int64 z | 2 => V_double z | 3 => V_utf8 z s
  | 4 => V_document d z | 5 => V_array d z | _ => V_other z d
  end.

#[global] Instance bson_value_countable : Countable bson_value.
Proof. apply (inj_countable' value_to value_of). by intros []. Defined.

Definition toy_enc (c : content) : list Z := [Zpos (encode c)].
Definition toy_dec (z : Z) : option content := match z with Zpos p => decode p | _ => None end.

Definition new_ptr {A} (m : gmap Z A) : Z := fresh ({[0]} ∪ dom m : gset Z).

Lemma new_ptr_ok {A} (m : gmap Z A) : new_ptr m ≠ NULL ∧ m !! new_ptr m = None.
Proof.
  pose proof (is_fresh ({[0]} ∪ dom m : gset Z)) as H. unfold new_ptr. split; [set_solver|].
  apply not_elem_of_dom. set_solver.
Qed.

Definition set_docs (m : gmap Z content) (l : bview) : bview := mk_view m (writers l) (readers l).
Definition add_doc (c : content) (l : bview) : Z * bview :=
  let p := new_ptr (docs l) in (p, set_docs (<[p := c]> (docs l)) l).

Definition toy_read (r : Z) (l : bview) : (Z * bool) * bview :=
  match readers l !! r with
  | Some (past, [], _) => ((NULL, true), l)
  | Some (past, z :: rest, cur) =>
      match toy_dec z with
      | Some c =>
          let m := unlent cur (docs l) in let p := new_ptr m in
          ((p, false), mk_view (<[p := c]> m) (writers l) (<[r := (past ++ [z], rest, Some p)]> (readers l)))
      | None => ((NULL, false), l)
      end
  | None => ((NULL, false), l)
  end.

Definition toy_end (w : Z) (l : bview) : bview :=
  match writers l !! w with
  | Some (bytes, Some d) =>
      mk_view (delete d (docs l)) (<[w := (bytes ++ toy_enc (default [] (docs l !! d)), None)]> (writers l)) (readers l)
  | _ => l
  end.

Definition toy_begin (w : Z) (l : bview) : option Z * bview :=
  match writers l !! w with
  | Some (bytes, None) =>
      let d := new_ptr (docs l) in
      (Some d, mk_view (<[d := []]> (docs l)) (<[w := (bytes, Some d)]> (writers l)) (readers l))
  | _ => (None, l)
  end.

(** Its JSON shows the keys only. *)
Definition toy_json (c : content) : string := String.concat ", " c.*1.

#[global] Instance toy_bson : LIBBSON := {|
  bson := bview;
  bson_iter := (string * bson_value) * content;
  sizeof_value := 32;
  bson_uint32_to_string n := pretty.pretty n;
  bson_value_copy v := v;
  bson_value_destroy _ l := l;
  bson_new := add_doc [];
  bson_new_from_data data l :=
    match data with z :: _ => match toy_dec z with Some c => add_doc c l | None => (NULL, l) end | [] => (NULL, l) end;
  bson_copy d l := match docs l !! d with Some c => add_doc c l | None => (NULL, l) end;
  bson_destroy d l := set_docs (delete d (docs l)) l;
  bson_append_value d k v l :=
    match docs l !! d with Some c => (true, set_docs (<[d := c ++ [(k, v)]]> (docs l)) l) | None => (false, l) end;
  bson_count_keys d l := Z.of_nat (length (default [] (docs l !! d)));
  bson_as_json d l := toy_json <$> docs l !! d;
  bson_iter_init d l := (λ c, (EmptyString, V_int32 0, c)) <$> docs l !! d;
  bson_iter_next it _ := match it.2 with kv :: c => Some (kv, c) | [] => None end;
  bson_iter_key it := it.1.1;
  bson_iter_value it := it.1.2;
  bson_writer_new _ _ l := let w := new_ptr (writers l) in (w, mk_view (docs l) (<[w := ([], None)]> (writers l)) (readers l));
  bson_writer_buf w l := (4096, 512, default [] (fst <$> writers l !! w));
  bson_writer_begin := toy_begin;
  bson_writer_end := toy_end;
  bson_writer_get_length w l := Z.of_nat (length (default [] (fst <$> writers l !! w)));
  bson_writer_destroy w l := mk_view (docs l) (delete w (writers l)) (readers l);
  bson_reader_new_from_data data l :=
    let r := new_ptr (readers l) in (r, mk_view (docs l) (writers l) (<[r := ([], data, None)]> (readers l)));
  bson_reader_read := toy_read;
  bson_reader_tell r l := Z.of_nat (length (default [] ((λ x, x.1.1) <$> readers l !! r)));
  bson_reader_destroy r l :=
    match readers l !! r with
    | Some (_, _, cur) => mk_view (unlent cur (docs l)) (writers l) (delete r (readers l)) | None => l end |}.

Lemma toy_dec_enc c : toy_dec (Zpos (encode c)) = Some c.
Proof. cbn. apply decode_encode. Qed.

#[global] Instance toy_bson_ok : LIBBSON_OK toy_bson.
Proof.
  refine (Build_LIBBSON_OK toy_bson (λ l, l) toy_enc _ snd _ _ _ _ _ _ _ _ _ _ _ _ _ _ _ _ _ _ _);
    cbn [bson bson_new bson_new_from_data bson_copy bson_destroy bson_append_value bson_count_keys bson_iter_init
         bson_iter_next bson_iter_key bson_iter_value bson_writer_new bson_writer_begin bson_writer_end bson_writer_buf
         bson_writer_get_length bson_writer_destroy bson_reader_new_from_data bson_reader_read bson_reader_tell
         bson_reader_destroy bson_value_copy toy_bson].
  - done.
  - done.
  - intros l p l' [= <- <-]. right. split_and!; [apply new_ptr_ok|apply new_ptr_ok|done].
  - intros l c p l'. unfold toy_enc. rewrite toy_dec_enc. intros [= <- <-]. right.
    split_and!; [apply new_ptr_ok|apply new_ptr_ok|done].
  - intros l d c p l' Hd. rewrite Hd. intros [= <- <-]. split_and!; [apply new_ptr_ok|apply new_ptr_ok|done].
  - done.
  - intros l d c k v b l' Hd. rewrite Hd. by intros [= <- <-].
  - intros l d c Hd. by rewrite Hd.
  - intros l d c Hd. by rewrite Hd.
  - intros l [[k v] [|[k' v'] c]]; done.
  - intros l b n w l' [= <- <-]. right. split_and!; [apply new_ptr_ok|apply new_ptr_ok|done].
  - intros l w bytes r l' Hw. unfold toy_begin. rewrite Hw. intros [= <- <-].
    split_and!; [apply new_ptr_ok|apply new_ptr_ok|done].
  - intros l w bytes d c Hw Hd. unfold toy_end. by rewrite Hw, Hd.
  - intros l w bytes cur Hw. by rewrite Hw.
  - done.
  - intros l data r l' [= <- <-]. right. split_and!; [apply new_ptr_ok|apply new_ptr_ok|done].
  - intros l r past cur Hr. exists l. unfold toy_read. by rewrite Hr.
  - intros l r past c rest cur Hr. eexists _, _. unfold toy_read. rewrite Hr. cbn [toy_enc app].
    rewrite toy_dec_enc. split_and!; [done|apply new_ptr_ok|apply new_ptr_ok|done].
  - intros l r past rest cur Hr. by rewrite Hr.
  - intros l r past rest cur Hr. by rewrite Hr.
Defined.

(** Every allocation succeeds; two documents are at 1 and 2. *)
Definition bson_os : OS := λ tr c, mk_reply (64 + Z.of_nat (length tr)) 0 [].
Definition doc1 : content := [("id", V_int32 7); ("name", V_utf8 3 (Some "tpt"))].
Definition doc2 : content := [("size", V_int64 (2 ^ 40))].
Definition bson_mem : bs_mem :=
  mk_bs toy_bson (mk_view {[1 := doc1; 2 := doc2]} ∅ ∅) ∅ ∅.

Lemma bson_os_answers tr c : r_ret (bson_os tr c) ≠ NULL.
Proof. unfold bson_os, NULL. cbn. lia. Qed.

Lemma bson_write_read_roundtrip_witness :
  wp (write_then_read (os := bson_os) 5 [1; 2]) (λ r w, match r with
    | inl e => bson_code e < 0
    | inr (ret, _, doc_arr, arr_len) =>
      ret = ok ∧ arr_len = 2 ∧
        (∃ qs, arrays (w_glob w) !! doc_arr = Some (Some <$> qs) ∧ holding (docs (view (bl (w_glob w)))) qs [doc1; doc2]) ∨
      ret = BSON_ERR_READER_NEW ∨ ret = BSON_ERR_MEM_ALLOC
    end) (mk_world [] bson_mem).
Proof.
  eapply wp_mono; [apply (bson_write_read_roundtrip (os := bson_os) 5 [1; 2] [doc1; doc2] [] bson_mem)|].
  - intros tr p n _. apply bson_os_answers.
  - repeat constructor.
  - done.
  - done.
  - cbn. lia.
  - repeat constructor.
  - intros [e|[[[ret plen] arr] n]] w; [by intros [? _]|]. intros [_ [(-> & _ & -> & qs & ? & ?)|?]]; [|auto].
    left. split_and!; [done|done|]. by exists qs.
Defined.

Lemma bson_array_roundtrip_witness :
  wp (set_then_get (os := bson_os) 5 (V_int32 0) [V_int32 1; V_utf8 2 (Some "ab")]) (λ r w,
    view (bl (w_glob w)) = view (bl bson_mem)) (mk_world [] bson_mem).
Proof.
  eapply wp_mono; [apply (bson_array_roundtrip (os := bson_os) 5 (V_int32 0) [V_int32 1; V_utf8 2 (Some "ab")] [] bson_mem)|].
  - cbn. lia.
  - done.
  - done.
  - by intros r w [? _].
Defined.

Lemma bson_elements_roundtrip_witness :
  wp (create_then_list (os := bson_os) 5 doc1) (λ r w, match r with
    | inl e => e = BSON_ERR_APPEND_VAL | inr (_, n, _) => True end) (mk_world [] bson_mem).
Proof.
  eapply wp_mono; [apply (bson_elements_roundtrip (os := bson_os) 5 doc1 [] bson_mem)|].
  - intros l. apply new_ptr_ok.
  - intros tr n. apply bson_os_answers.
  - cbn. lia.
  - done.
  - intros [e|[[ret n] arr]] w; [by intros [? _]|done].
Defined.

Definition no_growth_os : OS := λ tr c,
  match c with Realloc _ _ => mk_reply 0 12 [] | _ => mk_reply 64 0 [] end.

Lemma bson_read_growth_failure_undefined_witness :
  bson_read_from_buffer (os := no_growth_os) 5 true (Some (encoded [doc1; doc2; doc1; doc2]))
    (Z.of_nat (length (encoded [doc1; doc2; doc1; doc2]))) 0 (mk_world [] bson_mem) = Undef.
Proof.
  apply (bson_read_growth_failure_undefined (os := no_growth_os)).
  - intros data l. apply new_ptr_ok.
  - done.
  - done.
  - done.
  - done.
  - lia.
Defined.
