(* ===== verification/Zigzag.v ===== *)
(** * Zigzag encoding of signed integers

    Models src/src/encoding/zigzag/zigzag.c: the encoding that maps integers of small
    magnitude, of either sign, to small unsigned integers.  The shift of a negative
    [int64_t] is the two's complement one the compiler gives it. *)

From Stdlib Require Import ZArith Lia ZifyBool.
From stdpp Require Import base numbers.
From S2P Require Import Prelude.

Definition zigzag_encode_int64 (num : Z) : Z :=
  u64 (Z.lxor (i64 (Z.shiftl num 1)) (Z.shiftr num 63)).

Definition zigzag_decode_uint64 (num : Z) : Z :=
  i64 (Z.lxor (Z.shiftr num 1) (u64 (- Z.land num 1))).

(** ** Closed forms *)

Lemma lxor_m1 x : Z.lxor x (-1) = - x - 1.
Proof. rewrite Z.lxor_m1_r. unfold Z.lnot. lia. Qed.

Lemma lxor_ones_sub k n : 0 ≤ n → 0 ≤ k < 2 ^ n → Z.lxor k (2 ^ n - 1) = 2 ^ n - 1 - k.
Proof.
  intros Hn Hk. replace (2 ^ n - 1) with (Z.ones n) by (rewrite Z.ones_equiv; lia).
  assert (Hlow : Z.ldiff k (Z.ones n) = 0).
  { destruct (decide (k = 0)) as [->|]; [done|]. apply Z.ldiff_ones_r_low; [lia|]. apply Z.log2_lt_pow2; lia. }
  rewrite (Z.sub_nocarry_ldiff _ _ Hlow). apply Z.bits_inj'. intros i Hi.
  apply (f_equal (λ z, Z.testbit z i)) in Hlow.
  rewrite Z.ldiff_spec, Z.bits_0 in Hlow. rewrite Z.lxor_spec, Z.ldiff_spec.
  by destruct (Z.testbit k i), (Z.testbit (Z.ones n) i).
Qed.

Lemma sgn_congruent w x : 0 < w → ∃ k, sgn w x = x + k * 2 ^ w.
Proof.
  intros Hw. exists (sgn w x / 2 ^ w - x / 2 ^ w).
  pose proof (Z.div_mod (sgn w x) (2 ^ w)). pose proof (Z.div_mod x (2 ^ w)).
  pose proof (sgn_mod w x Hw). lia.
Qed.

Lemma encode_closed n : - 2 ^ 63 ≤ n < 2 ^ 63 →
  zigzag_encode_int64 n = if n <? 0 then - 2 * n - 1 else 2 * n.
Proof.
  intros Hn. unfold zigzag_encode_int64. rewrite Z.shiftl_mul_pow2, Z.shiftr_div_pow2 by lia.
  change (2 ^ 1) with 2. destruct (Z.ltb_spec n 0).
  - replace (n / 2 ^ 63) with (-1) by (apply (Z.div_unique_pos _ _ _ (n + 2 ^ 63)); lia).
    rewrite lxor_m1. unfold u64, i64. destruct (sgn_congruent 64 (n * 2)) as [k ->]; [lia|].
    replace (- (n * 2 + k * 2 ^ 64) - 1) with (- 2 * n - 1 + (- k) * 2 ^ 64) by lia.
    rewrite Z.mod_add by lia. apply Z.mod_small. lia.
  - replace (n / 2 ^ 63) with 0 by (symmetry; apply Z.div_small; lia). rewrite Z.lxor_0_r.
    unfold u64, i64. rewrite sgn_mod by lia. rewrite Z.mod_small; lia.
Qed.

Lemma decode_closed u : 0 ≤ u < 2 ^ 64 →
  zigzag_decode_uint64 u = if Z.odd u then - (u / 2) - 1 else u / 2.
Proof.
  intros Hu. unfold zigzag_decode_uint64. rewrite Z.shiftr_div_pow2 by lia. change (2 ^ 1) with 2.
  pose proof (Z.div_lt_upper_bound u 2 (2 ^ 63) ltac:(lia) ltac:(lia)).
  pose proof (Z.div_pos u 2 ltac:(lia) ltac:(lia)).
  replace (Z.land u 1) with (Z.b2z (Z.odd u))
    by (change 1 with (Z.ones 1) at 1; rewrite Z.land_ones by lia; change (2 ^ 1) with 2; rewrite Zmod_odd; by destruct (Z.odd u)).
  destruct (Z.odd u); cbn [Z.b2z].
  - change (u64 (- (1))) with (2 ^ 64 - 1). rewrite lxor_ones_sub by lia.
    unfold i64. rewrite <- (sgn_small 64 (- (u / 2) - 1)) by lia. unfold sgn.
    replace ((2 ^ 64 - 1 - u / 2) mod 2 ^ 64) with ((- (u / 2) - 1) mod 2 ^ 64); [done|].
    replace (2 ^ 64 - 1 - u / 2) with (- (u / 2) - 1 + 1 * 2 ^ 64) by lia. by rewrite Z.mod_add.
  - change (u64 (- (0))) with 0. rewrite Z.lxor_0_r. apply sgn_small; lia.
Qed.

(** ** Theorem *)

(** C27: the encoding is a bijection that keeps small numbers small.  Every 64-bit signed
    integer is encoded as an unsigned one, twice its magnitude at most, and decoded to
    itself; every 64-bit unsigned integer is the encoding of what it decodes to. *)
Theorem zigzag_bijection n u : - 2 ^ 63 ≤ n < 2 ^ 63 → 0 ≤ u < 2 ^ 64 →
  0 ≤ zigzag_encode_int64 n < 2 ^ 64 ∧ zigzag_encode_int64 n ≤ 2 * Z.abs n ∧
  zigzag_decode_uint64 (zigzag_encode_int64 n) = n ∧
  - 2 ^ 63 ≤ zigzag_decode_uint64 u < 2 ^ 63 ∧ zigzag_encode_int64 (zigzag_decode_uint64 u) = u.
Proof.
  intros Hn Hu. rewrite (encode_closed n Hn), (decode_closed u Hu).
  assert (Hu2 := Z.div_mod u 2 ltac:(lia)). rewrite Zmod_odd in Hu2.
  assert (Hr : - 2 ^ 63 ≤ (if Z.odd u then - (u / 2) - 1 else u / 2) < 2 ^ 63) by (destruct (Z.odd u); lia).
  rewrite (encode_closed _ Hr). split_and!; try (destruct (n <? 0) eqn:?; lia); try lia.
  - destruct (Z.ltb_spec n 0).
    + rewrite decode_closed by lia. replace (- 2 * n - 1) with (1 + 2 * (- n - 1)) by lia.
      rewrite Z.odd_add_mul_2, Z.mul_comm, Z.div_add by lia. change (1 / 2) with 0. change (Z.odd 1) with true. cbv iota. lia.
    + rewrite decode_closed by lia. rewrite Z.odd_mul. change (Z.odd 2 && Z.odd n) with false.
      rewrite Z.mul_comm, Z.div_mul by lia. done.
  - destruct (Z.odd u); destruct (_ <? _) eqn:?; lia.
Qed.

Lemma zigzag_bijection_witness :
  zigzag_decode_uint64 (zigzag_encode_int64 (-7)) = -7 ∧ zigzag_encode_int64 (zigzag_decode_uint64 13) = 13.
Proof. destruct (zigzag_bijection (-7) 13) as (_ & _ & H1 & _ & H2); [lia|lia|]. split; [exact H1|exact H2]. Defined.

(** The fifteen numbers the program prints. *)
Example zigzag_first : zigzag_encode_int64 <$> [-7; -6; -5; -4; -3; -2; -1; 0; 1; 2; 3; 4; 5; 6; 7] =
  [13; 11; 9; 7; 5; 3; 1; 0; 2; 4; 6; 8; 10; 12; 14].
Proof. vm_compute. reflexivity. Qed.
