(* ===== verification/EpollServer.v ===== *)
(** * The epoll echo server

    Models src/src/system/poller/epoll.c: a server that accepts connections on a
    non-blocking socket and prints what its clients send, with edge-triggered epoll.
    [abort] ends the process. *)

From Stdlib Require Import ZArith Lia ZifyBool.
From stdpp Require Import base gmap list strings numbers.
From S2P Require Import Prelude Posix.

Definition MAXEVENTS : Z := 64.
Definition SOMAXCONN : Z := 128.
Definition EXIT_FAILURE : Z := 1.

(** ** epoll.c *)

Section code.
Context {os : OS} (fuel : nat).
Abbreviation EM := (M (world unit)).

(** The exit status of a process killed by SIGABRT. *)
Definition abort {A} : EM A := exit_with 134.

(** The reply of [getaddrinfo] stores the list of addresses; the loop tries them in turn. *)
Fixpoint bind_first (addrs : list Z) : EM (option Z) :=
  match addrs with
  | [] => mret None
  | a :: addrs =>
      s ← sys Socket;
      let sfd := r_ret s in
      if sfd =? -1 then bind_first addrs
      else
        b ← sys (Bind sfd a 0);
        if r_ret b =? 0 then mret (Some sfd)
        else sys_ (Close sfd);; bind_first addrs
  end.

Definition create_and_bind (port : string) : EM Z :=
  s ← sys (Ext "getaddrinfo" []);
  if negb (r_ret s =? 0) then sys_ (Printf "getaddrinfo: %s" []);; mret (-1)
  else
    r ← bind_first (r_out s);
    match r with
    | None => sys_ (Printf "Could not bind" []);; mret (-1)
    | Some sfd => sys_ (Ext "freeaddrinfo" []);; mret sfd
    end.

Definition make_socket_non_blocking (sfd : Z) : EM Z :=
  f ← sys (FcntlGetFL sfd);
  if r_ret f =? -1 then sys_ (Printf "fcntl" []);; mret (-1)
  else
    s ← sys (FcntlSetFL sfd (Z.lor (r_ret f) O_NONBLOCK));
    if r_ret s =? -1 then sys_ (Printf "fcntl" []);; mret (-1) else mret 0.

Definition edge_in : Z := Z.lor EPOLLIN EPOLLET.

(** The loop over the connections waiting on the listening socket. *)
Definition accept_all (sfd efd : Z) : EM unit :=
  loop fuel (λ _,
    a ← sys (Accept sfd);
    let infd := r_ret a in
    if infd =? -1 then
      (if r_errno a =? EAGAIN then mret tt else sys_ (Printf "accept" []));; mret (inr tt)
    else
      n ← sys (Ext "getnameinfo" []);
      (if r_ret n =? 0 then sys_ (Printf "Accepted connection on descriptor %d" [infd]) else mret tt);;
      s ← make_socket_non_blocking infd;
      if s =? -1 then abort
      else
        c ← sys (EpollCtlAdd efd infd edge_in infd);
        if r_ret c =? -1 then sys_ (Printf "epoll_ctl" []);; abort else mret (inl tt)) tt.

(** The loop over the data waiting on a connection; it returns [done]. *)
Definition read_all (fd : Z) : EM bool :=
  loop fuel (λ _,
    r ← sys (Read fd 512);
    let count := r_ret r in
    if count =? -1 then
      if negb (r_errno r =? EAGAIN) then sys_ (Printf "read" []);; mret (inr true)
      else mret (inr false)
    else if count =? 0 then mret (inr true)
    else
      s ← sys (Write 1 (take (Z.to_nat count) (r_out r)));
      if r_ret s =? -1 then sys_ (Printf "write" []);; abort else mret (inl tt)) tt.

(** An event: its flags and the descriptor it is about. *)
Definition handle_event (sfd efd : Z) (e : Z * Z) : EM unit :=
  let '(events, fd) := e in
  if has_bits events EPOLLERR || has_bits events EPOLLHUP || negb (has_bits events EPOLLIN) then
    sys_ (Printf "epoll error" []);; sys_ (Close fd)
  else if sfd =? fd then accept_all sfd efd
  else
    closed ← read_all fd;
    if (closed : bool) then sys_ (Printf "Closed connection on descriptor %d" [fd]);; sys_ (Close fd) else mret tt.

(** The events [epoll_wait] stored: flags and descriptor in turn. *)
Fixpoint event_array (l : list Z) : list (Z * Z) :=
  match l with ev :: fd :: l => (ev, fd) :: event_array l | _ => [] end.

Fixpoint handle_events (sfd efd : Z) (es : list (Z * Z)) : EM unit :=
  match es with [] => mret tt | e :: es => handle_event sfd efd e;; handle_events sfd efd es end.

Definition event_round (sfd efd : Z) : EM unit :=
  n ← sys (EpollWait efd MAXEVENTS (-1));
  handle_events sfd efd (take (Z.to_nat (r_ret n)) (event_array (r_out n))).

Definition main (argv : option string) : EM unit :=
  match argv with
  | None => sys_ (Printf "Usage: %s [port]" []);; exit_with EXIT_FAILURE
  | Some port =>
      sfd ← create_and_bind port;
      if sfd =? -1 then abort
      else
        s ← make_socket_non_blocking sfd;
        if s =? -1 then abort
        else
          l ← sys (Listen sfd SOMAXCONN);
          if r_ret l =? -1 then sys_ (Printf "listen" []);; abort
          else
            e ← sys EpollCreate;
            let efd := r_ret e in
            if efd =? -1 then sys_ (Printf "epoll_create" []);; abort
            else
              c ← sys (EpollCtlAdd efd sfd edge_in sfd);
              if r_ret c =? -1 then sys_ (Printf "epoll_ctl" []);; abort
              else
                sys_ (Calloc MAXEVENTS 12);;
                loop fuel (λ _ : unit, event_round sfd efd;; mret (inl tt : unit + unit)) tt
  end.

End code.

(** ** What the server did

    Read off the history, oldest first: the answers to [read] on a descriptor, the buffers
    handed to [write], the answers to [accept], the descriptors made non-blocking and
    those registered, edge-triggered, with the descriptor as their data. *)

Fixpoint reads (fd : Z) (tr : list event) : list reply :=
  match tr with
  | [] => []
  | (Read fd' _, r) :: tr => reads fd tr ++ (if fd' =? fd then [r] else [])
  | _ :: tr => reads fd tr
  end.

Fixpoint writes (fd : Z) (tr : list event) : list (list Z) :=
  match tr with
  | [] => []
  | (Write fd' b, _) :: tr => writes fd tr ++ (if fd' =? fd then [b] else [])
  | _ :: tr => writes fd tr
  end.

Fixpoint accepts (sfd : Z) (tr : list event) : list reply :=
  match tr with
  | [] => []
  | (Accept fd, r) :: tr => accepts sfd tr ++ (if fd =? sfd then [r] else [])
  | _ :: tr => accepts sfd tr
  end.

Fixpoint non_blocking (tr : list event) : list Z :=
  match tr with
  | [] => []
  | (FcntlSetFL fd fl, r) :: tr =>
      non_blocking tr ++ (if negb (r_ret r =? -1) && has_bits fl O_NONBLOCK then [fd] else [])
  | _ :: tr => non_blocking tr
  end.

Fixpoint registered (efd : Z) (tr : list event) : list Z :=
  match tr with
  | [] => []
  | (EpollCtlAdd ep fd ev data, r) :: tr =>
      registered efd tr ++
      (if (ep =? efd) && negb (r_ret r =? -1) && (ev =? edge_in) && (data =? fd) then [fd] else [])
  | _ :: tr => registered efd tr
  end.

(** The failures that make the server abort. *)
Definition fatal (e : event) : bool :=
  match e with
  | (Write _ _, r) | (FcntlGetFL _, r) | (FcntlSetFL _ _, r) | (EpollCtlAdd _ _ _ _, r) => r_ret r =? -1
  | _ => false
  end.

Definition fatals (tr : list event) : nat := length (List.filter fatal tr).

(** The bytes that a [read] stored. *)
Definition data (r : reply) : list Z := take (Z.to_nat (r_ret r)) (r_out r).

(** A failing call returns -1. *)
Definition fails_with_minus_one {os : OS} : Prop := ∀ tr c, -1 ≤ r_ret (os_answer tr c).

(** What an event of a client leaves: the connection was read until [last], which stored
    nothing, and every answer before it, in [rs], stored bytes, which were handed to the
    standard output one after the other.  The result says whether the connection is over. *)
Record drained (fd : Z) (tr tr' : list event) (rs : list reply) (last : reply) : Prop := {
  dr_reads : reads fd tr' = reads fd tr ++ rs ++ [last];
  dr_data : Forall (λ r, 0 < r_ret r) rs;
  dr_last : r_ret last ≤ 0;
  dr_writes : writes 1 tr' = writes 1 tr ++ map data rs;
  dr_fatals : fatals tr' = fatals tr }.

(** Nothing more to read now: neither the end of the stream nor an error. *)
Definition would_block (r : reply) : bool := (r_ret r =? -1) && (r_errno r =? EAGAIN).

(** What an event of the listening socket leaves: connections were accepted until
    [accept] failed with [last], and each is non-blocking and registered. *)
Record all_accepted (sfd efd : Z) (tr tr' : list event) (rs : list reply) (last : reply) : Prop := {
  aa_accepts : accepts sfd tr' = accepts sfd tr ++ rs ++ [last];
  aa_good : Forall (λ r, 0 ≤ r_ret r) rs;
  aa_last : r_ret last = -1;
  aa_non_blocking : non_blocking tr' = non_blocking tr ++ map r_ret rs;
  aa_registered : registered efd tr' = registered efd tr ++ map r_ret rs;
  aa_owned : res_delta tr tr' (map r_ret rs) [];
  aa_fatals : fatals tr' = fatals tr }.

(** The process was aborted, after one of the fatal failures. *)
Definition aborted (tr : list event) (code : Z) (w : world unit) : Prop :=
  code = 134 ∧ fatals (w_trace w) = S (fatals tr).

Ltac e_step :=
  lazymatch goal with
  | |- ends (mbind _ _) _ _ _ => apply ends_bind; cbn beta
  | |- ends (mret _) _ _ _ => apply ends_wp, wp_ret; cbn beta
  | |- ends (sys _) _ _ _ => apply ends_wp, wp_sys; let r := fresh "r" in let Hr := fresh "Hr" in intros r Hr
  | |- ends (sys_ _) _ _ _ => apply ends_wp, wp_sys_; let r := fresh "r" in let Hr := fresh "Hr" in intros r Hr
  | |- ends abort _ _ _ => apply ends_exit
  | |- ends (if ?x then _ else _) _ _ _ => let E := fresh "E" in destruct x eqn:E; try discriminate E
  end.
Ltac e_run := repeat e_step; cbn [w_trace].

Section specs.
Context {os : OS} (fuel K : nat) (Hk : fails_with_minus_one) (Hcalm : calms_down K) (Hfuel : (K < fuel)%nat).
Implicit Types (tr : list event).

Lemma fatals_cons e tr : fatals (e :: tr) = (if fatal e then S (fatals tr) else fatals tr).
Proof. unfold fatals. cbn [List.filter]. by destruct (fatal e). Qed.

(** The reading loop between two rounds. *)
Record reading (fd : Z) (tr tr' : list event) (rs : list reply) : Prop := {
  rd_reads : reads fd tr' = reads fd tr ++ rs;
  rd_data : Forall (λ r, 0 < r_ret r) rs;
  rd_writes : writes 1 tr' = writes 1 tr ++ map data rs;
  rd_fatals : fatals tr' = fatals tr;
  rd_owned : res_eq tr tr' }.

Lemma reading_stops fd tr tr' rs n r :
  reading fd tr tr' rs → r_ret r ≤ 0 → drained fd tr ((Read fd n, r) :: tr') rs r.
Proof.
  intros [H1 H2 H3 H4 _] Hr. split; [|done|done|done|].
  - cbn. by rewrite Z.eqb_refl, H1, app_assoc.
  - by rewrite fatals_cons.
Qed.

Lemma reading_copies fd tr tr' rs n r s :
  reading fd tr tr' rs → 0 < r_ret r → r_ret s ≠ -1 →
  reading fd tr ((Write 1 (data r), s) :: (Read fd n, r) :: tr') (rs ++ [r]).
Proof.
  intros [H1 H2 H3 H4 H5] Hr Hs. split.
  - cbn. by rewrite Z.eqb_refl, H1, app_assoc.
  - apply Forall_app. by split; [|constructor].
  - cbn -[data]. by rewrite H3, map_app, app_assoc.
  - rewrite !fatals_cons. cbn. by rewrite (proj2 (Z.eqb_neq _ _) Hs).
  - res_solve.
Qed.

Lemma drained_silent fd tr tr' rs last c r :
  match c with Printf _ _ | Close _ => true | _ => false end = true →
  drained fd tr tr' rs last → drained fd tr ((c, r) :: tr') rs last.
Proof. intros Hc [H1 H2 H3 H4 H5]. destruct c; try discriminate Hc; split; try done; by rewrite fatals_cons. Qed.

Lemma read_all_ends fd tr :
  ends (read_all fuel fd) (λ done w, ∃ rs last, drained fd tr (w_trace w) rs last ∧ res_eq tr (w_trace w) ∧
    done = negb (would_block last)) (aborted tr) (mk_world tr ()).
Proof.
  apply (ends_calm_loop K fuel _ (λ _ w, ∃ rs, reading fd tr (w_trace w) rs)); [done|done|exists []; split; rewrite ?app_nil_r; done|].
  intros [] [tr1 []] (rs & Hp). cbn [w_trace] in *. pose proof (Hk tr1 (Read fd 512)) as H1.
  pose proof (rd_owned _ _ _ _ Hp) as Ho. unfold aborted, would_block. e_run; rewrite <- Hr in H1.
  - exists rs, r. split_and!; [apply drained_silent, reading_stops; [done|done|lia]|res_solve|].
    rewrite E. by rewrite andb_false_r || (destruct (r_errno r =? EAGAIN); done).
  - exists rs, r. split_and!; [apply reading_stops; [done|lia]|res_solve|].
    rewrite E. by destruct (r_errno r =? EAGAIN).
  - exists rs, r. split_and!; [apply reading_stops; [done|lia]|res_solve|]. by rewrite E.
  - split; [done|]. rewrite !fatals_cons. cbn. by rewrite E1, (rd_fatals _ _ _ _ Hp).
  - split; [|split; [ext_solve|busy_solve]]. exists (rs ++ [r]). apply reading_copies; [done|lia|lia].
Qed.

(** The accepting loop between two rounds. *)
Record accepting (sfd efd : Z) (tr tr' : list event) (rs : list reply) : Prop := {
  ac_accepts : accepts sfd tr' = accepts sfd tr ++ rs;
  ac_good : Forall (λ r, 0 ≤ r_ret r) rs;
  ac_non_blocking : non_blocking tr' = non_blocking tr ++ map r_ret rs;
  ac_registered : registered efd tr' = registered efd tr ++ map r_ret rs;
  ac_owned : res_delta tr tr' (map r_ret rs) [];
  ac_fatals : fatals tr' = fatals tr }.

Lemma accepting_stops sfd efd tr tr' rs r :
  accepting sfd efd tr tr' rs → r_ret r = -1 → all_accepted sfd efd tr ((Accept sfd, r) :: tr') rs r.
Proof.
  intros [H1 H2 H3 H4 H5 H6] Hr. split; [|done|done|done|done| |by rewrite fatals_cons].
  - cbn. by rewrite Z.eqb_refl, H1, app_assoc.
  - destruct H5 as [H5 H5']. split; intros x; cbn [fd_balance fd_delta mem_balance mem_delta]; [rewrite H5|rewrite H5']; rewrite ?Hr; cbn; lia.
Qed.

Lemma all_accepted_printed sfd efd tr tr' rs last fmt args r :
  all_accepted sfd efd tr tr' rs last → all_accepted sfd efd tr ((Printf fmt args, r) :: tr') rs last.
Proof.
  intros [H1 H2 H3 H4 H5 H6 H7]. by split.
Qed.

Lemma has_bits_lor x : has_bits (Z.lor x O_NONBLOCK) O_NONBLOCK = true.
Proof.
  unfold has_bits. replace (Z.land (Z.lor x O_NONBLOCK) O_NONBLOCK) with O_NONBLOCK; [done|].
  apply Z.bits_inj'. intros i _. rewrite Z.land_spec, Z.lor_spec. by destruct (Z.testbit x i), (Z.testbit O_NONBLOCK i).
Qed.

(** A connection accepted, made non-blocking and registered; [mid] are the calls about its name. *)
Lemma accepting_accepts sfd efd tr tr' rs r mid gf sf a :
  accepting sfd efd tr tr' rs → 0 ≤ r_ret r → r_ret gf ≠ -1 → r_ret sf ≠ -1 → r_ret a ≠ -1 →
  Forall (λ e, match e.1 with Printf _ _ | Ext _ _ => true | _ => false end = true) mid →
  accepting sfd efd tr ((EpollCtlAdd efd (r_ret r) edge_in (r_ret r), a) ::
    (FcntlSetFL (r_ret r) (Z.lor (r_ret gf) O_NONBLOCK), sf) :: (FcntlGetFL (r_ret r), gf) :: mid ++ (Accept sfd, r) :: tr')
    (rs ++ [r]).
Proof.
  intros [H1 H2 H3 H4 [H5 H5'] H6] Hr Hg%Z.eqb_neq Hs%Z.eqb_neq Ha%Z.eqb_neq Hmid.
  assert (Hm : accepts sfd (mid ++ (Accept sfd, r) :: tr') = accepts sfd tr' ++ [r] ∧
    non_blocking (mid ++ (Accept sfd, r) :: tr') = non_blocking tr' ∧
    registered efd (mid ++ (Accept sfd, r) :: tr') = registered efd tr' ∧
    fatals (mid ++ (Accept sfd, r) :: tr') = fatals tr' ∧
    ∀ x, fd_balance (mid ++ (Accept sfd, r) :: tr') x = fd_balance tr' x + Z.b2z (r_ret r =? x) ∧
         mem_balance (mid ++ (Accept sfd, r) :: tr') x = mem_balance tr' x).
  { induction Hmid as [|[c rc] mid Hc Hmid IH]; cbn [app].
    - cbn -[fatals]. rewrite Z.eqb_refl, fatals_cons. split_and!; try done. intros x. cbn. lia.
    - destruct IH as (I1 & I2 & I3 & I4 & I5). destruct c; try discriminate Hc; rewrite fatals_cons; split_and!; try done;
        intros x; destruct (I5 x); cbn; lia. }
  destruct Hm as (I1 & I2 & I3 & I4 & I5). split.
  - cbn. by rewrite I1, H1, app_assoc.
  - apply Forall_app. by split; [|constructor].
  - cbn -[has_bits]. rewrite I2, Hs, has_bits_lor, H3, map_app. cbn. by rewrite app_assoc.
  - cbn. rewrite I3, Ha, !Z.eqb_refl, H4, map_app. cbn. by rewrite app_assoc.
  - split; intros x; cbn [fd_balance fd_delta mem_balance mem_delta]; destruct (I5 x) as [J1 J2];
      [rewrite J1, H5|rewrite J2, H5']; rewrite ?map_app, ?count_app; cbn; lia.
  - rewrite !fatals_cons. cbn. by rewrite Ha, Hs, Hg, I4, H6.
Qed.

Lemma accept_all_ends sfd efd tr :
  ends (accept_all fuel sfd efd) (λ _ w, ∃ rs last, all_accepted sfd efd tr (w_trace w) rs last)
    (aborted tr) (mk_world tr ()).
Proof.
  apply (ends_calm_loop K fuel _ (λ _ w, ∃ rs, accepting sfd efd tr (w_trace w) rs));
    [done|done|exists []; split; cbn [w_trace map]; rewrite ?app_nil_r; try done; apply (reflexivity (R := res_eq))|].
  intros [] [tr1 []] (rs & Hp). cbn [w_trace] in *. pose proof (Hk tr1 (Accept sfd)) as H1.
  pose proof (ac_fatals _ _ _ _ _ Hp) as Hf.
  unfold make_socket_non_blocking, aborted. e_run; rewrite <- Hr in H1; try discriminate.
  all: try (split; [done|]; rewrite !fatals_cons; cbn; repeat match goal with E : (_ =? -1) = _ |- _ => rewrite E end; congruence).
  - exists rs, r. apply accepting_stops; [done|lia].
  - exists rs, r. apply all_accepted_printed, accepting_stops; [done|lia].
  - split; [|split; [ext_solve|busy_solve]]. exists (rs ++ [r]). 
    apply (accepting_accepts _ _ _ _ _ r [_; _]); try lia; [done|by repeat constructor].
  - split; [|split; [ext_solve|busy_solve]]. exists (rs ++ [r]).
    apply (accepting_accepts _ _ _ _ _ r [_]); try lia; [done|by repeat constructor].
Qed.

End specs.

(** ** Theorem *)

(** C24: every event is served completely and in order, whatever the kernel refuses.  An
    event without data in it closes its descriptor and does nothing else.  An event of
    the listening socket accepts until [accept] fails, and every connection accepted is
    made non-blocking, registered edge-triggered with the descriptor as its data, in the
    order they came, and owned by the server.  An event of a client reads until [read]
    stores nothing more, the pieces are handed to [write] on the standard output one by
    one in that order, and the connection is closed exactly when the last [read] met the
    end of the stream or an error, and kept when it would have blocked.  The process
    aborts exactly when a [write], [fcntl] or [epoll_ctl] failed.  Assumed: failing calls
    return -1, and the clients send and connect at most [K] times. *)
Theorem epoll_event_served {os : OS} fuel K sfd efd ev fd tr :
  fails_with_minus_one → calms_down K → (K < fuel)%nat →
  ends (handle_event fuel sfd efd (ev, fd)) (λ _ w,
    if has_bits ev EPOLLERR || has_bits ev EPOLLHUP || negb (has_bits ev EPOLLIN) then
      ∃ r1 r2, w_trace w = (Close fd, r2) :: (Printf "epoll error" [], r1) :: tr
    else if sfd =? fd then ∃ rs last, all_accepted sfd efd tr (w_trace w) rs last
    else ∃ rs last, drained fd tr (w_trace w) rs last ∧
      ∀ x, fd_balance (w_trace w) x = fd_balance tr x - (if would_block last then 0 else Z.b2z (fd =? x)))
    (aborted tr) (mk_world tr ()).
Proof.
  intros Hk HK Hf. unfold handle_event. destruct (_ || _ || _).
  - e_run. by eexists _, _.
  - destruct (sfd =? fd).
    + by apply (accept_all_ends fuel K Hk HK Hf sfd efd).
    + apply ends_bind. eapply ends_mono; [by apply (read_all_ends fuel K Hk HK Hf fd)|].
      intros closed [tr1 []] (rs & last & Hd & [Ho _] & ->). cbn [w_trace] in *.
      e_run; exists rs, last.
      * split; [by do 2 (apply drained_silent; [done|])|]. intros x. specialize (Ho x). cbn in *.
        destruct (would_block last); [done|]. lia.
      * split; [done|]. intros x. specialize (Ho x). cbn in *. destruct (would_block last); [|done]. lia.
Qed.

(** A client on descriptor 7 sends two bytes, then three, and closes. *)
Definition two_reads_os : OS := λ tr c,
  match c with
  | Read 7 _ =>
      match busy_count tr with
      | 0%nat => mk_reply 2 0 [104; 105] | 1%nat => mk_reply 3 0 [33; 33; 10] | _ => mk_reply 0 0 [] end
  | Write _ b => mk_reply (Z.of_nat (length b)) 0 []
  | Accept _ | Accept4 _ _ | Send _ _ _ | Recvfrom _ _ | Waitpid _ _ => mk_reply (-1) EAGAIN []
  | _ => mk_reply 0 0 []
  end.

Lemma two_reads_kernel : fails_with_minus_one (os := two_reads_os).
Proof. intros tr c. unfold os_answer, two_reads_os. repeat case_match; cbn; lia. Qed.

Lemma two_reads_calm : calms_down (os := two_reads_os) 2.
Proof.
  intros tr c H. unfold os_answer, two_reads_os.
  destruct c; try done; unfold busy, interrupted; cbn; repeat case_match; try done; try lia.
  all: apply orb_false_intro; lia.
Qed.

Lemma epoll_event_served_witness :
  ends (handle_event (os := two_reads_os) 3 5 6 (EPOLLIN, 7)) (λ _ w, ∃ rs last,
    drained 7 [] (w_trace w) rs last ∧
    ∀ x, fd_balance (w_trace w) x = 0 - (if would_block last then 0 else Z.b2z (7 =? x)))
    (aborted []) (mk_world [] ()).
Proof.
  apply (epoll_event_served (os := two_reads_os) 3 2 5 6 EPOLLIN 7 []).
  - exact two_reads_kernel.
  - exact two_reads_calm.
  - lia.
Defined.

(** What the server prints then. *)
Example two_reads_printed :
  match handle_event (os := two_reads_os) 3 5 6 (EPOLLIN, 7) (mk_world [] ()) with
  | Ok _ w => writes 1 (w_trace w) = [[104; 105]; [33; 33; 10]] ∧ fd_balance (w_trace w) 7 = -1
  | _ => False end.
Proof. vm_compute. done. Qed.
