(* ===== verification/EventServer.v ===== *)
(** * The libevent HTTP responder

    Models src/src/networking/server/server.c: a server that answers whatever its clients
    send with a fixed HTTP response, driven by the callbacks of libevent.  The functions
    of libevent are calls to the environment.  The response text and the contents of the
    receive buffer, which the program never looks at, are left out. *)

From Stdlib Require Import ZArith Lia ZifyBool.
From stdpp Require Import base gmap list strings numbers.
From S2P Require Import Prelude Posix.

(** ** server.c *)

Inductive log_sev := LOG_CRIT | LOG_ERR | LOG_INFO | LOG_DEBUG | LOG_LEVEL_MAX.

Definition sev_code (s : log_sev) : Z :=
  match s with LOG_CRIT => 0 | LOG_ERR => 1 | LOG_INFO => 2 | LOG_DEBUG => 3 | LOG_LEVEL_MAX => 4 end.

Definition CONN_BUF_SIZE : Z := 8192.

Record conn_info := mk_conn { ev_read : Z; ev_write : Z }.
Definition sizeof_conn_info : Z := CONN_BUF_SIZE + 8 + 8.

(** [g_sev] and the [conn_info] blocks. *)
Record ev_glob := mk_ev { g_sev : Z; cinfos : gmap Z conn_info }.

Definition EV_READ : Z := 2.
Definition EV_WRITE : Z := 4.
Definition EV_PERSIST : Z := 16.

Section code.
Context {os : OS} (fuel : nat) (resp : list Z).
Abbreviation EV := (M (world ev_glob)).

Definition print_log (sev : log_sev) (fmt : string) : EV unit :=
  g ← get_glob;
  if g_sev g <? sev_code sev then mret tt
  else match sev with
       | LOG_CRIT => sys_ (Printf "CRIT:: " []);; sys_ (Printf fmt [])
       | LOG_ERR => sys_ (Printf "ERR:: " []);; sys_ (Printf fmt [])
       | LOG_INFO => sys_ (Printf "INFO:: " []);; sys_ (Printf fmt [])
       | LOG_DEBUG => sys_ (Printf "DEBUG:: " []);; sys_ (Printf fmt [])
       | LOG_LEVEL_MAX => mret tt
       end.

Definition print_error (str : string) : EV unit := print_log LOG_ERR "%s: err [%d] [%s]".

Definition set_cinfos (f : gmap Z conn_info → gmap Z conn_info) : EV unit :=
  upd_glob (λ g, mk_ev (g_sev g) (f (cinfos g))).
Definition load_cinfo (p : Z) : EV conn_info := g ← get_glob; expect (cinfos g !! p).

Definition event_new (fd what arg : Z) : EV Z := r ← sys (Ext "event_new" [fd; what; arg]); mret (r_ret r).
Definition event_free (ev : Z) : EV unit := sys_ (Ext "event_free" [ev]).
Definition event_add (ev : Z) : EV Z := r ← sys (Ext "event_add" [ev]); mret (r_ret r).

Definition conn_info_new (fd : Z) : EV Z :=
  m ← sys (Malloc sizeof_conn_info);
  let cinfo := r_ret m in
  if cinfo =? NULL then
    print_log LOG_CRIT "Are we under memory pressure?";;
    print_log LOG_CRIT "Cannot get new conn info!";; mret NULL
  else
    er ← event_new fd (Z.lor EV_READ EV_PERSIST) cinfo;
    if er =? NULL then
      print_error "event_new";; sys_ (Free cinfo);;
      print_log LOG_CRIT "Cannot get new conn info!";; mret NULL
    else
      ew ← event_new fd (Z.lor EV_WRITE EV_PERSIST) cinfo;
      if ew =? NULL then
        print_error "event_new";; event_free er;; sys_ (Free cinfo);;
        print_log LOG_CRIT "Cannot get new conn info!";; mret NULL
      else set_cinfos (<[cinfo := mk_conn er ew]>);; mret cinfo.

Definition conn_info_free (cinfo : Z) : EV unit :=
  c ← load_cinfo cinfo;
  event_free (ev_read c);; event_free (ev_write c);;
  sys_ (Free cinfo);; set_cinfos (delete cinfo).

Definition cli_send_cb (fd arg : Z) : EV unit :=
  print_log LOG_DEBUG "%s";;
  sys_ (Send fd resp 0);;
  c ← load_cinfo arg;
  sys_ (Ext "event_del" [ev_write c]).

(** The receive loop leaves with [bytes] and [errno], or [None] when an event could not be
    added. *)
Definition cli_recv_cb (fd cinfo : Z) : EV unit :=
  print_log LOG_DEBUG "%s";;
  last ← loop fuel (λ _,
    c ← load_cinfo cinfo;
    r ← sys (Recv fd CONN_BUF_SIZE 0);
    if r_ret r <=? 0 then mret (inr (Some (r_ret r, r_errno r)))
    else
      print_log LOG_DEBUG "recvd %d bytes from client";;
      a ← event_add (ev_write c);
      if negb (a =? 0) then print_error "event_add";; mret (inr None) else mret (inl tt)) tt;
  match last with
  | None => conn_info_free cinfo;; sys_ (Close fd)
  | Some (bytes, err) =>
      (if bytes =? 0 then
         print_log LOG_DEBUG "conn closed by client";; conn_info_free cinfo;; sys_ (Close fd)
       else mret tt);;
      if bytes <? 0 then
        if err =? EAGAIN then print_log LOG_INFO "Nothing more to read!" else print_error "recv"
      else mret tt
  end.

Definition srvr_accept_cb (fd : Z) : EV unit :=
  print_log LOG_DEBUG "%s";;
  a ← sys (Accept fd);
  let cli_sock := r_ret a in
  let err := print_log LOG_ERR "client conn not processed!";; sys_ (Close cli_sock) in
  if cli_sock <? 0 then print_error "accept";; print_log LOG_CRIT "Couldn't accept client conn!"
  else
    print_log LOG_DEBUG "Accepted client conn [%s : %d]";;
    f ← sys (FcntlSetFL cli_sock O_NONBLOCK);
    if r_ret f <? 0 then print_error "fcntl";; err
    else
      cinfo ← conn_info_new cli_sock;
      if cinfo =? NULL then err
      else
        c ← load_cinfo cinfo;
        e ← event_add (ev_read c);
        if negb (e =? 0) then print_error "event_add";; err else mret tt.

(** [event_base_dispatch] runs the callbacks; here it is the call itself. *)
Definition run_server (ip : string) (port : Z) : EV unit :=
  let err := print_log LOG_CRIT "Cannot start the server!";; exit_with 1 in
  b ← sys (Ext "event_base_new" []);
  if r_ret b =? NULL then print_error "event_base_new";; exit_with 1
  else
    print_log LOG_DEBUG "event base backend method [%s]";;
    s ← sys Socket;
    let srvr_sock := r_ret s in
    if srvr_sock <? 0 then print_error "socket";; err
    else
      sys_ (Setsockopt srvr_sock SOL_SOCKET SO_REUSEADDR [1]);;
      f ← sys (FcntlSetFL srvr_sock O_NONBLOCK);
      if r_ret f <? 0 then print_error "fcntl";; err
      else
        i ← sys (InetAton ip);
        d ← sys (Bind srvr_sock (r_out i !!! 0%nat) (u16 port));
        if r_ret d <? 0 then print_error "bind";; err
        else
          l ← sys (Listen srvr_sock 128);
          if r_ret l <? 0 then print_error "listen";; err
          else
            ev ← event_new srvr_sock (Z.lor EV_READ EV_PERSIST) (r_ret b);
            if ev =? NULL then print_error "event_new";; err
            else
              a ← event_add ev;
              if a <? 0 then print_error "event_add";; err
              else
                r ← sys (Ext "event_base_dispatch" [r_ret b]);
                if r_ret r <? 0 then print_error "event_base_dispatch";; err else mret tt.

(** The log level, the address and the port of the command line. *)
Definition main (argv : option (Z * string * Z)) : EV Z :=
  match argv with
  | None => sys_ (Printf "Usage:" []);; exit_with 1
  | Some (level, ip, port) =>
      upd_glob (λ g, mk_ev (if sev_code LOG_LEVEL_MAX <? level then sev_code LOG_LEVEL_MAX - 1 else level) (cinfos g));;
      run_server ip port;;
      mret 0
  end.

End code.

(** ** What the server owns *)

(** How an event of the history changes the number of libevent events owned under [p]. *)
Definition ev_delta (e : event) (p : Z) : Z :=
  match e.1 with
  | Ext "event_new" _ => Z.b2z (negb (r_ret e.2 =? 0) && (r_ret e.2 =? p))
  | Ext "event_free" [q] => - Z.b2z (q =? p)
  | _ => 0
  end.

Fixpoint ev_balance (tr : list event) (p : Z) : Z :=
  match tr with [] => 0 | e :: tr => ev_delta e p + ev_balance tr p end.

(** Between [tr] and [tr'] the server has become the owner of the descriptors [fds], the
    blocks [ps] and the libevent events [evs] more. *)
Definition owns (tr tr' : list event) (fds ps evs : list Z) : Prop :=
  res_delta tr tr' fds ps ∧ ∀ p, ev_balance tr' p = ev_balance tr p + count p evs.

(** [tr'] follows [tr] and nothing changed hands. *)
Definition hush {os : OS} (tr tr' : list event) : Prop := owns tr tr' [] [] [] ∧ os_ext tr tr'.

Ltac own_solve :=
  repeat match goal with H : hush _ _ |- _ => destruct H as [[[??]?]?] | H : owns _ _ _ _ _ |- _ => destruct H as [[??]?] end;
  split; [split|]; let x := fresh "x" in intros x;
  cbn [fd_balance fd_delta mem_balance mem_delta ev_balance ev_delta count foldr app fst snd w_trace w_glob] in *;
  repeat match goal with
  | H : ∀ _ : Z, fd_balance _ _ = _ |- _ => specialize (H x)
  | H : ∀ _ : Z, mem_balance _ _ = _ |- _ => specialize (H x)
  | H : ∀ _ : Z, ev_balance _ _ = _ |- _ => specialize (H x)
  end; unfold NULL in *; lia.

Ltac hush_ext := repeat match goal with H : hush _ _ |- _ => destruct H as [_ H] end; cbn [w_trace]; ext_solve.
Ltac hush_solve := split; [own_solve|hush_ext].

Section specs.
Context {os : OS} (fuel : nat).
Implicit Types (tr : list event) (g : ev_glob).

Lemma wp_print_log sev fmt tr g (Q : unit → world ev_glob → Prop) :
  (∀ tr', hush tr tr' → Q tt (mk_world tr' g)) → wp (print_log sev fmt) Q (mk_world tr g).
Proof.
  intros HQ. unfold print_log. destruct sev; wp_run; apply HQ; (split; [own_solve|ext_solve]).
Qed.

Ltac ev_step :=
  lazymatch goal with
  | |- wp (print_log _ _) _ _ => apply wp_print_log; let t := fresh "t" in let H := fresh "Hh" in intros t H
  | |- wp (print_error _) _ _ => unfold print_error
  | |- wp (event_new _ _ _) _ _ => unfold event_new
  | |- wp (event_free _) _ _ => unfold event_free
  | |- wp (event_add _) _ _ => unfold event_add
  | |- wp (set_cinfos _) _ _ => unfold set_cinfos
  | _ => wp_sys_step
  end.
Ltac ev_run := repeat ev_step.

Lemma conn_info_new_wp fd tr g :
  wp (conn_info_new fd) (λ cinfo w,
    cinfo = NULL ∧ w_glob w = g ∧ hush tr (w_trace w) ∨
    cinfo ≠ NULL ∧ ∃ er ew, w_glob w = mk_ev (g_sev g) (<[cinfo := mk_conn er ew]> (cinfos g)) ∧
      owns tr (w_trace w) [] [cinfo] [er; ew] ∧ os_ext tr (w_trace w)) (mk_world tr g).
Proof.
  unfold conn_info_new. ev_run; cbn [w_trace w_glob].
  - left. split_and!; [done|done|hush_solve].
  - left. split_and!; [done|done|hush_solve].
  - left. split_and!; [done|done|hush_solve].
  - right. split; [by apply Z.eqb_neq|]. eexists _, _. split_and!; [done|own_solve|hush_ext].
Qed.

Lemma conn_info_free_wp p c tr g : cinfos g !! p = Some c → p ≠ NULL →
  wp (conn_info_free p) (λ _ w, w_glob w = mk_ev (g_sev g) (delete p (cinfos g)) ∧
    owns (w_trace w) tr [] [p] [ev_read c; ev_write c] ∧ os_ext tr (w_trace w)) (mk_world tr g).
Proof.
  intros Hp Hn. unfold conn_info_free, load_cinfo. ev_run. cbn [w_glob]. rewrite Hp. ev_run. cbn [w_trace w_glob].
  split_and!; [done|own_solve|ext_solve].
Qed.

(** What the accept callback may leave. *)
Definition accept_post tr g (w : world ev_glob) : Prop :=
  w_glob w = g ∧ owns tr (w_trace w) [] [] [] ∨
  ∃ p er ew, p ≠ NULL ∧ w_glob w = mk_ev (g_sev g) (<[p := mk_conn er ew]> (cinfos g)) ∧
    ∃ r, (Ext "event_add" [er], r) ∈ w_trace w ∧
    ((∃ fd, 0 ≤ fd ∧ r_ret r = 0 ∧ owns tr (w_trace w) [fd] [p] [er; ew]) ∨
     r_ret r ≠ 0 ∧ owns tr (w_trace w) [] [p] [er; ew]).

Lemma srvr_accept_cb_wp fd tr g : wp (srvr_accept_cb fd) (λ _ w, accept_post tr g w) (mk_world tr g).
Proof.
  unfold srvr_accept_cb. ev_run; cbn [w_trace w_glob].
  - left. split; [done|]. own_solve.
  - left. split; [done|]. own_solve.
  - eapply wp_mono; [apply conn_info_new_wp|]. intros cinfo [tr2 g2]. cbn [w_trace w_glob].
    intros [(-> & -> & Hh9)|(Hn & er & ew & -> & Ho & _)].
    + cbn [Z.eqb NULL]. ev_run. left. split; [done|]. cbn [w_trace]. own_solve.
    + rewrite (proj2 (Z.eqb_neq _ _) Hn). unfold load_cinfo. ev_run. cbn [w_glob cinfos]. rewrite lookup_insert_eq.
      ev_run; cbn [w_trace w_glob]; right; exists cinfo, er, ew; (split; [done|]); (split; [done|]).
      * exists r1. split.
        { apply elem_of_cons. right. repeat match goal with H : hush _ ?t |- _ ∈ ?t =>
            destruct H as [_ H]; apply (os_ext_elem _ _ _ H) end. left. }
        right. split; [lia|own_solve].
      * exists r1. split; [left|]. left. exists (r_ret r). split_and!; [lia|lia|own_solve].
Qed.

Lemma hush_refl tr : hush tr tr.
Proof. split; [own_solve|constructor]. Qed.

(** The connection was kept, or all of it was given back. *)
Definition recv_post fd p c tr g (w : world ev_glob) : Prop :=
  w_glob w = g ∧ owns tr (w_trace w) [] [] [] ∨
  w_glob w = mk_ev (g_sev g) (delete p (cinfos g)) ∧ owns (w_trace w) tr [fd] [p] [ev_read c; ev_write c].

(** Freeing the connection and closing its socket. *)
Lemma release_wp fd p c tr tr1 g (Q : unit → world ev_glob → Prop) :
  cinfos g !! p = Some c → p ≠ NULL → hush tr tr1 → (∀ w, recv_post fd p c tr g w → Q tt w) →
  wp (conn_info_free p) (λ _ w, wp (sys_ (Close fd)) Q w) (mk_world tr1 g).
Proof.
  intros Hp Hn Hh HQ. eapply wp_mono; [by apply conn_info_free_wp|].
  intros _ [tr2 g2]. cbn [w_glob w_trace]. intros (-> & Ho & _). wp_run. apply HQ. right. split; [done|]. own_solve.
Qed.

Lemma cli_recv_cb_wp K fd p c tr g : calms_down K → (K < fuel)%nat → cinfos g !! p = Some c → p ≠ NULL →
  wp (cli_recv_cb fuel fd p) (λ _ w, recv_post fd p c tr g w) (mk_world tr g).
Proof.
  intros HK Hf Hp Hn. unfold cli_recv_cb. ev_run.
  eapply (wp_calm_loop K fuel _ (λ _ w, w_glob w = g ∧ hush tr (w_trace w))); [done|done|done|].
  intros [] [tr1 g1] [Eg Hh1]. cbn [w_trace w_glob] in *. subst g1. unfold load_cinfo. ev_run. cbn [w_glob]. rewrite Hp.
  ev_run; cbn [w_trace w_glob].
  - apply (release_wp _ _ c tr); [done|done|hush_solve|]. intros [tr2 g2] Hw. ev_run; [lia|lia|done].
  - left. split; [done|own_solve].
  - left. split; [done|own_solve].
  - left. split; [done|own_solve].
  - apply (release_wp _ _ c tr); [done|done|hush_solve|done].
  - assert (Hb : os_ext ((Recv fd CONN_BUF_SIZE 0, r) :: tr1) t0) by hush_ext. apply os_ext_busy in Hb.
    split_and!; [done|hush_solve|hush_ext|].
    rewrite busy_count_cons in *. unfold busy at 1 in Hb. cbn [fst snd] in Hb. replace (0 <? r_ret r) with true in Hb by lia.
    rewrite orb_true_r in Hb. lia.
Qed.

End specs.

(** ** Theorems *)

(** What the accept callback owns when it returns.  Either nothing; or one more
    client socket, its block and the block's two events, recorded; or, when libevent
    refuses the read event, the socket is closed while the block and both events stay
    allocated although no callback can reach them. *)
Theorem server_accept_owns {os : OS} fd tr g :
  wp (srvr_accept_cb fd) (λ _ w,
    w_glob w = g ∧ owns tr (w_trace w) [] [] [] ∨
    ∃ p er ew, p ≠ NULL ∧ w_glob w = mk_ev (g_sev g) (<[p := mk_conn er ew]> (cinfos g)) ∧
      ∃ r, (Ext "event_add" [er], r) ∈ w_trace w ∧
      ((∃ cli, 0 ≤ cli ∧ r_ret r = 0 ∧ owns tr (w_trace w) [cli] [p] [er; ew]) ∨
       r_ret r ≠ 0 ∧ owns tr (w_trace w) [] [p] [er; ew]))
    (mk_world tr g).
Proof. apply srvr_accept_cb_wp. Qed.

(** C25: a connection is given back whole.  On a client's recorded connection the receive
    callback neither touches freed memory nor leaks: it keeps everything, or it closes
    the socket and frees the block and both events, once each. *)
Theorem server_recv_releases {os : OS} fuel K fd p c tr g :
  calms_down K → (K < fuel)%nat → cinfos g !! p = Some c → p ≠ NULL →
  wp (cli_recv_cb fuel fd p) (λ _ w,
    w_glob w = g ∧ owns tr (w_trace w) [] [] [] ∨
    w_glob w = mk_ev (g_sev g) (delete p (cinfos g)) ∧
      owns (w_trace w) tr [fd] [p] [ev_read c; ev_write c]) (mk_world tr g).
Proof. apply cli_recv_cb_wp. Qed.

(** The client sends once, then closes. *)
Definition one_request_os : OS := calm_os 1 (λ tr c, match c with Recv _ _ _ => mk_reply 5 0 [] | _ => mk_reply 0 0 [] end).
Definition one_conn : ev_glob := mk_ev 3 {[ 64 := mk_conn 65 66 ]}.

Lemma server_recv_releases_witness :
  wp (cli_recv_cb (os := one_request_os) 2 7 64) (λ _ w,
    w_glob w = one_conn ∨ w_glob w = mk_ev 3 (delete 64 (cinfos one_conn))) (mk_world [] one_conn).
Proof.
  eapply wp_mono; [apply (server_recv_releases (os := one_request_os) 2 1 7 64 (mk_conn 65 66) [] one_conn)|].
  - apply calm_os_calms.
  - lia.
  - reflexivity.
  - done.
  - intros _ w [[? _]|[? _]]; [by left|by right].
Defined.
