(* ===== verification/MongoApi.v ===== *)
(** * The MongoDB API (src/mongo_api/mongo_api.c)

    A wrapper around the MongoDB client library: a context owns a pool of clients, and
    every operation borrows a client, opens a collection, sends one request and gives
    both back.  The client library and the allocator are the class [MONGOC], an
    arbitrary function from the history of calls to the result of the next one, so the
    theorems hold for every server and every failure; they account for the objects
    the library has handed out and say which requests were sent. *)

From Stdlib Require Import ZArith Lia ZifyBool.
From stdpp Require Import base gmap list strings numbers pretty.
From S2P Require Import Prelude ConnMgr.

(** ** Error codes (include/mongo_errors.h) *)

Definition MIN_ERR_CODE : Z := -2000.

Inductive mongo_api_err :=
| MONGO_ERR_NULL_PARAMS | MONGO_ERR_MEM_ALLOC | MONGO_ERR_POOL_PARAMS | MONGO_ERR_URI_NEW
| MONGO_ERR_POOL_NEW | MONGO_ERR_POOL_POP | MONGO_ERR_COLL_GET | MONGO_ERR_COLL_FIND
| MONGO_ERR_COLL_INSERT | MONGO_ERR_COLL_REMOVE | MONGO_ERR_COLL_UPDATE | MONGO_ERR_TTL_INVALID
| MONGO_ERR_COLL_INDEX_CREATE.

#[global] Instance mongo_api_err_dec : EqDecision mongo_api_err.
Proof. solve_decision. Defined.

(** The integer value of an enumerator. *)
Definition mongo_code (e : mongo_api_err) : Z :=
  match e with
  | MONGO_ERR_NULL_PARAMS => MIN_ERR_CODE
  | MONGO_ERR_MEM_ALLOC => MIN_ERR_CODE + 1
  | MONGO_ERR_POOL_PARAMS => MIN_ERR_CODE + 2
  | MONGO_ERR_URI_NEW => MIN_ERR_CODE + 3
  | MONGO_ERR_POOL_NEW => MIN_ERR_CODE + 4
  | MONGO_ERR_POOL_POP => MIN_ERR_CODE + 5
  | MONGO_ERR_COLL_GET => MIN_ERR_CODE + 6
  | MONGO_ERR_COLL_FIND => MIN_ERR_CODE + 7
  | MONGO_ERR_COLL_INSERT => MIN_ERR_CODE + 8
  | MONGO_ERR_COLL_REMOVE => MIN_ERR_CODE + 9
  | MONGO_ERR_COLL_UPDATE => MIN_ERR_CODE + 10
  | MONGO_ERR_TTL_INVALID => MIN_ERR_CODE + 11
  | MONGO_ERR_COLL_INDEX_CREATE => MIN_ERR_CODE + 12
  end.

Definition mongo_err_msg (code : Z) : option string :=
  switch_name mongo_code
    [ (MONGO_ERR_NULL_PARAMS, "MONGO_ERR_NULL_PARAMS");
      (MONGO_ERR_MEM_ALLOC, "MONGO_ERR_MEM_ALLOC");
      (MONGO_ERR_POOL_PARAMS, "MONGO_ERR_POOL_PARAMS");
      (MONGO_ERR_URI_NEW, "MONGO_ERR_URI_NEW");
      (MONGO_ERR_POOL_NEW, "MONGO_ERR_POOL_NEW");
      (MONGO_ERR_POOL_POP, "MONGO_ERR_POOL_POP");
      (MONGO_ERR_COLL_GET, "MONGO_ERR_COLL_GET");
      (MONGO_ERR_COLL_FIND, "MONGO_ERR_COLL_FIND");
      (MONGO_ERR_COLL_INSERT, "MONGO_ERR_COLL_INSERT");
      (MONGO_ERR_COLL_REMOVE, "MONGO_ERR_COLL_REMOVE");
      (MONGO_ERR_TTL_INVALID, "MONGO_ERR_TTL_INVALID");
      (MONGO_ERR_COLL_INDEX_CREATE, "MONGO_ERR_COLL_INDEX_CREATE") ]%string code.

(** ** The client library

    Objects are addresses; 0 is NULL, or the [false] of a failed request.  The calls after
    [free] are those of the test program (MongoTest.v), which share the history. *)

(** The data of an element as the version of the BSON API that the test program was written
    for has it. *)
Unset Elimination Schemes.
Inductive edata :=
| BSON_STRING (s : string) | BSON_INT32 (i : Z) | BSON_DATETIME (utc_ms : Z) | BSON_DOC (doc : Z)
| BSON_ARRAY (arrdata : list edata).
Set Elimination Schemes.

Inductive mcall :=
| mongoc_init
| mongoc_cleanup
| mongoc_uri_new (uri : string)
| mongoc_uri_destroy (uri : Z)
| mongoc_client_pool_new (uri : Z)
| mongoc_client_pool_destroy (pool : Z)
| mongoc_client_pool_pop (pool : Z)
| mongoc_client_pool_push (pool client : Z)
| mongoc_client_get_collection (client : Z) (db coll : string)
| mongoc_collection_destroy (coll : Z)
| mongoc_collection_insert (coll doc : Z)
| mongoc_collection_remove (coll query : Z)
| mongoc_collection_update (coll query update : Z)
| mongoc_index_opt_init
| mongoc_collection_create_index (coll keys expire_after_seconds : Z)
| mongoc_collection_find (coll query : Z)
| mongoc_cursor_next (cursor : Z)
| mongoc_cursor_destroy (cursor : Z)
| malloc (size : Z)
| free (p : Z)
| gettimeofday
| bson_doc_create (elems : list (string * edata))
| bson_to_json (doc : Z)
| bson_doc_destroy (doc : Z)
| bson_err_msg (code : Z)
| printf (fmt : string) (args : list Z)
| pthread_create (i : Z)
| pthread_join (i : Z).

Definition mevent : Type := mcall * Z.

Class MONGOC := mongoc_answer : list mevent → mcall → Z.

(** The history, and the heap of [struct mongo_context_pool]: their field [pool]. *)
Record mworld := mk_mw { m_trace : list mevent; m_ctx : gmap Z Z }.

Definition DEFAULT_MIN_SIZE : Z := 1.
Definition DEFAULT_MAX_SIZE : Z := 10.
Definition DEFAULT_CONN_TIMEOUT : Z := 5000.
Definition DEFAULT_OP_TIMEOUT : Z := 5000.

(** ** The functions *)

Section code.
Context {lib : MONGOC}.
Abbreviation MA := (M mworld).

Definition mcall_ (c : mcall) : MA Z := λ w,
  let r := mongoc_answer (m_trace w) c in Ok r (mk_mw ((c, r) :: m_trace w) (m_ctx w)).

Definition get_pool (mpool : Z) : MA Z := p ← gets (λ w, m_ctx w !! mpool); expect p.
Definition set_ctx (f : gmap Z Z → gmap Z Z) : MA unit := modify (λ w, mk_mw (m_trace w) (f (m_ctx w))).

Definition mongo_api_init : MA unit := mcall_ mongoc_init;; mret tt.
Definition mongo_api_cleanup : MA unit := mcall_ mongoc_cleanup;; mret tt.

(** The four integers that the pointers designate, after the call; the pointers are
    addresses of variables of the caller. *)
Definition mongo_check_pool_params (min_size max_size conn_timeout op_timeout : Z) : Z * (Z * Z * Z * Z) :=
  let min_size := if min_size <=? 0 then DEFAULT_MIN_SIZE else min_size in
  let max_size := if max_size <=? 0 then DEFAULT_MAX_SIZE else max_size in
  let min_size := if max_size <? min_size then max_size else min_size in
  let conn_timeout := if conn_timeout <=? 0 then DEFAULT_CONN_TIMEOUT else conn_timeout in
  let op_timeout := if op_timeout <=? 0 then DEFAULT_OP_TIMEOUT else op_timeout in
  (0, (min_size, max_size, conn_timeout, op_timeout)).

(** The text that [snprintf] formats, and what of it fits in an array of [n] bytes. *)
Definition uri_text (ip : string) (port min_size max_size conn_timeout op_timeout : Z) : string :=
  "mongodb://" +:+ ip +:+ ":" +:+ pretty port +:+ "/?minPoolSize=" +:+ pretty min_size +:+
  "&maxPoolSize=" +:+ pretty max_size +:+ "&connectTimeoutMS=" +:+ pretty conn_timeout +:+
  "socketTimeoutMS=" +:+ pretty op_timeout.

Definition snprintf (n : nat) (s : string) : string := String.substring 0 (n - 1) s.

(** [mpool] is the address of the caller's variable or NULL, and [ip] a string or NULL.
    The result, and what was stored in the variable. *)
Definition mongo_context_pool_init (mpool : Z) (ip : option string)
    (port min_size max_size conn_timeout op_timeout : Z) : MA (Z * option Z) :=
  match ip with
  | None => mret (mongo_code MONGO_ERR_NULL_PARAMS, None)
  | Some ip =>
      if mpool =? NULL then mret (mongo_code MONGO_ERR_NULL_PARAMS, None)
      else
        let '(ret, (min_size, max_size, conn_timeout, op_timeout)) :=
          mongo_check_pool_params min_size max_size conn_timeout op_timeout in
        if ret <? 0 then mret (mongo_code MONGO_ERR_POOL_PARAMS, None)
        else
          let uri := snprintf 2048 (uri_text ip port min_size max_size conn_timeout op_timeout) in
          mongo_uri ← mcall_ (mongoc_uri_new uri);
          if mongo_uri =? NULL then mret (mongo_code MONGO_ERR_URI_NEW, None)
          else
            pool ← mcall_ (mongoc_client_pool_new mongo_uri);
            if pool =? NULL then
              mcall_ (mongoc_uri_destroy mongo_uri);;
              mret (mongo_code MONGO_ERR_POOL_NEW, None)
            else
              p ← mcall_ (malloc 8);
              if p =? NULL then
                mcall_ (mongoc_uri_destroy mongo_uri);;
                mcall_ (mongoc_client_pool_destroy pool);;
                mret (mongo_code MONGO_ERR_MEM_ALLOC, Some p)
              else
                set_ctx (<[p := pool]>);;
                mcall_ (mongoc_uri_destroy mongo_uri);;
                mret (0, Some p)
  end.

(** [mpool] is [None] for a NULL argument and else the value of the variable it points
    to, which becomes NULL. *)
Definition mongo_context_pool_destroy (mpool : option Z) : MA Z :=
  match mpool with
  | None => mret (mongo_code MONGO_ERR_NULL_PARAMS)
  | Some mpool =>
      pool ← get_pool mpool;
      mcall_ (mongoc_client_pool_destroy pool);;
      mcall_ (free mpool);;
      set_ctx (delete mpool);;
      mret 0
  end.

Definition mongo_insert_doc (mpool : Z) (db_name coll_name : option string) (doc : Z) : MA Z :=
  match db_name, coll_name with
  | Some db_name, Some coll_name =>
      if (mpool =? NULL) || (doc =? NULL) then mret (mongo_code MONGO_ERR_NULL_PARAMS)
      else
        pool ← get_pool mpool;
        client ← mcall_ (mongoc_client_pool_pop pool);
        if client =? NULL then mret (mongo_code MONGO_ERR_POOL_POP)
        else
          coll ← mcall_ (mongoc_client_get_collection client db_name coll_name);
          if coll =? NULL then
            mcall_ (mongoc_client_pool_push pool client);;
            mret (mongo_code MONGO_ERR_COLL_GET)
          else
            ok ← mcall_ (mongoc_collection_insert coll doc);
            if ok =? 0 then
              mcall_ (mongoc_client_pool_push pool client);;
              mcall_ (mongoc_collection_destroy coll);;
              mret (mongo_code MONGO_ERR_COLL_INSERT)
            else
              mcall_ (mongoc_client_pool_push pool client);;
              mcall_ (mongoc_collection_destroy coll);;
              mret 0
  | _, _ => mret (mongo_code MONGO_ERR_NULL_PARAMS)
  end.

Definition mongo_doc_remove (mpool : Z) (db_name coll_name : option string) (query : Z) : MA Z :=
  match db_name, coll_name with
  | Some db_name, Some coll_name =>
      if (mpool =? NULL) || (query =? NULL) then mret (mongo_code MONGO_ERR_NULL_PARAMS)
      else
        pool ← get_pool mpool;
        client ← mcall_ (mongoc_client_pool_pop pool);
        if client =? NULL then mret (mongo_code MONGO_ERR_POOL_POP)
        else
          coll ← mcall_ (mongoc_client_get_collection client db_name coll_name);
          if coll =? NULL then
            mcall_ (mongoc_client_pool_push pool client);;
            mret (mongo_code MONGO_ERR_COLL_GET)
          else
            ok ← mcall_ (mongoc_collection_remove coll query);
            if ok =? 0 then
              mcall_ (mongoc_client_pool_push pool client);;
              mcall_ (mongoc_collection_destroy coll);;
              mret (mongo_code MONGO_ERR_COLL_REMOVE)
            else
              mcall_ (mongoc_client_pool_push pool client);;
              mcall_ (mongoc_collection_destroy coll);;
              mret 0
  | _, _ => mret (mongo_code MONGO_ERR_NULL_PARAMS)
  end.

Definition mongo_coll_create_ttl_index (mpool : Z) (db_name coll_name : option string) (keys ttl : Z) : MA Z :=
  match db_name, coll_name with
  | Some db_name, Some coll_name =>
      if (mpool =? NULL) || (keys =? NULL) then mret (mongo_code MONGO_ERR_NULL_PARAMS)
      else if ttl <? 0 then mret (mongo_code MONGO_ERR_TTL_INVALID)
      else
        pool ← get_pool mpool;
        client ← mcall_ (mongoc_client_pool_pop pool);
        if client =? NULL then mret (mongo_code MONGO_ERR_POOL_POP)
        else
          coll ← mcall_ (mongoc_client_get_collection client db_name coll_name);
          if coll =? NULL then
            mcall_ (mongoc_client_pool_push pool client);;
            mret (mongo_code MONGO_ERR_COLL_GET)
          else
            mcall_ mongoc_index_opt_init;;
            ok ← mcall_ (mongoc_collection_create_index coll keys ttl);
            if ok =? 0 then
              mcall_ (mongoc_client_pool_push pool client);;
              mcall_ (mongoc_collection_destroy coll);;
              mret (mongo_code MONGO_ERR_COLL_INDEX_CREATE)
            else
              mcall_ (mongoc_client_pool_push pool client);;
              mcall_ (mongoc_collection_destroy coll);;
              mret 0
  | _, _ => mret (mongo_code MONGO_ERR_NULL_PARAMS)
  end.

Definition mongo_doc_update (mpool : Z) (db_name coll_name : option string) (query update : Z) : MA Z :=
  match db_name, coll_name with
  | Some db_name, Some coll_name =>
      if (mpool =? NULL) || (query =? NULL) || (update =? NULL) then mret (mongo_code MONGO_ERR_NULL_PARAMS)
      else
        pool ← get_pool mpool;
        client ← mcall_ (mongoc_client_pool_pop pool);
        if client =? NULL then mret (mongo_code MONGO_ERR_POOL_POP)
        else
          coll ← mcall_ (mongoc_client_get_collection client db_name coll_name);
          if coll =? NULL then
            mcall_ (mongoc_client_pool_push pool client);;
            mret (mongo_code MONGO_ERR_COLL_GET)
          else
            ok ← mcall_ (mongoc_collection_update coll query update);
            if ok =? 0 then
              mcall_ (mongoc_client_pool_push pool client);;
              mcall_ (mongoc_collection_destroy coll);;
              mret (mongo_code MONGO_ERR_COLL_UPDATE)
            else
              mcall_ (mongoc_client_pool_push pool client);;
              mcall_ (mongoc_collection_destroy coll);;
              mret 0
  | _, _ => mret (mongo_code MONGO_ERR_NULL_PARAMS)
  end.

(** [exists_] is the pointer; the result, and what was stored through it. *)
Definition mongo_doc_exists (mpool : Z) (db_name coll_name : option string) (query exists_ : Z) : MA (Z * option bool) :=
  match db_name, coll_name with
  | Some db_name, Some coll_name =>
      if (mpool =? NULL) || (query =? NULL) || (exists_ =? NULL) then mret (mongo_code MONGO_ERR_NULL_PARAMS, None)
      else
        pool ← get_pool mpool;
        client ← mcall_ (mongoc_client_pool_pop pool);
        if client =? NULL then mret (mongo_code MONGO_ERR_POOL_POP, None)
        else
          coll ← mcall_ (mongoc_client_get_collection client db_name coll_name);
          if coll =? NULL then
            mcall_ (mongoc_client_pool_push pool client);;
            mret (mongo_code MONGO_ERR_COLL_GET, None)
          else
            cursor ← mcall_ (mongoc_collection_find coll query);
            if cursor =? NULL then
              mcall_ (mongoc_client_pool_push pool client);;
              mcall_ (mongoc_collection_destroy coll);;
              mret (mongo_code MONGO_ERR_COLL_FIND, None)
            else
              next ← mcall_ (mongoc_cursor_next cursor);
              let found := negb (next =? 0) in
              mcall_ (mongoc_client_pool_push pool client);;
              mcall_ (mongoc_collection_destroy coll);;
              mcall_ (mongoc_cursor_destroy cursor);;
              mret (0, Some found)
  | _, _ => mret (mongo_code MONGO_ERR_NULL_PARAMS, None)
  end.

End code.

(** ** Accounting for the library's objects *)

Inductive mres :=
| RLib | RDoc (d : Z) | RUri (u : Z) | RPool (p : Z) | RClient (p c : Z) | RColl (c : Z) | RCursor (c : Z) | RBlock (b : Z).

#[global] Instance mres_dec : EqDecision mres.
Proof. solve_decision. Defined.

(** What a call hands out when it succeeds, and what it takes back. *)
Definition acquired (e : mevent) : option mres :=
  match e.1 with
  | mongoc_uri_new _ => if e.2 =? NULL then None else Some (RUri e.2)
  | mongoc_client_pool_new _ => if e.2 =? NULL then None else Some (RPool e.2)
  | mongoc_client_pool_pop p => if e.2 =? NULL then None else Some (RClient p e.2)
  | mongoc_client_get_collection _ _ _ => if e.2 =? NULL then None else Some (RColl e.2)
  | mongoc_collection_find _ _ => if e.2 =? NULL then None else Some (RCursor e.2)
  | malloc _ => if e.2 =? NULL then None else Some (RBlock e.2)
  | mongoc_init => Some RLib
  | bson_doc_create _ => if e.2 <? 0 then None else Some (RDoc e.2)
  | bson_to_json _ => if e.2 <? 0 then None else Some (RBlock e.2)
  | _ => None
  end.

Definition released (e : mevent) : option mres :=
  match e.1 with
  | mongoc_uri_destroy u => Some (RUri u)
  | mongoc_client_pool_destroy p => Some (RPool p)
  | mongoc_client_pool_push p c => Some (RClient p c)
  | mongoc_collection_destroy c => Some (RColl c)
  | mongoc_cursor_destroy c => Some (RCursor c)
  | free b => Some (RBlock b)
  | mongoc_cleanup => Some RLib
  | bson_doc_destroy d => Some (RDoc d)
  | _ => None
  end.

Definition mdelta (e : mevent) (x : mres) : Z :=
  Z.b2z (bool_decide (acquired e = Some x)) - Z.b2z (bool_decide (released e = Some x)).

Fixpoint mbalance (tr : list mevent) (x : mres) : Z :=
  match tr with [] => 0 | e :: tr => mdelta e x + mbalance tr x end.

(** [holds tr tr' l]: what is held after [tr'] and was not after [tr] is exactly [l]. *)
Definition holds (tr tr' : list mevent) (l : list mres) : Prop :=
  ∀ x, mbalance tr' x = mbalance tr x + foldr (λ y n, Z.b2z (bool_decide (Some y = Some x)) + n) 0 l.

Lemma holds_refl tr : holds tr tr [].
Proof. intros x. cbn. lia. Qed.

(** ** The requests that a history sent *)

Definition is_request (e : mevent) : bool :=
  match e.1 with
  | mongoc_collection_insert _ _ | mongoc_collection_remove _ _ | mongoc_collection_update _ _ _
  | mongoc_collection_create_index _ _ _ | mongoc_collection_find _ _ | mongoc_cursor_next _ => true
  | _ => false
  end.

Definition requests (tr : list mevent) : list mevent := filter (λ e, is_request e = true) tr.

(** What a history has printed. *)
Definition lines (tr : list mevent) : list (string * list Z) :=
  omap (λ e, match e.1 with printf fmt args => Some (fmt, args) | _ => None end) tr.

(** ** The five operations *)

Inductive mongo_op :=
| OpInsert (doc : Z) | OpRemove (query : Z) | OpIndex (keys ttl : Z) | OpUpdate (query update : Z)
| OpExists (query exists_ : Z).

Definition run_op {lib : MONGOC} (op : mongo_op) (mpool : Z) (db coll : option string) : M mworld (Z * option bool) :=
  match op with
  | OpInsert doc => r ← mongo_insert_doc mpool db coll doc; mret (r, None)
  | OpRemove query => r ← mongo_doc_remove mpool db coll query; mret (r, None)
  | OpIndex keys ttl => r ← mongo_coll_create_ttl_index mpool db coll keys ttl; mret (r, None)
  | OpUpdate query update => r ← mongo_doc_update mpool db coll query update; mret (r, None)
  | OpExists query exists_ => mongo_doc_exists mpool db coll query exists_
  end.

(** The pointers of an operation. *)
Definition op_pointers (op : mongo_op) : list Z :=
  match op with
  | OpInsert doc => [doc] | OpRemove query => [query] | OpIndex keys _ => [keys]
  | OpUpdate query update => [query; update] | OpExists query exists_ => [query; exists_]
  end.

Definition op_request (op : mongo_op) (coll : Z) : mcall :=
  match op with
  | OpInsert doc => mongoc_collection_insert coll doc
  | OpRemove query => mongoc_collection_remove coll query
  | OpIndex keys ttl => mongoc_collection_create_index coll keys ttl
  | OpUpdate query update => mongoc_collection_update coll query update
  | OpExists query _ => mongoc_collection_find coll query
  end.

Definition op_error (op : mongo_op) : mongo_api_err :=
  match op with
  | OpInsert _ => MONGO_ERR_COLL_INSERT | OpRemove _ => MONGO_ERR_COLL_REMOVE
  | OpIndex _ _ => MONGO_ERR_COLL_INDEX_CREATE | OpUpdate _ _ => MONGO_ERR_COLL_UPDATE
  | OpExists _ _ => MONGO_ERR_COLL_FIND
  end.

(** The steps of an operation that can fail, in a history: borrowing a client, opening a
    collection and the requests. *)
Definition is_step (e : mevent) : bool :=
  match e.1 with
  | mongoc_client_pool_pop _ | mongoc_client_get_collection _ _ _ => true
  | _ => is_request e
  end.

Definition steps (tr : list mevent) : list mevent := filter (λ e, is_step e = true) tr.

(** What an operation with good arguments did, by the step at which it stopped: the
    history before and after, the code it returned and the flag it stored.  Each step
    uses what the one before it returned. *)
Inductive op_outcome (op : mongo_op) (pool : Z) (db coll : string) (tr tr' : list mevent) : Z → option bool → Prop :=
| out_ttl keys ttl : op = OpIndex keys ttl → ttl < 0 → tr' = tr →
    op_outcome op pool db coll tr tr' (mongo_code MONGO_ERR_TTL_INVALID) None
| out_no_client : steps tr' = (mongoc_client_pool_pop pool, NULL) :: steps tr →
    op_outcome op pool db coll tr tr' (mongo_code MONGO_ERR_POOL_POP) None
| out_no_collection client : client ≠ NULL →
    steps tr' = (mongoc_client_get_collection client db coll, NULL) :: (mongoc_client_pool_pop pool, client) :: steps tr →
    op_outcome op pool db coll tr tr' (mongo_code MONGO_ERR_COLL_GET) None
| out_refused client c : client ≠ NULL → c ≠ NULL →
    steps tr' = (op_request op c, 0) :: (mongoc_client_get_collection client db coll, c) ::
      (mongoc_client_pool_pop pool, client) :: steps tr →
    op_outcome op pool db coll tr tr' (mongo_code (op_error op)) None
| out_done client c r : (∀ q e, op ≠ OpExists q e) → client ≠ NULL → c ≠ NULL → r ≠ 0 →
    steps tr' = (op_request op c, r) :: (mongoc_client_get_collection client db coll, c) ::
      (mongoc_client_pool_pop pool, client) :: steps tr →
    op_outcome op pool db coll tr tr' 0 None
| out_found client c cursor n q e : op = OpExists q e → client ≠ NULL → c ≠ NULL → cursor ≠ NULL →
    steps tr' = (mongoc_cursor_next cursor, n) :: (op_request op c, cursor) ::
      (mongoc_client_get_collection client db coll, c) :: (mongoc_client_pool_pop pool, client) :: steps tr →
    op_outcome op pool db coll tr tr' 0 (Some (negb (n =? 0))).

(** The requests of an operation alone. *)
Inductive op_sent (op : mongo_op) (tr tr' : list mevent) : Z → option bool → Prop :=
| sent_ttl keys ttl : op = OpIndex keys ttl → ttl < 0 → tr' = tr →
    op_sent op tr tr' (mongo_code MONGO_ERR_TTL_INVALID) None
| sent_nothing e : e = MONGO_ERR_POOL_POP ∨ e = MONGO_ERR_COLL_GET → requests tr' = requests tr →
    op_sent op tr tr' (mongo_code e) None
| sent_refused coll : requests tr' = (op_request op coll, 0) :: requests tr →
    op_sent op tr tr' (mongo_code (op_error op)) None
| sent_done coll r : (∀ q e, op ≠ OpExists q e) → r ≠ 0 → requests tr' = (op_request op coll, r) :: requests tr →
    op_sent op tr tr' 0 None
| sent_found coll cursor n q e : op = OpExists q e →
    requests tr' = (mongoc_cursor_next cursor, n) :: (op_request op coll, cursor) :: requests tr →
    op_sent op tr tr' 0 (Some (negb (n =? 0))).

Lemma requests_steps tr : requests tr = filter (λ e, is_request e = true) (steps tr).
Proof.
  unfold requests, steps. rewrite list_filter_filter. apply list_filter_iff. intros e. unfold is_step.
  split; [intros He; split; [done|]|by intros [? _]]. by destruct (e.1).
Qed.

Lemma outcome_sent op pool db coll tr tr' code found :
  op_outcome op pool db coll tr tr' code found → op_sent op tr tr' code found.
Proof.
  destruct 1 as [keys ttl ? ? ?|Hs|client _ Hs|client c _ _ Hs|client c r Hop _ _ Hr Hs|client c cursor n q e Hop _ _ _ Hs].
  - by eapply sent_ttl.
  - apply sent_nothing; [by left|]. rewrite (requests_steps tr), (requests_steps tr'), Hs. done.
  - apply sent_nothing; [by right|]. rewrite (requests_steps tr), (requests_steps tr'), Hs. done.
  - apply (sent_refused _ _ _ c). rewrite (requests_steps tr), (requests_steps tr'), Hs. by destruct op.
  - apply (sent_done _ _ _ c r); [done|done|]. rewrite (requests_steps tr), (requests_steps tr'), Hs. by destruct op.
  - eapply (sent_found _ _ _ c cursor n); [done|]. rewrite (requests_steps tr), (requests_steps tr'), Hs. by destruct op.
Qed.

Section specs.
Context {lib : MONGOC}.
Implicit Types (tr : list mevent) (ctx : gmap Z Z).

Lemma wp_mcall c tr ctx (Q : Z → mworld → Prop) :
  (∀ r, r = mongoc_answer tr c → Q r (mk_mw ((c, r) :: tr) ctx)) → wp (mcall_ c) Q (mk_mw tr ctx).
Proof. intros H. by apply H. Qed.

Lemma wp_get_pool mpool pool tr ctx (Q : Z → mworld → Prop) :
  ctx !! mpool = Some pool → Q pool (mk_mw tr ctx) → wp (get_pool mpool) Q (mk_mw tr ctx).
Proof. intros H HQ. unfold get_pool. wp_step. apply wp_gets. cbn. by rewrite H. Qed.

End specs.

(** Run a function, splitting on its conditions and keeping them as hypotheses. *)
Ltac mc_step :=
  lazymatch goal with
  | |- wp (mbind _ _) _ _ => apply wp_bind; cbn beta
  | |- wp (mret _) _ _ => apply wp_ret; cbn beta
  | |- wp (mcall_ _) _ _ => apply wp_mcall; let r := fresh "r" in let Hr := fresh "Hr" in intros r Hr
  | |- wp (get_pool _) _ _ => eapply wp_get_pool; [eassumption|]
  | |- wp (set_ctx _) _ _ => apply wp_modify; cbn [m_trace m_ctx]
  | |- wp (if ?x then _ else _) _ _ => let E := fresh "E" in destruct x eqn:E; try discriminate E
  end.

Ltac mc_run := repeat mc_step.

(** Close a goal on the balance of [x], and a goal [holds tr (e1 :: ... :: tr) l]. *)
Ltac balance_at x :=
  cbn [mbalance m_trace]; unfold mdelta, acquired, released; cbn [fst snd];
  repeat match goal with
    | E : (?y =? NULL) = _ |- context [?y =? NULL] => rewrite E
    | E : (?y <? 0) = _ |- context [?y <? 0] => rewrite E
    end;
  rewrite ?(bool_decide_eq_false_2 (None = Some x)) by done; cbn [foldr Z.b2z]; lia.

Ltac holds_solve := let x := fresh "x" in intros x; balance_at x.

Lemma op_spec {lib : MONGOC} op mpool pool db coll tr ctx :
  ctx !! mpool = Some pool → mpool ≠ NULL → Forall (λ p, p ≠ NULL) (op_pointers op) →
  wp (run_op op mpool (Some db) (Some coll)) (λ r w,
    m_ctx w = ctx ∧ holds tr (m_trace w) [] ∧ lines (m_trace w) = lines tr ∧
    op_outcome op pool db coll tr (m_trace w) r.1 r.2) (mk_mw tr ctx).
Proof.
  intros Hp Hn Hops. destruct op; cbn in Hops; rewrite ?Forall_cons in Hops; destruct_and?;
    cbn [run_op]; unfold mongo_insert_doc, mongo_doc_remove, mongo_coll_create_ttl_index, mongo_doc_update, mongo_doc_exists.
  all: rewrite ?(proj2 (Z.eqb_neq _ _)) by done; cbn [orb].
  all: mc_run; (split; [done|split; [holds_solve|split; [done|]]]); cbn [fst snd m_trace].
  all: repeat match goal with
    | E : (_ =? _) = true |- _ => apply Z.eqb_eq in E; rewrite ?E in *; try clear E
    | E : (_ =? _) = false |- _ => apply Z.eqb_neq in E end.
  all: try (eapply out_ttl; [done|lia|done]).
  all: first [apply out_no_client; reflexivity|eapply out_no_collection; cycle -1; [reflexivity|done]|
    eapply out_found; cycle -1; [reflexivity|done..]|eapply out_done; cycle -1; [reflexivity|done..]|
    match goal with |- op_outcome ?op ?p ?db ?co ?a ?b _ _ => eapply (out_refused op p db co a b); cycle -1; [reflexivity|done..] end].
Qed.

(** ** Theorems *)

(** The names, when no pointer is NULL. *)
Definition args_ok (op : mongo_op) (mpool : Z) (db coll : option string) : option (string * string) :=
  match db, coll with
  | Some db, Some coll => if forallb (λ p, negb (p =? NULL)) (mpool :: op_pointers op) then Some (db, coll) else None
  | _, _ => None
  end.

(** C29: every operation, whatever the library answers, gives back all it has borrowed:
    no client, collection or cursor is held afterwards that was not before, and none is
    given back twice.  A NULL argument is refused without any call, and a negative time to
    live before any.  Otherwise a client is taken from the context's pool, the collection
    of the given database and name opened on it and one request sent to it, each step
    once, in this order and only after the one before it succeeded; the code returned is
    that of the step that failed, or 0.  The existence flag is stored exactly when a
    cursor was obtained, and says whether the cursor then gave a document: a cursor that
    fails gives none, so that a failure there reads as 0 and absent. *)
Theorem mongo_op_complete {lib : MONGOC} op mpool pool db coll tr ctx :
  ctx !! mpool = Some pool →
  wp (run_op op mpool db coll) (λ r w, match args_ok op mpool db coll with
    | Some (db, coll) => m_ctx w = ctx ∧ holds tr (m_trace w) [] ∧ op_outcome op pool db coll tr (m_trace w) r.1 r.2
    | None => r = (mongo_code MONGO_ERR_NULL_PARAMS, None) ∧ w = mk_mw tr ctx end) (mk_mw tr ctx).
Proof.
  intros Hp. unfold args_ok. destruct db as [db|], coll as [coll|]; [|by destruct op..].
  destruct (forallb _ _) eqn:Hops.
  - cbn in Hops. apply andb_true_iff in Hops as [Hn Hops].
    eapply wp_mono; [eapply op_spec; [done|lia|]|by intros r w (? & ? & _ & ?)].
    apply Forall_forall. intros p Hin. apply list_elem_of_In in Hin. rewrite forallb_forall in Hops.
    specialize (Hops p Hin). lia.
  - destruct op; cbn in Hops; rewrite ?andb_true_r in Hops; cbn [run_op];
      unfold mongo_insert_doc, mongo_doc_remove, mongo_coll_create_ttl_index, mongo_doc_update, mongo_doc_exists.
    all: match goal with |- context [if ?c then mret _ else _] => replace c with true by lia end; by mc_run.
Qed.

(** Nothing was printed and no request sent. *)
Definition same_io (tr tr' : list mevent) : Prop := lines tr' = lines tr ∧ requests tr' = requests tr.

Lemma pool_init_spec {lib : MONGOC} mpool ip port min max ct ot tr ctx :
  wp (mongo_context_pool_init mpool ip port min max ct ot) (λ r w, same_io tr (m_trace w) ∧
    ((r.1 < 0 ∧ is_Some (mongo_err_msg r.1) ∧ m_ctx w = ctx ∧ holds tr (m_trace w) []) ∨
    ∃ p pool, r = (0, Some p) ∧ p ≠ NULL ∧ m_ctx w = <[p := pool]> ctx ∧ holds tr (m_trace w) [RPool pool; RBlock p])) (mk_mw tr ctx).
Proof.
  unfold mongo_context_pool_init, mongo_check_pool_params.
  destruct ip as [ip|]; [|split; [done|]; left; split; [done|split; [by eexists|split; [done|holds_solve]]]].
  mc_run; (split; [done|]); try (left; split; [done|split; [by eexists|split; [done|holds_solve]]]).
  right. eexists _, _. split; [done|]. split; [by apply Z.eqb_neq|]. split; [done|holds_solve].
Qed.

Lemma context_destroy_spec {lib : MONGOC} p pool tr ctx : ctx !! p = Some pool →
  wp (mongo_context_pool_destroy (Some p)) (λ ret w, ret = 0 ∧ m_ctx w = delete p ctx ∧ same_io tr (m_trace w) ∧
    ∀ x, mbalance (m_trace w) x = mbalance tr x - Z.b2z (bool_decide (Some (RPool pool) = Some x)) - Z.b2z (bool_decide (Some (RBlock p) = Some x)))
    (mk_mw tr ctx).
Proof. intros Hp. unfold mongo_context_pool_destroy. mc_run. split; [done|]. split; [done|]. split; [done|]. holds_solve. Qed.

(** Creating a context returns 0 and holds exactly one new pool of clients and the
    block of the context, or returns an error code and holds nothing; destroying the
    context it made gives both back.  On every path the URI object is
    destroyed. *)
Theorem mongo_context_lifecycle {lib : MONGOC} mpool ip port min max ct ot tr ctx :
  wp (mongo_context_pool_init mpool ip port min max ct ot) (λ r w,
    (r.1 < 0 ∧ is_Some (mongo_err_msg r.1) ∧ m_ctx w = ctx ∧ holds tr (m_trace w) []) ∨
    ∃ p pool, r = (0, Some p) ∧ p ≠ NULL ∧ m_ctx w = <[p := pool]> ctx ∧ holds tr (m_trace w) [RPool pool; RBlock p] ∧
      wp (mongo_context_pool_destroy (Some p)) (λ ret w',
        ret = 0 ∧ m_ctx w' = delete p ctx ∧ holds tr (m_trace w') []) w) (mk_mw tr ctx).
Proof.
  eapply wp_mono; [apply pool_init_spec|]. intros r [tr' ctx'] (_ & [?|(p & pool & Hr & Hp & Hc & Hh)]); [by left|right].
  cbn in Hc, Hh. subst ctx'. eexists _, _. split; [done|]. split; [done|]. split; [done|]. split; [done|].
  eapply wp_mono; [eapply context_destroy_spec, lookup_insert_eq|]. intros ret w (-> & -> & _ & Hb).
  split; [done|]. split; [apply delete_insert_eq|]. intros x. rewrite Hb, Hh. cbn. lia.
Qed.

(** Parameters in range are left alone. *)
Lemma params_kept min max ct ot : 1 ≤ min ≤ max → 0 < ct → 0 < ot →
  mongo_check_pool_params min max ct ot = (0, (min, max, ct, ot)).
Proof.
  intros. unfold mongo_check_pool_params.
  rewrite (proj2 (Z.leb_gt min 0)), (proj2 (Z.leb_gt max 0)), (proj2 (Z.leb_gt ct 0)), (proj2 (Z.leb_gt ot 0)) by lia.
  by rewrite (proj2 (Z.ltb_ge max min)) by lia.
Qed.

(** The parameters of a pool are repaired: the sizes end up with 1 <= min <= max and
    the timeouts positive, parameters that are already so are kept, and repairing twice
    changes nothing. *)
Theorem pool_params_repaired min max ct ot :
  let '(ret, (min', max', ct', ot')) := mongo_check_pool_params min max ct ot in
  ret = 0 ∧ 1 ≤ min' ≤ max' ∧ 0 < ct' ∧ 0 < ot' ∧
  (1 ≤ min ≤ max → min' = min) ∧ (0 < max → max' = max) ∧ (0 < ct → ct' = ct) ∧ (0 < ot → ot' = ot) ∧
  mongo_check_pool_params min' max' ct' ot' = (0, (min', max', ct', ot')).
Proof.
  destruct (mongo_check_pool_params min max ct ot) as [ret [[[min' max'] ct'] ot']] eqn:E.
  unfold mongo_check_pool_params, DEFAULT_MIN_SIZE, DEFAULT_MAX_SIZE, DEFAULT_CONN_TIMEOUT, DEFAULT_OP_TIMEOUT in E.
  assert (1 ≤ min' ≤ max' ∧ 0 < ct' ∧ 0 < ot') as (? & ? & ?)
    by (simplify_eq; repeat case_match; lia).
  rewrite params_kept by done. simplify_eq. split_and!; repeat case_match; try done; lia.
Qed.

(** Every code of the API has a message of its own name, except the code of a failed
    update, which has none. *)
Lemma mongo_err_msg_cases e :
  mongo_err_msg (mongo_code e) = None ↔ e = MONGO_ERR_COLL_UPDATE.
Proof. by destruct e. Qed.

(** The text of the URI: no separator between the last two options. *)
Example uri_default : uri_text "10.0.0.1" 27017 1 10 5000 5000 =
  "mongodb://10.0.0.1:27017/?minPoolSize=1&maxPoolSize=10&connectTimeoutMS=5000socketTimeoutMS=5000".
Proof. reflexivity. Qed.

(** ** A concrete library: every call succeeds, the collection holds one document *)

Definition demo_lib : MONGOC := λ tr c, 1 + Z.of_nat (length tr).

Lemma mongo_op_complete_witness :
  wp (run_op (lib := demo_lib) (OpExists 9 10) 5 (Some "db") (Some "coll")) (λ r w,
    m_ctx w = {[5 := 7]} ∧ holds [] (m_trace w) [] ∧ op_outcome (OpExists 9 10) 7 "db" "coll" [] (m_trace w) r.1 r.2)
    (mk_mw [] {[5 := 7]}).
Proof. apply (mongo_op_complete (lib := demo_lib) (OpExists 9 10) 5 7 (Some "db") (Some "coll")). apply lookup_singleton_eq. Defined.

Example exists_run : ∃ w,
  mongo_doc_exists (lib := demo_lib) 5 (Some "db") (Some "coll") 9 10 (mk_mw [] {[5 := 7]}) = Ok (0, Some true) w ∧
  requests (m_trace w) = [(mongoc_cursor_next 3, 4); (mongoc_collection_find 2 9, 3)].
Proof. eexists. split; [vm_compute; reflexivity|reflexivity]. Qed.
