(* ===== verification/Supervisor.v ===== *)
(** * The process supervisor (src/system/waitForChild/waitforchild.c)

    A parent starts two children, waits for them and is meant to restart the ones that
    end (its handler of SIGCHLD prevents it); an interrupt is passed on to the children.  Signal handlers run when the kernel
    delivers a signal: the class [SIGNALS] says which signals arrive while a call is
    under way, and they are handled, according to the dispositions the program has
    installed, before the call's result is looked at. *)

From Stdlib Require Import ZArith Lia ZifyBool.
From stdpp Require Import base gmap list strings numbers.
From S2P Require Import Prelude Posix.

Definition NUM_CHILD : Z := 2.
Definition ON : Z := 1.
Definition OFF : Z := 0.
Definition SIGINT : Z := 2.
Definition SIGCHLD : Z := 17.

Record ChildTable := mk_child { pid : Z; state : Z }.

Inductive disposition := SIG_DFL | parent_handler | child_handler.

Record sv_glob := mk_sv {
  gChildTable : list ChildTable;
  gExitFlag : Z;
  on_int : disposition;
  on_chld : disposition }.

(** The signals delivered by the end of a history. *)
Class SIGNALS := pending : list event → list Z.

Section code.
Context {os : OS} {signals : SIGNALS} (fuel : nat).
Abbreviation SV := (M (world sv_glob)).

Definition set_table (t : list ChildTable) : SV unit :=
  upd_glob (λ g, mk_sv t (gExitFlag g) (on_int g) (on_chld g)).
Definition set_exit_flag (n : Z) : SV unit :=
  upd_glob (λ g, mk_sv (gChildTable g) n (on_int g) (on_chld g)).
Definition set_disposition (sig : Z) (d : disposition) : SV unit :=
  upd_glob (λ g, mk_sv (gChildTable g) (gExitFlag g) (if sig =? SIGINT then d else on_int g)
    (if sig =? SIGCHLD then d else on_chld g)).

Definition get_child (i : Z) : SV ChildTable :=
  g ← get_glob; expect (if 0 <=? i then gChildTable g !! Z.to_nat i else None).
Definition set_child (i : Z) (c : ChildTable) : SV unit :=
  get_child i;; g ← get_glob; set_table (<[Z.to_nat i := c]> (gChildTable g)).

(** [raise] of a signal whose disposition is the default one ends the process once its
    handler returns. *)
Definition raise_default (signum : Z) : SV unit :=
  sys_ (SignalDfl signum);; sys_ (Raise signum);; exit_with (128 + signum).

Definition parentSignalHandler (signum : Z) : SV unit :=
  sys_ (Printf "%s : Received signal [%d] [%s] in parent [%d]!!!" [signum]);;
  set_exit_flag 1;;
  if signum =? SIGCHLD then
    sys_ (Printf "%s : SIGCHLD received si_code [%d] si_pid [%d] !!!" [])
  else
    for_range (Z.to_nat NUM_CHILD) 0 (λ i _,
      c ← get_child i;
      sys_ (Printf "%s : Sending signal [%d] [%s] to child [%d]" [signum; pid c]);;
      if state c =? ON then
        ret ← sys (Kill (pid c) signum);
        if r_ret ret <? 0 then sys_ (Printf "%s : Error [%d] [%s] in kill !!!" [r_errno ret]) else mret tt
      else mret tt) tt;;
    raise_default signum.

Definition childSignalHandler (signum : Z) : SV unit :=
  sys_ (Printf "%s : Received signal [%d] [%s] in child [%d]!!!" [signum]);;
  set_exit_flag 1;;
  raise_default signum.

(** The kernel runs the handler of a delivered signal; by default SIGINT ends the
    process and SIGCHLD is ignored. *)
Definition deliver (signum : Z) : SV unit :=
  g ← get_glob;
  match (if signum =? SIGCHLD then on_chld g else on_int g) with
  | parent_handler => parentSignalHandler signum
  | child_handler => childSignalHandler signum
  | SIG_DFL => if signum =? SIGCHLD then mret tt else exit_with (128 + signum)
  end.

Fixpoint deliver_all (sigs : list Z) : SV unit :=
  match sigs with [] => mret tt | s :: sigs => deliver s;; deliver_all sigs end.

(** A call during which signals may arrive. *)
Definition isys (c : call) : SV reply :=
  r ← sys c;
  sigs ← gets (λ w, pending (w_trace w));
  deliver_all sigs;;
  mret r.

Definition register (signum : Z) (name : string) (d : disposition) : SV Z :=
  r ← isys (Sigaction signum name);
  (if r_ret r <? 0 then mret tt else set_disposition signum d);;
  mret (r_ret r).

Definition childProcess : SV unit :=
  ret ← register SIGINT "childSignalHandler" child_handler;
  if ret <? 0 then
    isys (Printf "%s : Error in registering child signal handler !!!" []);; exit_with 1
  else
    loop fuel (λ _,
      isys (Printf "Hi, Welcome aboard on Flight Number [%d]" []);;
      isys (Sleep 5);;
      mret (inl tt)) tt.

Definition restartChild (index : Z) : SV Z :=
  if (index <? 0) || (NUM_CHILD <=? index) then
    isys (Printf "%s : INVALID params received !!!" []);; mret (-1)
  else
    isys (Printf "%s : Restarting Process at Index [%d]" [index]);;
    f ← isys Fork;
    if r_ret f <? 0 then
      isys (Printf "%s : Error [%d] [%s] in fork !!!" [r_errno f]);;
      set_child index (mk_child 0 OFF);;
      mret (-1)
    else if r_ret f =? 0 then childProcess;; mret 0
    else
      isys (Printf "%s : Created Child Process with pid [%d]" [r_ret f]);;
      set_child index (mk_child (r_ret f) ON);;
      mret 0.

Definition wait_round (fn_ptr : Z → SV Z) : SV (unit + Z) :=
  r ← isys (Waitpid (-1) WUNTRACED);
  if r_ret r =? 0 then mret (inr 0)
  else
    g ← get_glob;
    if negb (gExitFlag g =? 0) then isys (Printf "DEVLOG : hahaha !!!" []);; mret (inl tt)
    else if r_ret r =? -1 then
      if r_errno r =? EINTR then mret (inl tt) else mret (inr 0)
    else
      for_range (Z.to_nat NUM_CHILD) 0 (λ i _,
        c ← get_child i;
        if (r_ret r =? pid c) && (state c =? ON) then fn_ptr i;; mret tt else mret tt) tt;;
      mret (inl tt).

Definition waitForChild (fn_ptr : Z → SV Z) : SV Z :=
  g ← get_glob;
  if gExitFlag g =? 1 then mret 0
  else loop fuel (λ _, wait_round fn_ptr) tt.

(** The loop of [main] that creates the children. *)
Definition create_child (i : Z) : SV unit :=
  f ← isys Fork;
  (if r_ret f <? 0 then
     isys (Printf "%s : Error [%d] [%s] in fork !!!" [r_errno f]);;
     set_child i (mk_child 0 OFF)
   else if r_ret f =? 0 then childProcess
   else
     isys (Printf "%s : Created Child Process with pid [%d]" [r_ret f]);;
     set_child i (mk_child (r_ret f) ON));;
  isys (Sleep 2);;
  mret tt.

(** The result of the first [sigaction] is overwritten. *)
Definition main : SV Z :=
  register SIGINT "parentSignalHandler" parent_handler;;
  ret ← register SIGCHLD "parentSignalHandler" parent_handler;
  if ret <? 0 then
    isys (Printf "%s : Error in registering parent signal handler !!!" []);; exit_with 1
  else
    for_range (Z.to_nat NUM_CHILD) 0 (λ i _, create_child i) tt;;
    waitForChild restartChild;;
    mret 0.

End code.

(** ** The table *)

(** What is recorded for the result of a fork. *)
Definition recorded (f : Z) : ChildTable := if f <? 0 then mk_child 0 OFF else mk_child f ON.

(** A running child has a pid, the entry of a child that could not be started is empty. *)
Definition child_ok (c : ChildTable) : Prop := (state c = ON ∧ 0 < pid c) ∨ c = mk_child 0 OFF.

Definition table_ok (t : list ChildTable) : Prop := length t = Z.to_nat NUM_CHILD ∧ Forall child_ok t.

Lemma recorded_ok f : f ≠ 0 → child_ok (recorded f).
Proof. intros. unfold recorded. destruct (Z.ltb_spec f 0); [by right|left; cbn; split; [done|lia]]. Qed.

(** The entry is the child that was reaped. *)
Definition reaped (p : Z) (c : ChildTable) : bool := (p =? pid c) && (state c =? ON).

(** The table after [p] was reaped: its entries hold the results of new forks, made
    between [tr] and [tr']; the others are as before. *)
Definition restarted (p : Z) (tr tr' : list event) (t t' : list ChildTable) : Prop :=
  length t' = length t ∧ (Forall child_ok t → Forall child_ok t') ∧ ∃ new, tr' = new ++ tr ∧
  ∀ i c, t !! i = Some c →
    if reaped p c then ∃ f, (Fork, f) ∈ new ∧ t' !! i = Some (recorded (r_ret f)) else t' !! i = Some c.

(** The same for the entries below [k] only. *)
Definition restarted_upto (k : nat) (p : Z) (tr tr' : list event) (t t' : list ChildTable) : Prop :=
  length t' = length t ∧ (Forall child_ok t → Forall child_ok t') ∧ ∃ new, tr' = new ++ tr ∧
  ∀ i c, t !! i = Some c →
    if bool_decide (i < k)%nat && reaped p c then ∃ f, (Fork, f) ∈ new ∧ t' !! i = Some (recorded (r_ret f))
    else t' !! i = Some c.

Lemma upto_start p tr t : restarted_upto 0 p tr tr t t.
Proof. split_and!; try done. exists []. split; [done|]. intros i c Hc. by rewrite bool_decide_eq_false_2 by lia. Qed.

Lemma upto_next k p tr tr' t t' c : restarted_upto k p tr tr' t t' → t !! k = Some c → t' !! k = Some c.
Proof. intros (_ & _ & new & _ & H) Hc. specialize (H _ _ Hc). by rewrite bool_decide_eq_false_2 in H by lia. Qed.

Lemma upto_step k i : i ≠ k → bool_decide (i < S k)%nat = bool_decide (i < k)%nat.
Proof. intros. apply bool_decide_ext. lia. Qed.

Lemma upto_keep k p tr tr' t t' c : restarted_upto k p tr tr' t t' → t !! k = Some c → reaped p c = false →
  restarted_upto (S k) p tr tr' t t'.
Proof.
  intros (Hl & Hok & new & Htr & H) Hc Er. split_and!; [done|done|]. exists new. split; [done|].
  intros i ci Hci. specialize (H _ _ Hci). destruct (decide (i = k)) as [->|Hne].
  - assert (ci = c) as -> by congruence. rewrite Er, andb_false_r in *. done.
  - by rewrite upto_step.
Qed.

Lemma upto_restart k p tr tr' t t' c new f :
  restarted_upto k p tr tr' t t' → t !! k = Some c → reaped p c = true → (Fork, f) ∈ new → r_ret f ≠ 0 →
  restarted_upto (S k) p tr (new ++ tr') t (<[k := recorded (r_ret f)]> t').
Proof.
  intros (Hl & Hok & new' & -> & H) Hc Er Hf Hf0.
  split_and!; [by rewrite length_insert|intros; apply Forall_insert; [auto|by apply recorded_ok]|].
  exists (new ++ new'). rewrite app_assoc. split; [done|]. intros i ci Hci. specialize (H _ _ Hci).
  destruct (decide (i = k)) as [->|Hne].
  - assert (ci = c) as -> by congruence. rewrite bool_decide_eq_true_2, Er by lia.
    exists f. split; [set_solver|]. apply list_lookup_insert_eq. apply lookup_lt_Some in Hc. lia.
  - rewrite upto_step, list_lookup_insert_ne by done. destruct (_ && _); [|done].
    destruct H as (f' & Hin & Ht). exists f'. split; [set_solver|done].
Qed.

Lemma upto_all k p tr tr' t t' : (length t ≤ k)%nat → restarted_upto k p tr tr' t t' → restarted p tr tr' t t'.
Proof.
  intros Hk (Hl & Hok & new & Htr & H). split_and!; [done|done|]. exists new. split; [done|]. intros i c Hc.
  specialize (H _ _ Hc). apply lookup_lt_Some in Hc as Hlt. by rewrite bool_decide_eq_true_2 in H by lia.
Qed.

Definition same_but_table (g g' : sv_glob) : Prop :=
  gExitFlag g' = gExitFlag g ∧ on_int g' = on_int g ∧ on_chld g' = on_chld g.

Section quiet.
Context {os : OS} {signals : SIGNALS} (fuel : nat).
Context (Hquiet : ∀ tr, pending tr = []) (Hfork : ∀ tr, r_ret (os_answer tr Fork) ≠ 0).
Implicit Types (tr : list event) (g : sv_glob).

Lemma wp_isys c tr g (Q : reply → world sv_glob → Prop) :
  (∀ r, r = os_answer tr c → Q r (mk_world ((c, r) :: tr) g)) → wp (isys c) Q (mk_world tr g).
Proof.
  intros H. unfold isys. apply wp_bind, wp_sys. intros r Hr. wp_step. apply wp_gets. cbn [w_trace].
  rewrite Hquiet. by apply H.
Qed.

Lemma wp_get_child i c tr g (Q : ChildTable → world sv_glob → Prop) :
  0 ≤ i → gChildTable g !! Z.to_nat i = Some c → Q c (mk_world tr g) → wp (get_child i) Q (mk_world tr g).
Proof.
  intros Hi Hc HQ. unfold get_child. wp_step. apply wp_get_glob. rewrite (proj2 (Z.leb_le _ _) Hi), Hc. done.
Qed.

Lemma wp_set_child i c c' tr g (Q : unit → world sv_glob → Prop) :
  0 ≤ i → gChildTable g !! Z.to_nat i = Some c' →
  Q tt (mk_world tr (mk_sv (<[Z.to_nat i := c]> (gChildTable g)) (gExitFlag g) (on_int g) (on_chld g))) →
  wp (set_child i c) Q (mk_world tr g).
Proof. intros Hi Hc HQ. unfold set_child. wp_step. by eapply wp_get_child. Qed.

Lemma restart_wp i c tr g : 0 ≤ i < NUM_CHILD → gChildTable g !! Z.to_nat i = Some c →
  wp (restartChild fuel i) (λ _ w, ∃ new f, w_trace w = new ++ tr ∧ (Fork, f) ∈ new ∧ r_ret f ≠ 0 ∧
    w_glob w = mk_sv (<[Z.to_nat i := recorded (r_ret f)]> (gChildTable g)) (gExitFlag g) (on_int g) (on_chld g))
    (mk_world tr g).
Proof.
  intros Hi Hc. unfold restartChild. replace ((i <? 0) || (NUM_CHILD <=? i)) with false by lia.
  apply wp_bind, wp_isys. intros r0 _. apply wp_bind, wp_isys. intros f Hf.
  specialize (Hfork ((Printf "%s : Restarting Process at Index [%d]" [i], r0) :: tr)). rewrite <- Hf in Hfork.
  unfold recorded. destruct (r_ret f <? 0) eqn:E1; [|rewrite (proj2 (Z.eqb_neq _ _) Hfork)].
  all: apply wp_bind, wp_isys; intros r1 _; apply wp_bind; eapply wp_set_child; [lia|exact Hc|]; apply wp_ret.
  all: eexists [_; _; _], f; rewrite ?E1; split_and!; [reflexivity| |done|done]; right; left.
Qed.

(** The loop over the table. *)
Lemma restart_all_wp p tr g : length (gChildTable g) = Z.to_nat NUM_CHILD →
  wp (for_range (Z.to_nat NUM_CHILD) 0 (λ i _, c ← get_child i;
        if (p =? pid c) && (state c =? ON) then restartChild fuel i;; mret tt else mret tt) tt)
    (λ _ w, restarted p tr (w_trace w) (gChildTable g) (gChildTable (w_glob w)) ∧ same_but_table g (w_glob w)) (mk_world tr g).
Proof.
  intros Hlen. eapply wp_mono; [apply (wp_for_range (λ k _ w,
    restarted_upto (Z.to_nat k) p tr (w_trace w) (gChildTable g) (gChildTable (w_glob w)) ∧ same_but_table g (w_glob w)))|].
  - split; [by apply upto_start|done].
  - intros k [] [tr1 g1] Hk [Hup Hsame]. cbn [w_trace w_glob] in *.
    replace (Z.to_nat (k + 1)) with (S (Z.to_nat k)) by lia.
    assert (is_Some (gChildTable g !! Z.to_nat k)) as [c Hc] by (apply lookup_lt_is_Some; lia).
    pose proof (upto_next _ _ _ _ _ _ _ Hup Hc) as Hc1.
    apply wp_bind. eapply wp_get_child; [lia|exact Hc1|]. fold (reaped p c). destruct (reaped p c) eqn:Er.
    + apply wp_bind. eapply wp_mono; [by eapply restart_wp|]. intros _ [tr2 g2] (new & f & Htr & Hf & Hf0 & Hg).
      cbn [w_trace w_glob] in *. subst g2 tr2. apply wp_ret. split; [by eapply upto_restart|done].
    + apply wp_ret. split; [by eapply upto_keep|done].
  - intros [] w [Hup Hsame]. split; [|done]. eapply upto_all; [|exact Hup]. lia.
Qed.

End quiet.

(** A run of the supervisor, abstractly: waits one after the other, each of which leaves
    the table alone or replaces the entries of the child that was reaped. *)
Abbreviation wait_call := (Waitpid (-1) WUNTRACED).

Inductive supervised {os : OS} (tr : list event) (t : list ChildTable) : list event → list ChildTable → Prop :=
| sup_start : supervised tr t tr t
| sup_wait tr1 t1 r : supervised tr t tr1 t1 → r = os_answer tr1 wait_call → r_ret r ≤ 0 →
    supervised tr t ((wait_call, r) :: tr1) t1
| sup_reap tr1 t1 r tr2 t2 : supervised tr t tr1 t1 → r = os_answer tr1 wait_call → 0 < r_ret r →
    restarted (r_ret r) ((wait_call, r) :: tr1) tr2 t1 t2 → supervised tr t tr2 t2.

Section supervision.
Context {os : OS} {signals : SIGNALS} (fuel : nat).
Context (Hquiet : ∀ tr, pending tr = []) (Hfork : ∀ tr, r_ret (os_answer tr Fork) ≠ 0).
Context (Hwait : ∀ tr, -1 ≤ r_ret (os_answer tr wait_call)).
Implicit Types (tr : list event) (g : sv_glob).

(** One round of the loop. *)
Lemma wait_round_wp tr0 t0 tr g : gExitFlag g = 0 → table_ok (gChildTable g) → supervised tr0 t0 tr (gChildTable g) →
  wp (wait_round (restartChild fuel)) (λ res w,
    gExitFlag (w_glob w) = 0 ∧ table_ok (gChildTable (w_glob w)) ∧ supervised tr0 t0 (w_trace w) (gChildTable (w_glob w)) ∧
    match res with
    | inl _ => ∃ new, w_trace w = new ++ (wait_call, os_answer tr wait_call) :: tr ∧ busy (wait_call, os_answer tr wait_call) = true
    | inr ret => ret = 0 end) (mk_world tr g).
Proof.
  intros Hflag [Hlen Hok] Hsup. unfold wait_round. apply wp_bind, wp_isys; [done|]. intros r Hr.
  specialize (Hwait tr). rewrite <- Hr in Hwait |- *.
  destruct (r_ret r =? 0) eqn:E0. { apply wp_ret. split_and!; try done. eapply sup_wait; [done|done|lia]. }
  apply wp_bind, wp_get_glob. rewrite Hflag. cbn [negb]. change (negb (0 =? 0)) with false. cbv iota.
  destruct (r_ret r =? -1) eqn:E1.
  - destruct (r_errno r =? EINTR) eqn:E2; apply wp_ret;
      (split_and!; try done; try (eapply sup_wait; [done|done|lia])).
    exists []. split; [done|]. unfold busy, interrupted. cbn. lia.
  - apply wp_bind. eapply wp_mono; [by apply restart_all_wp|].
    intros [] [tr2 g2] [Hre (Hf & _ & _)]. cbn [w_trace w_glob] in *. apply wp_ret.
    cbn [w_trace w_glob]. split; [congruence|]. split; [|split].
    + destruct Hre as (Hl & Hok2 & _). split; [congruence|by apply Hok2].
    + eapply sup_reap; [done|done|lia|done].
    + destruct Hre as (_ & _ & new & -> & _). exists new. split; [done|]. unfold busy. cbn. lia.
Qed.

End supervision.

Lemma busy_count_app l k : busy_count (l ++ k) = (busy_count l + busy_count k)%nat.
Proof. unfold busy_count. by rewrite list.filter_app, length_app. Qed.

(** The loop by itself, where no signal arrives, does what it is for, for every behaviour
    of the kernel that eventually has no more children to report: [waitForChild]
    returns 0, every child of the table that was reaped has been replaced by a new
    fork at the same index (or its entry emptied, if the fork failed), the other
    entries were never touched, and the table is well formed all along.  The program
    never runs it so: see [sigchld_stops_supervision] and [signals_obeyed] for what its
    handler of SIGCHLD makes of it. *)
Theorem supervisor_restarts {os : OS} {signals : SIGNALS} fuel K tr g :
  (∀ tr, pending tr = []) → (∀ tr, r_ret (os_answer tr Fork) ≠ 0) → (∀ tr, -1 ≤ r_ret (os_answer tr wait_call)) →
  calms_down K → (K < fuel)%nat → gExitFlag g = 0 → table_ok (gChildTable g) →
  wp (waitForChild fuel (restartChild fuel)) (λ ret w, ret = 0 ∧ table_ok (gChildTable (w_glob w)) ∧
    supervised tr (gChildTable g) (w_trace w) (gChildTable (w_glob w))) (mk_world tr g).
Proof.
  intros Hq Hf Hw HK Hfuel Hflag Hok. unfold waitForChild. apply wp_bind, wp_get_glob. rewrite Hflag.
  change (0 =? 1) with false. cbv iota.
  apply (wp_loop (λ _ w, gExitFlag (w_glob w) = 0 ∧ table_ok (gChildTable (w_glob w)) ∧
    supervised tr (gChildTable g) (w_trace w) (gChildTable (w_glob w))) (λ _ w, (K - busy_count (w_trace w))%nat)).
  - intros [] [tr1 g1] (Hf1 & Hok1 & Hs1). cbn [w_trace w_glob] in *.
    eapply wp_mono; [by apply wait_round_wp|]. intros [[]|ret] w (Hf2 & Hok2 & Hs2 & Hres); [|done].
    split; [done|]. destruct Hres as (new & -> & Hb).
    assert (busy_count tr1 < K)%nat by (apply Nat.nle_gt; intros Hle; by rewrite HK in Hb).
    rewrite busy_count_app, busy_count_cons, Hb. lia.
  - cbn. split; [done|]. split; [done|constructor].
  - cbn. lia.
Qed.

(** ** Signals *)

Definition is_fork (e : event) : bool := match e.1 with Fork => true | _ => false end.
Definition forks (tr : list event) : nat := length (filter (λ e, is_fork e = true) tr).

Lemma forks_cons e tr : forks (e :: tr) = ((if is_fork e then 1 else 0) + forks tr)%nat.
Proof. unfold forks. rewrite filter_cons. by destruct (is_fork e). Qed.

Section sigchld.
Context {os : OS} {signals : SIGNALS} (fuel : nat).
Context (Hsigs : ∀ tr, Forall (λ s, s = SIGCHLD) (pending tr)).
Implicit Types (tr : list event) (g : sv_glob).

(** Handling SIGCHLD sets the exit flag and does nothing else. *)
Lemma deliver_all_wp sigs tr g : Forall (λ s, s = SIGCHLD) sigs → on_chld g = parent_handler →
  wp (deliver_all sigs) (λ _ w, forks (w_trace w) = forks tr ∧
    w_glob w = mk_sv (gChildTable g) (match sigs with [] => gExitFlag g | _ => 1 end) (on_int g) (on_chld g)) (mk_world tr g).
Proof.
  intros Hs. revert tr g. induction Hs as [|sig sigs -> Hs IH]; intros tr g Hd; [split; [done|by destruct g]|].
  cbn [deliver_all]. apply wp_bind. unfold deliver. apply wp_bind, wp_get_glob. change (SIGCHLD =? SIGCHLD) with true.
  cbv iota. rewrite Hd. unfold parentSignalHandler. change (SIGCHLD =? SIGCHLD) with true. cbv iota.
  apply wp_bind, wp_sys_. intros r1 _. apply wp_bind, wp_upd_glob, wp_sys_. intros r2 _.
  eapply wp_mono; [by apply IH|]. intros _ w [Hf Hg]. rewrite Hf, !forks_cons. split; [done|].
  rewrite Hg. cbn. rewrite Hd. by destruct sigs.
Qed.

Lemma isys_wp c tr g : on_chld g = parent_handler →
  wp (isys c) (λ r w, r = os_answer tr c ∧ forks (w_trace w) = forks ((c, r) :: tr) ∧ on_chld (w_glob w) = parent_handler ∧
    gChildTable (w_glob w) = gChildTable g ∧
    gExitFlag (w_glob w) = match pending ((c, r) :: tr) with [] => gExitFlag g | _ => 1 end) (mk_world tr g).
Proof.
  intros Hd. unfold isys. apply wp_bind, wp_sys. intros r Hr. wp_step. apply wp_gets. cbn [w_trace]. apply wp_bind.
  eapply wp_mono; [by apply deliver_all_wp|]. intros _ w [Hf Hg]. apply wp_ret. rewrite Hf, Hg. by split_and!.
Qed.

Context (Hreap : ∀ tr r, 0 < r_ret r → pending ((wait_call, r) :: tr) ≠ []).
Context (Hwait : ∀ tr, r_ret (os_answer tr wait_call) ≠ 0).

(** A round that finds the flag set goes round again and starts nobody. *)
Lemma flagged_round_wp fn tr g : on_chld g = parent_handler →
  (gExitFlag g = 1 ∨ (gExitFlag g = 0 ∧ 0 < r_ret (os_answer tr wait_call))) →
  wp (wait_round fn) (λ res w, res = inl tt ∧ forks (w_trace w) = forks tr ∧ gExitFlag (w_glob w) = 1 ∧
    gChildTable (w_glob w) = gChildTable g ∧ on_chld (w_glob w) = parent_handler) (mk_world tr g).
Proof.
  intros Hd Hflag. unfold wait_round. apply wp_bind. eapply wp_mono; [by apply isys_wp|].
  intros r [tr1 g1] (Hr & Hf & Hd1 & Ht & He). cbn [w_trace w_glob] in *.
  assert (gExitFlag g1 = 1) as He1.
  { rewrite He. destruct (pending _) eqn:Ep; [|done]. destruct Hflag as [|[_ Hpos]]; [done|].
    rewrite <- Hr in Hpos. by destruct (Hreap tr r Hpos). }
  specialize (Hwait tr). rewrite <- Hr in Hwait. rewrite (proj2 (Z.eqb_neq _ _) Hwait).
  apply wp_bind, wp_get_glob. rewrite He1. change (negb (1 =? 0)) with true. cbv iota.
  apply wp_bind. eapply wp_mono; [by apply isys_wp|]. intros r2 [tr2 g2] (_ & Hf2 & Hd2 & Ht2 & He2). apply wp_ret.
  cbn [w_trace w_glob] in *. rewrite Hf2, forks_cons, Hf, forks_cons, Ht2, Ht, He2, He1. cbn.
  split_and!; try done. by case_match.
Qed.

(** The handler of SIGCHLD sets the flag that means "exit", so that the death of the
    first child stops the supervision: from then on [waitForChild] goes round for ever,
    whatever happens, and no child is started again.  (A child's end delivers SIGCHLD
    before [waitpid] returns, and [waitpid] does not return 0 when it may block.) *)
Theorem sigchld_stops_supervision fn tr g : on_chld g = parent_handler → gExitFlag g = 0 →
  0 < r_ret (os_answer tr wait_call) → ∀ n,
  wp (rounds n (λ _, wait_round fn) tt) (λ res w, res = inl tt ∧ forks (w_trace w) = forks tr ∧
    gChildTable (w_glob w) = gChildTable g) (mk_world tr g) ∧
  waitForChild n fn (mk_world tr g) = OutOfFuel.
Proof.
  intros Hd Hflag Hpos n. unfold waitForChild.
  rewrite (bind_ok _ _ _ g (mk_world tr g)) by done. rewrite Hflag. change (0 =? 1) with false. cbv iota.
  destruct (rounds_forever (λ (_ : unit) w, forks (w_trace w) = forks tr ∧ gChildTable (w_glob w) = gChildTable g ∧
    on_chld (w_glob w) = parent_handler ∧ (gExitFlag (w_glob w) = 1 ∨ (w = mk_world tr g)))
    (λ _, wait_round fn)) with (n := n) (a := tt) (s := mk_world tr g) as [H1 H2].
  - intros [] [tr1 g1] (Hf & Ht & Hd1 & He). cbn [w_trace w_glob] in *.
    eapply wp_mono; [apply flagged_round_wp; [done|]|].
    + destruct He as [|[= -> ->]]; [by left|by right].
    + intros res w (-> & Hf2 & He2 & Ht2 & Hd2). split_and!; [congruence|congruence|done|by left].
  - cbn. split_and!; try done. by right.
  - split; [|done]. eapply wp_mono; [exact H1|]. intros [[]|] w; [|done]. by intros (? & ? & _).
Qed.

End sigchld.

(** *** Interrupts *)

(** The signals that the program has sent, oldest first. *)
Fixpoint kills (tr : list event) : list (Z * Z) :=
  match tr with [] => [] | (Kill p s, _) :: tr => kills tr ++ [(p, s)] | _ :: tr => kills tr end.

(** An interrupt for every running child of the table. *)
Definition passed_on (t : list ChildTable) : list (Z * Z) :=
  (λ c, (pid c, SIGINT)) <$> filter (λ c, state c = ON) t.

(** The process was ended by an interrupt that it has passed on. *)
Definition interrupted_by (tr : list event) (g : sv_glob) (code : Z) (w : world sv_glob) : Prop :=
  code = 128 + SIGINT ∧ kills (w_trace w) = kills tr ++ passed_on (gChildTable g) ∧ forks (w_trace w) = forks tr ∧
  gChildTable (w_glob w) = gChildTable g.

(** Nothing was sent and nobody started. *)
Definition idle (tr : list event) (g : sv_glob) (w : world sv_glob) : Prop :=
  kills (w_trace w) = kills tr ∧ forks (w_trace w) = forks tr ∧ gChildTable (w_glob w) = gChildTable g ∧
  on_int (w_glob w) = parent_handler ∧ on_chld (w_glob w) = parent_handler.

Section interrupts.
Context {os : OS} {signals : SIGNALS}.
Context (Hsigs : ∀ tr, Forall (λ s, s = SIGINT ∨ s = SIGCHLD) (pending tr)).
Implicit Types (tr : list event) (g : sv_glob).

Definition send_to (i : Z) : M (world sv_glob) unit :=
  c ← get_child i;
  sys_ (Printf "%s : Sending signal [%d] [%s] to child [%d]" [SIGINT; pid c]);;
  if state c =? ON then
    ret ← sys (Kill (pid c) SIGINT);
    if r_ret ret <? 0 then sys_ (Printf "%s : Error [%d] [%s] in kill !!!" [r_errno ret]) else mret tt
  else mret tt.

(** One child is sent the interrupt if it is running. *)
Lemma send_to_wp i c tr g : 0 ≤ i → gChildTable g !! Z.to_nat i = Some c →
  wp (send_to i) (λ _ w, w_glob w = g ∧ kills (w_trace w) = kills tr ++ passed_on [c] ∧ forks (w_trace w) = forks tr) (mk_world tr g).
Proof.
  intros Hi Hc. unfold send_to. apply wp_bind. eapply wp_get_child; [done|exact Hc|]. apply wp_bind, wp_sys_. intros r0 _.
  unfold passed_on. rewrite filter_cons, filter_nil. wp_run.
  - apply Z.eqb_eq in E. rewrite decide_True by done. done.
  - apply Z.eqb_eq in E. rewrite decide_True by done. done.
  - apply Z.eqb_neq in E. rewrite decide_False by done. split; [done|]. by rewrite app_nil_r.
Qed.

Lemma passed_on_app t t' : passed_on (t ++ t') = passed_on t ++ passed_on t'.
Proof. unfold passed_on. by rewrite list.filter_app, fmap_app. Qed.

(** The loop over the table. *)
Lemma send_all_wp tr g : length (gChildTable g) = Z.to_nat NUM_CHILD →
  wp (for_range (Z.to_nat NUM_CHILD) 0 (λ i _, send_to i) tt) (λ _ w, w_glob w = g ∧
    kills (w_trace w) = kills tr ++ passed_on (gChildTable g) ∧ forks (w_trace w) = forks tr) (mk_world tr g).
Proof.
  intros Hlen. eapply wp_mono; [apply (wp_for_range (λ k _ w, w_glob w = g ∧
    kills (w_trace w) = kills tr ++ passed_on (take (Z.to_nat k) (gChildTable g)) ∧ forks (w_trace w) = forks tr))|].
  - split; [done|]. cbn. by rewrite app_nil_r.
  - intros k [] [tr1 g1] Hk (Hg & Hkl & Hf). cbn [w_trace w_glob] in *. subst g1.
    assert (is_Some (gChildTable g !! Z.to_nat k)) as [c Hc] by (apply lookup_lt_is_Some; lia).
    eapply wp_mono; [eapply send_to_wp; [lia|exact Hc]|]. intros [] w (Hg & Hk2 & Hf2). split; [done|]. split; [|congruence].
    replace (Z.to_nat (k + 1)) with (S (Z.to_nat k)) by lia. by rewrite (take_S_r _ _ _ Hc), passed_on_app, Hk2, Hkl, app_assoc.
  - intros [] w. rewrite Z.add_0_l, Nat2Z.id, <- Hlen, firstn_all. done.
Qed.

Lemma deliver_ends sig tr g : sig = SIGINT ∨ sig = SIGCHLD → length (gChildTable g) = Z.to_nat NUM_CHILD →
  on_int g = parent_handler → on_chld g = parent_handler →
  ends (deliver sig) (λ _ w, idle tr g w ∧ gExitFlag (w_glob w) = 1) (interrupted_by tr g) (mk_world tr g).
Proof.
  intros Hs Hlen Hi Hc. unfold deliver. apply ends_bind, ends_wp, wp_get_glob.
  destruct Hs as [->| ->]; cbn [Z.eqb SIGINT SIGCHLD Pos.eqb]; cbv iota; rewrite ?Hi, ?Hc; unfold parentSignalHandler;
    (apply ends_bind, ends_wp, wp_sys_; intros r1 _); apply ends_bind, ends_wp, wp_upd_glob;
    cbn [Z.eqb SIGINT SIGCHLD Pos.eqb]; cbv iota.
  - apply ends_bind, ends_wp. eapply wp_mono; [by apply send_all_wp|]. intros [] [tr2 g2] (Hg & Hk & Hf). cbn [w_trace w_glob] in *. subst g2.
    unfold raise_default. apply ends_bind, ends_wp, wp_sys_. intros r2 _. apply ends_bind, ends_wp, wp_sys_. intros r3 _.
    split; [done|]. split; [done|]. split; [done|]. done.
  - apply ends_wp, wp_sys_. intros r2 _. by repeat split.
Qed.

Lemma deliver_all_ends sigs : Forall (λ s, s = SIGINT ∨ s = SIGCHLD) sigs → ∀ tr g, length (gChildTable g) = Z.to_nat NUM_CHILD →
  on_int g = parent_handler → on_chld g = parent_handler →
  ends (deliver_all sigs) (λ _ w, idle tr g w ∧ gExitFlag (w_glob w) = match sigs with [] => gExitFlag g | _ => 1 end)
    (interrupted_by tr g) (mk_world tr g).
Proof.
  induction 1 as [|sig sigs Hs Hss IH]; intros tr g Hlen Hi Hc; [by repeat split|]. cbn [deliver_all]. apply ends_bind.
  eapply ends_mono; [by apply deliver_ends|]. intros _ [tr1 g1] [(Hk & Hf & Ht & Hi1 & Hc1) He]. cbn [w_trace w_glob] in *.
  pose proof (IH tr1 g1 ltac:(congruence) Hi1 Hc1) as H. unfold ends in *. destruct (deliver_all sigs _) as [[] w| |code w|]; try done.
  - destruct H as [(Hk2 & Hf2 & Ht2 & ? & ?) He2]. split; [|rewrite He2; by destruct sigs]. split_and!; try done; congruence.
  - destruct H as (-> & Hk2 & Hf2 & Ht2). split; [done|]. rewrite Hk2, Hf2, Ht2, Hk, Ht. split_and!; congruence.
Qed.

Definition plain (c : call) : bool := match c with Kill _ _ | Fork => false | _ => true end.

Lemma isys_ends c tr g : plain c = true → length (gChildTable g) = Z.to_nat NUM_CHILD →
  on_int g = parent_handler → on_chld g = parent_handler →
  ends (isys c) (λ r w, r = os_answer tr c ∧ idle tr g w ∧
    gExitFlag (w_glob w) = match pending ((c, r) :: tr) with [] => gExitFlag g | _ => 1 end)
    (interrupted_by tr g) (mk_world tr g).
Proof.
  intros Hc Hlen Hi Hd. unfold isys. apply ends_bind, ends_wp, wp_sys. intros r Hr. apply ends_bind, ends_wp, wp_gets. cbn [w_trace].
  apply ends_bind. pose proof (deliver_all_ends _ (Hsigs ((c, r) :: tr)) ((c, r) :: tr) g Hlen Hi Hd) as H.
  assert (kills ((c, r) :: tr) = kills tr ∧ forks ((c, r) :: tr) = forks tr) as [Hk Hf] by (by destruct c).
  unfold ends in *. destruct (deliver_all _ _) as [[] w| |code w|]; try done; unfold idle, interrupted_by in *; rewrite Hk, Hf in H.
  - cbn. by destruct H.
  - done.
Qed.

Context (Hreap : ∀ tr r, 0 < r_ret r → pending ((wait_call, r) :: tr) ≠ []).
Context (Hwait : ∀ tr, r_ret (os_answer tr wait_call) = -1 ∨ 0 < r_ret (os_answer tr wait_call)).

(** One round: nobody is started, and an interrupt is passed on. *)
Lemma obeying_round fn tr g : length (gChildTable g) = Z.to_nat NUM_CHILD →
  on_int g = parent_handler → on_chld g = parent_handler → gExitFlag g = 0 ∨ gExitFlag g = 1 →
  ends (wait_round fn) (λ res w, idle tr g w ∧ (gExitFlag (w_glob w) = 0 ∨ gExitFlag (w_glob w) = 1) ∧ match res with
    | inl _ => 0 < r_ret (os_answer tr wait_call) → gExitFlag (w_glob w) = 1
    | inr ret => ret = 0 ∧ gExitFlag (w_glob w) = 0 end)
    (interrupted_by tr g) (mk_world tr g).
Proof.
  intros Hlen Hi Hd Hflag. unfold wait_round. apply ends_bind. eapply ends_mono; [by apply isys_ends|].
  intros r [tr1 g1] (Hr & (Hk & Hf & Ht & Hi1 & Hd1) & He). cbn [w_trace w_glob] in *. rewrite <- Hr.
  assert (0 < r_ret r → gExitFlag g1 = 1) as Hpos.
  { intros Hp. rewrite He. destruct (pending _) eqn:Ep; [|done]. by destruct (Hreap tr r Hp). }
  assert (gExitFlag g1 = 0 ∨ gExitFlag g1 = 1) as Hfl by (rewrite He; destruct (pending _); auto).
  specialize (Hwait tr). rewrite <- Hr in Hwait. rewrite (proj2 (Z.eqb_neq (r_ret r) 0)) by lia.
  apply ends_bind, ends_wp, wp_get_glob. destruct (negb (gExitFlag g1 =? 0)) eqn:En.
  - apply ends_bind. pose proof (isys_ends (Printf "DEVLOG : hahaha !!!" []) tr1 g1 eq_refl ltac:(congruence) Hi1 Hd1) as H.
    unfold ends in *. destruct (isys _ _) as [r2 w| |code w|]; try done.
    + destruct H as (_ & (Hk2 & Hf2 & Ht2 & ? & ?) & He2). cbn. unfold idle. split; [split_and!; try done; congruence|].
      assert (gExitFlag (w_glob w) = 1) as -> by (clear He; rewrite He2; case_match; lia). auto.
    + destruct H as (-> & Hk2 & Hf2 & Ht2). split; [done|]. rewrite Hk2, Hf2, Ht2, Hk, Ht. split_and!; congruence.
  - destruct Hwait as [Hm|Hp]; [|rewrite Hpos in En by done; done]. rewrite Hm. change (-1 =? -1) with true. cbv iota.
    destruct (r_errno r =? EINTR); apply ends_wp, wp_ret; (split; [done|]); (split; [done|]); [lia|]. cbn. split; [done|]. lia.
Qed.

End interrupts.


(** ** Concrete kernels *)

(** Two children, 51 and 52, are reaped once each; forks give pids above 60; no signals. *)
Definition calm_kernel : OS := λ tr c,
  match c with
  | Waitpid _ _ => match busy_count tr with
      | 0%nat => mk_reply 51 0 [0] | 1%nat => mk_reply 52 0 [0] | _ => mk_reply (-1) 10 [] end
  | Fork => mk_reply (60 + Z.of_nat (length tr)) 0 []
  | _ => mk_reply (-1) 0 []
  end.

Definition no_signals : SIGNALS := λ _, [].

Definition two_children : sv_glob := mk_sv [mk_child 51 ON; mk_child 52 ON] 0 parent_handler parent_handler.

Lemma calm_kernel_calm : calms_down (os := calm_kernel) 2.
Proof.
  intros tr c H. unfold os_answer, calm_kernel. destruct c; try done.
  - unfold busy, interrupted. cbn [fst snd r_ret r_errno]. by rewrite andb_false_r.
  - destruct (busy_count tr) as [|[|n]]; [lia|lia|done].
Qed.

Lemma two_children_ok : table_ok (gChildTable two_children).
Proof. split; [done|]. do 2 (constructor; [by left|]). constructor. Qed.

(** Both children are replaced. *)
Example restarts_run :
  match waitForChild (os := calm_kernel) (signals := no_signals) 3
          (restartChild (os := calm_kernel) (signals := no_signals) 3) (mk_world [] two_children) with
  | Ok ret w => ret = 0 ∧ gChildTable (w_glob w) = [mk_child 62 ON; mk_child 66 ON]
  | _ => False end.
Proof. vm_compute. done. Qed.

(** The same kernel with SIGCHLD at every child's end. *)
Definition sigchld_kernel : OS := λ tr c,
  match c with
  | Waitpid _ _ => match length tr with 0%nat => mk_reply 51 0 [0] | _ => mk_reply (-1) 10 [] end
  | _ => mk_reply (-1) 0 []
  end.

Definition sigchld_signals : SIGNALS := λ tr,
  match tr with (Waitpid _ _, r) :: _ => if 0 <? r_ret r then [SIGCHLD] else [] | _ => [] end.

Lemma sigchld_stops_supervision_witness :
  waitForChild (os := sigchld_kernel) (signals := sigchld_signals) 100
    (restartChild (os := sigchld_kernel) (signals := sigchld_signals) 100) (mk_world [] two_children) = OutOfFuel.
Proof.
  apply (sigchld_stops_supervision (os := sigchld_kernel) (signals := sigchld_signals)).
  - intros tr. unfold pending, sigchld_signals. repeat case_match; repeat constructor.
  - intros tr r Hr. unfold pending, sigchld_signals. by rewrite (proj2 (Z.ltb_lt _ _) Hr).
  - intros tr. unfold os_answer, sigchld_kernel. by destruct (length tr).
  - done.
  - done.
  - done.
Defined.

(** A child ends, and in the next round an interrupt arrives. *)
Definition interrupt_signals : SIGNALS := λ tr,
  match tr with
  | (Waitpid _ _, r) :: tr => if 0 <? r_ret r then [SIGCHLD] else if (3 <=? length tr)%nat then [SIGINT] else []
  | _ => []
  end.


(** The interrupt reaches both children. *)
Example interrupt_run :
  match rounds 5 (λ _, wait_round (os := sigchld_kernel) (signals := interrupt_signals) (λ _, mret 0)) tt (mk_world [] two_children) with
  | Exit code w => code = 130 ∧ kills (w_trace w) = [(51, SIGINT); (52, SIGINT)]
  | _ => False end.
Proof. vm_compute. done. Qed.
