(* ===== verification/CondVar.v ===== *)
(** * A condition variable (src/other/condvar.c)

    Two threads increment a counter ten times each and signal a condition variable when
    it reaches 12; a third waits for that, and adds 100 when it is woken.  The machine
    interleaves the three threads and [main], one statement or critical access at a
    time; a waiting thread may also wake up without a signal, as POSIX allows. *)

From Stdlib Require Import ZArith Lia ZifyBool.
From stdpp Require Import base list strings numbers relations.
From S2P Require Import Prelude.

Definition count_limit : Z := 12.
Definition tcount : nat := 10.
Definition numthreads : nat := 3.

(** ** State *)

(** Where [watchCount] is: before its first print, at the lock, at the test of the loop,
    waiting, taking the mutex back, after the wait, at the unlock, ended. *)
Inductive wpc := W_first | W_lock | W_test | W_waiting | W_reacquire | W_body | W_unlock | W_exit.

(** Where [incrementCount] is, in round [i] of its loop. *)
Inductive ipc := I_lock (i : nat) | I_inc (i : nat) | I_unlock (i : nat) | I_exit.

(** Where [main] is: creating thread [k], joining thread [k], ended. *)
Inductive mpc := M_create (k : nat) | M_join (k : nat) | M_exit.

Inductive tid := Watch | Inc (second : bool).

#[global] Instance tid_dec : EqDecision tid.
Proof. solve_decision. Defined.

Record state := mk_state {
  count : Z;
  mutex : option tid;
  watch : wpc;
  inc1 : ipc;
  inc2 : ipc;
  boss : mpc;
  output : list (string * Z) }.

Definition inc (b : bool) (s : state) : ipc := if b then inc2 s else inc1 s.

Definition set_inc (b : bool) (p : ipc) (s : state) : state :=
  mk_state (count s) (mutex s) (watch s) (if b then inc1 s else p) (if b then p else inc2 s) (boss s) (output s).
Definition set_watch (p : wpc) (s : state) : state :=
  mk_state (count s) (mutex s) p (inc1 s) (inc2 s) (boss s) (output s).
Definition set_mutex (m : option tid) (s : state) : state :=
  mk_state (count s) m (watch s) (inc1 s) (inc2 s) (boss s) (output s).
Definition set_count (n : Z) (s : state) : state :=
  mk_state n (mutex s) (watch s) (inc1 s) (inc2 s) (boss s) (output s).
Definition set_boss (p : mpc) (s : state) : state :=
  mk_state (count s) (mutex s) (watch s) (inc1 s) (inc2 s) p (output s).
Definition printf (m : string) (s : state) : state :=
  mk_state (count s) (mutex s) (watch s) (inc1 s) (inc2 s) (boss s) ((m, count s) :: output s).

(** [pthread_mutex_lock] blocks while another thread has the mutex. *)
Definition lock (t : tid) (s : state) : option state :=
  match mutex s with None => Some (set_mutex (Some t) s) | Some _ => None end.

(** [pthread_cond_signal] wakes the watcher if it waits. *)
Definition signal (s : state) : state :=
  match watch s with W_waiting => set_watch W_reacquire s | _ => s end.

(** ** Code *)

Definition incrementCount (b : bool) (s : state) : option state :=
  match inc b s with
  | I_lock i => set_inc b (I_inc i) <$> lock (Inc b) s
  | I_inc i =>
      let s := set_count (count s + 1) s in
      let s := if count s =? count_limit then printf "Threshold reached" (signal s) else s in
      Some (set_inc b (I_unlock i) (printf "IncrementCount" s))
  | I_unlock i =>
      Some (set_inc b (if (S i <? tcount)%nat then I_lock (S i) else I_exit) (set_mutex None s))
  | I_exit => None
  end.

Definition watchCount (s : state) : option state :=
  match watch s with
  | W_first => Some (set_watch W_lock (printf "WatchCount" s))
  | W_lock => set_watch W_test <$> lock Watch s
  | W_test =>
      Some (if count s <? count_limit then set_watch W_waiting (set_mutex None s) else set_watch W_unlock s)
  | W_waiting => None
  | W_reacquire => set_watch W_body <$> lock Watch s
  | W_body =>
      let s := printf "SIGNAL RECEIVED" s in
      Some (set_watch W_test (printf "WatchCount" (set_count (count s + 100) s)))
  | W_unlock => Some (set_watch W_exit (set_mutex None s))
  | W_exit => None
  end.

Definition ended (k : nat) (s : state) : bool :=
  match k with
  | 0%nat => match watch s with W_exit => true | _ => false end
  | _ => match inc (k =? 2)%nat s with I_exit => true | _ => false end
  end.

Definition main (s : state) : option state :=
  match boss s with
  | M_create k => Some (set_boss (if (S k <? numthreads)%nat then M_create (S k) else M_join 0) s)
  | M_join k =>
      if ended k s then
        Some (if (S k <? numthreads)%nat then set_boss (M_join (S k)) s
              else set_boss M_exit (printf "Main::Completed Successfully !!!" s))
      else None
  | M_exit => None
  end.

(** A thread runs once it has been created. *)
Definition created (k : nat) (s : state) : bool :=
  match boss s with M_create j => (k <? j)%nat | _ => true end.

(** Who takes the next step; [Spurious] is a wake-up of the watcher without a signal. *)
Inductive actor := Main | Thread (t : tid) | Spurious.

Definition step_actor (a : actor) (s : state) : option state :=
  match a with
  | Main => main s
  | Thread Watch => if created 0 s then watchCount s else None
  | Thread (Inc b) => if created (if b then 2 else 1) s then incrementCount b s else None
  | Spurious => match watch s with W_waiting => Some (set_watch W_reacquire s) | _ => None end
  end.

Definition init : state := mk_state 0 None W_first (I_lock 0) (I_lock 0) (M_create 0) [].

(** A schedule. *)
Fixpoint run (sched : list actor) (s : state) : option state :=
  match sched with [] => Some s | a :: sched => step_actor a s ≫= run sched end.

Definition final (s : state) : bool :=
  match boss s with M_exit => true | _ => false end.

(** ** The invariant *)

(** The increments a thread has made. *)
Definition made (p : ipc) : Z :=
  match p with I_lock i | I_inc i => Z.of_nat i | I_unlock i => Z.of_nat i + 1 | I_exit => Z.of_nat tcount end.

Definition in_range (p : ipc) : Prop :=
  match p with I_lock i | I_inc i | I_unlock i => (i < tcount)%nat | I_exit => True end.

(** The thread has the mutex by where it is. *)
Definition inc_holds (p : ipc) : bool := match p with I_inc _ | I_unlock _ => true | _ => false end.
Definition watch_holds (p : wpc) : bool := match p with W_test | W_body | W_unlock => true | _ => false end.

Definition holder (s : state) (t : tid) : bool :=
  match t with Watch => watch_holds (watch s) | Inc b => inc_holds (inc b s) end.

Definition owns (m : option tid) (t : tid) : bool :=
  match m, t with Some Watch, Watch => true | Some (Inc a), Inc b => Bool.eqb a b | _, _ => false end.

(** What the counter is, by where the watcher is; [m] is the number of increments. *)
Definition count_ok (p : wpc) (c m : Z) : Prop :=
  match p with
  | W_first | W_lock | W_reacquire | W_body => c = m
  | W_test => c = m ∨ c = m + 100
  | W_waiting => c = m ∧ c < count_limit
  | W_unlock | W_exit => (c = m ∧ count_limit ≤ c) ∨ c = m + 100
  end.

Definition joined (s : state) : Prop :=
  match boss s with
  | M_create k => (k < numthreads)%nat
  | M_join k => (k < numthreads)%nat ∧ ∀ j, (j < k)%nat → ended j s = true
  | M_exit => ∀ j, (j < numthreads)%nat → ended j s = true
  end.

Record inv (s : state) : Prop := {
  i_range : in_range (inc1 s) ∧ in_range (inc2 s);
  i_mutex : ∀ t, holder s t = owns (mutex s) t;
  i_count : count_ok (watch s) (count s) (made (inc1 s) + made (inc2 s));
  i_joined : joined s }.

Lemma inv_init : inv init.
Proof.
  split; cbn.
  - unfold tcount. lia.
  - by intros [|[]].
  - done.
  - unfold numthreads. lia.
Qed.

(** An ended thread stays ended. *)
Lemma joined_mono s s' : joined s → boss s' = boss s →
  (∀ k, ended k s = true → ended k s' = true) → joined s'.
Proof. unfold joined. intros H -> He. destruct (boss s); [done|destruct H; split; auto|auto]. Qed.

(** The parts of the invariant after a step, every case computed. *)
Ltac inv_close Hj :=
  split; [split; cbn in *; unfold tcount in *; (done || lia)
         |intros [|[]]; cbn in *; congruence
         |cbn in *; unfold count_limit, tcount in *; (done || lia)
         |first [done | eapply joined_mono; [exact Hj|reflexivity|]; intros [|[|[|k]]]; cbn in *; done] ].

Lemma inv_inc b s s' : inv s → incrementCount b s = Some s' → inv s'.
Proof.
  intros [[Hr1 Hr2] Hm Hc Hj] Hs. pose proof (Hm Watch) as HmW. pose proof (Hm (Inc false)) as Hm1.
  pose proof (Hm (Inc true)) as Hm2. clear Hm. destruct s as [c m w p1 p2 bo out].
  unfold incrementCount, lock in Hs. destruct b; cbn in *.
  - destruct p2 as [i|i|i|]; cbn in *; [|..|discriminate].
    + destruct m; [discriminate|]. injection Hs as <-. inv_close Hj.
    + injection Hs as <-. destruct (c + 1 =? count_limit) eqn:E; destruct w; inv_close Hj.
    + injection Hs as <-. destruct m as [[|[]]|]; try done. destruct (Nat.leb_spec i 8); destruct w; inv_close Hj.
  - destruct p1 as [i|i|i|]; cbn in *; [|..|discriminate].
    + destruct m; [discriminate|]. injection Hs as <-. inv_close Hj.
    + injection Hs as <-. destruct (c + 1 =? count_limit) eqn:E; destruct w; inv_close Hj.
    + injection Hs as <-. destruct m as [[|[]]|]; try done. destruct (Nat.leb_spec i 8); destruct w; inv_close Hj.
Qed.

Lemma made_nonneg p : 0 ≤ made p.
Proof. destruct p; cbn; lia. Qed.

Lemma inv_watch s s' : inv s → watchCount s = Some s' → inv s'.
Proof.
  intros [[Hr1 Hr2] Hm Hc Hj] Hs. pose proof (Hm Watch) as HmW. pose proof (Hm (Inc false)) as Hm1.
  pose proof (Hm (Inc true)) as Hm2. clear Hm. destruct s as [c m w p1 p2 bo out].
  unfold watchCount, lock in Hs. cbn in *.
  destruct w, m as [[|[]]|]; cbn in *; try discriminate; try injection Hs as <-; try inv_close Hj.
  pose proof (made_nonneg p1). pose proof (made_nonneg p2). destruct (Z.ltb_spec c count_limit); inv_close Hj.
Qed.

Lemma inv_spurious s : inv s → watch s = W_waiting → inv (set_watch W_reacquire s).
Proof.
  intros [[Hr1 Hr2] Hm Hc Hj] Hw. destruct s as [c m w p1 p2 bo out]. cbn in Hw. subst w.
  pose proof (Hm Watch) as HmW. pose proof (Hm (Inc false)) as Hm1. pose proof (Hm (Inc true)) as Hm2. inv_close Hj.
Qed.

Lemma inv_main s s' : inv s → main s = Some s' → inv s'.
Proof.
  intros [Hr Hm Hc Hj] Hs. unfold main in Hs. unfold joined in Hj.
  destruct (boss s) as [k|k|] eqn:Eb; [|destruct (ended k s) eqn:Ee|]; try discriminate; injection Hs as <-.
  - split; [exact Hr|exact Hm|exact Hc|]. unfold joined.
    destruct (Nat.ltb_spec (S k) numthreads); cbn; [lia|]. split; [unfold numthreads; lia|lia].
  - destruct Hj as [Hk Hj].
    assert (Hall : ∀ j, (j < S k)%nat → ended j s = true).
    { intros j Hjk. destruct (decide (j = k)) as [->|]; [exact Ee|]. apply Hj. lia. }
    destruct (Nat.ltb_spec (S k) numthreads); (split; [exact Hr|exact Hm|exact Hc|]); unfold joined; cbn.
    + split; [lia|exact Hall].
    + intros j Hjk. apply Hall. lia.
Qed.

Lemma inv_step a s s' : inv s → step_actor a s = Some s' → inv s'.
Proof.
  intros Hi. destruct a as [|[|b]|]; cbn [step_actor]; [by apply inv_main| | |].
  - destruct (created 0 s); [by apply inv_watch|done].
  - destruct (created _ s); [by apply inv_inc|done].
  - destruct (watch s) eqn:E; try done. intros [= <-]. by apply inv_spurious.
Qed.

(** ** Termination *)

Definition work_inc (p : ipc) : nat :=
  match p with
  | I_lock i => 3 * (tcount - i) | I_inc i => 3 * (tcount - i) - 1 | I_unlock i => 3 * (tcount - i) - 2 | I_exit => 0
  end.

Definition work_watch (p : wpc) (c : Z) : nat :=
  match p with
  | W_first => 9 | W_lock => 8 | W_test => if c <? count_limit then 7 else 3
  | W_waiting => 6 | W_reacquire => 5 | W_body => 4 | W_unlock => 2 | W_exit => 0
  end.

Definition work_main (p : mpc) : nat :=
  match p with M_create k => 6 - k | M_join k => 3 - k | M_exit => 0 end.

Definition work (s : state) : nat :=
  work_watch (watch s) (count s) + work_inc (inc1 s) + work_inc (inc2 s) + work_main (boss s).

Ltac wk :=
  cbn [watch inc1 inc2 count boss mutex set_inc set_mutex set_count set_watch printf signal work_inc work_watch work_main];
  lia.

(** Every step uses up some of the work that is left. *)
Lemma work_step a s s' : inv s → step_actor a s = Some s' → (work s' < work s)%nat.
Proof.
  intros [[Hr1 Hr2] Hm Hc Hj] Hs. pose proof (Hm Watch) as HmW. pose proof (Hm (Inc false)) as Hm1.
  pose proof (Hm (Inc true)) as Hm2. clear Hm. unfold joined in Hj. destruct s as [c m w p1 p2 bo out].
  unfold work. destruct a as [|[|b]|]; cbn [step_actor] in Hs.
  - unfold main in Hs. cbn in *. destruct bo as [k|k|]; cbn in *; [|destruct (ended k _)|]; try discriminate.
    + injection Hs as <-. unfold numthreads in *. destruct (Nat.leb_spec k 1); cbn; lia.
    + injection Hs as <-. unfold numthreads in *. destruct (Nat.leb_spec k 1); cbn; lia.
  - destruct (created _ _); [|discriminate]. unfold watchCount, lock in Hs. cbn in *.
    destruct w, m as [[|[]]|]; cbn in *; try discriminate; injection Hs as <-; cbn; try lia.
    + destruct (c <? count_limit); lia.
    + destruct (c <? count_limit); cbn; lia.
    + pose proof (made_nonneg p1). pose proof (made_nonneg p2). rewrite (proj2 (Z.ltb_ge _ _)); unfold count_limit; lia.
  - destruct (created _ _); [|discriminate]. unfold incrementCount, lock in Hs. clear Hj Hc. destruct b; cbn in *.
    + destruct p2 as [i|i|i|], m as [[|[]]|]; try done; cbn in Hs; injection Hs as <-; unfold tcount in *; cbn [in_range] in *.
      * wk.
      * destruct (c + 1 =? count_limit), w; try done; wk.
      * destruct (Nat.leb_spec i 8); wk.
    + destruct p1 as [i|i|i|], m as [[|[]]|]; try done; cbn in Hs; injection Hs as <-; unfold tcount in *; cbn [in_range] in *.
      * wk.
      * destruct (c + 1 =? count_limit), w; try done; wk.
      * destruct (Nat.leb_spec i 8); wk.
  - destruct w; try discriminate. injection Hs as <-. cbn. lia.
Qed.

Lemma run_keeps sched s s' : inv s → run sched s = Some s' → inv s' ∧ (length sched + work s' ≤ work s)%nat.
Proof.
  revert s. induction sched as [|a sched IH]; intros s Hi; cbn [run].
  - intros [= <-]. split; [done|cbn; lia].
  - intros (s1 & H1 & H2)%bind_Some. pose proof (work_step _ _ _ Hi H1).
    destruct (IH _ (inv_step _ _ _ Hi H1) H2). split; [done|cbn [length]; lia].
Qed.

(** ** Theorems *)

(** In a state where no thread can go on without a spurious wake-up, all have ended. *)
Lemma stuck_final s : inv s → (∀ a, a ≠ Spurious → step_actor a s = None) →
  boss s = M_exit ∧ watch s = W_exit ∧ inc1 s = I_exit ∧ inc2 s = I_exit ∧ mutex s = None.
Proof.
  intros [[Hr1 Hr2] Hm Hc Hj] Hstuck.
  pose proof (Hstuck Main) as H0. pose proof (Hstuck (Thread Watch)) as HW.
  pose proof (Hstuck (Thread (Inc false))) as H1. pose proof (Hstuck (Thread (Inc true))) as H2. clear Hstuck.
  pose proof (Hm Watch) as HmW. pose proof (Hm (Inc false)) as Hm1. pose proof (Hm (Inc true)) as Hm2. clear Hm.
  specialize (H0 ltac:(done)). specialize (HW ltac:(done)). specialize (H1 ltac:(done)). specialize (H2 ltac:(done)).
  destruct s as [c m w p1 p2 bo out]. cbn [step_actor] in *. unfold main in H0. unfold joined in Hj. cbn [boss] in *.
  destruct bo as [k|k|]; [discriminate H0|..]; cbn [created boss] in *; unfold watchCount, incrementCount, lock in *;
    cbn in Hr1, Hr2, Hc, HW, H1, H2, HmW, Hm1, Hm2; destruct m as [[|[]]|]; try (by destruct w); try (by destruct p1); try (by destruct p2).
  all: destruct p1 as [| | |], p2 as [| | |]; try done; destruct w; try done; try (unfold count_ok, count_limit, made, tcount in Hc; lia).
  exfalso. revert H0. destruct k as [|k]; [done|]. unfold ended, inc. cbn [watch inc1 inc2].
  by destruct (S k =? 2)%nat.
Qed.

(** C32: under every schedule, with any spurious wake-ups, the program ends after at most
    75 steps, and a run that cannot go on has ended: all threads are through, the mutex
    is free, and the counter is 20 (the watcher came too late to wait) or 120 (it waited
    and was woken exactly once). *)
Theorem condvar_finishes sched s : run sched init = Some s →
  (length sched ≤ 75)%nat ∧
  ((∀ a, a ≠ Spurious → step_actor a s = None) →
     boss s = M_exit ∧ watch s = W_exit ∧ inc1 s = I_exit ∧ inc2 s = I_exit ∧ mutex s = None ∧
     (count s = 20 ∨ count s = 120)).
Proof.
  intros Hrun. destruct (run_keeps _ _ _ inv_init Hrun) as [Hi Hw]. split; [unfold work in Hw; cbn in Hw; lia|].
  intros Hstuck. destruct (stuck_final _ Hi Hstuck) as (Hb & Hwx & H1 & H2 & Hm). split_and!; try done.
  pose proof (i_count _ Hi) as Hc. rewrite Hwx, H1, H2 in Hc. unfold count_ok, made, tcount, count_limit in Hc. lia.
Qed.

(** The mutex is held by the thread that is in its critical section and no other, the
    watcher never sleeps once the limit is reached, and it leaves its loop only with the
    counter at the limit or beyond. *)
Theorem condvar_no_lost_signal sched s : run sched init = Some s →
  (∀ t t', holder s t = true → holder s t' = true → t = t') ∧
  (watch s = W_waiting → count s < count_limit) ∧
  (watch s = W_unlock ∨ watch s = W_exit → count_limit ≤ count s).
Proof.
  intros Hrun. destruct (run_keeps _ _ _ inv_init Hrun) as [[_ Hm Hc _] _]. split_and!.
  - intros t t' H1 H2. rewrite Hm in H1, H2. unfold owns in *. destruct (mutex s) as [[|[]]|], t as [|[]], t' as [|[]]; done.
  - intros E. rewrite E in Hc. cbn in Hc. lia.
  - pose proof (made_nonneg (inc1 s)). pose proof (made_nonneg (inc2 s)).
    intros [E|E]; rewrite E in Hc; cbn in Hc; unfold count_limit in *; lia.
Qed.

(** One thread after the other; the watcher waits, is signalled at 12 and adds 100. *)
Definition demo_schedule : list actor :=
  [Main; Main; Main] ++ replicate 3 (Thread Watch) ++ replicate 30 (Thread (Inc false)) ++
  replicate 6 (Thread (Inc true)) ++ replicate 4 (Thread Watch) ++ replicate 24 (Thread (Inc true)) ++ [Main; Main; Main].

Lemma condvar_finishes_witness : ∃ s, run demo_schedule init = Some s ∧ count s = 120 ∧ (length demo_schedule ≤ 75)%nat.
Proof.
  eexists. split; [vm_compute; reflexivity|]. split; [done|].
  eapply (condvar_finishes demo_schedule). vm_compute. reflexivity.
Defined.

Lemma condvar_no_lost_signal_witness : ∃ s, run (take 6 demo_schedule) init = Some s ∧ watch s = W_waiting ∧ count s < count_limit.
Proof.
  eexists. split; [vm_compute; reflexivity|]. split; [done|].
  apply (condvar_no_lost_signal (take 6 demo_schedule)); [vm_compute; reflexivity|done].
Defined.
