(* ===== verification/LinkedList.v ===== *)
(** * The linked list (src/other/linkedlist.c)

    Nodes live in a heap of addresses; [calloc], [free] and [printf] are calls of the
    environment.  Reading a node that is not in the heap, because it is NULL or was
    freed, is undefined. *)

From Stdlib Require Import ZArith Lia ZifyBool.
From stdpp Require Import base gmap list strings numbers.
From S2P Require Import Prelude Posix.

Record LL := mk_LL { num : Z; next : Z }.

Abbreviation heap := (gmap Z LL).

Section code.
Context {os : OS} (fuel : nat).
Abbreviation LM := (M (world heap)).

Definition load (p : Z) : LM LL := h ← get_glob; expect (h !! p).
Definition store (p : Z) (n : LL) : LM unit := upd_glob (<[p := n]>).

(** A round of the loop that looks for the last node. *)
Definition add_round (head newNode tmp : Z) : LM (Z + Z) :=
  t ← load tmp;
  if next t =? NULL then store tmp (mk_LL (num t) newNode);; mret (inr head)
  else mret (inl (next t)).

(** The value of [*head] afterwards.  The result of [calloc] is not tested. *)
Definition addNode (head n : Z) : LM Z :=
  c ← sys (Calloc 1 16);
  let newNode := r_ret c in
  (if newNode =? NULL then undef else store newNode (mk_LL n NULL));;
  if head =? NULL then
    sys_ (Printf "Adding the node first time..." []);; mret newNode
  else loop fuel (add_round head newNode) head.

Definition disp_round (tmp : Z) : LM (Z + unit) :=
  if tmp =? NULL then mret (inr tt)
  else
    t ← load tmp;
    sys_ (Printf "%d " [num t]);;
    mret (inl (next t)).

Definition disp (head : Z) : LM unit :=
  if head =? NULL then sys_ (Printf "Empty List..." [])
  else loop fuel disp_round head;; sys_ (Printf "" []).

Definition cleanup_round (tmp : Z) : LM (Z + unit) :=
  if tmp =? NULL then mret (inr tt)
  else
    t ← load tmp;
    sys_ (Free tmp);;
    upd_glob (delete tmp);;
    mret (inl (next t)).

Definition cleanup (head : Z) : LM unit :=
  if head =? NULL then sys_ (Printf "Nothing to clean...empty LL" [])
  else loop fuel cleanup_round head.

(** The variable [head] of [main] keeps its value through [cleanup]. *)
Definition main : LM Z :=
  head ← for_range 5 0 (λ i head, addNode head i) NULL;
  disp head;;
  cleanup head;;
  disp head;;
  cleanup head;;
  mret 0.

End code.

(** ** The list in the heap *)

Fixpoint lseg (h : heap) (hd : Z) (l : list (Z * Z)) : Prop :=
  match l with
  | [] => hd = NULL
  | (a, n) :: l => hd = a ∧ a ≠ NULL ∧ ∃ nx, h !! a = Some (mk_LL n nx) ∧ lseg h nx l
  end.

(** The list is [l], by address and number, and its nodes are blocks the program owns. *)
Record list_rep (tr : list event) (h : heap) (hd : Z) (l : list (Z * Z)) : Prop := {
  lr_seg : lseg h hd l;
  lr_nodup : NoDup l.*1;
  lr_owned : ∀ a, a ∈ l.*1 → mem_balance tr a = 1 }.

(** The numbers printed with [%d], oldest first. *)
Fixpoint printed (tr : list event) : list Z :=
  match tr with
  | [] => []
  | (Printf fmt args, _) :: tr => printed tr ++ args
  | _ :: tr => printed tr
  end.

Lemma ll_frame h h' hd l : (∀ a, a ∈ l.*1 → h' !! a = h !! a) → lseg h hd l → lseg h' hd l.
Proof.
  revert hd. induction l as [|[a n] l IH]; intros hd Hm; cbn; [done|].
  intros (-> & Ha & nx & Hx & Hl). split_and!; [done|done|]. exists nx. rewrite Hm by (cbn; left).
  split; [done|]. apply IH; [|done]. intros b Hb. apply Hm. by right.
Qed.

(** Linking a new last node. *)
Lemma ll_link h hd l a n t k : lseg h hd (l ++ [(a, n)]) → NoDup (l ++ [(a, n)]).*1 → t ∉ (l ++ [(a, n)]).*1 →
  h !! t = Some (mk_LL k NULL) → t ≠ NULL → lseg (<[a := mk_LL n t]> h) hd ((l ++ [(a, n)]) ++ [(t, k)]).
Proof.
  revert hd. induction l as [|[b m] l IH]; intros hd; cbn.
  - intros (-> & Ha & nx & Hx & ->) _ Hne Ht Htn. apply not_elem_of_cons in Hne as [Hne _].
    split_and!; [done|done|]. exists t. rewrite lookup_insert_eq. split_and!; [done|done|done|].
    exists NULL. by rewrite lookup_insert_ne.
  - intros (-> & Hb & nx & Hx & Hl) Hnd Hne Ht Htn. apply list.NoDup_cons in Hnd as [Hnin Hnd].
    apply not_elem_of_cons in Hne as [Hne1 Hne].
    assert (b ≠ a) by (intros ->; apply Hnin; rewrite fmap_app; apply elem_of_app; right; by left).
    split_and!; [done|done|]. exists nx. rewrite lookup_insert_ne by done. split; [done|]. by apply IH.
Qed.

Section specs.
Context {os : OS} (fuel : nat).
Implicit Types (tr : list event) (h : heap).

(** The traversal of [addNode]. *)
Lemma add_loop_wp head t tr h l : ∀ a n hd f, lseg h hd (l ++ [(a, n)]) → (length l < f)%nat →
  wp (loop f (add_round head t) hd) (λ r w, r = head ∧ w = mk_world tr (<[a := mk_LL n t]> h)) (mk_world tr h).
Proof.
  induction l as [|[b m] l IH]; intros a n hd [|f] Hseg Hf; try (cbn in Hf; lia); cbn [loop].
  - cbn in Hseg. destruct Hseg as (-> & Ha & nx & Hx & ->). apply wp_bind. unfold add_round, load, store. wp_run. by rewrite Hx.
  - cbn in Hseg. destruct Hseg as (-> & Hb & nx & Hx & Hl). apply wp_bind. unfold add_round, load, store. wp_run. rewrite Hx.
    apply wp_ret. cbn [next]. assert (nx ≠ NULL).
    { destruct l as [|[c k] l]; cbn in Hl; destruct Hl as (-> & Hn & _); done. }
    rewrite (proj2 (Z.eqb_neq _ _)) by done. apply wp_ret. apply IH; [done|cbn in Hf; lia].
Qed.

Lemma add_wp head n tr h l : calloc_fresh → list_rep tr h head l → (length l ≤ fuel)%nat →
  wp (addNode fuel head n) (λ hd w, ∃ t, list_rep (w_trace w) (w_glob w) hd (l ++ [(t, n)]) ∧
    printed (w_trace w) = printed tr ∧ res_delta tr (w_trace w) [] [t]) (mk_world tr h).
Proof.
  intros Hfresh [Hseg Hnd Hown] Hf. unfold addNode, store. apply wp_bind, wp_sys. intros c Hc.
  destruct (Hfresh tr 1 16) as [Hn Hbal]. rewrite <- Hc in Hn, Hbal.
  rewrite (proj2 (Z.eqb_neq _ _) Hn). apply wp_bind, wp_upd_glob.
  assert (Hnew : r_ret c ∉ l.*1) by (intros Hin; specialize (Hown _ Hin); lia).
  assert (Hown' : ∀ a, a ∈ (l ++ [(r_ret c, n)]).*1 → mem_balance ((Calloc 1 16, c) :: tr) a = 1).
  { intros a Ha. cbn [mem_balance mem_delta]. rewrite fmap_app in Ha. unfold NULL in Hn.
    apply elem_of_app in Ha as [Ha|Ha%list_elem_of_singleton].
    - specialize (Hown _ Ha). assert (r_ret c ≠ a) by (intros E; rewrite E in Hnew; done). lia.
    - cbn in Ha. subst a. lia. }
  assert (Hnd' : NoDup (l ++ [(r_ret c, n)]).*1).
  { rewrite fmap_app. apply list.NoDup_app. split_and!; [done| |apply NoDup_singleton].
    cbn. intros a Ha ->%list_elem_of_singleton. done. }
  destruct (snoc_case l) as [->|(l' & [a m] & ->)].
  - cbn in Hseg. subst head. cbn. apply wp_bind, wp_sys_. intros r _. apply wp_ret. exists (r_ret c). split; [|split; [cbn; by rewrite app_nil_r|res_solve]].
    split; [|done|exact Hown']. cbn. split_and!; [done|done|]. exists NULL. by rewrite lookup_insert_eq.
  - assert (head ≠ NULL). { destruct l' as [|[b k] l']; cbn in Hseg; destruct Hseg as (-> & Hx & _); done. }
    rewrite (proj2 (Z.eqb_neq _ _)) by done.
    assert (Hseg' : lseg (<[r_ret c := mk_LL n NULL]> h) head (l' ++ [(a, m)])).
    { eapply ll_frame; [|exact Hseg]. intros b Hb. apply lookup_insert_ne. by intros <-. }
    eapply wp_mono; [apply (add_loop_wp _ _ _ _ l' a m); [exact Hseg'|rewrite length_app in Hf; cbn in Hf; lia]|].
    intros hd w [-> ->]. exists (r_ret c). cbn [w_trace w_glob]. split; [|split; [done|res_solve]].
    split; [|done|exact Hown']. apply ll_link; [done|done|done|apply lookup_insert_eq|done].
Qed.

(** The traversal of [disp]. *)
Lemma disp_loop_wp h l : ∀ hd f tr, lseg h hd l → (length l < f)%nat →
  wp (loop f disp_round hd) (λ _ w, w_glob w = h ∧ printed (w_trace w) = printed tr ++ l.*2 ∧ res_eq tr (w_trace w))
    (mk_world tr h).
Proof.
  induction l as [|[a n] l IH]; intros hd [|f] tr Hseg Hf; try (cbn in Hf; lia); cbn [loop].
  - cbn in Hseg. subst hd. apply wp_bind, wp_ret, wp_ret. cbn. by rewrite app_nil_r.
  - cbn in Hseg. destruct Hseg as (-> & Ha & nx & Hx & Hl). apply wp_bind. unfold disp_round, load.
    rewrite (proj2 (Z.eqb_neq _ _) Ha). wp_run. rewrite Hx. wp_run.
    eapply wp_mono; [apply IH; [exact Hl|cbn in Hf; lia]|]. intros _ w (Hg & Hp & Hres). split; [done|]. split.
    + rewrite Hp. cbn. by rewrite <- app_assoc.
    + etrans; [|exact Hres]. res_solve.
Qed.

(** [disp] prints the numbers of the list in order and changes nothing. *)
Lemma disp_wp tr h hd l : lseg h hd l → (length l < fuel)%nat →
  wp (disp fuel hd) (λ _ w, w_glob w = h ∧ printed (w_trace w) = printed tr ++ l.*2 ∧ res_eq tr (w_trace w)) (mk_world tr h).
Proof.
  intros Hseg Hf. unfold disp. destruct (hd =? NULL) eqn:E.
  - destruct l as [|[a n] l]; [|cbn in Hseg; destruct Hseg as (-> & ? & _); lia].
    wp_run. cbn. split_and!; [done|done|res_solve].
  - apply wp_bind. eapply wp_mono; [by apply disp_loop_wp|]. intros _ [tr' g] (Hg & Hp & Hres). cbn in Hg. subst g.
    apply wp_sys_. intros r _. cbn [w_trace w_glob printed] in *. rewrite app_nil_r. split_and!; [done|done|].
    etrans; [exact Hres|res_solve].
Qed.

(** What a history gives back when it frees the blocks [ps]. *)
Definition freed (tr tr' : list event) (ps : list Z) : Prop := res_delta tr' tr [] ps.

Lemma cleanup_loop_wp l : ∀ hd f tr h, lseg h hd l → NoDup l.*1 → (length l < f)%nat →
  wp (loop f cleanup_round hd) (λ _ w, w_glob w = foldr delete h l.*1 ∧ printed (w_trace w) = printed tr ∧
    freed tr (w_trace w) l.*1) (mk_world tr h).
Proof.
  induction l as [|[a n] l IH]; intros hd [|f] tr h Hseg Hnd Hf; try (cbn in Hf; lia); cbn [loop].
  - cbn in Hseg. subst hd. apply wp_bind, wp_ret, wp_ret. cbn. split; [done|]. split; [done|]. unfold freed. res_solve.
  - cbn in Hseg. destruct Hseg as (-> & Ha & nx & Hx & Hl). apply list.NoDup_cons in Hnd as [Hnin Hnd].
    apply wp_bind. unfold cleanup_round, load. rewrite (proj2 (Z.eqb_neq _ _) Ha). wp_run. rewrite Hx. wp_run.
    eapply wp_mono; [apply IH; [|exact Hnd|cbn in Hf; lia]|].
    { eapply ll_frame; [|exact Hl]. intros b Hb. apply lookup_delete_ne. by intros ->. }
    intros _ w (Hg & Hp & Hres). split; [|split].
    + rewrite Hg. clear. cbn [fmap list_fmap fst foldr]. induction l.*1 as [|b k IH]; [done|]. cbn. by rewrite IH, delete_delete.
    + rewrite Hp. done.
    + unfold freed in *. cbn [fmap list_fmap fst]. destruct Hres as [H1 H2]. unfold NULL in Ha.
      split; intros x; [specialize (H1 x)|specialize (H2 x)]; unfold count in *; cbn [fd_balance fd_delta mem_balance mem_delta foldr] in *; lia.
Qed.

(** [cleanup] gives back every node of the list once, and nothing else. *)
Lemma cleanup_wp tr h hd l : lseg h hd l → NoDup l.*1 → (length l < fuel)%nat →
  wp (cleanup fuel hd) (λ _ w, w_glob w = foldr delete h l.*1 ∧ printed (w_trace w) = printed tr ∧
    freed tr (w_trace w) l.*1) (mk_world tr h).
Proof.
  intros Hseg Hnd Hf. unfold cleanup. destruct (hd =? NULL) eqn:E; [|by apply cleanup_loop_wp].
  destruct l as [|[a n] l]; [|cbn in Hseg; destruct Hseg as (-> & ? & _); lia].
  wp_run. cbn. split; [done|]. split; [by rewrite app_nil_r|]. unfold freed. res_solve.
Qed.

(** Adding a list of numbers. *)
Fixpoint addNodes (head : Z) (ns : list Z) : M (world heap) Z :=
  match ns with [] => mret head | n :: ns => hd ← addNode fuel head n; addNodes hd ns end.

Lemma addNodes_wp ns : ∀ head tr h l, calloc_fresh → list_rep tr h head l → (length l + length ns ≤ fuel)%nat →
  wp (addNodes head ns) (λ hd w, ∃ l', list_rep (w_trace w) (w_glob w) hd (l ++ l') ∧ l'.*2 = ns ∧
    printed (w_trace w) = printed tr ∧ res_delta tr (w_trace w) [] l'.*1) (mk_world tr h).
Proof.
  induction ns as [|n ns IH]; intros head tr h l Hfresh Hrep Hf; cbn [addNodes].
  - apply wp_ret. exists []. rewrite app_nil_r. split; [done|]. split; [done|]. split; [done|]. exact (reflexivity (R := res_eq) tr).
  - cbn in Hf. apply wp_bind. eapply wp_mono; [apply add_wp; [done|exact Hrep|lia]|].
    intros hd [tr1 h1] (t & Hrep1 & Hp1 & Hd1). cbn [w_trace w_glob] in *.
    eapply wp_mono; [apply IH; [done|exact Hrep1|rewrite length_app; cbn; lia]|].
    intros hd' w (l' & Hrep' & Hl' & Hp' & Hd'). exists ((t, n) :: l'). rewrite <- app_assoc in Hrep'.
    split; [done|]. split; [by cbn; f_equal|]. split; [by rewrite Hp'|]. cbn [fmap list_fmap fst].
    by eapply (res_delta_block _ tr1).
Qed.

(** The loop of [main] adds consecutive numbers. *)
Lemma for_addNodes n : ∀ i head w,
  for_range n i (λ i head, addNode fuel head i) head w = addNodes head (seqZ i (Z.of_nat n)) w.
Proof.
  induction n as [|n IH]; intros i head w; [done|]. cbn [for_range].
  replace (seqZ i (Z.of_nat (S n))) with (i :: seqZ (i + 1) (Z.of_nat n))
    by (rewrite (seqZ_cons i (Z.of_nat (S n))) by lia; do 2 f_equal; lia).
  cbn [addNodes]. unfold mbind, M_bind. destruct (addNode fuel head i w); auto.
Qed.

End specs.

Definition ll_session {os : OS} (fuel : nat) (ns : list Z) : M (world heap) unit :=
  head ← addNodes fuel NULL ns; disp fuel head;; cleanup fuel head.

(** A list built with [addNode] from any numbers is displayed in the order of insertion,
    and [cleanup] then gives back every block the nodes took, each exactly once: building,
    displaying and cleaning up terminates, reads no invalid node and leaks nothing. *)
Theorem list_session_correct {os : OS} fuel ns tr : calloc_fresh → (length ns < fuel)%nat →
  wp (ll_session fuel ns) (λ _ w, printed (w_trace w) = printed tr ++ ns ∧ res_eq tr (w_trace w)) (mk_world tr ∅).
Proof.
  intros Hfresh Hf. unfold ll_session. apply wp_bind. eapply wp_mono.
  { apply (addNodes_wp fuel ns NULL tr ∅ []); [done| |cbn; lia]. split; cbn; [done|constructor|by intros a ?%elem_of_nil]. }
  intros hd [tr1 h1] (l & [Hseg Hnd _] & Hns & Hp1 & Hd1). cbn [app w_trace w_glob] in *.
  assert (length l < fuel)%nat by (rewrite <- (length_fmap snd l), Hns; done).
  apply wp_bind. eapply wp_mono; [by apply disp_wp|]. intros _ [tr2 h2] (Hg2 & Hp2 & Hd2). cbn [w_trace w_glob] in *. subst h2.
  eapply wp_mono; [by apply cleanup_wp|]. intros _ w (_ & Hp3 & Hd3). split; [by rewrite Hp3, Hp2, Hp1, Hns|].
  destruct Hd1 as [A1 B1], Hd2 as [A2 B2], Hd3 as [A3 B3]. split; intros x.
  - specialize (A1 x); specialize (A2 x); specialize (A3 x). cbn [count foldr] in *. lia.
  - specialize (B1 x); specialize (B2 x); specialize (B3 x). cbn [count foldr] in *. lia.
Qed.

(** [cleanup] gets the pointer by value, so [main] keeps the address of the freed first
    node, and its second [disp] reads freed memory: the program is undefined whatever the
    allocator, as long as it has memory. *)
Theorem main_uses_freed_list {os : OS} fuel tr : calloc_fresh → (5 < fuel)%nat → main fuel (mk_world tr ∅) = Undef.
Proof.
  intros Hfresh Hf. unfold main. eapply bind_undef_after.
  { unfold wp. rewrite for_addNodes. apply (addNodes_wp fuel (seqZ 0 5) NULL tr ∅ []); [done| |rewrite length_seqZ; cbn; lia].
    split; cbn; [done|constructor|by intros a ?%elem_of_nil]. }
  intros hd [tr1 h1] (l & [Hseg Hnd _] & Hns & _). cbn [app w_trace w_glob] in *.
  assert (Hl : length l = 5%nat) by (rewrite <- (length_fmap snd l), Hns, length_seqZ; done).
  eapply bind_undef_after; [apply disp_wp; [exact Hseg|lia]|]. intros _ [tr2 h2] (Hg2 & _). cbn [w_trace w_glob] in *. subst h2.
  eapply bind_undef_after; [apply cleanup_wp; [exact Hseg|exact Hnd|lia]|]. intros _ [tr3 h3] (Hg3 & _). cbn [w_glob] in Hg3. subst h3.
  destruct l as [|[a n] l]; [done|]. cbn in Hseg. destruct Hseg as (-> & Ha & _). apply bind_undef. unfold disp.
  rewrite (proj2 (Z.eqb_neq _ _) Ha). apply bind_undef. destruct fuel as [|f]; [lia|]. apply loop_undef.
  unfold disp_round, load. rewrite (proj2 (Z.eqb_neq _ _) Ha). apply bind_undef. unfold mbind, M_bind, get_glob, gets.
  cbn [w_glob fmap list_fmap fst foldr]. by rewrite lookup_delete_eq.
Qed.

(** ** Witnesses *)

(** An allocator that never reuses an address. *)
#[local] Instance bump_alloc : OS := λ tr c,
  match c with Calloc _ _ => mk_reply (brk tr + 1) 0 [] | _ => mk_reply 0 0 [] end.

Lemma bump_alloc_fresh : calloc_fresh.
Proof. intros tr n s. cbn. pose proof (brk_nonneg tr). unfold NULL. split; [lia|]. apply brk_fresh. lia. Qed.

Lemma list_session_correct_witness :
  wp (ll_session 4 [7; 8; 9]) (λ _ w, printed (w_trace w) = [7; 8; 9] ∧ res_eq [] (w_trace w)) (mk_world [] ∅).
Proof. apply (list_session_correct 4 [7; 8; 9] []); [apply bump_alloc_fresh|cbn; lia]. Defined.

Lemma main_uses_freed_list_witness : main 6 (mk_world [] ∅) = Undef.
Proof. apply (main_uses_freed_list 6 []); [apply bump_alloc_fresh|lia]. Defined.
