(* ===== verification/Numbers.v ===== *)
(** * Programs on numbers

    - other/int2bits.c: the binary text of a 16-bit integer;
    - other/genUniqNumbers.c: every number of [n] digits;
    - other/bitscan.c: the set bits of a 32-bit word, found with a table.

    Characters are their codes.  A write or a read outside an array, and signed overflow,
    are undefined. *)

From Stdlib Require Import ZArith Lia ZifyBool.
From stdpp Require Import base gmap list strings numbers.
From S2P Require Import Prelude Posix.

(** ** int2bits.c *)

Module Int2Bits.

Section code.
Context {os : OS}.
Abbreviation IM := (M (world (gmap Z (list Z)))).

(** [*buf] afterwards: the block of 17 bytes; the result of [malloc] is not tested. *)
Definition shortint2bin (a : Z) : IM Z :=
  c ← sys (Malloc 17);
  if r_ret c =? NULL then undef
  else
    let garbage := take 17 (r_out c ++ replicate 17 0) in
    '(buf, _) ← for_range 16 0 (λ k '(buf, a),
      buf ← wr buf (15 - k) (Z.land a 1 + 48);
      mret (buf, i16 (Z.shiftr a 1))) (garbage, a);
    buf ← wr buf 16 0;
    upd_glob (<[r_ret c := buf]>);;
    mret (r_ret c).

Definition main : IM Z :=
  let a := i16 32768 in
  sys_ (Printf "%d" [a]);;
  buf ← shortint2bin a;
  sys_ (Free buf);;
  upd_glob (delete buf);;
  mret 0.

End code.

(** The value of a binary text. *)
Definition bin_value (l : list Z) : Z := foldl (λ v c, 2 * v + (c - 48)) 0 l.

(** The [k] low bits of [a], the highest first. *)
Fixpoint bin_text (k : nat) (a : Z) : list Z :=
  match k with O => [] | S k => bin_text k (Z.shiftr a 1) ++ [Z.land a 1 + 48] end.

Lemma length_bin_text k a : length (bin_text k a) = k.
Proof. revert a. induction k as [|k IH]; intros a; [done|]. cbn. rewrite length_app, IH. cbn. lia. Qed.

Lemma land_1 a : Z.land a 1 = a mod 2.
Proof. exact (Z.land_ones a 1 ltac:(lia)). Qed.

(** Each character is the corresponding bit. *)
Lemma bin_text_lookup k a i : (i < k)%nat →
  bin_text k a !! i = Some (48 + Z.b2z (Z.testbit a (Z.of_nat (k - 1 - i)))).
Proof.
  revert a. induction k as [|k IH]; intros a Hi; [lia|]. cbn [bin_text].
  destruct (decide (i < k)%nat) as [Hlt|].
  - rewrite lookup_app_l by (rewrite length_bin_text; lia). rewrite IH by done. do 3 f_equal.
    rewrite Z.shiftr_spec by lia. f_equal. lia.
  - assert (i = k) as -> by lia. rewrite lookup_app_r by (rewrite length_bin_text; lia).
    rewrite length_bin_text. replace (k - k)%nat with 0%nat by lia. cbn [lookup list_lookup]. f_equal.
    replace (S k - 1 - k)%nat with 0%nat by lia. rewrite land_1, <- Z.bit0_mod. change (Z.of_nat 0) with 0. lia.
Qed.

Lemma bin_value_text k a : bin_value (bin_text k a) = a mod 2 ^ Z.of_nat k.
Proof.
  revert a. unfold bin_value. induction k as [|k IH]; intros a; cbn [bin_text]; [symmetry; apply Z.mod_1_r|].
  rewrite foldl_app. cbn [foldl]. rewrite IH, land_1, Z.shiftr_div_pow2 by lia.
  change (2 ^ 1) with 2. replace (2 ^ Z.of_nat (S k)) with (2 * 2 ^ Z.of_nat k)
    by (rewrite Nat2Z.inj_succ, Z.pow_succ_r; lia).
  rewrite Z.rem_mul_r by lia. lia.
Qed.

(** Shifting a 16-bit integer stays in 16 bits. *)
Lemma i16_shiftr a : - 2 ^ 15 ≤ a < 2 ^ 15 → i16 (Z.shiftr a 1) = Z.shiftr a 1.
Proof.
  intros Ha. unfold i16. apply sgn_small; [lia|]. rewrite Z.shiftr_div_pow2 by lia. change (2 ^ (16 - 1)) with (2 ^ 15).
  change (2 ^ 1) with 2. pose proof (Z.div_mod a 2 ltac:(lia)). pose proof (Z.mod_pos_bound a 2 ltac:(lia)). lia.
Qed.

Section specs.
Context {os : OS}.

Lemma bin_loop {T} (w : T) m : ∀ k a pre suf, k = 16 - Z.of_nat m → - 2 ^ 15 ≤ a < 2 ^ 15 → length pre = m →
  for_range m k (λ k '(buf, a),
      buf ← wr buf (15 - k) (Z.land a 1 + 48);
      mret (buf, i16 (Z.shiftr a 1))) (pre ++ suf, a) w = Ok (bin_text m a ++ suf, Z.shiftr a (Z.of_nat m)) w.
Proof.
  induction m as [|m IH]; intros k a pre suf Hk Ha Hpre; cbn [for_range].
  - destruct pre; [|done]. by rewrite Z.shiftr_0_r.
  - destruct (snoc_case pre) as [->|(pre' & x & ->)]; [done|]. rewrite length_app in Hpre. cbn in Hpre.
    rewrite <- app_assoc. cbn [app].
    erewrite bind_ok; [|erewrite bind_ok; [|apply wr_ok; rewrite length_app; cbn; lia]; reflexivity].
    rewrite i16_shiftr by done. replace (Z.to_nat (15 - k)) with (length pre' + 0)%nat by lia.
    rewrite insert_app_r. cbn [insert list_insert].
    rewrite (IH (k + 1)).
    + f_equal. f_equal; [by cbn; rewrite <- app_assoc|]. rewrite Z.shiftr_shiftr by lia. f_equal. lia.
    + lia.
    + rewrite Z.shiftr_div_pow2 by lia. change (2 ^ 1) with 2.
      pose proof (Z.div_mod a 2 ltac:(lia)). pose proof (Z.mod_pos_bound a 2 ltac:(lia)). lia.
    + lia.
Qed.

End specs.

(** For every short the buffer ends up with sixteen characters, the character at [i] being
    bit [15 - i] of the two's complement representation, and a terminator; reading the text
    back in binary and converting it to a short gives the number again. *)
Theorem shortint2bin_roundtrip {os : OS} a tr h : - 2 ^ 15 ≤ a < 2 ^ 15 → r_ret (os_answer tr (Malloc 17)) ≠ NULL →
  wp (shortint2bin a) (λ p w, ∃ text, w_glob w !! p = Some (text ++ [0]) ∧ length text = 16%nat ∧
    (∀ i, (i < 16)%nat → text !! i = Some (48 + Z.b2z (Z.testbit a (15 - Z.of_nat i)))) ∧
    i16 (bin_value text) = a ∧ res_delta tr (w_trace w) [] [p]) (mk_world tr h).
Proof.
  intros Ha Hc. unfold shortint2bin. apply wp_bind, wp_sys. intros c ->.
  rewrite (proj2 (Z.eqb_neq _ _) Hc). set (c := os_answer tr (Malloc 17)) in *. set (g := take 17 _).
  assert (Hg : length g = 17%nat) by (unfold g; rewrite length_take, length_app, length_replicate; lia).
  destruct (snoc_case g) as [->|(pre & x & ->)]; [done|]. rewrite length_app in Hg. cbn in Hg.
  apply wp_bind. unfold wp. rewrite (bin_loop _ 16 0 a pre [x]) by (done || lia).
  change (wp (buf ← wr (bin_text 16 a ++ [x]) 16 0; upd_glob (<[r_ret c:=buf]>);; mret (r_ret c))
    (λ p w, ∃ text, w_glob w !! p = Some (text ++ [0]) ∧ length text = 16%nat ∧
    (∀ i, (i < 16)%nat → text !! i = Some (48 + Z.b2z (Z.testbit a (15 - Z.of_nat i)))) ∧
    i16 (bin_value text) = a ∧ res_delta tr (w_trace w) [] [p]) (mk_world ((Malloc 17, c) :: tr) h)).
  apply wp_bind. unfold wp at 1. rewrite wr_ok by (rewrite length_app, length_bin_text; cbn; lia).
  wp_run. exists (bin_text 16 a). cbn [w_glob w_trace]. rewrite lookup_insert_eq, length_bin_text. split_and!.
  - reflexivity.
  - done.
  - intros i Hi. rewrite bin_text_lookup by done. do 4 f_equal. lia.
  - rewrite bin_value_text. change (Z.of_nat 16) with 16. unfold i16. rewrite <- (sgn_small 16 a) at 2 by (cbn; lia).
    unfold sgn. by rewrite Z.mod_mod by lia.
  - split; intros z; cbn; [lia|]. unfold NULL in Hc. lia.
Qed.

End Int2Bits.

(** ** genUniqNumbers.c *)

Module GenUniq.

Definition SIZE : Z := 10.
Definition g_digits : list Z := seqZ 48 10.

(** [int] multiplication: signed overflow is undefined. *)
Definition int_mul {S} (x y : Z) : M S Z :=
  if (- 2 ^ 31 <=? x * y) && (x * y <? 2 ^ 31) then mret (x * y) else undef.

Section code.
Context {os : OS}.
Abbreviation GM := (M (world unit)).

Definition myPower (base exp : Z) : GM Z :=
  retVal ← for_range (Z.to_nat exp) 0 (λ _ retVal, int_mul retVal base) 1;
  mret (u64 retVal).

(** The inner loop: the digits of [to_print], from the last one. *)
Definition digit_loop (digits : list Z) (numDigits : Z) (number : list Z) (to_print : Z) : GM (list Z * Z) :=
  for_range (Z.to_nat numDigits) 1 (λ j '(number, to_print),
    d ← rd digits (Z.rem to_print SIZE);
    number ← wr number (numDigits - j) d;
    mret (number, Z.quot to_print SIZE)) (number, to_print).

(** [sprintf(msisdn, "268%s", number)] into sixteen bytes. *)
Definition msisdn_of (number : list Z) : GM (list Z) :=
  let s := [50; 54; 56] ++ cstr number in
  if (length s <? 16)%nat then mret s else undef.

Definition generator (digits : list Z) (numDigits : Z) : GM unit :=
  max ← myPower SIZE numDigits;
  c ← sys (Calloc (u64 (numDigits + 1)) 1);
  if r_ret c =? NULL then undef
  else
    number ← wr (replicate (Z.to_nat (numDigits + 1)) 0) numDigits 0;
    for_range (Z.to_nat max) 0 (λ i number,
      '(number, _) ← digit_loop digits numDigits number (i32 i);
      msisdn ← msisdn_of number;
      sys_ (Printf "%s" msisdn);;
      mret number) number;;
    sys_ (Free (r_ret c)).

(** [argv] is the result of [atoi(argv[1])] when there is one argument. *)
Definition main (argv : option Z) : GM Z :=
  match argv with
  | None => sys_ (Printf "Usage : %s <number>" []);; exit_with 1
  | Some n => generator g_digits n;; mret 0
  end.

End code.

(** The [n] low decimal digits of [x] as text. *)
Fixpoint dec (n : nat) (x : Z) : list Z :=
  match n with O => [] | S n => dec n (x / 10) ++ [48 + x mod 10] end.

(** The numbers of [n] digits, in order, after the prefix 268. *)
Definition numbers (n : nat) : list (list Z) := (λ i, [50; 54; 56] ++ dec n i) <$> seqZ 0 (10 ^ Z.of_nat n).

Definition is_digit (c : Z) : Prop := 48 ≤ c ≤ 57.

Lemma dec_length n x : length (dec n x) = n.
Proof. revert x. induction n as [|n IH]; intros x; [done|]. cbn. rewrite length_app, IH. cbn. lia. Qed.

Lemma dec_digits n x : Forall is_digit (dec n x).
Proof.
  revert x. induction n as [|n IH]; intros x; [constructor|]. cbn. apply Forall_app. split; [done|].
  repeat constructor; unfold is_digit; pose proof (Z.mod_pos_bound x 10 ltac:(lia)); lia.
Qed.

Definition dec_value (l : list Z) : Z := foldl (λ v c, 10 * v + (c - 48)) 0 l.

Lemma dec_value_dec n x : dec_value (dec n x) = x mod 10 ^ Z.of_nat n.
Proof.
  revert x. unfold dec_value. induction n as [|n IH]; intros x; cbn [dec]; [symmetry; apply Z.mod_1_r|].
  rewrite foldl_app. cbn [foldl]. rewrite IH.
  replace (10 ^ Z.of_nat (S n)) with (10 * 10 ^ Z.of_nat n) by (rewrite Nat2Z.inj_succ, Z.pow_succ_r; lia).
  rewrite Z.rem_mul_r by lia. lia.
Qed.

Lemma dec_of_value l : Forall is_digit l →
  dec (length l) (dec_value l) = l ∧ 0 ≤ dec_value l < 10 ^ Z.of_nat (length l).
Proof.
  induction l as [|c l IH] using rev_ind; intros Hl; [done|]. apply Forall_app in Hl as [Hl [Hc _]%Forall_cons_1].
  destruct (IH Hl) as [Hd Hv]. unfold dec_value in *. rewrite foldl_app. cbn [foldl].
  set (v := foldl _ 0 l) in *. unfold is_digit in Hc. rewrite length_app, Nat.add_comm. cbn [length Nat.add dec].
  assert (Hq : (10 * v + (c - 48)) / 10 = v) by (symmetry; apply Z.div_unique with (c - 48); lia).
  assert (Hr : (10 * v + (c - 48)) mod 10 = c - 48) by (symmetry; apply Z.mod_unique with v; lia).
  rewrite Hq, Hr, Hd. split; [do 2 f_equal; lia|].
  rewrite Nat2Z.inj_succ, Z.pow_succ_r by lia. lia.
Qed.

Lemma numbers_NoDup n : NoDup (numbers n).
Proof.
  apply NoDup_fmap_2_strong; [|apply NoDup_seqZ]. intros x y Hx%elem_of_seqZ Hy%elem_of_seqZ E%app_inv_head.
  apply (f_equal dec_value) in E. rewrite !dec_value_dec, !Z.mod_small in E by lia. done.
Qed.

Lemma numbers_complete n l : l ∈ numbers n ↔ ∃ ds, l = [50; 54; 56] ++ ds ∧ length ds = n ∧ Forall is_digit ds.
Proof.
  unfold numbers. rewrite list_elem_of_fmap. split.
  - intros (x & -> & _). exists (dec n x). split_and!; [done|apply dec_length|apply dec_digits].
  - intros (ds & -> & <- & Hd). destruct (dec_of_value ds Hd) as [Hv Hr]. exists (dec_value ds).
    rewrite Hv. split; [done|]. apply elem_of_seqZ. lia.
Qed.

Lemma cstr_digits l : Forall is_digit l → cstr (l ++ [0]) = l.
Proof.
  induction 1 as [|c l Hc Hl IH]; [done|]. cbn. unfold is_digit in Hc.
  destruct (Z.eqb_spec c 0); [lia|]. by rewrite IH.
Qed.

Section specs.
Context {os : OS}.

Lemma g_digits_lookup k : 0 ≤ k < 10 → g_digits !! Z.to_nat k = Some (48 + k).
Proof. intros Hk. unfold g_digits. rewrite lookup_seqZ. split; lia. Qed.

Lemma digit_loop_run w m : ∀ n j x pre suf, 0 ≤ x → n - j = Z.of_nat m - 1 → length pre = m →
  for_range m j (λ j '(number, to_print),
    d ← rd g_digits (Z.rem to_print SIZE);
    number ← wr number (n - j) d;
    mret (number, Z.quot to_print SIZE)) (pre ++ suf, x) w = Ok (dec m x ++ suf, x / 10 ^ Z.of_nat m) (w : world unit).
Proof.
  induction m as [|m IH]; intros n j x pre suf Hx Hj Hpre; cbn [for_range].
  - destruct pre; [|done]. change (10 ^ Z.of_nat 0) with 1. by rewrite Z.div_1_r.
  - destruct (snoc_case pre) as [->|(pre' & y & ->)]; [done|]. rewrite length_app in Hpre. cbn in Hpre.
    unfold SIZE. rewrite Z.rem_mod_nonneg, Z.quot_div_nonneg by lia.
    pose proof (Z.mod_pos_bound x 10 ltac:(lia)). pose proof (Z.div_pos x 10 ltac:(lia) ltac:(lia)).
    rewrite <- app_assoc. cbn [app].
    erewrite bind_ok; [|erewrite bind_ok; [|apply rd_ok; [lia|by apply g_digits_lookup]];
      erewrite bind_ok; [|apply wr_ok; rewrite length_app; cbn; lia]; reflexivity].
    replace (Z.to_nat (n - j)) with (length pre' + 0)%nat by lia.
    rewrite insert_app_r. cbn [insert list_insert]. unfold SIZE in IH. rewrite (IH n (j + 1)) by lia.
    f_equal. f_equal; [by cbn; rewrite <- app_assoc|]. rewrite Z.div_div by lia. f_equal.
    rewrite Nat2Z.inj_succ, Z.pow_succ_r; lia.
Qed.

Lemma int_mul_ok {T} x y (w : T) : - 2 ^ 31 ≤ x * y < 2 ^ 31 → int_mul x y w = Ok (x * y) w.
Proof. intros H. unfold int_mul. destruct (Z.leb_spec (- 2 ^ 31) (x * y)), (Z.ltb_spec (x * y) (2 ^ 31)); done || lia. Qed.

Lemma myPower_loop w m : ∀ i r, 0 < r → r * 10 ^ Z.of_nat m < 2 ^ 31 →
  for_range m i (λ _ retVal, int_mul retVal 10) r w = Ok (r * 10 ^ Z.of_nat m) (w : world unit).
Proof.
  induction m as [|m IH]; intros i r Hr Hm; cbn [for_range].
  - change (10 ^ Z.of_nat 0) with 1. by rewrite Z.mul_1_r.
  - rewrite Nat2Z.inj_succ, Z.pow_succ_r in * by lia. pose proof (Z.pow_pos_nonneg 10 (Z.of_nat m) ltac:(lia) ltac:(lia)).
    assert (Hr10 : r * 10 < 2 ^ 31) by nia. erewrite bind_ok by (apply int_mul_ok; lia). rewrite IH by nia. f_equal. nia.
Qed.

(** [myPower] is exact up to 10^9 and overflows above. *)
Lemma myPower_ok n w : 0 ≤ n ≤ 9 → myPower SIZE n w = Ok (10 ^ n) (w : world unit).
Proof.
  intros Hn. unfold myPower, SIZE. assert (Hp : 10 ^ n ≤ 10 ^ 9) by (apply Z.pow_le_mono_r; lia).
  pose proof (Z.pow_pos_nonneg 10 n ltac:(lia) ltac:(lia)).
  erewrite bind_ok by (apply myPower_loop; rewrite ?Z2Nat.id by lia; lia).
  rewrite Z.mul_1_l, Z2Nat.id by lia. unfold mret, M_ret. f_equal. apply u64_small. lia.
Qed.

Lemma myPower_overflows n w : 10 ≤ n → myPower SIZE n w = Undef (S := world unit).
Proof.
  intros Hn. unfold myPower, SIZE. apply bind_undef. replace (Z.to_nat n) with (9 + S (Z.to_nat (n - 10)))%nat by lia.
  eapply (for_range_undef (λ i r _, r = 10 ^ i) _ 0 9); [lia|done| |].
  - intros i r s Hi ->. assert (10 ^ (i + 1) ≤ 10 ^ 9) by (apply Z.pow_le_mono_r; lia).
    rewrite Z.pow_add_r in * by lia. change (10 ^ 1) with 10 in *. pose proof (Z.pow_pos_nonneg 10 i ltac:(lia) ltac:(lia)).
    unfold wp. by rewrite int_mul_ok by lia.
  - intros r s ->. reflexivity.
Qed.

(** One number of the outer loop. *)
Lemma number_wp n i pre tr : 0 ≤ n ≤ 9 → 0 ≤ i < 2 ^ 31 → length pre = Z.to_nat n →
  wp ('(number, _) ← digit_loop g_digits n (pre ++ [0]) (i32 i);
      msisdn ← msisdn_of number;
      sys_ (Printf "%s" msisdn);;
      mret number) (λ number w, number = dec (Z.to_nat n) i ++ [0] ∧ ∃ r,
    w = mk_world ((Printf "%s" ([50; 54; 56] ++ dec (Z.to_nat n) i), r) :: tr) tt) (mk_world tr tt).
Proof.
  intros Hn Hi Hpre. unfold i32. rewrite sgn_small by (cbn; lia). apply wp_bind. unfold wp at 1, digit_loop.
  rewrite (digit_loop_run _ _ n 1 i pre [0]) by lia. apply wp_bind. unfold wp at 1, msisdn_of.
  rewrite cstr_digits by apply dec_digits. rewrite length_app, dec_length.
  destruct (Nat.ltb_spec (length [50; 54; 56] + Z.to_nat n) 16) as [_|Hb]; [|cbn in Hb; lia].
  unfold mret, M_ret. wp_run. split; [done|]. eexists. reflexivity.
Qed.

Lemma seqZ_snoc m k : 0 ≤ k → seqZ m (k + 1) = seqZ m k ++ [m + k].
Proof. intros Hk. by rewrite (seqZ_app m k 1) by lia. Qed.

Lemma generator_wp n tr : 0 ≤ n ≤ 9 → r_ret (os_answer tr (Calloc (u64 (n + 1)) 1)) ≠ NULL →
  wp (generator g_digits n) (λ _ w, lines "%s" (w_trace w) = lines "%s" tr ++ numbers (Z.to_nat n) ∧
    res_eq tr (w_trace w)) (mk_world tr tt).
Proof.
  intros Hn Hc. unfold generator. apply wp_bind. unfold wp at 1. rewrite myPower_ok by done.
  apply wp_bind, wp_sys. intros c ->. rewrite (proj2 (Z.eqb_neq _ _) Hc). set (c := os_answer _ _) in *.
  assert (Hz : replicate (Z.to_nat (n + 1)) 0 = replicate (Z.to_nat n) 0 ++ [0])
    by (rewrite Z2Nat.inj_add by lia; by rewrite replicate_add).
  apply wp_bind. unfold wp at 1. rewrite wr_ok by (rewrite length_replicate; lia). rewrite Hz.
  rewrite insert_app_r_alt by (rewrite length_replicate; lia). rewrite length_replicate.
  replace (Z.to_nat n - Z.to_nat n)%nat with 0%nat by lia. cbn [insert list_insert].
  apply wp_bind. eapply wp_mono.
  { apply (wp_for_range (λ i number w, (∃ pre, number = pre ++ [0] ∧ length pre = Z.to_nat n) ∧
      lines "%s" (w_trace w) = lines "%s" tr ++ ((λ i, [50; 54; 56] ++ dec (Z.to_nat n) i) <$> seqZ 0 i) ∧
      res_delta tr (w_trace w) [] [r_ret c])).
    - split; [exists (replicate (Z.to_nat n) 0); by rewrite length_replicate|]. cbn. rewrite app_nil_r. split; [done|].
      unfold NULL in Hc. split; intros z; cbn; lia.
    - intros i number [tr' []] Hi ((pre & -> & Hpre) & Hl & Hr). cbn [w_trace] in *.
      assert (10 ^ n ≤ 10 ^ 9) by (apply Z.pow_le_mono_r; lia).
      eapply wp_mono; [apply number_wp; [done|lia|done]|]. intros number w (-> & r & ->). split; [|split].
      + eexists. split; [done|apply dec_length].
      + cbn [w_trace lines String.eqb Ascii.eqb Bool.eqb]. rewrite Hl, seqZ_snoc, fmap_app by lia. by rewrite app_assoc.
      + res_solve. }
  intros number [tr' []] (_ & Hl & Hr). apply wp_sys_. intros r _. cbn [w_trace lines] in *. split.
  - rewrite Hl. unfold numbers. do 3 f_equal. rewrite !Z2Nat.id by lia. lia.
  - unfold NULL in Hc. destruct Hr as [H1 H2]. split; intros z; [specialize (H1 z)|specialize (H2 z)];
      cbn [fd_balance fd_delta mem_balance mem_delta count foldr] in *; lia.
Qed.

End specs.

(** For up to nine digits the program prints every number of that many digits after the
    prefix 268, each exactly once, writes nowhere outside its buffers, and gives its block
    back; from ten digits on [myPower] overflows, and a negative count writes before the
    block: both are undefined. *)
Theorem generator_prints_every_number {os : OS} n tr : (∀ tr s, r_ret (os_answer tr (Calloc s 1)) ≠ NULL) →
  if bool_decide (0 ≤ n ≤ 9) then
    wp (main (Some n)) (λ ret w, ret = 0 ∧ res_eq tr (w_trace w) ∧ ∃ out,
      lines "%s" (w_trace w) = lines "%s" tr ++ out ∧ NoDup out ∧
      ∀ l, l ∈ out ↔ ∃ ds, l = [50; 54; 56] ++ ds ∧ length ds = Z.to_nat n ∧ Forall is_digit ds) (mk_world tr tt)
  else main (Some n) (mk_world tr tt) = Undef.
Proof.
  intros Hc. cbn [main]. case_bool_decide as Hn.
  - apply wp_bind. eapply wp_mono; [apply generator_wp; [done|apply Hc]|]. intros _ w [Hl Hr]. apply wp_ret.
    split; [done|]. split; [done|]. exists (numbers (Z.to_nat n)).
    split; [done|]. split; [apply numbers_NoDup|]. intros l. apply numbers_complete.
  - apply bind_undef. unfold generator. destruct (decide (10 ≤ n)); [by apply bind_undef, myPower_overflows|].
    unfold myPower. replace (Z.to_nat n) with 0%nat by lia. cbn [for_range].
    do 2 (erewrite bind_ok by reflexivity). rewrite (proj2 (Z.eqb_neq _ _) (Hc _ _)). apply bind_undef.
    unfold wr. destruct (Z.leb_spec 0 n); [lia|done].
Qed.

End GenUniq.

(** ** bitscan.c *)

Module BitScan.

Definition lut : list Z := seqZ 1 32.
Definition NUM : Z := 305419896.

(** The globals are [inx_tbl] and the bytes of [num], in memory order. *)
Record bs_glob := mk_bs { inx_tbl : list Z; num : list Z }.

Section code.
Context {os : OS}.
Abbreviation BM := (M (world bs_glob)).

Definition set_tbl (i v : Z) : BM unit :=
  g ← get_glob;
  t ← wr (inx_tbl g) i v;
  set_glob (mk_bs t (num g)).

Definition init_bit_inx_table : BM unit :=
  upd_glob (λ g, mk_bs (replicate 128 0) (num g));;
  set_tbl 1 0;; set_tbl 2 1;; set_tbl 4 2;; set_tbl 8 3;;
  set_tbl 16 4;; set_tbl 32 5;; set_tbl 64 6;; set_tbl 128 7.

(** A round of the loop over the bits of the byte [i]. *)
Definition bit_round (i : Z) (_ : unit) : BM (unit + unit) :=
  g ← get_glob;
  byte ← rd (num g) i;
  if byte =? 0 then mret (inr tt)
  else
    let temp := Z.land byte (- byte) mod 256 in
    sys_ (Printf "%x %x" [byte; u32 (- byte)]);;
    let byte := Z.lxor byte temp in
    n ← wr (num g) i byte;
    set_glob (mk_bs (inx_tbl g) n);;
    j ← rd (inx_tbl g) (i * 8 + temp);
    x ← rd lut j;
    sys_ (Printf "%x %d %d" [byte; temp; x]);;
    k ← rd (inx_tbl g) temp;
    y ← rd lut (i * 8 + k);
    sys_ (Printf "---%d %d---" [i; y]);;
    mret (inl tt).

Definition scan_byte (fuel : nat) (i : Z) : BM unit :=
  g ← get_glob;
  byte ← rd (num g) i;
  sys_ (Printf "byte = %x" [byte]);;
  loop fuel (bit_round i) tt.

(** The loop over the four bytes. *)
Definition scan (fuel : nat) : BM unit := for_range 4 0 (λ i _, scan_byte fuel i) tt.

(** A little-endian machine. *)
Definition bytes_of (n : Z) : list Z := [n mod 256; n / 256 mod 256; n / 65536 mod 256; n / 16777216 mod 256].

Definition main (fuel : nat) : BM Z :=
  upd_glob (λ g, mk_bs (inx_tbl g) (bytes_of NUM));;
  init_bit_inx_table;;
  sys_ (Printf "---%x---" [NUM]);;
  scan fuel;;
  mret 0.

End code.

(** The set bits of a byte, lowest first. *)
Definition bits (b : Z) : list Z := filter (λ k, Z.testbit b k = true) (seqZ 0 8).

(** What clearing the lowest set bit does, checked for all bytes. *)
Definition low_bit_ok (b : Z) : bool :=
  (b =? 0) ||
  let t := Z.land b (- b) mod 256 in
  let b' := Z.lxor b t in
  match bits b with
  | [] => false
  | k :: ks => (t =? 2 ^ k) && (0 <=? b') && (b' <? 256) && bool_decide (bits b' = ks) && (0 <=? k) && (k <? 8)
  end.

Lemma low_bit_all : forallb low_bit_ok (seqZ 0 256) = true.
Proof. vm_compute. reflexivity. Qed.

Lemma low_bit b : 0 < b < 256 → let t := Z.land b (- b) mod 256 in ∃ k,
  bits b = k :: bits (Z.lxor b t) ∧ t = 2 ^ k ∧ 0 ≤ k < 8 ∧ 0 ≤ Z.lxor b t < 256.
Proof.
  intros Hb t. assert (Hok : low_bit_ok b = true).
  { eapply forallb_forall; [exact low_bit_all|]. apply list_elem_of_In, elem_of_seqZ. lia. }
  unfold low_bit_ok in Hok. fold t in Hok. destruct (Z.eqb_spec b 0); [lia|]. cbn [orb] in Hok.
  destruct (bits b) as [|k ks]; [done|]. exists k. case_bool_decide; [|rewrite andb_false_r in Hok; done]. subst ks.
  split; [done|]. lia.
Qed.

(** A table with room for every index the loop computes, in which the powers of two are
    numbered. *)
Definition table_ok (t : list Z) : Prop :=
  (∀ k, 0 ≤ k < 8 → t !! Z.to_nat (2 ^ k) = Some k) ∧
  (∀ j, 0 ≤ j < 153 → ∃ v, t !! Z.to_nat j = Some v ∧ 0 ≤ v < 32).

Abbreviation found := (lines "---%d %d---").

Section specs.
Context {os : OS}.
Implicit Types tr : list event.

Lemma lut_lookup {T} k (w : T) : 0 ≤ k < 32 → rd lut k w = Ok (k + 1) w.
Proof. intros Hk. apply rd_ok; [lia|]. unfold lut. rewrite lookup_seqZ. split; lia. Qed.

Lemma bit_loop_wp t i : table_ok t → 0 ≤ i < 4 → ∀ ks b n tr fuel, bits b = ks → 0 ≤ b < 256 →
  length n = 4%nat → n !! Z.to_nat i = Some b → (length ks < fuel)%nat →
  wp (loop fuel (bit_round i) tt) (λ _ w, w_glob w = mk_bs t (<[Z.to_nat i := 0]> n) ∧
    found (w_trace w) = found tr ++ ((λ k, [i; i * 8 + k + 1]) <$> ks)) (mk_world tr (mk_bs t n)).
Proof.
  intros [Hpow Hroom] Hi. induction ks as [|k ks IH]; intros b n tr [|fuel] Hks Hb Hn Hlk Hf; try (cbn in Hf; lia); cbn [loop].
  all: apply wp_bind; unfold bit_round at 1; apply wp_bind, wp_get_glob; cbn [num inx_tbl].
  all: apply wp_bind; unfold wp at 1; rewrite (rd_ok _ _ b) by (done || lia).
  - destruct (Z.eqb_spec b 0) as [->|Hne]; [|destruct (low_bit b ltac:(lia)) as (k & E & _); congruence].
    apply wp_ret, wp_ret. cbn. rewrite app_nil_r, list_insert_id by done. done.
  - destruct (Z.eqb_spec b 0) as [->|Hne]; [done|].
    destruct (low_bit b ltac:(lia)) as (k' & E & Ht & Hk & Hb'). rewrite Hks in E. injection E as <- Hks'.
    rewrite Ht in *. assert (Hp : 2 ^ k ≤ 2 ^ 7) by (apply Z.pow_le_mono_r; lia).
    pose proof (Z.pow_pos_nonneg 2 k ltac:(lia) ltac:(lia)).
    apply wp_bind, wp_sys_. intros r _. apply wp_bind. unfold wp at 1. rewrite wr_ok by lia.
    apply wp_bind, wp_set_glob. destruct (Hroom (i * 8 + 2 ^ k) ltac:(lia)) as (v & Hv & Hvr).
    apply wp_bind. unfold wp at 1. rewrite (rd_ok _ _ v) by (done || lia). apply wp_bind. unfold wp at 1. rewrite lut_lookup by lia.
    apply wp_bind, wp_sys_. intros r1 _. apply wp_bind. unfold wp at 1. rewrite (rd_ok _ _ k) by (auto || lia).
    apply wp_bind. unfold wp at 1. rewrite lut_lookup by lia. apply wp_bind, wp_sys_. intros r2 _. apply wp_ret.
    eapply wp_mono; [apply (IH (Z.lxor b (2 ^ k))); [done|done|by rewrite length_insert| |cbn in Hf; lia]|].
    { apply list_lookup_insert_eq. lia. }
    intros _ w [Hg Hl]. rewrite Hg, list_insert_insert_eq. split; [done|]. rewrite Hl.
    cbn [lines String.eqb Ascii.eqb Bool.eqb]. rewrite !app_nil_r, <- app_assoc. done.
Qed.

Lemma bits_length b : (length (bits b) < 9)%nat.
Proof. unfold bits. pose proof (length_filter (λ k, Z.testbit b k = true) (seqZ 0 8)) as H. rewrite length_seqZ in H. lia. Qed.

Lemma scan_byte_wp fuel t i n b tr : table_ok t → 0 ≤ i < 4 → length n = 4%nat → n !! Z.to_nat i = Some b →
  0 ≤ b < 256 → (9 ≤ fuel)%nat →
  wp (scan_byte fuel i) (λ _ w, w_glob w = mk_bs t (<[Z.to_nat i := 0]> n) ∧
    found (w_trace w) = found tr ++ ((λ k, [i; i * 8 + k + 1]) <$> bits b)) (mk_world tr (mk_bs t n)).
Proof.
  intros Ht Hi Hn Hb Hr Hf. unfold scan_byte. apply wp_bind, wp_get_glob. apply wp_bind. unfold wp at 1.
  cbn [num]. rewrite (rd_ok _ _ b) by (done || lia). apply wp_bind, wp_sys_. intros r _.
  pose proof (bits_length b). eapply wp_mono; [by apply (bit_loop_wp t i Ht Hi (bits b) b n); [..|lia]|].
  intros _ w [Hg Hl]. split; [done|]. rewrite Hl. cbn. by rewrite app_nil_r.
Qed.

Lemma bytes_bound n : Forall (λ b, 0 ≤ b < 256) (bytes_of n).
Proof. repeat constructor; apply Z.mod_pos_bound; lia. Qed.

(** The bit [k] of the byte [i] is the bit [8 i + k] of the word. *)
Lemma bytes_testbit n i b k : bytes_of n !! i = Some b → 0 ≤ k < 8 → Z.testbit b k = Z.testbit n (8 * Z.of_nat i + k).
Proof.
  intros Hi Hk. assert (b = n / 2 ^ (8 * Z.of_nat i) mod 2 ^ 8) as ->.
  { do 4 (destruct i as [|i]; [injection Hi as <-; cbn; rewrite ?Z.div_1_r; done|]). done. }
  rewrite Z.mod_pow2_bits_low, Z.div_pow2_bits by lia. f_equal. lia.
Qed.

(** The positions a byte contributes. *)
Lemma byte_positions n i b (ks : list Z) : bytes_of n !! i = Some b → (∀ k, k ∈ ks → 0 ≤ k < 8) →
  (λ p, [p / 8; p + 1]) <$> filter (λ p, Z.testbit n p = true) (Z.add (8 * Z.of_nat i) <$> ks) =
  (λ k, [Z.of_nat i; Z.of_nat i * 8 + k + 1]) <$> filter (λ k, Z.testbit b k = true) ks.
Proof.
  intros Hi. induction ks as [|k ks IH]; intros Hks; [done|]. rewrite fmap_cons, !filter_cons.
  assert (Hk : 0 ≤ k < 8) by (apply Hks; left). rewrite <- (bytes_testbit n i b k Hi Hk).
  specialize (IH ltac:(intros; apply Hks; by right)). case_decide; [|done]. rewrite !fmap_cons, IH. do 2 f_equal.
  - symmetry. apply Z.div_unique with k; lia.
  - f_equal. lia.
Qed.

End specs.

(** Run with a table that has room for every index, the scan reports exactly the set bits
    of the word, each with the byte it lies in and its number from one, in increasing order,
    and ends with the word cleared. *)
Theorem scan_finds_bits {os : OS} fuel t n tr : table_ok t → 0 ≤ n < 2 ^ 32 → (9 ≤ fuel)%nat →
  wp (scan fuel) (λ _ w, num (w_glob w) = [0; 0; 0; 0] ∧ found (w_trace w) = found tr ++
    ((λ p, [p / 8; p + 1]) <$> filter (λ p, Z.testbit n p = true) (seqZ 0 32))) (mk_world tr (mk_bs t (bytes_of n))).
Proof.
  intros Ht Hn Hf. unfold scan. eapply wp_mono.
  - apply (wp_for_range (λ i _ w, w_glob w = mk_bs t (replicate (Z.to_nat i) 0 ++ drop (Z.to_nat i) (bytes_of n)) ∧
      found (w_trace w) = found tr ++ ((λ p, [p / 8; p + 1]) <$> filter (λ p, Z.testbit n p = true) (seqZ 0 (8 * i))))).
    { cbn. by rewrite app_nil_r. }
    intros i [] [tr' g] Hi [Hg Hl]. cbn [w_glob w_trace] in *. subst g.
    destruct (lookup_lt_is_Some_2 (bytes_of n) (Z.to_nat i)) as [b Hb]; [cbn; lia|].
    assert (Hlk : (replicate (Z.to_nat i) 0 ++ drop (Z.to_nat i) (bytes_of n)) !! Z.to_nat i = Some b).
    { rewrite lookup_app_r, length_replicate, Nat.sub_diag, lookup_drop, Nat.add_0_r by (rewrite length_replicate; lia). done. }
    eapply wp_mono; [apply (scan_byte_wp fuel t i _ b); [done|lia| |done| |done]|].
    { rewrite length_app, length_replicate, length_drop. cbn. lia. }
    { apply (Forall_lookup_1 _ _ _ _ (bytes_bound n) Hb). }
    intros _ w [Hg Hl']. rewrite Hg, Hl', Hl. split.
    + f_equal. rewrite insert_app_r_alt, length_replicate, Nat.sub_diag by (rewrite length_replicate; lia).
      rewrite (drop_S _ _ _ Hb). cbn [insert list_insert]. replace (Z.to_nat (i + 1)) with (Z.to_nat i + 1)%nat by lia.
      rewrite replicate_add, <- app_assoc. rewrite Nat.add_1_r. done.
    + rewrite <- app_assoc. f_equal. replace (8 * (i + 1)) with (8 * i + 8) by lia.
      rewrite seqZ_app, list.filter_app, fmap_app by lia. f_equal. rewrite Z.add_0_l.
      replace (seqZ (8 * i) 8) with (Z.add (8 * i) <$> seqZ 0 8) by (rewrite fmap_add_seqZ; f_equal; lia).
      replace i with (Z.of_nat (Z.to_nat i)) by lia. symmetry. apply byte_positions; [done|].
      intros k Hk%elem_of_seqZ. lia.
  - intros [] w [Hg Hl]. rewrite Hg. done.
Qed.

(** The program never gets that far: [inx_tbl] has 128 entries and the initialisation
    writes the entry 128. *)
Theorem init_writes_past_table {os : OS} fuel w : main fuel w = Undef.
Proof. reflexivity. Qed.

End BitScan.

(** ** Witnesses *)

#[local] Instance alloc_1 : OS := λ tr c,
  match c with Malloc _ | Calloc _ _ => mk_reply 1000 0 [] | _ => mk_reply 0 0 [] end.

Lemma shortint2bin_roundtrip_witness : wp (Int2Bits.shortint2bin (-5)) (λ p w, ∃ text, w_glob w !! p = Some (text ++ [0]) ∧
    length text = 16%nat ∧ (∀ i, (i < 16)%nat → text !! i = Some (48 + Z.b2z (Z.testbit (-5) (15 - Z.of_nat i)))) ∧
    i16 (Int2Bits.bin_value text) = -5 ∧ res_delta [] (w_trace w) [] [p]) (mk_world [] ∅).
Proof. apply (Int2Bits.shortint2bin_roundtrip (-5) [] ∅); [lia|done]. Defined.

Lemma generator_prints_every_number_witness :
  wp (GenUniq.main (Some 2)) (λ ret w, ret = 0 ∧ res_eq [] (w_trace w) ∧ ∃ out,
      lines "%s" (w_trace w) = lines "%s" [] ++ out ∧ NoDup out ∧
      ∀ l, l ∈ out ↔ ∃ ds, l = [50; 54; 56] ++ ds ∧ length ds = Z.to_nat 2 ∧ Forall GenUniq.is_digit ds) (mk_world [] tt).
Proof.
  assert (H : ∀ tr s, r_ret (os_answer tr (Calloc s 1)) ≠ NULL) by (intros tr s; done).
  apply (GenUniq.generator_prints_every_number 2 []) in H. rewrite bool_decide_true in H by lia. exact H.
Defined.

Definition full_table : list Z := Z.log2 <$> seqZ 0 153.

Lemma full_table_ok : BitScan.table_ok full_table.
Proof.
  unfold full_table. split.
  - intros k Hk. assert (2 ^ k ≤ 2 ^ 7) by (apply Z.pow_le_mono_r; lia). pose proof (Z.pow_pos_nonneg 2 k ltac:(lia) ltac:(lia)).
    rewrite list_lookup_fmap, (proj2 (lookup_seqZ 0 153 (Z.to_nat (2 ^ k)) (2 ^ k)) ltac:(lia)). cbn. by rewrite Z.log2_pow2 by lia.
  - intros j Hj. exists (Z.log2 j). rewrite list_lookup_fmap, (proj2 (lookup_seqZ 0 153 (Z.to_nat j) j) ltac:(lia)). split; [done|].
    split; [apply Z.log2_nonneg|]. pose proof (Z.log2_le_mono j 153 ltac:(lia)) as H. change (Z.log2 153) with 7 in H. lia.
Qed.

Lemma scan_finds_bits_witness : wp (BitScan.scan 9) (λ _ w, BitScan.num (w_glob w) = [0; 0; 0; 0] ∧
    lines "---%d %d---" (w_trace w) = (λ p, [p / 8; p + 1]) <$> filter (λ p, Z.testbit BitScan.NUM p = true) (seqZ 0 32))
  (mk_world [] (BitScan.mk_bs full_table (BitScan.bytes_of BitScan.NUM))).
Proof.
  apply (BitScan.scan_finds_bits 9 full_table BitScan.NUM []); [apply full_table_ok|unfold BitScan.NUM; lia|lia].
Defined.
