(* ===== verification/Text.v ===== *)
(** * Programs on text

    - other/miniprintf.c: a small [printf];
    - system/getdir/getDir.c: the directory in which the data of a subscriber are kept.

    Characters are their codes; a C string is the list of its characters, none of them
    NUL. *)

From Stdlib Require Import ZArith Lia ZifyBool.
From stdpp Require Import base gmap list strings numbers pretty.
From S2P Require Import Prelude Posix Numbers.

(** ** miniprintf.c *)

Module MiniPrintf.

(** An argument of a variadic call, after promotion. *)
Inductive varg := AStr (s : list Z) | AInt (z : Z).

Definition PERCENT : Z := 37.

Section code.
Context {os : OS}.
Abbreviation TM := (M (world unit)).

(** The loop over the format: the characters from [p] on and the arguments not yet taken.
    [va_arg] beyond the arguments or at another type is undefined, and so is going on
    after a percent sign at the end, where [*++p] is the terminator and [p++] leaves
    the string. *)
Fixpoint test_loop (p : list Z) (ap : list varg) : TM unit :=
  match p with
  | [] => mret tt
  | c :: p =>
      if negb (c =? PERCENT) then sys_ (Ext "putchar" [c]);; test_loop p ap
      else
        match p with
        | [] => undef
        | d :: p =>
            if d =? 115 then
              match ap with AStr s :: ap => sys_ (Printf "%s" s);; test_loop p ap | _ => undef end
            else if d =? 100 then
              match ap with AInt z :: ap => sys_ (Printf "%d" [z]);; test_loop p ap | _ => undef end
            else if d =? 99 then
              match ap with AInt z :: ap => sys_ (Printf "%c" [sgn 8 z]);; test_loop p ap | _ => undef end
            else test_loop p ap
        end
  end.

Definition test (fmt : list Z) (ap : list varg) : TM unit :=
  sys_ (Printf "%s : %s" fmt);;
  test_loop fmt ap.

Definition main : TM Z :=
  test (codes "mohit_singh %d %c %s %d") [AInt 2; AInt 99; AStr (codes "string"); AInt 32];;
  mret 0.

End code.

(** The heading: the name of the function and the format. *)
Definition heading (fmt : list Z) : list Z := codes "test : " ++ fmt ++ [10].

(** What an event writes to the standard output. *)
Definition written (e : event) : list Z :=
  match e.1 with
  | Ext _ args => args
  | Printf fmt args =>
      if String.eqb fmt "%s : %s" then heading args
      else if String.eqb fmt "%s" then args
      else if String.eqb fmt "%d" then codes (pretty (args !!! 0%nat))
      else if String.eqb fmt "%c" then [(args !!! 0%nat) mod 256]
      else []
  | _ => []
  end.

Fixpoint stdout (tr : list event) : list Z :=
  match tr with [] => [] | e :: tr => stdout tr ++ written e end.

(** ** The reference: read the format first, then fill it *)

Inductive directive := Lit (c : Z) | DStr | DInt | DChr | DSkip (c : Z).

Definition directive_of (c : Z) : directive :=
  if c =? 115 then DStr else if c =? 100 then DInt else if c =? 99 then DChr else DSkip c.

Fixpoint parse (fmt : list Z) : option (list directive) :=
  match fmt with
  | [] => Some []
  | c :: p =>
      if c =? PERCENT then
        match p with [] => None | d :: p => cons (directive_of d) <$> parse p end
      else cons (Lit c) <$> parse p
  end.

Definition takes (d : directive) (a : varg) : option (list Z) :=
  match d, a with
  | DStr, AStr s => Some s
  | DInt, AInt z => Some (codes (pretty z))
  | DChr, AInt z => Some [z mod 256]
  | _, _ => None
  end.

Fixpoint fill (ds : list directive) (args : list varg) : option (list Z) :=
  match ds with
  | [] => Some []
  | Lit c :: ds => cons c <$> fill ds args
  | DSkip _ :: ds => fill ds args
  | d :: ds =>
      match args with
      | [] => None
      | a :: args => t ← takes d a; rest ← fill ds args; Some (t ++ rest)
      end
  end.

Definition format (fmt : list Z) (args : list varg) : option (list Z) := ds ← parse fmt; fill ds args.

Section specs.
Context {os : OS}.

Definition prints (m : M (world unit) unit) (w : world unit) (out : option (list Z)) : Prop :=
  match out with
  | Some text => wp m (λ _ w', stdout (w_trace w') = stdout (w_trace w) ++ text) w
  | None => m w = Undef
  end.

(** Output followed by the rest of the loop. *)
Lemma prints_sys c t (m : M (world unit) unit) w out : (∀ r, written (c, r) = t) →
  (∀ w', prints m w' out) → prints (sys_ c;; m) w (app t <$> out).
Proof.
  intros Hc Hm. destruct w as [tr []]. set (r := os_answer tr c). specialize (Hm (mk_world ((c, r) :: tr) tt)).
  destruct out as [text|]; cbn in *.
  - apply wp_bind, wp_sys_. intros r' ->. eapply wp_mono; [exact Hm|]. intros [] w' E. cbn in E. rewrite E, Hc. by rewrite app_assoc.
  - exact Hm.
Qed.

Lemma sgn8_mod z : sgn 8 z mod 256 = z mod 256.
Proof. by apply (sgn_mod 8). Qed.

Lemma format_app_some (t : list Z) (o : option (list Z)) : (rest ← o; Some (t ++ rest)) = app t <$> o.
Proof. by destruct o. Qed.

(** The call of the source prints what the reference adds. *)
Ltac print_step IH :=
  match goal with |- prints (sys_ ?c;; test_loop ?p ?a) _ ?o =>
    assert (o = app (written (c, mk_reply 0 0 [])) <$> format p a) as ->;
    [unfold format; destruct (parse p) as [ds|]; [|done]; cbn; rewrite ?sgn8_mod; by destruct (fill ds a)
    |apply prints_sys; [done|intros w'; apply IH; lia]] end.

Lemma test_loop_format n : ∀ fmt args w, (length fmt ≤ n)%nat → prints (test_loop fmt args) w (format fmt args).
Proof.
  induction n as [|n IH]; intros [|c fmt] args w Hn; try (cbn in Hn; lia); try (cbn; by rewrite app_nil_r).
  cbn in Hn. unfold format. cbn [test_loop parse]. destruct (c =? PERCENT) eqn:Ec; cbn [negb].
  - destruct fmt as [|d fmt]; [done|]. cbn in Hn. assert (Hlen : (length fmt ≤ n)%nat) by lia. unfold directive_of.
    destruct (d =? 115) eqn:E1; [|destruct (d =? 100) eqn:E2; [|destruct (d =? 99) eqn:E3]].
    1-3: destruct args as [|[s|z] args]; try (destruct (parse fmt); cbn; reflexivity).
    1-3: print_step IH.
    specialize (IH fmt args w Hlen). unfold format in IH. by destruct (parse fmt).
  - print_step IH.
Qed.

End specs.

(** C34: for every format and arguments, the one-pass [test] writes the heading and then
    what the reference formatter computes, which reads the format into directives and
    then fills them; it is undefined exactly when the reference has no text: an argument
    is missing or of the wrong kind, or the format ends in a percent sign. *)
Theorem test_equals_reference {os : OS} fmt args w : prints (test fmt args) w (app (heading fmt) <$> format fmt args).
Proof. unfold test. apply prints_sys; [done|]. intros w'. by eapply test_loop_format. Qed.

Lemma main_prints {os : OS} : wp main (λ _ w,
  stdout (w_trace w) = heading (codes "mohit_singh %d %c %s %d") ++ codes "mohit_singh 2 c string 32") (mk_world [] tt).
Proof. vm_compute. reflexivity. Qed.

End MiniPrintf.

(** ** getDir.c *)

Module GetDir.

Definition DIR_SEP : Z := 47.

Definition is_space (c : Z) : bool := (c =? 32) || ((9 <=? c) && (c <=? 13)).
Definition digit (c : Z) : bool := (48 <=? c) && (c <=? 57).

Fixpoint atoi_digits (acc : Z) (s : list Z) : Z :=
  match s with c :: s => if digit c then atoi_digits (10 * acc + (c - 48)) s else acc | [] => acc end.

Fixpoint atoi (s : list Z) : Z :=
  match s with
  | c :: s' =>
      if is_space c then atoi s'
      else if c =? 45 then - atoi_digits 0 s'
      else if c =? 43 then atoi_digits 0 s'
      else atoi_digits 0 s
  | [] => 0
  end.

(** [%02x] *)
Definition hex_digit (d : Z) : Z := if d <? 10 then 48 + d else 87 + d.
Fixpoint hex (fuel : nat) (x : Z) : list Z :=
  match fuel with
  | O => []
  | S fuel => if x <? 16 then [hex_digit x] else hex fuel (x / 16) ++ [hex_digit (x mod 16)]
  end.
Definition fmt_02x (x : Z) : list Z :=
  let h := hex 8 (u32 x) in replicate (2 - length h) 48 ++ h.

Record gd_glob := mk_gd {
  g_NumOfFirstLevDir : Z;
  g_NumOfSecondLevDir : Z;
  blocks : gmap Z (list Z) }.

Section code.
Context {os : OS}.
Abbreviation DM := (M (world gd_glob)).

(** [strncpy(dst, msisdn + off, n)] for a string of at least [off + n] characters; before
    the string there is nothing to read. *)
Definition copy_from (msisdn : list Z) (off : Z) (n : nat) : DM (list Z) :=
  if off <? 0 then undef else mret (take n (drop (Z.to_nat off) msisdn)).

Definition int_rem (x y : Z) : DM Z := if y =? 0 then undef else mret (Z.rem x y).

(** [dirPath] is the address of a variable; the value is the result and [*dirPath]. *)
Definition getDirectoryForUser (msisdn : option (list Z)) : DM (Z * Z) :=
  match msisdn with
  | None => sys_ (Printf "%s:Error in passing arguments !!!" []);; mret (-1, NULL)
  | Some msisdn =>
      c ← sys (Calloc 32 1);
      if r_ret c =? NULL then sys_ (Printf "%s:Calloc FAILED!!!" []);; mret (-1, NULL)
      else
        let len := Z.of_nat (length msisdn) in
        first2Dig ← copy_from msisdn (len - 2) 2;
        last4Dig ← copy_from msisdn (len - 2 - 6) 6;
        sys_ (Printf "first2Dig = %s last6Dig = %s" []);;
        let sumF := atoi first2Dig in
        let sumS := atoi last4Dig in
        g ← get_glob;
        flev ← int_rem sumF (g_NumOfFirstLevDir g);
        slev ← int_rem sumS (g_NumOfSecondLevDir g);
        let path := fmt_02x flev ++ [DIR_SEP] ++ fmt_02x slev ++ [DIR_SEP] ++ msisdn in
        if (length path <? 32)%nat then
          upd_glob (λ g, mk_gd (g_NumOfFirstLevDir g) (g_NumOfSecondLevDir g) (<[r_ret c := path]> (blocks g)));;
          mret (0, r_ret c)
        else undef
  end.

(** [argv] when there are three arguments. *)
Definition main (argv : option (list Z * list Z * list Z)) : DM Z :=
  match argv with
  | None => sys_ (Printf "Usage : %s <msisdn> <noOfFirstLevelDirs> <noOfSecondLevelDirs>" []);; exit_with 1
  | Some (msisdn, first, second) =>
      upd_glob (λ g, mk_gd (atoi first) (atoi second) (blocks g));;
      if (atoi first =? 0) || (atoi second =? 0) then
        sys_ (Printf "%s:Invalid Value for noOfFirstLevelDirs or noOfSecondLevelDirs...Can't be 0" []);; exit_with 1
      else
        '(iRet, dirPath) ← getDirectoryForUser (Some msisdn);
        if negb (iRet =? 0) then sys_ (Printf "%s:getDirectoryForUser FAILED !!!" []);; exit_with 1
        else
          g ← get_glob;
          path ← expect (blocks g !! dirPath);
          sys_ (Printf "Directory for %s   =   %s" path);;
          sys_ (Free dirPath);;
          mret 0
  end.

End code.

Lemma digit_is c : GenUniq.is_digit c → digit c = true.
Proof. unfold digit, GenUniq.is_digit. lia. Qed.

Lemma atoi_digits_value s : ∀ acc, Forall GenUniq.is_digit s →
  atoi_digits acc s = foldl (λ v c, 10 * v + (c - 48)) acc s.
Proof. induction s as [|c s IH]; intros acc Hs; [done|]. apply Forall_cons_1 in Hs as [Hc Hs]. cbn. rewrite digit_is by done. auto. Qed.

(** On digits [atoi] is the decimal value. *)
Lemma atoi_value s : Forall GenUniq.is_digit s → atoi s = GenUniq.dec_value s.
Proof.
  intros Hs. destruct s as [|c s]; [done|]. cbn [atoi]. pose proof (Forall_cons_1 _ _ _ Hs) as [Hc _].
  unfold GenUniq.is_digit, is_space in *.
  destruct ((c =? 32) || ((9 <=? c) && (c <=? 13))) eqn:E1; [lia|]. destruct (Z.eqb_spec c 45); [lia|].
  destruct (Z.eqb_spec c 43); [lia|]. by apply atoi_digits_value.
Qed.

(** Two hexadecimal digits for a number below 256. *)
Definition hex2 (x : Z) : list Z := [hex_digit (x / 16); hex_digit (x mod 16)].

Lemma fmt_02x_small x : 0 ≤ x < 256 → fmt_02x x = hex2 x.
Proof.
  intros Hx. unfold fmt_02x. rewrite u32_small by lia. cbn [hex].
  destruct (Z.ltb_spec x 16).
  - unfold hex2. rewrite Z.div_small, Z.mod_small by lia. reflexivity.
  - assert (x / 16 < 16) by (apply Z.div_lt_upper_bound; lia).
    destruct (Z.ltb_spec (x / 16) 16); [|lia]. reflexivity.
Qed.

Lemma hex2_inj x y : 0 ≤ x < 256 → 0 ≤ y < 256 → hex2 x = hex2 y → x = y.
Proof.
  unfold hex2, hex_digit. intros Hx Hy [= H1 H2].
  pose proof (Z.div_mod x 16 ltac:(lia)). pose proof (Z.mod_pos_bound x 16 ltac:(lia)).
  pose proof (Z.div_mod y 16 ltac:(lia)). pose proof (Z.mod_pos_bound y 16 ltac:(lia)).
  destruct (x / 16 <? 10) eqn:?, (y / 16 <? 10) eqn:?, (x mod 16 <? 10) eqn:?, (y mod 16 <? 10) eqn:?; lia.
Qed.

Section specs.
Context {os : OS}.

Lemma copy_ok m off n w : 0 ≤ off → copy_from m off n w = Ok (take n (drop (Z.to_nat off) m)) w.
Proof. intros H. unfold copy_from. by rewrite (proj2 (Z.ltb_ge _ _) H). Qed.

Lemma copy_bad m off n w : off < 0 → copy_from m off n w = Undef.
Proof. intros H. unfold copy_from. by rewrite (proj2 (Z.ltb_lt _ _) H). Qed.

Lemma int_rem_ok x y w : 0 ≤ x → 0 < y → int_rem x y w = Ok (x mod y) w.
Proof.
  intros Hx Hy. unfold int_rem. rewrite (proj2 (Z.eqb_neq _ _)) by lia. by rewrite Z.rem_mod_nonneg by lia.
Qed.

(** The two levels of directory of a subscriber's number. *)
Definition level1 (m : list Z) (g1 : Z) : Z := GenUniq.dec_value (drop (length m - 2) m) mod g1.
Definition level2 (m : list Z) (g2 : Z) : Z := GenUniq.dec_value (take 6 (drop (length m - 8) m)) mod g2.
Definition user_path (m : list Z) (g1 g2 : Z) : list Z :=
  hex2 (level1 m g1) ++ [DIR_SEP] ++ hex2 (level2 m g2) ++ [DIR_SEP] ++ m.

Lemma dec_value_nonneg l : Forall GenUniq.is_digit l → 0 ≤ GenUniq.dec_value l.
Proof. intros Hl. pose proof (GenUniq.dec_of_value l Hl). lia. Qed.

(** The computation up to the path, for a number that is long enough. *)
Lemma dir_path_run m tr g : Forall GenUniq.is_digit m → (8 ≤ length m)%nat →
  0 < g_NumOfFirstLevDir g ≤ 256 → 0 < g_NumOfSecondLevDir g ≤ 256 →
  r_ret (os_answer tr (Calloc 32 1)) ≠ NULL →
  let c := os_answer tr (Calloc 32 1) in
  let path := user_path m (g_NumOfFirstLevDir g) (g_NumOfSecondLevDir g) in ∃ r,
  getDirectoryForUser (Some m) (mk_world tr g) =
  (if (length path <? 32)%nat then
     upd_glob (λ g, mk_gd (g_NumOfFirstLevDir g) (g_NumOfSecondLevDir g) (<[r_ret c := path]> (blocks g)));;
     mret (0, r_ret c)
   else undef) (mk_world ((Printf "first2Dig = %s last6Dig = %s" [], r) :: (Calloc 32 1, c) :: tr) g).
Proof.
  intros Hm Hlen H1 H2 Hc c path. eexists. cbn [getDirectoryForUser]. erewrite bind_ok by reflexivity. cbn [w_trace w_glob]. fold c.
  rewrite (proj2 (Z.eqb_neq (r_ret c) NULL) Hc). do 2 (erewrite bind_ok by (apply copy_ok; lia)).
  erewrite bind_ok by reflexivity. erewrite bind_ok by reflexivity. cbn [w_glob].
  replace (Z.to_nat (Z.of_nat (length m) - 2)) with (length m - 2)%nat by lia.
  replace (Z.to_nat (Z.of_nat (length m) - 2 - 6)) with (length m - 8)%nat by lia.
  assert (Hd : take 2 (drop (length m - 2) m) = drop (length m - 2) m) by (apply take_ge; rewrite length_drop; lia).
  rewrite Hd. assert (Hf1 : Forall GenUniq.is_digit (drop (length m - 2) m)) by by apply Forall_drop.
  assert (Hf2 : Forall GenUniq.is_digit (take 6 (drop (length m - 8) m))) by by apply Forall_take, Forall_drop.
  rewrite !atoi_value by done. pose proof (dec_value_nonneg _ Hf1). pose proof (dec_value_nonneg _ Hf2).
  do 2 (erewrite bind_ok by (apply int_rem_ok; lia)).
  fold (level1 m (g_NumOfFirstLevDir g)) (level2 m (g_NumOfSecondLevDir g)).
  rewrite (fmt_02x_small (level1 _ _)), (fmt_02x_small (level2 _ _)); [reflexivity|unfold level2|unfold level1].
  - pose proof (Z.mod_pos_bound (GenUniq.dec_value (take 6 (drop (length m - 8) m))) (g_NumOfSecondLevDir g) ltac:(lia)). lia.
  - pose proof (Z.mod_pos_bound (GenUniq.dec_value (drop (length m - 2) m)) (g_NumOfFirstLevDir g) ltac:(lia)). lia.
Qed.

End specs.

(** With 1 to 256 directories on each level, a number of 8 to 25 digits gets the path whose
    first level is its last two digits and whose second level is the six digits before them,
    each modulo the number of directories and in two hexadecimal digits, in a block the
    caller owns; a shorter number is read from before its start and a longer one overflows
    the block of 32 bytes. *)
Theorem directory_for_user {os : OS} m tr g : Forall GenUniq.is_digit m →
  0 < g_NumOfFirstLevDir g ≤ 256 → 0 < g_NumOfSecondLevDir g ≤ 256 → r_ret (os_answer tr (Calloc 32 1)) ≠ NULL →
  if bool_decide (8 ≤ length m ≤ 25)%nat then
    wp (getDirectoryForUser (Some m)) (λ '(ret, p) w, ret = 0 ∧ res_delta tr (w_trace w) [] [p] ∧
      blocks (w_glob w) !! p = Some (user_path m (g_NumOfFirstLevDir g) (g_NumOfSecondLevDir g))) (mk_world tr g)
  else getDirectoryForUser (Some m) (mk_world tr g) = Undef.
Proof.
  intros Hm H1 H2 Hc. destruct (decide (8 ≤ length m)%nat) as [Hlen|Hlen].
  - destruct (dir_path_run m tr g Hm Hlen H1 H2 Hc) as [r E]. rewrite bool_decide_decide.
    assert (Hl : length (user_path m (g_NumOfFirstLevDir g) (g_NumOfSecondLevDir g)) = (6 + length m)%nat) by done.
    cbv zeta in E. destruct (length (user_path m (g_NumOfFirstLevDir g) (g_NumOfSecondLevDir g)) <? 32)%nat eqn:E32.
    + rewrite decide_True by lia. erewrite bind_ok in E by reflexivity. unfold wp. rewrite E. unfold mret, M_ret.
      cbn [w_glob w_trace blocks]. rewrite lookup_insert_eq. split; [done|]. split; [|done]. unfold NULL in Hc. split; intros z; cbn; lia.
    + rewrite decide_False by lia. exact E.
  - rewrite bool_decide_false by lia. cbn [getDirectoryForUser]. erewrite bind_ok by reflexivity. cbn [w_trace w_glob].
    rewrite (proj2 (Z.eqb_neq _ _) Hc). destruct (decide (2 ≤ length m)%nat).
    + erewrite bind_ok by (apply copy_ok; lia). apply bind_undef, copy_bad. lia.
    + apply bind_undef, copy_bad. lia.
Qed.

End GetDir.

(** ** Witnesses *)

#[local] Instance one_block : OS := λ tr c, mk_reply 4096 0 [].

Example user_path_example : GetDir.user_path (codes "919812345678") 16 256 = codes "0e/40/919812345678".
Proof. vm_compute. reflexivity. Qed.

Lemma directory_for_user_witness :
  wp (GetDir.getDirectoryForUser (Some (codes "919812345678"))) (λ '(ret, p) w, ret = 0 ∧ res_delta [] (w_trace w) [] [p] ∧
      GetDir.blocks (w_glob w) !! p = Some (GetDir.user_path (codes "919812345678") 16 256)) (mk_world [] (GetDir.mk_gd 16 256 ∅)).
Proof.
  pose proof (GetDir.directory_for_user (codes "919812345678") [] (GetDir.mk_gd 16 256 ∅)) as H.
  cbn [GetDir.g_NumOfFirstLevDir GetDir.g_NumOfSecondLevDir] in H.
  rewrite bool_decide_true in H by (cbn; lia). apply H; [|lia|lia|done].
  repeat constructor; unfold GenUniq.is_digit; cbn; lia.
Defined.
