(* ===== verification/Driver.v ===== *)
(** * A character device and its client (system/ioctl)

    driver_ioctl.c is a kernel module that keeps a code and a value and hands them over
    with [ioctl]; user_ioctl.c is the program that asks for them or sets them.  The two
    are composed: the [ioctl] of the program runs the handler of the module.  The kernel
    functions the module calls are calls of the environment; the objects they register
    are counted ([held]). *)

From Stdlib Require Import ZArith Lia ZifyBool.
From stdpp Require Import base gmap list strings numbers.
From S2P Require Import Prelude Posix.

(** [test_ioctl_t] *)
Record test_ioctl := mk_io { io_code : Z; io_val : Z }.

(** [_IOR('q', 1, test_ioctl_t * )] and [_IOR('q', 2, test_ioctl_t * )] *)
Definition TEST_GET : Z := Z.lor (Z.lor (Z.shiftl 2 30) (Z.shiftl 8 16)) (Z.lor (Z.shiftl 113 8) 1).
Definition TEST_SET : Z := Z.lor (Z.lor (Z.shiftl 2 30) (Z.shiftl 8 16)) (Z.lor (Z.shiftl 113 8) 2).
Definition EACCES : Z := 13.
Definition FIRST_MINOR : Z := 0.
Definition MINOR_CNT : Z := 1.
Definition O_RDWR : Z := 2.

(** The static variables of the module. *)
Record drv := mk_drv { code : Z; val : Z; dev : Z; cl : Z }.
Definition drv_start : drv := mk_drv 20020 10010 0 0.

Section code.
Context {os : OS}.
Abbreviation DM := (M (world drv)).

(** ** The module *)

(** [arg] is the address of the caller's structure [io]; the value is the result and the
    structure afterwards. *)
Definition driver_ioctl (cmd : Z) (io : test_ioctl) : DM (Z * test_ioctl) :=
  if cmd =? TEST_GET then
    g ← get_glob;
    c ← sys (Ext "copy_to_user" [code g; val g]);
    if negb (r_ret c =? 0) then mret (- EACCES, mk_io (r_out c !!! 0%nat) (r_out c !!! 1%nat))
    else mret (0, mk_io (code g) (val g))
  else if cmd =? TEST_SET then
    c ← sys (Ext "copy_from_user" [io_code io; io_val io]);
    if negb (r_ret c =? 0) then mret (- EACCES, io)
    else upd_glob (λ g, mk_drv (io_code io) (io_val io) (dev g) (cl g));; mret (0, io)
  else mret (0, io).

Definition IS_ERR (p : Z) : bool := (-4095 <=? p) && (p <? 0).

Definition driver_ioctl_init : DM Z :=
  a ← sys (Ext "alloc_chrdev_region" [FIRST_MINOR; MINOR_CNT]);
  if r_ret a <? 0 then mret (r_ret a)
  else
    let d := r_out a !!! 0%nat in
    upd_glob (λ g, mk_drv (code g) (val g) d (cl g));;
    sys_ (Ext "cdev_init" []);;
    b ← sys (Ext "cdev_add" [d; MINOR_CNT]);
    if r_ret b <? 0 then mret (r_ret b)
    else
      c ← sys (Ext "class_create" []);
      upd_glob (λ g, mk_drv (code g) (val g) (dev g) (r_ret c));;
      if IS_ERR (r_ret c) then
        sys_ (Ext "cdev_del" []);;
        sys_ (Ext "unregister_chrdev_region" [d; MINOR_CNT]);;
        mret (r_ret c)
      else
        e ← sys (Ext "device_create" [r_ret c; d]);
        if IS_ERR (r_ret e) then
          sys_ (Ext "class_destroy" [r_ret c]);;
          sys_ (Ext "cdev_del" []);;
          sys_ (Ext "unregister_chrdev_region" [d; MINOR_CNT]);;
          mret (r_ret e)
        else mret 0.

Definition driver_ioctl_exit : DM unit :=
  g ← get_glob;
  sys_ (Ext "device_destroy" [cl g; dev g]);;
  sys_ (Ext "class_destroy" [cl g]);;
  sys_ (Ext "cdev_del" []);;
  sys_ (Ext "unregister_chrdev_region" [dev g; MINOR_CNT]).

(** ** The program *)

(** [ioctl(fd, cmd, &io)] on the device: a negative result of the handler becomes -1. *)
Definition ioctl (cmd : Z) (io : test_ioctl) : DM (Z * test_ioctl) :=
  '(r, io) ← driver_ioctl cmd io;
  mret (if r <? 0 then -1 else r, io).

(** [scanf("%d", &x)]: the variable keeps its value when nothing is converted. *)
Definition scanf_d (x : Z) : DM Z :=
  r ← sys (Ext "scanf" []);
  mret (if r_ret r =? 1 then r_out r !!! 0%nat else x).

(** [argv] is [atoi(argv[1])] when there is one argument; [io0] is what the uninitialised
    structure holds. *)
Definition main (argv : option Z) (io0 : test_ioctl) : DM Z :=
  match argv with
  | None =>
      sys_ (Printf "Wrong no of arguments!" []);;
      sys_ (Printf "Usage: %s <1-get, 2-set>" []);;
      exit_with 1
  | Some op =>
      f ← sys (Open "/dev/driver" O_RDWR);
      if r_ret f =? -1 then sys_ (Printf "Error in fopen" []);; exit_with 2
      else
        (if op =? 1 then
           '(r, io) ← ioctl TEST_GET io0;
           (if negb (r =? 0) then sys_ (Printf "Error in ioctl get" []) else mret tt);;
           sys_ (Printf "ioctl get result : %d %d" [io_code io; io_val io])
         else if op =? 2 then
           sys_ (Printf "enter code:" []);;
           c ← scanf_d (io_code io0);
           sys_ (Printf "enter val:" []);;
           v ← scanf_d (io_val io0);
           '(r, _) ← ioctl TEST_SET (mk_io c v);
           (if negb (r =? 0) then sys_ (Printf "Error in ioctl set" []) else mret tt);;
           sys_ (Printf "ioctl set done!" [])
         else sys_ (Printf "unknown operation" []));;
        mret 0
  end.

End code.

(** ** What the module has registered *)

Inductive kobj := Region | Cdev | Class_ | Device.

#[global] Instance kobj_eq_dec : EqDecision kobj.
Proof. solve_decision. Defined.

(** The object a kernel function registers when it succeeds, or removes. *)
Definition kdelta (e : event) (k : kobj) : Z :=
  match e.1 with
  | Ext name _ =>
      let on o := Z.b2z (bool_decide (k = o)) in
      if String.eqb name "alloc_chrdev_region" then (if r_ret e.2 <? 0 then 0 else on Region)
      else if String.eqb name "cdev_add" then (if r_ret e.2 <? 0 then 0 else on Cdev)
      else if String.eqb name "class_create" then (if IS_ERR (r_ret e.2) then 0 else on Class_)
      else if String.eqb name "device_create" then (if IS_ERR (r_ret e.2) then 0 else on Device)
      else if String.eqb name "unregister_chrdev_region" then - on Region
      else if String.eqb name "cdev_del" then - on Cdev
      else if String.eqb name "class_destroy" then - on Class_
      else if String.eqb name "device_destroy" then - on Device
      else 0
  | _ => 0
  end.

Fixpoint held (tr : list event) (k : kobj) : Z :=
  match tr with [] => 0 | e :: tr => kdelta e k + held tr k end.

(** The numbers the user typed. *)
Fixpoint typed (tr : list event) : list Z :=
  match tr with
  | [] => []
  | (Ext name _, r) :: tr => typed tr ++ (if String.eqb name "scanf" then [r_out r !!! 0%nat] else [])
  | _ :: tr => typed tr
  end.

Ltac held_solve := intros k; destruct k; cbn [w_trace held kdelta fst snd String.eqb Ascii.eqb Bool.eqb bool_decide Z.b2z];
  repeat match goal with E : (_ <? 0) = _ |- _ => rewrite E | E : IS_ERR _ = _ |- _ => rewrite E end;
  repeat case_bool_decide; simplify_eq; cbn; lia.

(** Loading the module registers its region, device, class and node and returns 0, after
    which unloading removes exactly these; a failed load returns a negative error and has
    removed what it registered, except that a failing [cdev_add] leaves the region of
    device numbers allocated. *)
Theorem driver_load_unload {os : OS} tr g :
  wp driver_ioctl_init (λ ret w,
    (ret = 0 ∧ (∀ k, held (w_trace w) k = held tr k + 1) ∧
       wp driver_ioctl_exit (λ _ w', ∀ k, held (w_trace w') k = held tr k) w) ∨
    (ret < 0 ∧ ∀ k, held (w_trace w) k = held tr k) ∨
    (ret < 0 ∧ (∃ a r, (Ext "cdev_add" a, r) ∈ w_trace w ∧ r_ret r = ret) ∧
       ∀ k, held (w_trace w) k = held tr k + Z.b2z (bool_decide (k = Region)))) (mk_world tr g).
Proof.
  unfold driver_ioctl_init. wp_run.
  - right. left. split; [lia|held_solve].
  - right. right. split; [lia|]. split; [|held_solve]. cbn [w_trace]. eexists _, _. split; [left|done].
  - right. left. split; [unfold IS_ERR in *; lia|held_solve].
  - right. left. split; [unfold IS_ERR in *; lia|held_solve].
  - left. split; [done|]. split; [held_solve|]. unfold driver_ioctl_exit. wp_run. held_solve.
Qed.

(** The kernel copies between the program and the module, the device can be opened and the
    user types numbers. *)
Class WORKS {os : OS} : Prop := {
  works_open : ∀ tr p f, 0 ≤ r_ret (os_answer tr (Open p f));
  works_to : ∀ tr a, r_ret (os_answer tr (Ext "copy_to_user" a)) = 0;
  works_from : ∀ tr a, r_ret (os_answer tr (Ext "copy_from_user" a)) = 0;
  works_scanf : ∀ tr, r_ret (os_answer tr (Ext "scanf" [])) = 1 }.

Section works.
Context {os : OS} {W : WORKS}.
Abbreviation got := (lines "ioctl get result : %d %d").

Lemma wp_ioctl_get io tr g Q : (∀ r, Q (0, mk_io (code g) (val g)) (mk_world ((Ext "copy_to_user" [code g; val g], r) :: tr) g)) →
  wp (ioctl TEST_GET io) Q (mk_world tr g).
Proof.
  intros HQ. unfold ioctl, driver_ioctl. cbn [Z.eqb Pos.eqb]. apply wp_bind, wp_bind, wp_get_glob, wp_bind, wp_sys.
  intros r Hr. rewrite Hr at 1. rewrite works_to. apply wp_ret, wp_ret, HQ.
Qed.

Lemma wp_ioctl_set io tr g Q : (∀ r, Q (0, io) (mk_world ((Ext "copy_from_user" [io_code io; io_val io], r) :: tr)
    (mk_drv (io_code io) (io_val io) (dev g) (cl g)))) →
  wp (ioctl TEST_SET io) Q (mk_world tr g).
Proof.
  intros HQ. unfold ioctl, driver_ioctl. change (TEST_SET =? TEST_GET) with false. change (TEST_SET =? TEST_SET) with true.
  cbv iota. apply wp_bind, wp_bind, wp_sys. intros r Hr. rewrite Hr at 1. rewrite works_from.
  apply wp_bind, wp_upd_glob, wp_ret, wp_ret, HQ.
Qed.

Lemma wp_scanf_d x tr (g : drv) Q : (∀ r, Q (r_out r !!! 0%nat) (mk_world ((Ext "scanf" [], r) :: tr) g)) →
  wp (scanf_d x) Q (mk_world tr g).
Proof.
  intros HQ. unfold scanf_d. apply wp_bind, wp_sys. intros r Hr. assert (Hs : r_ret r = 1) by (rewrite Hr; apply works_scanf).
  rewrite Hs. apply wp_ret, HQ.
Qed.

Lemma wp_opened tr (g : drv) (k : reply → M (world drv) Z) Q :
  (∀ r, wp (k r) Q (mk_world ((Open "/dev/driver" O_RDWR, r) :: tr) g)) →
  wp (f ← sys (Open "/dev/driver" O_RDWR); if r_ret f =? -1 then sys_ (Printf "Error in fopen" []);; exit_with 2 else k f)
    Q (mk_world tr g).
Proof.
  intros Hk. apply wp_bind, wp_sys. intros r Hr. assert (0 ≤ r_ret r) by (rewrite Hr; apply works_open).
  rewrite (proj2 (Z.eqb_neq _ _)) by lia. apply Hk.
Qed.

Lemma set_wp io tr g : wp (main (Some 2) io) (λ ret w, ret = 0 ∧ ∃ c v, typed (w_trace w) = typed tr ++ [c; v] ∧
  code (w_glob w) = c ∧ val (w_glob w) = v ∧ got (w_trace w) = got tr) (mk_world tr g).
Proof.
  unfold main. cbn [Z.eqb Pos.eqb]. apply wp_opened. intros r.
  apply wp_bind, wp_bind, wp_sys_. intros r1 _. apply wp_bind, wp_scanf_d. intros r2. apply wp_bind, wp_sys_. intros r3 _.
  apply wp_bind, wp_scanf_d. intros r4. apply wp_bind, wp_ioctl_set. intros r5. apply wp_bind, wp_ret, wp_sys_. intros r6 _.
  apply wp_ret. split; [done|]. exists (r_out r2 !!! 0%nat), (r_out r4 !!! 0%nat). split_and!; try done.
  - cbn. by rewrite !app_nil_r, <- app_assoc.
  - cbn. by rewrite !app_nil_r.
Qed.

Lemma get_wp io tr g : wp (main (Some 1) io) (λ ret w, ret = 0 ∧ typed (w_trace w) = typed tr ∧ w_glob w = g ∧
  got (w_trace w) = got tr ++ [[code g; val g]]) (mk_world tr g).
Proof.
  unfold main. cbn [Z.eqb Pos.eqb]. apply wp_opened. intros r. apply wp_bind, wp_bind, wp_ioctl_get. intros r1.
  apply wp_bind, wp_ret, wp_sys_. intros r2 _. apply wp_ret. split_and!; try done. cbn. by rewrite !app_nil_r.
Qed.

End works.

(** The program that sets the code and the value, followed by the program that gets them,
    prints the two numbers the user typed: the values make the round trip through the
    structure, the two [ioctl]s and the module's variables. *)
Theorem set_then_get {os : OS} {W : WORKS} io1 io2 tr g :
  wp (main (Some 2) io1;; main (Some 1) io2) (λ ret w, ret = 0 ∧ ∃ c v, typed (w_trace w) = typed tr ++ [c; v] ∧
    code (w_glob w) = c ∧ val (w_glob w) = v ∧
    lines "ioctl get result : %d %d" (w_trace w) = lines "ioctl get result : %d %d" tr ++ [[c; v]]) (mk_world tr g).
Proof.
  apply wp_bind. eapply wp_mono; [apply set_wp|]. intros ret [tr1 g1] (_ & c & v & Ht & Hc & Hv & Hl).
  cbn [w_trace w_glob] in *. eapply wp_mono; [apply get_wp|]. intros ret2 w (-> & Ht2 & -> & Hl2).
  split; [done|]. exists c, v. rewrite Ht2, Hl2, Hl, Hc, Hv. done.
Qed.

(** ** Witnesses *)

#[local] Instance typing_os : OS := λ tr c,
  match c with
  | Ext "scanf" _ => mk_reply 1 0 [Z.of_nat (length tr)]
  | Open _ _ => mk_reply 3 0 []
  | _ => mk_reply 0 0 []
  end.

#[local] Instance typing_works : WORKS.
Proof. by split. Qed.

Lemma set_then_get_witness : wp (main (Some 2) (mk_io 0 0);; main (Some 1) (mk_io 0 0)) (λ ret w, ret = 0 ∧ ∃ c v,
    typed (w_trace w) = [c; v] ∧ code (w_glob w) = c ∧ val (w_glob w) = v ∧
    lines "ioctl get result : %d %d" (w_trace w) = [[c; v]]) (mk_world [] drv_start).
Proof. apply (set_then_get (W := typing_works) (mk_io 0 0) (mk_io 0 0) [] drv_start). Defined.
