(* ===== verification/FileCopy.v ===== *)
(** * Copying a file (system/aio)

    read_write.c reads ./logs into a growing buffer and writes it to ./copy.
    async_read_write.c does the same with asynchronous reads: every completion runs
    [read_callback], which asks for the next part or, at the end of the file, writes the
    copy.  The buffer is a block of bytes; a request of the asynchronous program names the
    address its bytes are stored at. *)

From Stdlib Require Import ZArith Lia ZifyBool.
From stdpp Require Import base gmap list strings numbers.
From S2P Require Import Prelude Posix.

Definition ALLOC_SIZE : Z := 4096.
Definition REALLOC_THRESHOLD : Z := 128.
Definition READ_FILE_NAME : string := "./logs".
Definition WRITE_FILE_NAME : string := "./copy".
Definition O_RDONLY : Z := 0.
Definition O_WRONLY_O_CREAT : Z := 65.
Definition ECANCELED : Z := 125.

(** A growing buffer: the address and the bytes of its block, the size the program believes it
    has, and the number of bytes read so far. *)
Record rbuf := mk_rbuf { buf : Z; block : list Z; buf_size : Z; buf_len : Z }.

(** [write(fd, buf, buf_len)] and the like use the first [buf_len] bytes. *)
Definition data (b : rbuf) : list Z := take (Z.to_nat (buf_len b)) (block b).

(** Doubling a [long]. *)
Definition long_double {S} (x : Z) : M S Z := if 2 * x <? 2 ^ 63 then mret (2 * x) else undef.

(** ** read_write.c *)

Section sync.
Context {os : OS} (fuel : nat).
Abbreviation FM := (M (world unit)).

(** Adding pointers to NULL or reading through it is undefined; the results of [malloc] and
    [realloc] are not tested. *)
Definition grow {G} (b : rbuf) : M (world G) rbuf :=
  if buf_size b - buf_len b <=? REALLOC_THRESHOLD then
    sz ← long_double (buf_size b);
    '(p, blk) ← sys_realloc (buf b) (block b) sz;
    sys_ (Printf "realloced the buffer, buf_size %ld" [sz]);;
    mret (mk_rbuf p blk sz (buf_len b))
  else mret b.

Definition read_round (read_fd : Z) (b : rbuf) : FM (rbuf + rbuf) :=
  if buf b =? NULL then undef
  else
    r ← sys (Read read_fd (buf_size b - buf_len b));
    let bytes_read := r_ret r in
    if bytes_read <? 0 then sys_ (Printf "Error [%d] [%s] in read" [r_errno r]);; mret (inr b)
    else if bytes_read =? 0 then sys_ (Printf "EOF is reached" []);; mret (inr b)
    else
      blk ← store_bytes (block b) (buf_len b) (take (Z.to_nat bytes_read) (r_out r));
      let b := mk_rbuf (buf b) blk (buf_size b) (buf_len b + bytes_read) in
      sys_ (Printf "bytes_read %d, buf_len %ld" [bytes_read; buf_len b]);;
      b ← grow b;
      mret (inl b).

(** Opening the copy and writing what was read. *)
Definition write_copy {G} (b : rbuf) : M (world G) unit :=
  f ← sys (Open WRITE_FILE_NAME O_WRONLY_O_CREAT);
  let write_fd := r_ret f in
  if write_fd <? 0 then sys_ (Printf "Error [%d] [%s] in open" [r_errno f]);; exit_with 1
  else
    w ← sys (Write write_fd (data b));
    (if r_ret w <? 0 then sys_ (Printf "Error [%d] [%s] in write" [r_errno w]) else mret tt);;
    sys_ (Printf "bytes_written %d" [r_ret w]).

Definition main : FM Z :=
  '(p, blk) ← sys_malloc (1 * ALLOC_SIZE);
  let b := mk_rbuf p blk ALLOC_SIZE 0 in
  f ← sys (Open READ_FILE_NAME O_RDONLY);
  let read_fd := r_ret f in
  if read_fd <? 0 then sys_ (Printf "Error [%d] [%s] in open" [r_errno f]);; exit_with 1
  else
    b ← loop fuel (read_round read_fd) b;
    write_copy b;;
    mret 0.

End sync.

(** ** async_read_write.c *)

(** [struct read_info], with the fields of the control block that are used. *)
Record read_info := mk_ri { fd : Z; rb : rbuf; aio_fildes : Z; aio_offset : Z; aio_nbytes : Z; aio_buf : Z }.

Section async.
Context {os : OS} (fuel : nat).
Abbreviation AM := (M (world (gmap Z read_info))).

(** The program's structure lives at an address. *)
Definition ri_get (ri : Z) : AM read_info := g ← get_glob; expect (g !! ri).
Definition ri_set (ri : Z) (i : read_info) : AM unit := upd_glob (<[ri := i]>).

(** [aio_read] and the test of [aio_error] that follows it. *)
Definition submit (ri : Z) : AM unit :=
  i ← ri_get ri;
  r ← sys (Ext "aio_read" [aio_fildes i; aio_offset i; aio_nbytes i; aio_buf i]);
  if r_ret r <? 0 then sys_ (Printf "Error %d %s in aio_read" [r_errno r]);; exit_with 1
  else
    e ← sys (Ext "aio_error" [ri]);
    if r_ret e =? 0 then sys_ (Printf "aio_read Success" [])
    else if r_ret e =? ECANCELED then sys_ (Printf "aio_read canceled" [])
    else if r_ret e =? EINPROGRESS then sys_ (Printf "read operation in progress" [])
    else sys_ (Printf "Error %d %s in aio_read" [r_errno e]);; exit_with 1.

(** The program's own thread; it ends with [pthread_exit]. *)
Definition async_main : AM Z :=
  a ← sys (Calloc 1 496);
  let ri := r_ret a in
  if ri =? NULL then undef
  else
    '(p, blk) ← sys_malloc (1 * ALLOC_SIZE);
    let b := mk_rbuf p blk ALLOC_SIZE 0 in
    f ← sys (Open READ_FILE_NAME O_RDONLY);
    ri_set ri (mk_ri (r_ret f) b 0 0 0 NULL);;
    if r_ret f <? 0 then
      sys_ (Printf "Error [%d] [%s] in open" [r_errno f]);;
      sys_ (Free (buf b));;
      sys_ (Free ri);;
      exit_with 1
    else
      sys_ (Ext "pthread_attr_init" []);;
      sys_ (Ext "pthread_attr_setdetachstate" []);;
      ri_set ri (mk_ri (r_ret f) b (r_ret f) 0 (buf_size b) (buf b));;
      submit ri;;
      mret ri.

(** One completion: [inl] when the next part was asked for.  [aio_return] gives the number
    of bytes of the request, and its reply holds those bytes, which the kernel has stored from the
    address [aio_buf] of the request on: outside the block that is undefined. *)
Definition read_callback (ri : Z) : AM (Z + unit) :=
  i ← ri_get ri;
  sys_ (Printf "%s invoked" []);;
  r ← sys (Ext "aio_return" [aio_fildes i; aio_offset i; aio_nbytes i; aio_buf i]);
  let ret := r_ret r in
  if ret <? 0 then sys_ (Printf "Error %d %s in async read" [r_errno r]);; mret (inr tt)
  else if ret =? 0 then
    sys_ (Printf "EOF is reached" []);;
    write_copy (rb i);;
    mret (inr tt)
  else
    if buf (rb i) =? NULL then undef
    else
      let b := rb i in
      blk ← store_bytes (block b) (aio_buf i - buf b) (take (Z.to_nat ret) (r_out r));
      let b := mk_rbuf (buf b) blk (buf_size b) (buf_len b + ret) in
      sys_ (Printf "bytes_read %d, buf_len %ld" [ret; buf_len b]);;
      b ← grow b;
      ri_set ri (mk_ri (fd i) b (aio_fildes i) (buf_len b) (buf_size b - buf_len b) (buf b + buf_len b));;
      submit ri;;
      mret (inl ri).

(** The run of the program: its thread, then the completions one after the other. *)
Definition async_run : AM unit :=
  ri ← async_main;
  loop fuel read_callback ri.

End async.

(** ** The files *)

(** The path and flags a descriptor was opened with last. *)
Fixpoint opened (fd : Z) (tr : list event) : option (string * Z) :=
  match tr with
  | [] => None
  | (Open p fl, r) :: tr => if r_ret r =? fd then Some (p, fl) else opened fd tr
  | _ :: tr => opened fd tr
  end.

(** What was read from [fd] so far, and what was offered to [write], with the file it was written to. *)
Fixpoint input (fd : Z) (tr : list event) : list Z :=
  match tr with
  | [] => []
  | (Read fd' _, r) :: tr => input fd tr ++ (if fd' =? fd then take (Z.to_nat (r_ret r)) (r_out r) else [])
  | _ :: tr => input fd tr
  end.

Fixpoint output (tr : list event) : list (option (string * Z) * list Z) :=
  match tr with [] => [] | (Write fd b, _) :: tr => output tr ++ [(opened fd tr, b)] | _ :: tr => output tr end.

(** The destination after a history, when it held [old]: it is opened without O_TRUNC and
    written once, at its start. *)
Fixpoint destination (old : list Z) (tr : list event) : list Z :=
  match tr with
  | [] => old
  | (Write _ b, r) :: tr => let n := Z.to_nat (r_ret r) in take n b ++ drop n (destination old tr)
  | _ :: tr => destination old tr
  end.

Lemma destination_untouched old tr : output tr = [] → destination old tr = old.
Proof.
  induction tr as [|[c r] tr IH]; [done|]. destruct c; cbn; try done. intros E. by apply app_nil in E as [_ ?].
Qed.

(** A reply that delivers a non-empty part of [rest], of at most [len] bytes, or the end. *)
Definition delivers (rest : list Z) (len : Z) (r : reply) : Prop :=
  (rest = [] ∧ r_ret r = 0) ∨
  (∃ n, 0 < n ≤ len ∧ n ≤ Z.of_nat (length rest) ∧ r_ret r = n ∧ take (Z.to_nat n) (r_out r) = take (Z.to_nat n) rest).

Abbreviation source := (Some (READ_FILE_NAME, O_RDONLY)).
Abbreviation target := (Some (WRITE_FILE_NAME, O_WRONLY_O_CREAT)).

(** The environment in which a copy succeeds: the file [f] can be opened and read to its end, however
    it is cut into parts, and memory and the destination are available.  A request may
    be complete or in progress when its state is asked for. *)
Class FILE {os : OS} (f : list Z) : Prop := {
  file_open : ∀ tr p fl, 0 ≤ r_ret (os_answer tr (Open p fl));
  file_malloc : ∀ tr n, r_ret (os_answer tr (Malloc n)) ≠ NULL;
  file_calloc : ∀ tr n s, r_ret (os_answer tr (Calloc n s)) ≠ NULL;
  file_realloc : ∀ tr p n, r_ret (os_answer tr (Realloc p n)) ≠ NULL;
  file_read : ∀ tr fd len, opened fd tr = source → 0 < len → delivers (drop (length (input fd tr)) f) len (os_answer tr (Read fd len));
  file_aio_read : ∀ tr a, 0 ≤ r_ret (os_answer tr (Ext "aio_read" a));
  file_aio_error : ∀ tr a, r_ret (os_answer tr (Ext "aio_error" a)) ∈ [0; EINPROGRESS];
  file_aio_return : ∀ tr fd off len p, opened fd tr = source → 0 < len → 0 ≤ off →
    delivers (drop (Z.to_nat off) f) len (os_answer tr (Ext "aio_return" [fd; off; len; p])) }.

(** A buffer that holds the beginning of the file and has room for more. *)
Record buf_ok (f : list Z) (b : rbuf) : Prop := {
  bo_nonnull : buf b ≠ NULL;
  bo_block : Z.of_nat (length (block b)) = buf_size b;
  bo_len : 0 ≤ buf_len b ≤ Z.of_nat (length f);
  bo_room : REALLOC_THRESHOLD < buf_size b - buf_len b;
  bo_size : buf_size b ≤ Z.max ALLOC_SIZE (2 * (buf_len b + REALLOC_THRESHOLD));
  bo_data : data b = take (Z.to_nat (buf_len b)) f }.

Section specs.
Context {os : OS} {f : list Z} {F : FILE f} (Hf : Z.of_nat (length f) < 2 ^ 31).

(** A history that only made calls which leave the files alone. *)
Definition same_files (tr tr' : list event) : Prop :=
  (∀ d, input d tr' = input d tr) ∧ output tr' = output tr ∧ ∀ d, opened d tr' = opened d tr.

(** [grow] restores the room. *)
Lemma grow_wp {G} b tr (g : G) Q : buf b ≠ NULL → Z.of_nat (length (block b)) = buf_size b → 0 ≤ buf_len b ≤ Z.of_nat (length f) →
  buf_len b ≤ buf_size b → REALLOC_THRESHOLD < buf_size b → buf_size b ≤ Z.max ALLOC_SIZE (2 * (buf_len b + REALLOC_THRESHOLD)) → data b = take (Z.to_nat (buf_len b)) f →
  (∀ b' tr', buf_ok f b' → buf_len b' = buf_len b → same_files tr tr' → Q b' (mk_world tr' g)) →
  wp (grow b) Q (mk_world tr g).
Proof using Type*.
  intros Hp Hblk Hlen Hle Hth Hs Hd HQ. unfold grow, REALLOC_THRESHOLD, ALLOC_SIZE in *. destruct (Z.leb_spec (buf_size b - buf_len b) 128) as [Hlow|Hroom].
  - unfold long_double. rewrite (proj2 (Z.ltb_lt _ _)) by lia. unfold sys_realloc. wp_run. apply HQ; [|done|done].
    split; unfold data; cbn [buf block buf_size buf_len]; unfold REALLOC_THRESHOLD, ALLOC_SIZE; rewrite ?length_resize; [subst r; apply file_realloc|lia|lia|lia|lia|].
    rewrite take_resize_grow by lia. exact Hd.
  - wp_run. apply HQ; [|done|done]. split; unfold REALLOC_THRESHOLD, ALLOC_SIZE; [done|done|lia|lia|lia|done].
Qed.

(** A part of the file that arrives behind the buffer's bytes extends them. *)
Lemma part_stored b r : buf_ok f b → delivers (drop (Z.to_nat (buf_len b)) f) (buf_size b - buf_len b) r → r_ret r ≠ 0 →
  let part := take (Z.to_nat (r_ret r)) (r_out r) in let b' := mk_rbuf (buf b) (overwrite (block b) (buf_len b) part) (buf_size b) (buf_len b + r_ret r) in
  (0 ≤ buf_len b ∧ buf_len b + Z.of_nat (length part) ≤ Z.of_nat (length (block b))) ∧ 0 < r_ret r ∧
  Z.of_nat (length (block b')) = buf_size b' ∧ 0 ≤ buf_len b' ≤ Z.of_nat (length f) ∧ buf_len b' ≤ buf_size b' ∧
  data b' = take (Z.to_nat (buf_len b')) f.
Proof using Type.
  clear. intros [Hp Hblk Hlen Hroom Hs Hd] [[_ ?]|(n & Hn & Hle & -> & Ht)] Hne part b'; [done|]. rewrite length_drop in Hle.
  assert (part = take (Z.to_nat n) (drop (Z.to_nat (buf_len b)) f)) as Hpart by exact Ht.
  assert (Z.of_nat (length part) = n) as Hpl by (rewrite Hpart, length_take, length_drop; lia).
  assert (0 ≤ buf_len b ∧ buf_len b + Z.of_nat (length part) ≤ Z.of_nat (length (block b))) as Hfit by lia. split; [done|].
  unfold b', data. cbn [block buf_len buf_size buf]. split; [lia|]. split; [by rewrite length_overwrite|]. split; [lia|]. split; [lia|].
  rewrite take_overwrite by lia. fold (data b). rewrite Hd, Hpart, Z2Nat.inj_add, take_take_drop by lia. done.
Qed.

Lemma write_copy_wp {G} b tr (g : G) Q :
  (∀ tr' n, output tr' = output tr ++ [(target, data b)] →
    (∀ old, destination old tr' = take n (data b) ++ drop n (destination old tr)) → Q tt (mk_world tr' g)) →
  wp (write_copy b) Q (mk_world tr g).
Proof using F.
  clear Hf. intros HQ. unfold write_copy. apply wp_bind, wp_sys. intros o Ho.
  assert (0 ≤ r_ret o) by (rewrite Ho; apply file_open). rewrite (proj2 (Z.ltb_ge _ _)) by lia.
  wp_run; (eapply HQ; cbn [output opened]; [by rewrite Z.eqb_refl|done]).
Qed.

Lemma delivers_end rest len r : delivers rest len r → r_ret r = 0 → rest = [].
Proof using Type. clear. intros [[? _]|(n & ? & _ & ? & _)] ?; [done|lia]. Qed.

Lemma delivers_nonneg rest len r : delivers rest len r → 0 ≤ r_ret r.
Proof using Type. clear. intros [[_ ?]|(n & ? & _ & ? & _)]; lia. Qed.

(** At the end of the file the buffer is the file. *)
Lemma buf_full b : buf_ok f b → drop (Z.to_nat (buf_len b)) f = [] → data b = f.
Proof using Type.
  clear. intros [_ _ _ _ _ Hd] Hn. rewrite Hd. rewrite <- (take_drop (Z.to_nat (buf_len b)) f) at 2. by rewrite Hn, app_nil_r.
Qed.

Lemma buf_start p junk : p ≠ NULL → buf_ok f (mk_rbuf p (resize (Z.to_nat (1 * ALLOC_SIZE)) 0 junk) ALLOC_SIZE 0).
Proof using Type. clear. intros Hp. split; unfold data; cbn [buf block buf_len buf_size]; [done|by rewrite length_resize|lia|done|done|done]. Qed.

Lemma file_read_round_wp fd b tr : buf_ok f b → opened fd tr = source → Z.of_nat (length (input fd tr)) = buf_len b →
  wp (read_round fd b) (λ x w, match x with
    | inl b' => buf_ok f b' ∧ opened fd (w_trace w) = source ∧ Z.of_nat (length (input fd (w_trace w))) = buf_len b' ∧ buf_len b < buf_len b' ∧ output (w_trace w) = output tr
    | inr b' => data b' = f ∧ output (w_trace w) = output tr
    end) (mk_world tr tt).
Proof using Type*.
  intros Hb Hop Hi. pose proof Hb as [Hp Hblk Hlen Hroom Hs _]. unfold read_round. rewrite (proj2 (Z.eqb_neq _ _) Hp).
  unfold REALLOC_THRESHOLD in Hroom. apply wp_bind, wp_sys. intros r Hr.
  pose proof (file_read tr fd (buf_size b - buf_len b) Hop ltac:(lia)) as Hd. rewrite <- Hr in Hd. replace (length (input fd tr)) with (Z.to_nat (buf_len b)) in Hd by lia.
  rewrite (proj2 (Z.ltb_ge _ _) (delivers_nonneg _ _ _ Hd)).
  destruct (Z.eqb_spec (r_ret r) 0) as [E|E].
  - wp_run. split; [|done]. apply buf_full; [done|]. by eapply delivers_end.
  - destruct (part_stored b r Hb Hd E) as (Hfit & Hpos & Hblk' & Hlen' & Hle' & Hd'). apply wp_bind, wp_store_bytes; [done|].
    apply wp_bind, wp_sys_. intros r1 _. apply wp_bind. unfold REALLOC_THRESHOLD in *. eapply grow_wp; [done|done|done|done| | |done|]; cbn [buf_size buf_len]; unfold REALLOC_THRESHOLD; [lia|lia|].
    intros b' tr' Hb' Hl' (Hin & Hout & Hopen). apply wp_ret. cbn [w_trace]. rewrite Hin, Hout, Hopen. split; [done|]. split; [done|]. cbn in Hl'. split; [|split; [lia|done]].
    cbn [input]. rewrite Z.eqb_refl, length_app. destruct Hd as [[_ ?]|(n & Hn & Hle & Hrn & Ht)]; [done|]. rewrite Hrn, Ht, length_take, length_drop in *. lia.
Qed.

Lemma sync_copies fuel : (length f < fuel)%nat →
  wp (main fuel) (λ ret w, ret = 0 ∧ output (w_trace w) = [(target, f)] ∧
    ∃ n, ∀ old, destination old (w_trace w) = take n f ++ drop n old) (mk_world [] tt).
Proof using Type*.
  intros Hfuel. unfold main, sys_malloc. do 3 wp_sys_step. apply wp_ret. cbn beta iota. apply wp_bind, wp_sys. intros o Ho.
  assert (0 ≤ r_ret o) by (rewrite Ho; apply file_open). rewrite (proj2 (Z.ltb_ge _ _)) by lia.
  apply wp_bind. eapply wp_mono.
  - eapply (wp_loop (λ b w, buf_ok f b ∧ opened (r_ret o) (w_trace w) = source ∧ Z.of_nat (length (input (r_ret o) (w_trace w))) = buf_len b ∧ output (w_trace w) = [])
      (λ b _, length f - Z.to_nat (buf_len b))%nat (read_round (r_ret o)) (λ b w, data b = f ∧ output (w_trace w) = [])).
    + intros b [tr []] (Hb & Hop & Hi & Ho'). eapply wp_mono; [by apply file_read_round_wp|].
      intros [b'|b'] w; [|by intros [? ->]]. intros (Hb' & Hop' & Hi' & Hlt & Ho2). destruct Hb as [_ _ ? _ _ _]. pose proof (bo_len _ _ Hb').
      split; [by rewrite Ho2|]. lia.
    + split; [apply buf_start; rewrite Hr; apply file_malloc|]. cbn. by rewrite Z.eqb_refl.
    + cbn. lia.
  - intros b [tr []] [Hd Hout]. apply wp_bind. apply write_copy_wp. intros tr' n E Hdest. apply wp_ret. split; [done|].
    cbn [w_trace] in *. rewrite E, Hout, Hd. split; [done|]. exists n. intros old. by rewrite Hdest, Hd, destination_untouched.
Qed.

Lemma submit_wp ri i tr g Q : g !! ri = Some i →
  (∀ tr', same_files tr tr' → Q tt (mk_world tr' g)) → wp (submit ri) Q (mk_world tr g).
Proof using F.
  clear Hf. intros Hg HQ. unfold submit, ri_get. apply wp_bind, wp_bind, wp_get_glob. rewrite Hg. apply wp_ret, wp_bind, wp_sys.
  intros r Hr. assert (0 ≤ r_ret r) by (rewrite Hr; apply file_aio_read). rewrite (proj2 (Z.ltb_ge _ _)) by lia.
  apply wp_bind, wp_sys. intros e He. pose proof (file_aio_error ((Ext "aio_read" [aio_fildes i; aio_offset i; aio_nbytes i; aio_buf i], r) :: tr) [ri]) as Hee. rewrite <- He in Hee.
  rewrite !elem_of_cons, elem_of_nil in Hee. destruct Hee as [->|[->|[]]]; cbn [EINPROGRESS ECANCELED Z.eqb Pos.eqb]; wp_run; apply HQ; done.
Qed.

(** The request in flight asks for the part after the buffer's bytes, to be stored behind them. *)
Definition pending (ri : Z) (w : world (gmap Z read_info)) (b : rbuf) : Prop :=
  ∃ d d', w_glob w !! ri = Some (mk_ri d' b d (buf_len b) (buf_size b - buf_len b) (buf b + buf_len b)) ∧ opened d (w_trace w) = source.

Lemma callback_wp ri b tr g : buf_ok f b → pending ri (mk_world tr g) b →
  wp (read_callback ri) (λ x w, match x with
    | inl ri' => ri' = ri ∧ ∃ b', buf_ok f b' ∧ pending ri w b' ∧ buf_len b < buf_len b' ∧ output (w_trace w) = output tr
    | inr _ => output (w_trace w) = output tr ++ [(target, f)]
    end) (mk_world tr g).
Proof using Type*.
  intros Hb (d & d' & Hg & Hop). pose proof Hb as [Hp Hblk Hlen Hroom Hs _]. unfold read_callback, ri_get. cbn [w_glob w_trace] in *.
  unfold REALLOC_THRESHOLD in Hroom. apply wp_bind, wp_bind, wp_get_glob. rewrite Hg. apply wp_ret, wp_bind, wp_sys_.
  intros r0 _. apply wp_bind, wp_sys. intros r Hr. cbn [fd rb aio_fildes aio_offset aio_nbytes aio_buf] in *.
  pose proof (file_aio_return ((Printf "%s invoked" [], r0) :: tr) d (buf_len b) (buf_size b - buf_len b) (buf b + buf_len b) Hop ltac:(lia) ltac:(lia)) as Hd.
  rewrite <- Hr in Hd. rewrite (proj2 (Z.ltb_ge _ _) (delivers_nonneg _ _ _ Hd)).
  destruct (Z.eqb_spec (r_ret r) 0) as [E|E].
  - apply wp_bind, wp_sys_. intros r1 _. apply wp_bind, write_copy_wp. intros tr' n Ho _. apply wp_ret. cbn [w_trace].
    rewrite Ho. cbn [output]. do 2 f_equal. f_equal. apply buf_full; [done|]. by eapply delivers_end.
  - destruct (part_stored b r Hb Hd E) as (Hfit & Hpos & Hblk' & Hlen' & Hle' & Hd'). rewrite (proj2 (Z.eqb_neq _ _) Hp).
    replace (buf b + buf_len b - buf b) with (buf_len b) by lia. apply wp_bind, wp_store_bytes; [done|].
    apply wp_bind, wp_sys_. intros r1 _. apply wp_bind. unfold REALLOC_THRESHOLD in *. eapply grow_wp; [done|done|done|done| | |done|]; cbn [buf_size buf_len]; unfold REALLOC_THRESHOLD; [lia|lia|].
    intros b' tr' Hb' Hl' (Hin & Hout & Hopen). apply wp_bind. unfold ri_set. apply wp_upd_glob. apply wp_bind.
    eapply submit_wp; [apply lookup_insert_eq|]. intros tr2 (_ & Ho2 & Hop2). apply wp_ret. split; [done|]. exists b'. split; [done|].
    split; [exists d, d'; split; [apply lookup_insert_eq|]; cbn [w_trace]; by rewrite Hop2, Hopen|]. cbn in Hl'. split; [lia|]. cbn [w_trace]. by rewrite Ho2, Hout.
Qed.

Lemma async_copies fuel : (length f < fuel)%nat →
  wp (async_run fuel) (λ _ w, output (w_trace w) = [(target, f)]) (mk_world [] ∅).
Proof using Type*.
  intros Hfuel. unfold async_run, async_main, ri_set, sys_malloc. apply wp_bind, wp_bind, wp_sys. intros a Ha.
  assert (r_ret a ≠ NULL) by (rewrite Ha; apply file_calloc). rewrite (proj2 (Z.eqb_neq _ _)) by done.
  do 3 wp_sys_step. apply wp_ret. cbn beta iota. apply wp_bind, wp_sys. intros o Ho. apply wp_bind, wp_upd_glob.
  assert (0 ≤ r_ret o) by (rewrite Ho; apply file_open). rewrite (proj2 (Z.ltb_ge _ _)) by lia.
  apply wp_bind, wp_sys_. intros r1 _. apply wp_bind, wp_sys_. intros r2 _. apply wp_bind, wp_upd_glob, wp_bind.
  eapply submit_wp; [apply lookup_insert_eq|]. intros tr (_ & Htr & Hop). apply wp_ret.
  eapply (wp_loop (λ ri w, ∃ b, buf_ok f b ∧ pending ri w b ∧ output (w_trace w) = [])
    (λ ri w, match w_glob w !! ri with Some i => length f - Z.to_nat (buf_len (rb i)) | None => 0 end)%nat).
  - intros ri [tr1 g1] (b & Hb & Hpend & Hout). eapply wp_mono; [by apply callback_wp|].
    intros [ri'|[]] w; cbn [w_trace w_glob] in *; [|intros ->; by rewrite Hout].
    intros (-> & b' & Hb' & Hpend' & Hlt & Hout'). split; [exists b'; by rewrite Hout'|].
    destruct Hpend as (d & d2 & Hd & _), Hpend' as (d' & d2' & Hd' & _). cbn [w_glob] in *. rewrite Hd, Hd'. cbn. pose proof (bo_len _ _ Hb'). pose proof (bo_len _ _ Hb). lia.
  - assert (r_ret r ≠ NULL) as Hp by (rewrite Hr; apply file_malloc). exists (mk_rbuf (r_ret r) (resize (Z.to_nat (1 * ALLOC_SIZE)) 0 (r_out r)) ALLOC_SIZE 0).
    split; [by apply buf_start|]. clear Hr Ho.
    split; [eexists _, _; cbn [w_glob w_trace buf buf_size buf_len]; rewrite !Z.add_0_r, !Z.sub_0_r; split; [apply lookup_insert_eq|rewrite Hop; cbn; by rewrite Z.eqb_refl]|].
    by cbn [w_trace]; rewrite Htr.
  - cbn [w_glob]. rewrite lookup_insert_eq. cbn. lia.
Qed.

End specs.

(** When the file can be read to its end, however the kernel cuts it into parts, the
    program ends with a single write of exactly the file's bytes to the destination: the buffer always has room,
    so no read of zero bytes is taken for the end.  The destination then starts with the part
    the kernel accepted, at most the file, and keeps the tail of its old content: the
    program neither truncates the destination nor continues a short write. *)
Theorem file_copy_content {os : OS} fuel f {F : FILE f} : Z.of_nat (length f) < 2 ^ 31 → (length f < fuel)%nat →
  wp (main fuel) (λ ret w, ret = 0 ∧ output (w_trace w) = [(target, f)] ∧
    ∃ n, ∀ old, destination old (w_trace w) = take n f ++ drop n old) (mk_world [] tt).
Proof. intros. by apply sync_copies. Qed.

(** C28: in an environment in which the file, of fewer than 2^31 bytes, can be read to its end and memory and both files are
    available, however the kernel cuts the file into parts, the chain of completions of the asynchronous program ends, no
    byte is stored outside the buffer of either program, and both make the same single write: the bytes of the
    source file, in order, to the destination file. *)
Theorem async_copy_equals_sync {os : OS} fuel f {F : FILE f} : Z.of_nat (length f) < 2 ^ 31 → (length f < fuel)%nat →
  wp (main fuel) (λ _ w, wp (async_run fuel) (λ _ w', output (w_trace w') = output (w_trace w) ∧ output (w_trace w) = [(target, f)])
    (mk_world [] ∅)) (mk_world [] tt).
Proof.
  intros Hf Hfuel. eapply wp_mono; [by eapply sync_copies|]. intros _ w (_ & -> & _). eapply wp_mono; [by apply async_copies|]. by intros _ w' ->.
Qed.

(** A kernel on which every read fails: the two programs differ then, since the synchronous one
    writes what it has read so far, and the asynchronous one writes no copy. *)
Definition failing_os : OS := λ tr c,
  match c with
  | Read _ _ | Ext "aio_return" _ => mk_reply (-1) 5 []
  | Ext _ _ => mk_reply 0 0 []
  | _ => mk_reply 64 0 []
  end.

Theorem read_error_differs :
  wp (main (os := failing_os) 1) (λ _ w, wp (async_run (os := failing_os) 1) (λ _ w', output (w_trace w) = [(target, [])] ∧ output (w_trace w') = [])
    (mk_world [] ∅)) (mk_world [] tt).
Proof. by vm_compute. Qed.

(** ** Witnesses *)

(** A file of five bytes, delivered two at a time. *)
Definition demo_file : list Z := [1; 2; 3; 4; 5].

Definition part (off len : Z) : reply :=
  let rest := drop (Z.to_nat off) demo_file in
  let n := Z.min (Z.min len 2) (Z.of_nat (length rest)) in mk_reply n 0 (take (Z.to_nat n) rest).

Lemma part_delivers off len : 0 < len → delivers (drop (Z.to_nat off) demo_file) len (part off len).
Proof.
  intros Hlen. unfold part. destruct (drop (Z.to_nat off) demo_file) as [|x rest].
  - left. split; [done|]. cbn. lia.
  - right. eexists. split; [|split; [|split; [reflexivity|]]]; cbn [r_out r_ret length]; try lia.
    by rewrite take_take, Nat.min_id.
Qed.

#[local] Instance file_os : OS := λ tr c,
  match c with
  | Read fd len => part (Z.of_nat (length (input fd tr))) len
  | Ext "aio_return" (_ :: off :: len :: _) => part off len
  | Ext "aio_error" _ => mk_reply EINPROGRESS 0 []
  | Open p _ => mk_reply (if String.eqb p READ_FILE_NAME then 3 else 4) 0 []
  | Malloc _ | Calloc _ _ | Realloc _ _ => mk_reply 4096 0 []
  | _ => mk_reply 0 0 []
  end.

#[local] Instance file_os_file : FILE demo_file.
Proof.
  split; try done.
  - intros tr p fl. cbn. by destruct (String.eqb _ _).
  - intros tr d len _ Hl. rewrite <- (Nat2Z.id (length (input d tr))) at 1. by apply part_delivers.
  - intros tr a. cbn. set_solver.
  - intros tr d off len p _ Hl Ho. by apply part_delivers.
Qed.

Lemma file_copy_content_witness : wp (main 6) (λ ret w, ret = 0 ∧ output (w_trace w) = [(target, demo_file)] ∧
    ∃ n, ∀ old, destination old (w_trace w) = take n demo_file ++ drop n old) (mk_world [] tt).
Proof. apply (file_copy_content 6 demo_file); cbn; lia. Defined.

Lemma async_copy_equals_sync_witness : wp (main 6) (λ _ w,
  wp (async_run 6) (λ _ w', output (w_trace w') = output (w_trace w) ∧ output (w_trace w) = [(target, demo_file)]) (mk_world [] ∅)) (mk_world [] tt).
Proof. apply (async_copy_equals_sync 6 demo_file); cbn; lia. Defined.
