(* ===== verification/EchoTcp.v ===== *)
(** * The TCP echo server and its client (networking/socket/tcp/echoserver)

    myServer.c accepts connections and starts a thread per client, which sends back every
    message until the client says bye; myClient.c sends the lines it reads and prints the
    answers.  The buffers are arrays of bytes, so that printing one without a terminator
    is undefined. *)

From Stdlib Require Import ZArith Lia ZifyBool.
From stdpp Require Import base gmap list strings numbers.
From S2P Require Import Prelude Posix.

Definition PORT : Z := 19000.
Definition IP_ADDRESS : string := "127.0.0.1".
Definition IP_PKTINFO : Z := 8.
Definition SO_SNDBUF : Z := 7.
Definition SO_RCVBUF : Z := 8.

Definition tolower (c : Z) : Z := if (65 <=? c) && (c <=? 90) then c + 32 else c.

(** [strncasecmp(buf, "bye", 3) == 0] *)
Definition is_bye (buf : list Z) : bool := bool_decide (tolower <$> take 3 buf = [98; 121; 101]).

(** ** myServer.c *)

Module Server.

Definition MAX_LENGTH : nat := 1024.

Inductive buffer_type := SEND_BUFFER | RECV_BUFFER.

(** [HandlerData], at its address in the heap. *)
Record HandlerData := mk_hd { cliSock : Z; cliAddr : Z; cliPort : Z }.

Section code.
Context {os : OS} (fuel : nat).
Abbreviation SM := (M (world (gmap Z HandlerData))).

Definition set_socket_buffer_size (sock : Z) (buf_type : buffer_type) (size : Z) : SM Z :=
  r ← sys (Setsockopt sock SOL_SOCKET (match buf_type with SEND_BUFFER => SO_SNDBUF | RECV_BUFFER => SO_RCVBUF end) [size]);
  mret (r_ret r).

(** The result and [*size] afterwards. *)
Definition get_socket_buffer_size (sock : Z) (buf_type : buffer_type) (size : Z) : SM (Z * Z) :=
  r ← sys (Getsockopt sock SOL_SOCKET (match buf_type with SEND_BUFFER => SO_SNDBUF | RECV_BUFFER => SO_RCVBUF end));
  mret (r_ret r, if r_ret r <? 0 then size else r_out r !!! 0%nat).

(** A round of the thread's loop with the contents of [buf]. *)
Definition handler_round (sock : Z) (buf : list Z) : SM (list Z + unit) :=
  sys_ (Printf "Thread [%lu] Waiting for data from client..." []);;
  r ← sys (Recv sock (Z.of_nat MAX_LENGTH) 0);
  let bytes := r_ret r in
  if bytes =? 0 then mret (inr tt)
  else if bytes <? 0 then sys_ (Printf "%s: Thread [%lu] Recv Error [%d] [%s]" [r_errno r]);; mret (inr tt)
  else
    let n := Z.to_nat bytes in
    let buf := take n (r_out r) ++ drop n buf in
    print_str "Thread [%lu] Received %d bytes  from client [%s]" buf;;
    if is_bye buf then sys_ (Printf "Thread [%lu] Closing connection with Client IP [%s] port [%d]" []);; mret (inr tt)
    else
      s ← sys (Send sock (take n buf) 0);
      if r_ret s <? 0 then sys_ (Printf "%s: Thread [%lu] send Error [%d] [%s]" [r_errno s]);; mret (inr tt)
      else
        print_str "Thread [%lu] Sent %d bytes to client [%s]" buf;;
        mret (inl buf).

Definition Handler (arg : Z) : SM unit :=
  g ← get_glob;
  handler_data ← expect (g !! arg);
  sys_ (InetNtoa (cliAddr handler_data));;
  sys_ (Printf "Thread [%lu] Client IP [%s]Client Port [%d]" [cliPort handler_data]);;
  loop fuel (handler_round (cliSock handler_data)) (replicate MAX_LENGTH 0);;
  sys_ (Close (cliSock handler_data));;
  sys_ (Free arg);;
  upd_glob (delete arg).

(** A round of the accept loop with the variable [size]; the result of [calloc] is not
    tested and that of [pthread_create] not used. *)
Definition accept_round (servSock size : Z) : SM (Z + Z) :=
  sys_ (Printf "Waiting for new connections..." []);;
  a ← sys (Accept servSock);
  let cliSock := r_ret a in
  s ← set_socket_buffer_size cliSock RECV_BUFFER 1;
  (if s <? 0 then sys_ (Printf "Error %d %s in set_socket_buffer_size" []) else mret tt);;
  '(s, size) ← get_socket_buffer_size cliSock RECV_BUFFER size;
  (if s <? 0 then sys_ (Printf "Error %d %s in get_socket_buffer_size" []) else mret tt);;
  sys_ (Printf "socket send buffer size = %d" [size]);;
  if cliSock <? 0 then sys_ (Printf "%s: Accept Error [%d] [%s]" []);; mret (inr (-1))
  else
    p ← sys (Getsockopt cliSock SOL_IP IP_PKTINFO);
    if negb (r_ret p =? 0) then
      sys_ (Printf "error getting original destination address. err (#%d %s)" [r_errno p]);;
      sys_ (Close cliSock);;
      mret (inr (-1))
    else
      sys_ (InetNtoa (r_out p !!! 0%nat));;
      sys_ (Printf "original destination address %s" []);;
      c ← sys (Calloc 1 20);
      if r_ret c =? NULL then undef
      else
        upd_glob (<[r_ret c := mk_hd cliSock (r_out a !!! 0%nat) (r_out a !!! 1%nat)]>);;
        sys_ (PthreadCreate "Handler" (r_ret c));;
        mret (inl size).

(** The handler of SIGINT: [if] has one statement, and [exit] is the next. *)
Definition handleSignal (signo : Z) : SM unit :=
  (if signo =? 9 then sys_ (Printf "Recieved SIGKILL...Exiting now" []) else mret tt);;
  exit_with 0.

Definition main : SM Z :=
  sys_ (Sigaction 2 "handleSignal");;
  s ← sys Socket;
  let servSock := r_ret s in
  if servSock <? 0 then sys_ (Printf "%s: Socket Creation Error [%d] [%s]" [r_errno s]);; mret (-1)
  else
    i ← sys (InetAton IP_ADDRESS);
    if r_ret i =? 0 then sys_ (Printf "%s : Error in inet_aton  !!!" []);; mret (-1)
    else
      b ← sys (Bind servSock (r_out i !!! 0%nat) PORT);
      if r_ret b <? 0 then sys_ (Printf "%s: Bind Error [%d] [%s]" [r_errno b]);; mret (-1)
      else
        l ← sys (Listen servSock 1);
        if r_ret l <? 0 then sys_ (Printf "%s: Listen Error [%d] [%s]" [r_errno l]);; mret (-1)
        else loop fuel (accept_round servSock) 0.

End code.

(** The messages of the peer are shorter than the buffer. *)
Definition short_messages {os : OS} : Prop :=
  ∀ tr fd, r_ret (os_answer tr (Recv fd (Z.of_nat MAX_LENGTH) 0)) < Z.of_nat MAX_LENGTH.

(** The buffer keeps its last byte zero. *)
Definition terminated (buf : list Z) : Prop := length buf = MAX_LENGTH ∧ buf !! (MAX_LENGTH - 1)%nat = Some 0.

Lemma terminated_0 buf : terminated buf → 0 ∈ buf.
Proof. intros [_ H]. by eapply list_elem_of_lookup_2. Qed.

Lemma terminated_recv buf m n : terminated buf → length m = n → (n < MAX_LENGTH)%nat → terminated (m ++ drop n buf).
Proof.
  intros [Hl H0] Hm Hn. split.
  - rewrite length_app, length_drop. lia.
  - rewrite lookup_app_r by lia. rewrite lookup_drop. by replace (n + (MAX_LENGTH - 1 - length m))%nat with (MAX_LENGTH - 1)%nat by lia.
Qed.

Section specs.
Context {os : OS} (fuel K : nat) (Hh : recv_honest) (Hs : short_messages).
Implicit Types (tr : list event) (g : gmap Z HandlerData).

(** The messages since [tr] were offered back, each whole and in order. *)
Definition echoed (sock : Z) (tr tr' : list event) : Prop :=
  ∃ ms, offers sock tr' = offers sock tr ++ ms ∧ messages sock tr' = messages sock tr ++ ms.

(** The same, or the last message made the buffer say bye. *)
Definition echoed_or_bye (sock : Z) (tr tr' : list event) : Prop :=
  echoed sock tr tr' ∨ ∃ ms m rest, offers sock tr' = offers sock tr ++ ms ∧
    messages sock tr' = messages sock tr ++ ms ++ [m] ∧ is_bye (m ++ rest) = true.

Lemma tcp_handler_round_wp sock buf tr0 tr g : terminated buf → echoed sock tr0 tr → res_eq tr0 tr →
  wp (handler_round sock buf) (λ x w, w_glob w = g ∧ res_eq tr0 (w_trace w) ∧ match x with
    | inl buf' => terminated buf' ∧ echoed sock tr0 (w_trace w) ∧ os_ext tr (w_trace w) ∧
        (busy_count tr < busy_count (w_trace w))%nat
    | inr _ => echoed_or_bye sock tr0 (w_trace w)
    end) (mk_world tr g).
Proof using Hh Hs.
  intros Hb (ms & Ho & Hm) Hr. unfold handler_round. apply wp_bind, wp_sys_. intros r0 Hr0. apply wp_bind, wp_sys. intros r Hrr.
  destruct (Hh ((Printf "Thread [%lu] Waiting for data from client..." [], r0) :: tr) sock (Z.of_nat MAX_LENGTH) 0 ltac:(lia)) as [_ Hlen].
  pose proof (Hs ((Printf "Thread [%lu] Waiting for data from client..." [], r0) :: tr) sock) as Hshort.
  rewrite <- Hrr in Hlen, Hshort. destruct (Z.eqb_spec (r_ret r) 0) as [E0|E0].
  { apply wp_ret. split; [done|]. split; [res_solve|]. left. exists ms. cbn. rewrite E0. cbn. by rewrite andb_false_r, app_nil_r. }
  destruct (Z.ltb_spec (r_ret r) 0).
  { apply wp_bind, wp_sys_. intros r1 _. apply wp_ret. split; [done|]. split; [res_solve|]. left. exists ms. cbn.
    rewrite (proj2 (Z.ltb_ge 0 _)) by lia. by rewrite andb_false_r, app_nil_r. }
  specialize (Hlen ltac:(lia)). set (n := Z.to_nat (r_ret r)). assert (Hn : length (take n (r_out r)) = n) by (rewrite length_take; lia).
  set (buf' := take n (r_out r) ++ drop n buf). assert (Hb' : terminated buf') by (apply terminated_recv; [done|done|lia]).
  assert (Hm' : messages sock ((Recv sock (Z.of_nat MAX_LENGTH) 0, r) :: tr) = messages sock tr0 ++ ms ++ [take n (r_out r)]).
  { cbn. rewrite Z.eqb_refl, (proj2 (Z.ltb_lt 0 _)) by lia. cbn. by rewrite Hm, <- app_assoc. }
  apply wp_bind, wp_print_str; [by apply terminated_0|]. intros r1 Hr1. destruct (is_bye buf') eqn:Ebye.
  { apply wp_bind, wp_sys_. intros r2 _. apply wp_ret. split; [done|]. split; [res_solve|].
    right. exists ms, (take n (r_out r)), (drop n buf). split; [done|]. split; [exact Hm'|done]. }
  assert (Htake : take n buf' = take n (r_out r)) by (unfold buf'; by rewrite take_app_length' by lia).
  apply wp_bind, wp_sys. intros s Hss. rewrite Htake in *.
  assert (He : ∀ k k' r2, echoed sock tr0 ((Printf k k', r2) :: (Send sock (take n (r_out r)) 0, s) ::
    (Printf "Thread [%lu] Received %d bytes  from client [%s]" (cstr buf'), r1) ::
    (Recv sock (Z.of_nat MAX_LENGTH) 0, r) :: (Printf "Thread [%lu] Waiting for data from client..." [], r0) :: tr)).
  { intros. exists (ms ++ [take n (r_out r)]). split; [|exact Hm']. cbn. by rewrite Z.eqb_refl, Ho, <- app_assoc. }
  destruct (Z.ltb_spec (r_ret s) 0).
  - apply wp_bind, wp_sys_. intros r2 _. apply wp_ret. split; [done|]. split; [res_solve|]. left. apply He.
  - apply wp_bind, wp_print_str; [by apply terminated_0|]. intros r2 Hr2. apply wp_ret. split; [done|]. split; [res_solve|].
    split; [done|]. split; [apply He|]. cbn [w_trace]. split; [ext_solve|busy_solve].
Qed.

End specs.

(** A client thread offers back every message, whole and in order, until the client
    closes, an error occurs or the buffer says bye; it then closes the connection and frees
    its data, once, and owns nothing else.  This holds while messages are shorter than the
    buffer, and as long as the client keeps the thread busy only finitely often it returns. *)
Theorem handler_echoes {os : OS} fuel K arg hd tr g : recv_honest → short_messages → calms_down K → (K < fuel)%nat →
  g !! arg = Some hd → arg ≠ NULL →
  wp (Handler fuel arg) (λ _ w, w_glob w = delete arg g ∧ echoed_or_bye (cliSock hd) tr (w_trace w) ∧
    res_delta (w_trace w) tr [cliSock hd] [arg]) (mk_world tr g).
Proof.
  intros Hh Hs HK Hf Hg Hn. unfold Handler. apply wp_bind, wp_get_glob. rewrite Hg. apply wp_bind, wp_ret, wp_bind, wp_sys_.
  intros r0 _. apply wp_bind, wp_sys_. intros r1 _. apply wp_bind. eapply wp_mono.
  - eapply (wp_calm_loop K fuel _ (λ buf w, w_glob w = g ∧ terminated buf ∧ echoed (cliSock hd) tr (w_trace w) ∧ res_eq tr (w_trace w))
      (λ _ w, w_glob w = g ∧ echoed_or_bye (cliSock hd) tr (w_trace w) ∧ res_eq tr (w_trace w))); [done|done| |].
    + split; [done|]. split; [by split|]. split; [exists []; by rewrite !app_nil_r|res_solve].
    + intros buf [tr' g'] (Hg' & Hb & He & Hr). cbn in Hg'. subst g'. eapply wp_mono; [by apply tcp_handler_round_wp|].
      intros [b|[]] w; cbn [w_trace]; tauto.
  - intros [] [tr' g'] (Hg' & He & Hr). cbn [w_trace w_glob] in *. subst g'. wp_run. split; [done|]. split.
    + destruct He as [(ms & H1 & H2)|(ms & m & rest & H1 & H2 & H3)]; [left; by exists ms|right; by exists ms, m, rest].
    + unfold NULL in Hn. res_solve.
Qed.

(** A message that fills the buffer leaves no terminator, and printing it reads past the
    end of the array: any client can make the thread undefined with 1024 non-zero bytes. *)
Theorem full_message_overruns {os : OS} fuel arg hd tr g : g !! arg = Some hd → (0 < fuel)%nat →
  (∀ tr fd, let r := os_answer tr (Recv fd (Z.of_nat MAX_LENGTH) 0) in
     r_ret r = Z.of_nat MAX_LENGTH ∧ length (r_out r) = MAX_LENGTH ∧ 0 ∉ r_out r) →
  Handler fuel arg (mk_world tr g) = Undef.
Proof.
  intros Hg Hf Hfull. unfold Handler. erewrite bind_ok by reflexivity. cbn [w_glob]. rewrite Hg.
  do 3 (erewrite bind_ok by reflexivity). apply bind_undef. destruct fuel as [|fuel]; [lia|]. apply loop_undef.
  unfold handler_round. do 2 (erewrite bind_ok by reflexivity). cbn [w_trace].
  match goal with |- context [os_answer ?t (Recv ?s _ _)] => destruct (Hfull t s) as (E & Hl & H0) end.
  rewrite E. change (Z.of_nat MAX_LENGTH =? 0) with false. change (Z.of_nat MAX_LENGTH <? 0) with false. rewrite Nat2Z.id.
  apply bind_undef. unfold print_str. rewrite bool_decide_false; [done|].
  rewrite take_ge, drop_ge, app_nil_r by (rewrite ?length_replicate; lia). done.
Qed.

(** *** The accept loop *)

(** The arguments handed to threads. *)
Fixpoint handed (tr : list event) : list Z :=
  match tr with [] => [] | (PthreadCreate _ p, _) :: tr => handed tr ++ [p] | _ :: tr => handed tr end.

(** Since [tr], the connections [socks] were accepted and handed over with the blocks [ps]. *)
Record handed_over (tr : list event) (g : gmap Z HandlerData) (tr' : list event) (ps socks : list Z) : Prop := {
  ho_handed : handed tr' = handed tr ++ ps;
  ho_res : res_delta tr tr' socks ps;
  ho_fresh : Forall (λ p, 1 ≤ mem_balance tr' p) ps;
  ho_data : Forall2 (λ p s, ∃ hd, g !! p = Some hd ∧ cliSock hd = s) ps socks }.

Section accepting.
Context {os : OS} (Hfresh : calloc_fresh).

Lemma handed_over_same tr g tr' ps socks tr2 : handed_over tr g tr' ps socks → handed tr2 = handed tr' → res_eq tr' tr2 →
  handed_over tr g tr2 ps socks.
Proof using Type.
  intros [H1 H2 H3 H4] Hh Hr. split; [by rewrite Hh|by rewrite <- Hr| |done].
  eapply Forall_impl; [|exact H3]. intros p Hp. destruct Hr as [_ Hr]. specialize (Hr p). cbn in Hr, Hp. lia.
Qed.

Lemma data_insert (g : gmap Z HandlerData) (ps socks : list Z) (p : Z) hd0 : p ∉ ps →
  Forall2 (λ p s, ∃ hd, g !! p = Some hd ∧ cliSock hd = s) ps socks →
  Forall2 (λ q s, ∃ hd, <[p := hd0]> g !! q = Some hd ∧ cliSock hd = s) ps socks.
Proof using Type.
  intros Hp. induction 1 as [|q s ps socks (hd & Hq & Hs) H IH]; [constructor|]. apply not_elem_of_cons in Hp as [Hne Hp].
  constructor; [|by apply IH]. exists hd. by rewrite lookup_insert_ne.
Qed.

(** One more connection with its block. *)
Lemma handed_over_more tr g tr' ps socks p s a b tr2 : handed_over tr g tr' ps socks → mem_balance tr' p = 0 →
  handed tr2 = handed tr' ++ [p] → res_delta tr' tr2 [s] [p] →
  handed_over tr (<[p := mk_hd s a b]> g) tr2 (ps ++ [p]) (socks ++ [s]).
Proof using Type.
  intros [H1 H2 H3 H4] H0 Hh Hr. assert (Hnin : p ∉ ps).
  { intros Hin. rewrite Forall_forall in H3. specialize (H3 _ (proj1 (list_elem_of_In _ _) Hin)). lia. }
  split.
  - by rewrite Hh, H1, <- app_assoc.
  - by eapply res_delta_trans.
  - destruct Hr as [_ Hr]. apply Forall_app. split; [|constructor; [|constructor]].
    + eapply Forall_impl; [|exact H3]. intros q Hq. specialize (Hr q). unfold count in Hr. cbn in Hr, Hq. lia.
    + specialize (Hr p). unfold count in Hr. cbn in Hr. lia.
  - apply Forall2_app.
    + by apply data_insert.
    + constructor; [|constructor]. eexists. by rewrite lookup_insert_eq.
Qed.

Lemma tcp_accept_round_wp servSock size tr0 tr g ps socks : handed_over tr0 g tr ps socks →
  wp (accept_round servSock size) (λ x w, ∃ ps' socks', handed_over tr0 (w_glob w) (w_trace w) ps' socks' ∧ match x with
    | inl _ => os_ext tr (w_trace w) ∧ (busy_count tr < busy_count (w_trace w))%nat
    | inr ret => ret = -1
    end) (mk_world tr g).
Proof using Hfresh.
  intros Ho. unfold accept_round, set_socket_buffer_size, get_socket_buffer_size. apply wp_bind, wp_sys_. intros r0 H0.
  apply wp_bind, wp_sys. intros a Ha. apply wp_bind, wp_bind, wp_sys. intros r1 H1. apply wp_ret. apply wp_bind.
  set (tr1 := (Setsockopt _ _ _ _, r1) :: _).
  assert (Hk : ∀ (b : bool) m (Q : unit → world (gmap Z HandlerData) → Prop) t, (∀ t', os_ext t t' → handed t' = handed t → res_eq t t' →
    (busy_count t ≤ busy_count t')%nat → Q tt (mk_world t' g)) → wp (if b then sys_ (Printf m []) else mret tt) Q (mk_world t g)).
  { intros b m Q t HQ. destruct b; [apply wp_sys_; intros r Hr|apply wp_ret]; apply HQ; try done; [ext_solve|res_solve|busy_solve|constructor]. }
  apply Hk. intros t1 X1 Y1 Z1 B1. apply wp_bind, wp_bind, wp_sys. intros r2 H2. apply wp_ret, wp_bind, Hk.
  intros t2 X2 Y2 Z2 B2. apply wp_bind, wp_sys_. intros r3 H3.
  assert (Hh2 : handed t2 = handed tr) by (rewrite Y2; cbn [handed]; rewrite Y1; done).
  assert (He2 : os_ext tr t2) by (eapply os_ext_trans; [|exact X2]; eapply os_ext_cons; [|exact H2]; eapply os_ext_trans; [|exact X1]; ext_solve).
  rewrite busy_count_cons in B2.
  destruct (Z.ltb_spec (r_ret a) 0) as [Ea|Ea].
  { apply wp_bind, wp_sys_. intros r4 _. apply wp_ret. exists ps, socks. split; [|done].
    eapply handed_over_same; [exact Ho|exact Hh2|]. unfold tr1 in *. clear B1 B2. res_solve. }
  assert (Hr2 : res_delta tr t2 [r_ret a] []) by (unfold tr1 in *; clear B1 B2; res_solve).
  assert (Hb2 : (busy_count tr < busy_count t2)%nat).
  { unfold tr1 in B1. rewrite !busy_count_cons in B1. assert (Hba : busy (Accept servSock, a) = true).
    { unfold busy. cbn. apply orb_true_iff. right. lia. } rewrite Hba in B1. lia. }
  clear B1 B2 Z1 Z2 X1 X2 Y1 Y2 tr1 H1 H2. apply wp_bind, wp_sys. intros r4 H4. destruct (negb (r_ret r4 =? 0)).
  { apply wp_bind, wp_sys_. intros r5 _. apply wp_bind, wp_sys_. intros r6 _. apply wp_ret. exists ps, socks. split; [|done].
    eapply handed_over_same; [exact Ho|exact Hh2|]. res_solve. }
  apply wp_bind, wp_sys_. intros r5 H5. apply wp_bind, wp_sys_. intros r6 H6. apply wp_bind, wp_sys. intros c Hc.
  set (t3 := (Printf "original destination address %s" [], r6) :: _) in *.
  destruct (Hfresh t3 1 20) as [Hn Hbal]. rewrite <- Hc in Hn, Hbal. rewrite (proj2 (Z.eqb_neq _ _) Hn).
  apply wp_bind, wp_upd_glob, wp_bind, wp_sys_. intros r7 H7. apply wp_ret. exists (ps ++ [r_ret c]), (socks ++ [r_ret a]). cbn [w_trace w_glob].
  split; [|split; [unfold t3 in *; ext_solve|unfold t3; rewrite !busy_count_cons; lia]].
  unfold NULL in Hn. eapply handed_over_more; [exact Ho| | |].
  - destruct Hr2 as [_ Hr2]. specialize (Hr2 (r_ret c)). unfold t3 in Hbal. cbn in Hr2, Hbal. lia.
  - unfold t3. cbn [handed]. by rewrite Hh2.
  - unfold t3. res_solve.
Qed.

End accepting.

(** The server gives up only with -1, when a call of the set-up, [accept] or the query of
    the original destination fails.  Whatever happens, every connection it accepted was
    either closed or handed to a thread together with a block of its own that records it, and
    besides these it holds the listening socket. *)
Theorem server_hands_over {os : OS} fuel K tr g : calloc_fresh → calms_down K → (K < fuel)%nat →
  wp (main fuel) (λ ret w, ret = -1 ∧ ∃ ps socks lst, handed (w_trace w) = handed tr ++ ps ∧
    res_delta tr (w_trace w) (lst ++ socks) ps ∧ (length lst ≤ 1)%nat ∧
    Forall2 (λ p s, ∃ hd, w_glob w !! p = Some hd ∧ cliSock hd = s) ps socks) (mk_world tr g).
Proof.
  intros Hfresh HK Hf. unfold main. apply wp_bind, wp_sys_. intros r0 _. apply wp_bind, wp_sys. intros s _.
  destruct (Z.ltb_spec (r_ret s) 0) as [Es|Es].
  { wp_run. split; [done|]. exists [], [], []. split; [by rewrite app_nil_r|]. split; [res_solve|]. split; [cbn; lia|constructor]. }
  assert (Hgive : ∀ t, handed t = handed tr → res_delta tr t [r_ret s] [] → ∃ ps socks lst, handed t = handed tr ++ ps ∧
    res_delta tr t (lst ++ socks) ps ∧ (length lst ≤ 1)%nat ∧ Forall2 (λ p s, ∃ hd, g !! p = Some hd ∧ cliSock hd = s) ps socks).
  { intros t Ht Hr. exists [], [], [r_ret s]. split; [by rewrite app_nil_r|]. split; [done|]. split; [done|constructor]. }
  apply wp_bind, wp_sys. intros i _. destruct (r_ret i =? 0); [wp_run; split; [done|]; apply Hgive; [done|res_solve]|].
  apply wp_bind, wp_sys. intros b _. destruct (r_ret b <? 0); [wp_run; split; [done|]; apply Hgive; [done|res_solve]|].
  apply wp_bind, wp_sys. intros l _. destruct (r_ret l <? 0); [wp_run; split; [done|]; apply Hgive; [done|res_solve]|].
  set (tr1 := (Listen _ _, l) :: _). eapply wp_mono.
  - eapply (wp_calm_loop K fuel _ (λ _ w, ∃ ps socks, handed_over tr1 (w_glob w) (w_trace w) ps socks)
      (λ ret w, ret = -1 ∧ ∃ ps socks, handed_over tr1 (w_glob w) (w_trace w) ps socks)); [done|done| |].
    + exists [], []. split; [by rewrite app_nil_r|apply (reflexivity (R := res_eq))|constructor|constructor].
    + intros size [t g'] (ps & socks & Ho). eapply wp_mono; [by eapply tcp_accept_round_wp|].
      intros [z|z] w (ps' & socks' & Ho' & Hz); [|by eauto]. split; [by eauto|done].
  - intros ret w (-> & ps & socks & [H1 H2 _ H4]). split; [done|]. exists ps, socks, [r_ret s]. split; [by rewrite H1|].
    split; [|by split]. change (res_delta tr (w_trace w) ([r_ret s] ++ socks) ([] ++ ps)). eapply res_delta_trans; [|exact H2].
    unfold tr1. res_solve.
Qed.

End Server.

(** ** myClient.c *)

Module Client.

Definition MAX_LENGTH : nat := 2048.

Section code.
Context {os : OS} (fuel : nat).
Abbreviation CM := (M (world unit)).

(** A round with the contents of [buf]; the reply of [fgets] holds the line without its
    terminator, at most 2047 characters. *)
Definition client_round (sock : Z) (buf : list Z) : CM (list Z + unit) :=
  f ← sys (Ext "fgets" [Z.of_nat MAX_LENGTH]);
  if r_ret f =? NULL then sys_ (Printf "%s: fgets returned NULL" []);; mret (inr tt)
  else
    let line := take (MAX_LENGTH - 1) (r_out f) ++ [0] in
    let buf := line ++ drop (length line) buf in
    s ← sys (Send sock (cstr buf ++ [0]) 0);
    if r_ret s <? 0 then sys_ (Printf "%s: send Error [%d] [%s]" [r_errno s]);; mret (inr tt)
    else
      r ← sys (Recv sock (Z.of_nat MAX_LENGTH) 0);
      if r_ret r =? 0 then sys_ (Printf "Closing the connection" []);; mret (inr tt)
      else if r_ret r <? 0 then sys_ (Printf "%s: recv Error [%d] [%s]" [r_errno r]);; mret (inr tt)
      else
        let n := Z.to_nat (r_ret r) in
        let buf := take n (r_out r) ++ drop n buf in
        print_str "Server echoed [%s]" buf;;
        mret (inl buf).

Definition main : CM Z :=
  s ← sys Socket;
  let sock := r_ret s in
  if sock <? 0 then sys_ (Printf "%s: Socket Creation Error [%d] [%s]" [r_errno s]);; mret (-1)
  else
    i ← sys (InetAton IP_ADDRESS);
    if r_ret i =? 0 then sys_ (Printf "%s : Error in inet_aton  !!!" []);; mret (-1)
    else
      c ← sys (Connect sock (r_out i !!! 0%nat) PORT);
      if r_ret c <? 0 then sys_ (Printf "%s: Connect Error [%d] [%s]" [r_errno c]);; mret (-1)
      else
        sys_ (Printf "Connected to IP [%s] Port [%d]" [PORT]);;
        loop fuel (client_round sock) (replicate MAX_LENGTH 0);;
        sys_ (Close sock);;
        mret 0.

End code.

(** The lines typed so far. *)
Fixpoint typed (tr : list event) : list (list Z) :=
  match tr with
  | [] => []
  | (Ext name _, r) :: tr =>
      typed tr ++ (if String.eqb name "fgets" && negb (r_ret r =? NULL) then [take (MAX_LENGTH - 1) (r_out r)] else [])
  | _ :: tr => typed tr
  end.

(** A connection to a peer that sends back every message at once, and a user who types at
    most [N] lines of text. *)
Class ECHO {os : OS} (N : nat) : Prop := {
  echo_send : ∀ tr sock b, 0 ≤ r_ret (os_answer tr (Send sock b 0));
  echo_recv : ∀ tr sock b r, os_answer ((Send sock b 0, r) :: tr) (Recv sock (Z.of_nat MAX_LENGTH) 0) =
    mk_reply (Z.of_nat (length b)) 0 b;
  echo_text : ∀ tr n, 0 ∉ r_out (os_answer tr (Ext "fgets" n));
  echo_ends : ∀ tr n, (N ≤ length (typed tr))%nat → r_ret (os_answer tr (Ext "fgets" n)) = NULL }.

Lemma cstr_line l rest : 0 ∉ l → cstr (l ++ 0 :: rest) = l.
Proof.
  induction l as [|c l IH]; intros H; [done|]. apply not_elem_of_cons in H as [Hc H]. cbn.
  rewrite (proj2 (Z.eqb_neq c 0)) by done. by rewrite IH.
Qed.

Section specs.
Context {os : OS} {N : nat} {E : ECHO N}.
Abbreviation shown := (lines "Server echoed [%s]").

Lemma client_round_wp sock buf tr : length buf = MAX_LENGTH → shown tr = typed tr →
  wp (client_round sock buf) (λ x w, shown (w_trace w) = typed (w_trace w) ∧ res_eq tr (w_trace w) ∧ match x with
    | inl buf' => length buf' = MAX_LENGTH ∧ (length (typed tr) < length (typed (w_trace w)) ≤ N)%nat
    | inr _ => True
    end) (mk_world tr tt).
Proof using E.
  intros Hb Hs. unfold client_round. apply wp_bind, wp_sys. intros f Hf. destruct (r_ret f =? NULL) eqn:Ef.
  { wp_run. cbn. rewrite Ef. cbn. rewrite !app_nil_r. split; [done|]. split; [res_solve|done]. }
  set (line := take (MAX_LENGTH - 1) (r_out f)). assert (H0 : 0 ∉ line).
  { intros Hin. eapply elem_of_take in Hin as (i & Hi & _). apply list_elem_of_lookup_2 in Hi. rewrite Hf in Hi. by eapply echo_text. }
  assert (Hl : (length line < MAX_LENGTH)%nat) by (unfold line; rewrite length_take; unfold MAX_LENGTH; lia).
  set (rest := drop (length (line ++ [0])) buf). rewrite <- app_assoc. cbn [app]. rewrite cstr_line by done.
  apply wp_bind, wp_sys. intros s Hss. assert (0 ≤ r_ret s) by (rewrite Hss; apply echo_send). rewrite (proj2 (Z.ltb_ge _ _)) by lia.
  apply wp_bind, wp_sys. intros r Hr. rewrite echo_recv in Hr. subst r. cbn [r_ret r_out]. rewrite Nat2Z.id, length_app. cbn [length].
  destruct (Z.eqb_spec (Z.of_nat (length line + 1)) 0); [lia|]. destruct (Z.ltb_spec (Z.of_nat (length line + 1)) 0); [lia|].
  replace (length line + 1)%nat with (length (line ++ [0])) by (rewrite length_app; done). rewrite firstn_all.
  rewrite <- app_assoc. cbn [app]. apply wp_bind, wp_print_str; [set_solver|]. intros r Hr. rewrite cstr_line in * by done.
  apply wp_ret. cbn [w_trace lines typed String.eqb Ascii.eqb Bool.eqb andb]. rewrite Ef. cbn [negb]. fold line. rewrite Hs.
  assert (Hd : drop (length (line ++ [0])) (line ++ 0 :: rest) = rest)
    by (change (line ++ 0 :: rest) with (line ++ [0] ++ rest); by rewrite app_assoc, drop_app_length).
  rewrite Hd. split; [done|]. split; [res_solve|]. unfold rest. rewrite !length_app. cbn [length].
  rewrite ?length_drop, ?length_app. cbn [length]. split; [lia|]. split; [lia|].
  destruct (decide (N ≤ length (typed tr))%nat) as [Hle|]; [|lia]. apply (echo_ends tr [Z.of_nat MAX_LENGTH]) in Hle. rewrite <- Hf in Hle. lia.
Qed.

End specs.

(** Connected to a peer that echoes, the client prints every line the user typed, in order
    and unchanged, and closes its socket; when it cannot connect it returns -1. *)
Theorem client_shows_lines {os : OS} {N : nat} {E : ECHO N} fuel : (N < fuel)%nat →
  wp (main fuel) (λ ret w, (ret = 0 ∧ lines "Server echoed [%s]" (w_trace w) = typed (w_trace w) ∧ res_eq [] (w_trace w)) ∨
    (ret = -1 ∧ typed (w_trace w) = [])) (mk_world [] tt).
Proof.
  intros Hf. unfold main. apply wp_bind, wp_sys. intros s _. destruct (r_ret s <? 0) eqn:Es; [wp_run; by right|].
  apply wp_bind, wp_sys. intros i _. destruct (r_ret i =? 0); [wp_run; by right|].
  apply wp_bind, wp_sys. intros c _. destruct (r_ret c <? 0); [wp_run; by right|].
  apply wp_bind, wp_sys_. intros r _. set (tr1 := (Printf _ _, r) :: _). apply wp_bind. eapply wp_mono.
  - eapply (wp_loop (λ buf w, length buf = MAX_LENGTH ∧ lines "Server echoed [%s]" (w_trace w) = typed (w_trace w) ∧ res_eq tr1 (w_trace w))
      (λ _ w, N - length (typed (w_trace w)))%nat _ (λ _ w, lines "Server echoed [%s]" (w_trace w) = typed (w_trace w) ∧ res_eq tr1 (w_trace w))).
    + intros buf [tr []] (Hb & Hs & Hr). eapply wp_mono; [by apply client_round_wp|].
      intros [b|[]] w (Hs' & Hr' & Hx); cbn [w_trace] in *; [|split; [done|by etrans]].
      destruct Hx as [Hb' Ht]. split; [|lia]. split; [done|]. split; [done|by etrans].
    + split; [by rewrite length_replicate|]. split; [done|reflexivity].
    + cbn. lia.
  - intros [] [tr []] [Hs Hr]. cbn [w_trace] in *. wp_run. left. split; [done|]. split; [done|]. unfold tr1 in Hr. res_solve.
Qed.

End Client.

(** ** Witnesses *)

Definition one_line_os : OS := λ tr c,
  match c with
  | Ext "fgets" _ => if (1 <=? length (Client.typed tr))%nat then mk_reply 0 0 [] else mk_reply 1 0 [104; 105; 10]
  | Recv _ _ _ => match tr with (Send _ b _, _) :: _ => mk_reply (Z.of_nat (length b)) 0 b | _ => mk_reply (-1) 5 [] end
  | InetAton _ => mk_reply 1 0 [0]
  | Calloc _ _ => mk_reply (brk tr + 1) 0 []
  | _ => mk_reply 3 0 []
  end.

Lemma one_line_echo : Client.ECHO (os := one_line_os) 1.
Proof.
  split; try done.
  - intros tr n. cbn. destruct (length (Client.typed tr)); cbn; rewrite ?not_elem_of_cons; split_and?; try done; apply not_elem_of_nil.
  - intros tr n Hn. cbn. destruct (length (Client.typed tr)); [lia|done].
Qed.

Lemma client_shows_lines_witness : wp (Client.main (os := one_line_os) 2) (λ ret w,
  (ret = 0 ∧ lines "Server echoed [%s]" (w_trace w) = Client.typed (w_trace w) ∧ res_eq [] (w_trace w)) ∨
    (ret = -1 ∧ Client.typed (w_trace w) = [])) (mk_world [] tt).
Proof. apply (Client.client_shows_lines (E := one_line_echo) 2). lia. Defined.

(** A client that sends one short message, or messages that fill the buffer. *)
Definition peer_os (n : nat) : OS := λ tr c,
  match c with
  | Recv _ len _ => let k := Nat.min n (Z.to_nat len) in mk_reply (Z.of_nat k) 0 (replicate k 65)
  | Calloc _ _ => mk_reply (brk tr + 1) 0 []
  | Send _ b _ => mk_reply (Z.of_nat (length b)) 0 []
  | _ => mk_reply 0 0 []
  end.

Definition calm_peer : OS := calm_os 2 (peer_os 5).

Lemma handler_echoes_witness : wp (Server.Handler (os := calm_peer) 3 8) (λ _ w, w_glob w = ∅ ∧
  Server.echoed_or_bye 4 [] (w_trace w) ∧ res_delta (w_trace w) [] [4] [8]) (mk_world [] {[8 := Server.mk_hd 4 0 0]}).
Proof.
  rewrite <- (delete_singleton_eq 8 (Server.mk_hd 4 0 0)).
  apply (Server.handler_echoes 3 2 8 (Server.mk_hd 4 0 0) [] {[8 := Server.mk_hd 4 0 0]}).
  - intros tr fd len flags Hlen. unfold os_answer, calm_peer, calm_os, peer_os.
    destruct (2 <=? busy_count tr)%nat; cbn [r_ret r_out]; rewrite ?length_replicate; lia.
  - intros tr fd. unfold os_answer, calm_peer, calm_os, peer_os. destruct (2 <=? busy_count tr)%nat; unfold Server.MAX_LENGTH; cbn [r_ret]; lia.
  - apply calm_os_calms.
  - lia.
  - apply lookup_singleton_eq.
  - done.
Defined.

Lemma full_message_overruns_witness :
  Server.Handler (os := peer_os 1024) 1 8 (mk_world [] {[8 := Server.mk_hd 4 0 0]}) = Undef.
Proof.
  apply (Server.full_message_overruns 1 8 (Server.mk_hd 4 0 0) []); [apply lookup_singleton_eq|lia|].
  intros tr fd. unfold os_answer, peer_os. cbn [r_ret r_out]. rewrite Nat2Z.id. change (Nat.min 1024 Server.MAX_LENGTH) with 1024%nat.
  split; [done|]. split; [by rewrite length_replicate|]. intros [H _]%elem_of_replicate. lia.
Defined.

(** A kernel that delivers one connection. *)
Definition server_os : OS := λ tr c,
  match c with
  | Calloc _ _ => mk_reply (brk tr + 1) 0 []
  | Accept _ => if (1 <=? busy_count tr)%nat then mk_reply (-1) 5 [] else mk_reply 7 0 [0; 0]
  | Socket => mk_reply 3 0 []
  | InetAton _ => mk_reply 1 0 [0]
  | Bind _ _ _ | Listen _ _ | Setsockopt _ _ _ _ | Getsockopt _ _ _ => mk_reply 0 0 [0]
  | _ => mk_reply (-1) 5 []
  end.

Lemma server_hands_over_witness : wp (Server.main (os := server_os) 2) (λ ret w, ret = -1 ∧ ∃ ps socks lst,
    Server.handed (w_trace w) = Server.handed [] ++ ps ∧ res_delta [] (w_trace w) (lst ++ socks) ps ∧ (length lst ≤ 1)%nat ∧
    Forall2 (λ p s, ∃ hd, w_glob w !! p = Some hd ∧ Server.cliSock hd = s) ps socks) (mk_world [] ∅).
Proof.
  apply (Server.server_hands_over 2 1 [] ∅).
  - intros tr n s. cbn. pose proof (brk_nonneg tr). unfold NULL. split; [lia|]. apply brk_fresh. lia.
  - intros tr c HK. unfold os_answer, server_os. destruct c; try done; [by rewrite (proj2 (Nat.leb_le _ _) HK)|]. unfold busy, interrupted. cbn. by rewrite andb_false_r.
  - lia.
Defined.
