(* ===== verification/EchoUdp.v ===== *)
(** * The UDP echo server and its clients (networking/socket/udp/echoserver)

    udp_server.c answers every datagram to its sender, for ever; udp_client.c sends one
    datagram and prints the answer; udp_client_test_2.c sends from two threads through one
    socket while a third prints what arrives.  A reply to [recvfrom] holds the sender's
    address and port and then the data.  The debugging output is compiled out. *)

From Stdlib Require Import ZArith Lia ZifyBool.
From stdpp Require Import base gmap list strings numbers.
From S2P Require Import Prelude Posix.

Definition BUF_SZ : nat := 2048.

(** The sender and the data of a datagram. *)
Definition from_addr (r : reply) : Z := r_out r !!! 0%nat.
Definition from_port (r : reply) : Z := r_out r !!! 1%nat.
Definition payload (r : reply) : list Z := take (Z.to_nat (r_ret r)) (drop 2 (r_out r)).

(** [process_command_line_args], the same in the server and the client: [argv] is the first
    argument and the number in the second one when there are two; [srvr_ip] has sixteen
    bytes. *)
Definition process_command_line_args {os : OS} (argv : option (string * Z)) : M (world unit) (Z * (string * Z)) :=
  match argv with
  | None => sys_ (Printf "Wrong number of args passed!" []);; mret (1, (EmptyString, 0))
  | Some (ip, port) => if (String.length ip <? 16)%nat then mret (0, (ip, u16 port)) else undef
  end.

(** The bytes of [buf] after a datagram of [r_ret r] bytes was stored and terminated. *)
Definition store_datagram {G} (buf : list Z) (r : reply) : M (world G) (list Z) :=
  wr (payload r ++ drop (Z.to_nat (r_ret r)) buf) (r_ret r) 0.

(** ** udp_server.c *)

Module Server.
Section code.
Context {os : OS} (fuel : nat).
Abbreviation UM := (M (world unit)).

Definition create_udp_server (srvr_ip : string) (srvr_port : Z) : UM Z :=
  s ← sys Socket;
  let srvr_sock := r_ret s in
  if srvr_sock <? 0 then sys_ (Printf "error in socket() %d %s" [r_errno s]);; mret (-1)
  else
    sys_ (Setsockopt srvr_sock SOL_SOCKET SO_REUSEADDR [1]);;
    i ← sys (InetAton srvr_ip);
    if r_ret i =? 0 then sys_ (Printf "error in inet_aton()" []);; mret (-2)
    else
      b ← sys (Bind srvr_sock (r_out i !!! 0%nat) srvr_port);
      if r_ret b <? 0 then sys_ (Printf "error in bind() %d %s" [r_errno b]);; mret (-3)
      else mret srvr_sock.

(** A round of [data_rx_tx_loop] with the contents of [buf]. *)
Definition rx_tx_round (srvr_sock : Z) (buf : list Z) : UM (list Z + unit) :=
  r ← sys (Recvfrom srvr_sock (Z.of_nat BUF_SZ));
  let bytes := r_ret r in
  if bytes <? 0 then mret (inl buf)
  else
    buf ← store_datagram buf r;
    print_str "rcvd msg of len %d from %s:%d" buf;;
    s ← sys (Sendto srvr_sock (take (Z.to_nat bytes) buf) (from_addr r) (from_port r));
    sys_ (Printf "sent back msg of len  %d to %s:%d" [r_ret s]);;
    mret (inl buf).

(** [garbage] is what the uninitialised array holds. *)
Definition data_rx_tx_loop (srvr_sock : Z) (garbage : list Z) : UM unit := loop fuel (rx_tx_round srvr_sock) garbage.

Definition main (argv : option (string * Z)) (garbage : list Z) : UM Z :=
  '(e, (srvr_ip, srvr_port)) ← process_command_line_args argv;
  if negb (e =? 0) then sys_ (Printf "Error in process_command_line_args()" []);; exit_with 1
  else
    srvr_sock ← create_udp_server srvr_ip srvr_port;
    (if srvr_sock <? 0 then sys_ (Printf "Error in create_udp_server()" []) else mret tt);;
    data_rx_tx_loop srvr_sock garbage;;
    mret 0.

End code.
End Server.

(** ** udp_client.c *)

Module Client.
Section code.
Context {os : OS}.
Abbreviation UM := (M (world unit)).

Definition MSG : list Z := codes "mohit singh test".

Definition data_tx_rx (sock : Z) (remote_ip : string) (remote_port : Z) (garbage : list Z) : UM Z :=
  let buf := MSG ++ [0] ++ drop (length MSG + 1) garbage in
  i ← sys (InetAton remote_ip);
  if r_ret i =? 0 then sys_ (Printf "Error in inet_aton()" []);; mret 1
  else
    s ← sys (Sendto sock (cstr buf) (r_out i !!! 0%nat) remote_port);
    if r_ret s <? 0 then mret 2
    else
      sys_ (Printf "sent msg of len  %d to %s:%d" [r_ret s]);;
      r ← sys (Recvfrom sock (Z.of_nat BUF_SZ));
      if r_ret r <? 0 then mret 3
      else
        buf ← store_datagram buf r;
        print_str "rcvd msg of len %d from %s:%d" buf;;
        mret 0.

Definition main (argv : option (string * Z)) (garbage : list Z) : UM Z :=
  '(e, (srvr_ip, srvr_port)) ← process_command_line_args argv;
  if negb (e =? 0) then sys_ (Printf "Error in process_command_line_args()" []);; exit_with 1
  else
    s ← sys Socket;
    if r_ret s <? 0 then sys_ (Printf "error in socket() %d %s" [r_errno s]);; exit_with 2
    else
      d ← data_tx_rx (r_ret s) srvr_ip srvr_port garbage;
      if negb (d =? 0) then sys_ (Printf "error in data_tx_rx()" []);; exit_with 3
      else mret 0.

End code.
End Client.

(** ** udp_client_test_2.c *)

Module Multiplexer.

Definition MSG_SZ : nat := Z.to_nat 10480.

Record udp_msg_multiplexer := mk_mmp { udp_mmp_sock : Z; udp_mmp_rx_thread : Z }.

Section code.
Context {os : OS} (fuel : nat).
Abbreviation MM := (M (world udp_msg_multiplexer)).

Definition rx_round (msg : list Z) : MM (list Z + unit) :=
  m ← get_glob;
  r ← sys (Recvfrom (udp_mmp_sock m) (Z.of_nat MSG_SZ));
  if r_ret r <? 0 then sys_ (Printf "error in recvfrom() %d %s" [r_errno r]);; mret (inl msg)
  else
    msg ← store_datagram msg r;
    print_str "rcvd msg of len %d from %s:%d" msg;;
    mret (inl msg).

Definition udp_mmp_msg_rx_thread (garbage : list Z) : MM unit := loop fuel rx_round garbage.

Definition udp_mmp_init : MM Z :=
  s ← sys Socket;
  let sock := r_ret s in
  if sock <? 0 then sys_ (Printf "error in socket() %d %s" [r_errno s]);; mret 1
  else
    upd_glob (λ m, mk_mmp sock (udp_mmp_rx_thread m));;
    t ← sys (PthreadCreate "udp_mmp_msg_rx_thread" 0);
    if negb (r_ret t =? 0) then
      sys_ (Printf "error in pthread_create() %d %s" []);;
      sys_ (Close sock);;
      mret 2
    else
      upd_glob (λ m, mk_mmp sock (r_out t !!! 0%nat));;
      mret 0.

Definition udp_mmp_msg_tx (remote_ip : string) (remote_port : Z) (msg : list Z) : MM Z :=
  i ← sys (InetAton remote_ip);
  if r_ret i =? 0 then sys_ (Printf "Error in inet_aton()" []);; mret 1
  else
    m ← get_glob;
    s ← sys (Sendto (udp_mmp_sock m) msg (r_out i !!! 0%nat) remote_port);
    if r_ret s <? 0 then mret 2
    else
      sys_ (Printf "sent msg of len %d to %s:%d" [r_ret s]);;
      mret 0.

(** A round of a sender thread. *)
Definition sender_round (port : Z) (msg : list Z) (_ : unit) : MM (unit + unit) :=
  e ← udp_mmp_msg_tx "127.0.0.1" port msg;
  (if negb (e =? 0) then sys_ (Printf "Error in udp_mmp_msg_tx()" []) else mret tt);;
  sys_ (Ext "usleep" [1000]);;
  mret (inl tt).

Definition udp_msp_sender_thread_1 : MM unit := loop fuel (sender_round 9955 (codes "mohit singh 9955")) tt.
Definition udp_msp_sender_thread_2 : MM unit := loop fuel (sender_round 9966 (codes "mohit singh 9966")) tt.

Definition main : MM Z :=
  e ← udp_mmp_init;
  if negb (e =? 0) then sys_ (Printf "Error in udp_mmp_init()" []);; exit_with 1
  else
    t1 ← sys (PthreadCreate "udp_msp_sender_thread_1" 0);
    if negb (r_ret t1 =? 0) then sys_ (Printf "error in pthread_create() %d %s" []);; exit_with 2
    else
      t2 ← sys (PthreadCreate "udp_msp_sender_thread_2" 0);
      if negb (r_ret t2 =? 0) then sys_ (Printf "error in pthread_create() %d %s" []);; exit_with 3
      else
        m ← get_glob;
        sys_ (PthreadJoin (udp_mmp_rx_thread m));;
        mret 0.

End code.
End Multiplexer.

(** ** Datagrams *)

(** The datagrams received on [fd] with their senders, and those sent with their
    destinations. *)
Fixpoint datagrams (fd : Z) (tr : list event) : list (list Z * Z * Z) :=
  match tr with
  | [] => []
  | (Recvfrom fd' _, r) :: tr =>
      datagrams fd tr ++ (if (fd' =? fd) && (0 <=? r_ret r) then [(payload r, from_addr r, from_port r)] else [])
  | _ :: tr => datagrams fd tr
  end.

Fixpoint replies (fd : Z) (tr : list event) : list (list Z * Z * Z) :=
  match tr with
  | [] => []
  | (Sendto fd' b a p, _) :: tr => replies fd tr ++ (if fd' =? fd then [(b, a, p)] else [])
  | _ :: tr => replies fd tr
  end.

(** The kernel stores the whole datagram it reports, cut to the size of the buffer, after
    the sender's address and port. *)
Definition recvfrom_honest {os : OS} : Prop := ∀ tr fd len, 0 ≤ len →
  let r := os_answer tr (Recvfrom fd len) in r_ret r ≤ len ∧ (0 ≤ r_ret r → Z.of_nat (length (r_out r)) = 2 + r_ret r).

Lemma payload_length r : Z.of_nat (length (r_out r)) = 2 + r_ret r → 0 ≤ r_ret r → length (payload r) = Z.to_nat (r_ret r).
Proof. intros H H0. unfold payload. rewrite length_take, length_drop. lia. Qed.

(** Storing a datagram shorter than the buffer: the data, a terminator, and the old rest. *)
Lemma store_ok {G} size buf r (w : world G) : length buf = size → Z.of_nat (length (r_out r)) = 2 + r_ret r →
  0 ≤ r_ret r < Z.of_nat size → ∃ rest, length (payload r ++ 0 :: rest) = size ∧
  store_datagram buf r w = Ok (payload r ++ 0 :: rest) w.
Proof.
  intros Hb Hl Hr. pose proof (payload_length r Hl ltac:(lia)) as Hp. unfold store_datagram.
  rewrite wr_ok by (rewrite length_app, length_drop; lia).
  rewrite insert_app_r_alt by lia. rewrite Hp, Nat.sub_diag.
  destruct (drop (Z.to_nat (r_ret r)) buf) as [|x rest] eqn:E.
  - apply (f_equal length) in E. rewrite length_drop in E. cbn in E. lia.
  - exists rest. split; [|done]. apply (f_equal length) in E. rewrite length_drop in E. cbn in E.
    rewrite length_app. cbn. lia.
Qed.

(** A datagram that fills the buffer: the terminator lands behind it. *)
Lemma store_overflow {G} size buf r (w : world G) : length buf = size → Z.of_nat (length (r_out r)) = 2 + r_ret r →
  r_ret r = Z.of_nat size → store_datagram buf r w = Undef.
Proof.
  intros Hb Hl Hr. pose proof (payload_length r Hl ltac:(lia)) as Hp. unfold store_datagram, wr.
  rewrite length_app, length_drop, Hp. rewrite (proj2 (Z.ltb_ge _ _)) by lia. by rewrite andb_false_r.
Qed.

(** Every datagram is shorter than [size]. *)
Definition short_datagrams {os : OS} (size : nat) : Prop :=
  ∀ tr fd, r_ret (os_answer tr (Recvfrom fd (Z.of_nat size))) < Z.of_nat size.

(** ** The server *)

(** The datagrams since [tr] were answered, each to its sender, whole and in order. *)
Definition answered (fd : Z) (tr tr' : list event) : Prop :=
  ∃ ds, datagrams fd tr' = datagrams fd tr ++ ds ∧ replies fd tr' = replies fd tr ++ ds.

Lemma terminated_in (l rest : list Z) : 0 ∈ l ++ 0 :: rest.
Proof. apply elem_of_app. right. left. Qed.

Lemma rx_tx_round_wp {os : OS} sock buf tr0 tr : recvfrom_honest → short_datagrams BUF_SZ → length buf = BUF_SZ →
  answered sock tr0 tr → res_eq tr0 tr →
  wp (Server.rx_tx_round sock buf) (λ x w, match x with
    | inl buf' => length buf' = BUF_SZ ∧ answered sock tr0 (w_trace w) ∧ res_eq tr0 (w_trace w) | inr _ => False end) (mk_world tr tt).
Proof.
  intros Hh Hs Hb (ds & Hd & Ha) Hr. unfold Server.rx_tx_round. apply wp_bind, wp_sys. intros r Hrr.
  destruct (Hh tr sock (Z.of_nat BUF_SZ) ltac:(lia)) as [_ Hlen]. pose proof (Hs tr sock) as Hshort. rewrite <- Hrr in Hlen, Hshort.
  destruct (Z.ltb_spec (r_ret r) 0).
  { apply wp_ret. split; [done|]. split; [|res_solve]. exists ds. cbn. rewrite (proj2 (Z.leb_gt _ _)) by lia.
    by rewrite andb_false_r, app_nil_r. }
  specialize (Hlen ltac:(lia)). destruct (store_ok BUF_SZ buf r (mk_world ((Recvfrom sock (Z.of_nat BUF_SZ), r) :: tr) tt) Hb Hlen ltac:(lia))
    as (rest & Hl & E). apply wp_bind. unfold wp at 1. rewrite E. apply wp_bind, wp_print_str; [apply terminated_in|]. intros r1 _.
  rewrite (take_app_length' (payload r)) by (rewrite payload_length; lia).
  apply wp_bind, wp_sys. intros s _. apply wp_bind, wp_sys_. intros r2 _. apply wp_ret. split; [done|]. split; [|res_solve].
  exists (ds ++ [(payload r, from_addr r, from_port r)]). cbn. rewrite Z.eqb_refl, (proj2 (Z.leb_le 0 _)) by lia. cbn.
  by rewrite Hd, Ha, <- !app_assoc.
Qed.

(** While datagrams are shorter than the buffer the server runs for ever, and at any moment
    it has answered every datagram, in order, to the address it came from and with the same
    bytes; it acquires nothing. *)
Theorem udp_server_answers {os : OS} n sock garbage tr : recvfrom_honest → short_datagrams BUF_SZ → length garbage = BUF_SZ →
  wp (rounds n (Server.rx_tx_round sock) garbage) (λ x w, (∃ buf, x = inl buf) ∧ answered sock tr (w_trace w) ∧
    res_eq tr (w_trace w)) (mk_world tr tt) ∧
  Server.data_rx_tx_loop n sock garbage (mk_world tr tt) = OutOfFuel.
Proof.
  intros Hh Hs Hg. unfold Server.data_rx_tx_loop.
  destruct (rounds_forever (λ buf w, length buf = BUF_SZ ∧ answered sock tr (w_trace w) ∧ res_eq tr (w_trace w))
    (Server.rx_tx_round sock)) with (n := n) (a := garbage) (s := mk_world tr tt) as [H1 H2].
  - intros buf [t []] (Hb & Ha & Hr). by apply rx_tx_round_wp.
  - split; [done|]. split; [|reflexivity]. exists []. by rewrite !app_nil_r.
  - split; [|done]. eapply wp_mono; [exact H1|]. intros [buf|[]] w; [|done]. intros (_ & Ha & Hr). by eauto.
Qed.

(** A datagram of 2048 bytes fills the buffer, and the terminator is written behind it:
    both the server and the client are undefined. *)
Theorem full_datagram_overflows {os : OS} sock garbage tr fuel : length garbage = BUF_SZ → recvfrom_honest →
  (∀ tr, r_ret (os_answer tr (Recvfrom sock (Z.of_nat BUF_SZ))) = Z.of_nat BUF_SZ) →
  (∀ tr ip, r_ret (os_answer tr (InetAton ip)) = 1) → (∀ tr b a p, 0 ≤ r_ret (os_answer tr (Sendto sock b a p))) →
  Server.data_rx_tx_loop (S fuel) sock garbage (mk_world tr tt) = Undef ∧
  ∀ ip port, Client.data_tx_rx sock ip port garbage (mk_world tr tt) = Undef.
Proof.
  intros Hg Hh Hfull Hip Hsend.
  assert (Hlen : ∀ t, Z.of_nat (length (r_out (os_answer t (Recvfrom sock (Z.of_nat BUF_SZ))))) =
    2 + r_ret (os_answer t (Recvfrom sock (Z.of_nat BUF_SZ)))).
  { intros t. apply (Hh t sock (Z.of_nat BUF_SZ) ltac:(lia)). rewrite Hfull. lia. }
  split.
  - unfold Server.data_rx_tx_loop. apply loop_undef. unfold Server.rx_tx_round. erewrite bind_ok by reflexivity. cbn [w_trace].
    rewrite (proj2 (Z.ltb_ge _ _)) by (rewrite Hfull; lia). apply bind_undef. by eapply store_overflow.
  - intros ip port. unfold Client.data_tx_rx. erewrite bind_ok by reflexivity. cbn [w_trace w_glob].
    rewrite (proj2 (Z.eqb_neq _ _)) by (rewrite Hip; lia). erewrite bind_ok by reflexivity. cbn [w_trace w_glob].
    match goal with |- context [os_answer ?t (Sendto _ ?b ?a ?p)] => pose proof (Hsend t b a p) end.
    rewrite (proj2 (Z.ltb_ge _ _)) by lia. erewrite bind_ok by reflexivity. erewrite bind_ok by reflexivity. cbn [w_trace w_glob].
    rewrite (proj2 (Z.ltb_ge _ _)) by (rewrite Hfull; lia). apply bind_undef. eapply store_overflow; [|done|done].
    rewrite !length_app, length_drop, Hg. cbn. unfold BUF_SZ. lia.
Qed.

(** ** The multiplexer *)

(** [udp_mmp_init] returns 0 exactly when the socket was made and the receiving thread
    started, and then holds one more descriptor, the one it recorded; on every error it holds
    what it held before. *)
Theorem udp_mmp_init_owns {os : OS} tr g :
  wp Multiplexer.udp_mmp_init (λ ret w,
    (ret = 0 ∧ res_delta tr (w_trace w) [Multiplexer.udp_mmp_sock (w_glob w)] [] ∧ 0 ≤ Multiplexer.udp_mmp_sock (w_glob w)) ∨
    (0 < ret ∧ res_eq tr (w_trace w))) (mk_world tr g).
Proof.
  unfold Multiplexer.udp_mmp_init. wp_run.
  - right. split; [lia|res_solve].
  - right. split; [lia|res_solve].
  - left. split; [done|]. cbn. split; [res_solve|lia].
Qed.

(** ** Witnesses *)

(** A kernel that delivers datagrams of [n] bytes from one sender. *)
Definition dgram_os (n : nat) : OS := λ tr c,
  match c with
  | Recvfrom _ len => let k := Nat.min n (Z.to_nat len) in mk_reply (Z.of_nat k) 0 (10 :: 99 :: replicate k 65)
  | InetAton _ => mk_reply 1 0 [0]
  | _ => mk_reply 0 0 []
  end.

Lemma dgram_honest n : recvfrom_honest (os := dgram_os n).
Proof. intros tr fd len Hl. unfold os_answer, dgram_os. cbn [r_ret r_out length]. rewrite length_replicate. lia. Qed.

Lemma udp_server_answers_witness :
  wp (rounds 4 (Server.rx_tx_round (os := dgram_os 5) 3) (replicate BUF_SZ 0)) (λ x w, (∃ buf, x = inl buf) ∧
    answered 3 [] (w_trace w) ∧ res_eq [] (w_trace w)) (mk_world [] tt) ∧
  Server.data_rx_tx_loop (os := dgram_os 5) 4 3 (replicate BUF_SZ 0) (mk_world [] tt) = OutOfFuel.
Proof.
  apply (udp_server_answers (os := dgram_os 5) 4 3 (replicate BUF_SZ 0) []); [apply dgram_honest| |apply length_replicate].
  intros tr fd. unfold os_answer, dgram_os. cbn [r_ret]. rewrite Nat2Z.id. change (Nat.min 5 BUF_SZ) with 5%nat. unfold BUF_SZ. lia.
Defined.

Lemma full_datagram_overflows_witness :
  Server.data_rx_tx_loop (os := dgram_os BUF_SZ) 1 3 (replicate BUF_SZ 0) (mk_world [] tt) = Undef ∧
  ∀ ip port, Client.data_tx_rx (os := dgram_os BUF_SZ) 3 ip port (replicate BUF_SZ 0) (mk_world [] tt) = Undef.
Proof.
  apply (full_datagram_overflows (os := dgram_os BUF_SZ) 3 (replicate BUF_SZ 0) [] 0);
    [apply length_replicate|apply dgram_honest| |done|done].
  intros tr. unfold os_answer, dgram_os. cbn [r_ret]. rewrite Nat2Z.id, Nat.min_id. done.
Defined.
