(* ===== verification/EchoUnix.v ===== *)
(** * Programs on local sockets and pipes

    - networking/socket/unixSock/myServer.c and myClient.c: an echo server with a thread per
      client, and its client;
    - networking/socket/unixSock/spair.c: a parent and a child talk over a socket pair;
    - system/ipc/pipe/pipe.c: a child prints what its parent writes to a pipe. *)

From Stdlib Require Import ZArith Lia ZifyBool.
From stdpp Require Import base gmap list strings numbers.
From S2P Require Import Prelude Posix EchoTcp.

Definition BUF : nat := 128.

(** ** unixSock/myServer.c *)

Module Server.

(** The heap cells of type [int], and the counter. *)
Record us_glob := mk_us { cells : gmap Z Z; g_ClientCount : Z }.

Section code.
Context {os : OS} (fuel : nat).
Abbreviation UM := (M (world us_glob)).

(** [*cliSock] *)
Definition deref (p : Z) : UM Z := g ← get_glob; expect (cells g !! p).

Definition handler_round (cliSock : Z) (buf : list Z) : UM (list Z + unit) :=
  s ← deref cliSock;
  r ← sys (Recv s (Z.of_nat BUF) 0);
  let len := r_ret r in
  if len <? 0 then sys_ (Printf "recv" []);; mret (inr tt)
  else
    let n := Z.to_nat len in
    let buf := take n (r_out r) ++ drop n buf in
    if is_bye buf then mret (inr tt)
    else
      s ← deref cliSock;
      w ← sys (Send s (take n buf) 0);
      if r_ret w <? 0 then sys_ (Printf "send" []);; mret (inr tt)
      else mret (inl buf).

Definition count_add (d : Z) : UM unit :=
  sys_ (Ext "pthread_mutex_lock" []);;
  upd_glob (λ g, mk_us (cells g) (g_ClientCount g + d));;
  sys_ (Ext "pthread_mutex_unlock" []).

Definition clientHandler (arg : Z) : UM unit :=
  g ← get_glob;
  sys_ (Printf "Total connected clients = %d" [g_ClientCount g]);;
  sys_ (Sleep 3600);;
  loop fuel (handler_round arg) (replicate BUF 0);;
  s ← deref arg;
  sys_ (Close s);;
  count_add (-1);;
  g ← get_glob;
  sys_ (Printf "Total connected clients = %d" [g_ClientCount g]).

(** A round of the accept loop; the results of [accept] and [pthread_create] are not
    tested. *)
Definition accept_round (servSock cliSock : Z) : UM unit :=
  a ← sys (Accept servSock);
  _ ← deref cliSock;
  upd_glob (λ g, mk_us (<[cliSock := r_ret a]> (cells g)) (g_ClientCount g));;
  sys_ (Printf "DATA = %s" []);;
  sys_ (PthreadCreate "clientHandler" cliSock);;
  count_add 1.

Definition main : UM Z :=
  c ← sys (Calloc 1 4);
  let cliSock := r_ret c in
  (if cliSock =? NULL then mret tt else upd_glob (λ g, mk_us (<[cliSock := 0]> (cells g)) (g_ClientCount g)));;
  s ← sys Socket;
  let servSock := r_ret s in
  if servSock <? 0 then sys_ (Printf "socket" []);; exit_with 1
  else
    sys_ (Ext "unlink" []);;
    b ← sys (Ext "bind" [servSock]);
    if r_ret b =? -1 then sys_ (Printf "bind" []);; exit_with 1
    else
      l ← sys (Listen servSock 1);
      if r_ret l =? -1 then sys_ (Printf "listen" []);; exit_with 1
      else loop fuel (λ _, accept_round servSock cliSock;; mret (inl tt)) tt.

End code.

Section specs.
Context {os : OS} (fuel K : nat).

Lemma unix_handler_round_wp p s buf tr0 tr g : cells g !! p = Some s → res_eq tr0 tr →
  wp (handler_round p buf) (λ x w, w_glob w = g ∧ res_eq tr0 (w_trace w) ∧ match x with
    | inl _ => os_ext tr (w_trace w) ∧ (busy_count tr < busy_count (w_trace w))%nat
    | inr _ => True end) (mk_world tr g).
Proof using Type.
  intros Hp Hr. unfold handler_round, deref. wp_run.
  all: rewrite Hp. all: wp_run.
  all: try (split; [done|]; split; [res_solve|done]).
  all: rewrite Hp. all: wp_run.
  all: split; [done|]; split; [res_solve|]; try done.
  cbn [w_trace]. split; [ext_solve|busy_solve].
Qed.

(** A thread closes the descriptor that is in the cell when it ends. *)
Lemma clientHandler_wp p s tr g : calms_down K → (K < fuel)%nat → cells g !! p = Some s →
  wp (clientHandler fuel p) (λ _ w, cells (w_glob w) = cells g ∧ g_ClientCount (w_glob w) = g_ClientCount g - 1 ∧
    res_delta (w_trace w) tr [s] []) (mk_world tr g).
Proof using Type.
  intros HK Hf Hp. unfold clientHandler, count_add. apply wp_bind, wp_get_glob, wp_bind, wp_sys_. intros r0 _.
  apply wp_bind, wp_sys_. intros r1 _. apply wp_bind. eapply wp_mono.
  - eapply (wp_calm_loop K fuel _ (λ _ w, w_glob w = g ∧ res_eq tr (w_trace w)) (λ _ w, w_glob w = g ∧ res_eq tr (w_trace w))); [done|done| |].
    + split; [done|res_solve].
    + intros buf [t g'] [Hg Hr]. cbn in Hg. subst g'. eapply wp_mono; [by eapply unix_handler_round_wp|].
      intros [b|b] w; cbn [w_trace]; tauto.
  - intros _ [t g'] [Hg Hr]. cbn in Hg, Hr. subst g'. apply wp_bind. unfold deref. apply wp_bind, wp_get_glob. rewrite Hp.
    apply wp_ret. wp_run. split; [done|]. split; [cbn; lia|]. cbn [w_trace]. res_solve.
Qed.

Lemma unix_accept_round_wp servSock p s tr g : cells g !! p = Some s →
  wp (accept_round servSock p) (λ _ w, ∃ c, cells (w_glob w) = <[p := c]> (cells g) ∧
    g_ClientCount (w_glob w) = g_ClientCount g + 1 ∧ (0 ≤ c → res_delta tr (w_trace w) [c] [])) (mk_world tr g).
Proof using Type.
  intros Hp. unfold accept_round, deref, count_add. apply wp_bind, wp_sys. intros a _. apply wp_bind, wp_bind, wp_get_glob.
  rewrite Hp. apply wp_ret. wp_run. exists (r_ret a). split; [done|]. split; [done|]. intros Ha. cbn [w_trace]. res_solve.
Qed.

End specs.

(** All threads share the one cell in which the server stores the accepted descriptor.
    When two clients connect before the first thread wakes from its hour of sleep, both
    threads serve the second one: its descriptor is closed twice and the first client's is
    never used nor closed. *)
Theorem shared_descriptor_mixup {os : OS} fuel K servSock p s tr g : calms_down K → (K < fuel)%nat → cells g !! p = Some s →
  wp (accept_round servSock p;; c1 ← deref p; accept_round servSock p;; c2 ← deref p;
      clientHandler fuel p;; clientHandler fuel p;; mret (c1, c2))
    (λ '(c1, c2) w, 0 ≤ c1 → 0 ≤ c2 → c1 ≠ c2 →
       fd_balance (w_trace w) c1 = fd_balance tr c1 + 1 ∧ fd_balance (w_trace w) c2 = fd_balance tr c2 - 1) (mk_world tr g).
Proof.
  intros HK Hf Hp. apply wp_bind. eapply wp_mono; [by eapply unix_accept_round_wp|]. intros _ [t1 g1] (c1 & Hc1 & _ & Hr1). cbn [w_glob w_trace] in *.
  apply wp_bind. unfold deref at 1. apply wp_bind, wp_get_glob. rewrite Hc1, lookup_insert_eq. apply wp_ret.
  apply wp_bind. eapply wp_mono; [eapply unix_accept_round_wp; rewrite Hc1; apply lookup_insert_eq|].
  intros _ [t2 g2] (c2 & Hc2 & _ & Hr2). cbn [w_glob w_trace] in *.
  apply wp_bind. unfold deref at 1. apply wp_bind, wp_get_glob. rewrite Hc2, lookup_insert_eq. apply wp_ret.
  apply wp_bind. eapply wp_mono; [eapply (clientHandler_wp fuel K p c2); [done|done|rewrite Hc2; apply lookup_insert_eq]|].
  intros _ [t3 g3] (Hc3 & _ & Hr3). cbn [w_glob w_trace] in *.
  apply wp_bind. eapply wp_mono; [eapply (clientHandler_wp fuel K p c2); [done|done|rewrite Hc3, Hc2; apply lookup_insert_eq]|].
  intros _ w (_ & _ & Hr4). apply wp_ret. intros H1 H2 Hne. destruct (Hr1 H1) as [A1 _], (Hr2 H2) as [A2 _], Hr3 as [A3 _], Hr4 as [A4 _].
  split; [specialize (A1 c1); specialize (A2 c1); specialize (A3 c1); specialize (A4 c1)
         |specialize (A1 c2); specialize (A2 c2); specialize (A3 c2); specialize (A4 c2)]; unfold count in *; cbn in *; lia.
Qed.

(** The thread does not notice that its client has closed the connection: [recv] then
    returns 0 at once, nothing is sent, and the loop goes round for ever. *)
Theorem closed_client_spins {os : OS} n p s tr g : cells g !! p = Some s →
  (∀ tr, r_ret (os_answer tr (Recv s (Z.of_nat BUF) 0)) = 0) → (∀ tr, r_ret (os_answer tr (Send s [] 0)) = 0) →
  clientHandler n p (mk_world tr g) = OutOfFuel.
Proof.
  intros Hp Hrecv Hsend. unfold clientHandler. erewrite bind_ok by reflexivity. do 2 (erewrite bind_ok by reflexivity).
  apply bind_out_of_fuel. eapply (rounds_forever (λ buf w, buf = replicate BUF 0 ∧ w_glob w = g)); [|by split].
  intros buf [t g'] [-> Hg]. cbn in Hg. subst g'. unfold handler_round, deref. apply wp_bind, wp_bind, wp_get_glob. rewrite Hp.
  apply wp_ret, wp_bind, wp_sys. intros r Hr. assert (Hr0 : r_ret r = 0) by (rewrite Hr; apply Hrecv). rewrite Hr0. cbn [Z.ltb Z.compare Z.to_nat take drop app].
  change (is_bye (replicate BUF 0)) with false. apply wp_bind, wp_bind, wp_get_glob. rewrite Hp. apply wp_ret, wp_bind, wp_sys.
  intros r' Hr'. assert (Hs0 : r_ret r' = 0) by (rewrite Hr'; apply Hsend). rewrite Hs0. by apply wp_ret.
Qed.

End Server.

(** ** unixSock/myClient.c *)

Module Client.
Section code.
Context {os : OS} (fuel : nat).
Abbreviation UM := (M (world unit)).

Definition client_round (cliSock : Z) (buf : list Z) : UM (list Z + unit) :=
  sys_ (Printf ">" []);;
  f ← sys (Ext "fgets" [Z.of_nat BUF]);
  if r_ret f =? NULL then sys_ (Printf "fgets" []);; mret (inr tt)
  else
    let line := take (BUF - 1) (r_out f) ++ [0] in
    let buf := line ++ drop (length line) buf in
    s ← sys (Send cliSock (cstr buf) 0);
    if r_ret s <? 0 then sys_ (Printf "send" []);; mret (inr tt)
    else if is_bye buf then mret (inr tt)
    else
      r ← sys (Recv cliSock (Z.of_nat BUF) 0);
      if r_ret r <? 0 then sys_ (Printf "recv" []);; mret (inr tt)
      else
        let n := Z.to_nat (r_ret r) in
        let buf := take n (r_out r) ++ drop n buf in
        print_str "Server says : %s" buf;;
        mret (inl buf).

Definition main : UM unit :=
  s ← sys Socket;
  let cliSock := r_ret s in
  if cliSock <? 0 then sys_ (Printf "socket" []);; exit_with 1
  else
    sys_ (Printf "Trying to connect..." []);;
    c ← sys (Ext "connect" [cliSock]);
    if r_ret c <? 0 then sys_ (Printf "connect" []);; exit_with 1
    else
      loop fuel (client_round cliSock) (replicate BUF 0);;
      sys_ (Close cliSock).

End code.
End Client.

(** ** spair.c *)

Module SocketPair.

Definition toupper (c : Z) : Z := if (97 <=? c) && (c <=? 122) then c - 32 else c.

Section code.
Context {os : OS}.
Abbreviation PM := (M (world unit)).

(** [read(fd, &buf, 1)]: the variable keeps its value when nothing is read. *)
Definition read1 (fd buf : Z) : PM Z :=
  r ← sys (Read fd 1);
  mret (if 0 <? r_ret r then r_out r !!! 0%nat else buf).

Definition child (sv1 buf : Z) : PM unit :=
  buf ← read1 sv1 buf;
  sys_ (Printf "child: read '%c'" [buf]);;
  let buf := toupper buf in
  sys_ (Write sv1 [buf]);;
  sys_ (Printf "child: sent '%c'" [buf]).

Definition parent (sv0 buf : Z) : PM unit :=
  sys_ (Write sv0 [98]);;
  sys_ (Printf "parent: sent 'b'" []);;
  buf ← read1 sv0 buf;
  sys_ (Printf "parent: read '%c'" [buf]);;
  sys_ (Waitpid (-1) 0).

Definition main (garbage : Z) : PM Z :=
  p ← sys (Ext "socketpair" []);
  if r_ret p =? -1 then sys_ (Printf "socketpair" []);; exit_with 1
  else
    f ← sys Fork;
    (if r_ret f =? 0 then child (r_out p !!! 1%nat) garbage else parent (r_out p !!! 0%nat) garbage);;
    mret 0.

End code.

(** The bytes written to [fd]. *)
Fixpoint written (fd : Z) (tr : list event) : list Z :=
  match tr with
  | [] => []
  | (Write fd' b, _) :: tr => written fd tr ++ (if fd' =? fd then b else [])
  | _ :: tr => written fd tr
  end.

(** The bytes read from [fd]. *)
Fixpoint bytes_read (fd : Z) (tr : list event) : list Z :=
  match tr with
  | [] => []
  | (Read fd' _, r) :: tr => bytes_read fd tr ++ (if fd' =? fd then take (Z.to_nat (r_ret r)) (r_out r) else [])
  | _ :: tr => bytes_read fd tr
  end.

(** A run of the two processes over the pair: what each end reads is what the other end
    wrote, [tr1] being the history of the child up to its end and [tr0] the parent's. *)
Lemma pair_exchange {osp osc : OS} sv0 sv1 g0 g1 : 
  (∀ tr, os_answer (OS := osc) tr (Read sv1 1) = mk_reply 1 0 [98]) →
  (∀ tr, os_answer (OS := osp) tr (Read sv0 1) = mk_reply 1 0 [toupper 98]) →
  wp (child (os := osc) sv1 g1) (λ _ w, written sv1 (w_trace w) = [toupper 98]) (mk_world [] tt) ∧
  wp (parent (os := osp) sv0 g0) (λ _ w, written sv0 (w_trace w) = [98] ∧
    lines "parent: read '%c'" (w_trace w) = [[66]]) (mk_world [] tt).
Proof.
  intros Hc Hp. split.
  - unfold child, read1. apply wp_bind, wp_bind, wp_sys. intros r Hr. rewrite Hc in Hr. subst r. apply wp_ret. wp_run.
    cbn. by rewrite Z.eqb_refl.
  - unfold parent, read1. apply wp_bind, wp_sys_. intros r0 _. apply wp_bind, wp_sys_. intros r1 _. apply wp_bind, wp_bind, wp_sys.
    intros r Hr. rewrite Hp in Hr. subst r. apply wp_ret. wp_run. cbn. by rewrite Z.eqb_refl.
Qed.

End SocketPair.

(** ** pipe.c *)

Module PipeCopy.
Section code.
Context {os : OS} (fuel : nat).
Abbreviation PM := (M (world unit)).

(** A round of the child's loop with the variable [buf]. *)
Definition child_round (p0 buf : Z) : PM (Z + unit) :=
  r ← sys (Read p0 1);
  if r_ret r =? 0 then mret (inr tt)
  else
    let buf := if 0 <? r_ret r then r_out r !!! 0%nat else buf in
    sys_ (Write 1 [buf]);;
    mret (inl buf).

Definition child (p0 p1 buf : Z) : PM unit :=
  sys_ (Printf "Child Process..." []);;
  sys_ (Close p1);;
  loop fuel (child_round p0) buf;;
  sys_ (Write 1 [10]);;
  sys_ (Close p0).

Definition parent (p0 p1 : Z) (arg : list Z) : PM unit :=
  sys_ (Printf "Parent Process" []);;
  sys_ (Close p0);;
  sys_ (Write p1 arg);;
  sys_ (Close p1);;
  sys_ (Waitpid (-1) 0).

Definition main (argv : option (list Z)) (garbage : Z) : PM Z :=
  match argv with
  | None => sys_ (Printf "Error in passing arguments to the program" []);; exit_with 1
  | Some arg =>
      p ← sys Pipe;
      if r_ret p <? 0 then sys_ (Printf "Error in pipe()" []);; exit_with 1
      else
        let p0 := r_out p !!! 0%nat in
        let p1 := r_out p !!! 1%nat in
        f ← sys Fork;
        if r_ret f <? 0 then sys_ (Printf "Error in fork()" []);; exit_with 1
        else if r_ret f =? 0 then child p0 p1 garbage;; exit_with 0
        else parent p0 p1 arg;; exit_with 0
  end.

End code.

(** The other end of the pipe: reads succeed, one byte at a time, until the end, which comes
    after at most [N] bytes. *)
Class PIPE {os : OS} (p0 : Z) (N : nat) : Prop := {
  pipe_read : ∀ tr, let r := os_answer tr (Read p0 1) in r_ret r = 0 ∨ (r_ret r = 1 ∧ length (r_out r) = 1%nat);
  pipe_end : ∀ tr, (N ≤ length (SocketPair.bytes_read p0 tr))%nat → r_ret (os_answer tr (Read p0 1)) = 0 }.

(** The child copies to its standard output exactly the bytes it reads from the pipe, in
    order, and a newline at the end of the file, and closes both ends. *)
Theorem pipe_child_copies {os : OS} {N : nat} p0 p1 {P : PIPE p0 N} fuel garbage tr : (N < fuel)%nat →
  SocketPair.bytes_read p0 tr = [] →
  wp (child fuel p0 p1 garbage) (λ _ w,
    SocketPair.written 1 (w_trace w) = SocketPair.written 1 tr ++ SocketPair.bytes_read p0 (w_trace w) ++ [10] ∧
    res_delta (w_trace w) tr [p1; p0] []) (mk_world tr tt).
Proof.
  intros Hf H0. unfold child. apply wp_bind, wp_sys_. intros r0 _. apply wp_bind, wp_sys_. intros r1 _. apply wp_bind. eapply wp_mono.
  - eapply (wp_loop (λ _ w, SocketPair.written 1 (w_trace w) = SocketPair.written 1 tr ++ SocketPair.bytes_read p0 (w_trace w) ∧
        res_delta (w_trace w) tr [p1] []) (λ _ w, N - length (SocketPair.bytes_read p0 (w_trace w)))%nat _
      (λ _ w, SocketPair.written 1 (w_trace w) = SocketPair.written 1 tr ++ SocketPair.bytes_read p0 (w_trace w) ∧
        res_delta (w_trace w) tr [p1] [])).
    + intros b [t []] [Hw Hr]. unfold child_round. apply wp_bind, wp_sys. intros r Hrr. cbn [w_trace] in *.
      pose proof (pipe_read t) as Hp. cbn zeta in Hp. rewrite <- Hrr in Hp. destruct (Z.eqb_spec (r_ret r) 0) as [E|E].
      * apply wp_ret. cbn. rewrite E, Z.eqb_refl. cbn. rewrite app_nil_r. split; [done|]. res_solve.
      * destruct Hp as [?|[E1 Hl]]; [done|]. rewrite E1. change (0 <? 1) with true. apply wp_bind, wp_sys_. intros r' _. apply wp_ret.
        destruct (r_out r) as [|x [|]] eqn:Eo; [done| |done]. cbn. rewrite Z.eqb_refl, E1, Eo. cbn. rewrite Hw, <- app_assoc.
        split; [split; [done|res_solve]|]. change (take (Z.to_nat 1) [x]) with [x]. rewrite length_app. cbn [length].
        destruct (decide (N ≤ length (SocketPair.bytes_read p0 t))%nat) as [Hle|]; [|lia].
        apply pipe_end in Hle. rewrite <- Hrr in Hle. lia.
    + cbn. rewrite H0, app_nil_r. split; [done|]. res_solve.
    + cbn. lia.
  - intros [] [t []] [Hw Hr]. cbn [w_trace] in *. wp_run. cbn. rewrite Hw, <- app_assoc. split; [done|]. res_solve.
Qed.

(** An error of [read] is not the end of the file: the child then writes its buffer, which
    it never filled, again and again. *)
Theorem pipe_error_spins {os : OS} p0 p1 n garbage tr : (∀ tr, r_ret (os_answer tr (Read p0 1)) = -1) →
  child n p0 p1 garbage (mk_world tr tt) = OutOfFuel.
Proof.
  intros Herr. unfold child. do 2 (erewrite bind_ok by reflexivity). apply bind_out_of_fuel.
  eapply (rounds_forever (λ b _, b = garbage)); [|done]. intros b [t []] ->. unfold child_round. apply wp_bind, wp_sys. intros r Hr.
  assert (E : r_ret r = -1) by (rewrite Hr; apply Herr). rewrite E. cbn. apply wp_bind, wp_sys_. intros r' _. by apply wp_ret.
Qed.

End PipeCopy.

(** ** Witnesses *)

#[local] Instance quiet_os : OS := λ tr c,
  match c with
  | Accept _ => if (2 <=? busy_count tr)%nat then mk_reply (-1) 5 [] else mk_reply (7 + Z.of_nat (busy_count tr)) 0 []
  | Recv _ _ _ | Read _ _ => mk_reply 0 0 []
  | Send _ _ _ => if (2 <=? busy_count tr)%nat then mk_reply (-1) 5 [] else mk_reply 0 0 []
  | _ => mk_reply (-1) 5 []
  end.

Lemma quiet_os_calms : calms_down 2.
Proof. intros tr c H. unfold os_answer, quiet_os. destruct c; try done; by rewrite (proj2 (Nat.leb_le _ _) H). Qed.

Lemma shared_descriptor_mixup_witness :
  wp (Server.accept_round 3 8;; c1 ← Server.deref 8; Server.accept_round 3 8;; c2 ← Server.deref 8;
      Server.clientHandler 3 8;; Server.clientHandler 3 8;; mret (c1, c2))
    (λ '(c1, c2) w, 0 ≤ c1 → 0 ≤ c2 → c1 ≠ c2 →
       fd_balance (w_trace w) c1 = fd_balance [] c1 + 1 ∧ fd_balance (w_trace w) c2 = fd_balance [] c2 - 1)
    (mk_world [] (Server.mk_us {[8 := 0]} 0)).
Proof.
  apply (Server.shared_descriptor_mixup 3 2 3 8 0); [apply quiet_os_calms|lia|apply lookup_singleton_eq].
Defined.

(** In that run the two descriptors are 7 and 8. *)
Example mixup_descriptors : match
  (Server.accept_round 3 8;; c1 ← Server.deref 8; Server.accept_round 3 8;; c2 ← Server.deref 8; mret (c1, c2))
  (mk_world [] (Server.mk_us {[8 := 0]} 0)) with Ok r _ => r = (7, 8) | _ => False end.
Proof. vm_compute. reflexivity. Qed.

Definition gone_os : OS := λ tr c, mk_reply 0 0 [].

Lemma closed_client_spins_witness :
  Server.clientHandler (os := gone_os) 9 8 (mk_world [] (Server.mk_us {[8 := 4]} 0)) = OutOfFuel.
Proof. apply (Server.closed_client_spins (os := gone_os) 9 8 4); [apply lookup_singleton_eq|done|done]. Defined.

(** A pipe with three bytes. *)
Definition three_bytes : OS := λ tr c,
  match c with
  | Read _ _ => if (3 <=? length (SocketPair.bytes_read 5 tr))%nat then mk_reply 0 0 [] else mk_reply 1 0 [65]
  | _ => mk_reply 0 0 []
  end.

Lemma three_bytes_pipe : PipeCopy.PIPE (os := three_bytes) 5 3.
Proof.
  split; intros tr; unfold os_answer, three_bytes.
  - cbn zeta. destruct (3 <=? _)%nat; cbn; auto.
  - intros H. by rewrite (proj2 (Nat.leb_le _ _) H).
Qed.

Lemma pipe_child_copies_witness : wp (PipeCopy.child (os := three_bytes) 4 5 6 0) (λ _ w,
    SocketPair.written 1 (w_trace w) = SocketPair.written 1 [] ++ SocketPair.bytes_read 5 (w_trace w) ++ [10] ∧
    res_delta (w_trace w) [] [6; 5] []) (mk_world [] tt).
Proof. apply (PipeCopy.pipe_child_copies (os := three_bytes) 5 6 (P := three_bytes_pipe) 4 0 []); [lia|done]. Defined.

Definition broken_os : OS := λ tr c, mk_reply (-1) 5 [].

Lemma pipe_error_spins_witness : PipeCopy.child (os := broken_os) 7 5 6 0 (mk_world [] tt) = OutOfFuel.
Proof. apply (PipeCopy.pipe_error_spins (os := broken_os) 5 6 7 0 []). done. Defined.
