(* ===== verification/MemPoolTest.v ===== *)
(** * The memory pool's test program (system/mem_pool/argo_test_mem_pool.c)

    The tests are clients of the pool of MemPool.v.  The text ABC_%03d and its terminator
    are eight bytes, so writing it into an object is one 64-bit store, and printing it one
    load; the value of a test is its result with the words it printed. *)

From Stdlib Require Import ZArith Lia.
From stdpp Require Import base gmap list strings numbers.
From S2P Require Import Prelude MemPool.

Definition OBJ_SZ : Z := 8.
Definition OBJ_CNT : Z := 4.

(** The little-endian word of the eight bytes of "ABC_" and three digits. *)
Definition abc (i : Z) : Z :=
  foldr (λ c w, c + 256 * w) 0 [65; 66; 67; 95; 48 + i / 100 mod 10; 48 + i / 10 mod 10; 48 + i mod 10; 0].

Section code.
Context (alloc_ok : Z → Z → bool) (junk : ptr → Z).

(** Calls through a NULL pool or object are undefined. *)
Definition create : M heap (option Z) := argo_mem_pool_create alloc_ok OBJ_SZ OBJ_CNT.
Definition get (mp : option Z) : M heap (option ptr) := mp ← expect mp; argo_mem_pool_get alloc_ok junk mp.
Definition put (mp : option Z) (p : option ptr) : M heap unit := mp ← expect mp; p ← expect p; argo_mem_pool_put junk mp p.
Definition destroy (mp : option Z) : M heap unit := mp ← expect mp; argo_mem_pool_destroy mp.

(** [sprintf(p, "ABC_%03d", i)] and the word that [printf("%s")] shows. *)
Definition fill (p : option ptr) (i : Z) : M heap unit := p ← expect p; store64 p (abc i).
Definition show (p : option ptr) : M heap Z := p ← expect p; load64 junk p.

(** The array [ptr] of a test. *)
Definition at_ (ps : list (option ptr)) (i : Z) : M heap (option ptr) := expect (ps !! Z.to_nat i).

(** [for (i = 0; i < n; i++)]: get an object into [ptr[i]], fill it, and show it when [print]
    says so; [inl] when an object could not be had. *)
Fixpoint get_loop (mp : option Z) (print : bool) (n : nat) (i : Z) (ps : list (option ptr)) (out : list Z) :
    M heap (list Z + list (option ptr) * list Z) :=
  match n with
  | O => mret (inr (ps, out))
  | S n =>
      p ← get mp;
      match p with
      | None => mret (inl out)
      | Some _ =>
          fill p i;;
          out ← (if print then v ← show p; mret (out ++ [v]) else mret out);
          get_loop mp print n (i + 1) (ps ++ [p]) out
      end
  end.

(** [for (i = 0; i < n; i++) printf(..., ptr[i])] *)
Fixpoint show_loop (ps : list (option ptr)) (out : list Z) : M heap (list Z) :=
  match ps with [] => mret out | p :: ps => v ← show p; show_loop ps (out ++ [v]) end.

(** Putting back objects in the order of the list. *)
Fixpoint put_loop (mp : option Z) (ps : list (option ptr)) : M heap unit :=
  match ps with [] => mret tt | p :: ps => put mp p;; put_loop mp ps end.

Definition test1 : M heap (Z * list Z) :=
  mp ← create;
  p ← get mp;
  fill p 1;;
  v ← show p;
  put mp p;;
  destroy mp;;
  mret (0, [v]).

Definition test2 : M heap (Z * list Z) :=
  mp ← create;
  r ← get_loop mp true 4 0 [] [];
  match r with
  | inl out => mret (1, out)
  | inr (ps, out) => put_loop mp (reverse ps);; destroy mp;; mret (0, out)
  end.

(** The common text of test3 and test4: [n] objects are had, shown and put back. *)
Definition get_show_put (n : nat) : M heap (Z * list Z) :=
  mp ← create;
  r ← get_loop mp false n 0 [] [];
  match r with
  | inl out => mret (1, out)
  | inr (ps, out) =>
      out ← show_loop ps out;
      put_loop mp (reverse ps);;
      destroy mp;;
      mret (0, out)
  end.

Definition test3 : M heap (Z * list Z) := get_show_put 5.
Definition test4 : M heap (Z * list Z) := get_show_put 9.

(** [ptr[i] = argo_mem_pool_get(mp); sprintf(ptr[i], "ABC_%03d", i);] *)
Definition refill (mp : option Z) (i : Z) (ps : list (option ptr)) : M heap (list (option ptr)) :=
  p ← get mp;
  fill p i;;
  mret (<[Z.to_nat i := p]> ps).

Definition put_at (mp : option Z) (ps : list (option ptr)) (i : Z) : M heap unit := p ← at_ ps i; put mp p.

Definition test5 : M heap (Z * list Z) :=
  mp ← create;
  r ← get_loop mp false 4 0 [] [];
  match r with
  | inl out => mret (1, out)
  | inr (ps, out) =>
      out ← show_loop ps out;
      let ps := ps ++ replicate 12 None in
      put_at mp ps 0;; put_at mp ps 3;;
      ps ← refill mp 0 ps; ps ← refill mp 3 ps; ps ← refill mp 4 ps; ps ← refill mp 5 ps;
      out ← show_loop (take 6 ps) out;
      put_at mp ps 4;; put_at mp ps 5;;
      ps ← refill mp 6 ps; ps ← refill mp 7 ps; ps ← refill mp 8 ps; ps ← refill mp 4 ps; ps ← refill mp 5 ps;
      out ← show_loop (take 9 ps) out;
      put_loop mp (take 9 ps);;
      destroy mp;;
      mret (0, out)
  end.

Definition test6 : M heap (Z * list Z) :=
  mp ← argo_mem_pool_create alloc_ok 8 2;
  for_range 50 0 (λ _ _, get mp;; mret tt) tt;;
  mret (0, []).

(** The result of every test, as [main] prints it, and what the test printed. *)
Definition main : M heap (list (bool * list Z)) :=
  let run t := r ← t; mret (r.1 =? 0, r.2) in
  r1 ← run test1; r2 ← run test2; r3 ← run test3; r4 ← run test4; r5 ← run test5; r6 ← run test6;
  mret [r1; r2; r3; r4; r5; r6].

End code.

(** What the tests should print. *)
Definition expected : list (bool * list Z) :=
  [ (true, abc <$> [1]); (true, abc <$> [0; 1; 2; 3]); (true, abc <$> [0; 1; 2; 3; 4]);
    (true, abc <$> [0; 1; 2; 3; 4; 5; 6; 7; 8]);
    (true, abc <$> [0; 1; 2; 3] ++ [0; 1; 2; 3; 4; 5] ++ [0; 1; 2; 3; 4; 5; 6; 7; 8]); (true, []) ].

(** The live blocks after a run. *)
Definition live_blocks {A} (o : outcome heap A) : list (Z * Z) :=
  match o with Ok _ h => map_to_list (blocks h) | _ => [] end.

(** While memory is available every test passes, whatever fresh memory holds: each object
    shows the text written to it although others were taken, returned and reused in between.
    Tests 1 to 5 leave no block behind. *)
Theorem test_program_passes junk :
  (∃ h, main always_ok junk empty_heap = Ok expected h) ∧
  live_blocks ((test1 always_ok junk;; test2 always_ok junk;; test3 always_ok junk;; test4 always_ok junk;;
    test5 always_ok junk) empty_heap) = [].
Proof. split; [eexists|]; vm_compute; reflexivity. Qed.

(** [test6] never destroys its pool, so the pool and its twenty-five slabs stay allocated. *)
Theorem test6_leaks junk : length (live_blocks (test6 always_ok junk empty_heap)) = 26%nat.
Proof. vm_compute. reflexivity. Qed.

(** The tests do not look at the result of the creation: when memory runs out at once,
    all of them use a NULL pool. *)
Theorem test_create_unchecked junk h : let none := λ _ _, false in
  test1 none junk h = Undef ∧ test2 none junk h = Undef ∧ test5 none junk h = Undef ∧ test6 none junk h = Undef.
Proof. split_and!; reflexivity. Qed.
