(* ===== verification/ConnTest.v ===== *)
(** * The connection manager's test program (networking/conn_mgr/test/test.c)

    The tests are clients of Queue.v, ConnMgr.v and ConnPool.v.  [test_queue] runs on the
    queue heap and returns what it prints.  The workers of [test_pool] are threads of the
    machine of ConnPool.v that pop a connection and push it back; each has a phase beside
    its place in the pool's code. *)

From Stdlib Require Import ZArith Lia ZifyBool.
From stdpp Require Import base gmap list strings numbers.
From S2P Require Import Prelude Posix Queue ConnMgr ConnPool.

Definition NUM : Z := 10.
Definition HOST : string := "172.19.13.25".
Definition PORT : Z := 80.
Definition TIMEOUT : Z := 5000.
Definition POOL_SIZE : Z := 2.
Definition NUM_WORKERS : nat := 4.

(** ** test_queue *)

Section queue.
Context (malloc_ok : Z → bool) (fuel : nat).

(** The elements of [arr] lie from this address on; [arr[i]] is [i]. *)
Definition arr : Z := 4096.
Definition deref_int (d : Z) : M qheap Z :=
  if (arr <=? d) && (d <? arr + 4 * NUM) && ((d - arr) mod 4 =? 0) then mret ((d - arr) / 4) else undef.

(** [queue_info]: the length and the elements, in the order of the queue; the callback
    [print_queue] prints an element. *)
Definition queue_info (q : Z) : M qheap (Z * list Z) :=
  count ← conn_mgr_queue_get_length fuel q;
  x ← load_queue q;
  elems ← item_loop fuel (λ it acc, d ← deref_int (it_data it); mret (acc ++ [d])) (q_head x) [];
  mret (count, elems).

(** What [queue_info] prints before each pop, and the elements popped. *)
Definition test_queue (q : Z) : M qheap (list (Z * list Z) * list Z) :=
  conn_mgr_queue_init q;;
  for_range (Z.to_nat NUM) 0 (λ i _,
    if Z.odd i then conn_mgr_queue_push_head malloc_ok q (arr + 4 * i)
    else conn_mgr_queue_push_tail malloc_ok q (arr + 4 * i)) tt;;
  info ← queue_info q;
  for_range (Z.to_nat NUM) 0 (λ _ '(infos, popped),
    info ← queue_info q;
    d ← conn_mgr_queue_pop_head q;
    v ← deref_int d;
    mret (infos ++ [info], popped ++ [v])) ([info], []).

End queue.

(** ** test_conn *)

Definition test_conn {os : OS} {X} (fuel : nat) : M (world (cm_mem X)) unit :=
  conn ← conn_mgr_conn_new fuel (Some HOST) PORT TIMEOUT;
  (if conn =? NULL then sys_ (Printf "Error in %d %s in conn_mgr_conn_new" [])
   else sys_ (Printf "Success in conn_mgr_conn_new" []));;
  fd ← conn_mgr_conn_get_fd conn;
  sys_ (Printf "fd for conn %d" [fd]);;
  conn_mgr_conn_destroy conn.

(** ** test_pool *)

Module Workers.
Import Threads.

(** The phases of [pool_worker]: before the call of [conn_mgr_pool_pop], in it, with a
    connection (asleep), in [conn_mgr_pool_push], and at the end. *)
Inductive phase := WStart | WPop | WHas (c : Z) | WPush (c : Z) | WDone.

#[global] Instance phase_dec : EqDecision phase.
Proof. solve_decision. Defined.

Section code.
Context {os : OS} (fuel : nat) (malloc_ok : Z → bool) (P : Z).

Definition config : Type := machine * list phase.

(** The connection a thread owns. *)
Definition owned_by (t : nat) (ow : list (nat * Z)) : option Z := snd ∘ snd <$> list_find (λ x, x.1 = t) ow.

(** The phase after a round of the critical section. *)
Definition phase_after (t : nat) (m : machine) (a : phase) : phase :=
  match a with
  | WPop =>
      if bool_decide (m_threads m !! t = Some Idle)
      then match owned_by t (m_owned m) with Some c => WHas c | None => WDone end
      else WPop
  | WPush _ => WDone
  | a => a
  end.

(** What a worker does next. *)
Definition wexec (a : action) (s : config) : option config :=
  let '(m, ws) := s in
  match a with
  | ACall t k =>
      match ws !! t, k with
      | Some WStart, RPop => m' ← exec1 fuel malloc_ok P a m; Some (m', <[t := WPop]> ws)
      | Some (WHas c), RPush c' =>
          if c =? c' then m' ← exec1 fuel malloc_ok P a m; Some (m', <[t := WPush c]> ws) else None
      | _, _ => None
      end
  | ALock t => m' ← exec1 fuel malloc_ok P a m; Some (m', ws)
  | ARun t u => p ← ws !! t; m' ← exec1 fuel malloc_ok P a m; Some (m', <[t := phase_after t m' p]> ws)
  end.

Fixpoint wrun (acts : list action) (s : config) : option config :=
  match acts with [] => Some s | a :: acts => wexec a s ≫= wrun acts end.

(** [test_pool] after the creation of the pool, in the world [w]. *)
Definition workers (w : world (cm_mem pmem)) (n : nat) : config := (start n w, replicate n WStart).

End code.

(** *** The invariant *)

(** A worker's phase agrees with its place in the pool's code and with what it owns. *)
Definition phase_ok (ow : list (nat * Z)) (t : nat) (a : phase) (b : pc) : Prop :=
  match a with
  | WStart | WDone => b = Idle ∧ ∀ c, (t, c) ∉ ow
  | WPop => (b = AtLock RPop ∨ b = Holding RPop ∨ b = Waiting ∨ b = Signalled) ∧ ∀ c, (t, c) ∉ ow
  | WHas c => b = Idle ∧ (t, c) ∈ ow
  | WPush c => (b = AtLock (RPush c) ∨ b = Holding (RPush c)) ∧ (t, c) ∈ ow
  end.

Definition phases_ok (ow : list (nat * Z)) (ws : list phase) (thr : list pc) : Prop :=
  ∀ t a b, ws !! t = Some a → thr !! t = Some b → phase_ok ow t a b.

(** The pool has opened all the connections it may open. *)
Definition full (P : Z) (w : world (cm_mem pmem)) : Prop :=
  ∃ pl, pools (rest (w_glob w)) !! P = Some pl ∧ pl_max_pool_size pl ≤ pl_size pl.

Record winv (P max : Z) (s : config) : Prop := {
  wi_inv : inv P max s.1;
  wi_lost : m_lost s.1 = [];
  wi_phantom : m_phantom s.1 = 0%nat;
  wi_len : length s.2 = length (m_threads s.1);
  wi_nodup : NoDup (m_owned s.1).*1;
  wi_owner : ∀ t c, (t, c) ∈ m_owned s.1 → (t < length s.2)%nat;
  wi_phase : phases_ok (m_owned s.1) s.2 (m_threads s.1);
  wi_full : Waiting ∈ m_threads s.1 → full P (m_world s.1) }.

(** The steps a worker may still take, counting for a push the wake-up it can cause. *)
Definition pw (x : phase * pc) : nat :=
  match x with
  | (WStart, _) => 9
  | (WPop, AtLock _) | (WPop, Signalled) => 8
  | (WPop, Holding _) => 7
  | (WPop, _) => 6
  | (WHas _, _) => 5
  | (WPush _, AtLock _) => 4
  | (WPush _, _) => 3
  | (WDone, _) => 0
  end.

Definition total (s : config) : nat := weigh pw (zip s.2 (m_threads s.1)).

Lemma weigh_pos_ex (thr : list pc) : wakers thr ≠ 0%nat → ∃ u x, thr !! u = Some x ∧ weight x ≠ 0%nat.
Proof.
  unfold wakers. induction thr as [|x thr IH]; [done|]. intros H. destruct (decide (weight x = 0%nat)) as [E|E].
  - destruct IH as (u & y & Hu & Hy); [|by exists (S u), y]. unfold weigh in *. cbn in H. lia.
  - by exists 0%nat, x.
Qed.

Lemma weigh_zip ws thr t a b a' b' : ws !! t = Some a → thr !! t = Some b →
  (weigh pw (zip (<[t := a']> ws) (<[t := b']> thr)) + pw (a, b) = weigh pw (zip ws thr) + pw (a', b'))%nat.
Proof.
  intros Ha Hb. rewrite <- insert_zip_with. apply weigh_insert. rewrite lookup_zip_with, Ha. cbn. by rewrite Hb.
Qed.

Lemma phase_ok_owned ow ow' t a b : (∀ c, (t, c) ∈ ow ↔ (t, c) ∈ ow') → phase_ok ow t a b → phase_ok ow' t a b.
Proof. intros H. destruct a; cbn; intros [H1 H2]; (split; [done|]); [intros c; rewrite <- H; apply H2..|by apply H|by apply H|]. intros c. rewrite <- H. apply H2. Qed.

(** Thread [t] moves to the phase [a] and the place [b]. *)
Lemma phases_update ow ow' ws thr t a b : phases_ok ow ws thr → phase_ok ow' t a b →
  (∀ u c, u ≠ t → (u, c) ∈ ow ↔ (u, c) ∈ ow') → phases_ok ow' (<[t := a]> ws) (<[t := b]> thr).
Proof.
  intros H Hok How u a' b' Ha Hb. destruct (decide (u = t)) as [->|Hne].
  - apply list_lookup_insert_Some in Ha as [(_ & -> & _)|[]]; [|done].
    apply list_lookup_insert_Some in Hb as [(_ & -> & _)|[]]; done.
  - rewrite list_lookup_insert_ne in Ha by done. rewrite list_lookup_insert_ne in Hb by done. eapply phase_ok_owned; [|by eapply H]. intros c. by apply How.
Qed.

Lemma waiting_in_insert (thr : list pc) t b : b ≠ Waiting → Waiting ∈ <[t := b]> thr → Waiting ∈ thr.
Proof.
  intros Hb Hin. apply list_elem_of_lookup in Hin as (u & Hu).
  apply list_lookup_insert_Some in Hu as [(_ & ? & _)|[_ Hu]]; [congruence|]. by eapply list_elem_of_lookup_2.
Qed.

Lemma owned_by_Some t c ow : NoDup ow.*1 → (t, c) ∈ ow → owned_by t ow = Some c.
Proof.
  unfold owned_by. induction ow as [|[u d] ow IH]; intros Hn Hin; [by apply elem_of_nil in Hin|]. apply list.NoDup_cons in Hn as [Hni Hn].
  cbn [list_find]. destruct (decide ((u, d).1 = t)) as [Heq|Hne]; cbn in *.
  - subst u. apply elem_of_cons in Hin as [[= <-]|Hin]; [done|]. destruct Hni. by apply (list_elem_of_fmap_2 fst _ (t, c)).
  - apply elem_of_cons in Hin as [[= <- <-]|Hin]; [done|]. specialize (IH Hn Hin). by destruct (list_find _ ow) as [[]|].
Qed.

Lemma owned_by_None t ow : (∀ c, (t, c) ∉ ow) → owned_by t ow = None.
Proof.
  unfold owned_by. intros H. destruct (list_find _ ow) as [[i [u c]]|] eqn:E; [|done].
  apply list_find_Some in E as (Hi & Hu & _). cbn in Hu. subst u. destruct (H c). by eapply list_elem_of_lookup_2.
Qed.

Section specs.
Context {os : OS} (fuel : nat) (P max : Z).
Context (ok : Z → bool) (Hall : ∀ a, ok a = true).
Context (Hfresh : malloc_fresh) (Hpoll : ∀ fd t, settles fuel (Poll [(fd, POLLOUT)] t)).
Abbreviation exec1' := (exec1 fuel ok P).

Lemma exec1_inv a m m' : inv P max m → exec1' a m = Some m' → inv P max m'.
Proof using Hall Hfresh Hpoll. intros Hi E. eapply pool_step_inv; [exact Hfresh|exact Hpoll|exact Hi|]. by eapply exec1_sound. Qed.

(** A worker moves without touching the pool or the connections. *)
Lemma winv_move w mu mu' thr ow ws t a b a' b' :
  winv P max (mk_machine w mu thr ow [] 0, ws) → ws !! t = Some a → thr !! t = Some b →
  phase_ok ow t a' b' → b' ≠ Waiting → (pw (a', b') < pw (a, b))%nat →
  inv P max (mk_machine w mu' (<[t := b']> thr) ow [] 0) →
  winv P max (mk_machine w mu' (<[t := b']> thr) ow [] 0, <[t := a']> ws) ∧
  (total (mk_machine w mu' (<[t := b']> thr) ow [] 0, <[t := a']> ws) < total (mk_machine w mu thr ow [] 0, ws))%nat.
Proof using Type.
  intros [Hi _ _ Hl Hn Ho Hp Hf] Ha Hb Hok Hnw Hlt Hi'. cbn [fst snd m_world m_threads m_owned] in *. split.
  - split; cbn; [done|done|done|by rewrite !length_insert|done| | |].
    + intros u c Hin. rewrite length_insert. eauto.
    + eapply phases_update; [exact Hp|done|done].
    + intros Hin%waiting_in_insert; auto.
  - unfold total. cbn. pose proof (weigh_zip ws thr t a b a' b' Ha Hb). lia.
Qed.

Lemma wexec_call t k m ws s' : winv P max (m, ws) → wexec fuel ok P (ACall t k) (m, ws) = Some s' →
  winv P max s' ∧ (total s' < total (m, ws))%nat.
Proof using Hall Hfresh Hpoll.
  intros Hw. cbn [wexec]. destruct (ws !! t) as [a|] eqn:Ha; [|done]. destruct m as [w mu thr ow lo ph].
  pose proof (wi_lost _ _ _ Hw) as Hlo. pose proof (wi_phantom _ _ _ Hw) as Hph. cbn in Hlo, Hph. subst lo ph.
  destruct a as [| |c| |], k as [| |c']; try done.
  - destruct (exec1' _ _) as [m'|] eqn:E; [|done]. intros [= <-]. pose proof (exec1_inv _ _ _ (wi_inv _ _ _ Hw) E) as Hi'.
    cbn in E. case_bool_decide as Hb; [|done]. injection E as <-.
    pose proof (wi_phase _ _ _ Hw _ _ _ Ha Hb) as [_ Hno]. eapply winv_move; [done..| |done|cbn; lia|done]. cbn. auto.
  - destruct (Z.eqb_spec c c') as [<-|]; [|done]. destruct (exec1' _ _) as [m'|] eqn:E; [|done]. intros [= <-].
    pose proof (exec1_inv _ _ _ (wi_inv _ _ _ Hw) E) as Hi'. cbn in E. case_bool_decide as Hb; [|done].
    case_bool_decide; [|done]. injection E as <-.
    pose proof (wi_phase _ _ _ Hw _ _ _ Ha Hb) as [_ Hin]. eapply winv_move; [done..| |done|cbn; lia|done]. cbn. auto.
Qed.

Lemma wexec_lock t m ws s' : winv P max (m, ws) → wexec fuel ok P (ALock t) (m, ws) = Some s' →
  winv P max s' ∧ (total s' < total (m, ws))%nat.
Proof using Hall Hfresh Hpoll.
  intros Hw. cbn [wexec]. destruct m as [w mu thr ow lo ph].
  pose proof (wi_lost _ _ _ Hw) as Hlo. pose proof (wi_phantom _ _ _ Hw) as Hph. cbn in Hlo, Hph. subst lo ph.
  destruct (exec1' _ _) as [m'|] eqn:E; [|done]. intros [= <-]. pose proof (exec1_inv _ _ _ (wi_inv _ _ _ Hw) E) as Hi'.
  cbn in E. destruct mu; [done|]. destruct (thr !! t) as [b|] eqn:Hb; [|done].
  destruct (lookup_lt_is_Some_2 ws t) as [a Ha].
  { pose proof (wi_len _ _ _ Hw) as Hl. cbn in Hl. rewrite Hl. by eapply lookup_lt_Some. }
  pose proof (wi_phase _ _ _ Hw _ _ _ Ha Hb) as Hp. cbn [fst m_owned] in Hp.
  assert (Hm : ∀ k', inv P max (mk_machine w (Some t) (<[t := Holding k']> thr) ow [] 0) → phase_ok ow t a (Holding k') →
    (pw (a, Holding k') < pw (a, b))%nat → winv P max (mk_machine w (Some t) (<[t := Holding k']> thr) ow [] 0, ws) ∧
    (total (mk_machine w (Some t) (<[t := Holding k']> thr) ow [] 0, ws) < total (mk_machine w None thr ow [] 0, ws))%nat).
  { intros k' ???. pose proof (winv_move w None (Some t) thr ow ws t a b a (Holding k')) as Hmv. rewrite (list_insert_id ws t a Ha) in Hmv.
    by apply Hmv. }
  destruct b as [|k|k| |]; try done; injection E as <-; (apply Hm; [done| |]); clear Hm Hi'; destruct a; cbn in Hp |- *; naive_solver lia.
Qed.

(** The pool stays full. *)
Lemma full_same pl q w w' q' : pool_rep (w_glob w) P pl q → pool_rep (w_glob w') P pl q' → full P w → full P w'.
Proof using Type. clear. intros [H1 _ _ _] [H2 _ _ _] (pl' & H & Hle). rewrite H1 in H. injection H as <-. by exists pl. Qed.

Lemma wexec_pop t u w mu thr ow ws s' : winv P max (mk_machine w mu thr ow [] 0, ws) → thr !! t = Some (Holding RPop) →
  wexec fuel ok P (ARun t u) (mk_machine w mu thr ow [] 0, ws) = Some s' →
  winv P max s' ∧ (total s' < total (mk_machine w mu thr ow [] 0, ws))%nat.
Proof using Hall Hfresh Hpoll.
  intros Hw Hb. cbn [wexec]. destruct (ws !! t) as [a|] eqn:Ha; [|done]. cbn [mbind option_bind].
  destruct (exec1' _ _) as [m'|] eqn:E; [|done]. intros [= <-]. pose proof (exec1_inv _ _ _ (wi_inv _ _ _ Hw) E) as Hi'.
  pose proof Hw as [(pl & q & Hci & _) _ _ Hl Hn Ho Hp Hf]. cbn [fst snd m_world m_threads m_owned] in *.
  pose proof (Hp _ _ _ Ha Hb) as Hok. assert (a = WPop ∧ ∀ c, (t, c) ∉ ow) as [-> Hno].
  { destruct a; cbn in Hok; naive_solver. }
  pose proof (ci_rep _ _ _ _ _ Hci) as Hrep. cbn in Hrep. pose proof (lookup_lt_Some _ _ _ Hb) as Hlt.
  cbn in E. rewrite Hb in E. destruct (pop_round fuel P w) as [[c|[]] w'| | |] eqn:Epop; [| |done|done|done];
    injection E as <-; pose proof (wp_at _ _ _ _ _ (pop_round_wp fuel Hfresh Hpoll w P pl q Hrep) Epop) as [_ H].
  - assert (Hfull : full P w → full P w').
    { intros Hfu. destruct q as [|c0 q]; [|destruct H as (_ & Hr' & _); eapply full_same; [exact Hrep|exact Hr'|exact Hfu]]. destruct H as [Hlt' _].
      destruct Hfu as (pl' & Hpl & Hge). rewrite (pr_pool _ _ _ _ Hrep) in Hpl. injection Hpl as <-. lia. }
    cbn [phase_after m_threads m_owned]. rewrite list_lookup_insert_eq by done. rewrite bool_decide_true by done.
    assert (Hwf : Waiting ∈ <[t := Idle]> thr → full P w') by (intros Hin%waiting_in_insert; auto).
    unfold give. destruct (Z.eqb_spec c NULL) as [->|Hne].
    + rewrite owned_by_None by done. split.
      * split; cbn; [done|done|done|by rewrite !length_insert|done|by intros; rewrite length_insert; eauto| |done].
        eapply phases_update; [exact Hp|done|done].
      * unfold total. cbn. pose proof (weigh_zip ws thr t WPop _ WDone Idle Ha Hb) as Hwz. cbn in Hwz. lia.
    + assert (Hn' : NoDup ((t, c) :: ow).*1).
      { cbn. apply list.NoDup_cons. split; [|done]. intros ([u' c'] & -> & Hin)%list_elem_of_fmap. by destruct (Hno c'). }
      rewrite (owned_by_Some t c) by (done || left). unfold give in Hi'. rewrite (proj2 (Z.eqb_neq _ _) Hne) in Hi'. split.
      * split; cbn; [done|done|done|by rewrite !length_insert|done| | |done].
        -- intros u' c' [[= -> ->]|Hin]%elem_of_cons; rewrite length_insert; [by rewrite Hl|eauto].
        -- eapply phases_update; [exact Hp| |].
           ++ cbn. split; [done|left].
           ++ intros u' c' Hne'. rewrite elem_of_cons. naive_solver.
      * unfold total. cbn. pose proof (weigh_zip ws thr t WPop _ (WHas c) Idle Ha Hb) as Hwz. cbn in Hwz. lia.
  - destruct q as [|c0 q]; [|done]. destruct H as (Hge & Hr' & _). cbn [phase_after m_threads].
    rewrite list_lookup_insert_eq by done. rewrite bool_decide_false by done. split.
    + split; cbn; [done|done|done|by rewrite !length_insert|done|by intros; rewrite length_insert; eauto| |].
      * eapply phases_update; [exact Hp|cbn; auto|done].
      * intros _. exists pl. split; [apply Hr'|done].
    + unfold total. cbn. pose proof (weigh_zip ws thr t WPop _ WPop Waiting Ha Hb) as Hwz. cbn in Hwz. lia.
Qed.

(** Taking the entry [i] of the owners away. *)
Lemma owner_removed (ow : list (nat * Z)) i t c : ow !! i = Some (t, c) → NoDup ow.*1 →
  NoDup (take i ow ++ drop (S i) ow).*1 ∧ (∀ d, (t, d) ∉ take i ow ++ drop (S i) ow) ∧
  ∀ u d, u ≠ t → (u, d) ∈ ow ↔ (u, d) ∈ take i ow ++ drop (S i) ow.
Proof using Type.
  clear. intros Hi. assert (Hperm : ow ≡ₚ (t, c) :: (take i ow ++ drop (S i) ow)).
  { rewrite <- (take_drop_middle ow i (t, c) Hi) at 1. solve_Permutation. }
  set (rest := take i ow ++ drop (S i) ow) in *. rewrite Hperm at 1. cbn. intros [Hni Hn]%list.NoDup_cons. split; [done|]. split.
  - intros d Hin. apply Hni. by apply (list_elem_of_fmap_2 fst _ (t, d)).
  - intros u d Hne. rewrite Hperm, elem_of_cons. naive_solver.
Qed.

Lemma wexec_push t c u w mu thr ow ws s' : winv P max (mk_machine w mu thr ow [] 0, ws) → thr !! t = Some (Holding (RPush c)) →
  wexec fuel ok P (ARun t u) (mk_machine w mu thr ow [] 0, ws) = Some s' →
  winv P max s' ∧ (total s' < total (mk_machine w mu thr ow [] 0, ws))%nat.
Proof using Hall Hfresh Hpoll.
  intros Hw Hb. cbn [wexec]. destruct (ws !! t) as [a|] eqn:Ha; [|done]. cbn [mbind option_bind].
  destruct (exec1' _ _) as [m'|] eqn:E; [|done]. intros [= <-]. pose proof (exec1_inv _ _ _ (wi_inv _ _ _ Hw) E) as Hi'.
  pose proof Hw as [(pl & q & Hci & _) _ _ Hl Hn Ho Hp Hf]. cbn [fst snd m_world m_threads m_owned] in *.
  pose proof (Hp _ _ _ Ha Hb) as Hok. assert (a = WPush c ∧ (t, c) ∈ ow) as [-> Hin].
  { destruct a; cbn in Hok; naive_solver. }
  pose proof (ci_rep _ _ _ _ _ Hci) as Hrep. cbn in Hrep. pose proof (lookup_lt_Some _ _ _ Hb) as Hlt.
  destruct (ci_dom _ _ _ _ _ Hci c) as [Hnc _].
  { unfold all_conns. cbn. apply elem_of_app. right. apply elem_of_app. left. by apply (list_elem_of_fmap_2 snd _ (t, c)). }
  cbn in E. rewrite Hb in E. destruct (push_section ok P c w) as [[] w'| | |] eqn:Epush; [|done|done|done].
  pose proof (wp_at _ _ _ _ _ (push_section_wp ok w P pl q c Hrep Hnc) Epush) as (Hr' & _).
  destruct (list_find _ ow) as [[i y]|] eqn:Ef; [|done]. apply list_find_Some in Ef as (Hyi & -> & _).
  destruct (owner_removed _ _ _ _ Hyi Hn) as (Hn' & Hno & Hoth). set (ow' := take i ow ++ drop (S i) ow) in *.
  assert (Hfull : Waiting ∈ thr → full P w') by (intros Hin'; eapply full_same; [exact Hrep|exact Hr'|auto]).
  assert (Hp1 : phases_ok ow' (<[t := WDone]> ws) (<[t := Idle]> thr)) by (eapply phases_update; [exact Hp|done|done]).
  assert (Hown : ∀ u' c', (u', c') ∈ ow' → (u' < length ws)%nat).
  { intros u' c' Hin'. destruct (decide (u' = t)) as [->|Hne]; [by destruct (Hno c')|]. eapply Ho. by apply Hoth. }
  pose proof (weigh_zip ws thr t (WPush c) _ WDone Idle Ha Hb) as Hwz. cbn in Hwz. cbn [phase_after].
  destruct u as [u|]; case_bool_decide as Hu; try done; injection E as <-; unfold dropped in *; rewrite Hall in *; cbn [app] in *.
  - destruct (lookup_lt_is_Some_2 (<[t := WDone]> ws) u) as [au Hau].
    { rewrite length_insert, Hl. apply lookup_lt_Some in Hu. by rewrite length_insert in Hu. }
    assert (au = WPop ∧ (∀ d, (u, d) ∉ ow')) as [-> Hnou] by (pose proof (Hp1 _ _ _ Hau Hu) as Hx; destruct au; cbn in Hx; naive_solver).
    split.
    + split; cbn; [done|done|done|by rewrite !length_insert|done|intros; rewrite length_insert; eauto| |].
      * rewrite <- (list_insert_id _ _ _ Hau). eapply phases_update; [exact Hp1|cbn; auto|done].
      * intros Hin'. apply Hfull. apply waiting_in_insert in Hin'; [|done]. by apply waiting_in_insert in Hin'.
    + unfold total. cbn. pose proof (weigh_zip _ _ u WPop _ WPop Signalled Hau Hu) as Hw2. cbn in Hw2.
      rewrite (list_insert_id _ _ _ Hau) in Hw2. lia.
  - split.
    + split; cbn; [done|done|done|by rewrite !length_insert|done|intros; rewrite length_insert; eauto|done|done].
    + unfold total. cbn. lia.
Qed.

(** Every action keeps the invariant and uses up a step. *)
Lemma wexec_inv a s s' : winv P max s → wexec fuel ok P a s = Some s' → winv P max s' ∧ (total s' < total s)%nat.
Proof using Hall Hfresh Hpoll.
  destruct s as [m ws]. intros Hw E. destruct a as [t k|t|t u]; [by eapply wexec_call|by eapply wexec_lock|].
  destruct m as [w mu thr ow lo ph].
  pose proof (wi_lost _ _ _ Hw) as Hlo. pose proof (wi_phantom _ _ _ Hw) as Hph. cbn in Hlo, Hph. subst lo ph.
  destruct (thr !! t) as [b|] eqn:Hb.
  2: { cbn in E. rewrite Hb in E. by destruct (ws !! t). }
  assert (Hrun : ∃ k, b = Holding k) by (cbn in E; rewrite Hb in E; destruct (ws !! t), b; try done; eauto).
  destruct Hrun as [[| |c] ->]; [by eapply wexec_pop| |by eapply wexec_push].
  destruct (ws !! t) as [a|] eqn:Ha; [|by cbn in E; rewrite Ha in E].
  pose proof (wi_phase _ _ _ Hw _ _ _ Ha Hb) as Hp. destruct a; cbn in Hp; naive_solver.
Qed.

Lemma wrun_inv acts s s' : winv P max s → wrun fuel ok P acts s = Some s' →
  winv P max s' ∧ (length acts + total s' ≤ total s)%nat.
Proof using Hall Hfresh Hpoll.
  revert s. induction acts as [|a acts IH]; intros s Hw; cbn [wrun]; [intros [= ->]; split; [done|cbn; lia]|].
  destruct (wexec fuel ok P a s) as [s1|] eqn:E; [|done]. destruct (wexec_inv _ _ _ Hw E) as [Hw1 Hlt]. intros Hr.
  destruct (IH _ Hw1 Hr) as [Hw' Hle]. split; [done|cbn; lia].
Qed.

(** A worker that is outside the critical section and not asleep can act when the mutex is
    free. *)
Lemma worker_acts w thr ow ws t a b : winv P max (mk_machine w None thr ow [] 0, ws) → ws !! t = Some a → thr !! t = Some b →
  a ≠ WDone → b ≠ Waiting → ∃ act s', wexec fuel ok P act (mk_machine w None thr ow [] 0, ws) = Some s'.
Proof using Type.
  intros Hw Ha Hb Hd Hnw. pose proof (wi_phase _ _ _ Hw _ _ _ Ha Hb) as Hp. cbn [fst m_owned m_threads] in Hp.
  pose proof (wi_inv _ _ _ Hw) as (pl & q & _ & Hti).
  assert (Hnh : ∀ k, b ≠ Holding k) by (intros k ->; by pose proof (ti_holder _ _ Hti _ _ Hb)).
  destruct a as [| |c|c|]; cbn in Hp; [| | | |done].
  - destruct Hp as [-> _]. exists (ACall t RPop). cbn. rewrite Ha. cbn. rewrite bool_decide_true by done. by eexists.
  - exists (ALock t). cbn. rewrite Hb. destruct Hp as [[-> | [-> | [-> | -> ]]] _]; try done; [|by destruct (Hnh RPop)|]; by eexists.
  - destruct Hp as [-> Hin]. exists (ACall t (RPush c)). cbn. rewrite Ha, Z.eqb_refl. cbn. rewrite !bool_decide_true by done. by eexists.
  - exists (ALock t). cbn. rewrite Hb. destruct Hp as [[->| ->] _]; [by eexists|by destruct (Hnh (RPush c))].
Qed.

(** The thread that holds the mutex finishes its round. *)
Lemma holder_acts w thr ow ws t mu k : winv P max (mk_machine w mu thr ow [] 0, ws) → thr !! t = Some (Holding k) →
  ∃ act s', wexec fuel ok P act (mk_machine w mu thr ow [] 0, ws) = Some s'.
Proof using Hall Hfresh Hpoll.
  intros Hw Hb. pose proof Hw as [(pl & q & Hci & _) _ _ Hl _ _ Hp _]. cbn [fst snd m_owned m_threads] in *.
  destruct (lookup_lt_is_Some_2 ws t) as [a Ha]; [rewrite Hl; by eapply lookup_lt_Some|].
  pose proof (Hp _ _ _ Ha Hb) as Hok. pose proof (ci_rep _ _ _ _ _ Hci) as Hrep. cbn in Hrep.
  destruct k as [| |c]; [| destruct a; cbn in Hok; naive_solver|].
  - exists (ARun t None). cbn. rewrite Ha, Hb. pose proof (pop_round_wp fuel Hfresh Hpoll w P pl q Hrep) as Hpop.
    apply wp_Ok in Hpop as ([c|[]] & w' & E & _); cbn; rewrite E; by eexists.
  - assert (Hin : (t, c) ∈ ow) by (destruct a; cbn in Hok; naive_solver).
    destruct (ci_dom _ _ _ _ _ Hci c) as [Hnc _].
    { unfold all_conns. cbn. apply elem_of_app. right. apply elem_of_app. left. by apply (list_elem_of_fmap_2 snd _ (t, c)). }
    pose proof (push_section_wp ok w P pl q c Hrep Hnc) as Hpush. apply wp_Ok in Hpush as ([] & w' & E & _).
    assert (Hfind : is_Some (list_find (λ x, x = (t, c)) ow)) by (eapply list_find_elem_of; [exact Hin|done]).
    destruct Hfind as [[i y] Hfind]. destruct (decide (Waiting ∈ <[t := Idle]> thr)) as [Hwt|Hwt].
    + apply list_elem_of_lookup in Hwt as (u & Hu). exists (ARun t (Some u)). cbn. rewrite Ha, Hb, E, Hfind. cbn.
      rewrite bool_decide_true by done. by eexists.
    + exists (ARun t None). cbn. rewrite Ha, Hb, E, Hfind. cbn. rewrite bool_decide_false by done. by eexists.
Qed.

(** While a worker is not done, some worker can act: the pool never leaves all of them
    asleep. *)
Lemma workers_progress s t a : 1 ≤ max → winv P max s → s.2 !! t = Some a → a ≠ WDone →
  ∃ act s', wexec fuel ok P act s = Some s'.
Proof using Hall Hfresh Hpoll.
  intros Hmax Hw Ha Hd. destruct s as [[w mu thr ow lo ph] ws].
  pose proof (wi_lost _ _ _ Hw) as Hlo. pose proof (wi_phantom _ _ _ Hw) as Hph. cbn in Hlo, Hph, Ha. subst lo ph.
  pose proof (wi_inv _ _ _ Hw) as (pl & q & Hci & Hti). destruct mu as [h|].
  { destruct (ti_mutex _ _ Hti h eq_refl) as [k Hk]. by eapply holder_acts. }
  pose proof (wi_len _ _ _ Hw) as Hl. cbn in Hl.
  assert (Hthr : ∀ u, (u < length ws)%nat → ∃ b, thr !! u = Some b).
  { intros u Hu. apply lookup_lt_is_Some_2. cbn in *. lia. }
  destruct (Hthr t) as [b Hb]; [by eapply lookup_lt_Some|].
  destruct (decide (b = Waiting)) as [->|Hnw]; [|by eapply worker_acts].
  assert (Hwait : Waiting ∈ thr) by (by eapply list_elem_of_lookup_2).
  destruct (wi_full _ _ _ Hw Hwait) as (pl' & Hpl & Hge). pose proof (pr_pool _ _ _ _ (ci_rep _ _ _ _ _ Hci)) as Hpl'. cbn in Hpl, Hpl'. rewrite Hpl' in Hpl.
  injection Hpl as <-. pose proof (ci_size _ _ _ _ _ Hci) as Hsz. pose proof (ci_max _ _ _ _ _ Hci) as Hmx.
  pose proof (ti_wake _ _ Hti Hwait) as Hwk. cbn in Hwk, Hsz. unfold all_conns in Hsz. cbn in Hsz. rewrite app_nil_r, length_app, length_fmap in Hsz.
  assert (Hex : (∃ u, thr !! u = Some Signalled) ∨ (0 < length ow)%nat).
  { destruct (decide (wakers thr = 0%nat)) as [E0|E0]; [right; rewrite E0 in Hwk; lia|left].
    apply weigh_pos_ex in E0 as (u & x & Hu & Hx). exists u. destruct x as [|k|[| |k]| |]; try done.
    by pose proof (ti_holder _ _ Hti _ _ Hu). }
  destruct Hex as [[u Hu]|How].
  - destruct (lookup_lt_is_Some_2 ws u) as [au Hau]; [cbn in *; rewrite Hl; by eapply lookup_lt_Some|].
    eapply (worker_acts _ _ _ _ u au Signalled); [done..| |done].
    intros ->. pose proof (wi_phase _ _ _ Hw _ _ _ Hau Hu) as Hx. cbn in Hx. naive_solver.
  - destruct ow as [|[u c] ow]; [cbn in How; lia|]. pose proof (wi_owner _ _ _ Hw u c ltac:(left)) as Hu. cbn in Hu.
    destruct (lookup_lt_is_Some_2 ws u Hu) as [au Hau]. destruct (Hthr u Hu) as [bu Hbu].
    pose proof (wi_phase _ _ _ Hw _ _ _ Hau Hbu) as Hx. cbn [fst m_owned] in Hx.
    assert (Hin : (u, c) ∈ (u, c) :: ow) by left.
    eapply (worker_acts _ _ _ _ u au bu); [done..| |].
    + intros ->. cbn in Hx. destruct Hx as [_ Hx]. by apply (Hx c).
    + intros ->. destruct au; cbn in Hx; naive_solver.
Qed.

End specs.

Lemma wrun_length {os : OS} fuel ok P acts s s' : wrun fuel ok P acts s = Some s' → length s'.2 = length s.2.
Proof.
  revert s. induction acts as [|a acts IH]; intros s; cbn [wrun]; [by intros [= ->]|].
  destruct (wexec fuel ok P a s) as [s1|] eqn:E; [|done]. intros Hr. rewrite (IH _ Hr). destruct s as [m ws]. cbn [wexec snd] in E |- *. unfold mbind, option_bind in E.
  destruct a as [t k|t|t u].
  - destruct (ws !! t) as [[| | | |]|], k; try done; try destruct (_ =? _); try done;
      destruct (exec1 fuel ok P _ m); try done; injection E as <-; cbn; by rewrite ?length_insert.
  - destruct (exec1 fuel ok P _ m); [|done]. by injection E as <-.
  - destruct (ws !! t); [|done]. destruct (exec1 fuel ok P _ m); [|done]. injection E as <-. cbn. by rewrite length_insert.
Qed.

Lemma workers_start P pl n w : pool_rep (w_glob w) P pl [] → live w → pl_size pl = 0 →
  winv P (pl_max_pool_size pl) (workers w n).
Proof.
  intros Hrep Hl Hs. split; cbn; [|done|done|by rewrite !length_replicate|by apply list.NoDup_nil|by intros t c ?%elem_of_nil| |].
  - by apply (pool_start_inv (λ _, true)).
  - intros t a b Ha Hb. apply lookup_replicate in Ha as [-> _]. apply lookup_replicate in Hb as [-> _].
    split; [done|]. intros c. apply not_elem_of_nil.
  - intros Hin. apply elem_of_replicate in Hin as [? _]. done.
Qed.

Lemma workers_total w n : total (workers w n) = (9 * n)%nat.
Proof. unfold total, workers. cbn. rewrite zip_with_replicate, weigh_replicate. cbn. lia. Qed.

(** When no worker can act they are all done and own nothing. *)
Lemma workers_stuck {os : OS} fuel P max ok s : (∀ a, ok a = true) → malloc_fresh → (∀ fd t, settles fuel (Poll [(fd, POLLOUT)] t)) → 1 ≤ max →
  winv P max s → (∀ a, wexec fuel ok P a s = None) → s.2 = replicate (length s.2) WDone ∧ m_owned s.1 = [].
Proof.
  intros Hall Hf Hp Hmax Hw Hstuck. assert (Hdone : ∀ t a, s.2 !! t = Some a → a = WDone).
  { intros t a Ha. destruct a; try done; exfalso.
    all: edestruct (workers_progress fuel P max ok Hall Hf Hp s t) as (act & s' & E); [done|done|exact Ha|done|].
    all: by rewrite Hstuck in E. }
  split.
  - apply list_eq. intros t. destruct (s.2 !! t) as [a|] eqn:Ha.
    + rewrite (Hdone _ _ Ha). symmetry. apply lookup_replicate. split; [done|]. by eapply lookup_lt_Some.
    + symmetry. apply lookup_replicate_None. by apply lookup_ge_None.
  - destruct (m_owned s.1) as [|[t c] ow] eqn:E; [done|].
    pose proof (wi_owner _ _ _ Hw t c) as Ho. rewrite E in Ho. specialize (Ho ltac:(left)).
    destruct (lookup_lt_is_Some_2 _ _ Ho) as [a Ha]. rewrite (Hdone _ _ Ha) in Ha.
    destruct (lookup_lt_is_Some_2 (m_threads s.1) t) as [b Hb]; [rewrite <- (wi_len _ _ _ Hw); done|].
    destruct (wi_phase _ _ _ Hw _ _ _ Ha Hb) as [_ Hno]. destruct (Hno c). rewrite E. left.
Qed.

End Workers.

(** ** Theorems *)

(** The order in which [test_queue] leaves its ten numbers: the odd ones pushed at the head,
    the even ones at the tail. *)
Definition queue_order : list Z := [9; 7; 5; 3; 1; 0; 2; 4; 6; 8].

Lemma test_queue_run hd tl : test_queue (λ _, true) 11 8 (mk_qheap ∅ {[8 := mk_queue hd tl]} 1) =
  Ok ((10, queue_order) :: ((λ k, (Z.of_nat (10 - k), drop k queue_order)) <$> seq 0 10), queue_order)
     (mk_qheap ∅ {[8 := mk_queue NULL NULL]} 11).
Proof. vm_compute. reflexivity. Qed.

(** With memory for the items, [test_queue] prints the queue in the order the pushes left
    it, with its length, and after each pop the rest; it pops the numbers in that order and
    ends with an empty queue and no item allocated, whatever the uninitialised queue held. *)
Theorem test_queue_output hd tl : let q0 := mk_qheap ∅ {[8 := mk_queue hd tl]} 1 in ∃ st,
  test_queue (λ _, true) 11 8 q0 =
    Ok ((10, queue_order) :: ((λ k, (Z.of_nat (10 - k), drop k queue_order)) <$> seq 0 10), queue_order) st ∧
  items st = ∅ ∧ queues st = {[8 := mk_queue NULL NULL]}.
Proof. eexists. split; [apply test_queue_run|]. done. Qed.

Lemma test_conn_wp {os : OS} {X} fuel tr (g : cm_mem X) : (∀ fd, settles fuel (Poll [(fd, POLLOUT)] TIMEOUT)) →
  wp (test_conn fuel) (λ _ w, res_eq tr (w_trace w) ∧ rest (w_glob w) = rest g ∧ (conns g = ∅ → conns (w_glob w) = ∅)) (mk_world tr g).
Proof.
  intros Hs. unfold test_conn. apply wp_bind. eapply wp_mono; [by apply conn_new_wp|].
  intros p [tr1 g1] [Hr H]. cbn [w_trace w_glob] in *. destruct (p =? NULL) eqn:Ep.
  - destruct H as (H & Hc & _). assert (p = NULL) as -> by lia. apply wp_bind, wp_sys_. intros r _.
    unfold conn_mgr_conn_get_fd, conn_mgr_conn_destroy, set_conn_errno. change (NULL =? NULL) with true. wp_run. cbn [w_trace w_glob rest conns]. split; [res_solve|]. split; [done|congruence].
  - destruct H as (fd & Hfd & Hd & Hc & _). apply wp_bind, wp_sys_. intros r _. apply wp_bind.
    unfold conn_mgr_conn_get_fd at 1, load_conn, set_conn_errno. rewrite Ep. apply wp_bind, wp_bind, wp_get_glob. rewrite Hc, lookup_insert_eq. wp_run.
    eapply wp_mono; [apply (conn_destroy_wp _ (mk_conn fd)); [by apply Z.eqb_neq|by cbn; rewrite Hc, lookup_insert_eq]|].
    intros [] [tr2 g2] (Hr2 & Hc2 & Hd2). cbn [w_trace w_glob rest conns conn_fd] in *. split; [|split; [congruence|]].
    2: { intros He. rewrite Hc2, Hc, He. apply delete_insert_id. apply lookup_empty. }
    destruct Hd as [A1 B1], Hd2 as [A2 B2]. split; intros z; [specialize (A1 z); specialize (A2 z)|specialize (B1 z); specialize (B2 z)];
      cbn [fd_balance fd_delta mem_balance mem_delta count foldr] in *; lia.
Qed.

(** [test_conn] gives back what it acquires, whether the connection succeeds or not: the
    functions accept the NULL connection it passes on. *)
Theorem test_conn_gives_back {os : OS} {X} fuel tr (g : cm_mem X) : (∀ fd, settles fuel (Poll [(fd, POLLOUT)] TIMEOUT)) →
  wp (test_conn fuel) (λ _ w, res_eq tr (w_trace w) ∧ rest (w_glob w) = rest g) (mk_world tr g).
Proof. intros Hs. eapply wp_mono; [by apply test_conn_wp|]. by intros [] w (H & H' & _). Qed.

(** The workers of [test_pool] all finish.  When memory for the items of the queue is not exhausted, any number of threads pop a connection from a
    pool that may open at least one, sleep and push it back: whatever the scheduler does,
    they take at most nine steps each, and they can stop only when every worker has ended
    and no connection is out.  In particular no wake-up is lost and nobody waits for ever. *)
Theorem pool_workers_finish {os : OS} fuel ok ip port max timeout P w n acts s :
  (∀ a, ok a = true) → malloc_fresh → (∀ fd t, settles fuel (Poll [(fd, POLLOUT)] t)) → pool_made ip port max timeout P w → 1 ≤ max →
  Workers.wrun fuel ok P acts (Workers.workers w n) = Some s →
  (length acts ≤ 9 * n)%nat ∧
  ((∀ a, Workers.wexec fuel ok P a s = None) →
     s.2 = replicate n Workers.WDone ∧ Threads.m_owned s.1 = []).
Proof.
  intros Hall Hf Hp Hm Hmax Hrun. destruct (pool_new_rep _ _ _ _ _ _ Hm) as [Hrep Hl].
  pose proof (Workers.workers_start _ _ n _ Hrep Hl eq_refl) as Hw0. cbn in Hw0.
  destruct (Workers.wrun_inv fuel P max ok Hall Hf Hp _ _ _ Hw0 Hrun) as [Hw Hle]. split.
  - rewrite Workers.workers_total in Hle. lia.
  - intros Hstuck. pose proof (Workers.workers_stuck fuel P max ok s Hall Hf Hp Hmax Hw Hstuck) as [Hd Ho]. split; [|done].
    rewrite Hd at 1. f_equal. rewrite (Workers.wrun_length _ _ _ _ _ _ Hrun). apply length_replicate.
Qed.

(** ** Witnesses *)

(** The kernel of ConnPool.v's examples; two workers share a pool of one connection. *)
#[local] Existing Instance bump_os.

Definition made_w : world (cm_mem pmem) := Eval vm_compute in
  match conn_mgr_pool_new (Some HOST) PORT 1 TIMEOUT (mk_world [] cm_start) with Ok _ w => w | _ => mk_world [] cm_start end.

Lemma two_made : pool_made HOST PORT 1 TIMEOUT 1 made_w.
Proof. split; [vm_compute; reflexivity|]. split; [done|]. split; [cbn; lia|lia]. Qed.

(** Both call pop, the first gets the connection and the second waits; the first pushes it
    back and wakes the second. *)
Definition two_workers : list Threads.action :=
  let open t k := [Threads.ACall t k; Threads.ALock t] in
  open 0%nat Threads.RPop ++ [Threads.ARun 0 None] ++ open 1%nat Threads.RPop ++ [Threads.ARun 1 None].

Definition two_final : Workers.config := Eval vm_compute in
  match Workers.wrun 1 (λ _, true) 1 two_workers (Workers.workers made_w 2) with Some s => s | None => Workers.workers made_w 2 end.

Lemma pool_workers_finish_witness : (length two_workers ≤ 9 * 2)%nat ∧
  ((∀ a, Workers.wexec 1 (λ _, true) 1 a two_final = None) →
     two_final.2 = replicate 2 Workers.WDone ∧ Threads.m_owned two_final.1 = []).
Proof.
  apply (pool_workers_finish 1 (λ _, true) HOST PORT 1 TIMEOUT 1 made_w 2 two_workers two_final);
    [done|apply bump_malloc_fresh|apply bump_settles|apply two_made|lia|vm_compute; reflexivity].
Defined.

Lemma test_conn_gives_back_witness :
  wp (test_conn 1) (λ _ w, res_eq [] (w_trace w) ∧ rest (w_glob w) = tt) (mk_world [] (mk_cm 0 ∅ tt)).
Proof. apply (test_conn_gives_back 1 [] (mk_cm 0 ∅ tt)). intros fd. apply bump_settles. Defined.
