(* ===== verification/PoolTest.v ===== *)
(** * The test of the connection pool (networking/conn_mgr/test/test.c)

    [test_pool] creates a pool, lets four workers use it under a schedule, uses it once
    more itself and destroys it; [main] runs the three tests of the program.  The proofs
    follow every descriptor and every block through Queue.v, ConnMgr.v and ConnPool.v. *)

From Stdlib Require Import ZArith Lia ZifyBool.
From stdpp Require Import base gmap list strings numbers.
From S2P Require Import Prelude Posix Queue ConnMgr ConnPool ConnTest.

(** [ok] tells which allocations of an item of the queue succeed, as in Queue.v. *)
Section code.
Context {os : OS} (fuel : nat) (ok : Z → bool).
Abbreviation PM := (M (world (cm_mem pmem))).

(** [conn_mgr_pool_pop] in the only thread: one round, after which the thread has its
    result or waits for a signal nobody sends. *)
Definition conn_mgr_pool_pop (pool : Z) : PM Z :=
  if pool =? NULL then mret NULL
  else
    sys_ (Ext "pthread_mutex_lock" [pool]);;
    r ← pop_round fuel pool;
    match r with
    | inl conn => sys_ (Ext "pthread_mutex_unlock" [pool]);; mret conn
    | inr _ => λ _, OutOfFuel
    end.

Definition conn_mgr_pool_push (pool conn : Z) : PM unit :=
  if pool =? NULL then mret tt
  else
    sys_ (Ext "pthread_mutex_lock" [pool]);;
    push_section ok pool conn;;
    sys_ (Ext "pthread_cond_signal" [pool]);;
    sys_ (Ext "pthread_mutex_unlock" [pool]).

(** [pool_worker] called by the main thread. *)
Definition pool_worker (id pool : Z) : PM unit :=
  sys_ (Printf "Thread %d requested conn from pool" [id]);;
  conn ← conn_mgr_pool_pop pool;
  if conn =? NULL then sys_ (Printf "Error in conn_mgr_pool_pop" [])
  else
    sys_ (Printf "Thread %d got conn from pool" [id]);;
    sys_ (Sleep 2);;
    conn_mgr_pool_push pool conn;;
    sys_ (Printf "Thread %d released conn to pool" [id]).

(** The workers from their creation to the last [pthread_join], under the schedule
    [acts]; joining a worker that has not ended blocks. *)
Definition run_workers (acts : list Threads.action) (pool : Z) : PM unit := λ w,
  match Workers.wrun fuel ok pool acts (Workers.workers w NUM_WORKERS) with
  | Some s =>
      if bool_decide (s.2 = replicate NUM_WORKERS Workers.WDone) then Ok tt (Threads.m_world s.1) else OutOfFuel
  | None => OutOfFuel
  end.

(** [test_pool] up to the creation of the workers. *)
Definition test_pool_start : PM Z :=
  pool ← conn_mgr_pool_new (Some HOST) PORT POOL_SIZE TIMEOUT;
  (if pool =? NULL then sys_ (Printf "Error in conn_mgr_pool_new" [])
   else sys_ (Printf "Conn mgr pool initialised" []));;
  mret pool.

Definition test_pool (acts : list Threads.action) : PM unit :=
  pool ← test_pool_start;
  if pool =? NULL then mret tt
  else
    run_workers acts pool;;
    for_range NUM_WORKERS 0 (λ i _, sys_ (Printf "Joined with thread %d" [i])) tt;;
    pool_worker 3 pool;;
    conn_mgr_pool_destroy fuel pool.

(** [test_queue] with its queue, the local variable at address 8 that holds [garbage]. *)
Definition run_test_queue (garbage : conn_mgr_queue) : PM unit :=
  upd_rest (λ r, mk_pmem (pools r) (mk_qheap (items (qh r)) (<[8 := garbage]> (queues (qh r))) (brk (qh r))));;
  q_op (test_queue ok 11 8);;
  upd_rest (λ r, mk_pmem (pools r) (mk_qheap (items (qh r)) (delete 8 (queues (qh r))) (brk (qh r)))).

Definition main (garbage : conn_mgr_queue) (acts : list Threads.action) : PM Z :=
  run_test_queue garbage;;
  test_conn fuel;;
  test_pool acts;;
  mret 0.

End code.

(** ** The books of the pool *)

Definition keys (cs : gmap Z conn_mgr_conn_t) : list Z := elements (dom cs).
Definition fd_of (cs : gmap Z conn_mgr_conn_t) (c : Z) : Z := from_option conn_fd (-1) (cs !! c).
Definition fds (cs : gmap Z conn_mgr_conn_t) : list Z := fd_of cs <$> keys cs.

(** Since [tr0] the program has acquired the pool [P] and its connections, which are all
    the connections there are. *)
Definition pool_books (tr0 : list event) (P : Z) (w : world (cm_mem pmem)) : Prop :=
  ∃ pl, pools (rest (w_glob w)) !! P = Some pl ∧ pl_size pl = Z.of_nat (size (conns (w_glob w))) ∧
    res_delta tr0 (w_trace w) (fds (conns (w_glob w))) (P :: keys (conns (w_glob w))).

Lemma count_perm x l k : l ≡ₚ k → count x l = count x k.
Proof. unfold count. induction 1; cbn [foldr]; lia. Qed.

Lemma res_delta_perm tr tr' f f' p p' : f ≡ₚ f' → p ≡ₚ p' → res_delta tr tr' f p → res_delta tr tr' f' p'.
Proof. intros Hf Hp [H1 H2]. split; intros x; [rewrite H1, (count_perm _ _ _ Hf)|rewrite H2, (count_perm _ _ _ Hp)]; done. Qed.

Lemma keys_insert cs c cn : cs !! c = None → keys (<[c := cn]> cs) ≡ₚ c :: keys cs.
Proof. intros H%not_elem_of_dom. unfold keys. rewrite dom_insert_L. by apply elements_union_singleton. Qed.

Lemma fds_insert cs c fd : cs !! c = None → fds (<[c := mk_conn fd]> cs) ≡ₚ fd :: fds cs.
Proof.
  intros H. unfold fds. rewrite (keys_insert _ _ _ H). cbn. unfold fd_of at 1. rewrite lookup_insert_eq. cbn.
  apply perm_skip. erewrite list_fmap_ext; [done|]. intros i c' Hc'. unfold fd_of. rewrite lookup_insert_ne; [done|].
  intros <-. apply list_elem_of_lookup_2 in Hc'. unfold keys in Hc'. apply elem_of_elements, elem_of_dom in Hc' as [? ?]. congruence.
Qed.

Lemma pool_books_quiet tr0 P w w' : res_eq (w_trace w) (w_trace w') → conns (w_glob w') = conns (w_glob w) →
  pools (rest (w_glob w')) !! P = pools (rest (w_glob w)) !! P → pool_books tr0 P w → pool_books tr0 P w'.
Proof.
  intros He Hc Hp (pl & Hpl & Hs & Hd). exists pl. rewrite Hp, Hc. split; [done|]. split; [done|].
  eapply res_delta_proper; [reflexivity|symmetry; exact He|reflexivity|reflexivity|exact Hd].
Qed.

Section specs.
Context {os : OS} (fuel : nat).
Context (Hfresh : malloc_fresh) (Hpoll : ∀ fd t, settles fuel (Poll [(fd, POLLOUT)] t)).
Context (ok : Z → bool) (Hall : ∀ a, ok a = true).

(** A new connection is none of those in use. *)
Lemma conn_new_fresh (ip : option string) tr (g : cm_mem pmem) p w' : conn_new_post ip tr g p w' → p ≠ NULL →
  live (mk_world tr g) → conns g !! p = None.
Proof using Hfresh.
  intros [_ H] Hp [_ Hl]. rewrite (proj2 (Z.eqb_neq _ _) Hp) in H. destruct H as (fd & _ & _ & _ & _ & trm & Htrm & Hcm).
  apply not_elem_of_dom. intros Hin. specialize (Hl p Hin). cbn in Hl. rewrite <- Htrm in Hl.
  pose proof (Hfresh trm sizeof_conn_mgr_conn_t) as Hf. rewrite <- Hcm in Hf. specialize (Hf Hp). lia.
Qed.

(** Opening a connection enters it in the books. *)
Lemma pool_books_opened tr0 P pl tr g c fd tr' g' : conns g !! c = None → 
  pools (rest g) !! P = Some pl → pools (rest g') !! P = Some (with_size pl (pl_size pl + 1)) →
  conns g' = <[c := mk_conn fd]> (conns g) → res_delta tr tr' [fd] [c] →
  pool_books tr0 P (mk_world tr g) → pool_books tr0 P (mk_world tr' g').
Proof using Type.
  intros Hn Hp Hp' Hc Hd (pl0 & Hpl & Hs & Hb). cbn [w_glob w_trace] in *. rewrite Hp in Hpl. injection Hpl as <-.
  eexists. cbn [w_glob w_trace]. split; [exact Hp'|]. cbn [with_size pl_size]. rewrite Hc. split.
  - rewrite map_size_insert_None by done. lia.
  - eapply res_delta_perm; [by rewrite fds_insert|rewrite keys_insert by done; apply perm_swap|].
    destruct Hd as [A1 B1], Hb as [A2 B2]. split; intros x; [rewrite A1, A2|rewrite B1, B2]; cbn [count foldr]; unfold count; cbn [foldr]; lia.
Qed.

Lemma pop_round_books tr0 w P pl q : pool_rep (w_glob w) P pl q → live w →
  pool_books tr0 P w → wp (pop_round fuel P) (λ _ w', pool_books tr0 P w') w.
Proof using Hall Hfresh Hpoll.
  intros Hrep Hl Hb. unfold pop_round. apply wp_bind. eapply wp_mono; [by apply pool_pop_head_wp|].
  intros c0 w1 (Hrep1 & Ht1 & Hc1 & _).
  assert (Hb1 : pool_books tr0 P w1).
  { eapply pool_books_quiet; [|exact Hc1| |exact Hb]; [by rewrite Ht1|]. by rewrite (pr_pool _ _ _ _ Hrep), (pr_pool _ _ _ _ Hrep1). }
  assert (Hl1 : live w1) by (by apply (live_same w)). clear Hb Hl Ht1 Hc1. destruct w1 as [tr1 g1]. cbn [w_glob] in *.
  destruct (c0 =? NULL); [|by wp_run]. unfold load_pool at 1. wp_run. rewrite (pr_pool _ _ _ _ Hrep1). wp_run; [|exact Hb1].
  unfold pool_connect. destruct (pr_ip _ _ _ _ Hrep1) as [ip Hip]. rewrite Hip. wp_run.
  eapply wp_mono; [by apply conn_new_wp|]. intros c [tr2 g2] Hpost. pose proof Hpost as [Hr Hc]. cbn [w_glob w_trace] in *.
  destruct (c =? NULL) eqn:Ec; cbn [negb]; wp_run.
  - destruct Hc as (He & Hc & _). apply (pool_books_quiet tr0 P (mk_world tr1 g1)); cbn; [exact He|exact Hc|by rewrite Hr|exact Hb1].
  - pose proof (pool_rep_rest _ _ _ _ _ Hr Hrep1) as Hrep2. apply Z.eqb_neq in Ec.
    pose proof (conn_new_fresh _ _ _ _ _ Hpost Ec Hl1) as Hn. destruct Hc as (fd & _ & Hd & Hc & _).
    eapply wp_mono; [apply (incr_size_wp (mk_world tr2 g2) _ _ _ Hrep2); lia|]. intros [] [tr3 g3] (Hrep3 & Ht3 & Hc3).
    cbn [w_glob w_trace] in *. wp_run. subst tr3. apply (pool_books_opened tr0 P pl tr1 g1 c fd); [exact Hn|apply Hrep1|apply Hrep3|by rewrite Hc3|exact Hd|exact Hb1].
Qed.

(** No action of a worker upsets the books. *)
Lemma wexec_books tr0 P max a s s' : Workers.winv P max s → pool_books tr0 P (Threads.m_world s.1) →
  Workers.wexec fuel ok P a s = Some s' → pool_books tr0 P (Threads.m_world s'.1).
Proof using Hall Hfresh Hpoll.
  destruct s as [m ws]. intros Hw Hb E. cbn [fst] in *.
  pose proof (Workers.wi_inv _ _ _ Hw) as (pl & q & Hci & Hti). cbn [fst] in *.
  pose proof (Threads.ci_rep _ _ _ _ _ Hci) as Hrep. pose proof (Threads.ci_live _ _ _ _ _ Hci) as Hl.
  destruct m as [w mu thr ow lo ph]. cbn [Threads.m_world] in *. destruct a as [t k|t|t u]; cbn in E.
  - destruct (ws !! t) as [[| |c| |]|], k as [| |c']; try done; try destruct (c =? c'); try done;
      repeat case_bool_decide; cbn in E; try done; by injection E as <-.
  - destruct mu; [done|]. destruct (thr !! t) as [[]|]; try done; by injection E as <-.
  - destruct (ws !! t) as [a|] eqn:Ha; [|done]. cbn in E. destruct (thr !! t) as [[|k|[| |c]| |]|] eqn:Ht; try done.
    + destruct (pop_round fuel P w) as [[c|[]] w'| | |] eqn:Ep; try done; injection E as <-; cbn;
        exact (wp_at _ _ _ _ _ (pop_round_books _ _ _ _ _ Hrep Hl Hb) Ep).
    + pose proof (Workers.wi_phase _ _ _ Hw _ _ _ Ha Ht) as Hp. destruct a; cbn in Hp; naive_solver.
    + destruct (push_section ok P c w) as [[] w'| | |] eqn:Ep; try done.
      assert (Hb' : pool_books tr0 P w').
      { destruct (Threads.ci_dom _ _ _ _ _ Hci c) as [Hne _].
        { pose proof (Threads.ti_push _ _ Hti t c (or_intror Ht)) as Hin. unfold Threads.all_conns. cbn in *.
          apply elem_of_app. right. apply elem_of_app. left. by apply (list_elem_of_fmap_2 snd _ (t, c)). }
        pose proof (wp_at _ _ _ _ _ (push_section_wp ok w P pl q c Hrep Hne) Ep) as (Hr' & Ht' & Hc').
        eapply pool_books_quiet; [|exact Hc'| |exact Hb]; [by rewrite Ht'|].
        by rewrite (pr_pool _ _ _ _ Hrep), (pr_pool _ _ _ _ Hr'). }
      destruct (list_find _ ow) as [[i y]|]; [|done].
      destruct u; case_bool_decide; cbn in E; try done; by injection E as <-.
Qed.

Lemma wrun_books tr0 P max acts s s' : Workers.winv P max s → pool_books tr0 P (Threads.m_world s.1) →
  Workers.wrun fuel ok P acts s = Some s' → pool_books tr0 P (Threads.m_world s'.1).
Proof using Hall Hfresh Hpoll.
  revert s. induction acts as [|a acts IH]; intros s Hw Hb; cbn [Workers.wrun]; [by intros [= <-]|].
  destruct (Workers.wexec fuel ok P a s) as [s1|] eqn:E; [|done]. cbn. intros Hr.
  eapply (IH s1); [|by eapply wexec_books|done]. by eapply (Workers.wexec_inv fuel P max ok Hall Hfresh Hpoll).
Qed.

(** The pool between two uses by a single thread: every connection there is is idle. *)
Record settled (tr0 : list event) (P max : Z) (w : world (cm_mem pmem)) (q : list Z) : Prop := {
  st_rep : ∃ pl, pool_rep (w_glob w) P pl q ∧ pl_max_pool_size pl = max ∧ pl_size pl = Z.of_nat (length q);
  st_nodup : NoDup q;
  st_dom : ∀ c, c ∈ q → c ∈ dom (conns (w_glob w));
  st_live : live w;
  st_books : pool_books tr0 P w }.

Lemma settled_same tr0 P max q tr tr' g : res_eq tr tr' → settled tr0 P max (mk_world tr g) q → settled tr0 P max (mk_world tr' g) q.
Proof using Type.
  intros He [Hr Hn Hd [Hl1 Hl2] Hb]. split; [done|done|done| |by apply (pool_books_quiet tr0 P (mk_world tr g))].
  destruct He as [_ He]. split; cbn in *; [intros p|intros c Hc]; rewrite He; cbn; [specialize (Hl1 p)|specialize (Hl2 c Hc)]; lia.
Qed.

(** The pool after the last worker. *)
Lemma workers_settled tr0 P max s : Workers.winv P max s → Threads.m_owned s.1 = [] →
  pool_books tr0 P (Threads.m_world s.1) → ∃ q, settled tr0 P max (Threads.m_world s.1) q.
Proof using Type.
  intros [(pl & q & [Hrep Hmax Hnd Hdom Hl Hs] & _) Hlo Hph _ _ _ _ _] How Hb.
  unfold Threads.all_conns in *. rewrite How, Hlo in *. rewrite Hph in Hs. cbn in *. rewrite app_nil_r in *.
  exists q. split; [|done|naive_solver|done|done]. exists pl. split; [done|]. split; [done|]. lia.
Qed.

Lemma pop_settled tr0 P max w q : 1 ≤ max → settled tr0 P max w q →
  wp (pop_round fuel P) (λ r w', live w' ∧ pool_books tr0 P w' ∧ ∃ c, r = inl c ∧
    if c =? NULL then ∃ q', settled tr0 P max w' q' else ∃ pl q', pool_rep (w_glob w') P pl q' ∧ pl_max_pool_size pl = max ∧
      pl_size pl = Z.of_nat (length (c :: q')) ∧ NoDup (c :: q') ∧ ∀ d, d ∈ c :: q' → d ∈ dom (conns (w_glob w'))) w.
Proof using Hall Hfresh Hpoll.
  intros Hm [(pl & Hrep & Hmax & Hs) Hn Hd Hl Hb].
  pose proof (pop_round_wp fuel Hfresh Hpoll w P pl q Hrep) as (r & w' & E & Hl' & Hpost)%wp_Ok. specialize (Hl' Hl).
  pose proof (wp_at _ _ _ _ _ (pop_round_books tr0 w P pl q Hrep Hl Hb) E) as Hb'.
  apply wp_Ok. exists r, w'. split; [done|]. split; [done|]. split; [done|]. destruct q as [|c q], r as [c'|[]]; cbn in Hpost.
  - destruct Hpost as [_ Hpost]. exists c'. split; [done|]. destruct (c' =? NULL) eqn:Ec.
    + destruct Hpost as [Hr' Hc']. exists []. split; [by exists pl|constructor|by intros d ?%elem_of_nil|done|done].
    + destruct Hpost as (Hr' & Hdom & _). eexists _, []. split; [exact Hr'|]. split; [done|]. split; [cbn in *; lia|].
      split; [apply NoDup_singleton|]. intros d ->%list_elem_of_singleton. rewrite Hdom. set_solver.
  - cbn in Hs. lia.
  - destruct Hpost as (-> & Hr' & Hc'). exists c. split; [done|].
    rewrite (proj2 (Z.eqb_neq _ _) (queue_data_nonnull _ _ _ _ _ Hrep)). exists pl, q. by rewrite Hc'.
  - done.
Qed.

(** One more use by the main thread returns and leaves the pool settled. *)
Lemma pool_worker_wp tr0 P max id tr g q : P ≠ NULL → 1 ≤ max → settled tr0 P max (mk_world tr g) q →
  wp (pool_worker fuel ok id P) (λ _ w', ∃ q', settled tr0 P max w' q') (mk_world tr g).
Proof using Hall Hfresh Hpoll.
  intros HP Hm Hst. unfold pool_worker, conn_mgr_pool_pop, conn_mgr_pool_push.
  rewrite (proj2 (Z.eqb_neq P NULL) HP). wp_run.
  eapply wp_mono; [apply (pop_settled tr0 P max _ q Hm); eapply settled_same; [|exact Hst]; res_solve|].
  intros r1 [tr1 g1] (Hl1 & Hb1 & c & -> & H). wp_run.
  - destruct H as (q' & H). exists q'. eapply settled_same; [|exact H]. res_solve.
  - destruct H as (pl & q' & Hrep & Hmax & Hs & Hn & Hd). cbn [w_glob] in *. apply Z.eqb_neq in E.
    eapply wp_mono; [apply (push_section_wp ok (mk_world _ g1) P pl q' c Hrep E)|].
    intros [] [tr2 g2] (Hrp2 & Ht2 & Hc2). rewrite Hall in Hrp2. cbn [w_glob w_trace] in *. wp_run. exists (c :: q').
    assert (He : res_eq tr1 tr2) by (rewrite Ht2; res_solve).
    eapply (settled_same tr0 P max (c :: q') tr1); [res_solve|].
    split; cbn [w_glob w_trace]; [by exists pl|done|by rewrite Hc2|by eapply (live_same (mk_world tr1 g1))|].
    apply (pool_books_quiet tr0 P (mk_world tr1 g1)); cbn; [done|done| |done].
    destruct Hrp2 as [-> _ _ _]. by destruct Hrep as [-> _ _ _].
Qed.

Lemma forall2_fds cs (q fs : list Z) : Forall2 (λ c fd, cs !! c = Some (mk_conn fd)) q fs → fs = fd_of cs <$> q.
Proof using Type. induction 1 as [|c fd q fs E _ IH]; cbn; [done|]. unfold fd_of at 1. rewrite E. cbn. by f_equal. Qed.

Lemma foldr_delete_lookup (cs : gmap Z conn_mgr_conn_t) (q : list Z) c : c ∈ q → foldr delete cs q !! c = None.
Proof using Type.
  induction q as [|d q IH]; intros Hin; [by apply elem_of_nil in Hin|]. cbn. destruct (decide (d = c)) as [->|Hne].
  - apply lookup_delete_eq.
  - rewrite lookup_delete_ne by done. apply IH. apply elem_of_cons in Hin as [->|]; done.
Qed.

(** Destroying a settled pool closes the books. *)
Lemma settled_destroy_wp tr0 P max w q : settled tr0 P max w q → (Z.to_nat max < fuel)%nat →
  wp (conn_mgr_pool_destroy fuel P) (λ _ w', res_eq tr0 (w_trace w') ∧ conns (w_glob w') = ∅ ∧ pools (rest (w_glob w')) !! P = None ∧ items (qh (rest (w_glob w'))) = ∅) w.
Proof using Type.
  intros [(pl & Hrep & Hmax & Hs) Hn Hd Hl (pl' & Hpl & Hsz & Hb)] Hf.
  rewrite (pr_pool _ _ _ _ Hrep) in Hpl. injection Hpl as <-. pose proof (pr_size _ _ _ _ Hrep) as [Hle _].
  assert (Hdom : list_to_set q = dom (conns (w_glob w))).
  { apply set_subseteq_size_eq; [intros c; rewrite elem_of_list_to_set; apply Hd|].
    rewrite size_list_to_set, size_dom by done. lia. }
  assert (Hk : keys (conns (w_glob w)) ≡ₚ q) by (unfold keys; rewrite <- Hdom; by apply elements_list_to_set).
  eapply wp_mono; [apply (pool_destroy_wp fuel w P pl q Hrep); [lia|done|done]|].
  intros [] w' ((fs & Hfs & Hres) & Hc & Hp & _ & Hitems). apply forall2_fds in Hfs as ->. split; [|split; [|done]].
  - assert (Hb' : res_delta tr0 (w_trace w) (fd_of (conns (w_glob w)) <$> q) (P :: q)).
    { eapply res_delta_perm; [|by rewrite <- Hk|exact Hb]. unfold fds. by rewrite Hk. }
    destruct Hres as [A1 B1], Hb' as [A2 B2]. split; intros x; [specialize (A1 x); specialize (A2 x)|specialize (B1 x); specialize (B2 x)]; cbn [count foldr]; cbn; lia.
  - rewrite Hc. apply map_eq. intros c. rewrite lookup_empty. destruct (decide (c ∈ q)) as [Hin|Hni]; [by apply foldr_delete_lookup|].
    assert (Hno : conns (w_glob w) !! c = None) by (apply not_elem_of_dom; rewrite <- Hdom, elem_of_list_to_set; done).
    clear -Hno. induction q as [|d q IH]; cbn; [done|]. by rewrite lookup_delete_None, IH; right.
Qed.

Lemma pool_queue_init_wp q x h : q ≠ NULL → queues h !! q = Some x →
  wp (conn_mgr_queue_init q) (λ _ h', h' = mk_qheap (items h) (<[q := mk_queue 0 0]> (queues h)) (brk h)) h.
Proof using Type.
  clear. intros Hq Hx. unfold conn_mgr_queue_init. rewrite (proj2 (Z.eqb_neq _ _) Hq). unfold store_queue, wp. cbn. by rewrite Hx.
Qed.

Lemma test_pool_start_wp tr g : (∀ p, 0 ≤ mem_balance tr p) → conns g = ∅ → items (qh (rest g)) = ∅ → 0 < brk (qh (rest g)) →
  wp test_pool_start (λ P w, conns (w_glob w) = ∅ ∧ if P =? NULL then res_eq tr (w_trace w) ∧ items (qh (rest (w_glob w))) = ∅
    else pool_rep (w_glob w) P (mk_pool (strncpy 16 HOST) PORT POOL_SIZE 0 TIMEOUT) [] ∧ live w ∧ pool_books tr P w) (mk_world tr g).
Proof using Type.
  intros Hbal Hc Hi Hbrk. unfold test_pool_start, conn_mgr_pool_new, store_pool, upd_rest. wp_run.
  - cbn. change (NULL =? NULL) with true. split; [done|]. split; [res_solve|done].
  - assert (Hnn : r_ret r ≠ NULL) by (by apply Z.eqb_neq). apply wp_q_op. eapply wp_mono; [eapply pool_queue_init_wp; [by apply Z.eqb_neq|apply lookup_insert_eq]|].
    intros u h ->. wp_run; [congruence|]. cbn [w_trace w_glob qh pools items queues brk rest conns conn_mgr_conn_errno]. split; [done|].
    destruct (r_ret r =? NULL) eqn:E'; [by apply Z.eqb_eq in E'|]. split; [|split].
    + split; [cbn; by rewrite lookup_insert_eq|cbn|apply strncpy_terminated; cbn; lia|cbn; unfold POOL_SIZE; lia].
      exists []. split; [|done]. split; cbn; [by apply Z.eqb_neq| |by apply list.NoDup_nil|done|by rewrite Hi|].
      * exists 0. by rewrite lookup_insert_eq.
      * split; [lia|]. rewrite Hi. by intros a [x Hx].
    + split; cbn; [|rewrite Hc; set_solver]. intros p. specialize (Hbal p). lia.
    + eexists. cbn. rewrite lookup_insert_eq. split; [done|]. rewrite Hc. split; [done|]. unfold fds, keys. rewrite dom_empty_L, elements_empty. cbn.
      res_solve.
Qed.

(** The schedule [acts] runs the workers as far as they go. *)
Definition maximal (P : Z) (w : world (cm_mem pmem)) (acts : list Threads.action) : Prop :=
  ∃ s, Workers.wrun fuel ok P acts (Workers.workers w NUM_WORKERS) = Some s ∧ ∀ a, Workers.wexec fuel ok P a s = None.

Lemma test_pool_wp acts tr g : (2 < fuel)%nat → (∀ p, 0 ≤ mem_balance tr p) → conns g = ∅ → items (qh (rest g)) = ∅ → 0 < brk (qh (rest g)) →
  (∀ P w, test_pool_start (mk_world tr g) = Ok P w → P ≠ NULL → maximal P w acts) →
  wp (test_pool fuel ok acts) (λ _ w, res_eq tr (w_trace w) ∧ conns (w_glob w) = ∅ ∧ items (qh (rest (w_glob w))) = ∅) (mk_world tr g).
Proof using Hall Hfresh Hpoll.
  intros Hf Hbal Hc Hi Hbrk Hacts. unfold test_pool. apply wp_bind.
  pose proof (test_pool_start_wp tr g Hbal Hc Hi Hbrk) as (P & w & E & Hcw & H)%wp_Ok. apply wp_Ok. exists P, w. split; [done|].
  destruct (P =? NULL) eqn:EP; [by destruct H; apply wp_ret|]. apply Z.eqb_neq in EP. destruct H as (Hrep & Hl & Hb).
  destruct (Hacts P w E EP) as (s & Hrun & Hstuck).
  pose proof (Workers.workers_start P _ NUM_WORKERS w Hrep Hl eq_refl) as Hw0. cbn [pl_max_pool_size] in Hw0.
  destruct (Workers.wrun_inv fuel P POOL_SIZE ok Hall Hfresh Hpoll _ _ _ Hw0 Hrun) as [Hw _].
  pose proof (wrun_books tr P POOL_SIZE _ _ _ Hw0 Hb Hrun) as Hb'.
  destruct (Workers.workers_stuck fuel P POOL_SIZE ok s Hall Hfresh Hpoll) as [Hdone How]; [done|done|done|].
  destruct (workers_settled tr P POOL_SIZE s Hw How Hb') as [q Hq].
  apply wp_bind. apply wp_Ok. exists tt, (Threads.m_world s.1). split.
  { unfold run_workers. rewrite Hrun, bool_decide_true; [done|]. rewrite Hdone at 1. f_equal.
    rewrite (Workers.wrun_length _ _ _ _ _ _ Hrun). apply length_replicate. }
  destruct (Threads.m_world s.1) as [tr1 g1]. apply wp_bind.
  eapply wp_mono; [apply (wp_for_range (λ _ _ w, settled tr P POOL_SIZE w q)); [exact Hq|]|].
  - intros i [] [tr2 g2] _ H2. apply wp_sys_. intros r _. eapply settled_same; [|exact H2]. res_solve.
  - intros [] [tr2 g2] H2. apply wp_bind. eapply wp_mono; [by apply (pool_worker_wp tr P POOL_SIZE 3 tr2 g2 q)|].
    intros [] w3 [q3 H3]. eapply wp_mono; [apply (settled_destroy_wp tr P POOL_SIZE w3 q3 H3)|]. { done. }
    by intros [] w4 (H4 & H5 & _ & H6).
Qed.

End specs.

Lemma test_queue_runs garbage : ∃ out st, test_queue (λ _, true) 11 8 (mk_qheap ∅ (<[8 := garbage]> ∅) 1) = Ok out st ∧
  items st = ∅ ∧ 0 < brk st.
Proof. destruct garbage as [hd tl]. eexists _, _. split; [apply test_queue_run|]. split; [done|cbn; lia]. Qed.

(** When every allocation succeeds it does not matter by which function. *)
Lemma for_range_ext {S A} n lo (f g : Z → A → M S A) a s : (∀ i a s, f i a s = g i a s) → for_range n lo f a s = for_range n lo g a s.
Proof.
  intros H. revert lo a s. induction n as [|n IH]; intros lo a s; [done|]. cbn [for_range]. unfold mbind, M_bind. rewrite H. destruct (g lo a s); auto.
Qed.

Lemma test_queue_ext ok st : (∀ a, ok a = true) → test_queue ok 11 8 st = test_queue (λ _, true) 11 8 st.
Proof.
  intros Hall. unfold test_queue. apply bind_ext. intros [] st1. apply bind_ext_l. apply for_range_ext. intros i [] h.
  assert (malloc_item ok h = malloc_item (λ _, true) h) as Hm by (unfold malloc_item; by rewrite Hall).
  destruct (Z.odd i); [unfold conn_mgr_queue_push_head|unfold conn_mgr_queue_push_tail]; (destruct (_ || _); [done|]); by apply bind_ext_l.
Qed.

Lemma run_test_queue_wp {os : OS} ok garbage : (∀ a, ok a = true) → wp (run_test_queue ok garbage) (λ _ w, w_trace w = [] ∧ conns (w_glob w) = ∅ ∧
  items (qh (rest (w_glob w))) = ∅ ∧ 0 < brk (qh (rest (w_glob w)))) (mk_world [] cm_start).
Proof.
  intros Hall. destruct (test_queue_runs garbage) as (out & st & E & Hi & Hb). unfold run_test_queue, upd_rest. wp_run. apply wp_q_op.
  cbn [w_glob rest qh items queues brk cm_start pools]. unfold wp at 1. rewrite test_queue_ext, E by done. cbv beta iota.
  apply wp_upd_glob. cbn [w_trace w_glob rest qh items brk conns]. clear E. done.
Qed.

(** ** Theorems *)


(** ** Witnesses *)

#[local] Existing Instance bump_os.

(** The workers one after the other, under a kernel that connects at once; each is given the
    connection the first one opened. *)
Definition worker_turn (c : Z) (t : nat) : list Threads.action :=
  [Threads.ACall t Threads.RPop; Threads.ALock t; Threads.ARun t None;
   Threads.ACall t (Threads.RPush c); Threads.ALock t; Threads.ARun t None].
Definition four_turns (c : Z) : list Threads.action := worker_turn c 0 ++ worker_turn c 1 ++ worker_turn c 2 ++ worker_turn c 3.

Definition demo_start : world (cm_mem pmem) := Eval vm_compute in
  match (run_test_queue (λ _, true) (mk_queue 5 7);; test_conn 3;; test_pool_start) (mk_world [] cm_start) with Ok _ w => w | _ => mk_world [] cm_start end.

Lemma bump_settles3 fd t : settles 3 (Poll [(fd, POLLOUT)] t).
Proof. intros tr. exists 0%nat. split; [lia|done]. Qed.

Lemma demo_started : (run_test_queue (λ _, true) (mk_queue 5 7);; test_conn 3;; test_pool_start) (mk_world [] cm_start) = Ok 3 demo_start.
Proof. vm_compute. reflexivity. Qed.

Definition demo_end : Workers.config := Eval vm_compute in
  match Workers.wrun 3 (λ _, true) 3 (four_turns 5) (Workers.workers demo_start NUM_WORKERS) with Some s => s | None => Workers.workers demo_start 0 end.

(** Workers that are done do nothing more. *)
Lemma done_stuck fuel P m n a : Threads.m_threads m = replicate n Threads.Idle →
  Workers.wexec fuel (λ _, true) P a (m, replicate n Workers.WDone) = None.
Proof.
  destruct m as [w mu thr ow lo ph]. cbn. intros ->. destruct a as [t k|t|t u]; cbn.
  - destruct (replicate n Workers.WDone !! t) as [p|] eqn:E; [|done]. apply lookup_replicate in E as [-> _]. by destruct k.
  - destruct mu; [done|]. destruct (replicate n Threads.Idle !! t) as [p|] eqn:E; [|done]. by apply lookup_replicate in E as [-> _].
  - destruct (replicate n Workers.WDone !! t) as [p|]; [|done]. cbn.
    destruct (replicate n Threads.Idle !! t) as [p'|] eqn:E; [|done]. by apply lookup_replicate in E as [-> _].
Qed.

Lemma demo_maximal : maximal 3 (λ _, true) 3 demo_start (four_turns 5).
Proof.
  exists demo_end. split; [vm_compute; reflexivity|]. intros a. apply (done_stuck 3 3 demo_end.1 4 a). vm_compute. reflexivity.
Qed.

