(* ===== verification/SpliceExp.v ===== *)
(** * The experimental splice proxy (networking/splice/sp_exp/src)

    A version of the proxy of SpliceProxy.v that connects to the server with its own
    address.  The functions of sproxy_log.c, sproxy_splice.c and sproxy_main.c and those of
    sproxy_net.c and sproxy_core.c named below have the same text in both directories, so
    they are the same programs; [tcp_connect_to_server] and [tunnel_the_request] are its
    own.  The last part composes the accept loop with the handler it queues. *)

From Stdlib Require Import ZArith Lia ZifyBool.
From stdpp Require Import base gmap list strings numbers.
From S2P Require Import Prelude Posix SpliceProxy.

Section code.
Context {os : OS} (fuel : nat).
Abbreviation SP := (M (world sp_glob)).

(** ** sproxy_log.c *)

Definition open_system_logger : string → Z → SP Z := SpliceProxy.open_system_logger.
Definition close_system_logger : SP Z := SpliceProxy.close_system_logger.

(** ** sproxy_net.c *)

Definition set_socket_non_blocking : Z → SP Z := SpliceProxy.set_socket_non_blocking.
Definition tcp_bind_and_listen : option string → Z → SP (Z * option Z) := SpliceProxy.tcp_bind_and_listen.

(** The pointer [local_socket] is tested: [false] is NULL. *)
Definition tcp_connect_to_server (server_ip : option string) (server_port : Z) (local_socket : bool) : SP (Z * option Z) :=
  match server_ip, local_socket with
  | Some server_ip, true =>
      if (server_port <? 0) || (65535 <? server_port) then
        log_msg LOG_ERR "Invalid params received !!! ";; mret (-1, None)
      else
        s ← sys Socket;
        let sock := r_ret s in
        if sock <? 0 then log_msg LOG_ERR "Socket Creation Error [%d] [%s] ";; mret (-1, None)
        else
          a ← sys (InetAton server_ip);
          if r_ret a =? 0 then log_msg LOG_ERR "Error in inet_aton  !!! ";; mret (-1, None)
          else
            c ← sys (Connect sock (r_out a !!! 0%nat) server_port);
            if r_ret c <? 0 then log_msg LOG_ERR "Error [%d] [%s] in connect !!! ";; mret (-1, None)
            else mret (0, Some sock)
  | _, _ => log_msg LOG_ERR "Invalid params received !!! ";; mret (-1, None)
  end.

Definition tcp_send_data : Z → option (list Z) → Z → SP Z := SpliceProxy.tcp_send_data fuel.
Definition tcp_send_data_with_poll : Z → list Z → Z → SP Z := SpliceProxy.tcp_send_data_with_poll fuel.
Definition tcp_receive_data_with_poll : Z → bool → Z → Z → SP (Z * list Z) := SpliceProxy.tcp_receive_data_with_poll fuel.

(** ** sproxy_splice.c *)

Definition splice_with_poll : Z → Z → Z → SP Z := SpliceProxy.splice_with_poll fuel.
Definition make_splice : Z → Z → option (Z * Z) → Z → SP Z := SpliceProxy.make_splice fuel.

(** ** sproxy_core.c *)

Definition proxy_recv_and_send : Z → Z → SP Z := SpliceProxy.proxy_recv_and_send fuel.
Definition proxy_poll_and_tunnel : Z → Z → SP Z := SpliceProxy.proxy_poll_and_tunnel fuel.

Definition tunnel_the_request (arg : Z) : SP unit :=
  (if arg =? NULL then log_msg LOG_CRIT "NULL params received !!!" else mret tt);;
  i ← SpliceProxy.load_info arg;
  sys_ (InetNtoa (client_address i).1);;
  log_msg LOG_INFO "Client IP [%s] Client Port [%d]";;
  g ← get_glob;
  ip ← expect (c_string (g_dest_ip g));
  r ← tcp_connect_to_server (Some ip) (g_dest_port g) true;
  SpliceProxy.tunnel_connected fuel arg r "Error in tcp_connect_to_server !!!".

(** ** sproxy_main.c *)

Definition init_workq : SP Z := SpliceProxy.init_workq.
Definition accept_round : SP unit := SpliceProxy.accept_round.
Definition main : string → option (string * string * (Z * Z * Z * Z)) → SP unit := SpliceProxy.main fuel.
Definition handle_signal : Z → SP unit := SpliceProxy.handle_signal.

(** ** A request from its arrival to its end *)

(** The request a successful [WorkQAdd] has just queued. *)
Definition queued (tr : list event) : option Z :=
  match tr with
  | (Ext name [p], r) :: _ => if String.eqb name "WorkQAdd" && (r_ret r =? 0) then Some p else None
  | _ => None
  end.

(** A round of the accept loop and, when it queued a request, the run of the handler by a
    thread of the work queue. *)
Definition serve_one : SP (option Z) :=
  accept_round;;
  q ← gets (λ w, queued (w_trace w));
  match q with
  | Some p => tunnel_the_request p;; mret (Some p)
  | None => mret None
  end.

End code.

(** The request [p] has just been refused by the work queue. *)
Definition refused (tr : list event) (p : Z) : Prop :=
  ∃ log r q tr', tr = (Syslog LOG_ALERT log, r) :: (Ext "WorkQAdd" [p], q) :: tr' ∧ r_ret q ≠ 0.

Section specs.
Context {os : OS} (fuel K : nat).

(** Called with a pointer, the connect function is the one of the other proxy. *)
Lemma connect_same ip port w : tcp_connect_to_server ip port true w = SpliceProxy.tcp_connect_to_server ip port w.
Proof using Type. by destruct ip. Qed.

Lemma tunnel_same arg w : tunnel_the_request fuel arg w = SpliceProxy.tunnel_the_request_exp fuel arg w.
Proof using Type.
  unfold tunnel_the_request, SpliceProxy.tunnel_the_request_exp. do 6 (apply bind_ext; intros ? ?).
  apply bind_ext_l, connect_same.
Qed.

Lemma non_blocking_wp fd tr (g : sp_glob) :
  wp (set_socket_non_blocking fd) (λ _ w, res_eq tr (w_trace w) ∧ w_glob w = g) (mk_world tr g).
Proof using Type. unfold set_socket_non_blocking, SpliceProxy.set_socket_non_blocking. wp_run; (split; [res_solve|done]). Qed.

(** What a round of the accept loop leaves: nothing, a queued request, or, when the work
    queue refuses it, a request nobody refers to. *)
Lemma accept_round_wp tr g : (∀ tr n s, r_ret (os_answer tr (Calloc n s)) ≠ NULL) →
  wp accept_round (λ _ w, g_dest_ip (w_glob w) = g_dest_ip g ∧
    match queued (w_trace w) with
    | Some p => p ≠ NULL ∧ ∃ i, infos (w_glob w) = <[p := i]> (infos g) ∧ res_delta tr (w_trace w) [client_socket i] [p]
    | None => res_eq tr (w_trace w) ∧ infos (w_glob w) = infos g ∨
        ∃ p i, refused (w_trace w) p ∧ infos (w_glob w) = <[p := i]> (infos g) ∧ res_delta tr (w_trace w) [client_socket i] [p]
    end) (mk_world tr g).
Proof using Type.
  intros Hc. unfold accept_round, SpliceProxy.accept_round, SpliceProxy.set_infos.
  apply wp_bind, wp_get_glob, wp_bind, wp_sys. intros a _. destruct (r_ret a <? 0) eqn:Ea.
  { wp_run. split; [done|]. cbn. left. split; [res_solve|done]. }
  apply wp_bind. eapply wp_mono; [apply non_blocking_wp|]. intros nb [t1 g1] Hnb.
  destruct Hnb as [Hr Hg1]. cbn [w_trace w_glob] in *. subst g1. destruct (nb <? 0).
  { wp_run. split; [done|]. cbn. left. split; [res_solve|done]. }
  apply wp_bind, wp_sys_. intros r1 _. apply wp_bind, wp_sys. intros c Hcc.
  assert (Hn : r_ret c ≠ NULL) by (rewrite Hcc; apply Hc). rewrite (proj2 (Z.eqb_neq _ _) Hn). unfold NULL in Hn.
  apply wp_bind, wp_upd_glob, wp_bind, wp_log. intros r2 _. apply wp_bind, wp_sys. intros q _.
  destruct (r_ret q =? 0) eqn:Eq; cbn [negb].
  - apply wp_ret. split; [done|]. cbn [w_trace queued String.eqb Ascii.eqb Bool.eqb andb]. rewrite Eq. split; [done|].
    eexists. split; [done|]. cbn [client_socket]. res_solve.
  - apply wp_log. intros r3 _. split; [done|]. cbn [w_trace queued]. right. exists (r_ret c). eexists. split; [|split; [done|cbn [client_socket]; res_solve]].
    eexists _, _, _, _. split; [done|]. by apply Z.eqb_neq.
Qed.

End specs.

(** C35: a request of the experimental proxy from its arrival to its end.  When [calloc] does not fail, the destination address fits its array,
    [send] accepts no more than it is given and the peers keep the tunnel busy finitely often, the round returns.  When the connection was queued its handler has
    closed the client's descriptor, freed and removed the request, and nothing is left over but the socket that
    the handler has made and whose connection was never established; when it was not queued nothing is left, except that a
    connection the work queue refuses stays open with its block. *)
Theorem exp_request_served {os : OS} fuel K tr g : calms_down K → (K < fuel)%nat → SpliceProxy.send_sane →
  (∀ tr n s, r_ret (os_answer tr (Calloc n s)) ≠ NULL) → is_Some (c_string (g_dest_ip g)) →
  wp (serve_one fuel) (λ q w, match q with
    | Some p => ∃ queue_tr leak, queued queue_tr = Some p ∧ SpliceProxy.lost_socket queue_tr (w_trace w) leak ∧
        res_delta tr (w_trace w) leak [] ∧ infos (w_glob w) = delete p (infos g)
    | None => res_eq tr (w_trace w) ∧ infos (w_glob w) = infos g ∨
        ∃ p i, refused (w_trace w) p ∧ infos (w_glob w) = <[p := i]> (infos g) ∧ res_delta tr (w_trace w) [client_socket i] [p]
    end) (mk_world tr g).
Proof.
  intros HK Hf Hs Hc Hip. unfold serve_one. apply wp_bind. eapply wp_mono; [by apply accept_round_wp|].
  intros [] [t1 g1] [Hd H]. cbn [w_trace w_glob] in *. apply wp_bind, wp_gets. cbn [w_trace]. destruct (queued t1) as [p|] eqn:Hqd; [|by apply wp_ret].
  destruct H as (Hp & i & Hi & Hr). apply wp_bind. unfold wp at 1. rewrite tunnel_same.
  pose proof (SpliceProxy.tunnel_the_request_exp_wp fuel K HK Hf Hs p i t1 g1 Hp) as Ht.
  rewrite Hi, lookup_insert_eq, Hd in Ht. specialize (Ht eq_refl Hip). unfold wp in Ht.
  destruct (SpliceProxy.tunnel_the_request_exp fuel p (mk_world t1 g1)) as [[] w'| | |]; try done.
  destruct Ht as (leak & Hlost & H1 & H2 & H3 & _). exists t1, leak. split; [done|]. split; [done|]. split.
  - destruct Hr as [A B]. split; intros z; [specialize (A z); specialize (H1 z)|specialize (B z); specialize (H2 z)];
      cbn [count foldr] in *; lia.
  - rewrite H3, Hi. by rewrite delete_insert_eq.
Qed.

(** ** Witness *)

(** A kernel that delivers one connection with one chunk of data, and a work queue that
    takes the request. *)
Definition exp_os : OS := calm_os 6 (λ tr c,
  match c with
  | Ext _ _ => mk_reply 0 0 []
  | Recv _ _ _ => if existsb (λ e, match e.1 with Recv _ _ _ => true | _ => false end) tr
                  then mk_reply 0 0 [] else mk_reply 3 0 [7; 8; 9]
  | Send _ b _ => mk_reply (Z.min 2 (Z.of_nat (length b))) 0 []
  | Poll _ _ => mk_reply 1 0 [POLLOUT]
  | _ => mk_reply 9 0 [127; 128]
  end).

(** In this run the request is queued. *)
Example exp_request_queued : match serve_one (os := exp_os) 7 (mk_world [] sp0) with Ok q _ => q = Some 9 | _ => False end.
Proof. vm_compute. reflexivity. Qed.

Lemma exp_request_served_witness : wp (serve_one (os := exp_os) 7) (λ q w, match q with
    | Some p => ∃ queue_tr leak, queued queue_tr = Some p ∧ SpliceProxy.lost_socket queue_tr (w_trace w) leak ∧
        res_delta [] (w_trace w) leak [] ∧ infos (w_glob w) = delete p (infos sp0)
    | None => res_eq [] (w_trace w) ∧ infos (w_glob w) = infos sp0 ∨
        ∃ p i, refused (w_trace w) p ∧ infos (w_glob w) = <[p := i]> (infos sp0) ∧ res_delta [] (w_trace w) [client_socket i] [p]
    end) (mk_world [] sp0).
Proof.
  apply (exp_request_served (os := exp_os) 7 6 [] sp0); [apply calm_os_calms|lia| | |].
  - intros tr fd b fl. unfold os_answer, exp_os, calm_os. destruct (6 <=? busy_count tr)%nat; cbn; lia.
  - intros tr n s. unfold os_answer, exp_os, calm_os. destruct (6 <=? busy_count tr)%nat; done.
  - exists "10.0.0.2"%string. reflexivity.
Defined.
