(* ===== verification/BsonTest.v ===== *)
(** * The test program of the BSON API (serialization/bson_api/test/test.c)

    Six tests build documents, print them as JSON and element by element, write them to a
    buffer and read them back.  The two printing functions call each other; the model of
    the first takes the depth of nesting as fuel.  Strings made by [strdup] and by the JSON
    printer are values of the model, so that freeing one is not an event.  [u] is what the
    uninitialised values on the stack hold. *)

From Stdlib Require Import ZArith Lia ZifyBool.
From stdpp Require Import base gmap list strings numbers countable.
From S2P Require Import Prelude Posix ConnMgr Bson.

Definition NUM : Z := 2.

(** The doubles 3.141590 and 3.150000. *)
Definition d_3_14159 : Z := 4614256650576692846.
Definition d_3_15 : Z := 4614275588213125939.

Section code.
Context {os : OS} {LB : LIBBSON} (fuel depth : nat) (u : bson_value).
Abbreviation BM := (M (world bs_mem)).

Definition say (fmt : string) (args : list Z) : BM unit := sys_ (Printf fmt args).

(** [printf(fmt, ret, bson_err_msg(ret))]; [%s] of NULL is undefined. *)
Definition say_error (fmt : string) (ret : Z) : BM unit :=
  m ← expect (bson_err_msg ret); say fmt (ret :: codes m).

(** The loop of [print_bson_elements] and its error path: the comparison is inside the
    assignment, so that [ret] is 1 when there was an error. *)
Definition elements_with (print : bson_value → BM unit) (bdoc : Z) : BM unit :=
  '(code, ecount, earr) ← bson_doc_get_elements fuel true bdoc;
  if bson_code code <? 0 then say_error "Error %d %s in bson_doc_get_elements" 1
  else
    for_range (Z.to_nat ecount) 0 (λ i _,
      '(_, slots) ← expect earr;
      e ← expect (mjoin (slot_get slots i));
      say "%d : " [i];;
      k ← expect (key e);
      say "key = %s" (codes k);;
      print (val e);;
      bson_value_free (val e)) tt;;
    sys_ (Free (from_option fst NULL earr)).

Fixpoint print_bson_value (depth : nat) (v : bson_value) : BM unit :=
  match depth with
  | O => λ _, OutOfFuel
  | S depth =>
      match v with
      | V_int32 x => say "int32 val = %d" [x]
      | V_int64 x => say "int64 val = %d" [x]
      | V_double x => say "double val = %f" [x]
      | V_utf8 _ s => s ← expect s; say "str val = %s" (codes s)
      | V_array _ _ =>
          say "arr vals : " [];;
          '(ret, vcount, vals) ← bson_value_get_array fuel true (Some v);
          (if bson_code ret <? 0 then say_error "Error %d %s in bson_value_get_array" (bson_code ret) else mret tt);;
          for_range (Z.to_nat vcount) 0 (λ i _,
            '(_, slots) ← expect vals;
            x ← expect (mjoin (slot_get slots i));
            print_bson_value depth x;;
            bson_value_free x) tt;;
          sys_ (Free (from_option fst NULL vals))
      | V_document _ _ =>
          say "document : " [];;
          '(ret, bdoc) ← bson_value_get_doc true (Some v);
          (if bson_code ret <? 0 then say_error "Error %d %s in bson_value_get_doc" (bson_code ret) else mret tt);;
          elements_with (print_bson_value depth) bdoc;;
          bson_doc_destroy bdoc
      | V_other _ _ => mret tt
      end
  end.

Definition print_bson_elements : Z → BM unit := elements_with (print_bson_value depth).

(** What [*val] holds after a setter that was given [&val]. *)
Definition stored (r : bson_api_err * option bson_value) : bson_value := default u r.2.

Definition set_int32 (x : Z) : bson_value := stored (bson_value_set_int32 (Some u) x).
Definition set_int64 (x : Z) : bson_value := stored (bson_value_set_int64 (Some u) x).
Definition set_double (x : Z) : bson_value := stored (bson_value_set_double (Some u) x).
Definition set_str (s : string) : BM bson_value := r ← bson_value_set_str (Some u) (Some s); mret (stored r).
Definition set_array (vals : list bson_value) : BM bson_value :=
  r ← bson_value_set_array fuel (Some u) (Some vals) (Z.of_nat (length vals)); mret (stored r).
Definition set_doc (doc : Z) : BM bson_value := r ← bson_value_set_doc fuel (Some u) doc; mret (stored r).

Definition elem (k : string) (v : bson_value) : bson_element := mk_element (Some k) v.

Definition free_all (vs : list bson_value) : BM unit := foldr (λ v m, bson_value_free v;; m) (mret tt) vs.

(** The code around each [bson_doc_create] of tests 1 to 5: [failed] is what the test prints
    and [cleanup] what it frees when that or the conversion to JSON fails. *)
Definition create_doc (failed : string) (cleanup : BM unit) (earr : list bson_element)
    (next : Z → string → BM unit) : BM unit :=
  '(ret, bdoc) ← bson_doc_create true (Some earr) (Z.of_nat (length earr));
  if bson_code ret <? 0 then
    say_error "Error [%d] [%s] in bson_create_doc !" (bson_code ret);; say failed [];; cleanup
  else
    '(ret, json) ← bson_to_json bdoc true;
    if bson_code ret <? 0 then
      say_error "Error [%d] [%s] in bson_to_json !" (bson_code ret);; say failed [];; cleanup;; bson_doc_destroy bdoc
    else json ← expect json; next bdoc json.

Definition test1 : BM unit :=
  s ← set_str "Mohit Singh";
  create_doc "Test1 FAILED !" (mret tt)
    [elem "key_int32" (set_int32 111); elem "key_int64" (set_int64 222);
     elem "key_double" (set_double d_3_14159); elem "key_string" s]
    (λ bdoc json,
      bson_value_free s;;
      say "json : %s" (codes json);;
      print_bson_elements bdoc;;
      say "Test1 PASSED" [];;
      bson_doc_destroy bdoc).

Definition test2 : BM unit :=
  n2 ← set_str "this is 3rd element";
  n3 ← set_str "this is 4th element";
  s ← set_str "Mohit Singh";
  a ← set_array [set_int32 64; set_double d_3_14159; n2; n3];
  create_doc "Test2 FAILED !" (mret tt) [elem "key_string" s; elem "key_array" a]
    (λ bdoc json,
      free_all [n2; n3; s; a];;
      say "json : %s" (codes json);;
      print_bson_elements bdoc;;
      say "Test2 PASSED" [];;
      bson_doc_destroy bdoc).

(** Tests 3 and 4 build the same document to be nested. *)
Definition nested (failed : string) (next : Z → BM unit) : BM unit :=
  s ← set_str "nested doc's string";
  let i := set_int32 1234 in
  create_doc failed (free_all [s; i]) [elem "nested_key_string" s; elem "key_int" i]
    (λ nested_doc json,
      say "nested json : %s" (codes json);;
      free_all [s; i];;
      next nested_doc).

(** The end of tests 3 to 5: the outer document with its string and the value [v]. *)
Definition outer (failed passed k : string) (s v : bson_value) : BM unit :=
  create_doc failed (free_all [s; v]) [elem "key_string" s; elem k v]
    (λ bdoc json,
      say "json : %s" (codes json);;
      free_all [s; v];;
      print_bson_elements bdoc;;
      bson_doc_destroy bdoc;;
      say passed []).

Definition test3 : BM unit :=
  nested "Test3 FAILED !" (λ nested_doc,
    s ← set_str "Mohit Singh";
    d ← set_doc nested_doc;
    bson_doc_destroy nested_doc;;
    outer "Test3 FAILED !" "Test3 PASSED" "key_doc" s d).

Definition test4 : BM unit :=
  nested "Test4 FAILED !" (λ nested_doc,
    let n0 := set_int32 64 in
    n1 ← set_doc nested_doc;
    n2 ← set_str "this is 3rd element";
    n3 ← set_str "this is 4th element";
    bson_doc_destroy nested_doc;;
    s ← set_str "Mohit Singh";
    a ← set_array [n0; n1; n2; n3];
    free_all [n0; n1; n2; n3];;
    outer "Test4 FAILED !" "Test4 PASSED" "key_array" s a).

Definition test5 : BM unit :=
  let n0 := set_int32 64 in
  let n1 := set_double d_3_15 in
  n2 ← set_str "this is 3rd element";
  n3 ← set_str "this is 4th element";
  s ← set_str "nested doc's string";
  a ← set_array [n0; n1; n2; n3];
  create_doc "Test5 FAILED !" (free_all [n0; n1; n2; n3; s; a])
    [elem "nested_key_string" s; elem "nested_key_array" a]
    (λ nested_doc json,
      say "nested json : %s" (codes json);;
      free_all [n0; n1; n2; n3; s; a];;
      s ← set_str "Mohit Singh";
      d ← set_doc nested_doc;
      bson_doc_destroy nested_doc;;
      outer "Test5 FAILED !" "Test5 PASSED" "key_doc" s d).

Definition destroy_all (bdoc : list Z) : BM unit := foldr (λ d m, bson_doc_destroy d;; m) (mret tt) bdoc.

(** A round of the first loop of test 6: the documents made so far, or the exit.  The entries
    of [bdoc] beyond them are still NULL. *)
Definition make_round (i : Z) (bdoc : list Z) : BM (option (list Z)) :=
  let v0 := set_int32 i in
  let v1 := set_int64 i in
  let v2 := set_double d_3_14159 in
  v3 ← set_str "Mohit Singh";
  '(ret, d) ← bson_doc_create true (Some [elem "key_int32" v0; elem "key_int64" v1; elem "key_double" v2; elem "key_string" v3]) 4;
  let bdoc := bdoc ++ [d] in
  if bson_code ret <? 0 then
    say_error "Error %d %s in bson_doc_create" (bson_code ret);;
    free_all [v0; v1; v2; v3];;
    destroy_all (resize (Z.to_nat NUM) NULL bdoc);;
    mret None
  else
    free_all [v0; v1; v2; v3];;
    '(_, json) ← bson_to_json d true;
    json ← expect json;
    say "json : %s" (codes json);;
    mret (Some bdoc).

Fixpoint make_docs (n : nat) (i : Z) (bdoc : list Z) : BM (option (list Z)) :=
  match n with
  | O => mret (Some bdoc)
  | S n => r ← make_round i bdoc; match r with None => mret None | Some bdoc => make_docs n (i + 1) bdoc end
  end.

(** [docs[i]] of the array that reading returned. *)
Definition doc_at (docs i : Z) : BM Z :=
  g ← get_glob; a ← expect (arrays g !! docs); expect (mjoin (slot_get a i)).

Definition test6 : BM unit :=
  r ← make_docs (Z.to_nat NUM) 0 [];
  match r with
  | None => mret tt
  | Some bdoc =>
      '(ret, (buf, buf_len)) ← bson_write_to_buffer fuel (Some (NULL, 0)) (Some bdoc) NUM;
      if bson_code ret <? 0 then
        say_error "Error %d %s in bson_write_to_buffer" (bson_code ret);; destroy_all bdoc
      else
        say "buf_len %lu" [buf_len];;
        fp ← sys (Ext "fopen ./datafile" []);
        (if r_ret fp =? NULL then undef else mret tt);;
        g ← get_glob;
        data ← expect (bufs g !! buf);
        sys_ (Ext "fwrite" data);;
        sys_ (Ext "fclose" [r_ret fp]);;
        '(ret, parsed_len, docs, count) ← bson_read_from_buffer fuel true (Some data) buf_len 0;
        if bson_code ret <? 0 then
          say_error "Error %d %s in bson_read_from_buffer" (bson_code ret);; destroy_all bdoc;; sys_ (Free buf);; set_bufs (delete buf)
        else
          say "parsed_len %lu count %lu" [parsed_len; count];;
          for_range (Z.to_nat count) 0 (λ i _,
            d ← doc_at docs i;
            json ← lib_read (bson_as_json d);
            json ← expect json;
            say "json %s" (codes json)) tt;;
          for_range (Z.to_nat count) 0 (λ i _, d ← doc_at docs i; bson_doc_destroy d) tt;;
          sys_ (Free docs);;
          set_arrays (delete docs);;
          sys_ (Free buf);;
          set_bufs (delete buf);;
          destroy_all bdoc
  end.

Definition main : BM Z := test1;; test2;; test3;; test4;; test5;; test6;; mret 0.

End code.

(** ** The functions of the API print nothing *)

Section api_mute.
Context {os : OS} {LB : LIBBSON} (fuel : nat).

Lemma mute_for_break {G B} n (body : Z → M (world G) (option B)) : (∀ i, mute (body i)) → ∀ i, mute (for_break n i body).
Proof.
  intros Hb. induction n as [|n IH]; intros i; [apply mute_ret|]. cbn [for_break]. apply mute_bind; [done|].
  intros [b|]; [apply mute_ret|apply IH].
Qed.

Lemma mute_lib {A} (f : bson → A * bson) : mute (lib f).
Proof. unfold lib, set_bl. mute_solve. Qed.
Lemma mute_lib_ f : mute (lib_ f).
Proof. unfold lib_, set_bl. mute_solve. Qed.
Lemma mute_lib_read {A} (f : bson → A) : mute (lib_read f).
Proof. unfold lib_read. mute_solve. Qed.

Hint Resolve mute_lib mute_lib_ mute_lib_read : mute.

Lemma mute_append d k v : mute (append d k v).
Proof. unfold append. mute_solve. Qed.
Hint Resolve mute_append : mute.

Lemma mute_copy_by_iter dst src : mute (bson_doc_copy_by_iter fuel dst src).
Proof. unfold bson_doc_copy_by_iter. mute_solve. Qed.
Hint Resolve mute_copy_by_iter : mute.

Lemma mute_buffer_write w ds n : mute (bson_buffer_write fuel w ds n).
Proof. unfold bson_buffer_write. apply mute_bind; [apply mute_for_break; intros i|intros ?]; mute_solve. Qed.
Hint Resolve mute_buffer_write : mute.

Lemma mute_write b ds n : mute (bson_write_to_buffer fuel b ds n).
Proof. unfold bson_write_to_buffer, set_bufs. mute_solve. Qed.

Lemma mute_free_docs a n : mute (free_docs a n).
Proof. unfold free_docs, load_array, set_arrays. mute_solve. Qed.
Hint Resolve mute_write mute_free_docs : mute.

Lemma mute_read outs b n m : mute (bson_read_from_buffer fuel outs b n m).
Proof. unfold bson_read_from_buffer, read_and_alloc_bson_array, read_round, get_parsed_len, load_array, set_arrays. mute_solve. Qed.

Lemma mute_set_array v vs n : mute (bson_value_set_array fuel v vs n).
Proof.
  unfold bson_value_set_array. destruct v, vs; mute_solve. apply mute_for_break. intros i. mute_solve.
Qed.

Lemma mute_set_doc v d : mute (bson_value_set_doc fuel v d).
Proof. unfold bson_value_set_doc. mute_solve. Qed.

Lemma mute_get_array o v : mute (bson_value_get_array fuel o v).
Proof. unfold bson_value_get_array, fill. mute_solve. Qed.

Lemma mute_get_doc o v : mute (bson_value_get_doc o v).
Proof. unfold bson_value_get_doc. mute_solve. Qed.

Lemma mute_doc_create o es n : mute (bson_doc_create o es n).
Proof. unfold bson_doc_create. mute_solve. apply mute_for_break. intros i. mute_solve. Qed.

Lemma mute_get_elements o d : mute (bson_doc_get_elements fuel o d).
Proof. unfold bson_doc_get_elements, bson_fill_element_array, fill, strdup. mute_solve. Qed.

Lemma mute_set_str v s : mute (bson_value_set_str v s).
Proof. unfold bson_value_set_str, strdup. mute_solve. Qed.

End api_mute.

(** ** Documents as trees, and what should be printed of them *)

(** Proofs go by induction on the depth, so that no induction principle is needed. *)
Unset Elimination Schemes.

Inductive tree :=
| TInt32 (v : Z) | TInt64 (v : Z) | TDouble (bits : Z) | TStr (s : string)
| TArr (ts : list tree) | TDoc (fs : list (string * tree)).

Set Elimination Schemes.

Abbreviation line := (string * list Z)%type.

(** The elements of a document, each with the lines of its value. *)
Definition element_lines (i : nat) (e : string * list line) : list line :=
  ("%d : ", [Z.of_nat i]) :: ("key = %s", codes e.1) :: e.2.

Fixpoint tree_lines (t : tree) : list line :=
  match t with
  | TInt32 v => [("int32 val = %d", [v])]
  | TInt64 v => [("int64 val = %d", [v])]
  | TDouble v => [("double val = %f", [v])]
  | TStr s => [("str val = %s", codes s)]
  | TArr ts => ("arr vals : ", []) :: concat (tree_lines <$> ts)
  | TDoc fs => ("document : ", []) :: concat (imap element_lines ((λ f, (f.1, tree_lines f.2)) <$> fs))
  end.

Definition doc_lines (fs : list (string * tree)) : list line :=
  concat (imap element_lines ((λ f, (f.1, tree_lines f.2)) <$> fs)).

Fixpoint tree_depth (t : tree) : nat :=
  match t with
  | TArr ts => S (max_list (tree_depth <$> ts))
  | TDoc fs => S (max_list ((λ f, tree_depth f.2) <$> fs))
  | _ => 1
  end.

Fixpoint tree_width (t : tree) : nat :=
  match t with
  | TArr ts => Nat.max (length ts) (max_list (tree_width <$> ts))
  | TDoc fs => Nat.max (length fs) (max_list ((λ f, tree_width f.2) <$> fs))
  | _ => 0
  end.

(** The documents of the tests. *)
Definition me : string * tree := ("key_string", TStr "Mohit Singh").
Definition third_fourth : list tree := [TStr "this is 3rd element"; TStr "this is 4th element"].
Definition doc1_tree : list (string * tree) :=
  [("key_int32", TInt32 111); ("key_int64", TInt64 222); ("key_double", TDouble d_3_14159); me].
Definition arr2_tree : list tree := TInt32 64 :: TDouble d_3_14159 :: third_fourth.
Definition doc2_tree : list (string * tree) := [me; ("key_array", TArr arr2_tree)].
Definition nested_tree : list (string * tree) := [("nested_key_string", TStr "nested doc's string"); ("key_int", TInt32 1234)].
Definition doc3_tree : list (string * tree) := [me; ("key_doc", TDoc nested_tree)].
Definition arr4_tree : list tree := TInt32 64 :: TDoc nested_tree :: third_fourth.
Definition doc4_tree : list (string * tree) := [me; ("key_array", TArr arr4_tree)].
Definition arr5_tree : list tree := TInt32 64 :: TDouble d_3_15 :: third_fourth.
Definition nested5_tree : list (string * tree) := [("nested_key_string", TStr "nested doc's string"); ("nested_key_array", TArr arr5_tree)].
Definition doc5_tree : list (string * tree) := [me; ("key_doc", TDoc nested5_tree)].
Definition doc6_tree (i : Z) : list (string * tree) :=
  [("key_int32", TInt32 i); ("key_int64", TInt64 i); ("key_double", TDouble d_3_14159); me].

(** What the tests rely on of the JSON printer and of freeing a value. *)
Class LIBBSON_JSON (LB : LIBBSON) (OK : LIBBSON_OK LB) := {
  json_of : content → string;
  json_ok l d c : docs (view l) !! d = Some c → bson_as_json d l = Some (json_of c);
  value_destroy_ok v l : view (bson_value_destroy v l) = view l }.

(** The library with a new document. *)
Definition has_doc (V : bview) (doc : Z) (c : content) (V' : bview) : Prop :=
  doc ≠ NULL ∧ docs V !! doc = None ∧ V' = with_docs V (<[doc := c]> (docs V)).

(** Documents that were added and are deleted again. *)
Definition without (m : gmap Z content) (ps : list Z) : gmap Z content := foldl (λ m p, delete p m) m ps.

Lemma added_keys m ps cs m' : added m ps cs m' → NoDup ps ∧ holding m' ps cs ∧ Forall (λ p, p ≠ NULL) ps.
Proof.
  induction 1 as [|ps cs m' p c Ha (Hn & Hh & Hd) Hp0 Hp].
  - split; [constructor|]. split; constructor.
  - assert (Hni : p ∉ ps).
    { intros (k & Hk)%list_elem_of_lookup. destruct (Forall2_lookup_l _ _ _ _ _ Hh Hk) as (c' & _ & Hc'). congruence. }
    split; [apply list.NoDup_app; split; [done|]; split; [|apply NoDup_singleton]|split].
    + intros q Hq ->%list_elem_of_singleton. done.
    + apply Forall2_app; [by apply holding_insert|]. constructor; [apply lookup_insert_eq|constructor].
    + apply Forall_app. split; [done|by constructor].
Qed.

Lemma without_insert m ps p c : p ∉ ps → without (<[p := c]> m) ps = <[p := c]> (without m ps).
Proof.
  revert m. induction ps as [|q ps IH]; intros m Hni; [done|]. apply not_elem_of_cons in Hni as [Hne Hni]. cbn.
  rewrite delete_insert_ne by done. by apply IH.
Qed.

Lemma added_without m ps cs m' : added m ps cs m' → without m' ps = m.
Proof.
  induction 1 as [|ps cs m' p c Ha IH Hp0 Hp]; [done|]. pose proof (added_keys _ _ _ _ (added_snoc _ _ _ _ _ c Ha Hp0 Hp)) as (Hn & _ & _).
  apply list.NoDup_app in Hn as (_ & Hn & _). assert (Hni : p ∉ ps) by (intros H; apply (Hn p H); left).
  unfold without. rewrite foldl_app. fold (without (<[p := c]> m') ps). rewrite without_insert, IH by done. cbn.
  apply delete_insert_id. pose proof (added_subseteq _ _ _ _ Ha) as Hs. destruct (m !! p) as [x|] eqn:E; [|done].
  pose proof (lookup_weaken _ _ _ _ E Hs). congruence.
Qed.

Lemma without_lookup m ps p : p ∉ ps → without m ps !! p = m !! p.
Proof.
  revert m. induction ps as [|q ps IH]; intros m Hni; [done|]. apply not_elem_of_cons in Hni as [Hne Hni]. cbn.
  rewrite IH by done. by rewrite lookup_delete_ne.
Qed.

(** One step of a test: [lem] proves what it prints and that the library is as before; a
    document that was created is carried along. *)
Ltac carry H := try match goal with Hh : has_doc _ _ _ _ |- _ => rewrite <- H in Hh end.

Ltac step lem :=
  cbv beta zeta;
  lazymatch goal with |- wp (mbind _ _) _ _ => apply wp_bind | _ => idtac end;
  eapply wp_mono; [lem|];
  let v := fresh "v" in let t := fresh "tr" in let g := fresh "g" in
  let Hv := fresh "Hv" in let Ht := fresh "Ht" in
  intros v [t g]; first [intros (-> & Hv & Ht) | intros [Hv Ht]]; cbn [w_glob w_trace] in *; carry Hv.

(** The end of a test: collect what the steps have printed. *)
Ltac collect := split; [cbn [w_glob]; congruence|]; cbn [w_trace];
  repeat match goal with H : text _ = _ |- _ => rewrite H; clear H end; rewrite ?app_nil_r, <- ?app_assoc; reflexivity.

Section trees.
Context {LB : LIBBSON} {OK : LIBBSON_OK LB}.

(** The value of a tree: nested documents and arrays are encoded. *)
Fixpoint tree_value (t : tree) : bson_value :=
  match t with
  | TInt32 v => V_int32 v
  | TInt64 v => V_int64 v
  | TDouble v => V_double v
  | TStr s => V_utf8 (u32 (Z.of_nat (String.length s))) (Some s)
  | TArr ts => let c := keyed (tree_value <$> ts) in V_array (enc c) (Z.of_nat (length (enc c)))
  | TDoc fs => let c := (λ f, (f.1, tree_value f.2)) <$> fs in V_document (enc c) (Z.of_nat (length (enc c)))
  end.

Definition fields (fs : list (string * tree)) : content := (λ f, (f.1, tree_value f.2)) <$> fs.

(** The contents of the documents and arrays in a tree. *)
Fixpoint parts (t : tree) : list content :=
  match t with
  | TArr ts => keyed (tree_value <$> ts) :: concat (parts <$> ts)
  | TDoc fs => fields fs :: concat ((λ f, parts f.2) <$> fs)
  | _ => []
  end.

(** The documents of a tree, as limits. *)
Definition tree_limits (t : tree) : limits := mk_limits (λ c, c ∈ parts t) (λ _, False).

(** The documents that the tests build, and the limits of their beginnings and of buffers
    with up to two of them. *)
Definition test_contents : list content :=
  [fields doc1_tree; fields doc2_tree; fields nested_tree; fields doc3_tree; fields doc4_tree;
   fields nested5_tree; fields doc5_tree; fields (doc6_tree 0); fields (doc6_tree 1);
   keyed (tree_value <$> arr2_tree); keyed (tree_value <$> arr4_tree); keyed (tree_value <$> arr5_tree)].

Definition test_limits : limits := mk_limits
  (λ c, ∃ c', c' ∈ test_contents ∧ c `prefix_of` c')
  (λ b, ∃ cs, cs ⊆ test_contents ∧ (length cs ≤ 2)%nat ∧ b = encoded cs).

End trees.

Section specs.
Context {os : OS} {LB : LIBBSON} {OK : LIBBSON_OK LB} {JS : LIBBSON_JSON LB OK} (fuel : nat).
Context (L : limits) (Hcalm : ¬ trouble L).
Implicit Types (g : bs_mem) (tr : list event) (V : bview).

(** The library is in the state [V] and the lines [l] have been printed since [tr]. *)
Definition said (V : bview) (tr : list event) (l : list line) (w : world bs_mem) : Prop :=
  view (bl (w_glob w)) = V ∧ text (w_trace w) = text tr ++ l.

(** A loop that prints the elements of a list. *)
Lemma print_loop {X} V (xs : list X) (sh : nat → X → list line) (body : Z → unit → M (world bs_mem) unit) tr g :
  (∀ k x tr g, xs !! k = Some x → view (bl g) = V → wp (body (Z.of_nat k) tt) (λ _ w, said V tr (sh k x) w) (mk_world tr g)) →
  view (bl g) = V → wp (for_range (length xs) 0 body tt) (λ _ w, said V tr (concat (imap sh xs)) w) (mk_world tr g).
Proof using Type.
  intros Hb Hv. eapply wp_mono.
  - apply (wp_for_range (λ i _ w, said V tr (concat (imap sh (take (Z.to_nat i) xs))) w)).
    + split; [done|]. cbn. by rewrite app_nil_r.
    + intros i [] [tr1 g1] Hi [Hv1 Ht1]. cbn [w_glob w_trace] in *.
      destruct (lookup_lt_is_Some_2 xs (Z.to_nat i)) as [x Hx]; [lia|].
      replace i with (Z.of_nat (Z.to_nat i)) at 1 by lia.
      eapply wp_mono; [by apply (Hb _ x)|]. intros [] w [Hv2 Ht2]. split; [done|]. rewrite Ht2, Ht1.
      replace (Z.to_nat (i + 1)) with (S (Z.to_nat i)) by lia. rewrite (take_S_r _ _ _ Hx), imap_app. cbn [imap].
      rewrite concat_app. cbn. rewrite length_take, Nat.min_l by (apply lookup_lt_Some in Hx; lia).
      by rewrite Nat.add_0_r, app_nil_r, <- app_assoc.
  - intros [] w. by rewrite Z.add_0_l, Nat2Z.id, firstn_all.
Qed.

Lemma say_wp fmt args tr g : wp (say fmt args) (λ _ w, said (view (bl g)) tr [(fmt, args)] w) (mk_world tr g).
Proof using Type. apply wp_sys_. intros r _. by split. Qed.

Lemma value_free_wp v tr g : wp (bson_value_free v) (λ _ w, said (view (bl g)) tr [] w) (mk_world tr g).
Proof using JS. unfold bson_value_free, lib_, set_bl. wp_run. split; cbn; [apply value_destroy_ok|by rewrite app_nil_r]. Qed.

(** A tree whose nesting and widths the fuel covers. *)
Definition fits (d : nat) (t : tree) : Prop :=
  (tree_depth t ≤ d)%nat ∧ (tree_width t < fuel)%nat ∧ Z.of_nat (tree_width t) < 2 ^ 31.

Lemma fits_arr d ts k t : fits (S d) (TArr ts) → ts !! k = Some t → fits d t.
Proof using Type.
  intros (H1 & H2 & H3) Ht%list_elem_of_lookup_2. cbn in *.
  pose proof (max_list_elem_of_le (tree_depth t) (tree_depth <$> ts) ltac:(by apply list_elem_of_fmap_2)).
  pose proof (max_list_elem_of_le (tree_width t) (tree_width <$> ts) ltac:(by apply list_elem_of_fmap_2)).
  split; [lia|]. split; lia.
Qed.

Lemma fits_doc d fs k f : fits (S d) (TDoc fs) → fs !! k = Some f → fits d f.2.
Proof using Type.
  intros (H1 & H2 & H3) Hf%list_elem_of_lookup_2. cbn in *.
  pose proof (max_list_elem_of_le (tree_depth f.2) ((λ f, tree_depth f.2) <$> fs) ltac:(by apply (list_elem_of_fmap_2 (λ f, tree_depth f.2)))).
  pose proof (max_list_elem_of_le (tree_width f.2) ((λ f, tree_width f.2) <$> fs) ltac:(by apply (list_elem_of_fmap_2 (λ f, tree_width f.2)))).
  split; [lia|]. split; lia.
Qed.

(** A tree that the printer can show: the fuel covers it and its documents are small. *)
Definition ready (d : nat) (t : tree) : Prop := fits d t ∧ Forall (small_doc L) (parts t).

Lemma ready_arr d ts k t : ready (S d) (TArr ts) → ts !! k = Some t → ready d t.
Proof using Type.
  intros [Hf Hs] Ht. split; [by eapply fits_arr|]. cbn in Hs. apply list.Forall_cons in Hs as [_ Hs].
  rewrite Forall_concat, list.Forall_fmap in Hs. exact (Forall_lookup_1 _ _ _ _ Hs Ht).
Qed.

Lemma ready_doc d fs k f : ready (S d) (TDoc fs) → fs !! k = Some f → ready d f.2.
Proof using Type.
  intros [Hf Hs] Ht. split; [by eapply fits_doc|]. cbn in Hs. apply list.Forall_cons in Hs as [_ Hs].
  rewrite Forall_concat, list.Forall_fmap in Hs. exact (Forall_lookup_1 _ _ _ _ Hs Ht).
Qed.

Lemma ready_top d t : ready d t → match t with
  | TArr ts => small_doc L (keyed (tree_value <$> ts)) | TDoc fs => small_doc L (fields fs) | _ => True end.
Proof using Type. intros [_ Hs]. destruct t; try done; cbn in Hs; by apply list.Forall_cons in Hs as [? _]. Qed.

Lemma slot_get_some {A} (xs : list A) k x : xs !! k = Some x → mjoin (slot_get (Some <$> xs) (Z.of_nat k)) = Some x.
Proof using Type.
  intros Hx. unfold slot_get. replace (0 <=? Z.of_nat k) with true by lia. by rewrite Nat2Z.id, list_lookup_fmap, Hx.
Qed.

(** Listing a document whose values the printer can show. *)
Lemma elements_says d print fs doc tr g :
  (∀ t tr g, ready d t → wp (print (tree_value t)) (λ _ w, said (view (bl g)) tr (tree_lines t) w) (mk_world tr g)) →
  ready (S d) (TDoc fs) → doc ≠ NULL → docs (view (bl g)) !! doc = Some (fields fs) →
  wp (elements_with fuel print doc) (λ _ w, said (view (bl g)) tr (doc_lines fs) w) (mk_world tr g).
Proof using Hcalm JS.
  intros Hp Hfit Hn Hd. assert (Hlen : length (fields fs) = length fs) by (apply length_fmap).
  pose proof (proj1 Hfit) as (_ & Hw & Hz). cbn in Hw, Hz. unfold elements_with. apply wp_bind.
  eapply wp_mono; [apply wp_mute; [apply mute_get_elements|apply (get_elements_wp fuel L doc (fields fs) tr g Hn Hd)]|].
  - intros tr' n E. by apply Hcalm, (no_memory L tr' (Malloc n)).
  - lia.
  - lia.
  - exact (ready_top _ _ Hfit).
  - intros [[code n] arr] [tr1 g1] [[Hg [(-> & -> & Harr)|[_ Ht]]] Htx]; [|by destruct (Hcalm Ht)].
    cbn [w_glob w_trace] in *. subst g1. cbn [bson_code]. change (0 <? 0) with false. cbv iota. rewrite Nat2Z.id, Hlen. apply wp_bind.
    unfold doc_lines. eapply wp_mono.
    { rewrite <- (length_fmap (λ f, (f.1, tree_lines f.2)) fs). apply (print_loop (view (bl g)) _ element_lines); [|reflexivity].
      intros k x tr2 g2 Hx Hv2. apply list_lookup_fmap_Some in Hx as (f & -> & Hf).
      destruct Harr as [[Hnil _]|[p ->]]; [apply (f_equal length) in Hnil; rewrite Hlen in Hnil; apply lookup_lt_Some in Hf; cbn in Hnil; lia|].
      cbn [expect]. apply wp_bind, wp_ret. cbv beta iota. rewrite list_fmap_compose, (slot_get_some _ k (element_of (f.1, tree_value f.2))).
      2: { unfold fields. by rewrite !list_lookup_fmap, Hf. }
      apply wp_bind, wp_ret, wp_bind, wp_sys_. intros r1 _. cbn [element_of key val fst snd expect]. apply wp_bind, wp_ret, wp_bind, wp_sys_. intros r2 _.
      apply wp_bind. eapply wp_mono; [apply (Hp f.2); by eapply ready_doc|]. intros [] [tr3 g3] [Hv3 Ht3].
      eapply wp_mono; [apply value_free_wp|]. intros [] w [Hv4 Ht4]. cbn [w_glob w_trace] in *. split; [congruence|].
      rewrite Ht4, Ht3. cbn [text element_lines]. rewrite app_nil_r. by rewrite <- !app_assoc. }
    intros [] [tr2 g2] [Hv2 Ht2]. cbn [w_glob w_trace] in *. apply wp_sys_. intros r _. split; [done|]. cbn. congruence.
Qed.

(** Printing a value prints its tree and leaves no document behind. *)
Lemma print_value_says d t tr g : ready d t →
  wp (print_bson_value fuel d (tree_value t)) (λ _ w, said (view (bl g)) tr (tree_lines t) w) (mk_world tr g).
Proof using Hcalm JS.
  revert t tr g. induction d as [|d IH]; intros t tr g Hfit; [destruct Hfit as [[H _] _]; destruct t; cbn in H; lia|].
  destruct t as [v|v|v|s|ts|fs]; cbn [print_bson_value tree_value]; [apply say_wp..| | |].
  - cbn [expect]. apply wp_bind, wp_ret. apply say_wp.
  - apply wp_bind. eapply wp_mono; [apply say_wp|]. intros [] [tr1 g1] [Hv1 Ht1]. cbn [w_glob w_trace] in *.
    pose proof (proj1 Hfit) as (_ & Hw & Hz). cbn in Hw, Hz. apply wp_bind.
    assert (Hl : length (tree_value <$> ts) = length ts) by apply length_fmap.
    eapply wp_mono; [apply wp_mute; [apply mute_get_array|apply (get_array_wp fuel L (tree_value <$> ts))]|].
    + lia.
    + lia.
    + by rewrite Nat2Z.id, firstn_all.
    + exact (ready_top _ _ Hfit).
    + intros [[ret n] arr] [tr2 g2] [[Hv2 [(-> & -> & Harr)|[_ Ht]]] Htx]; [|by destruct (Hcalm Ht)]. cbn [w_glob w_trace] in *.
      cbn [bson_code]. change (0 <? 0) with false. cbv iota. apply wp_bind, wp_ret, wp_bind. rewrite Nat2Z.id, Hl.
      eapply wp_mono.
      { apply (print_loop (view (bl g)) ts (λ _, tree_lines)); [|congruence]. intros k t tr3 g3 Ht Hv3.
        destruct Harr as [[Hnil _]|[p ->]]; [apply (f_equal length) in Hnil; rewrite Hl in Hnil; apply lookup_lt_Some in Ht; cbn in Hnil; lia|].
        cbn [expect]. apply wp_bind, wp_ret. cbv beta iota. rewrite (slot_get_some _ k (tree_value t)) by (by rewrite list_lookup_fmap, Ht).
        apply wp_bind, wp_ret, wp_bind. eapply wp_mono; [apply IH; by eapply ready_arr|]. intros [] [tr4 g4] [Hv4 Ht4].
        eapply wp_mono; [apply value_free_wp|]. intros [] w [Hv5 Ht5]. cbn [w_glob w_trace] in *. split; [congruence|].
        by rewrite Ht5, Ht4, app_nil_r. }
      intros [] [tr3 g3] [Hv3 Ht3]. cbn [w_glob w_trace] in *. apply wp_sys_. intros r _. split; [done|]. cbn.
      rewrite Ht3, Htx, Ht1, <- app_assoc. cbn. do 3 f_equal. apply list_eq. intros i. by rewrite list_lookup_imap, list_lookup_fmap.
  - apply wp_bind. eapply wp_mono; [apply say_wp|]. intros [] [tr1 g1] [Hv1 Ht1]. cbn [w_glob w_trace] in *.
    fold (fields fs). unfold bson_value_get_doc. change (guard (true = true);; ?x) with x. cbn [v_doc expect].
    rewrite Nat2Z.id, firstn_all. apply wp_bind, wp_bind, wp_ret, wp_bind, wp_lib. intros doc l Hnew.
    destruct (new_from_data_ok _ _ _ _ Hnew) as [[-> _]|(Hd & Hfr & Hv)].
    { destruct Hcalm. eapply (no_document_from L (fields fs) (bl g1)); [exact (ready_top _ _ Hfit)|by rewrite Hnew]. }
    rewrite (proj2 (Z.eqb_neq _ _) Hd). apply wp_ret. cbn [bson_code]. change (0 <? 0) with false. cbv beta iota.
    apply wp_bind, wp_ret, wp_bind.
    eapply wp_mono; [apply (elements_says d _ fs doc); [done|done|done|cbn; rewrite Hv; apply lookup_insert_eq]|].
    intros [] [tr2 g2] [Hv2 Ht2]. cbn [w_glob w_trace bl] in *. unfold bson_doc_destroy, lib_, set_bl.
    rewrite (proj2 (Z.eqb_neq _ _) Hd). wp_run. split; cbn [w_glob w_trace bl].
    + rewrite destroy_ok by (rewrite Hv2, Hv; cbn; rewrite lookup_insert_eq; by eexists). rewrite Hv2, Hv. cbn.
      rewrite delete_insert_id by done. rewrite <- Hv1. by destruct (view (bl g1)).
    + rewrite Ht2, Ht1, <- app_assoc. done.
Qed.

(** *** The steps of the tests *)

Context (depth : nat) (u : bson_value).

Lemma set_str_wp s tr g : wp (set_str u s) (λ v w, v = tree_value (TStr s) ∧ said (view (bl g)) tr [] w) (mk_world tr g).
Proof using Hcalm.
  unfold set_str, bson_value_set_str, strdup. wp_run. cbn [stored default snd]. rewrite Hr. cbn [tree_value].
  destruct (r_ret _ =? NULL) eqn:E.
  { destruct Hcalm. eapply (no_memory L tr (Malloc _)); [done|by apply Z.eqb_eq]. }
  split; [done|]. split; [done|]. cbn. by rewrite app_nil_r.
Qed.

Lemma set_tree_array_wp ts tr g : (length ts < fuel)%nat → Z.of_nat (length (enc (keyed (tree_value <$> ts)))) < 2 ^ 32 →
  buildable L (keyed (tree_value <$> ts)) → (∀ i, small_buf L (encoded (take i [keyed (tree_value <$> ts)]))) →
  wp (set_array fuel u (tree_value <$> ts)) (λ v w, v = tree_value (TArr ts) ∧ said (view (bl g)) tr [] w) (mk_world tr g).
Proof using Hcalm.
  intros Hf He Hb Hbuf. unfold set_array. apply wp_bind.
  eapply wp_mono; [apply wp_mute; [apply mute_set_array|apply (set_array_wp fuel L); [by rewrite length_fmap|done..]]|].
  intros r [tr1 g1] [(_ & Hv & [->|(_ & _ & Ht)]) Htx]; [|by destruct (Hcalm Ht)]. cbn [w_glob w_trace] in *. apply wp_ret.
  split; [done|]. split; [done|]. cbn. by rewrite app_nil_r.
Qed.

Lemma set_tree_doc_wp doc fs tr g : doc ≠ NULL → docs (view (bl g)) !! doc = Some (fields fs) → (length fs < fuel)%nat →
  Z.of_nat (length (enc (fields fs))) < 2 ^ 32 →
  buildable L (fields fs) → (∀ i, small_buf L (encoded (take i [fields fs]))) →
  wp (set_doc fuel u doc) (λ v w, v = tree_value (TDoc fs) ∧ said (view (bl g)) tr [] w) (mk_world tr g).
Proof using Hcalm.
  intros Hn Hd Hf He Hbd Hbf. unfold set_doc, bson_value_set_doc. rewrite (proj2 (Z.eqb_neq _ _) Hn). apply wp_bind, wp_bind.
  eapply wp_mono; [apply wp_mute; [apply mute_write|apply (write_to_buffer_wp fuel L _ _ [doc] [fields fs])]|].
  - by repeat constructor.
  - constructor; [|constructor]. unfold fields. by rewrite length_fmap.
  - by repeat constructor.
  - done.
  - done.
  - intros [ret [buf len]] [tr1 g1] [(_ & Hv & Hr) Htx]. cbn [w_glob w_trace] in *.
    destruct Hr as [(-> & _ & -> & Hb)|(_ & _ & _ & Ht)]; [|by destruct (Hcalm Ht)].
    cbn [bson_code]. change (0 <? 0) with false. cbv beta iota. wp_run. cbn [w_glob]. rewrite Hb, lookup_insert_eq. wp_run.
    cbn [stored default snd tree_value]. fold (fields fs). unfold encoded. cbn. rewrite app_nil_r, u32_small by lia.
    split; [done|]. split; [done|]. cbn. by rewrite app_nil_r.
Qed.

Lemma free_all_wp vs tr g : wp (free_all vs) (λ _ w, said (view (bl g)) tr [] w) (mk_world tr g).
Proof using JS.
  revert tr g. induction vs as [|v vs IH]; intros tr g; cbn.
  - apply wp_ret. split; [done|]. by rewrite app_nil_r.
  - apply wp_bind. eapply wp_mono; [apply value_free_wp|]. intros [] [tr1 g1] [Hv Ht]. cbn [w_glob w_trace] in *.
    eapply wp_mono; [apply IH|]. intros [] w [Hv2 Ht2]. split; [congruence|]. by rewrite Ht2, Ht, !app_nil_r.
Qed.

Lemma has_doc_lookup V doc c V' : has_doc V doc c V' → docs V' !! doc = Some c.
Proof using Type. intros (_ & _ & ->). apply lookup_insert_eq. Qed.

Lemma doc_destroy_wp V doc c tr g : has_doc V doc c (view (bl g)) →
  wp (bson_doc_destroy doc) (λ _ w, said V tr [] w) (mk_world tr g).
Proof using Type.
  intros Hh. pose proof (has_doc_lookup _ _ _ _ Hh) as Hd. destruct Hh as (Hn & Hf & Hv).
  unfold bson_doc_destroy, lib_, set_bl. rewrite (proj2 (Z.eqb_neq _ _) Hn). wp_run. split; cbn; [|by rewrite app_nil_r].
  rewrite destroy_ok by (by eexists). rewrite Hv. unfold with_docs. cbn. rewrite delete_insert_id by done. by destruct V.
Qed.

Lemma create_doc_wp failed cleanup fs earr next (Q : unit → world bs_mem → Prop) tr g :
  earr = element_of <$> fields fs → buildable L (fields fs) →
  (∀ doc tr' g', has_doc (view (bl g)) doc (fields fs) (view (bl g')) → text tr' = text tr →
     wp (next doc (json_of (fields fs))) Q (mk_world tr' g')) →
  wp (create_doc failed cleanup earr next) Q (mk_world tr g).
Proof using Hcalm JS.
  intros -> Hb Hnext. unfold create_doc. apply wp_bind. rewrite length_fmap.
  eapply wp_mono; [apply wp_mute; [apply mute_doc_create|apply (doc_create_wp L)]|].
  { intros l E. by apply Hcalm, (no_document L l). }
  { done. }
  intros [ret doc] [tr1 g1] [(Hn & Hf & [[-> Hv]|(_ & _ & Ht)]) Htx]; [|by destruct (Hcalm Ht)]. cbn [w_glob w_trace] in *.
  assert (Hh : has_doc (view (bl g)) doc (fields fs) (view (bl g1))) by (by split).
  cbn [bson_code]. change (0 <? 0) with false. cbv beta iota. unfold bson_to_json. rewrite (proj2 (Z.eqb_neq _ _) Hn). cbn [orb negb].
  unfold lib_read. apply wp_bind, wp_bind, wp_bind, wp_get_glob, wp_ret. rewrite (json_ok _ _ _ (has_doc_lookup _ _ _ _ Hh)).
  apply wp_ret. cbn [bson_code]. change (0 <? 0) with false. cbv beta iota. apply wp_bind, wp_ret. by apply Hnext.
Qed.

Context (Hfuel : (4 < fuel)%nat) (Hdepth : (3 ≤ depth)%nat).
Context (Hbuild : Forall (buildable L) test_contents).
Context (Hbuf : ∀ cs, cs ⊆ test_contents → (length cs ≤ 2)%nat → small_buf L (encoded cs)).

(** The [k]-th document of the tests is within the limits. *)
Lemma known k c : test_contents !! k = Some c → buildable L c.
Proof using Hbuild. intros H. exact (Forall_lookup_1 _ _ _ _ Hbuild H). Qed.

Lemma known_small k c : test_contents !! k = Some c → small_doc L c.
Proof using Hbuild. intros H. by apply (known k c). Qed.

Lemma known_buf k c : test_contents !! k = Some c → ∀ i, small_buf L (encoded (take i [c])).
Proof using Hbuf.
  intros H%list_elem_of_lookup_2 i. apply Hbuf.
  - intros x Hx. apply subseteq_take in Hx. by apply list_elem_of_singleton in Hx as ->.
  - rewrite length_take. clear. cbn. lia.
Qed.

(** The line a test prints a document's JSON with. *)
Definition json_line (fmt : string) (fs : list (string * tree)) : line := (fmt, codes (json_of (fields fs))).

(** What tests 1 to 5 print of their document. *)
Definition shown (fs : list (string * tree)) (passed : string) : list line :=
  json_line "json : %s" fs :: doc_lines fs ++ [(passed, [])].

Lemma print_elements_wp V fs doc tr g : ready (S depth) (TDoc fs) → has_doc V doc (fields fs) (view (bl g)) →
  wp (print_bson_elements fuel depth doc) (λ _ w, said (view (bl g)) tr (doc_lines fs) w) (mk_world tr g).
Proof using Hcalm JS.
  intros Hf Hh. pose proof (has_doc_lookup _ _ _ _ Hh) as Hd. destruct Hh as (Hn & _).
  apply (elements_says depth); [apply print_value_says|done|done|done].
Qed.

Lemma outer_wp failed passed k t tr g : let fs := [me; (k, t)] in ready (S depth) (TDoc fs) → buildable L (fields fs) →
  wp (outer fuel depth failed passed k (tree_value (TStr "Mohit Singh")) (tree_value t))
     (λ _ w, said (view (bl g)) tr (shown fs passed) w) (mk_world tr g).
Proof using Hcalm JS.
  intros fs Hf Hb. apply (create_doc_wp _ _ fs); [done|done|]. intros doc tr1 g1 Hh Ht1.
  step ltac:(apply say_wp). step ltac:(apply free_all_wp). step ltac:(eapply print_elements_wp; [exact Hf|exact Hh]).
  step ltac:(eapply doc_destroy_wp; exact Hh). step ltac:(apply say_wp). collect.
Qed.

Lemma nested_wp failed next (Q : unit → world bs_mem → Prop) tr g :
  (∀ doc tr' g', has_doc (view (bl g)) doc (fields nested_tree) (view (bl g')) →
     text tr' = text tr ++ [json_line "nested json : %s" nested_tree] → wp (next doc) Q (mk_world tr' g')) →
  wp (nested u failed next) Q (mk_world tr g).
Proof using Hcalm JS Hbuild.
  intros Hnext. unfold nested. step ltac:(apply set_str_wp).
  apply (create_doc_wp _ _ nested_tree); [done|by apply (known 2)|]. intros doc tr2 g2 Hh Ht2.
  step ltac:(apply say_wp). step ltac:(apply free_all_wp). apply Hnext; [by rewrite <- Hv|].
  repeat match goal with H : text _ = _ |- _ => rewrite H; clear H end. by rewrite !app_nil_r.
Qed.

(** The contents that the tests store inside others. *)
Definition stored_contents : list content :=
  [keyed (tree_value <$> arr2_tree); fields nested_tree; keyed (tree_value <$> arr4_tree);
   keyed (tree_value <$> arr5_tree); fields nested5_tree].

Context (Hsmall : Forall (λ c, Z.of_nat (length (enc c)) < 2 ^ 32) stored_contents).

Lemma small k c : stored_contents !! k = Some c → Z.of_nat (length (enc c)) < 2 ^ 32.
Proof using Hsmall. intros H. exact (Forall_lookup_1 _ _ _ _ Hsmall H). Qed.

Lemma ready_small fs : (tree_depth (TDoc fs) ≤ 4)%nat → (tree_width (TDoc fs) ≤ 4)%nat →
  Forall (small_doc L) (parts (TDoc fs)) → ready (S depth) (TDoc fs).
Proof using Hfuel Hdepth. intros H1 H2 H3. split; [|done]. split; [lia|]. split; lia. Qed.

(** Close a goal about the documents of a tree of the tests. *)
Ltac all_known := cbn [parts concat fmap list_fmap app fst snd third_fourth];
  repeat (constructor; [solve [eapply (known_small 1); reflexivity|eapply (known_small 2); reflexivity|eapply (known_small 3); reflexivity|
    eapply (known_small 4); reflexivity|eapply (known_small 5); reflexivity|eapply (known_small 6); reflexivity|eapply (known_small 0); reflexivity|
    eapply (known_small 9); reflexivity|eapply (known_small 10); reflexivity|eapply (known_small 11); reflexivity]|]); constructor.

Ltac print_step Hh := step ltac:(eapply print_elements_wp; [|exact Hh]; apply ready_small; [cbn; lia|cbn; lia|all_known]).
Ltac doc_step doc fs Hh k j := step ltac:(apply (set_tree_doc_wp doc fs);
  [apply Hh|by eapply has_doc_lookup|cbn; lia|by apply (small k)|by apply (known j)|by apply (known_buf j)]).
Ltac array_step ts k j := step ltac:(apply (set_tree_array_wp ts); [cbn; lia|by apply (small k)|by apply (known j)|by apply (known_buf j)]).
Ltac str_step := step ltac:(apply set_str_wp).
Ltac destroy_step Hh := step ltac:(eapply doc_destroy_wp; exact Hh).
Ltac outer_step k t j := step ltac:(apply (outer_wp _ _ k t); [apply ready_small; [cbn; lia|cbn; lia|all_known]|by apply (known j)]).

Lemma test1_wp tr g : wp (test1 fuel depth u) (λ _ w, said (view (bl g)) tr (shown doc1_tree "Test1 PASSED") w) (mk_world tr g).
Proof using Hcalm JS Hfuel Hdepth Hbuild Hbuf.
  unfold test1. str_step. apply (create_doc_wp _ _ doc1_tree); [done|by apply (known 0)|]. intros doc tr2 g2 Hh Ht2.
  step ltac:(apply value_free_wp). step ltac:(apply say_wp). print_step Hh. step ltac:(apply say_wp). destroy_step Hh. collect.
Qed.

Lemma test2_wp tr g : wp (test2 fuel depth u) (λ _ w, said (view (bl g)) tr (shown doc2_tree "Test2 PASSED") w) (mk_world tr g).
Proof using Hcalm JS Hfuel Hdepth Hbuild Hbuf Hsmall.
  unfold test2. do 3 str_step. array_step arr2_tree 0%nat 9%nat.
  apply (create_doc_wp _ _ doc2_tree); [done|by apply (known 1)|]. intros doc tr5 g5 Hh Ht5.
  step ltac:(apply free_all_wp). step ltac:(apply say_wp). print_step Hh. step ltac:(apply say_wp). destroy_step Hh. collect.
Qed.

(** The lines of tests 3 to 5. *)
Definition shown_nested (inner fs : list (string * tree)) (passed : string) : list line :=
  json_line "nested json : %s" inner :: shown fs passed.

Lemma test3_wp tr g : wp (test3 fuel depth u) (λ _ w, said (view (bl g)) tr (shown_nested nested_tree doc3_tree "Test3 PASSED") w) (mk_world tr g).
Proof using Hcalm JS Hfuel Hdepth Hbuild Hbuf Hsmall.
  apply nested_wp. intros doc tr1 g1 Hh Ht1. str_step. doc_step doc nested_tree Hh 1%nat 2%nat. destroy_step Hh.
  outer_step "key_doc"%string (TDoc nested_tree) 3%nat. collect.
Qed.

Lemma test4_wp tr g : wp (test4 fuel depth u) (λ _ w, said (view (bl g)) tr (shown_nested nested_tree doc4_tree "Test4 PASSED") w) (mk_world tr g).
Proof using Hcalm JS Hfuel Hdepth Hbuild Hbuf Hsmall.
  apply nested_wp. intros doc tr1 g1 Hh Ht1. doc_step doc nested_tree Hh 1%nat 2%nat. do 2 str_step. destroy_step Hh. str_step.
  array_step arr4_tree 2%nat 10%nat. step ltac:(apply free_all_wp). outer_step "key_array"%string (TArr arr4_tree) 4%nat. collect.
Qed.

Lemma test5_wp tr g : wp (test5 fuel depth u) (λ _ w, said (view (bl g)) tr (shown_nested nested5_tree doc5_tree "Test5 PASSED") w) (mk_world tr g).
Proof using Hcalm JS Hfuel Hdepth Hbuild Hbuf Hsmall.
  unfold test5. do 3 str_step. array_step arr5_tree 3%nat 11%nat.
  apply (create_doc_wp _ _ nested5_tree); [done|by apply (known 5)|]. intros doc tr5 g5 Hh Ht5.
  step ltac:(apply say_wp). step ltac:(apply free_all_wp). str_step. doc_step doc nested5_tree Hh 4%nat 5%nat. destroy_step Hh.
  outer_step "key_doc"%string (TDoc nested5_tree) 6%nat. collect.
Qed.

(** *** Test 6 *)

Lemma make_round_wp V i ps cs m tr g : 0 ≤ i < 2 ^ 31 → buildable L (fields (doc6_tree i)) → view (bl g) = with_docs V m → added (docs V) ps cs m →
  wp (make_round u i ps) (λ r w, ∃ d m', r = Some (ps ++ [d]) ∧
    added (docs V) (ps ++ [d]) (cs ++ [fields (doc6_tree i)]) m' ∧
    said (with_docs V m') tr [json_line "json : %s" (doc6_tree i)] w) (mk_world tr g).
Proof using Hcalm JS Hfuel Hdepth Hbuild Hbuf.
  intros Hi Hb Hm Ha. unfold make_round. str_step. apply wp_bind.
  assert (E : [elem "key_int32" (set_int32 u i); elem "key_int64" (set_int64 u i); elem "key_double" (set_double u d_3_14159);
    elem "key_string" (tree_value (TStr "Mohit Singh"))] = element_of <$> fields (doc6_tree i)).
  { unfold set_int32, set_int64, stored. cbn. rewrite (sgn_small 32), (sgn_small 64) by lia. done. }
  rewrite E. eapply wp_mono; [apply wp_mute; [apply mute_doc_create|apply (doc_create_wp L (fields (doc6_tree i)))]|].
  { intros l El. by apply Hcalm, (no_document L l). }
  { done. }
  intros [ret d] [tr1 g1] [(Hn & Hf & [[-> Hv1]|(_ & _ & Htr)]) Htx]; [|by destruct (Hcalm Htr)]. cbn [w_glob w_trace] in *.
  cbn [bson_code]. change (0 <? 0) with false. cbv beta iota zeta. step ltac:(apply free_all_wp).
  assert (Hd : docs (view (bl g2)) !! d = Some (fields (doc6_tree i))) by (rewrite Hv0, Hv1; apply lookup_insert_eq).
  unfold bson_to_json. rewrite (proj2 (Z.eqb_neq _ _) Hn). cbn [orb negb]. unfold lib_read.
  apply wp_bind, wp_bind, wp_bind, wp_get_glob, wp_ret. rewrite (json_ok _ _ _ Hd). apply wp_ret. apply wp_bind, wp_ret, wp_bind.
  eapply wp_mono; [apply say_wp|]. intros [] w [Hv3 Ht3]. apply wp_ret.
  rewrite Hv, Hm in Hf, Hv1. cbn in Hf. eexists d, _. split; [done|]. split; [by apply added_snoc|].
  split; [by rewrite Hv3, Hv0, Hv1|]. rewrite Ht3, Ht0, Htx, Ht. by rewrite !app_nil_r.
Qed.

(** Destroying added documents, held in a list of the program. *)
Lemma destroy_wp V m d c tr g : d ≠ NULL → view (bl g) = with_docs V m → m !! d = Some c →
  wp (bson_doc_destroy d) (λ _ w, said (with_docs V (delete d m)) tr [] w ∧ arrays (w_glob w) = arrays g ∧ bufs (w_glob w) = bufs g)
     (mk_world tr g).
Proof using Type.
  intros Hn Hv Hd. unfold bson_doc_destroy, lib_, set_bl. rewrite (proj2 (Z.eqb_neq _ _) Hn). wp_run.
  split; [|done]. split; cbn; [|by rewrite app_nil_r]. rewrite destroy_ok by (rewrite Hv; by eexists). by rewrite Hv.
Qed.

Lemma destroy_all_wp V ps m tr g : Forall (λ p, p ≠ NULL) ps → NoDup ps → Forall (λ p, is_Some (m !! p)) ps → view (bl g) = with_docs V m →
  wp (destroy_all ps) (λ _ w, said (with_docs V (without m ps)) tr [] w) (mk_world tr g).
Proof using Type.
  revert m tr g. induction ps as [|p ps IH]; intros m tr g Hn Hd Hm Hv; cbn.
  - apply wp_ret. split; [done|]. by rewrite app_nil_r.
  - apply list.Forall_cons in Hn as [Hp Hn], Hm as [[c Hc] Hm]. apply list.NoDup_cons in Hd as [Hni Hd].
    apply wp_bind. eapply wp_mono; [by eapply (destroy_wp V m)|]. intros [] [tr1 g1] [[Hv1 Ht1] _]. cbn [w_glob w_trace] in *.
    eapply wp_mono; [apply (IH (delete p m)); [done|done| |done]|].
    + apply list.Forall_forall. intros q Hq. rewrite list.Forall_forall in Hm. rewrite lookup_delete_ne; [by apply Hm|]. by intros ->.
    + intros [] w [Hv2 Ht2]. split; [done|]. by rewrite Ht2, Ht1, !app_nil_r.
Qed.

(** The two documents of test 6. *)
Definition contents6 : list content := [fields (doc6_tree 0); fields (doc6_tree 1)].

Lemma contents6_known c : c ∈ contents6 → c ∈ test_contents.
Proof using Type.
  intros [->|[->|[]%not_elem_of_nil]%elem_of_cons]%elem_of_cons;
    [apply (list_elem_of_lookup_2 _ 7)|apply (list_elem_of_lookup_2 _ 8)]; reflexivity.
Qed.

(** What test 6 prints. *)
Definition shown6 : list line :=
  [json_line "json : %s" (doc6_tree 0); json_line "json : %s" (doc6_tree 1);
   ("buf_len %lu", [Z.of_nat (length (encoded contents6))]);
   ("parsed_len %lu count %lu", [Z.of_nat (length (encoded contents6)); 2]);
   json_line "json %s" (doc6_tree 0); json_line "json %s" (doc6_tree 1)].

Lemma make_docs_wp tr g : wp (make_docs u (Z.to_nat NUM) 0 []) (λ r w, ∃ ps m, r = Some ps ∧
    added (docs (view (bl g))) ps contents6 m ∧ said (with_docs (view (bl g)) m) tr (take 2 shown6) w) (mk_world tr g).
Proof using Hcalm JS Hfuel Hdepth Hbuild Hbuf.
  change (Z.to_nat NUM) with 2%nat. cbn [make_docs]. apply wp_bind.
  eapply wp_mono; [apply (make_round_wp (view (bl g)) 0 [] [] (docs (view (bl g)))); [lia|by apply (known 7)|by destruct (view (bl g))|constructor]|].
  intros r [tr1 g1] (d0 & m0 & -> & Ha0 & Hv0 & Ht0). cbn [w_glob w_trace app] in *. apply wp_bind.
  eapply wp_mono; [apply (make_round_wp (view (bl g)) 1 [d0] [fields (doc6_tree 0)] m0); [lia|by apply (known 8)|done|done]|].
  intros r [tr2 g2] (d1 & m1 & -> & Ha1 & Hv1 & Ht1). cbn [w_glob w_trace app] in *. apply wp_ret.
  exists [d0; d1], m1. split; [done|]. split; [done|]. split; [done|].
  cbn [w_trace]. by rewrite Ht1, Ht0, <- app_assoc.
Qed.

Lemma doc_at_wp a i qs q tr g : arrays g !! a = Some (Some <$> qs) → 0 ≤ i → qs !! Z.to_nat i = Some q →
  wp (doc_at a i) (λ d w, d = q ∧ w = mk_world tr g) (mk_world tr g).
Proof using Type.
  intros Ha Hi Hq. unfold doc_at. wp_run. rewrite Ha. wp_run. rewrite <- (Z2Nat.id i), (slot_get_some _ _ q) by done. by apply wp_ret.
Qed.

(** The documents that were read are printed and destroyed. *)
Lemma show_read_wp V a q0 q1 m m' tr g : arrays g !! a = Some (Some <$> [q0; q1]) →
  view (bl g) = with_docs V m' → added m [q0; q1] contents6 m' →
  wp (for_range 2 0 (λ i _, d ← doc_at a i; json ← lib_read (bson_as_json d); json ← expect json; say "json %s" (codes json)) tt;;
      for_range 2 0 (λ i _, d ← doc_at a i; bson_doc_destroy d) tt)
     (λ _ w, said (with_docs V m) tr (drop 4 shown6) w) (mk_world tr g).
Proof using JS.
  intros Ha Hv Hadd. pose proof (added_keys _ _ _ _ Hadd) as (Hnd & Hh & Hnn).
  apply list.Forall_cons in Hnn as [Hn0 Hnn]. apply list.Forall_cons in Hnn as [Hn1 _]. pose proof (added_without _ _ _ _ Hadd) as Hw.
  apply list.Forall2_cons in Hh as [Hd0 Hh]. apply list.Forall2_cons in Hh as [Hd1 _]. cbn in Hw.
  assert (Hne : q1 ≠ q0) by (apply list.NoDup_cons in Hnd as [Hni _]; intros ->; apply Hni; left).
  cbn [for_range]. unfold lib_read.
  apply wp_bind, wp_bind, wp_bind. eapply wp_mono; [by apply (doc_at_wp _ _ [q0; q1] q0)|]. intros _ _ [-> ->].
  apply wp_bind, wp_bind, wp_get_glob, wp_ret. rewrite (json_ok _ q0 (fields (doc6_tree 0))) by (by rewrite Hv).
  apply wp_bind, wp_ret, wp_sys_. intros r0 _.
  apply wp_bind, wp_bind. eapply wp_mono; [by apply (doc_at_wp _ _ [q0; q1] q1)|]. intros _ _ [-> ->].
  apply wp_bind, wp_bind, wp_get_glob, wp_ret. rewrite (json_ok _ q1 (fields (doc6_tree 1))) by (by rewrite Hv).
  apply wp_bind, wp_ret, wp_sys_. intros r1 _. apply wp_ret.
  apply wp_bind, wp_bind. eapply wp_mono; [by apply (doc_at_wp _ _ [q0; q1] q0)|]. intros _ _ [-> ->].
  eapply wp_mono; [by eapply (destroy_wp V m')|]. intros [] [tr1 g1] [[Hv1 Ht1] [Ha1 _]]. cbn [w_glob w_trace] in *.
  apply wp_bind, wp_bind. eapply wp_mono; [apply (doc_at_wp _ _ [q0; q1] q1); [by rewrite Ha1|done|done]|]. intros _ _ [-> ->].
  eapply wp_mono; [eapply (destroy_wp V (delete q0 m')); [done|done|by rewrite lookup_delete_ne]|].
  intros [] [tr2 g2] [[Hv2 Ht2] _]. cbn [w_glob w_trace] in *. apply wp_ret. rewrite Hw in Hv2. split; [done|].
  cbn [w_trace]. rewrite Ht2, Ht1. cbn [text]. by rewrite !app_nil_r, <- app_assoc.
Qed.

Lemma test6_wp tr g : (∀ tr, r_ret (os_answer tr (Ext "fopen ./datafile" [])) ≠ NULL) →
  wp (test6 fuel u) (λ _ w, said (view (bl g)) tr shown6 w) (mk_world tr g).
Proof using Hcalm JS Hfuel Hdepth Hbuild Hbuf.
  intros Hopen. unfold test6. apply wp_bind. eapply wp_mono; [apply make_docs_wp|].
  intros r [tr1 g1] (ps & m & -> & Ha & Hv1 & Ht1). cbn [w_glob w_trace] in *. pose proof (added_keys _ _ _ _ Ha) as (Hnd & Hh & Hn).
  assert (Hl : NUM = Z.of_nat (length ps)) by (rewrite (Forall2_length Hh); done).
  rewrite Hl. apply wp_bind. eapply wp_mono; [apply wp_mute; [apply mute_write|apply (write_to_buffer_wp fuel L NULL 0 ps contents6)]|].
  { by rewrite Hv1. }
  { repeat constructor; cbn; lia. }
  { constructor; [by apply (known 7)|]. constructor; [by apply (known 8)|constructor]. }
  { intros i. apply Hbuf; [|rewrite length_take; cbn; lia]. intros c Hc%subseteq_take. by apply contents6_known. }
  { done. }
  intros [ret [buf len]] [tr2 g2] [(_ & Hv2 & [(-> & Hb & -> & Hbufs)|(_ & _ & _ & Htr)]) Ht2]; [|by destruct (Hcalm Htr)].
  cbn [w_glob w_trace] in *. cbn [bson_code]. change (0 <? 0) with false. cbv beta iota zeta.
  apply wp_bind, wp_sys_. intros r1 _. apply wp_bind, wp_sys. intros fp Hfp.
  rewrite (proj2 (Z.eqb_neq (r_ret fp) NULL)) by (rewrite Hfp; apply Hopen).
  apply wp_bind, wp_ret, wp_bind, wp_get_glob. rewrite Hbufs, lookup_insert_eq.
  apply wp_bind, wp_ret, wp_bind, wp_sys_. intros r2 _. apply wp_bind, wp_sys_. intros r3 _. apply wp_bind.
  eapply wp_mono; [apply wp_mute; [apply mute_read|]|].
  { rewrite <- (app_nil_r (encoded contents6)) at 1. apply (read_from_buffer_wp fuel L contents6 []); [|done|cbn; lia|].
    - intros tr' p n Hp E. by apply Hcalm, (no_memory L tr' (Realloc p n)).
    - apply Hbuf; [|cbn; lia]. intros c. apply contents6_known. }
  intros [[[ret plen] a] n] [tr3 g3] [[_ [(-> & -> & -> & (qs & Hqs & Hhq & Haq) & Hw3 & Hr3)|(_ & _ & Htr)]] Ht3]; [|by destruct (Hcalm Htr)].
  cbn [w_glob w_trace] in *. cbn [bson_code]. change (0 <? 0) with false. cbv beta iota zeta.
  apply wp_bind, wp_sys_. intros r4 _. change (Z.to_nat (Z.of_nat (length contents6))) with 2%nat.
  pose proof (Forall2_length Hhq) as Hlq. destruct qs as [|q0 [|q1 [|]]]; cbn in Hlq; try lia.
  specialize (Hqs ltac:(done)). rewrite Hv2, Hv1 in Haq, Hw3, Hr3. cbn in Haq, Hw3, Hr3.
  assert (Hv3 : view (bl g3) = with_docs (view (bl g)) (docs (view (bl g3)))).
  { unfold with_docs. rewrite <- Hw3, <- Hr3. by destruct (view (bl g3)). }
  apply wp_bind_assoc, wp_bind.
  eapply wp_mono; [by eapply (show_read_wp (view (bl g)) a q0 q1 m)|]. intros [] [tr4 g4] [Hv4 Ht4]. cbn [w_glob w_trace] in *.
  unfold set_arrays, set_bufs. wp_run. eapply wp_mono; [apply (destroy_all_wp (view (bl g)) ps m); [done|done| |done]|].
  - apply list.Forall_forall. intros p (k & Hk)%list_elem_of_lookup. destruct (Forall2_lookup_l _ _ _ _ _ Hh Hk) as (c & _ & Hc). by eexists.
  - intros [] w [Hv5 Ht5]. rewrite (added_without _ _ _ _ Ha) in Hv5. split; [rewrite Hv5; by destruct (view (bl g))|].
    rewrite Ht5. cbn [text]. rewrite Ht4. cbn [text]. rewrite Ht3. cbn [text]. rewrite Ht2, Ht1, !app_nil_r, <- !app_assoc. done.
Qed.

End specs.

(** ** Theorems *)

(** C20: [print_bson_elements] shows a document of any nesting: for every tree of values that
    fits the fuel, listing a document that holds the encoded tree prints exactly the lines
    of the tree, the keys and values in order and nested arrays and documents in place, and
    every temporary document made on the way has been destroyed: the library is left as it
    was.  Assumed: the library refuses neither to parse nor to iterate over the documents
    of this tree, and memory can be had (a failure makes the code print a NULL message). *)
Theorem document_printed {os : OS} {LB : LIBBSON} {OK : LIBBSON_OK LB} {JS : LIBBSON_JSON LB OK} fuel depth doc fs tr g :
  ¬ trouble (tree_limits (TDoc fs)) → fits fuel (S depth) (TDoc fs) → doc ≠ NULL →
  docs (view (bl g)) !! doc = Some (fields fs) →
  wp (print_bson_elements fuel depth doc) (λ _ w,
    view (bl (w_glob w)) = view (bl g) ∧ text (w_trace w) = text tr ++ doc_lines fs) (mk_world tr g).
Proof.
  intros Hc Hf Hn Hd. apply (elements_says fuel _ Hc depth); [|split; [done|]|done|done].
  - intros t tr' g'. by apply print_value_says.
  - apply list.Forall_forall. by intros c.
Qed.


(** ** Witnesses *)

#[local] Existing Instance bson_os.

#[local] Instance toy_bson_json : LIBBSON_JSON toy_bson toy_bson_ok.
Proof.
  refine (Build_LIBBSON_JSON toy_bson toy_bson_ok toy_json _ _).
  - intros l d c Hd. cbn in *. by rewrite Hd.
  - done.
Defined.

Lemma toy_calm L : ¬ trouble L.
Proof.
  intros [l E|c l _ E|d c k v l Hd _ E|d c l Hd _ E|b n l E|w bytes l Hw _ E|data l _ E|tr c _ E].
  - by destruct (new_ptr_ok (docs l)).
  - cbn in E. rewrite (decode_encode c) in E. by destruct (new_ptr_ok (docs l)).
  - cbn in *. by rewrite Hd in E.
  - cbn in *. by rewrite Hd in E.
  - by destruct (new_ptr_ok (writers l)).
  - cbn in *. unfold toy_begin in E. by rewrite Hw in E.
  - by destruct (new_ptr_ok (readers l)).
  - by destruct (bson_os_answers tr c).
Qed.

Definition demo_tree : list (string * tree) := [("id", TInt32 7); ("list", TArr [TStr "a"; TDoc [("x", TInt64 1)]])].
Definition demo_mem : bs_mem := mk_bs toy_bson (mk_view {[1 := fields demo_tree]} ∅ ∅) ∅ ∅.

Lemma document_printed_witness :
  wp (print_bson_elements 5 3 1) (λ _ w, text (w_trace w) =
    [("%d : ", [0]); ("key = %s", [105; 100]); ("int32 val = %d", [7]);
     ("%d : ", [1]); ("key = %s", [108; 105; 115; 116]); ("arr vals : ", []); ("str val = %s", [97]);
     ("document : ", []); ("%d : ", [0]); ("key = %s", [120]); ("int64 val = %d", [1])]) (mk_world [] demo_mem).
Proof.
  eapply wp_mono; [apply (document_printed 5 3 1 demo_tree [] demo_mem (toy_calm _))|].
  - split; [cbn; lia|]. split; cbn; lia.
  - done.
  - apply lookup_singleton_eq.
  - intros [] w [_ ->]. reflexivity.
Defined.

Lemma toy_enc_small c : Z.of_nat (length (enc c)) < 2 ^ 32.
Proof. done. Qed.

