(* ===== verification/MongoTest.v ===== *)
(** * The test program of the MongoDB API (mongo_api/test/test.c)

    Seven runs of six tests over MongoApi.v: documents are built, a pool of clients is
    opened, requests are sent and everything is given back.  The program was written for
    an earlier version of the BSON API, which is not in the repository, so that making,
    printing and destroying documents are calls of the environment that share the history
    of the client library: the answer is a negative error code or an address.

    The two workers of the second test run at the same time.  A worker is a tree of calls
    ([prog]); [interleave] runs the workers in any order, one call at a time, and a join
    runs what is left of a worker.  [insert_prog] is [mongo_insert_doc] as such a tree,
    which [insert_adequate] proves. *)

From Stdlib Require Import ZArith Lia ZifyBool.
From stdpp Require Import base gmap list strings numbers.
From S2P Require Import Prelude Posix ConnMgr MongoApi.

(** ** Threads as trees of calls *)

Inductive prog (A : Type) :=
| Ret (a : A)
| Stuck
| Call (c : mcall) (k : Z → prog A)
| Read (mpool : Z) (k : Z → prog A).
Arguments Ret {A} _.
Arguments Stuck {A}.
Arguments Call {A} _ _.
Arguments Read {A} _ _.

#[global] Instance prog_ret : MRet prog := λ A a, Ret a.

#[global] Instance prog_bind : MBind prog := λ A B f,
  fix bind p := match p with Ret a => f a | Stuck => Stuck | Call c k => Call c (λ r, bind (k r)) | Read m k => Read m (λ v, bind (k v)) end.

Definition call (c : mcall) : prog Z := Call c Ret.
Definition read_pool (mpool : Z) : prog Z := Read mpool Ret.

(** [mongo_insert_doc] as a tree of calls. *)
Definition insert_prog (mpool : Z) (db_name coll_name : string) (doc : Z) : prog Z :=
  if (mpool =? NULL) || (doc =? NULL) then mret (mongo_code MONGO_ERR_NULL_PARAMS)
  else
    pool ← read_pool mpool;
    client ← call (mongoc_client_pool_pop pool);
    if client =? NULL then mret (mongo_code MONGO_ERR_POOL_POP)
    else
      coll ← call (mongoc_client_get_collection client db_name coll_name);
      if coll =? NULL then
        call (mongoc_client_pool_push pool client);;
        mret (mongo_code MONGO_ERR_COLL_GET)
      else
        ok ← call (mongoc_collection_insert coll doc);
        call (mongoc_client_pool_push pool client);;
        call (mongoc_collection_destroy coll);;
        mret (if ok =? 0 then mongo_code MONGO_ERR_COLL_INSERT else 0).

Definition worker (mpool doc : Z) : prog unit :=
  ret ← insert_prog mpool "test" "test" doc;
  (if ret <? 0 then
     match mongo_err_msg ret with
     | None => Stuck
     | Some msg => call (printf "Error [%d] [%s] in mongo_insert_doc !" (ret :: codes msg));; mret tt
     end
   else mret tt);;
  call (printf "Work Done !!" []);;
  mret tt.

(** The address of a local variable of the program. *)
Definition local_var : Z := 16.

Section code.
Context {lib : MONGOC} (sched : nat → list nat).
Abbreviation MA := (M mworld).

Fixpoint denote {A} (p : prog A) : MA A :=
  match p with
  | Ret a => mret a
  | Stuck => undef
  | Call c k => r ← mcall_ c; denote (k r)
  | Read m k => v ← get_pool m; denote (k v)
  end.

Definition step {A} (p : prog A) : MA (prog A) :=
  match p with
  | Ret a => mret (Ret a)
  | Stuck => undef
  | Call c k => r ← mcall_ c; mret (k r)
  | Read m k => v ← get_pool m; mret (k v)
  end.

(** One step of a thread for each index of the schedule; [None] is a thread that could not
    be created. *)
Fixpoint interleave (order : list nat) (ts : list (option (prog unit))) : MA (list (option (prog unit))) :=
  match order with
  | [] => mret ts
  | i :: order =>
      match ts !! i with
      | Some (Some p) => p ← step p; interleave order (<[i := Some p]> ts)
      | _ => interleave order ts
      end
  end.

Definition say (fmt : string) (args : list Z) : MA unit := mcall_ (printf fmt args);; mret tt.

(** An error line with the message of either API; [%s] of NULL is undefined. *)
Definition complain_bson (fmt : string) (ret : Z) : MA unit :=
  msg ← mcall_ (bson_err_msg ret);
  if msg =? NULL then undef else say fmt [ret; msg].

Definition complain (fmt : string) (ret : Z) : MA unit :=
  msg ← expect (mongo_err_msg ret); say fmt (ret :: codes msg).

Definition destroy_docs (docs : list Z) : MA unit := foldr (λ d m, mcall_ (bson_doc_destroy d);; m) (mret tt) docs.

(** The code around each [bson_doc_create]: [docs] are the documents made before. *)
Definition make_doc (elems : list (string * edata)) (failed label : string) (cleanup : MA unit) (docs : list Z)
    (next : Z → MA unit) : MA unit :=
  r ← mcall_ (bson_doc_create elems);
  if r <? 0 then
    complain_bson "Error [%d] [%s] in bson_create_doc !" r;; say failed [];; destroy_docs docs;; cleanup
  else
    json ← mcall_ (bson_to_json r);
    if json <? 0 then
      complain_bson "Error [%d] [%s] in bson_to_json !" json;; say failed [];; cleanup;; destroy_docs (docs ++ [r])
    else
      say label [json];;
      mcall_ (free json);;
      next r.

(** The code around each [mongo_context_pool_init]. *)
Definition open_pool (min_size max_size : Z) (failed : string) (docs : list Z) (next : Z → MA unit) : MA unit :=
  '(ret, pool) ← mongo_context_pool_init local_var (Some "172.19.13.25") 4999 min_size max_size 1000 2000;
  if ret <? 0 then
    complain "Error [%d] [%s] in mongo_context_pool_init !" ret;; say failed [];; destroy_docs docs;; mongo_api_cleanup
  else p ← expect pool; next p.

(** What follows a request: the error path, which forgets the pool, or the rest. *)
Definition check (fmt : string) (failed : list string) (docs : list Z) (ret : Z) (next : MA unit) : MA unit :=
  if ret <? 0 then
    complain fmt ret;; foldr (λ f m, say f [];; m) (mret tt) failed;; destroy_docs docs;; mongo_api_cleanup
  else next.

(** The end of every test. *)
Definition finish (pool : Z) (failed passed : string) (docs : list Z) : MA unit :=
  ret ← mongo_context_pool_destroy (Some pool);
  (if ret <? 0 then
     complain "Error [%d] [%s] in mongo_context_pool_init !" ret;; say failed [];; destroy_docs docs;; mongo_api_cleanup
   else mret tt);;
  destroy_docs docs;;
  mongo_api_cleanup;;
  say passed [].

Definition test1 : MA unit :=
  mongo_api_init;;
  open_pool 50 50 "Test1 Failed" [] (λ pool, finish pool "Test1 Failed" "Test1 Passed" []).

(** The two loops of [test2]: each worker is created and runs for a while, then they are
    joined in order. *)
Definition create_round (pool doc : Z) (i : Z) (ts : list (option (prog unit))) : MA (list (option (prog unit))) :=
  r ← mcall_ (pthread_create i);
  interleave (sched (Z.to_nat i)) (ts ++ [if r =? 0 then Some (worker pool doc) else None]).

Definition join_round (ts : list (option (prog unit))) (i : Z) (_ : unit) : MA unit :=
  t ← expect (ts !! Z.to_nat i);
  p ← expect t;
  denote p;;
  mcall_ (pthread_join i);;
  mret tt.

Definition test2 : MA unit :=
  mongo_api_init;;
  make_doc [("key_string", BSON_STRING "Mohit Singh"); ("key_array", BSON_ARRAY [BSON_STRING "this is 1st element"])]
    "Test2 FAILED !" "json : %s" (mret tt) [] (λ bdoc,
  open_pool 1 2 "Test2 Failed" [bdoc] (λ pool,
  ts ← for_range 2 0 (create_round pool bdoc) [];
  for_range 2 0 (join_round ts) tt;;
  finish pool "Test2 Failed" "Test2 Passed" [bdoc])).

Definition test3 : MA unit :=
  mongo_api_init;;
  make_doc [("key_string", BSON_STRING "Mohit Singh")] "Test3 FAILED !" "json : %s" mongo_api_cleanup [] (λ bdoc,
  open_pool 1 2 "Test3 Failed" [bdoc] (λ pool,
  '(ret, found) ← mongo_doc_exists pool (Some "test") (Some "test") bdoc local_var;
  check "Error [%d] [%s] in mongo_doc_exists !" ["Test3 Failed"] [bdoc] ret (
  (if default false found then say "DOC EXISTS!" [] else say "DOC DOES NOT EXIST!" []);;
  finish pool "Test3 Failed" "Test3 Passed" [bdoc]))).

Definition test4 : MA unit :=
  mongo_api_init;;
  make_doc [("key_string", BSON_STRING "Mohit Singh")] "Test4 FAILED !" "query json : %s" mongo_api_cleanup [] (λ query,
  make_doc [("key_array", BSON_STRING "This is 2nd Element")] "Test4 FAILED !" "tmp json : %s" mongo_api_cleanup [query] (λ tmp,
  make_doc [("$push", BSON_DOC tmp)] "Test4 FAILED !" "update json : %s" mongo_api_cleanup [query; tmp] (λ update,
  open_pool 1 2 "Test4 Failed" [query; tmp; update] (λ pool,
  ret ← mongo_doc_update pool (Some "test") (Some "test") query update;
  check "Error [%d] [%s] in mongo_doc_exists !" ["Test4 Failed"] [query; tmp; update] ret (
  finish pool "Test4 Failed" "Test4 Passed" [query; tmp; update]))))).

Definition test5 : MA unit :=
  tv ← mcall_ gettimeofday;
  let tv_sec := tv / 1000000 in
  let tv_usec := tv mod 1000000 in
  let utc_ms := sgn 64 (u64 (tv_sec * 1000 + tv_usec / 1000)) in
  mongo_api_init;;
  make_doc [("createdAt", BSON_DATETIME utc_ms); ("key_string", BSON_STRING "Mohit Singh")]
    "Test5 FAILED !" "doc json : %s" mongo_api_cleanup [] (λ bdoc,
  make_doc [("createdAt", BSON_INT32 1)] "Test5 FAILED !" "keys json : %s" mongo_api_cleanup [bdoc] (λ keys,
  open_pool 1 2 "Test5 Failed" [bdoc; keys] (λ pool,
  ret ← mongo_coll_create_ttl_index pool (Some "test") (Some "test1") keys 10;
  check "Error [%d] [%s] in mongo_coll_create_ttl_index !" ["Test5 Failed"] [bdoc; keys] ret (
  ret ← mongo_insert_doc pool (Some "test") (Some "test1") bdoc;
  check "Error [%d] [%s] in mongo_insert_doc !" [] [bdoc; keys] ret (
  finish pool "Test5 Failed" "Test5 Passed" [bdoc; keys]))))).

Definition test6 : MA unit :=
  mongo_api_init;;
  make_doc [("key_string", BSON_STRING "Mohit Singh")] "Test6 FAILED !" "json : %s" mongo_api_cleanup [] (λ bdoc,
  open_pool 1 2 "Test3 Failed" [bdoc] (λ pool,
  ret ← mongo_doc_remove pool (Some "test") (Some "test") bdoc;
  check "Error [%d] [%s] in mongo_doc_remove !" ["Test6 Failed"] [bdoc] ret (
  finish pool "Test6 Failed" "Test6 Passed" [bdoc]))).

Definition main : MA Z := test1;; test3;; test2;; test3;; test4;; test5;; test6;; mret 0.

End code.

(** ** What a history says about the tests *)

Inductive request := Insert | Remove | Update | Index | Find | Next.

Definition kind (c : mcall) : option request :=
  match c with
  | mongoc_collection_insert _ _ => Some Insert
  | mongoc_collection_remove _ _ => Some Remove
  | mongoc_collection_update _ _ _ => Some Update
  | mongoc_collection_create_index _ _ _ => Some Index
  | mongoc_collection_find _ _ => Some Find
  | mongoc_cursor_next _ => Some Next
  | _ => None
  end.

(** The requests, the number of error lines and the tests reported as passed, newest first. *)
Definition sent (tr : list mevent) : list request := omap (λ e, kind e.1) tr.

Definition is_error (l : string * list Z) : bool := String.prefix "Error" l.1.
Definition is_pass (l : string * list Z) : bool :=
  existsb (String.eqb l.1) ["Test1 Passed"; "Test2 Passed"; "Test3 Passed"; "Test4 Passed"; "Test5 Passed"; "Test6 Passed"]%string.

Definition errors (tr : list mevent) : nat := length (List.filter is_error (lines tr)).
Definition passes (tr : list mevent) : list string := fst <$> List.filter is_pass (lines tr).

(** What the error paths forget: a pool with its block, or to shut the library down. *)
Definition leak (x : mres) : Prop := match x with RLib | RPool _ | RBlock _ => True | _ => False end.

(** A stretch of the program: it passed, reported the tests [ps], sent the requests [ks] and
    holds nothing; or it has printed an error and holds at most leaks. *)
Definition tested (ps : list string) (ks : list request) (tr tr' : list mevent) : Prop :=
  ∃ l, holds tr tr' l ∧ Forall leak l ∧
    ((l = [] ∧ errors tr' = errors tr ∧ sent tr' = ks ++ sent tr ∧ passes tr' = ps ++ passes tr) ∨
     (errors tr < errors tr')%nat).

Lemma holds_app tr tr' tr'' l l' : holds tr tr' l → holds tr' tr'' l' → holds tr tr'' (l ++ l').
Proof.
  intros H1 H2 x. rewrite H2, H1, foldr_app. clear H1 H2.
  generalize (foldr (λ y n, Z.b2z (bool_decide (Some y = Some x)) + n) 0 l'). intros z.
  induction l as [|y l IH]; cbn [foldr]; [lia|]. lia.
Qed.

Lemma tested_app ps ks ps' ks' tr tr' tr'' :
  tested ps ks tr tr' → tested ps' ks' tr' tr'' → tested (ps' ++ ps) (ks' ++ ks) tr tr''.
Proof.
  intros (l & Hl & Fl & H) (l' & Hl' & Fl' & H'). exists (l ++ l'). split; [by eapply holds_app|].
  split; [by apply Forall_app|].
  destruct H as [(-> & He & Hs & Hp)|He], H' as [(-> & He' & Hs' & Hp')|He']; [left|right; lia..].
  split; [done|]. split; [congruence|]. split; [rewrite Hs', Hs|rewrite Hp', Hp]; apply app_assoc.
Qed.

Lemma sent_requests tr : sent tr = omap (λ e, kind e.1) (requests tr).
Proof.
  unfold sent, requests. induction tr as [|[c r] tr IH]; [done|]. rewrite filter_cons.
  destruct c; csimpl; by rewrite IH.
Qed.

(** ** Threads *)

Section threads.
Context (ctx : gmap Z Z) (Q : list mevent → Prop).

(** The thread-local view: whatever the calls answer, the thread ends with a history of its own
    that satisfies [Q]; [h] is what it has done so far. *)
Fixpoint local (p : prog unit) (h : list mevent) : Prop :=
  match p with
  | Ret _ => Q h
  | Stuck => False
  | Call c k => ∀ r, local (k r) ((c, r) :: h)
  | Read m k => ∃ v, ctx !! m = Some v ∧ local (k v) h
  end.

(** The global view: the history since [tr0] is made of what the threads and their creator
    did, in some order. *)
Definition merged (tr0 : list mevent) (own : list mevent) (hs : list (list mevent)) (tr : list mevent) : Prop :=
  ∃ X, tr = X ++ tr0 ∧ X ≡ₚ own ++ concat hs.

Definition thread_ok (t : option (prog unit)) (h : list mevent) : Prop := match t with Some p => local p h | None => False end.

Lemma concat_insert {A} (hs : list (list A)) i h e : hs !! i = Some h → concat (<[i := e :: h]> hs) ≡ₚ e :: concat hs.
Proof.
  revert i. induction hs as [|h0 hs IH]; intros [|i] Hi; simplify_eq/=; [done|].
  rewrite (IH i Hi). symmetry. apply Permutation_middle.
Qed.

Lemma merged_own tr0 own hs tr e : merged tr0 own hs tr → merged tr0 (e :: own) hs (e :: tr).
Proof. intros (X & -> & HX). exists (e :: X). split; [done|]. cbn. by rewrite HX. Qed.

Lemma merged_thread tr0 own hs tr i h e : hs !! i = Some h → merged tr0 own hs tr → merged tr0 own (<[i := e :: h]> hs) (e :: tr).
Proof.
  intros Hi (X & -> & HX). exists (e :: X). split; [done|]. rewrite (concat_insert _ _ _ _ Hi), HX. apply Permutation_middle.
Qed.

Context {lib : MONGOC}.

Lemma interleave_wp order ts hs tr0 own tr :
  Forall2 thread_ok ts hs → merged tr0 own hs tr →
  wp (interleave order ts) (λ ts' w, m_ctx w = ctx ∧
    ∃ hs', length hs' = length hs ∧ Forall2 thread_ok ts' hs' ∧ merged tr0 own hs' (m_trace w)) (mk_mw tr ctx).
Proof.
  revert ts hs tr. induction order as [|i order IH]; intros ts hs tr Hts Hm; cbn [interleave].
  { apply wp_ret. split; [done|]. by eexists. }
  destruct (ts !! i) as [[p|]|] eqn:Hi; [|by eapply IH..].
  destruct (Forall2_lookup_l _ _ _ _ _ Hts Hi) as (h & Hh & Hp). cbn in Hp.
  assert (∀ p' h', local p' h' → Forall2 thread_ok (<[i := Some p']> ts) (<[i := h']> hs)) as Hput by (intros; by apply Forall2_insert).
  destruct p as [a| |c k|m k]; cbn [step].
  - mc_run. rewrite list_insert_id by done. by eapply IH.
  - done.
  - mc_run. rewrite <- (length_insert hs i ((c, r) :: h)). eapply IH; [apply Hput, Hp|by apply merged_thread].
  - destruct Hp as (v & Hv & Hp). mc_run. eapply IH; [|done]. rewrite <- (list_insert_id hs i h) by done. by apply Hput.
Qed.

(** Joining runs the rest of a thread. *)
Lemma denote_wp p i h hs tr0 own tr : hs !! i = Some h → local p h → merged tr0 own hs tr →
  wp (denote p) (λ _ w, m_ctx w = ctx ∧ ∃ h', Q h' ∧ merged tr0 own (<[i := h']> hs) (m_trace w)) (mk_mw tr ctx).
Proof.
  revert h hs tr. induction p as [a| |c k IH|m k IH]; intros h hs tr Hi Hp Hm; cbn [denote local] in *.
  - apply wp_ret. split; [done|]. exists h. by rewrite list_insert_id.
  - done.
  - mc_run. eapply wp_mono; [eapply (IH r ((c, r) :: h) (<[i := (c, r) :: h]> hs)); [|apply Hp|by apply merged_thread]|].
    + apply list_lookup_insert_eq. by eapply lookup_lt_Some.
    + intros [] w (Hc & h' & HQ & Hm'). split; [done|]. exists h'. by rewrite list_insert_insert_eq in Hm'.
  - destruct Hp as (v & Hv & Hp). mc_run. by eapply IH.
Qed.

End threads.

(** ** The workers *)

Definition worker_ok (h : list mevent) : Prop :=
  holds [] h [] ∧ passes h = [] ∧ ((errors h = 0%nat ∧ sent h = [Insert]) ∨ (0 < errors h)%nat).

Lemma worker_local ctx mpool pool doc : ctx !! mpool = Some pool → mpool ≠ NULL → doc ≠ NULL →
  local ctx worker_ok (worker mpool doc) [].
Proof.
  intros Hp Hm Hd. unfold worker, insert_prog. rewrite (proj2 (Z.eqb_neq _ _) Hm), (proj2 (Z.eqb_neq _ _) Hd).
  cbn -[codes mongo_err_msg worker_ok NULL]. exists pool. split; [done|]. intros client.
  destruct (client =? NULL) eqn:E1; cbn -[codes worker_ok NULL].
  { intros ? ?. split; [holds_solve|]. split; [done|]. right. cbn. lia. }
  intros coll. destruct (coll =? NULL) eqn:E2; cbn -[codes worker_ok NULL].
  { intros ? ? ?. split; [holds_solve|]. split; [done|]. right. cbn. lia. }
  intros ok ? ?. destruct (ok =? 0) eqn:E3; cbn -[codes worker_ok NULL].
  - intros ? ?. split; [holds_solve|]. split; [done|]. right. cbn. lia.
  - intros ?. split; [holds_solve|]. split; [done|]. by left.
Qed.

Lemma mbalance_app a b x : mbalance (a ++ b) x = mbalance a x + mbalance b x.
Proof. induction a as [|e a IH]; cbn; lia. Qed.

Lemma mbalance_perm a b x : a ≡ₚ b → mbalance a x = mbalance b x.
Proof. induction 1; cbn; lia. Qed.

Lemma lines_app a b : lines (a ++ b) = lines a ++ lines b.
Proof. apply omap_app. Qed.

Lemma errors_app a b : errors (a ++ b) = (errors a + errors b)%nat.
Proof. unfold errors. by rewrite lines_app, List.filter_app, length_app. Qed.

Lemma passes_app a b : passes (a ++ b) = passes a ++ passes b.
Proof. unfold passes. by rewrite lines_app, List.filter_app, fmap_app. Qed.

Lemma sent_app a b : sent (a ++ b) = sent a ++ sent b.
Proof. apply omap_app. Qed.

#[global] Instance lines_perm : Proper ((≡ₚ) ==> (≡ₚ)) lines.
Proof. intros a b H. unfold lines. by rewrite H. Qed.

#[global] Instance sent_perm : Proper ((≡ₚ) ==> (≡ₚ)) sent.
Proof. intros a b H. unfold sent. by rewrite H. Qed.

Lemma filter_perm {A} (f : A → bool) a b : a ≡ₚ b → List.filter f a ≡ₚ List.filter f b.
Proof. induction 1 as [|x a b _ IH|x y a|a b c _ IH1 _ IH2]; cbn; [done| | |by etrans]; repeat case_match; auto. constructor. Qed.

Lemma errors_perm a b : a ≡ₚ b → errors a = errors b.
Proof. intros H. unfold errors. apply Permutation_length, filter_perm. by rewrite H. Qed.

Lemma passes_perm a b : a ≡ₚ b → passes a ≡ₚ passes b.
Proof. intros H. unfold passes. apply fmap_Permutation, filter_perm. by rewrite H. Qed.

(** Any number of workers that ended, with a creator that only created and joined them. *)
Lemma merged_workers tr0 own hs tr : merged tr0 own hs tr → Forall worker_ok hs →
  (∀ x, mbalance own x = 0) → lines own = [] → sent own = [] →
  holds tr0 tr [] ∧ passes tr = passes tr0 ∧
  ((errors tr = errors tr0 ∧ sent tr = replicate (length hs) Insert ++ sent tr0) ∨ (errors tr0 < errors tr)%nat).
Proof.
  intros (X & -> & HX) Hw Hb Hl Hs.
  assert ((∀ x, mbalance (concat hs) x = 0) ∧ passes (concat hs) = [] ∧
    ((errors (concat hs) = 0%nat ∧ sent (concat hs) = replicate (length hs) Insert) ∨ (0 < errors (concat hs))%nat)) as (Hb' & Hp' & He').
  { clear HX. induction Hw as [|h hs (Hh & Hp & He) _ (IHb & IHp & IHe)]; [split; [done|]; split; [done|]; by left|].
    cbn [concat length replicate]. rewrite passes_app, errors_app, sent_app, Hp, IHp. split; [|split; [done|]].
    - intros x. rewrite mbalance_app, IHb, Hh. done.
    - destruct He as [[-> ->]|He], IHe as [[-> ->]|IHe]; [by left|right; lia..]. }
  assert (errors X = errors (concat hs)) as HeX.
  { rewrite (errors_perm _ _ HX), errors_app. unfold errors at 1. by rewrite Hl. }
  split; [|split].
  - intros x. rewrite mbalance_app, (mbalance_perm _ _ x HX), mbalance_app, Hb, Hb'. cbn. lia.
  - rewrite passes_app. assert (passes X ≡ₚ []) as ->%Permutation_nil_r; [|done].
    rewrite (passes_perm _ _ HX), passes_app, Hp'. unfold passes. by rewrite Hl.
  - rewrite errors_app, HeX, sent_app. destruct He' as [[-> Hs']|He']; [left|right; lia]. split; [done|]. f_equal.
    symmetry. apply replicate_Permutation. by rewrite HX, sent_app, Hs, Hs'.
Qed.

(** ** The tests *)

Section specs.
Context {lib : MONGOC} (sched : nat → list nat).
Hypothesis bson_named : ∀ tr code, code < 0 → mongoc_answer tr (bson_err_msg code) ≠ NULL.
Hypothesis docs_made : ∀ tr elems, mongoc_answer tr (bson_doc_create elems) ≠ NULL.
Hypothesis threads_created : ∀ tr i, mongoc_answer tr (pthread_create i) = 0.
Hypothesis updates_accepted : ∀ tr coll q u, mongoc_answer tr (mongoc_collection_update coll q u) ≠ 0.

Lemma create_round_wp pool v doc i ts hs tr0 own tr ctx : ctx !! pool = Some v → pool ≠ NULL → doc ≠ NULL →
  Forall2 (thread_ok ctx worker_ok) ts hs → merged tr0 own hs tr →
  wp (create_round sched pool doc i ts) (λ ts' w, m_ctx w = ctx ∧ ∃ hs', length hs' = S (length hs) ∧
    Forall2 (thread_ok ctx worker_ok) ts' hs' ∧ merged tr0 ((pthread_create i, 0) :: own) hs' (m_trace w)) (mk_mw tr ctx).
Proof using threads_created.
  intros Hp Hn Hd Hts Hm. unfold create_round. mc_run. rewrite threads_created in Hr. subst r. cbn [Z.eqb].
  replace (S (length hs)) with (length (hs ++ [[]])) by (rewrite length_app; cbn; lia). apply interleave_wp.
  - apply Forall2_app; [done|]. constructor; [|done]. by eapply worker_local.
  - apply merged_own. destruct Hm as (X & -> & HX). exists X. split; [done|]. rewrite concat_app. cbn. by rewrite app_nil_r.
Qed.

Lemma join_round_wp ts p i h hs tr0 own tr ctx : ts !! Z.to_nat i = Some (Some p) → hs !! Z.to_nat i = Some h →
  local ctx worker_ok p h → merged tr0 own hs tr →
  wp (join_round ts i tt) (λ _ w, m_ctx w = ctx ∧ ∃ h' r, worker_ok h' ∧
    merged tr0 ((pthread_join i, r) :: own) (<[Z.to_nat i := h']> hs) (m_trace w)) (mk_mw tr ctx).
Proof.
  intros Ht Hh Hl Hm. unfold join_round. mc_run. eapply wp_expect; [done|]. mc_run. eapply wp_expect; [done|]. mc_run.
  eapply wp_mono; [by eapply denote_wp|]. intros [] [tr' ctx'] (Hc & h' & Hq & Hm'). cbn in Hc, Hm'. subst ctx'. mc_run.
  split; [done|]. exists h', r. split; [done|]. by apply merged_own.
Qed.

Lemma workers_wp pool v doc tr ctx (Q : unit → mworld → Prop) next : ctx !! pool = Some v → pool ≠ NULL → doc ≠ NULL →
  (∀ tr', holds tr tr' [] → passes tr' = passes tr →
    ((errors tr' = errors tr ∧ sent tr' = [Insert; Insert] ++ sent tr) ∨ (errors tr < errors tr')%nat) → wp next Q (mk_mw tr' ctx)) →
  wp (ts ← for_range 2 0 (create_round sched pool doc) []; for_range 2 0 (join_round ts) tt;; next) Q (mk_mw tr ctx).
Proof using threads_created.
  intros Hp Hn Hd HQ. cbn [for_range]. mc_run.
  eapply wp_mono; [eapply (create_round_wp _ _ _ _ [] [] tr []); [done..|constructor|by exists []]|].
  intros ts0 [tr1 ctx1] (Hc & hs0 & Hl0 & Ht0 & Hm0). cbn in Hc, Hm0. subst ctx1. mc_run.
  eapply wp_mono; [by eapply create_round_wp|]. intros ts1 [tr2 ctx2] (Hc & hs1 & Hl1 & Ht1 & Hm1). cbn in Hc, Hm1. subst ctx2. mc_run.
  rewrite Hl0 in Hl1. destruct hs1 as [|h0 [|h1 [|]]]; try done.
  apply Forall2_cons_inv_r in Ht1 as ([p0|] & ts' & H0 & Ht1 & ->); [|done].
  apply Forall2_cons_inv_r in Ht1 as ([p1|] & ts'' & H1 & Ht1 & ->); [|done].
  eapply wp_mono; [by eapply (join_round_wp _ p0 0 h0 [h0; h1])|]. intros [] [tr3 ctx3] (Hc & h0' & r0 & Hq0 & Hm2). cbn in Hc, Hm2. subst ctx3. mc_run.
  eapply wp_mono; [by eapply (join_round_wp _ p1 1 h1 [h0'; h1])|]. intros [] [tr4 ctx4] (Hc & h1' & r1 & Hq1 & Hm3). cbn in Hc, Hm3. subst ctx4. mc_run.
  destruct (merged_workers _ _ [h0'; h1'] _ Hm3) as (? & ? & ?); [by apply list.Forall_cons; split; [|apply list.Forall_singleton]|holds_solve|done|done|].
  by apply HQ.
Qed.

(** *** The parts of a test

    [mid tr l ks tr']: no error so far, [l] is held and [ks] have been sent. *)

Definition weight (l : list mres) (x : mres) : Z := foldr (λ y n, Z.b2z (bool_decide (Some y = Some x)) + n) 0 l.

Definition mid (tr : list mevent) (l : list mres) (ks : list request) (tr' : list mevent) : Prop :=
  holds tr tr' l ∧ errors tr' = errors tr ∧ sent tr' = ks ++ sent tr ∧ passes tr' = passes tr.

(** The same, when an error has been printed. *)
Definition failing (tr : list mevent) (l : list mres) (tr' : list mevent) : Prop := holds tr tr' l ∧ (errors tr < errors tr')%nat.

Lemma failing_tested tr l tr' ps ks : failing tr l tr' → Forall leak l → tested ps ks tr tr'.
Proof. intros [Hh He] Hl. exists l. auto. Qed.

Lemma weight_cons y l x : weight (y :: l) x = Z.b2z (bool_decide (Some y = Some x)) + weight l x.
Proof. done. Qed.

Lemma weight_app l l' x : weight (l ++ l') x = weight l x + weight l' x.
Proof. induction l as [|y l IH]; cbn; [done|]. unfold weight in *. lia. Qed.

Lemma mongo_say_wp fmt args tr ctx (Q : unit → mworld → Prop) :
  (∀ r, Q tt (mk_mw ((printf fmt args, r) :: tr) ctx)) → wp (say fmt args) Q (mk_mw tr ctx).
Proof. intros H. unfold say. mc_run. apply H. Qed.

(** A line that was printed changes nothing else. *)
Lemma said_holds fmt args r tr l tr' : holds tr tr' l → holds tr ((printf fmt args, r) :: tr') l.
Proof.
  intros Hh x. specialize (Hh x). cbn. unfold mdelta. cbn. rewrite !(bool_decide_eq_false_2 (None = Some x)) by done. cbn in *. lia.
Qed.

Lemma said_errors fmt args r tr : errors ((printf fmt args, r) :: tr) = ((if String.prefix "Error" fmt then 1 else 0) + errors tr)%nat.
Proof. unfold errors. cbn [lines omap list_omap fst List.filter]. unfold is_error at 1. cbn [fst]. by destruct (String.prefix _ _). Qed.

Lemma failing_say fmt args r tr l tr' : failing tr l tr' → failing tr l ((printf fmt args, r) :: tr').
Proof.
  intros [Hh He]. split; [by apply said_holds|]. rewrite said_errors. lia.
Qed.

Lemma complain_wp fmt ret tr l ks tr' ctx (Q : unit → mworld → Prop) : String.prefix "Error" fmt = true → is_Some (mongo_err_msg ret) →
  mid tr l ks tr' → (∀ tr'', failing tr l tr'' → Q tt (mk_mw tr'' ctx)) → wp (complain fmt ret) Q (mk_mw tr' ctx).
Proof.
  intros Hf [msg Hm] (Hh & He & _) HQ. unfold complain. apply wp_bind. eapply wp_expect; [done|]. apply mongo_say_wp. intros r. apply HQ.
  split; [by apply said_holds|]. rewrite said_errors, Hf. lia.
Qed.

(** Silent steps. *)
Lemma same_io_obs a b : same_io a b → errors b = errors a ∧ passes b = passes a ∧ sent b = sent a.
Proof. intros [Hl Hr]. unfold errors, passes. rewrite (sent_requests a), (sent_requests b), Hl, Hr. done. Qed.

Lemma mid_io tr l l' ks t t' : mid tr l ks t → same_io t t' → holds tr t' l' → mid tr l' ks t'.
Proof. intros (_ & He & Hs & Hp) (He' & Hp' & Hs')%same_io_obs Hh. split; [done|]. by rewrite He', Hp', Hs'. Qed.

Lemma failing_io tr l l' t t' : failing tr l t → same_io t t' → holds tr t' l' → failing tr l' t'.
Proof. intros (_ & He) (He' & Hp' & Hs')%same_io_obs Hh. split; [done|]. by rewrite He'. Qed.

Lemma destroy_docs_wp docs tr l t ctx (Q : unit → mworld → Prop) : holds tr t ((RDoc <$> docs) ++ l) →
  (∀ t', same_io t t' → holds tr t' l → Q tt (mk_mw t' ctx)) → wp (destroy_docs docs) Q (mk_mw t ctx).
Proof.
  revert t. induction docs as [|d docs IH]; intros t Hh HQ; cbn [destroy_docs foldr].
  - apply wp_ret. by apply HQ.
  - mc_run. apply IH.
    + intros x. specialize (Hh x). cbn in *. unfold mdelta. cbn. rewrite (bool_decide_eq_false_2 (None = Some x)) by done. cbn. lia.
    + intros t' [Hl Hr'] Hh'. by apply HQ.
Qed.

Lemma api_cleanup_wp tr l t ctx (Q : unit → mworld → Prop) : holds tr t (RLib :: l) →
  (∀ t', same_io t t' → holds tr t' l → Q tt (mk_mw t' ctx)) → wp mongo_api_cleanup Q (mk_mw t ctx).
Proof.
  intros Hh HQ. unfold mongo_api_cleanup. mc_run. apply HQ; [done|]. intros x. specialize (Hh x).
  cbn in *. unfold mdelta. cbn. rewrite (bool_decide_eq_false_2 (None = Some x)) by done. cbn. lia.
Qed.

Lemma holds_perm tr t l l' : l ≡ₚ l' → holds tr t l → holds tr t l'.
Proof.
  intros Hp Hh x. rewrite (Hh x). f_equal. clear Hh. induction Hp; cbn; lia.
Qed.

(** The end of the error paths. *)
Lemma says_wp fs tr l t ctx (Q : unit → mworld → Prop) : failing tr l t → (∀ t', failing tr l t' → Q tt (mk_mw t' ctx)) →
  wp (foldr (λ f m, say f [];; m) (mret tt) fs) Q (mk_mw t ctx).
Proof.
  revert t. induction fs as [|f fs IH]; intros t Hf HQ; cbn [foldr]; mc_run; [by apply HQ|].
  apply mongo_say_wp. intros r. by apply IH; [apply failing_say|].
Qed.

Lemma give_up_wp docs tr l t ctx (Q : unit → mworld → Prop) : failing tr ((RLib :: (RDoc <$> docs)) ++ l) t →
  (∀ t', failing tr l t' → Q tt (mk_mw t' ctx)) → wp (destroy_docs docs;; mongo_api_cleanup) Q (mk_mw t ctx).
Proof.
  intros Hf HQ. mc_run. eapply (destroy_docs_wp docs tr (RLib :: l)).
  - eapply holds_perm; [|apply Hf]. cbn. apply Permutation_middle.
  - intros t1 Hs1 Hh1. eapply api_cleanup_wp; [done|]. intros t2 Hs2 Hh2. apply HQ.
    eapply failing_io; [eapply failing_io; done|done|done].
Qed.

Lemma complain_bson_wp fmt ret tr l ks tr' ctx (Q : unit → mworld → Prop) : String.prefix "Error" fmt = true → ret < 0 →
  mid tr l ks tr' → (∀ tr'', failing tr l tr'' → Q tt (mk_mw tr'' ctx)) → wp (complain_bson fmt ret) Q (mk_mw tr' ctx).
Proof using bson_named.
  intros Hf Hc (Hh & He & _) HQ. unfold complain_bson. mc_run.
  - apply Z.eqb_eq in E. subst r. by destruct (bson_named tr' ret).
  - apply mongo_say_wp. intros r'. apply HQ. split.
    + apply said_holds. intros x. rewrite <- (Hh x). cbn. unfold mdelta. cbn. rewrite (bool_decide_eq_false_2 (None = Some x)) by done. cbn. lia.
    + rewrite said_errors, Hf. change (errors ((bson_err_msg ret, r) :: tr')) with (errors tr'). lia.
Qed.

(** A call that prints and requests nothing. *)
Lemma mid_call tr l l' ks t c r : mid tr l ks t → same_io t ((c, r) :: t) →
  (∀ x, weight l' x = weight l x + mdelta (c, r) x) → mid tr l' ks ((c, r) :: t).
Proof. intros Hm Hs Hw. eapply mid_io; [done|done|]. destruct Hm as [Hh _]. intros x. cbn. rewrite (Hh x). specialize (Hw x). unfold weight in Hw. lia. Qed.

Lemma mid_said tr l ks t fmt args r : String.prefix "Error" fmt = false → is_pass (fmt, args) = false →
  mid tr l ks t → mid tr l ks ((printf fmt args, r) :: t).
Proof.
  intros He Hp (Hh & He' & Hs & Hp'). split; [by apply said_holds|]. rewrite said_errors, He. split; [done|]. split; [done|].
  rewrite <- Hp'. unfold passes at 1. cbn [lines omap list_omap fst List.filter]. by rewrite Hp.
Qed.

Definition result (ps : list string) (ks : list request) (tr : list mevent) (_ : unit) (w : mworld) : Prop := tested ps ks tr (m_trace w).

(** A document is made, or the test ends with an error and holds no document. *)
Lemma make_doc_wp elems failed label cleanup docs next tr ks t ctx ps ks' :
  String.prefix "Error" label = false → is_pass (label, []) = false → cleanup = mongo_api_cleanup ∨ (cleanup = mret tt ∧ docs = []) →
  mid tr (RLib :: (RDoc <$> docs)) ks t →
  (∀ r t', r ≠ NULL → mid tr (RLib :: (RDoc <$> (docs ++ [r]))) ks t' → wp (next r) (result ps ks' tr) (mk_mw t' ctx)) →
  wp (make_doc elems failed label cleanup docs next) (result ps ks' tr) (mk_mw t ctx).
Proof using bson_named docs_made.
  intros Hl Hp Hc Hm Hnext. unfold make_doc.
  assert (∀ l t', failing tr l t' → Forall leak l → result ps ks' tr tt (mk_mw t' ctx)) as Hfail by (intros; by eapply failing_tested).
  mc_step. mc_step. intros. mc_step.
  - mc_step. apply (mid_call _ _ (RLib :: (RDoc <$> docs)) _ _ (bson_doc_create elems) r) in Hm; [|done|intros x; balance_at x].
    eapply complain_bson_wp; [done|lia|done|]. intros t1 Hf1. mc_step. apply mongo_say_wp. intros r1.
    apply (failing_say failed [] r1) in Hf1. destruct Hc as [->|[-> ->]].
    + eapply give_up_wp; [by rewrite app_nil_r|]. intros t2 Hf2. by eapply Hfail.
    + cbn [destroy_docs foldr]. mc_run. eapply Hfail; [done|]. by repeat constructor.
  - pose proof (docs_made t elems) as Hn. rewrite <- Hr in Hn.
    apply (mid_call _ _ (RLib :: (RDoc <$> (docs ++ [r]))) _ _ (bson_doc_create elems) r) in Hm;
      [|done|intros x; rewrite fmap_app, !weight_cons, weight_app; cbn [fmap list_fmap]; rewrite weight_cons; cbn [weight foldr]; balance_at x].
    mc_step. mc_step. rename r0 into json. mc_step.
    + mc_step. apply (mid_call _ _ (RLib :: (RDoc <$> (docs ++ [r]))) _ _ (bson_to_json r) json) in Hm; [|done|intros x; rewrite ?weight_cons; balance_at x].
      eapply complain_bson_wp; [done|lia|done|]. intros t1 Hf1. mc_step. apply mongo_say_wp. intros r1.
      apply (failing_say failed [] r1) in Hf1. mc_step. destruct Hc as [->|[-> ->]].
      * eapply api_cleanup_wp; [apply Hf1|]. intros t2 Hs2 Hh2. eapply (destroy_docs_wp _ _ []); [by rewrite app_nil_r|].
        intros t3 Hs3 Hh3. eapply Hfail; [|done]. eapply failing_io; [by eapply failing_io|done|done].
      * mc_run. eapply (destroy_docs_wp [r] tr [RLib]); [eapply holds_perm; [|apply Hf1]; apply Permutation_swap|].
        intros t3 Hs3 Hh3. eapply Hfail; [by eapply failing_io|]. by repeat constructor.
    + apply (mid_call _ _ (RBlock json :: RLib :: (RDoc <$> (docs ++ [r]))) _ _ (bson_to_json r) json) in Hm; [|done|intros x; rewrite ?weight_cons; balance_at x].
      mc_step. apply mongo_say_wp. intros r1. mc_step. mc_step. apply Hnext; [done|].
      eapply mid_call; [by apply mid_said|done|]. intros x. rewrite !weight_cons. balance_at x.
Qed.

Lemma mid_more tr l l' ks t t' : mid tr l ks t → same_io t t' → holds t t' l' → mid tr (l' ++ l) ks t'.
Proof.
  intros Hm Hs Hh. eapply mid_io; [done|done|]. eapply holds_perm; [apply Permutation_app_comm|]. eapply holds_app; [apply Hm|done].
Qed.

(** A pool is opened, or the test ends with an error and holds nothing. *)
Lemma open_pool_wp min max failed docs next tr ks t ctx ps ks' : mid tr (RLib :: (RDoc <$> docs)) ks t →
  (∀ p pool t', p ≠ NULL → mid tr (RPool pool :: RBlock p :: RLib :: (RDoc <$> docs)) ks t' →
    wp (next p) (result ps ks' tr) (mk_mw t' (<[p := pool]> ctx))) →
  wp (open_pool min max failed docs next) (result ps ks' tr) (mk_mw t ctx).
Proof.
  intros Hm Hnext. unfold open_pool. mc_step. eapply wp_mono; [apply pool_init_spec|].
  intros [ret o] [t' ctx'] (Hs & [(Hn & He & Hc & Hh)|(p & pool & Hr & Hp & Hc & Hh)]); cbn in *.
  - rewrite (proj2 (Z.ltb_lt _ _) Hn). mc_step. eapply complain_wp; [done|done|by eapply (mid_more _ _ [])|]. intros t1 Hf1.
    mc_step. apply mongo_say_wp. intros r. apply (failing_say failed [] r) in Hf1.
    eapply give_up_wp; [by rewrite app_nil_r|]. intros t2 Hf2. by eapply failing_tested.
  - simplify_eq. apply Hnext; [done|]. by eapply (mid_more _ _ [_; _]).
Qed.

(** A request that was answered, or refused with a message. *)
Lemma check_wp fmt fs docs ret next tr pool p ks t ctx ps ks' : String.prefix "Error" fmt = true →
  mid tr (RPool pool :: RBlock p :: RLib :: (RDoc <$> docs)) ks t → (ret < 0 → is_Some (mongo_err_msg ret)) →
  (0 ≤ ret → wp next (result ps ks' tr) (mk_mw t ctx)) → wp (check fmt fs docs ret next) (result ps ks' tr) (mk_mw t ctx).
Proof.
  intros Hf Hm He Hnext. unfold check. mc_step; [|apply Hnext; lia]. mc_step. eapply complain_wp; [done|apply He; lia|done|].
  intros t1 Hf1. mc_step. eapply says_wp; [done|]. intros t2 Hf2. eapply (give_up_wp docs _ [RPool pool; RBlock p]).
  - split; [|apply Hf2]. eapply holds_perm; [|apply Hf2]. change (RPool pool :: RBlock p :: ?l) with ([RPool pool; RBlock p] ++ l). apply Permutation_app_comm.
  - intros t3 Hf3. eapply failing_tested; [done|]. by repeat constructor.
Qed.

Lemma finish_run p pool failed passed docs tr t ctx (Q : unit → mworld → Prop) : ctx !! p = Some pool →
  holds tr t (RPool pool :: RBlock p :: RLib :: (RDoc <$> docs)) →
  (∀ t' r ctx', same_io t t' → holds tr t' [] → Q tt (mk_mw ((printf passed [], r) :: t') ctx')) →
  wp (finish p failed passed docs) Q (mk_mw t ctx).
Proof.
  intros Hp Hh HQ. unfold finish. mc_step. eapply wp_mono; [by apply context_destroy_spec|].
  intros ret [t' ctx'] (-> & _ & Hs & Hb). cbn in Hs, Hb. cbn [Z.ltb Z.compare]. mc_run.
  eapply (destroy_docs_wp docs tr [RLib]).
  { eapply holds_perm; [apply Permutation_cons_append|]. intros x. rewrite Hb, (Hh x). cbn. lia. }
  intros t1 [Hl1 Hr1] Hh1. mc_step. eapply api_cleanup_wp; [done|]. intros t2 [Hl2 Hr2] Hh2. apply mongo_say_wp. intros r. apply HQ; [|done].
  destruct Hs as [Hl Hr]. split; congruence.
Qed.

Lemma finish_wp p pool failed passed docs tr ks t ctx : ctx !! p = Some pool →
  String.prefix "Error" passed = false → is_pass (passed, []) = true →
  mid tr (RPool pool :: RBlock p :: RLib :: (RDoc <$> docs)) ks t →
  wp (finish p failed passed docs) (result [passed] ks tr) (mk_mw t ctx).
Proof.
  intros Hp He Hpass Hm. eapply finish_run; [done|apply Hm|]. intros t' r ctx' Hs Hh.
  destruct (mid_io _ _ _ _ _ _ Hm Hs Hh) as (_ & He2 & Hs2 & Hp2).
  exists []. split; [by apply said_holds|]. split; [done|]. left. split; [done|]. cbn [m_trace]. rewrite said_errors, He. split; [done|].
  split; [done|]. unfold passes at 1. cbn [lines omap list_omap fst List.filter]. rewrite Hpass. cbn. by rewrite <- Hp2.
Qed.

(** A test that goes on after an error. *)
Lemma finish_failing_wp p pool failed passed docs tr t ctx ps ks : ctx !! p = Some pool →
  failing tr (RPool pool :: RBlock p :: RLib :: (RDoc <$> docs)) t →
  wp (finish p failed passed docs) (result ps ks tr) (mk_mw t ctx).
Proof.
  intros Hp Hf. eapply finish_run; [done|apply Hf|]. intros t' r ctx' Hs Hh.
  eapply failing_tested; [|done]. by eapply failing_say, failing_io.
Qed.

(** An operation in the middle of a test. *)
Definition op_kinds (op : mongo_op) : list request :=
  match op with
  | OpInsert _ => [Insert] | OpRemove _ => [Remove] | OpIndex _ _ => [Index] | OpUpdate _ _ => [Update] | OpExists _ _ => [Next; Find]
  end.

Lemma op_mid tr l ks op t t' ret found : mid tr l ks t → holds t t' [] → lines t' = lines t → op_sent op t t' ret found →
  (ret < 0 → ret ≠ mongo_code MONGO_ERR_COLL_UPDATE) →
  (ret < 0 → is_Some (mongo_err_msg ret)) ∧ ∃ ks', mid tr l ks' t' ∧ (0 ≤ ret → ks' = op_kinds op ++ ks).
Proof.
  intros (Hh & He & Hs & Hp) Hh' Hl Ho Hu.
  assert (∀ ks', sent t' = ks' ++ sent t → mid tr l (ks' ++ ks) t') as Hmid.
  { intros ks' Hk. split; [|unfold errors, passes in *; rewrite Hl, Hk, Hs, app_assoc; done].
    rewrite <- (app_nil_r l). by eapply holds_app. }
  rewrite (sent_requests t), (sent_requests t') in Hmid. split.
  - intros Hn. specialize (Hu Hn). destruct Ho as [|e [-> | ->]|coll ?| |]; [by eexists..| |done|done]. by destruct op; first [done|eexists].
  - destruct Ho as [keys ttl _ _ ->|e [-> | ->] Hr|coll Hr|coll r Hop _ Hr|coll cursor n q e -> Hr]; rewrite Hr in Hmid || rewrite <- sent_requests in Hmid.
    + exists ([] ++ ks). split; [by apply Hmid|done].
    + exists ([] ++ ks). split; [by apply Hmid|done].
    + exists ([] ++ ks). split; [by apply Hmid|done].
    + exists ((if op is OpExists _ _ then [Find] else op_kinds op) ++ ks). split; [apply Hmid; by destruct op|]. by destruct op.
    + exists (op_kinds op ++ ks). split; [|done]. apply Hmid. destruct op as [| | | |q e]; try done. by destruct (Hop q e).
    + exists ([Next; Find] ++ ks). split; [by apply Hmid|done].
Qed.

Lemma wp_and {A} (m : M mworld A) (P Q : A → mworld → Prop) w : wp m P w → wp m Q w → wp m (λ a w', P a w' ∧ Q a w') w.
Proof. unfold wp. by destruct (m w). Qed.

Lemma wp_fst {A B} (m : M mworld A) (f : A → B) (Q : B → mworld → Prop) w : wp (a ← m; mret (f a)) Q w → wp m (λ a, Q (f a)) w.
Proof. unfold wp, mbind, M_bind. by destruct (m w). Qed.

(** A request and the code that checks its result. *)
Lemma op_check {A} (m : M mworld A) (code : A → Z) op fmt fs docs tr pool p ks t ctx next ps ks' :
  String.prefix "Error" fmt = true → ctx !! p = Some pool →
  mid tr (RPool pool :: RBlock p :: RLib :: (RDoc <$> docs)) ks t →
  wp m (λ r w, m_ctx w = ctx ∧ holds t (m_trace w) [] ∧ lines (m_trace w) = lines t ∧
    (∃ found, op_sent op t (m_trace w) (code r) found) ∧ code r ≠ mongo_code MONGO_ERR_COLL_UPDATE) (mk_mw t ctx) →
  (∀ r t', mid tr (RPool pool :: RBlock p :: RLib :: (RDoc <$> docs)) (op_kinds op ++ ks) t' → wp (next r) (result ps ks' tr) (mk_mw t' ctx)) →
  wp m (λ r, wp (check fmt fs docs (code r) (next r)) (result ps ks' tr)) (mk_mw t ctx).
Proof.
  intros Hf Hp Hm Hop Hnext. eapply wp_mono; [exact Hop|].
  intros r [t' ctx'] (Hc & Hh & Hl & [found Ho] & Hu). cbn in *. subst ctx'.
  destruct (op_mid _ _ _ _ _ _ _ _ Hm Hh Hl Ho) as (He & ks1 & Hm1 & Hk); [done|].
  eapply check_wp; [done|done|done|]. intros Hz. rewrite (Hk Hz) in Hm1. by apply Hnext.
Qed.

Ltac pointers := cbn [op_pointers]; rewrite ?list.Forall_cons, ?list.Forall_nil; repeat split; done.

(** What [op_check] asks of the operations; only an update can be refused without a message. *)
Lemma op_ran op p pool db coll t ctx : ctx !! p = Some pool → p ≠ NULL → Forall (λ q, q ≠ NULL) (op_pointers op) → (∀ q u, op ≠ OpUpdate q u) →
  wp (run_op op p (Some db) (Some coll)) (λ r w, m_ctx w = ctx ∧ holds t (m_trace w) [] ∧ lines (m_trace w) = lines t ∧
    (∃ found, op_sent op t (m_trace w) r.1 found) ∧ r.1 ≠ mongo_code MONGO_ERR_COLL_UPDATE) (mk_mw t ctx).
Proof.
  intros Hp Hn Hops Hu. eapply wp_mono; [by eapply op_spec|]. intros [ret found] w (Hc & Hh & Hl & Ho%outcome_sent). cbn in Ho.
  split; [done|]. split; [done|]. split; [done|]. split; [by eexists|]. cbn.
  destruct Ho as [|e [-> | ->]| | |]; try done. destruct op as [| | |q u|]; try done. by destruct (Hu q u).
Qed.

Lemma op_ran_code op m p pool db coll t ctx : run_op op p (Some db) (Some coll) = (r ← m; mret (r, None)) →
  ctx !! p = Some pool → p ≠ NULL → Forall (λ q, q ≠ NULL) (op_pointers op) → (∀ q u, op ≠ OpUpdate q u) →
  wp m (λ r w, m_ctx w = ctx ∧ holds t (m_trace w) [] ∧ lines (m_trace w) = lines t ∧
    (∃ found, op_sent op t (m_trace w) r found) ∧ r ≠ mongo_code MONGO_ERR_COLL_UPDATE) (mk_mw t ctx).
Proof. intros Hm Hp Hn Hops Hu. pose proof (op_ran op p pool db coll t ctx Hp Hn Hops Hu) as H. rewrite Hm in H. by apply wp_fst in H. Qed.

Lemma update_ran p pool db coll q u t ctx : ctx !! p = Some pool → p ≠ NULL → q ≠ NULL → u ≠ NULL →
  wp (mongo_doc_update p (Some db) (Some coll) q u) (λ r w, m_ctx w = ctx ∧ holds t (m_trace w) [] ∧ lines (m_trace w) = lines t ∧
    (∃ found, op_sent (OpUpdate q u) t (m_trace w) r found) ∧ r ≠ mongo_code MONGO_ERR_COLL_UPDATE) (mk_mw t ctx).
Proof using updates_accepted.
  intros Hp Hn Hq Hu. apply (wp_mono _ (λ r w, (m_ctx w = ctx ∧ holds t (m_trace w) [] ∧ lines (m_trace w) = lines t ∧
    op_sent (OpUpdate q u) t (m_trace w) r None) ∧ r ≠ mongo_code MONGO_ERR_COLL_UPDATE)).
  2: { intros r w ((? & ? & ? & ?) & ?). split; [done|]. split; [done|]. split; [done|]. split; [by eexists|done]. }
  apply wp_and.
  { assert (Forall (λ q, q ≠ NULL) (op_pointers (OpUpdate q u))) as Hops by pointers.
    pose proof (op_spec (OpUpdate q u) p pool db coll t ctx Hp Hn Hops) as H. cbn [run_op] in H. apply wp_fst in H.
    eapply wp_mono; [exact H|]. intros r w (? & ? & ? & ?%outcome_sent). done. }
  unfold mongo_doc_update. rewrite !(proj2 (Z.eqb_neq _ _)) by done. cbn [orb]. mc_run; try done.
  match goal with E : (?r =? 0) = true, H : ?r = mongoc_answer _ (mongoc_collection_update _ _ _) |- _ =>
    apply Z.eqb_eq in E; rewrite E in H; symmetry in H; by apply updates_accepted in H end.
Qed.

Lemma init_wp tr t l ks ctx (Q : unit → mworld → Prop) : mid tr l ks t →
  (∀ t', mid tr (RLib :: l) ks t' → Q tt (mk_mw t' ctx)) → wp mongo_api_init Q (mk_mw t ctx).
Proof.
  intros Hm HQ. unfold mongo_api_init. mc_run. apply HQ. eapply mid_call; [done|done|]. intros x. rewrite weight_cons. balance_at x.
Qed.

Lemma mid_refl tr : mid tr [] [] tr.
Proof. split; [apply holds_refl|done]. Qed.

Ltac start := mc_step; eapply init_wp; [apply mid_refl|]; let t := fresh "t" in let Hm := fresh "Hm" in intros t Hm.
Ltac doc_step d Hm := apply make_doc_wp with (ks := []); [done|done|by auto|exact Hm|]; clear Hm; let t := fresh "t" in let Hn := fresh "Hn" in intros d t Hn Hm.
Ltac pool_step docs p pool Hm :=
  apply (open_pool_wp _ _ _ docs) with (ks := []); [exact Hm|]; clear Hm; let t := fresh "t" in let Hn := fresh "Hn" in intros p pool t Hn Hm.
Ltac end_step := eapply finish_wp; [apply lookup_insert_eq|done|done|eassumption].

Lemma mongo_test1_wp tr ctx : wp test1 (result ["Test1 Passed"] [] tr) (mk_mw tr ctx).
Proof. unfold test1. start. pool_step (@nil Z) p pool Hm. end_step. Qed.

Lemma mongo_test3_wp tr ctx : wp test3 (result ["Test3 Passed"] [Next; Find] tr) (mk_mw tr ctx).
Proof using bson_named docs_made.
  unfold test3. start. doc_step bdoc Hm. pool_step [bdoc] p pool Hm. mc_step.
  eapply wp_mono; [eapply (op_check _ fst (OpExists bdoc local_var)) with (ks := []) (next := λ r, (if default false r.2 then say "DOC EXISTS!" [] else say "DOC DOES NOT EXIST!" []);; finish p "Test3 Failed" "Test3 Passed" [bdoc]);
    [|apply lookup_insert_eq|exact Hm|eapply (op_ran (OpExists bdoc local_var)); [apply lookup_insert_eq|done|pointers|done]|]|intros [ret found] w H; exact H].
  - done.
  - intros [ret found] t' Hm'. cbn [snd]. mc_step.
    destruct (default false found); apply mongo_say_wp; intros r; (eapply finish_wp; [apply lookup_insert_eq|done|done|by apply mid_said]).
Qed.

(** The operations that return a code. *)
Ltac code_step op Hm := mc_step; eapply (op_check _ id op); [done|apply lookup_insert_eq|exact Hm|
  first [eapply (op_ran_code op); [reflexivity|apply lookup_insert_eq|done|pointers|done]
        |eapply update_ran; [apply lookup_insert_eq|done..]]|];
  clear Hm; let t := fresh "t" in intros _ t Hm.

Lemma mongo_test2_wp tr ctx : wp (test2 sched) (result ["Test2 Passed"] [Insert; Insert] tr) (mk_mw tr ctx).
Proof using bson_named docs_made threads_created.
  unfold test2. start. doc_step bdoc Hm. pool_step [bdoc] p pool Hm.
  eapply workers_wp; [apply lookup_insert_eq|done|done|]. intros t' Hh' Hp' Hw. destruct Hm as (Hh & He & Hs & Hp).
  pose proof (holds_app _ _ _ _ _ Hh Hh') as Hh2. rewrite app_nil_r in Hh2.
  destruct Hw as [[He' Hs']|He']; [|eapply finish_failing_wp; [apply lookup_insert_eq|split; [done|lia]]].
  eapply finish_wp; [apply lookup_insert_eq|done|done|]. split; [done|]. split; [congruence|]. split; [|congruence]. by rewrite Hs', Hs.
Qed.

Lemma mongo_test4_wp tr ctx : wp test4 (result ["Test4 Passed"] [Update] tr) (mk_mw tr ctx).
Proof using bson_named docs_made updates_accepted.
  unfold test4. start. doc_step query Hm. doc_step tmp Hm. doc_step update Hm. pool_step [query; tmp; update] p pool Hm.
  code_step (OpUpdate query update) Hm. end_step.
Qed.

Lemma mongo_test5_wp tr ctx : wp test5 (result ["Test5 Passed"] [Insert; Index] tr) (mk_mw tr ctx).
Proof using bson_named docs_made.
  unfold test5. mc_step. mc_step. mc_step. eapply (init_wp tr _ [] []).
  { eapply mid_call; [apply mid_refl|done|]. intros x. balance_at x. }
  intros t Hm. doc_step bdoc Hm. doc_step keys Hm. pool_step [bdoc; keys] p pool Hm.
  code_step (OpIndex keys 10) Hm. code_step (OpInsert bdoc) Hm. end_step.
Qed.

Lemma mongo_test6_wp tr ctx : wp test6 (result ["Test6 Passed"] [Remove] tr) (mk_mw tr ctx).
Proof using bson_named docs_made.
  unfold test6. start. doc_step bdoc Hm. pool_step [bdoc] p pool Hm. code_step (OpRemove bdoc) Hm. end_step.
Qed.

End specs.

(** ** Theorems *)

(** The tree of calls of [mongo_insert_doc], run without interruption, is [mongo_insert_doc]. *)
Theorem insert_adequate {lib : MONGOC} mpool db coll doc w :
  denote (insert_prog mpool db coll doc) w = mongo_insert_doc mpool (Some db) (Some coll) doc w.
Proof.
  unfold insert_prog, mongo_insert_doc. destruct (_ || _); [done|]. cbn. apply bind_ext. intros pool w1. apply bind_ext. intros client w2.
  destruct (client =? NULL); [done|]. cbn. apply bind_ext. intros c w3. destruct (c =? NULL); [done|]. cbn.
  apply bind_ext. intros ok w4. by destruct (ok =? 0).
Qed.

(** C30: if the server refuses no update, threads can be created and the BSON library names its errors
    and makes no NULL document, then the test program of the MongoDB API, under every schedule of its
    two workers and whatever else the client library answers, returns 0.  If it has printed no error,
    then every client, collection, cursor, pool, document and block was given back exactly once, all
    seven runs of the tests are reported as passed and exactly their requests have been sent, in
    order.  Otherwise an error line was printed and what is still held are pools of clients with
    their block and the library, never a document, client, collection, cursor or URI, and
    nothing was given back twice.  A refused update is undefined behaviour, since its error has no
    message ([refused_update_undefined]). *)
Theorem mongo_tests_accounted {lib : MONGOC} sched tr ctx :
  (∀ tr code, code < 0 → mongoc_answer tr (bson_err_msg code) ≠ NULL) →
  (∀ tr elems, mongoc_answer tr (bson_doc_create elems) ≠ NULL) →
  (∀ tr i, mongoc_answer tr (pthread_create i) = 0) →
  (∀ tr coll q u, mongoc_answer tr (mongoc_collection_update coll q u) ≠ 0) →
  wp (main sched) (λ ret w, ret = 0 ∧
    tested ["Test6 Passed"; "Test5 Passed"; "Test4 Passed"; "Test3 Passed"; "Test2 Passed"; "Test3 Passed"; "Test1 Passed"]%string
      [Remove; Insert; Index; Update; Next; Find; Insert; Insert; Next; Find] tr (m_trace w)) (mk_mw tr ctx).
Proof.
  intros Hb Hd Ht Hu. unfold main.
  apply wp_bind. eapply wp_mono; [by apply mongo_test1_wp|]. intros [] [t1 c1] H1.
  apply wp_bind. eapply wp_mono; [by apply mongo_test3_wp|]. intros [] [t2 c2] H2.
  apply wp_bind. eapply wp_mono; [by apply mongo_test2_wp|]. intros [] [t3 c3] H3.
  apply wp_bind. eapply wp_mono; [by apply mongo_test3_wp|]. intros [] [t4 c4] H4.
  apply wp_bind. eapply wp_mono; [by apply mongo_test4_wp|]. intros [] [t5 c5] H5.
  apply wp_bind. eapply wp_mono; [by apply mongo_test5_wp|]. intros [] [t6 c6] H6.
  apply wp_bind. eapply wp_mono; [by apply mongo_test6_wp|]. intros [] [t7 c7] H7.
  apply wp_ret. split; [done|]. cbn [m_trace] in *.
  exact (tested_app _ _ _ _ _ _ _ (tested_app _ _ _ _ _ _ _ (tested_app _ _ _ _ _ _ _ (tested_app _ _ _ _ _ _ _
    (tested_app _ _ _ _ _ _ _ (tested_app _ _ _ _ _ _ _ H1 H2) H3) H4) H5) H6) H7).
Qed.

(** ** Concrete servers *)

(** Every call succeeds, but for the updates when [refuse] is set; addresses are fresh. *)
Definition test_server (refuse : bool) : MONGOC := λ tr c,
  match c with
  | pthread_create _ => 0
  | mongoc_collection_update _ _ _ => if refuse then 0 else 1
  | _ => 1 + Z.of_nat (length tr)
  end.

Lemma mongo_tests_accounted_witness :
  wp (main (lib := test_server false) (λ _, [0; 1; 1; 0; 1]%nat)) (λ ret w, ret = 0 ∧
    tested ["Test6 Passed"; "Test5 Passed"; "Test4 Passed"; "Test3 Passed"; "Test2 Passed"; "Test3 Passed"; "Test1 Passed"]%string
      [Remove; Insert; Index; Update; Next; Find; Insert; Insert; Next; Find] [] (m_trace w)) (mk_mw [] ∅).
Proof.
  apply (mongo_tests_accounted (lib := test_server false)).
  - intros tr code _. cbn. unfold NULL. lia.
  - intros tr elems. cbn. unfold NULL. lia.
  - done.
  - done.
Defined.

(** When the server refuses the update the program has no message to print: the fourth test is
    undefined. *)
Theorem refused_update_undefined : test4 (lib := test_server true) (mk_mw [] ∅) = Undef.
Proof. vm_compute. reflexivity. Qed.
