(* ===== verification/Redis.v ===== *)
(** * Programs that query a Redis server (other/redistest, other/redisConnectionTest)

    The programs connect with hiredis, send commands and print the replies.  hiredis is not
    in the repository (its header is) and is the class [HIREDIS], an arbitrary function from
    the history of calls and the addresses in use to the result of the next call; the replies
    it makes, the contexts and the blocks of the program live in one address space.  Most
    programs are copies of one another: a function that is the same text in several files is
    defined once and named again in the module of each file.  Line ends are left out of the
    formats. *)

From Stdlib Require Import ZArith Lia ZifyBool.
From stdpp Require Import base gmap list strings numbers.
From S2P Require Import Prelude Posix.

(** ** Replies (hiredis.h)

    The length of a reply's string is that of the list; the byte after it is 0. *)
Unset Elimination Schemes.
Inductive redisReply :=
| REDIS_REPLY_STRING (str : list Z)
| REDIS_REPLY_ARRAY (element : list redisReply)
| REDIS_REPLY_INTEGER (integer : Z)
| REDIS_REPLY_NIL
| REDIS_REPLY_STATUS (str : list Z)
| REDIS_REPLY_ERROR (str : list Z).
Set Elimination Schemes.

(** The field [str]; [None] is NULL. *)
Definition r_str (r : redisReply) : option (list Z) :=
  match r with REDIS_REPLY_STRING s | REDIS_REPLY_STATUS s | REDIS_REPLY_ERROR s => Some s | _ => None end.

Definition r_len (r : redisReply) : Z := Z.of_nat (length (default [] (r_str r))).

(** ** Calls *)

Inductive arg := AInt (n : Z) | AStr (bytes : list Z).

Inductive rcall :=
| redisConnect (ip : string) (port : Z)
| redisFree (context : Z)
| redisCommand (context : Z) (format : string) (args : list arg)
| freeReplyObject (reply : Z)
| malloc (size : Z)
| calloc (n size : Z)
| free (p : Z)
| printf (fmt : string) (args : list arg)
| sleep (seconds : Z).

(** The pointer a call returns, the error flag and text of the context, the reply, and what a
    block from [malloc] holds. *)
Record answer := mk_answer { a_ptr : Z; a_err : Z; a_text : list Z; a_reply : redisReply; a_junk : list Z }.

Definition revent : Type := rcall * answer.

Class HIREDIS := redis_answer : list revent → gset Z → rcall → answer.

(** The history, the globals of the programs, and the objects in memory. *)
Record rworld := mk_rw {
  r_trace : list revent;
  gContext : Z;
  gReply : Z;
  contexts : gset Z;
  replies : gmap Z redisReply;
  mem : gmap Z (list Z) }.

Definition live (w : rworld) : gset Z := contexts w ∪ dom (replies w) ∪ dom (mem w).

Definition set_contexts (f : gset Z → gset Z) (w : rworld) : rworld := mk_rw (r_trace w) (gContext w) (gReply w) (f (contexts w)) (replies w) (mem w).
Definition set_replies (f : gmap Z redisReply → gmap Z redisReply) (w : rworld) : rworld :=
  mk_rw (r_trace w) (gContext w) (gReply w) (contexts w) (f (replies w)) (mem w).
Definition set_mem (f : gmap Z (list Z) → gmap Z (list Z)) (w : rworld) : rworld :=
  mk_rw (r_trace w) (gContext w) (gReply w) (contexts w) (replies w) (f (mem w)).
Definition set_gContext (c : Z) (w : rworld) : rworld := mk_rw (r_trace w) c (gReply w) (contexts w) (replies w) (mem w).
Definition set_gReply (r : Z) (w : rworld) : rworld := mk_rw (r_trace w) (gContext w) r (contexts w) (replies w) (mem w).

(** ** Decimal numbers *)

Definition digit (n : Z) : string := String (Ascii.ascii_of_N (Z.to_N (48 + n))) EmptyString.

Fixpoint dec_fuel (fuel : nat) (n : Z) : string :=
  match fuel with
  | O => EmptyString
  | S fuel => if n <? 10 then digit n else dec_fuel fuel (n / 10) +:+ digit (n mod 10)
  end.

(** [%d] of a number of at most ten digits that is not negative. *)
Definition dec (n : Z) : string := dec_fuel 10 n.

(** ** The calls of the programs *)

Section code.
Context {hr : HIREDIS}.
Abbreviation RM := (M rworld).

Definition rcall_ (c : rcall) : RM answer := λ w,
  let a := redis_answer (r_trace w) (live w) c in
  Ok a (mk_rw ((c, a) :: r_trace w) (gContext w) (gReply w) (contexts w) (replies w) (mem w)).

Definition say (fmt : string) (args : list arg) : RM unit := rcall_ (printf fmt args);; mret tt.

(** A new context; the program looks into it, so that NULL is undefined. *)
Definition connect (ip : string) (port : Z) : RM answer :=
  a ← rcall_ (redisConnect ip port);
  if a_ptr a =? NULL then undef else modify (set_contexts (union {[a_ptr a]}));; mret a.

Definition disconnect (context : Z) : RM unit :=
  w ← get_st;
  if bool_decide (context ∈ contexts w) then rcall_ (redisFree context);; modify (set_contexts (λ s, s ∖ {[context]})) else undef.

(** The pointer to the reply is in the answer. *)
Definition command (context : Z) (format : string) (args : list arg) : RM answer :=
  w ← get_st;
  if bool_decide (context ∈ contexts w) then
    a ← rcall_ (redisCommand context format args);
    (if a_ptr a =? NULL then mret tt else modify (set_replies (insert (a_ptr a) (a_reply a))));;
    mret a
  else undef.

Definition get_reply (p : Z) : RM redisReply := w ← get_st; expect (replies w !! p).

Definition free_reply (p : Z) : RM unit := get_reply p;; rcall_ (freeReplyObject p);; modify (set_replies (delete p)).

Definition r_malloc (size : Z) (cells : Z) : RM Z :=
  a ← rcall_ (malloc size);
  (if a_ptr a =? NULL then mret tt else modify (set_mem (insert (a_ptr a) (resize (Z.to_nat cells) 0 (a_junk a)))));;
  mret (a_ptr a).

(** [cells] is the number of bytes, or of pointers. *)
Definition r_calloc (n size : Z) (cells : Z) : RM Z :=
  a ← rcall_ (calloc n size);
  (if a_ptr a =? NULL then mret tt else modify (set_mem (insert (a_ptr a) (replicate (Z.to_nat cells) 0))));;
  mret (a_ptr a).

Definition r_free (p : Z) : RM unit :=
  if p =? NULL then rcall_ (free p);; mret tt
  else w ← get_st; expect (mem w !! p);; rcall_ (free p);; modify (set_mem (delete p)).

Definition load (p i : Z) : RM Z := w ← get_st; b ← expect (mem w !! p); expect (b !! Z.to_nat i).

Definition store (p i v : Z) : RM unit :=
  w ← get_st; b ← expect (mem w !! p);
  if (0 <=? i) && (i <? Z.of_nat (length b)) then modify (set_mem (insert p (<[Z.to_nat i := v]> b))) else undef.

(** [strcpy] and [memcpy] into a block. *)
Definition copy (p : Z) (bytes : list Z) : RM unit :=
  w ← get_st; b ← expect (mem w !! p);
  if Z.of_nat (length bytes) <=? Z.of_nat (length b) then modify (set_mem (insert p (bytes ++ drop (length bytes) b))) else undef.

Definition strcpy (p : Z) (src : option (list Z)) : RM unit := s ← expect src; copy p (cstr s ++ [0]).

(** The string in a block. *)
Definition string_at (p : Z) : RM (list Z) :=
  w ← get_st; b ← expect (mem w !! p); if bool_decide (0 ∈ b) then mret (cstr b) else undef.

(** [sprintf] into an array of [n] characters. *)
Definition sprintf (n : Z) (text : string) : RM string := if Z.of_nat (String.length text) <? n then mret text else undef.

(** ** Functions that several programs share *)

Definition connect2redis (ip : string) (port : Z) : RM unit :=
  a ← connect ip port;
  modify (set_gContext (a_ptr a));;
  if negb (a_err a =? 0) then say "ERROR : %s " [AStr (a_text a)];; exit_with 1
  else say "Connected successfully to redis at %s:%d" [AStr (codes ip); AInt port].

(** The branches of [executeCommand] on the reply: test.c inserts a label, with the conversion
    [t] and the argument [tag]; [sep] is the format of an element. *)
Definition print_elements (sep : string) (es : list redisReply) : RM unit :=
  for_range (length es) 0 (λ i _, e ← expect (es !! Z.to_nat i); s ← expect (r_str e); say sep [AStr (cstr s)]) tt;;
  say "" [].

Definition print_reply (t : string) (tag : list arg) (sep : string) (r : redisReply) : RM unit :=
  match r with
  | REDIS_REPLY_STRING s =>
      say ("REPLY" +:+ t +:+ " string of lenght %d : %s") (tag ++ [AInt (Z.of_nat (length (cstr s))); AStr (cstr s)])
  | REDIS_REPLY_INTEGER n => say ("REPLY" +:+ t +:+ " integer : %lld") (tag ++ [AInt n])
  | REDIS_REPLY_STATUS s => say "REPLY status: %s" [AStr (cstr s)]
  | REDIS_REPLY_ERROR s => say "ERROR error: %s" [AStr (cstr s)]
  | REDIS_REPLY_NIL => say "REPLY : nil" []
  | REDIS_REPLY_ARRAY es => say ("REPLY" +:+ t +:+ " : ARRAY") tag;; print_elements sep es
  end.

(** Send a command and store the reply; the process ends when there is none. *)
Definition obtain (t : string) (tag : list arg) (format : string) (args : list arg) : RM redisReply :=
  w ← get_st;
  a ← command (gContext w) format args;
  modify (set_gReply (a_ptr a));;
  if a_ptr a =? NULL then say ("ERROR" +:+ t +:+ " : %s") (tag ++ [AStr (a_text a)]);; exit_with 1 else mret (a_reply a).

Definition executeCommand (sep : string) (mycmd : string) : RM unit :=
  r ← obtain "" [] mycmd []; print_reply "" [] sep r.

Definition freeReply : RM unit := w ← get_st; free_reply (gReply w).
Definition closeContext : RM unit := w ← get_st; disconnect (gContext w).

(** The shape of the five programs that send a numbered command a million times. *)
Definition numbered_round (size : Z) (mycmd : Z → string) (i : Z) (_ : unit) : RM unit :=
  c ← sprintf size (mycmd i);
  executeCommand "%s " c;;
  freeReply.

Definition numbered (ip : string) (port size : Z) (mycmd : Z → string) (rounds : Z) : RM Z :=
  connect2redis ip port;;
  for_range (Z.to_nat rounds) 0 (numbered_round size mycmd) tt;;
  closeContext;;
  mret 0.

(** The shape of the two programs that send one command. *)
Definition single (ip : string) (port size : Z) (mycmd : string) : RM Z :=
  connect2redis ip port;;
  c ← sprintf size mycmd;
  executeCommand "%s" c;;
  freeReply;;
  closeContext;;
  mret 0.

(** The shape of the three programs that copy an array of keys: [executeCommand] stores the
    copies and their number, or leaves both alone; [echo] tells whether it prints them. *)
Definition copy_key (echo : bool) (es : list redisReply) (keys : Z) (i : Z) (_ : unit) : RM unit :=
  e ← expect (es !! Z.to_nat i);
  (if echo then s ← expect (r_str e); say "%s " [AStr (cstr s)] else mret tt);;
  k ← r_calloc (r_len e + 1) 1 (r_len e + 1);
  store keys i k;;
  strcpy k (r_str e).

Definition execute_keys (echo : bool) (mycmd : string) : RM (option (Z * Z)) :=
  r ← obtain "" [] mycmd [];
  match r with
  | REDIS_REPLY_ARRAY es =>
      say "REPLY : ARRAY" [];;
      let num := sgn 32 (Z.of_nat (length es)) in
      keys ← r_calloc num 8 num;
      for_range (length es) 0 (copy_key echo es keys) tt;;
      say "" [];;
      mret (Some (keys, num))
  | r => print_reply "" [] "" r;; mret None
  end.

Definition show_key (fmt : string) (keys i : Z) (_ : unit) : RM unit := p ← load keys i; s ← string_at p; say fmt [AStr s].
Definition free_key (keys i : Z) (_ : unit) : RM unit := p ← load keys i; r_free p;; store keys i NULL.

Definition list_keys (echo : bool) (mycmd : string) : RM Z :=
  connect2redis "172.19.10.31" 6905;;
  c ← sprintf 32 mycmd;
  o ← execute_keys echo c;
  freeReply;;
  '(key, num) ← expect o;
  for_range (Z.to_nat num) 0 (show_key "%s " key) tt;;
  for_range (Z.to_nat num) 0 (free_key key) tt;;
  r_free key;;
  closeContext;;
  mret 0.

End code.

(** ** The programs *)

Module GetTest.
Section code.
Context {hr : HIREDIS}.
Definition connect2redis := connect2redis.
Definition executeCommand := executeCommand "%s ".
Definition main : M rworld Z := numbered "127.0.0.1" 63222 32 (λ i, "get " +:+ "mohit" +:+ dec i) 1000000.
End code.
End GetTest.

Module SetTest.
Section code.
Context {hr : HIREDIS}.
Definition connect2redis := connect2redis.
Definition executeCommand := executeCommand "%s ".
Definition main : M rworld Z := numbered "172.19.3.25" 6379 128 (λ i, "set " +:+ "mohit" +:+ dec i +:+ " " +:+ "11") 1000000.
End code.
End SetTest.

Module ZaddTest.
Section code.
Context {hr : HIREDIS}.
Definition connect2redis := connect2redis.
Definition executeCommand := executeCommand "%s ".
Definition main : M rworld Z :=
  numbered "172.19.10.31" 6905 32 (λ i, "zadd sortedset " +:+ dec i +:+ " " +:+ "member" +:+ dec i) 1000000.
End code.
End ZaddTest.

Module SismemberTest.
Section code.
Context {hr : HIREDIS}.
Definition connect2redis := connect2redis.
Definition executeCommand := executeCommand "%s ".
Definition main : M rworld Z := numbered "127.0.0.1" 63222 32 (λ i, "sismember mySet  " +:+ "singh" +:+ dec i) 1000000.
End code.
End SismemberTest.

Module TestSet.
Section code.
Context {hr : HIREDIS}.
Definition connect2redis := connect2redis.
Definition executeCommand := executeCommand "%s ".
Definition main : M rworld Z := numbered "127.0.0.1" 63222 32 (λ i, "sadd mySet  " +:+ "singh" +:+ dec i) 1000000.
End code.
End TestSet.

Module ZrangeTest.
Section code.
Context {hr : HIREDIS}.
Definition connect2redis := connect2redis.
Definition executeCommand := executeCommand "%s".
Definition main : M rworld Z := single "172.19.10.31" 6905 32 "zrangebyscore sortedset 0 999999 withscores".
End code.
End ZrangeTest.

Module My.
Section code.
Context {hr : HIREDIS}.
Definition connect2redis := connect2redis.
Definition executeCommand := executeCommand "%s".
Definition main : M rworld Z := single "172.19.13.25" 6379 32 "zrevrange cache_prq 0 200".
End code.
End My.

Module GetKeys.
Section code.
Context {hr : HIREDIS}.
Definition connect2redis := connect2redis.
Definition executeCommand := execute_keys false.
Definition main : M rworld Z := list_keys false "keys *".
End code.
End GetKeys.

Module DelKeys.
Section code.
Context {hr : HIREDIS}.
Definition connect2redis := connect2redis.
Definition executeCommand := execute_keys false.
Definition main : M rworld Z := list_keys false "keys *".
End code.
End DelKeys.

Module GetSortedKeys.
Section code.
Context {hr : HIREDIS}.
Definition connect2redis := connect2redis.
Definition executeCommand := execute_keys true.
Definition main : M rworld Z := list_keys true "ZRANGEBYSCORE my 0 2".
End code.
End GetSortedKeys.

(** other/redistest/setHash.c *)
Module SetHash.
Section code.
Context {hr : HIREDIS}.
Definition connect2redis := connect2redis.
Definition executeCommand := executeCommand "%s ".

(** What is stored is the array [test], which holds zeros, not [values[i]]. *)
Definition setHash (keys values num : Z) : M rworld unit :=
  for_range (Z.to_nat num) 0 (λ i _,
    k ← load keys i;
    s ← string_at k;
    w ← get_st;
    a ← command (gContext w) "hset h1 %s %s" [AStr s; AStr []];
    modify (set_gReply (a_ptr a));;
    free_reply (a_ptr a)) tt.

Definition getHash (keys num : Z) : M rworld Z :=
  values ← r_calloc num 8 num;
  for_range (Z.to_nat num) 0 (λ i _,
    k ← load keys i;
    s ← string_at k;
    w ← get_st;
    a ← command (gContext w) "hget h1 %s" [AStr s];
    modify (set_gReply (a_ptr a));;
    r ← get_reply (a_ptr a);
    p ← r_calloc (r_len r + 1) 1 (r_len r + 1);
    store values i p;;
    say "len = %d" [AInt (r_len r)];;
    strcpy p (r_str r);;
    free_reply (a_ptr a)) tt;;
  mret values.

Definition main : M rworld Z :=
  connect2redis "172.19.10.31" 6905;;
  keys ← r_calloc 2 8 2;
  values ← r_calloc 2 8 2;
  for_range 2 0 (λ i _,
    k ← r_calloc 8 1 8;
    store keys i k;;
    v ← r_calloc 8 1 8;
    store values i v;;
    k ← load keys i;
    copy k (codes ("k" +:+ dec i) ++ [0]);;
    v ← load values i;
    copy v (codes ("v" +:+ dec i) ++ [0])) tt;;
  setHash keys values 2;;
  retValues ← getHash keys 2;
  for_range 2 0 (show_key "rv = %s" retValues) tt;;
  closeContext;;
  mret 0.
End code.
End SetHash.

(** other/redistest/getsetStruct.c *)
Module GetSetStruct.

(** The bytes of an integer, lowest first, and back. *)
Fixpoint le (n : nat) (z : Z) : list Z := match n with O => [] | S n => z mod 256 :: le n (z / 256) end.
Fixpoint unle (l : list Z) : Z := match l with [] => 0 | b :: l => b + 256 * unle l end.

Section code.
Context {hr : HIREDIS}.
Definition connect2redis := connect2redis.

Definition setstruct (ptr : Z) (size : Z) : M rworld unit :=
  w ← get_st;
  b ← expect (mem w !! ptr);
  if Z.of_nat (length b) <? size then undef
  else
    r ← obtain "" [] "set h_mohit %b" [AStr (take (Z.to_nat size) b)];
    match r with
    | REDIS_REPLY_ERROR s => say "ERROR error: %s" [AStr (cstr s)]
    | _ => say "struct set!!!" []
    end.

(** What is stored in [*ptr], which was NULL. *)
Definition getstruct : M rworld Z :=
  r ← obtain "" [] "get h_mohit" [];
  match r with
  | REDIS_REPLY_ERROR s => say "ERROR error: %s" [AStr (cstr s)];; mret NULL
  | REDIS_REPLY_STRING s =>
      let len := Z.of_nat (length s) in
      say "REPLY string of lenght %d : %s" [AInt len; AStr (cstr s)];;
      p ← r_calloc len 1 len;
      copy p s;;
      mret p
  | _ => mret NULL
  end.

(** [MY] is a pointer of eight bytes, an integer of four and padding. *)
Definition set_field (p off : Z) (bytes : list Z) : M rworld unit :=
  for_range (length bytes) 0 (λ i _, b ← expect (bytes !! Z.to_nat i); store p (off + i) b) tt.

Definition get_field (p off : Z) (n : nat) : M rworld Z :=
  w ← get_st; b ← expect (mem w !! p);
  if Z.of_nat (length b) <? off + Z.of_nat n then undef else mret (unle (take n (drop (Z.to_nat off) b))).

Definition main : M rworld Z :=
  connect2redis "172.19.10.31" 6905;;
  m1 ← r_calloc 1 16 16;
  name ← r_calloc 16 1 16;
  set_field m1 0 (le 8 name);;
  strcpy name (Some (codes "mohit"));;
  set_field m1 8 (le 4 1234);;
  setstruct m1 16;;
  pData ← getstruct;
  name ← get_field pData 0 8;
  s ← string_at name;
  vol ← get_field pData 8 4;
  say "devlog : %s %d" [AStr s; AInt (sgn 32 vol)];;
  r_free m1;;
  r_free pData;;
  freeReply;;
  closeContext;;
  mret 0.
End code.
End GetSetStruct.

(** other/redistest/1.c *)
Module SetMembers.
Section code.
Context {hr : HIREDIS}.
Definition connect2redis := connect2redis.

(** The array of copies that both functions make; [size] is the size given to [malloc] for an
    element of a length. *)
Definition copy_elements (size : Z → Z) (es : list redisReply) : M rworld (Z * Z) :=
  let arr_size := sgn 32 (Z.of_nat (length es)) in
  arr ← r_malloc (8 * arr_size) arr_size;
  for_range (Z.to_nat arr_size) 0 (λ i _,
    e ← expect (es !! Z.to_nat i);
    p ← r_malloc (size (r_len e)) (size (r_len e));
    store arr i p;;
    strcpy p (r_str e)) tt;;
  mret (arr, arr_size).

(** The common end: the code of a reply, and the reply is freed on every path. *)
Definition reply_code (size : Z → Z) (a : answer) : M rworld (Z * option (Z * Z)) :=
  if a_ptr a =? NULL then mret (-2, None)
  else
    r ← get_reply (a_ptr a);
    res ← match r with
      | REDIS_REPLY_ERROR _ => mret (-3, None)
      | REDIS_REPLY_NIL => mret (-4, None)
      | REDIS_REPLY_ARRAY es => arr ← copy_elements size es; mret (0, Some arr)
      | _ => mret (-5, None)
      end;
    free_reply (a_ptr a);;
    mret res.

(** [arr] and [arr_size] tell whether the pointers are not NULL; the result with what is stored
    through them. *)
Definition redis_sorted_set_revrange (context : Z) (key : option (list Z)) (with_scores min max : Z) (arr arr_size : bool) : M rworld (Z * option (Z * Z)) :=
  match key with
  | Some key =>
      if (context =? NULL) || negb arr || negb arr_size then mret (-1, None)
      else
        a ← command context (if with_scores =? 1 then "ZREVRANGE %s %ld %ld withscores" else "ZREVRANGE %s %ld %ld") [AStr key; AInt min; AInt max];
        reply_code (λ len, len + 1) a
  | None => mret (-1, None)
  end.

Definition redis_set_members (context : Z) (key : option (list Z)) (arr arr_size : bool) : M rworld (Z * option (Z * Z)) :=
  match key with
  | Some key =>
      if (context =? NULL) || negb arr || negb arr_size then mret (-1, None)
      else a ← command context "SMEMBERS %s" [AStr key]; reply_code (λ len, 8 * len + 1) a
  | None => mret (-1, None)
  end.

Definition main : M rworld Z :=
  connect2redis "172.19.13.25" 6379;;
  w ← get_st;
  '(ret, out) ← redis_set_members (gContext w) (Some (codes "test")) true true;
  if ret <? 0 then say "Error in redis_sorted_set_revrange" [];; mret 1
  else
    let '(arr, arr_size) := default (NULL, 0) out in
    for_range (Z.to_nat arr_size) 0 (show_key "[%s]" arr) tt;;
    closeContext;;
    mret 0.
End code.
End SetMembers.

(** other/redistest/test.c: two threads that share the context and the last reply. *)
Module TwoThreads.
Section code.
Context {hr : HIREDIS}.
Definition connect2redis := connect2redis.

Definition executeCommand (mycmd s : string) : M rworld unit :=
  r ← obtain "%s" [AStr (codes s)] mycmd []; print_reply "%s" [AStr (codes s)] "%s " r.

(** A round of each thread's loop. *)
Definition func1_round : M rworld unit :=
  c ← sprintf 256 "get mohit"; executeCommand c "1";; rcall_ (sleep 1);; mret tt.

Definition func2_round : M rworld unit :=
  c ← sprintf 256 "keys *"; executeCommand c "2";; rcall_ (sleep 1);; mret tt.

(** [main] connects and starts the threads; the schedule says whose round is next.  Rounds do not
    overlap: two threads inside one context is undefined behaviour, which nothing in the program
    excludes.  The rest of [main] is not reached. *)
Fixpoint run_rounds (sched : list bool) : M rworld unit :=
  match sched with [] => mret tt | first :: sched => (if (first : bool) then func1_round else func2_round);; run_rounds sched end.

Definition main (sched : list bool) : M rworld unit := connect2redis "172.19.10.31" 6905;; run_rounds sched.
End code.
End TwoThreads.

(** other/redisConnectionTest/redisConnectionTest.c *)
Module ConnectionTest.
Section code.
Context {hr : HIREDIS}.

Definition connect2redis (ip : option string) (port : Z) : M rworld Z :=
  match ip with
  | None => say "%s : NULL params received !!!" [AStr (codes "connect2redis")];; mret (-1)
  | Some ip =>
      if port <? 0 then say "%s : NULL params received !!!" [AStr (codes "connect2redis")];; mret (-1)
      else
        a ← connect ip port;
        modify (set_gContext (a_ptr a));;
        if negb (a_err a =? 0) then
          say "%s : Error [%d] [%s] connecting to redis" [AStr (codes "connect2redis"); AInt (a_err a); AStr (a_text a)];; mret (-1)
        else say "%s : Connected successfully to Redis at %s:%d" [AStr (codes "connect2redis"); AStr (codes ip); AInt port];; mret 0
  end.

(** The code and what is stored in [*value], if anything. *)
Definition getKey (context : Z) (key : option (list Z)) (value : bool) : M rworld (Z * option Z) :=
  match key with
  | Some key =>
      if (context =? NULL) || negb value then say "%s: NULL params received !!!" [AStr (codes "getKey")];; mret (-1, None)
      else
        a ← command context "GET %s" [AStr key];
        if a_ptr a =? NULL then
          say "%s: ERROR(reply null) [%d] [%s] in getting  REDIS key" [AStr (codes "getKey"); AInt (a_err a); AStr (a_text a)];; mret (-1, None)
        else
          r ← get_reply (a_ptr a);
          res ← match r with
            | REDIS_REPLY_ERROR s => say "%s: ERROR(reply err) [%s] in getting  REDIS key" [AStr (codes "getKey"); AStr (cstr s)];; mret (-1, None)
            | REDIS_REPLY_NIL => say "%s: ERROR(reply nil) in getting REDIS key" [AStr (codes "getKey")];; mret (-1, None)
            | REDIS_REPLY_STRING s =>
                p ← r_calloc (r_len r + 1) 1 (r_len r + 1);
                strcpy p (Some s);;
                mret (0, Some p)
            | _ => mret (-1, None)
            end;
          free_reply (a_ptr a);;
          mret res
  | None => say "%s: NULL params received !!!" [AStr (codes "getKey")];; mret (-1, None)
  end.

(** A round of the loop of [main]; [value] is NULL at its start. *)
Definition main_round : M rworld unit :=
  w ← get_st;
  '(ret, out) ← getKey (gContext w) (Some (codes "foo")) true;
  let value := default NULL out in
  (if ret <? 0 then rcall_ (sleep 10);; mret tt
   else s ← string_at value; say "foo -> %s" [AStr s]);;
  r_free value;;
  rcall_ (sleep 10);;
  mret tt.

(** [main]: the loop has no end; the model runs some rounds of it.  [port] is [atoi(argv[2])],
    which is undefined when there is no such argument. *)
Definition main (rounds : nat) (argv : list string) (atoi : string → Z) : M rworld unit :=
  if (length argv <? 2)%nat then
    say "%s : Wrong no of arguments to the program Usage : %s <redis IP> <redis Port> " [AStr (codes "main"); AStr (codes (default EmptyString (head argv)))];; exit_with 1
  else
    ip ← expect (argv !! 1%nat);
    ip ← expect (c_string (strncpy 16 ip));
    port ← expect (argv !! 2%nat);
    say "%s : gRedisIP [%s] gRedisPort [%d]" [AStr (codes "main"); AStr (codes ip); AInt (atoi port)];;
    ret ← connect2redis (Some ip) (atoi port);
    if ret <? 0 then exit_with 1 else for_range rounds 0 (λ _ _, main_round) tt.
End code.
End ConnectionTest.

(** ** Rules *)

(** What the theorems assume of the library and the allocator: new objects are at new
    addresses. *)
Class HIREDIS_OK (hr : HIREDIS) := { fresh_ptr : ∀ tr used c, a_ptr (redis_answer tr used c) ∉ used }.

(** There is memory. *)
Class HIREDIS_MEM (hr : HIREDIS) := {
  malloc_some : ∀ tr used size, a_ptr (redis_answer tr used (malloc size)) ≠ NULL;
  calloc_some : ∀ tr used n size, a_ptr (redis_answer tr used (calloc n size)) ≠ NULL }.

(** The commands that a history sent, newest first, and the same with the replies. *)
Definition commands (tr : list revent) : list (string * list arg) :=
  omap (λ e, match e.1 with redisCommand _ format args => Some (format, args) | _ => None end) tr.

Definition exchanges (tr : list revent) : list (string * list arg * redisReply) :=
  omap (λ e, match e.1 with redisCommand _ format args => Some (format, args, a_reply e.2) | _ => None end) tr.

Lemma exchanges_commands tr : commands tr = fst <$> exchanges tr.
Proof. induction tr as [|[c a] tr IH]; [done|]. destruct c; cbn; [done..| |done|done|done|done|done|done]. by f_equal. Qed.

(** What it printed, newest first. *)
Definition printed (tr : list revent) : list (string * list arg) :=
  omap (λ e, match e.1 with printf fmt args => Some (fmt, args) | _ => None end) tr.

Section rules.
Context {hr : HIREDIS} (E : Z → rworld → Prop).
Implicit Types (tr : list revent) (cs : gset Z) (rs : gmap Z redisReply) (m : gmap Z (list Z)).

Lemma ends_ret {A} (a : A) (Q : A → rworld → Prop) w : Q a w → ends (mret a) Q E w.
Proof. done. Qed.

Lemma ends_rcall c tr g r cs rs m (Q : answer → rworld → Prop) :
  (∀ a, a = redis_answer tr (cs ∪ dom rs ∪ dom m) c → Q a (mk_rw ((c, a) :: tr) g r cs rs m)) → ends (rcall_ c) Q E (mk_rw tr g r cs rs m).
Proof. intros H. by apply H. Qed.

Lemma ends_say fmt args tr g r cs rs m (Q : unit → rworld → Prop) :
  (∀ a, Q tt (mk_rw ((printf fmt args, a) :: tr) g r cs rs m)) → ends (say fmt args) Q E (mk_rw tr g r cs rs m).
Proof. intros H. apply H. Qed.

Lemma ends_get (Q : rworld → rworld → Prop) w : Q w w → ends get_st Q E w.
Proof. done. Qed.

Lemma ends_modify f (Q : unit → rworld → Prop) w : Q tt (f w) → ends (modify f) Q E w.
Proof. done. Qed.

Lemma ends_expect {A} (o : option A) a (Q : A → rworld → Prop) w : o = Some a → Q a w → ends (expect o) Q E w.
Proof. by intros ->. Qed.

Lemma ends_no_exit {A} (m : M rworld A) Q w : ends m Q (λ _ _, False) w ↔ wp m Q w.
Proof. unfold ends, wp. by destruct (m w). Qed.

End rules.

Ltac r_step :=
  lazymatch goal with
  | |- ends (mbind _ _) _ _ _ => apply ends_bind; cbn beta
  | |- ends (mret _) _ _ _ => apply ends_ret; cbn beta
  | |- ends get_st _ _ _ => apply ends_get; cbn [r_trace gContext gReply contexts replies mem]
  | |- ends (modify _) _ _ _ => apply ends_modify; unfold set_contexts, set_replies, set_mem, set_gContext, set_gReply; cbn [r_trace gContext gReply contexts replies mem]
  | |- ends (exit_with _) _ _ _ => apply ends_exit
  | |- ends (rcall_ _) _ _ _ => apply ends_rcall; let a := fresh "a" in let Ha := fresh "Ha" in intros a Ha
  | |- ends (say _ _) _ _ _ => apply ends_say; let a := fresh "a" in intros a
  | |- ends (if ?x then _ else _) _ _ _ => let E := fresh "E" in destruct x eqn:E; try discriminate E
  end.

Ltac r_run := repeat r_step.

(** ** Decimal numbers *)

Lemma string_length_app s t : String.length (s +:+ t) = (String.length s + String.length t)%nat.
Proof. induction s as [|c s IH]; [done|]. change (S (String.length (s +:+ t)) = S (String.length s + String.length t))%nat. by rewrite IH. Qed.

Lemma dec_fuel_length k fuel n : 0 ≤ n < 10 ^ Z.of_nat (S k) → (String.length (dec_fuel fuel n) ≤ S k)%nat.
Proof.
  revert fuel n. induction k as [|k IH]; intros fuel n Hn; (destruct fuel as [|fuel]; [cbn; lia|]); cbn [dec_fuel].
  - destruct (Z.ltb_spec n 10); [done|]. cbn in Hn. lia.
  - destruct (Z.ltb_spec n 10); [cbn; lia|]. rewrite string_length_app. cbn [String.length digit].
    assert (String.length (dec_fuel fuel (n / 10)) ≤ S k)%nat; [|lia]. apply IH.
    rewrite Nat2Z.inj_succ, Z.pow_succ_r in Hn by lia. split; [apply Z.div_pos; lia|]. apply Z.div_lt_upper_bound; lia.
Qed.

Lemma dec_length_small n : 0 ≤ n < 1000000 → (String.length (dec n) ≤ 6)%nat.
Proof. intros Hn. by apply (dec_fuel_length 5). Qed.

(** ** Commands and replies *)

Definition printable (r : redisReply) : Prop :=
  match r with REDIS_REPLY_ARRAY es => Forall (λ e, is_Some (r_str e)) es | _ => True end.

(** Only lines were added to the history. *)
Definition lines_only (tr tr' : list revent) : Prop := commands tr' = commands tr.

Section specs.
Context {hr : HIREDIS} (E : Z → rworld → Prop).
Implicit Types (tr : list revent) (cs : gset Z) (rs : gmap Z redisReply) (m : gmap Z (list Z)).

Lemma print_elements_ends sep es tr g r cs rs m : Forall (λ e, is_Some (r_str e)) es →
  ends (print_elements sep es) (λ _ w, ∃ tr', w = mk_rw tr' g r cs rs m ∧ lines_only tr tr') E (mk_rw tr g r cs rs m).
Proof.
  intros Hes. unfold print_elements. r_step.
  eapply ends_mono; [apply (ends_for_range _ (λ _ _ w, ∃ tr', w = mk_rw tr' g r cs rs m ∧ lines_only tr tr'))|].
  - by exists tr.
  - intros i [] w Hi (tr' & -> & Hl). r_step.
    destruct (lookup_lt_is_Some_2 es (Z.to_nat i)) as [e He]; [lia|]. eapply ends_expect; [done|]. r_step.
    destruct (Forall_lookup_1 _ _ _ _ Hes He) as [s Hs]. eapply ends_expect; [done|]. r_step. by eexists.
  - intros [] w (tr' & -> & Hl). r_step. by eexists.
Qed.

Lemma print_reply_ends t tag sep rep tr g r cs rs m : printable rep →
  ends (print_reply t tag sep rep) (λ _ w, ∃ tr', w = mk_rw tr' g r cs rs m ∧ lines_only tr tr') E (mk_rw tr g r cs rs m).
Proof.
  intros Hp. destruct rep; cbn [print_reply printable] in *; r_run; try by eexists.
  eapply ends_mono; [by apply print_elements_ends|]. intros [] w (tr' & -> & Hl). by eexists.
Qed.

Lemma bool_decide_in {A} (x : gset Z) y (t e : A) : y ∈ x → (if bool_decide (y ∈ x) then t else e) = t.
Proof. intros. by rewrite bool_decide_eq_true_2. Qed.

(** A command: the reply is stored at a new address, or the process exits with 1. *)
Lemma obtain_ends {OK : HIREDIS_OK hr} t tag format args tr g r cs rs m (Q : redisReply → rworld → Prop) : g ∈ cs →
  (∀ p a, p ≠ NULL → p ∉ cs → rs !! p = None → m !! p = None → a = redis_answer tr (cs ∪ dom rs ∪ dom m) (redisCommand g format args) →
    Q (a_reply a) (mk_rw ((redisCommand g format args, a) :: tr) g p cs (<[p := a_reply a]> rs) m)) →
  (∀ w, a_ptr (redis_answer tr (cs ∪ dom rs ∪ dom m) (redisCommand g format args)) = NULL → commands (r_trace w) = (format, args) :: commands tr → E 1 w) →
  ends (obtain t tag format args) Q E (mk_rw tr g r cs rs m).
Proof.
  intros Hg HQ HE. unfold obtain, command. r_step. r_step. r_step. r_step. r_step. rewrite bool_decide_in by done.
  r_step. r_step. pose proof (fresh_ptr tr (cs ∪ dom rs ∪ dom m) (redisCommand g format args)) as Hf. rewrite <- Ha in Hf.
  destruct (a_ptr a =? NULL) eqn:En; r_run; try congruence; [apply HE; [rewrite <- Ha; lia|done]|].
  apply HQ; [lia|set_solver|apply not_elem_of_dom; set_solver|apply not_elem_of_dom; set_solver|done].
Qed.

Lemma free_reply_ends tr g p cs rs m rep (Q : unit → rworld → Prop) : rs !! p = Some rep →
  (∀ a, Q tt (mk_rw ((freeReplyObject p, a) :: tr) g p cs (delete p rs) m)) → ends freeReply Q E (mk_rw tr g p cs rs m).
Proof.
  intros Hp HQ. unfold freeReply, free_reply, get_reply. r_run. eapply ends_expect; [done|]. r_run. apply HQ.
Qed.

(** Connecting and disconnecting. *)
Lemma connect2redis_ends {OK : HIREDIS_OK hr} ip port tr g r cs rs m (Q : unit → rworld → Prop) :
  (∀ tr used, a_ptr (redis_answer tr used (redisConnect ip port)) ≠ NULL) →
  (∀ c tr', c ≠ NULL → c ∉ cs → exchanges tr' = exchanges tr →
    printed tr' = ("Connected successfully to redis at %s:%d", [AStr (codes ip); AInt port])%string :: printed tr → Q tt (mk_rw tr' c r ({[c]} ∪ cs) rs m)) →
  (∀ w, a_err (redis_answer tr (cs ∪ dom rs ∪ dom m) (redisConnect ip port)) ≠ 0 → commands (r_trace w) = commands tr → E 1 w) →
  ends (connect2redis ip port) Q E (mk_rw tr g r cs rs m).
Proof.
  intros Hn HQ HE. unfold connect2redis, connect. r_run.
  - pose proof (Hn tr (cs ∪ dom rs ∪ dom m)). subst a. lia.
  - apply HE; [rewrite <- Ha; lia|done].
  - pose proof (fresh_ptr tr (cs ∪ dom rs ∪ dom m) (redisConnect ip port)) as Hf. rewrite <- Ha in Hf. apply HQ; [lia|set_solver|done..].
Qed.

Lemma close_ends tr c r cs rs m (Q : unit → rworld → Prop) : c ∉ cs →
  (∀ a, Q tt (mk_rw ((redisFree c, a) :: tr) c r cs rs m)) → ends closeContext Q E (mk_rw tr c r ({[c]} ∪ cs) rs m).
Proof.
  intros Hc HQ. unfold closeContext, disconnect. r_step. r_step. r_step. r_step. rewrite bool_decide_in by set_solver. r_run.
  replace (({[c]} ∪ cs) ∖ {[c]}) with cs by set_solver. apply HQ.
Qed.

Lemma sprintf_ends n text (Q : string → rworld → Prop) w : Z.of_nat (String.length text) < n → Q text w → ends (sprintf n text) Q E w.
Proof. intros Hl HQ. unfold sprintf. by rewrite (proj2 (Z.ltb_lt _ _)). Qed.

End specs.

(** ** The numbered commands *)

(** The objects of the program are those of [w0], and the commands [cs] have been sent since. *)
Definition balanced (w0 : rworld) (cs : list (string * list arg)) (w : rworld) : Prop :=
  contexts w = contexts w0 ∧ replies w = replies w0 ∧ mem w = mem w0 ∧ commands (r_trace w) = cs ++ commands (r_trace w0).

(** The first [k] numbered commands, newest first. *)
Fixpoint numbered_cmds (mycmd : Z → string) (k : nat) : list (string * list arg) :=
  match k with O => [] | S k => (mycmd (Z.of_nat k), []) :: numbered_cmds mycmd k end.

Section numbered.
Context {hr : HIREDIS} {OK : HIREDIS_OK hr}.
Implicit Types (tr : list revent) (cs : gset Z) (rs : gmap Z redisReply) (m : gmap Z (list Z)).

Lemma numbered_round_ends size mycmd i tr g r cs rs m E (Q : unit → rworld → Prop) : g ∈ cs →
  Z.of_nat (String.length (mycmd i)) < size →
  (∀ tr used, printable (a_reply (redis_answer tr used (redisCommand g (mycmd i) [])))) →
  (∀ tr' r', commands tr' = (mycmd i, []) :: commands tr → Q tt (mk_rw tr' g r' cs rs m)) →
  (∀ w, a_ptr (redis_answer tr (cs ∪ dom rs ∪ dom m) (redisCommand g (mycmd i) [])) = NULL → commands (r_trace w) = (mycmd i, []) :: commands tr → E 1 w) →
  ends (numbered_round size mycmd i tt) Q E (mk_rw tr g r cs rs m).
Proof.
  intros Hg Hs Hp HQ HE. unfold numbered_round. r_step. apply sprintf_ends; [done|]. unfold executeCommand. r_step. r_step.
  eapply (obtain_ends _); [done| |done]. intros p a Hn Hc Hr Hm Ha. eapply ends_mono; [apply print_reply_ends; subst a; apply Hp|].
  intros [] w (tr' & -> & Hl). eapply free_reply_ends; [apply lookup_insert_eq|]. intros a'. rewrite delete_insert_id by done. by apply HQ.
Qed.

Lemma numbered_ends ip port size mycmd n w0 : 0 ≤ n →
  (∀ tr used, a_ptr (redis_answer tr used (redisConnect ip port)) ≠ NULL) →
  (∀ tr used g format, printable (a_reply (redis_answer tr used (redisCommand g format [])))) →
  (∀ i, 0 ≤ i < n → Z.of_nat (String.length (mycmd i)) < size) →
  ends (numbered ip port size mycmd n) (λ ret w, ret = 0 ∧ balanced w0 (numbered_cmds mycmd (Z.to_nat n)) w)
    (λ code w, code = 1 ∧ ∃ k, (k ≤ Z.to_nat n)%nat ∧ commands (r_trace w) = numbered_cmds mycmd k ++ commands (r_trace w0)) w0.
Proof.
  intros Hn Hc Hp Hs. destruct w0 as [tr g r cs rs m]. unfold numbered. r_step.
  eapply (connect2redis_ends _); [done| |]; [|intros w _ Hw; split; [done|]; exists 0%nat; split; [lia|done]].
  intros c tr1 _ Hc1 Hx1 _. assert (commands tr1 = commands tr) as Ht1 by by rewrite !exchanges_commands, Hx1. r_step.
  eapply ends_mono; [apply (ends_for_range _ (λ i _ w, ∃ tr' r', w = mk_rw tr' c r' ({[c]} ∪ cs) rs m ∧
    commands tr' = numbered_cmds mycmd (Z.to_nat i) ++ commands tr))|].
  - by exists tr1, r.
  - intros i [] w Hi (tr' & r' & -> & Ht).
    assert (Z.to_nat (i + 1) = S (Z.to_nat i)) as Hi1 by lia.
    eapply numbered_round_ends; [set_solver|apply Hs; lia|done| |].
    + intros tr2 r2 Ht2. exists tr2, r2. split; [done|]. rewrite Hi1. cbn. rewrite Z2Nat.id by lia. by rewrite Ht2, Ht.
    + intros w _ Hw. split; [done|]. exists (S (Z.to_nat i)). split; [lia|]. cbn. rewrite Z2Nat.id by lia. by rewrite Hw, Ht.
  - intros [] w (tr' & r' & -> & Ht). r_step. apply close_ends; [done|]. intros a. r_run.
    split; [done|]. split; [done|]. split; [done|]. split; [done|]. rewrite Z.add_0_l, Z2Nat.id in Ht by done. exact Ht.
Qed.

End numbered.

(** ** Arrays of copied strings *)

(** New blocks on top of a memory, in the order in which they were made. *)
Inductive grown (m0 : gmap Z (list Z)) : list (Z * list Z) → gmap Z (list Z) → Prop :=
| grown_nil : grown m0 [] m0
| grown_snoc l m p b : grown m0 l m → m !! p = None → p ≠ NULL → grown m0 (l ++ [(p, b)]) (<[p := b]> m).

Lemma grown_base m0 l m q : grown m0 l m → is_Some (m0 !! q) → m !! q = m0 !! q.
Proof.
  induction 1 as [|l m p b _ IH Hp _]; intros Hq; [done|]. rewrite lookup_insert_ne; [auto|]. intros <-. rewrite IH in Hp by done.
  by destruct Hq as [? Hq]; rewrite Hq in Hp.
Qed.

Lemma grown_update m0 l m q v : grown m0 l m → is_Some (m0 !! q) → grown (<[q := v]> m0) l (<[q := v]> m).
Proof.
  induction 1 as [|l m p b Hg IH Hp Hn]; intros Hq; [constructor|].
  assert (p ≠ q). { intros ->. rewrite (grown_base _ _ _ _ Hg Hq) in Hp. by destruct Hq as [? Hq]; rewrite Hq in Hp. }
  rewrite insert_insert_ne by done. constructor; [auto|by rewrite lookup_insert_ne|done].
Qed.

Lemma grown_lookup m0 l m i p b : grown m0 l m → l !! i = Some (p, b) → m !! p = Some b.
Proof.
  induction 1 as [|l m q c _ IH Hq _]; intros Hi; [by rewrite lookup_nil in Hi|].
  apply lookup_app_Some in Hi as [Hi|[_ Hi]].
  - rewrite lookup_insert_ne; [auto|]. intros ->. by rewrite (IH Hi) in Hq.
  - apply list_lookup_singleton_Some in Hi as [_ [= -> ->]]. apply lookup_insert_eq.
Qed.

Lemma grown_none m0 l m q : grown m0 l m → m !! q = None → m0 !! q = None.
Proof.
  intros Hg Hq. destruct (m0 !! q) eqn:E; [|done]. by rewrite (grown_base _ _ _ _ Hg), E in Hq.
Qed.

(** The oldest block can be freed first. *)
Lemma grown_delete m0 l m p b : grown m0 ((p, b) :: l) m → grown m0 l (delete p m).
Proof.
  revert m. induction l as [|[q c] l IH] using rev_ind; intros m Hg.
  - inversion Hg as [|l' m' p' b' Hg' Hp Hpn Hl]. apply (app_inj_tail l' []) in Hl as [-> [= -> ->]].
    inversion Hg' as [|l0 ? ? ? ? ? ? Hl0]; [|destruct l0; discriminate]. subst. rewrite delete_insert_id by done. constructor.
  - rewrite app_comm_cons in Hg. inversion Hg as [|l' m' p' b' Hg' Hp Hpn Hl].
    apply (app_inj_tail l' ((p, b) :: l)) in Hl as [-> [= -> ->]]. pose proof (grown_lookup _ _ _ 0 _ _ Hg' eq_refl) as Hlp.
    rewrite delete_insert_ne by congruence. constructor; [by apply IH|by rewrite lookup_delete_None; right|done].
Qed.

Lemma grown_null m0 l m : grown m0 l m → m0 !! NULL = None → m !! NULL = None.
Proof. induction 1 as [|l m p b _ IH _ Hn]; intros H; [done|]. rewrite lookup_insert_ne by done. auto. Qed.

(** A block that holds a string. *)
Definition holds_string (b : list Z) (s : list Z) : Prop := 0 ∈ b ∧ cstr b = cstr s.

Lemma cstr_app s l : cstr (cstr s ++ 0 :: l) = cstr s.
Proof. induction s as [|c s IH]; cbn; [done|]. destruct (c =? 0) eqn:E; cbn; [done|]. by rewrite E, IH. Qed.

Lemma copied_holds s l : holds_string ((cstr s ++ [0]) ++ l) s.
Proof. split; [set_solver|]. rewrite <- app_assoc. apply cstr_app. Qed.

Lemma cstr_length s : (length (cstr s) ≤ length s)%nat.
Proof. induction s as [|c s IH]; cbn; [done|]. destruct (c =? 0); cbn; lia. Qed.

(** The array at [arr] has [n] entries and the first of them point to new blocks that hold the
    strings [ss]. *)
Definition filled (m : gmap Z (list Z)) (arr : Z) (n : nat) (ss : list (list Z)) (m' : gmap Z (list Z)) : Prop :=
  ∃ ps bs rest, length (ps ++ rest) = n ∧ length ps = length bs ∧ Forall2 holds_string bs ss ∧
    grown (<[arr := ps ++ rest]> m) (zip ps bs) m'.

Section arrays.
Context {hr : HIREDIS} (E : Z → rworld → Prop).
Implicit Types (tr : list revent) (cs : gset Z) (rs : gmap Z redisReply) (m : gmap Z (list Z)).

Lemma store_ends p i v b tr g r cs rs m (Q : unit → rworld → Prop) : m !! p = Some b → 0 ≤ i < Z.of_nat (length b) →
  Q tt (mk_rw tr g r cs rs (<[p := <[Z.to_nat i := v]> b]> m)) → ends (store p i v) Q E (mk_rw tr g r cs rs m).
Proof.
  intros Hp Hi HQ. unfold store. r_run. eapply ends_expect; [done|]. replace ((0 <=? i) && (i <? Z.of_nat (length b))) with true by lia.
  by r_run.
Qed.

Lemma load_ends p i v b tr g r cs rs m (Q : Z → rworld → Prop) : m !! p = Some b → b !! Z.to_nat i = Some v →
  Q v (mk_rw tr g r cs rs m) → ends (load p i) Q E (mk_rw tr g r cs rs m).
Proof. intros Hp Hi HQ. unfold load. r_run. eapply ends_expect; [done|]. by eapply ends_expect. Qed.

Lemma copy_ends p bytes b tr g r cs rs m (Q : unit → rworld → Prop) : m !! p = Some b → (length bytes ≤ length b)%nat →
  Q tt (mk_rw tr g r cs rs (<[p := bytes ++ drop (length bytes) b]> m)) → ends (copy p bytes) Q E (mk_rw tr g r cs rs m).
Proof.
  intros Hp Hl HQ. unfold copy. r_run. eapply ends_expect; [done|]. rewrite (proj2 (Z.leb_le _ _)) by lia. by r_run.
Qed.

Lemma string_at_ends p b s tr g r cs rs m (Q : list Z → rworld → Prop) : m !! p = Some b → holds_string b s →
  Q (cstr s) (mk_rw tr g r cs rs m) → ends (string_at p) Q E (mk_rw tr g r cs rs m).
Proof.
  intros Hp [H0 Hs] HQ. unfold string_at. r_run. eapply ends_expect; [done|]. rewrite bool_decide_eq_true_2 by done. rewrite Hs. by r_run.
Qed.

Lemma filled_start m arr n b : length b = n → filled m arr n [] (<[arr := b]> m).
Proof. intros Hb. exists [], [], b. split; [done|]. split; [done|]. split; constructor. Qed.

(** The entry of the next element is set to a new block [b0], whose string is still missing. *)
Definition entered (m : gmap Z (list Z)) (arr : Z) (n : nat) (ss : list (list Z)) (p : Z) (b0 : list Z) (m1 : gmap Z (list Z)) : Prop :=
  ∃ ps bs x rest m', length (ps ++ x :: rest) = n ∧ length ps = length bs ∧ Forall2 holds_string bs ss ∧
    grown (<[arr := ps ++ x :: rest]> m) (zip ps bs) m' ∧ m' !! p = None ∧ p ≠ NULL ∧ arr ≠ p ∧
    m1 = <[arr := ps ++ p :: rest]> (<[p := b0]> m').

Lemma enter_ends m arr n ss p b0 tr g r cs rs m' (Q : unit → rworld → Prop) :
  filled m arr n ss m' → (length ss < n)%nat → m' !! p = None → p ≠ NULL →
  (∀ m1, entered m arr n ss p b0 m1 → Q tt (mk_rw tr g r cs rs m1)) →
  ends (store arr (Z.of_nat (length ss)) p) Q E (mk_rw tr g r cs rs (<[p := b0]> m')).
Proof.
  intros (ps & bs & rest & Hn & Hpb & Hss & Hg) Hlt Hp HpN HQ.
  pose proof (Forall2_length Hss) as Hlen. pose proof Hn as Hn'. rewrite length_app in Hn'.
  assert (m' !! arr = Some (ps ++ rest)) as Harr. { erewrite grown_base; [apply lookup_insert_eq|done|]. rewrite lookup_insert_eq. by eexists. }
  assert (arr ≠ p) by congruence. eapply store_ends; [by rewrite lookup_insert_ne|rewrite length_app; lia|].
  destruct rest as [|x rest]; [cbn in Hn'; lia|]. apply HQ. exists ps, bs, x, rest, m'.
  split; [done|]. split; [done|]. split; [done|]. split; [done|]. split; [done|]. split; [done|]. split; [done|].
  by rewrite Nat2Z.id, <- Hlen, <- Hpb, insert_app_r_alt, Nat.sub_diag by lia.
Qed.

Lemma entered_ends m arr n ss s p b0 tr g r cs rs m1 (Q : unit → rworld → Prop) :
  entered m arr n ss p b0 m1 → (length (cstr s) < length b0)%nat →
  (∀ m'', filled m arr n (ss ++ [s]) m'' → Q tt (mk_rw tr g r cs rs m'')) →
  ends (strcpy p (Some s)) Q E (mk_rw tr g r cs rs m1).
Proof.
  intros (ps & bs & x & rest & m' & Hn & Hpb & Hss & Hg & Hp & HpN & Hap & ->) Hb HQ. rewrite length_app in Hn.
  unfold strcpy. r_step. eapply ends_expect; [done|].
  eapply copy_ends; [rewrite lookup_insert_ne by done; apply lookup_insert_eq|rewrite length_app; cbn; lia|]. apply HQ.
  exists (ps ++ [p]), (bs ++ [(cstr s ++ [0]) ++ drop (length (cstr s ++ [0])) b0]), rest.
  split; [rewrite !length_app in *; cbn in *; lia|]. split; [rewrite !length_app; cbn; lia|].
  split; [by apply Forall2_app; [|constructor; [apply copied_holds|constructor]]|].
  rewrite zip_with_app by done. cbn [zip_with zip]. rewrite (insert_insert_ne m' arr p), insert_insert_eq by done. constructor; [|by rewrite lookup_insert_ne|done].
  rewrite <- app_assoc. cbn. rewrite <- (insert_insert_eq m arr (ps ++ p :: rest) (ps ++ x :: rest)).
  apply grown_update; [done|]. rewrite lookup_insert_eq. by eexists.
Qed.

(** The entry and the string of the next element. *)
Lemma fill_ends m arr n ss s p b0 tr g r cs rs m' (Q : unit → rworld → Prop) :
  filled m arr n ss m' → (length ss < n)%nat → m' !! p = None → p ≠ NULL → (length (cstr s) < length b0)%nat →
  (∀ m'', filled m arr n (ss ++ [s]) m'' → Q tt (mk_rw tr g r cs rs m'')) →
  ends (store arr (Z.of_nat (length ss)) p;; strcpy p (Some s)) Q E (mk_rw tr g r cs rs (<[p := b0]> m')).
Proof. intros Hf Hlt Hp HpN Hb HQ. r_step. eapply enter_ends; [done..|]. intros m1 Hm1. by eapply entered_ends. Qed.

Lemma filled_entry m arr n ss m' i s : filled m arr n ss m' → ss !! i = Some s →
  ∃ a p b, m' !! arr = Some a ∧ a !! i = Some p ∧ m' !! p = Some b ∧ holds_string b s.
Proof.
  intros (ps & bs & rest & Hn & Hpb & Hss & Hg) Hi. destruct (Forall2_lookup_r _ _ _ _ _ Hss Hi) as (b & Hb & Hs).
  destruct (lookup_lt_is_Some_2 ps i) as [p Hp]; [apply lookup_lt_Some in Hb; lia|].
  exists (ps ++ rest), p, b. split; [|split; [|split; [|done]]].
  - erewrite grown_base; [apply lookup_insert_eq|done|]. rewrite lookup_insert_eq. by eexists.
  - by apply lookup_app_l_Some.
  - eapply grown_lookup; [done|]. apply lookup_zip_Some. by split; [apply Hp|apply Hb].
Qed.

Lemma show_key_ends fmt m arr n ss m' i s tr g r cs rs (Q : unit → rworld → Prop) : filled m arr n ss m' → ss !! Z.to_nat i = Some s →
  (∀ a, Q tt (mk_rw ((printf fmt [AStr (cstr s)], a) :: tr) g r cs rs m')) → ends (show_key fmt arr i tt) Q E (mk_rw tr g r cs rs m').
Proof.
  intros Hf Hi HQ. destruct (filled_entry _ _ _ _ _ _ _ Hf Hi) as (a & p & b & Ha & Hp & Hb & Hs). unfold show_key.
  r_step. eapply load_ends; [done..|]. r_step. eapply string_at_ends; [done..|]. r_step. apply HQ.
Qed.

(** All strings are shown, oldest line last. *)
Lemma show_keys_ends fmt m arr n ss m' tr g r cs rs (Q : unit → rworld → Prop) : filled m arr n ss m' →
  (∀ tr', exchanges tr' = exchanges tr → printed tr' = reverse ((λ s, (fmt, [AStr (cstr s)])) <$> ss) ++ printed tr → Q tt (mk_rw tr' g r cs rs m')) →
  ends (for_range (length ss) 0 (show_key fmt arr) tt) Q E (mk_rw tr g r cs rs m').
Proof.
  intros Hf HQ. eapply ends_mono; [apply (ends_for_range _ (λ i _ w, ∃ tr', w = mk_rw tr' g r cs rs m' ∧ exchanges tr' = exchanges tr ∧
    printed tr' = reverse ((λ s, (fmt, [AStr (cstr s)])) <$> take (Z.to_nat i) ss) ++ printed tr))|].
  - by exists tr.
  - intros i [] w Hi (tr' & -> & Hc & Hp). destruct (lookup_lt_is_Some_2 ss (Z.to_nat i)) as [s Hs]; [lia|].
    eapply show_key_ends; [done..|]. intros a. exists ((printf fmt [AStr (cstr s)], a) :: tr'). split; [done|]. split; [done|].
    change (printed ((printf fmt [AStr (cstr s)], a) :: tr')) with ((fmt, [AStr (cstr s)]) :: printed tr'). rewrite Hp.
    replace (Z.to_nat (i + 1)) with (S (Z.to_nat i)) by lia. by rewrite (take_S_r _ _ _ Hs), fmap_app, reverse_app.
  - intros [] w (tr' & -> & Hc & Hp). apply HQ; [done|]. by rewrite Z.add_0_l, Nat2Z.id, firstn_all in Hp.
Qed.

(** Freeing: the entries before [i] are gone. *)
Definition drained (m : gmap Z (list Z)) (arr : Z) (i : nat) (ps : list Z) (bs : list (list Z)) (m' : gmap Z (list Z)) : Prop :=
  ∃ a, length a = length ps ∧ drop i a = drop i ps ∧ grown (<[arr := a]> m) (drop i (zip ps bs)) m'.

Lemma free_keys_ends m arr ss m' tr g r cs rs (Q : unit → rworld → Prop) :
  filled m arr (length ss) ss m' → m !! arr = None → arr ≠ NULL → m !! NULL = None →
  (∀ tr' a, exchanges tr' = exchanges tr → printed tr' = printed tr → Q tt (mk_rw tr' g r cs rs (<[arr := a]> m))) →
  ends (for_range (length ss) 0 (free_key arr) tt) Q E (mk_rw tr g r cs rs m').
Proof.
  intros (ps & bs & rest & Hn & Hpb & Hss & Hg) Harr HaN HN HQ. pose proof (Forall2_length Hss) as Hlen. rewrite length_app in Hn.
  destruct rest; [|cbn in Hn; lia]. rewrite app_nil_r in Hg.
  eapply ends_mono; [apply (ends_for_range _ (λ i _ w, ∃ tr' m1, w = mk_rw tr' g r cs rs m1 ∧ exchanges tr' = exchanges tr ∧ printed tr' = printed tr ∧
    drained m arr (Z.to_nat i) ps bs m1))|].
  - exists tr, m'. split; [done|]. split; [done|]. split; [done|]. by exists ps.
  - intros i [] w Hi (tr' & m1 & -> & Hc & Hp & a & Ha & Hd & Hg1).
    destruct (lookup_lt_is_Some_2 ps (Z.to_nat i)) as [p Hpi]; [lia|]. destruct (lookup_lt_is_Some_2 bs (Z.to_nat i)) as [b Hbi]; [lia|].
    assert (a !! Z.to_nat i = Some p) as Hai. { rewrite <- (Nat.add_0_r (Z.to_nat i)), <- lookup_drop, Hd, lookup_drop, Nat.add_0_r. done. }
    assert (zip ps bs !! Z.to_nat i = Some (p, b)) as Hz by (apply lookup_zip_Some; by split; [apply Hpi|apply Hbi]).
    rewrite (drop_S _ _ _ Hz) in Hg1. pose proof (grown_lookup _ _ _ 0 _ _ Hg1 eq_refl) as Hb.
    assert (m1 !! arr = Some a) as Ha1. { erewrite grown_base; [apply lookup_insert_eq|done|]. rewrite lookup_insert_eq. by eexists. }
    pose proof (grown_delete _ _ _ _ _ Hg1) as Hg2.
    assert (p ≠ arr) as Hpa. { intros ->. pose proof (grown_base _ _ _ arr Hg2) as Hx. rewrite lookup_delete_eq, lookup_insert_eq in Hx. specialize (Hx ltac:(by eexists)). discriminate Hx. }
    pose proof (grown_null _ _ _ Hg1) as HN1. rewrite lookup_insert_ne in HN1 by done. specialize (HN1 HN).
    assert (p ≠ NULL) as HpN by congruence.
    unfold free_key. r_step. eapply load_ends; [done..|]. unfold r_free. rewrite (proj2 (Z.eqb_neq _ _) HpN).
    r_step. r_step. r_step. r_step. eapply ends_expect; [done|]. r_run.
    eapply store_ends; [by rewrite lookup_delete_ne|lia|].
    eexists _, _. split; [done|]. split; [done|]. split; [done|].
    exists (<[Z.to_nat i := NULL]> a). split; [by rewrite length_insert|]. replace (Z.to_nat (i + 1)) with (S (Z.to_nat i)) by lia.
    split; [|rewrite <- (insert_insert_eq m arr (<[Z.to_nat i := NULL]> a) a); apply grown_update; [done|]; rewrite lookup_insert_eq; by eexists].
    rewrite drop_insert_lt by lia. rewrite (drop_S _ _ _ Hai), (drop_S _ _ _ Hpi) in Hd. by injection Hd.
  - intros [] w (tr' & m1 & -> & Hc & Hp & a & Ha & Hd & Hg1). rewrite Z.add_0_l, Nat2Z.id in Hg1.
    rewrite drop_ge in Hg1 by (rewrite length_zip; lia). inversion Hg1 as [|l0 ? ? ? ? ? ? Hl0]; [|destruct l0; discriminate]. by apply HQ.
Qed.

(** Allocation. *)
Lemma calloc_ends {OK : HIREDIS_OK hr} {MEM : HIREDIS_MEM hr} n sz cells tr g r cs rs m (Q : Z → rworld → Prop) :
  (∀ p a, p ≠ NULL → p ∉ cs → rs !! p = None → m !! p = None → p = a_ptr (redis_answer tr (cs ∪ dom rs ∪ dom m) (calloc n sz)) →
    Q p (mk_rw ((calloc n sz, a) :: tr) g r cs rs (<[p := replicate (Z.to_nat cells) 0]> m))) →
  ends (r_calloc n sz cells) Q E (mk_rw tr g r cs rs m).
Proof.
  intros HQ. unfold r_calloc. r_step. r_step. pose proof (fresh_ptr tr (cs ∪ dom rs ∪ dom m) (calloc n sz)) as Hf. rewrite <- Ha in Hf.
  pose proof (calloc_some tr (cs ∪ dom rs ∪ dom m) n sz) as Hn. rewrite <- Ha in Hn. rewrite (proj2 (Z.eqb_neq _ _) Hn). r_run.
  apply HQ; [lia|set_solver|apply not_elem_of_dom; set_solver|apply not_elem_of_dom; set_solver|by rewrite <- Ha].
Qed.

Lemma malloc_ends {OK : HIREDIS_OK hr} {MEM : HIREDIS_MEM hr} sz cells tr g r cs rs m (Q : Z → rworld → Prop) :
  (∀ p a b, p ≠ NULL → p ∉ cs → rs !! p = None → m !! p = None → length b = Z.to_nat cells →
    Q p (mk_rw ((malloc sz, a) :: tr) g r cs rs (<[p := b]> m))) →
  ends (r_malloc sz cells) Q E (mk_rw tr g r cs rs m).
Proof.
  intros HQ. unfold r_malloc. r_step. r_step. pose proof (fresh_ptr tr (cs ∪ dom rs ∪ dom m) (malloc sz)) as Hf. rewrite <- Ha in Hf.
  pose proof (malloc_some tr (cs ∪ dom rs ∪ dom m) sz) as Hn. rewrite <- Ha in Hn. rewrite (proj2 (Z.eqb_neq _ _) Hn). r_run.
  apply HQ; [lia|set_solver|apply not_elem_of_dom; set_solver|apply not_elem_of_dom; set_solver|apply length_resize].
Qed.

(** ** The key programs *)

Definition strs (es : list redisReply) : list (list Z) := (λ e, default [] (r_str e)) <$> es.
Definition shown (fmt : string) (ss : list (list Z)) : list (string * list arg) := reverse ((λ s, (fmt, [AStr (cstr s)])) <$> ss).

Lemma shown_snoc fmt ss s : shown fmt (ss ++ [s]) = (fmt, [AStr (cstr s)]) :: shown fmt ss.
Proof. unfold shown. by rewrite fmap_app, reverse_app. Qed.

Lemma copy_key_ends {OK : HIREDIS_OK hr} {MEM : HIREDIS_MEM hr} (echo : bool) es keys i e s ss m m' tr g r cs rs (Q : unit → rworld → Prop) :
  es !! i = Some e → r_str e = Some s → length ss = i → filled m keys (length es) ss m' →
  (∀ tr' m'', exchanges tr' = exchanges tr → printed tr' = (if echo then [("%s ", [AStr (cstr s)])]%string else []) ++ printed tr →
    filled m keys (length es) (ss ++ [s]) m'' → Q tt (mk_rw tr' g r cs rs m'')) →
  ends (copy_key echo es keys (Z.of_nat i) tt) Q E (mk_rw tr g r cs rs m').
Proof.
  intros Hi Hs Hl Hf HQ. unfold copy_key. r_step. rewrite Nat2Z.id. eapply ends_expect; [done|].
  assert (∀ tr1, exchanges tr1 = exchanges tr → printed tr1 = (if echo then [("%s ", [AStr (cstr s)])]%string else []) ++ printed tr →
    ends (k ← r_calloc (r_len e + 1) 1 (r_len e + 1); store keys (Z.of_nat i) k;; strcpy k (r_str e)) Q E (mk_rw tr1 g r cs rs m')) as Hgo.
  { intros tr1 Hc1 Hp1. r_step. eapply calloc_ends. intros p a HpN _ _ Hp _. rewrite Hs, <- Hl.
    eapply fill_ends; [done|apply lookup_lt_Some in Hi; lia|done|done| |].
    - rewrite length_replicate. pose proof (cstr_length s). unfold r_len. rewrite Hs. cbn. lia.
    - intros m'' Hf''. by apply HQ. }
  r_step. destruct echo.
  - rewrite Hs. r_step. eapply ends_expect; [done|]. r_step. rewrite <- Hs. by apply Hgo.
  - r_step. by apply Hgo.
Qed.

Lemma copy_keys_ends {OK : HIREDIS_OK hr} {MEM : HIREDIS_MEM hr} (echo : bool) es keys m m0 tr g r cs rs (Q : unit → rworld → Prop) :
  Forall (λ e, is_Some (r_str e)) es → filled m keys (length es) [] m0 →
  (∀ tr' m', exchanges tr' = exchanges tr → printed tr' = (if echo then shown "%s " (strs es) else []) ++ printed tr →
    filled m keys (length es) (strs es) m' → Q tt (mk_rw tr' g r cs rs m')) →
  ends (for_range (length es) 0 (copy_key echo es keys) tt) Q E (mk_rw tr g r cs rs m0).
Proof.
  intros Hes Hf HQ. eapply ends_mono; [apply (ends_for_range _ (λ i _ w, ∃ tr' m', w = mk_rw tr' g r cs rs m' ∧ exchanges tr' = exchanges tr ∧
    printed tr' = (if echo then shown "%s " (strs (take (Z.to_nat i) es)) else []) ++ printed tr ∧
    filled m keys (length es) (strs (take (Z.to_nat i) es)) m'))|].
  - exists tr, m0. split; [done|]. split; [done|]. split; [by destruct echo|done].
  - intros i [] w Hi (tr' & m' & -> & Hc & Hp & Hf'). destruct (lookup_lt_is_Some_2 es (Z.to_nat i)) as [e He]; [lia|].
    destruct (Forall_lookup_1 _ _ _ _ Hes He) as [s Hs]. rewrite <- (Z2Nat.id i) by lia. rewrite <- (Nat2Z.id (Z.to_nat i)) in He.
    assert (strs (take (Z.to_nat (Z.of_nat (Z.to_nat i) + 1)) es) = strs (take (Z.to_nat i) es) ++ [s]) as Hsn.
    { replace (Z.to_nat (Z.of_nat (Z.to_nat i) + 1)) with (S (Z.to_nat i)) by lia. rewrite Nat2Z.id in He.
      unfold strs. rewrite (take_S_r _ _ _ He), fmap_app. cbn. by rewrite Hs. }
    rewrite Nat2Z.id in He. eapply copy_key_ends with (ss := strs (take (Z.to_nat i) es)); [done|done|unfold strs; rewrite length_fmap, length_take; lia|exact Hf'|].
    intros tr2 m2 Hc2 Hp2 Hf2. exists tr2, m2. rewrite Hsn. split; [done|]. split; [congruence|]. split; [|done].
    rewrite Hp2, Hp. destruct echo; [|done]. by rewrite shown_snoc.
  - intros [] w (tr' & m' & -> & Hc & Hp & Hf'). rewrite Z.add_0_l, Nat2Z.id, firstn_all in Hp, Hf'. by apply HQ.
Qed.

End arrays.

(** What the key programs print, newest first, when the server sent the array [es]. *)
Definition key_lines (echo : bool) (es : list redisReply) : list (string * list arg) :=
  shown "%s " (strs es) ++ [("", [])] ++ (if echo then shown "%s " (strs es) else []) ++
  [("REPLY : ARRAY", []); ("Connected successfully to redis at %s:%d", [AStr (codes "172.19.10.31"); AInt 6905])]%string.

Lemma list_keys_ends {hr : HIREDIS} {OK : HIREDIS_OK hr} {MEM : HIREDIS_MEM hr} echo mycmd w0 :
  (∀ tr used, a_ptr (redis_answer tr used (redisConnect "172.19.10.31" 6905)) ≠ NULL) →
  (∀ tr used g, ∃ es, a_reply (redis_answer tr used (redisCommand g mycmd [])) = REDIS_REPLY_ARRAY es ∧
    Forall (λ e, is_Some (r_str e)) es ∧ Z.of_nat (length es) < 2 ^ 31) →
  (String.length mycmd < 32)%nat → mem w0 !! NULL = None →
  ends (list_keys echo mycmd) (λ ret w, ret = 0 ∧ balanced w0 [(mycmd, [])] w ∧
      ∃ es, exchanges (r_trace w) = (mycmd, [], REDIS_REPLY_ARRAY es) :: exchanges (r_trace w0) ∧
        printed (r_trace w) = key_lines echo es ++ printed (r_trace w0))
    (λ code w, code = 1) w0.
Proof.
  intros Hc Hrep Hl HN. destruct w0 as [tr g r cs rs m]. cbn in HN. unfold list_keys. r_step.
  eapply (connect2redis_ends _); [done| |done]. intros c tr1 Hc0 Hc1 Ht1 Hp1. r_step. apply sprintf_ends; [lia|]. r_step. unfold execute_keys.
  r_step. eapply (obtain_ends _); [set_solver| |done]. intros p a HpN Hpc Hpr Hpm Ha.
  destruct (Hrep tr1 (({[c]} ∪ cs) ∪ dom rs ∪ dom m) c) as (es & He & Hes & Hn). rewrite <- Ha in He. rewrite He.
  assert (sgn 32 (Z.of_nat (length es)) = Z.of_nat (length es)) as Hsg by (apply sgn_small; lia).
  r_step. r_step. rewrite Hsg. r_step. eapply (calloc_ends _). intros keys a2 HkN _ Hkr Hkm _. rewrite Nat2Z.id. r_step.
  eapply (copy_keys_ends _); [done|apply filled_start, length_replicate|]. intros tr2 m2 Hc2 Hp2 Hf2. r_run.
  eapply free_reply_ends; [apply lookup_insert_eq|]. intros a4. rewrite delete_insert_id by done. r_step. eapply ends_expect; [done|]. cbn beta iota.
  assert (length es = length (strs es)) as Hlen by (unfold strs; by rewrite length_fmap).
  rewrite Nat2Z.id, Hlen in *. r_step. eapply show_keys_ends; [done|]. intros tr3 Hc3 Hp3. r_step.
  eapply free_keys_ends; [done..|]. intros tr4 a5 Hc4 Hp4. unfold r_free. rewrite (proj2 (Z.eqb_neq _ _) HkN). r_step. r_step. r_step. r_step.
  eapply ends_expect; [apply lookup_insert_eq|]. r_run. apply close_ends; [done|]. intros a7. r_run.
  rewrite delete_insert_id by done.
  assert (exchanges tr4 = (mycmd, [], REDIS_REPLY_ARRAY es) :: exchanges tr) as Hx.
  { rewrite Hc4, Hc3. change (exchanges tr2 = (mycmd, [], REDIS_REPLY_ARRAY es) :: exchanges tr). rewrite Hc2, <- He, <- Ht1. done. }
  split; [done|]. split.
  - split; [done|]. split; [done|]. split; [done|]. cbn [r_trace]. change (commands tr4 = [(mycmd, [])] ++ commands tr).
    by rewrite (exchanges_commands tr4), (exchanges_commands tr), Hx.
  - exists es. split; [exact Hx|]. change (printed tr4 = key_lines echo es ++ printed tr). rewrite Hp4, Hp3. unfold key_lines. rewrite <- !app_assoc.
    f_equal. change (("", []) :: printed tr2 = [("", [])] ++ (if echo then shown "%s " (strs es) else []) ++
      [("REPLY : ARRAY", []); ("Connected successfully to redis at %s:%d", [AStr (codes "172.19.10.31"); AInt 6905])]%string ++ printed tr).
    rewrite Hp2. cbn [app]. f_equal. f_equal. cbn [app]. by rewrite <- Hp1.
Qed.

(** ** The members of a set (1.c) *)

(** What the two functions return and leave in memory, given the answer of the library. *)
Definition members_result (a : answer) (m : gmap Z (list Z)) (res : Z * option (Z * Z)) (m' : gmap Z (list Z)) : Prop :=
  if a_ptr a =? NULL then res = (-2, None) ∧ m' = m
  else
    match a_reply a with
    | REDIS_REPLY_ERROR _ => res = (-3, None) ∧ m' = m
    | REDIS_REPLY_NIL => res = (-4, None) ∧ m' = m
    | REDIS_REPLY_ARRAY es => ∃ arr, res = (0, Some (arr, Z.of_nat (length es))) ∧ m !! arr = None ∧ filled m arr (length es) (strs es) m'
    | _ => res = (-5, None) ∧ m' = m
    end.

(** Arrays that the programs can copy. *)
Definition copyable (r : redisReply) : Prop :=
  match r with REDIS_REPLY_ARRAY es => Forall (λ e, is_Some (r_str e)) es ∧ Z.of_nat (length es) < 2 ^ 31 | _ => True end.

Section members.
Context {hr : HIREDIS} {OK : HIREDIS_OK hr} {MEM : HIREDIS_MEM hr} (E : Z → rworld → Prop).
Implicit Types (tr : list revent) (cs : gset Z) (rs : gmap Z redisReply) (m : gmap Z (list Z)).

(** A command whose reply the caller handles. *)
Lemma command_ends g format args tr r cs rs m gc (Q : answer → rworld → Prop) : g ∈ cs →
  (∀ a, a = redis_answer tr (cs ∪ dom rs ∪ dom m) (redisCommand g format args) → a_ptr a = NULL →
    Q a (mk_rw ((redisCommand g format args, a) :: tr) gc r cs rs m)) →
  (∀ a, a = redis_answer tr (cs ∪ dom rs ∪ dom m) (redisCommand g format args) → a_ptr a ≠ NULL → a_ptr a ∉ cs → rs !! a_ptr a = None → m !! a_ptr a = None →
    Q a (mk_rw ((redisCommand g format args, a) :: tr) gc r cs (<[a_ptr a := a_reply a]> rs) m)) →
  ends (command g format args) Q E (mk_rw tr gc r cs rs m).
Proof using OK.
  clear MEM. intros Hg HN HQ. unfold command. r_step. r_step. rewrite bool_decide_in by done. r_step. r_step.
  pose proof (fresh_ptr tr (cs ∪ dom rs ∪ dom m) (redisCommand g format args)) as Hf. rewrite <- Ha in Hf.
  destruct (a_ptr a =? NULL) eqn:En; r_run; [apply HN; [done|lia]|].
  apply HQ; [done|lia|set_solver|apply not_elem_of_dom; set_solver|apply not_elem_of_dom; set_solver].
Qed.

Lemma free_at_ends p rep tr g r cs rs m (Q : unit → rworld → Prop) : rs !! p = Some rep →
  (∀ a, Q tt (mk_rw ((freeReplyObject p, a) :: tr) g r cs (delete p rs) m)) → ends (free_reply p) Q E (mk_rw tr g r cs rs m).
Proof using Type. intros Hp HQ. unfold free_reply, get_reply. r_run. eapply ends_expect; [done|]. r_run. apply HQ. Qed.

Lemma copy_elements_ends size es tr g r cs rs m (Q : Z * Z → rworld → Prop) : (∀ n, 0 ≤ n → n < size n) →
  Forall (λ e, is_Some (r_str e)) es → Z.of_nat (length es) < 2 ^ 31 →
  (∀ arr tr' m', m !! arr = None → exchanges tr' = exchanges tr → printed tr' = printed tr → filled m arr (length es) (strs es) m' →
    Q (arr, Z.of_nat (length es)) (mk_rw tr' g r cs rs m')) →
  ends (SetMembers.copy_elements size es) Q E (mk_rw tr g r cs rs m).
Proof.
  intros Hsize Hes Hn HQ. unfold SetMembers.copy_elements.
  replace (sgn 32 (Z.of_nat (length es))) with (Z.of_nat (length es)) by (symmetry; apply sgn_small; lia). r_step.
  eapply (malloc_ends _). intros arr a b HaN _ _ Ham Hb. rewrite Nat2Z.id in Hb. r_step. rewrite Nat2Z.id.
  eapply ends_mono; [apply (ends_for_range _ (λ i _ w, ∃ tr' m', w = mk_rw tr' g r cs rs m' ∧ exchanges tr' = exchanges tr ∧ printed tr' = printed tr ∧
    filled m arr (length es) (strs (take (Z.to_nat i) es)) m'))|].
  - exists ((malloc (8 * Z.of_nat (length es)), a) :: tr), (<[arr := b]> m). split; [done|]. split; [done|]. split; [done|]. by apply filled_start.
  - intros i [] w Hi (tr' & m' & -> & Hx & Hp & Hf). destruct (lookup_lt_is_Some_2 es (Z.to_nat i)) as [e He]; [lia|].
    destruct (Forall_lookup_1 _ _ _ _ Hes He) as [s Hs]. r_step. eapply ends_expect; [done|]. r_step.
    eapply (malloc_ends _). intros p a2 b2 HpN _ _ Hpm Hb2. rewrite Hs.
    assert (length (strs (take (Z.to_nat i) es)) = Z.to_nat i) as Hl by (unfold strs; rewrite length_fmap, length_take; lia).
    replace i with (Z.of_nat (length (strs (take (Z.to_nat i) es)))) at 1 by lia.
    eapply fill_ends; [exact Hf|lia|done|done| |].
    + rewrite Hb2. pose proof (cstr_length s). pose proof (Hsize (r_len e)). unfold r_len in *. rewrite Hs in *. cbn in *. lia.
    + intros m'' Hf''. eexists _, _. split; [done|]. split; [exact Hx|]. split; [exact Hp|].
      replace (Z.to_nat (i + 1)) with (S (Z.to_nat i)) by lia. unfold strs in *. rewrite (take_S_r _ _ _ He), fmap_app. cbn. by rewrite Hs.
  - intros [] w (tr' & m' & -> & Hx & Hp & Hf). r_step. rewrite Z.add_0_l, Nat2Z.id, firstn_all in Hf. by apply HQ.
Qed.

Lemma reply_code_ends size c a tr0 tr g r cs rs m rs' : (∀ n, 0 ≤ n → n < size n) → copyable (a_reply a) →
  tr = (c, a) :: tr0 → rs' = (if a_ptr a =? NULL then rs else <[a_ptr a := a_reply a]> rs) → (a_ptr a ≠ NULL → rs !! a_ptr a = None) →
  ends (SetMembers.reply_code size a) (λ res w, contexts w = cs ∧ replies w = rs ∧ members_result a m res (mem w) ∧
    exchanges (r_trace w) = exchanges tr ∧ printed (r_trace w) = printed tr) E (mk_rw tr g r cs rs' m).
Proof.
  intros Hsize Hcp -> -> Hfr. unfold SetMembers.reply_code, members_result. destruct (Z.eqb_spec (a_ptr a) NULL) as [Hz|Hnz].
  { r_step. by repeat split. }
  r_step. unfold get_reply. r_step. r_step. eapply ends_expect; [apply lookup_insert_eq|]. r_step.
  destruct (a_reply a) as [s|es|n| |s|s] eqn:Er; r_run.
  2: { destruct Hcp as [Hes Hn]. eapply copy_elements_ends; [done..|]. intros arr tr' m' Ham Hx Hp Hf. r_run.
       eapply free_at_ends; [apply lookup_insert_eq|]. intros a2. rewrite delete_insert_id by auto. r_run.
       split; [done|]. split; [done|]. split; [by eexists|]. by split. }
  all: eapply free_at_ends; [apply lookup_insert_eq|]; intros a2; rewrite delete_insert_id by auto; r_run; by repeat split.
Qed.

End members.

(** ** Hashes (setHash.c) *)

Definition is_error (r : redisReply) : bool := match r with REDIS_REPLY_ERROR _ => true | _ => false end.

(** The value that a history stored last under a key of the hash. *)
Fixpoint hash_get (tr : list revent) (key : list Z) : option (list Z) :=
  match tr with
  | [] => None
  | (redisCommand _ format [AStr k; AStr v], a) :: tr =>
      if String.eqb format "hset h1 %s %s" && negb (is_error (a_reply a)) && bool_decide (k = key) then Some v else hash_get tr key
  | _ :: tr => hash_get tr key
  end.

(** The entries of an array point to strings. *)
Definition strings_at (m : gmap Z (list Z)) (arr : Z) (ss : list (list Z)) : Prop :=
  ∀ i s, ss !! i = Some s → ∃ a p b, m !! arr = Some a ∧ a !! i = Some p ∧ m !! p = Some b ∧ holds_string b s.

Lemma filled_base m arr n ss m' q b : filled m arr n ss m' → m !! arr = None → m !! q = Some b → m' !! q = Some b.
Proof.
  intros (ps & bs & rest & _ & _ & _ & Hg) Ha Hq. assert (arr ≠ q) by congruence.
  rewrite (grown_base _ _ _ q Hg); rewrite lookup_insert_ne by done; [done|by eexists].
Qed.

Section hash.
Context {hr : HIREDIS} {OK : HIREDIS_OK hr} {MEM : HIREDIS_MEM hr} (E : Z → rworld → Prop).
Hypothesis hash_answers : ∀ tr used g format args, a_ptr (redis_answer tr used (redisCommand g format args)) ≠ NULL.
Hypothesis hset_answers : ∀ tr used g k v, is_error (a_reply (redis_answer tr used (redisCommand g "hset h1 %s %s" [AStr k; AStr v]))) = false.
Hypothesis hget_answers : ∀ tr used g k, a_reply (redis_answer tr used (redisCommand g "hget h1 %s" [AStr k])) =
  match hash_get tr k with Some v => REDIS_REPLY_STRING v | None => REDIS_REPLY_NIL end.
Implicit Types (tr : list revent) (cs : gset Z) (rs : gmap Z redisReply) (m : gmap Z (list Z)).

Lemma setHash_ends keys values ks tr g r cs rs m (Q : unit → rworld → Prop) : g ∈ cs → strings_at m keys ks →
  (∀ tr' r', Forall (λ k, hash_get tr' (cstr k) = Some []) ks → Q tt (mk_rw tr' g r' cs rs m)) →
  ends (SetHash.setHash keys values (Z.of_nat (length ks))) Q E (mk_rw tr g r cs rs m).
Proof using OK hash_answers hset_answers.
  intros Hg Hks HQ. unfold SetHash.setHash. rewrite Nat2Z.id.
  eapply ends_mono; [apply (ends_for_range _ (λ i _ w, ∃ tr' r', w = mk_rw tr' g r' cs rs m ∧
    Forall (λ k, hash_get tr' (cstr k) = Some []) (take (Z.to_nat i) ks)))|].
  - exists tr, r. split; [done|constructor].
  - intros i [] w Hi (tr' & r' & -> & Hst). destruct (lookup_lt_is_Some_2 ks (Z.to_nat i)) as [k Hk]; [lia|].
    destruct (Hks _ _ Hk) as (a & p & b & Ha & Hp & Hb & Hs). r_step. eapply load_ends; [done..|]. r_step. eapply string_at_ends; [done..|]. r_step. r_step.
    r_step. eapply command_ends; [done| |]; intros ans Hans Hn; [by subst ans; destruct (hash_answers tr' (cs ∪ dom rs ∪ dom m) g "hset h1 %s %s" [AStr (cstr k); AStr []])|].
    intros _ Hrs _. r_run. eapply free_at_ends; [apply lookup_insert_eq|]. intros a2. rewrite delete_insert_id by done.
    eexists _, _. split; [done|]. replace (Z.to_nat (i + 1)) with (S (Z.to_nat i)) by lia. rewrite (take_S_r _ _ _ Hk).
    assert (∀ k', hash_get tr' (cstr k') = Some [] ∨ k' = k →
      hash_get ((freeReplyObject (a_ptr ans), a2) :: (redisCommand g "hset h1 %s %s" [AStr (cstr k); AStr []], ans) :: tr') (cstr k') = Some []) as Hget.
    { intros k' Hk'. cbn [hash_get]. change (String.eqb "hset h1 %s %s" "hset h1 %s %s") with true.
      pose proof (hset_answers tr' (cs ∪ dom rs ∪ dom m) g (cstr k) []) as Hne. rewrite <- Hans in Hne. rewrite Hne. cbn [andb negb].
      case_bool_decide as Hd; [done|]. destruct Hk' as [?| ->]; done. }
    apply Forall_app. split; [|constructor; [apply Hget; by right|constructor]].
    eapply Forall_impl; [|exact Hst]. intros k' Hk'. apply Hget. by left.
  - intros [] w (tr' & r' & -> & Hst). rewrite Z.add_0_l, Nat2Z.id, firstn_all in Hst. by apply HQ.
Qed.

Lemma getHash_ends keys ks tr g r cs rs m (Q : Z → rworld → Prop) : g ∈ cs → strings_at m keys ks →
  Forall (λ k, hash_get tr (cstr k) = Some []) ks →
  (∀ ret tr' r' m', m !! ret = None → filled m ret (length ks) (replicate (length ks) []) m' → Q ret (mk_rw tr' g r' cs rs m')) →
  ends (SetHash.getHash keys (Z.of_nat (length ks))) Q E (mk_rw tr g r cs rs m).
Proof using OK MEM hash_answers hget_answers.
  intros Hg Hks Hst HQ. unfold SetHash.getHash. r_step. eapply (calloc_ends _). intros ret a0 HrN _ _ Hrm _. r_step. rewrite Nat2Z.id.
  eapply ends_mono; [apply (ends_for_range _ (λ i _ w, ∃ tr' r' m', w = mk_rw tr' g r' cs rs m' ∧ (∀ k, hash_get tr' k = hash_get tr k) ∧
    filled m ret (length ks) (replicate (Z.to_nat i) []) m'))|].
  - eexists _, _, _. split; [done|]. split; [done|]. apply filled_start. by rewrite length_replicate.
  - intros i [] w Hi (tr' & r' & m' & -> & Hh & Hf). destruct (lookup_lt_is_Some_2 ks (Z.to_nat i)) as [k Hk]; [lia|].
    destruct (Hks _ _ Hk) as (a & p & b & Ha & Hp & Hb & Hs).
    pose proof (filled_base _ _ _ _ _ _ _ Hf Hrm Ha) as Ha'. pose proof (filled_base _ _ _ _ _ _ _ Hf Hrm Hb) as Hb'.
    r_step. eapply load_ends; [done..|]. r_step. eapply string_at_ends; [done..|]. r_step. r_step. r_step.
    eapply command_ends; [done| |]; intros ans Hans Hn; [by subst ans; destruct (hash_answers tr' (cs ∪ dom rs ∪ dom m') g "hget h1 %s" [AStr (cstr k)])|].
    intros _ Hrs _. assert (a_reply ans = REDIS_REPLY_STRING []) as Hr.
    { rewrite Hans, hget_answers, Hh, (Forall_lookup_1 _ _ _ _ Hst Hk). done. }
    rewrite Hr. r_run. unfold get_reply. r_run. eapply ends_expect; [apply lookup_insert_eq|]. r_step.
    eapply (calloc_ends _). intros q a2 HqN _ _ Hqm _. cbn [r_len r_str default length].
    replace i with (Z.of_nat (length (replicate (Z.to_nat i) ([] : list Z)))) at 1 by (rewrite length_replicate; lia).
    r_step. eapply enter_ends; [exact Hf|rewrite length_replicate; lia|done|done|]. intros m1 Hm1. r_step. r_step. r_step.
    eapply (entered_ends _ _ _ _ _ []); [exact Hm1|by apply Nat.ltb_lt|]. intros m2 Hf2.
    eapply free_at_ends; [apply lookup_insert_eq|]. intros a3. rewrite delete_insert_id by done.
    eexists _, _, _. split; [done|]. split; [intros k'; apply Hh|].
    replace (Z.to_nat (i + 1)) with (S (Z.to_nat i)) by lia. by rewrite replicate_S_end.
  - intros [] w (tr' & r' & m' & -> & Hh & Hf). r_step. rewrite Z.add_0_l, Nat2Z.id in Hf. by eapply HQ.
Qed.

End hash.

(** ** A structure as a value (getsetStruct.c) *)

Lemma le_length n z : length (GetSetStruct.le n z) = n.
Proof. revert z. induction n as [|n IH]; intros z; cbn; [done|]. by rewrite IH. Qed.

Lemma unle_le n z : GetSetStruct.unle (GetSetStruct.le n z) = z mod 2 ^ (8 * Z.of_nat n).
Proof.
  revert z. induction n as [|n IH]; intros z; cbn [GetSetStruct.le GetSetStruct.unle]; [by rewrite Z.mod_1_r|]. rewrite IH.
  replace (2 ^ (8 * Z.of_nat (S n))) with (256 * 2 ^ (8 * Z.of_nat n)) by (change 256 with (2 ^ 8); rewrite <- Z.pow_add_r by lia; f_equal; lia).
  assert (0 < 2 ^ (8 * Z.of_nat n)) by (apply Z.pow_pos_nonneg; lia). rewrite Z.rem_mul_r by lia. lia.
Qed.

(** The bytes stored last. *)
Fixpoint struct_get (tr : list revent) : option (list Z) :=
  match tr with
  | [] => None
  | (redisCommand _ format [AStr v], a) :: tr =>
      if String.eqb format "set h_mohit %b" && negb (is_error (a_reply a)) then Some v else struct_get tr
  | _ :: tr => struct_get tr
  end.

Section fields.
Context {hr : HIREDIS} (E : Z → rworld → Prop).
Implicit Types (tr : list revent) (cs : gset Z) (rs : gmap Z redisReply) (m : gmap Z (list Z)).

Lemma set_field_ends p pre old post bytes tr g r cs rs m (Q : unit → rworld → Prop) : length old = length bytes →
  m !! p = Some (pre ++ old ++ post) → Q tt (mk_rw tr g r cs rs (<[p := pre ++ bytes ++ post]> m)) →
  ends (GetSetStruct.set_field p (Z.of_nat (length pre)) bytes) Q E (mk_rw tr g r cs rs m).
Proof.
  intros Hl Hp HQ. unfold GetSetStruct.set_field.
  eapply ends_mono; [apply (ends_for_range _ (λ i _ w, w = mk_rw tr g r cs rs (<[p := pre ++ take (Z.to_nat i) bytes ++ drop (Z.to_nat i) old ++ post]> m)))|].
  - by rewrite insert_id.
  - intros i [] w Hi ->. destruct (lookup_lt_is_Some_2 bytes (Z.to_nat i)) as [b Hb]; [lia|]. r_step. eapply ends_expect; [done|].
    assert (is_Some (old !! Z.to_nat i)) as [o Ho] by (apply lookup_lt_is_Some_2; lia).
    assert (length (take (Z.to_nat i) bytes) = Z.to_nat i) as Ht by (rewrite length_take; lia).
    eapply store_ends; [apply lookup_insert_eq|rewrite !length_app, Ht, length_drop; lia|]. rewrite insert_insert_eq. f_equal. f_equal.
    replace (Z.to_nat (Z.of_nat (length pre) + i)) with (length pre + Z.to_nat i)%nat by lia. rewrite insert_app_r. f_equal.
    replace (Z.to_nat i) with (length (take (Z.to_nat i) bytes) + 0)%nat at 1 by lia. rewrite insert_app_r, (drop_S _ _ _ Ho). cbn.
    replace (Z.to_nat (i + 1)) with (S (Z.to_nat i)) by lia. rewrite (take_S_r _ _ _ Hb), <- app_assoc. done.
  - intros [] w ->. rewrite Z.add_0_l, Nat2Z.id, firstn_all, <- Hl, drop_all. done.
Qed.

Lemma get_field_ends p pre bytes post tr g r cs rs m (Q : Z → rworld → Prop) : m !! p = Some (pre ++ bytes ++ post) →
  Q (GetSetStruct.unle bytes) (mk_rw tr g r cs rs m) → ends (GetSetStruct.get_field p (Z.of_nat (length pre)) (length bytes)) Q E (mk_rw tr g r cs rs m).
Proof.
  intros Hp HQ. unfold GetSetStruct.get_field. r_step. r_step. r_step. eapply ends_expect; [done|].
  rewrite (proj2 (Z.ltb_ge _ _)) by (rewrite !length_app; lia). r_step. by rewrite Nat2Z.id, drop_app_length, take_app_length.
Qed.

Lemma free_ends p b tr g r cs rs m (Q : unit → rworld → Prop) : p ≠ NULL → m !! p = Some b →
  (∀ a, Q tt (mk_rw ((free p, a) :: tr) g r cs rs (delete p m))) → ends (r_free p) Q E (mk_rw tr g r cs rs m).
Proof.
  intros Hn Hp HQ. unfold r_free. rewrite (proj2 (Z.eqb_neq _ _) Hn). r_step. r_step. r_step. eapply ends_expect; [done|]. r_run. apply HQ.
Qed.

End fields.

Section structure.
Context {hr : HIREDIS} {OK : HIREDIS_OK hr} {MEM : HIREDIS_MEM hr} (E : Z → rworld → Prop).
Hypothesis get_answers : ∀ tr used g, a_reply (redis_answer tr used (redisCommand g "get h_mohit" [])) =
  match struct_get tr with Some v => REDIS_REPLY_STRING v | None => REDIS_REPLY_NIL end.
Hypothesis set_answers : ∀ tr used g v, is_error (a_reply (redis_answer tr used (redisCommand g "set h_mohit %b" [AStr v]))) = false.
Hypothesis exits : ∀ w, E 1 w.
Implicit Types (tr : list revent) (cs : gset Z) (rs : gmap Z redisReply) (m : gmap Z (list Z)).

Lemma setstruct_ends p b tr g r cs rs m (Q : unit → rworld → Prop) : g ∈ cs → m !! p = Some b →
  (∀ tr' q rep, rs !! q = None → struct_get tr' = Some b → Q tt (mk_rw tr' g q cs (<[q := rep]> rs) m)) →
  ends (GetSetStruct.setstruct p (Z.of_nat (length b))) Q E (mk_rw tr g r cs rs m).
Proof using OK set_answers exits.
  clear MEM. intros Hg Hp HQ. unfold GetSetStruct.setstruct. r_step. r_step. r_step. eapply ends_expect; [done|].
  rewrite Z.ltb_irrefl, Nat2Z.id, take_ge by done. r_step. eapply (obtain_ends _); [done| |auto]. intros q a _ _ Hq _ Ha.
  pose proof (set_answers tr (cs ∪ dom rs ∪ dom m) g b) as Hs. rewrite <- Ha in Hs.
  destruct (a_reply a) as [| | | | |s] eqn:Ea; r_step; try done; (apply HQ; [done|]; cbn; by rewrite Ea).
Qed.

Lemma getstruct_ends b tr g r cs rs m (Q : Z → rworld → Prop) : g ∈ cs → struct_get tr = Some b →
  (∀ p tr' q rep, p ≠ NULL → m !! p = None → rs !! q = None → Q p (mk_rw tr' g q cs (<[q := rep]> rs) (<[p := b]> m))) →
  ends GetSetStruct.getstruct Q E (mk_rw tr g r cs rs m).
Proof using OK MEM get_answers exits.
  intros Hg Hs HQ. unfold GetSetStruct.getstruct. r_step. eapply (obtain_ends _); [done| |auto]. intros q a _ _ Hq _ Ha.
  assert (a_reply a = REDIS_REPLY_STRING b) as Hrep by by rewrite Ha, get_answers, Hs. rewrite Hrep. r_step. r_step. r_step.
  eapply (calloc_ends _). intros p a2 HpN _ _ Hp _. r_step. rewrite Nat2Z.id.
  eapply copy_ends; [apply lookup_insert_eq|by rewrite length_replicate|].
  rewrite insert_insert_eq, drop_ge, app_nil_r by by rewrite length_replicate. r_step. by apply HQ.
Qed.

(** The structure before it is stored: its block and that of the name. *)
Lemma fill_struct_ends p name tr g r cs rs m (Q : unit → rworld → Prop) : p ≠ name → m !! p = Some (replicate 16 0) → m !! name = Some (replicate 16 0) →
  (∀ b, holds_string b (codes "mohit") →
    Q tt (mk_rw tr g r cs rs (<[p := GetSetStruct.le 8 name ++ GetSetStruct.le 4 1234 ++ replicate 4 0]> (<[name := b]> m)))) →
  ends (GetSetStruct.set_field p 0 (GetSetStruct.le 8 name);; strcpy name (Some (codes "mohit"));; GetSetStruct.set_field p 8 (GetSetStruct.le 4 1234)) Q E
    (mk_rw tr g r cs rs m).
Proof using Type.
  clear. intros Hne Hp Hn HQ. r_step.
  eapply (set_field_ends _ p [] (replicate 8 0) (replicate 8 0)); [by rewrite le_length|done|]. r_step. unfold strcpy. r_step. eapply ends_expect; [done|].
  eapply copy_ends; [by rewrite lookup_insert_ne|by apply Nat.leb_le|].
  pose proof (set_field_ends E p (GetSetStruct.le 8 name) (replicate 4 0) (replicate 4 0) (GetSetStruct.le 4 1234)) as Hf. rewrite le_length in Hf.
  eapply Hf; [done|by rewrite lookup_insert_ne, lookup_insert_eq|].
  rewrite (insert_insert_ne m name p), insert_insert_eq by done. apply HQ, copied_holds.
Qed.

End structure.

Lemma size_one_more (X : gset Z) c : (size ({[c]} ∪ X) ≤ S (size X))%nat.
Proof.
  destruct (decide (c ∈ X)); [replace ({[c]} ∪ X) with X by set_solver; lia|]. rewrite size_union by set_solver. by rewrite size_singleton.
Qed.

Lemma ends_group (a b c : M rworld unit) {A} (k : M rworld A) Q E w : ends ((a;; b;; c);; k) Q E w → ends (a;; b;; c;; k) Q E w.
Proof. unfold ends, mbind, M_bind. destruct (a w) as [[] w1| | |]; try done. by destruct (b w1) as [[] w2| | |]. Qed.

(** The structure makes the round trip: with a server that returns the bytes stored last, the
    program prints the name and the number it stored, through the pointer that it reads back.
    What it leaves behind is the name, whose block is never freed, and the reply to the first
    command. *)
Theorem struct_roundtrip {hr : HIREDIS} {OK : HIREDIS_OK hr} {MEM : HIREDIS_MEM hr} w0 :
  (∀ tr used, a_ptr (redis_answer tr used (redisConnect "172.19.10.31" 6905)) ≠ NULL) →
  (∀ tr used c, Z.of_nat (size used) < 2 ^ 32 → 0 ≤ a_ptr (redis_answer tr used c) < 2 ^ 64) → Z.of_nat (size (live w0)) < 2 ^ 31 →
  (∀ tr used g, a_reply (redis_answer tr used (redisCommand g "get h_mohit" [])) =
    match struct_get tr with Some v => REDIS_REPLY_STRING v | None => REDIS_REPLY_NIL end) →
  (∀ tr used g v, is_error (a_reply (redis_answer tr used (redisCommand g "set h_mohit %b" [AStr v]))) = false) →
  ends GetSetStruct.main (λ ret w, ret = 0 ∧ contexts w = contexts w0 ∧
      head (printed (r_trace w)) = Some ("devlog : %s %d", [AStr (codes "mohit"); AInt 1234])%string ∧
      (∃ p b, mem w0 !! p = None ∧ holds_string b (codes "mohit") ∧ mem w = <[p := b]> (mem w0)) ∧
      ∃ q rep, replies w0 !! q = None ∧ replies w = <[q := rep]> (replies w0)) (λ code w, code = 1) w0.
Proof.
  intros Hc Hr Hsz Hget Hset. destruct w0 as [tr g r cs rs m]. unfold GetSetStruct.main. r_step.
  eapply (connect2redis_ends _); [done| |done]. intros c tr1 _ Hc1 _ _. r_step.
  eapply (calloc_ends _). intros m1 a1 Hm1 _ _ Hm1m _. r_step. eapply (calloc_ends _). intros name a2 Hna _ _ Hnam Heq.
  assert (0 ≤ name < 2 ^ 64) as Hrange.
  { rewrite Heq. apply Hr. rewrite dom_insert_L. pose proof (size_one_more (cs ∪ dom rs ∪ dom m) m1). pose proof (size_one_more ({[m1]} ∪ (cs ∪ dom rs ∪ dom m)) c). unfold live in Hsz. cbn in Hsz.
    replace (({[c]} ∪ cs) ∪ dom rs ∪ ({[m1]} ∪ dom m)) with ({[c]} ∪ ({[m1]} ∪ (cs ∪ dom rs ∪ dom m))) by set_solver. lia. }
  clear Heq.
  assert (m1 ≠ name) as Hne. { intros ->. by rewrite lookup_insert_eq in Hnam. }
  rewrite lookup_insert_ne in Hnam by done. apply ends_group. r_step.
  eapply fill_struct_ends; [done|by rewrite lookup_insert_ne, lookup_insert_eq|apply lookup_insert_eq|]. intros N HN. r_step.
  set (B := GetSetStruct.le 8 name ++ GetSetStruct.le 4 1234 ++ replicate 4 0).
  rewrite insert_insert_eq, (insert_insert_ne m name m1), insert_insert_eq by done. change 16 with (Z.of_nat (length B)).
  eapply (setstruct_ends _); [done|done|set_solver|apply lookup_insert_eq|]. intros tr2 q1 rep1 Hq1 Hst. r_step.
  eapply (getstruct_ends _); [done|done|set_solver|done|]. intros pd tr3 q2 rep2 Hpd Hpdm Hq2.
  assert (pd ≠ m1) by (intros ->; by rewrite lookup_insert_eq in Hpdm). rewrite lookup_insert_ne in Hpdm by done.
  assert (pd ≠ name) by (intros ->; by rewrite lookup_insert_eq in Hpdm). rewrite lookup_insert_ne in Hpdm by done.
  r_step. eapply (get_field_ends _ pd [] (GetSetStruct.le 8 name)); [apply lookup_insert_eq|]. rewrite unle_le, Z.mod_small by done. r_step.
  eapply string_at_ends; [by rewrite !lookup_insert_ne, lookup_insert_eq by done|done|]. r_step.
  eapply (get_field_ends _ pd (GetSetStruct.le 8 name) (GetSetStruct.le 4 1234) (replicate 4 0)); [apply lookup_insert_eq|]. rewrite unle_le.
  r_step. r_step. r_step. eapply free_ends; [done|by rewrite lookup_insert_ne, lookup_insert_eq by done|]. intros a4. r_step.
  eapply free_ends; [done|by rewrite lookup_delete_ne, lookup_insert_eq by done|]. intros a5. r_step.
  eapply free_reply_ends; [apply lookup_insert_eq|]. intros a6. rewrite delete_insert_id by done. r_step. apply close_ends; [done|]. intros a7. r_run.
  split; [done|]. split; [done|]. split; [done|]. split; [|by exists q1, rep1]. exists name, N. split; [done|]. split; [done|].
  cbn [mem]. apply map_eq. intros i. rewrite !lookup_delete, !lookup_insert. repeat case_decide; congruence.
Qed.

(** ** Theorems *)

(** The four programs that send a million numbered commands, whatever the server answers,
    return 0 after having sent exactly their commands in order, with every reply freed and the
    connection closed; or they exit with 1 after a first part of the commands, when a reply or
    the connection is missing.  It is assumed that an array holds no element without a text. *)
Theorem numbered_tests_complete {hr : HIREDIS} {OK : HIREDIS_OK hr} (program : M rworld Z) (mycmd : Z → string) w0 :
  (program, mycmd) ∈ [
    (GetTest.main, λ i, "get mohit" +:+ dec i); (SetTest.main, λ i, "set mohit" +:+ dec i +:+ " 11");
    (SismemberTest.main, λ i, "sismember mySet  singh" +:+ dec i); (TestSet.main, λ i, "sadd mySet  singh" +:+ dec i)]%string →
  (∀ tr used ip port, a_ptr (redis_answer tr used (redisConnect ip port)) ≠ NULL) →
  (∀ tr used g format, printable (a_reply (redis_answer tr used (redisCommand g format [])))) →
  ends program (λ ret w, ret = 0 ∧ balanced w0 (numbered_cmds mycmd (Z.to_nat 1000000)) w)
    (λ code w, code = 1 ∧ ∃ k, (k ≤ Z.to_nat 1000000)%nat ∧ commands (r_trace w) = numbered_cmds mycmd k ++ commands (r_trace w0)) w0.
Proof.
  intros Hin Hc Hp.
  assert (∀ i, 0 ≤ i < 1000000 → Z.of_nat (String.length (dec i)) ≤ 6) as Hd by (intros i Hi; pose proof (dec_length_small i Hi); lia).
  repeat (apply elem_of_cons in Hin as [[= -> ->]|Hin]); [..|by apply elem_of_nil in Hin].
  all: eapply numbered_ends; [lia|done|done|]; intros i Hi; specialize (Hd i Hi); rewrite ?string_length_app; cbn [String.length]; lia.
Qed.

(** A server that accepts connections and answers every command. *)
Definition answering (hr : HIREDIS) : Prop :=
  (∀ tr used c, a_ptr (redis_answer tr used c) ≠ NULL) ∧ (∀ tr used ip port, a_err (redis_answer tr used (redisConnect ip port)) = 0) ∧
  (∀ tr used g format, printable (a_reply (redis_answer tr used (redisCommand g format [])))).

Lemma connected_wp {hr : HIREDIS} {OK : HIREDIS_OK hr} ip port w0 : answering hr → wp (connect2redis ip port) (λ _ w, gContext w ∈ contexts w) w0.
Proof.
  intros (Hn & He & _). destruct w0 as [tr g r cs rs m]. apply (proj1 (ends_no_exit _ _ _)). eapply (connect2redis_ends _); [done| |].
  - intros c tr' _ _ _ _. cbn. set_solver.
  - intros w Hw. by rewrite He in Hw.
Qed.

(** With a server that answers, the program that adds to a sorted set writes past the end of its
    buffer of 32 characters: the command of round 10000 needs 33. *)
Theorem zadd_overflows {hr : HIREDIS} {OK : HIREDIS_OK hr} w0 : answering hr → ZaddTest.main w0 = Undef.
Proof.
  intros Ha. unfold ZaddTest.main, numbered. eapply bind_undef_after; [by apply connected_wp|]. intros [] w1 Hw1. apply bind_undef.
  apply (for_range_undef (λ _ _ w, gContext w ∈ contexts w) _ 0 10000); [lia|done| |].
  - intros i [] [tr g r cs rs m] Hi Hw. cbn in Hw. destruct Ha as (Hn & _ & Hp). apply (proj1 (ends_no_exit _ _ _)). eapply numbered_round_ends; [done| |done|done|].
    + pose proof (dec_fuel_length 3 10 i) as Hd. rewrite !string_length_app. cbn [String.length]. unfold dec. lia.
    + intros w Hw'. by apply Hn in Hw'.
  - intros [] w Hw. by vm_compute.
Qed.

(** The command of the program that lists the sorted set has 43 characters for a buffer of 32. *)
Theorem zrange_overflows {hr : HIREDIS} {OK : HIREDIS_OK hr} w0 : answering hr → ZrangeTest.main w0 = Undef.
Proof.
  intros Ha. unfold ZrangeTest.main, single. eapply bind_undef_after; [by apply connected_wp|]. by intros [] w1 _.
Qed.

(** C36: the three programs that list keys, when memory is not exhausted and the server answers the
    command with an array of fewer than 2^31 strings or not at all, either exit with code 1 (no connection or no reply)
    or return 0: they have sent one command, copied the elements of its reply, printed every copy in order after the
    reply was freed (the sorted one has printed the elements before as well), and given back every copy, the array,
    the reply and the connection exactly once. *)
Theorem key_programs_complete {hr : HIREDIS} {OK : HIREDIS_OK hr} {MEM : HIREDIS_MEM hr} (program : M rworld Z) echo mycmd w0 :
  (program, echo, mycmd) ∈ [(GetKeys.main, false, "keys *"); (DelKeys.main, false, "keys *"); (GetSortedKeys.main, true, "ZRANGEBYSCORE my 0 2")]%string →
  (∀ tr used, a_ptr (redis_answer tr used (redisConnect "172.19.10.31" 6905)) ≠ NULL) →
  (∀ tr used g, ∃ es, a_reply (redis_answer tr used (redisCommand g mycmd [])) = REDIS_REPLY_ARRAY es ∧
    Forall (λ e, is_Some (r_str e)) es ∧ Z.of_nat (length es) < 2 ^ 31) →
  mem w0 !! NULL = None →
  ends program (λ ret w, ret = 0 ∧ balanced w0 [(mycmd, [])] w ∧
      ∃ es, exchanges (r_trace w) = (mycmd, [], REDIS_REPLY_ARRAY es) :: exchanges (r_trace w0) ∧
        printed (r_trace w) = key_lines echo es ++ printed (r_trace w0)) (λ code w, code = 1) w0.
Proof.
  intros Hin Hc Hr HN. repeat (apply elem_of_cons in Hin as [[= -> -> ->]|Hin]); [..|by apply elem_of_nil in Hin].
  all: apply list_keys_ends; [done|done|by apply Nat.ltb_lt|done].
Qed.

(** When the answer is not an array the number of keys is used without having been set. *)
Theorem keys_need_array {hr : HIREDIS} {OK : HIREDIS_OK hr} w0 : answering hr →
  (∀ tr used g es, a_reply (redis_answer tr used (redisCommand g "keys *" [])) ≠ REDIS_REPLY_ARRAY es) → GetKeys.main w0 = Undef.
Proof.
  intros Ha Hr. unfold GetKeys.main, list_keys. eapply bind_undef_after; [by apply connected_wp|]. intros [] [tr g r cs rs m] Hw1. cbn in Hw1.
  eapply (bind_undef_after _ _ (λ c w, c = "keys *"%string ∧ w = mk_rw tr g r cs rs m)); [done|]. intros c w [-> ->].
  eapply (bind_undef_after _ _ (λ o w, o = None ∧ is_Some (replies w !! gReply w))).
  - apply (proj1 (ends_no_exit _ _ _)). unfold execute_keys.
    r_step. destruct Ha as (Hn & _ & Hp). eapply (obtain_ends _); [done| |].
    + intros p a _ _ _ _ Ha. pose proof (Hr tr (cs ∪ dom rs ∪ dom m) g) as Hne. rewrite <- Ha in Hne.
      destruct (a_reply a) as [s|es| | | |] eqn:Er; try by destruct (Hne es).
      all: r_step; eapply ends_mono; [by apply print_reply_ends|]; intros [] w (tr' & -> & _); r_step; split; [done|]; cbn; rewrite lookup_insert_eq; by eexists.
    + intros w Hw. by apply Hn in Hw.
  - intros o [tr' g' r' cs' rs' m'] [-> [rep Hrep]]. cbn in Hrep. eapply (bind_undef_after _ _ (λ _ _, True)); [|done].
    apply (proj1 (ends_no_exit _ _ _)). by eapply free_reply_ends.
Qed.

(** The two functions that fetch an array report every kind of reply by a code of its own; on
    success the array they store has the elements of the reply, copied in order, and on every
    path the reply has been freed and nothing else has been allocated. *)
Theorem members_fetched {hr : HIREDIS} {OK : HIREDIS_OK hr} {MEM : HIREDIS_MEM hr} key (scores min max : Z) w0 : gContext w0 ∈ contexts w0 → gContext w0 ≠ NULL →
  (∀ tr used g format args, copyable (a_reply (redis_answer tr used (redisCommand g format args)))) →
  let fetched format args (f : M rworld (Z * option (Z * Z))) :=
    wp f (λ res w, let a := redis_answer (r_trace w0) (live w0) (redisCommand (gContext w0) format args) in
      contexts w = contexts w0 ∧ replies w = replies w0 ∧ members_result a (mem w0) res (mem w) ∧
      exchanges (r_trace w) = (format, args, a_reply a) :: exchanges (r_trace w0) ∧ printed (r_trace w) = printed (r_trace w0)) w0 in
  fetched "SMEMBERS %s"%string [AStr key] (SetMembers.redis_set_members (gContext w0) (Some key) true true) ∧
  fetched (if scores =? 1 then "ZREVRANGE %s %ld %ld withscores"%string else "ZREVRANGE %s %ld %ld"%string) [AStr key; AInt min; AInt max]
    (SetMembers.redis_sorted_set_revrange (gContext w0) (Some key) scores min max true true).
Proof.
  intros Hg HgN Hcp fetched. destruct w0 as [tr g r cs rs m]. cbn in Hg, HgN.
  assert (∀ format args size, (∀ n, 0 ≤ n → n < size n) → fetched format args (a ← command g format args; SetMembers.reply_code size a)) as Hgo.
  { intros format args size Hs. unfold fetched. apply (proj1 (ends_no_exit _ _ _)). r_step. eapply command_ends; [done| |].
    - intros a Ha Hz. eapply ends_mono; [eapply reply_code_ends; [done|subst a; apply Hcp|done|by rewrite Hz|done]|].
      intros res w (? & ? & ? & Hx & Hp). unfold live. cbn. rewrite <- Ha. by rewrite Hx.
    - intros a Ha Hz _ Hr _. eapply ends_mono; [eapply reply_code_ends; [done|subst a; apply Hcp|done|by rewrite (proj2 (Z.eqb_neq _ _) Hz)|done]|].
      intros res w (? & ? & ? & Hx & Hp). unfold live. cbn. rewrite <- Ha. by rewrite Hx. }
  unfold SetMembers.redis_set_members, SetMembers.redis_sorted_set_revrange. cbn [gContext]. rewrite (proj2 (Z.eqb_neq _ _) HgN).
  split; apply Hgo; intros n Hn; lia.
Qed.

(** Storing a hash loses the values: whatever values are given, after storing any keys with
    [setHash] every value that [getHash] returns for them is the empty string, since it is an
    array of zeros that is stored. *)
Theorem hash_values_lost {hr : HIREDIS} {OK : HIREDIS_OK hr} {MEM : HIREDIS_MEM hr} keys values ks w0 :
  (∀ tr used g format args, a_ptr (redis_answer tr used (redisCommand g format args)) ≠ NULL) →
  (∀ tr used g k v, is_error (a_reply (redis_answer tr used (redisCommand g "hset h1 %s %s" [AStr k; AStr v]))) = false) →
  (∀ tr used g k, a_reply (redis_answer tr used (redisCommand g "hget h1 %s" [AStr k])) =
    match hash_get tr k with Some v => REDIS_REPLY_STRING v | None => REDIS_REPLY_NIL end) →
  gContext w0 ∈ contexts w0 → strings_at (mem w0) keys ks →
  wp (SetHash.setHash keys values (Z.of_nat (length ks));; SetHash.getHash keys (Z.of_nat (length ks))) (λ ret w,
    contexts w = contexts w0 ∧ replies w = replies w0 ∧ strings_at (mem w) ret (replicate (length ks) [])) w0.
Proof.
  intros Hn Hs Hg Hc Hk. destruct w0 as [tr g r cs rs m]. cbn in Hc, Hk. apply (proj1 (ends_no_exit _ _ _)). r_step.
  eapply (setHash_ends _); [done..|]. intros tr1 r1 Hst. eapply (getHash_ends _); [done..|]. intros ret tr2 r2 m2 _ Hf.
  split; [done|]. split; [done|]. intros i s Hi. by eapply filled_entry.
Qed.

(** ** Polling a key (redisConnectionTest.c) *)

(** What [getKey] returns and leaves in memory, given the answer of the library. *)
Definition key_result (a : answer) (m : gmap Z (list Z)) (res : Z * option Z) (m' : gmap Z (list Z)) : Prop :=
  match a_reply a with
  | REDIS_REPLY_STRING s =>
      if a_ptr a =? NULL then res = (-1, None) ∧ m' = m
      else ∃ p b, res = (0, Some p) ∧ p ≠ NULL ∧ m !! p = None ∧ holds_string b s ∧ m' = <[p := b]> m
  | _ => res = (-1, None) ∧ m' = m
  end.

(** The command of every round. *)
Definition poll_cmd : string * list arg := ("GET %s"%string, [AStr (codes "foo")]).

Section polling.
Context {hr : HIREDIS} {OK : HIREDIS_OK hr} {MEM : HIREDIS_MEM hr} (E : Z → rworld → Prop).
Implicit Types (tr : list revent) (cs : gset Z) (rs : gmap Z redisReply) (m : gmap Z (list Z)).

Lemma getKey_ends key tr g r cs rs m (Q : Z * option Z → rworld → Prop) : g ∈ cs → g ≠ NULL →
  (∀ res tr' m', exchanges tr' = ("GET %s"%string, [AStr key], a_reply (redis_answer tr (cs ∪ dom rs ∪ dom m) (redisCommand g "GET %s" [AStr key]))) :: exchanges tr →
    key_result (redis_answer tr (cs ∪ dom rs ∪ dom m) (redisCommand g "GET %s" [AStr key])) m res m' → Q res (mk_rw tr' g r cs rs m')) →
  ends (ConnectionTest.getKey g (Some key) true) Q E (mk_rw tr g r cs rs m).
Proof.
  intros Hg HgN HQ. unfold ConnectionTest.getKey. rewrite (proj2 (Z.eqb_neq _ _) HgN). cbn [orb negb]. r_step.
  eapply command_ends; [done| |]; intros a Ha Hn; rewrite <- Ha in HQ.
  - rewrite Hn. change (NULL =? NULL) with true. r_run. apply HQ; [done|]. unfold key_result. rewrite Hn. by destruct (a_reply a).
  - intros _ Hrs _. unfold key_result in HQ. rewrite (proj2 (Z.eqb_neq _ _) Hn) in *. unfold get_reply. r_step. r_step. r_step.
    eapply ends_expect; [apply lookup_insert_eq|]. r_step. destruct (a_reply a) as [s| | | | |s] eqn:Er; r_run.
    1: { eapply (calloc_ends _). intros p a2 HpN _ _ Hp _. unfold strcpy. r_step. r_step. eapply ends_expect; [done|].
         eapply copy_ends; [apply lookup_insert_eq|rewrite length_app, length_replicate; unfold r_len; cbn; pose proof (cstr_length s); lia|]. r_step. r_step.
         eapply free_at_ends; [apply lookup_insert_eq|]. intros a3. rewrite delete_insert_id, insert_insert_eq by done. r_step.
         apply HQ; [by cbn; rewrite Er|]. eexists _, _. split; [done|]. split; [done|]. split; [done|]. split; [apply copied_holds|done]. }
    all: eapply free_at_ends; [apply lookup_insert_eq|]; intros a3; rewrite delete_insert_id by done; r_step; apply HQ; [by cbn; rewrite Er|done].
Qed.

Lemma connect_ends ip port tr g r cs rs m (Q : answer → rworld → Prop) :
  (∀ tr used, a_ptr (redis_answer tr used (redisConnect ip port)) ≠ NULL) →
  (∀ a, a_ptr a ≠ NULL → a_ptr a ∉ cs → Q a (mk_rw ((redisConnect ip port, a) :: tr) g r ({[a_ptr a]} ∪ cs) rs m)) →
  ends (connect ip port) Q E (mk_rw tr g r cs rs m).
Proof using OK.
  clear MEM. intros Hc HQ. unfold connect. r_step. r_step. pose proof (Hc tr (cs ∪ dom rs ∪ dom m)) as Hn.
  pose proof (fresh_ptr tr (cs ∪ dom rs ∪ dom m) (redisConnect ip port)) as Hf. rewrite <- Ha in Hn, Hf. rewrite (proj2 (Z.eqb_neq _ _) Hn). r_run.
  apply HQ; [done|set_solver].
Qed.

Lemma main_round_ends tr g r cs rs m (Q : unit → rworld → Prop) : g ∈ cs → g ≠ NULL →
  (∀ tr', commands tr' = poll_cmd :: commands tr → Q tt (mk_rw tr' g r cs rs m)) →
  ends ConnectionTest.main_round Q E (mk_rw tr g r cs rs m).
Proof.
  intros Hg HgN HQ. unfold ConnectionTest.main_round. r_step. r_step. r_step. eapply getKey_ends; [done..|]. intros res tr' m' Hx Hres.
  assert (commands tr' = poll_cmd :: commands tr) as Hc by by rewrite !exchanges_commands, Hx.
  unfold key_result in Hres. set (a := redis_answer _ _ _) in *. clearbody a.
  assert (res = (-1, None) ∧ m' = m ∨ ∃ p b s, res = (0, Some p) ∧ p ≠ NULL ∧ m !! p = None ∧ holds_string b s ∧ m' = <[p := b]> m) as [[-> ->]|(p & b & s & -> & HpN & Hp & Hb & ->)].
  { destruct (a_reply a) as [s| | | | |]; try by left. destruct (a_ptr a =? NULL); [by left|]. destruct Hres as (p & b & ?). right. by exists p, b, s. }
  - cbn [fst snd default]. change (-1 <? 0) with true. r_run. unfold r_free. change (NULL =? NULL) with true. r_run. by apply HQ.
  - cbn [fst snd default]. change (0 <? 0) with false. r_step. r_step. eapply string_at_ends; [apply lookup_insert_eq|done|]. r_run.
    eapply free_ends; [done|apply lookup_insert_eq|]. intros a5. r_run. rewrite delete_insert_id by done. by apply HQ.
Qed.

End polling.

(** For any number of rounds, and whatever the server answers, the program that polls a key holds
    its one connection and nothing else: each round sends one command, frees the reply on every
    path and gives back the copy of the value.  It exits only before the first command. *)
Theorem polling_keeps_memory {hr : HIREDIS} {OK : HIREDIS_OK hr} {MEM : HIREDIS_MEM hr} rounds argv atoi w0 :
  (3 ≤ length argv)%nat → (∀ ip, argv !! 1%nat = Some ip → (String.length ip < 16)%nat) →
  (∀ tr used ip port, a_ptr (redis_answer tr used (redisConnect ip port)) ≠ NULL) →
  ends (ConnectionTest.main rounds argv atoi)
    (λ _ w, (∃ c, (c ∉ contexts w0) ∧ gContext w = c ∧ contexts w = {[c]} ∪ contexts w0) ∧ replies w = replies w0 ∧ mem w = mem w0 ∧
      commands (r_trace w) = replicate rounds poll_cmd ++ commands (r_trace w0))
    (λ code w, code = 1 ∧ commands (r_trace w) = commands (r_trace w0)) w0.
Proof.
  intros Hargc Hip Hc. destruct w0 as [tr g r cs rs m]. unfold ConnectionTest.main. rewrite (proj2 (Nat.ltb_ge _ _)) by lia.
  destruct argv as [|a0 [|ip [|port rest]]]; try (cbn in Hargc; lia). r_step. eapply ends_expect; [done|]. r_step.
  destruct (strncpy_terminated 16 ip (Hip _ eq_refl)) as [ip' ->]. eapply ends_expect; [done|]. r_step. eapply ends_expect; [done|]. r_step. r_step. r_step.
  unfold ConnectionTest.connect2redis. destruct (atoi port <? 0) eqn:Eport.
  { r_run. by split. }
  r_step. eapply (connect_ends _); [done|]. intros a1 Hn Hf. r_step. r_step. destruct (negb (a_err a1 =? 0)) eqn:Eerr.
  { r_run. by split. }
  r_step. r_step. r_step. change (0 <? 0) with false. cbn beta iota.
  eapply ends_mono; [apply (ends_for_range _ (λ i _ w, ∃ tr', w = mk_rw tr' (a_ptr a1) r ({[a_ptr a1]} ∪ cs) rs m ∧
    commands tr' = replicate (Z.to_nat i) poll_cmd ++ commands tr))|].
  - by eexists.
  - intros i [] w Hi (tr' & -> & Ht). eapply (main_round_ends _); [set_solver|done|]. intros tr2 Ht2. exists tr2. split; [done|].
    replace (Z.to_nat (i + 1)) with (S (Z.to_nat i)) by lia. by rewrite Ht2, Ht.
  - intros [] w (tr' & -> & Ht). rewrite Z.add_0_l, Nat2Z.id in Ht. split; [|done]. exists (a_ptr a1). split; [set_solver|done].
Qed.

(** ** Two threads (test.c) *)

(** The command of a round. *)
Definition thread_cmd (first : bool) : string * list arg := (if first then "get mohit"%string else "keys *"%string, []).

Section threads.
Context {hr : HIREDIS} {OK : HIREDIS_OK hr} (E : Z → rworld → Prop).
Hypothesis thread_printable : ∀ tr used g format, printable (a_reply (redis_answer tr used (redisCommand g format []))).
Implicit Types (tr : list revent) (cs : gset Z) (rs : gmap Z redisReply) (m : gmap Z (list Z)).

Lemma thread_round_ends (first : bool) tr g r cs rs m (Q : unit → rworld → Prop) : g ∈ cs →
  (∀ tr' p rep, commands tr' = thread_cmd first :: commands tr → rs !! p = None → Q tt (mk_rw tr' g p cs (<[p := rep]> rs) m)) →
  (∀ w, commands (r_trace w) = thread_cmd first :: commands tr → E 1 w) →
  ends (if first then TwoThreads.func1_round else TwoThreads.func2_round) Q E (mk_rw tr g r cs rs m).
Proof using OK thread_printable.
  intros Hg HQ HE. destruct first; unfold TwoThreads.func1_round, TwoThreads.func2_round, TwoThreads.executeCommand.
  all: r_step; apply sprintf_ends; [done|]; r_step; r_step; eapply (obtain_ends _); [done| |auto].
  all: intros p a _ _ Hr _ Ha; eapply ends_mono; [apply print_reply_ends; subst a; apply thread_printable|].
  all: intros [] w (tr' & -> & Hl); r_run; by apply HQ.
Qed.

Lemma run_rounds_ends sched tr g r cs rs m (Q : unit → rworld → Prop) : g ∈ cs →
  (∀ tr' r' rs', commands tr' = reverse (thread_cmd <$> sched) ++ commands tr → rs ⊆ rs' → size rs' = (size rs + length sched)%nat →
    Q tt (mk_rw tr' g r' cs rs' m)) →
  (∀ k w, commands (r_trace w) = reverse (thread_cmd <$> take k sched) ++ commands tr → E 1 w) →
  ends (TwoThreads.run_rounds sched) Q E (mk_rw tr g r cs rs m).
Proof using OK thread_printable.
  revert tr r rs. induction sched as [|first sched IH]; intros tr r rs Hg HQ HE; cbn [TwoThreads.run_rounds].
  - r_step. apply HQ; [done|done|cbn; lia].
  - r_step. eapply thread_round_ends; [done| |]; [|intros w Hw; by apply (HE 1%nat)]. intros tr' p rep Ht Hp.
    eapply IH; [done| |].
    + intros tr2 r2 rs2 Ht2 Hsub Hsz. apply HQ.
      * rewrite Ht2, Ht, fmap_cons, reverse_cons, <- app_assoc. done.
      * etrans; [by apply insert_subseteq|done].
      * rewrite Hsz, map_size_insert_None by done. cbn. lia.
    + intros k w Hw. apply (HE (S k)). rewrite Hw, Ht. cbn [take]. rewrite fmap_cons, reverse_cons, <- app_assoc. done.
Qed.

End threads.

(** The program with two threads loses memory: after any sequence of their rounds every reply ever
    received is still allocated, one more for each round, none of them reachable but the last.
    It stops only by exiting. *)
Theorem threads_lose_replies {hr : HIREDIS} {OK : HIREDIS_OK hr} sched w0 :
  (∀ tr used ip port, a_ptr (redis_answer tr used (redisConnect ip port)) ≠ NULL) →
  (∀ tr used g format, printable (a_reply (redis_answer tr used (redisCommand g format [])))) →
  ends (TwoThreads.main sched)
    (λ _ w, commands (r_trace w) = reverse (thread_cmd <$> sched) ++ commands (r_trace w0) ∧
      replies w0 ⊆ replies w ∧ size (replies w) = (size (replies w0) + length sched)%nat ∧ mem w = mem w0)
    (λ code w, code = 1 ∧ ∃ k, commands (r_trace w) = reverse (thread_cmd <$> take k sched) ++ commands (r_trace w0)) w0.
Proof.
  intros Hc Hp. destruct w0 as [tr g r cs rs m]. unfold TwoThreads.main. r_step.
  eapply (connect2redis_ends _); [done| |]; [|intros w _ Hw; split; [done|]; by exists 0%nat]. intros c tr1 _ _ Hx _.
  assert (commands tr1 = commands tr) as Ht by by rewrite !exchanges_commands, Hx.
  eapply (run_rounds_ends _); [done|set_solver| |]; rewrite Ht; [done|]. intros k w Hw. split; [done|by exists k].
Qed.

(** The program that sends one command gives everything back. *)
Theorem single_complete {hr : HIREDIS} {OK : HIREDIS_OK hr} w0 :
  (∀ tr used ip port, a_ptr (redis_answer tr used (redisConnect ip port)) ≠ NULL) →
  (∀ tr used g format, printable (a_reply (redis_answer tr used (redisCommand g format [])))) →
  ends My.main (λ ret w, ret = 0 ∧ balanced w0 [("zrevrange cache_prq 0 200", [])%string] w) (λ code _, code = 1) w0.
Proof.
  intros Hc Hp. destruct w0 as [tr g r cs rs m]. unfold My.main, single. r_step. eapply (connect2redis_ends _); [done| |done]. intros c tr1 _ Hcc Hx _.
  assert (commands tr1 = commands tr) as Ht by by rewrite !exchanges_commands, Hx.
  r_step. apply sprintf_ends; [done|]. unfold executeCommand. r_step. r_step. eapply (obtain_ends _); [set_solver| |done].
  intros p a _ _ Hr _ Ha. eapply ends_mono; [apply print_reply_ends; subst a; apply Hp|]. intros [] w (tr' & -> & Hl). r_step.
  eapply free_reply_ends; [apply lookup_insert_eq|]. intros a2. rewrite delete_insert_id by done. r_step. apply close_ends; [done|]. intros a3. r_run.
  split; [done|]. split; [done|]. split; [done|]. split; [done|]. cbn [r_trace]. change (commands tr' = [("zrevrange cache_prq 0 200"%string, [])] ++ commands tr).
  rewrite Hl, <- Ht. done.
Qed.

(** ** A server *)

(** The lowest address from 1 that is not in use. *)
Definition new_address (used : gset Z) : Z := default NULL (snd <$> list_find (.∉ used) (seqZ 1 (Z.of_nat (size used) + 1))).

Lemma new_address_spec used : (new_address used ∉ used) ∧ 1 ≤ new_address used ≤ Z.of_nat (size used) + 1.
Proof.
  unfold new_address. destruct (list_find _ _) as [[i x]|] eqn:E; cbn.
  - apply list_find_Some in E as (Hi & Hx & _). split; [done|]. apply lookup_seqZ in Hi. lia.
  - exfalso. apply list_find_None in E. assert (list_to_set (seqZ 1 (Z.of_nat (size used) + 1)) ⊆ used) as Hsub.
    { intros x Hx. apply elem_of_list_to_set in Hx. rewrite list.Forall_forall in E. apply E in Hx. by destruct (decide (x ∈ used)). }
    apply subseteq_size in Hsub. rewrite size_list_to_set, length_seqZ in Hsub by apply NoDup_seqZ. lia.
Qed.

(** It holds three keys, remembers the hash and the structure, and says OK to anything else. *)
Definition toy_reply (tr : list revent) (c : rcall) : redisReply :=
  match c with
  | redisCommand _ format args =>
      if String.eqb format "keys *" || String.eqb format "ZRANGEBYSCORE my 0 2" || String.eqb format "SMEMBERS %s" then
        REDIS_REPLY_ARRAY [REDIS_REPLY_STRING (codes "a"); REDIS_REPLY_STRING (codes "bc"); REDIS_REPLY_STRING []]
      else if String.eqb format "get h_mohit" then
        match struct_get tr with Some v => REDIS_REPLY_STRING v | None => REDIS_REPLY_NIL end
      else if String.eqb format "hget h1 %s" then
        match args with [AStr k] => match hash_get tr k with Some v => REDIS_REPLY_STRING v | None => REDIS_REPLY_NIL end | _ => REDIS_REPLY_ERROR [] end
      else REDIS_REPLY_STATUS (codes "OK")
  | _ => REDIS_REPLY_NIL
  end.

#[local] Instance toy : HIREDIS := λ tr used c, mk_answer (new_address used) 0 [] (toy_reply tr c) [].

(** A server that holds nothing. *)
Definition toy_empty : HIREDIS := λ tr used c, mk_answer (new_address used) 0 [] REDIS_REPLY_NIL [].

Lemma toy_ptr used : new_address used ≠ NULL.
Proof. pose proof (new_address_spec used). unfold NULL. lia. Qed.

#[local] Instance toy_ok : HIREDIS_OK toy.
Proof. split. intros tr used c. apply new_address_spec. Qed.

#[local] Instance toy_empty_ok : HIREDIS_OK toy_empty.
Proof. split. intros tr used c. apply new_address_spec. Qed.

#[local] Instance toy_mem : HIREDIS_MEM toy.
Proof. split; intros; apply toy_ptr. Qed.

Definition start : rworld := mk_rw [] NULL NULL ∅ ∅ ∅.

Lemma toy_reply_printable tr c : printable (toy_reply tr c).
Proof.
  destruct c as [| |g format args| | | | | |]; cbn [toy_reply]; try done. destruct (_ || _); [by repeat constructor; eexists|].
  destruct (String.eqb _ _); [by destruct (struct_get tr)|]. destruct (String.eqb _ _); [|done].
  destruct args as [|[|k] [|]]; try done. by destruct (hash_get tr k).
Qed.

Lemma toy_reply_copyable tr c : copyable (toy_reply tr c).
Proof.
  destruct c as [| |g format args| | | | | |]; cbn [toy_reply]; try done. destruct (_ || _); [split; [by repeat constructor; eexists|done]|].
  destruct (String.eqb _ _); [by destruct (struct_get tr)|]. destruct (String.eqb _ _); [|done].
  destruct args as [|[|k] [|]]; try done. by destruct (hash_get tr k).
Qed.

Lemma toy_answering : answering toy.
Proof. split; [intros; apply toy_ptr|]. split; [done|]. intros. apply toy_reply_printable. Qed.

Lemma toy_empty_answering : answering toy_empty.
Proof. split; [intros; apply toy_ptr|]. by split. Qed.

(** The programs on this server: the set is printed and its copies are lost; the hash has lost its
    values. *)
Example members_run : wp SetMembers.main (λ ret w, ret = 0 ∧ size (mem w) = 4%nat ∧ take 3 (printed (r_trace w)) = shown "[%s]" [codes "a"; codes "bc"; []]) start.
Proof. vm_compute. split; [done|]. by split. Qed.

Example hash_run : wp SetHash.main (λ ret w, ret = 0 ∧ take 2 (printed (r_trace w)) = shown "rv = %s" [[]; []]) start.
Proof. vm_compute. by split. Qed.

(** ** Witnesses *)

Lemma struct_roundtrip_witness : ends GetSetStruct.main (λ ret w, ret = 0 ∧ contexts w = contexts start ∧
      head (printed (r_trace w)) = Some ("devlog : %s %d", [AStr (codes "mohit"); AInt 1234])%string ∧
      (∃ p b, mem start !! p = None ∧ holds_string b (codes "mohit") ∧ mem w = <[p := b]> (mem start)) ∧
      ∃ q rep, replies start !! q = None ∧ replies w = <[q := rep]> (replies start)) (λ code w, code = 1) start.
Proof.
  apply (struct_roundtrip start); [intros; apply toy_ptr| |done|done|done].
  intros tr used c Hs. pose proof (new_address_spec used). cbn. lia.
Defined.

Lemma numbered_tests_complete_witness :
  ends GetTest.main (λ ret w, ret = 0 ∧ balanced start (numbered_cmds (λ i, "get mohit" +:+ dec i) (Z.to_nat 1000000)) w)
    (λ code w, code = 1 ∧ ∃ k, (k ≤ Z.to_nat 1000000)%nat ∧
      commands (r_trace w) = numbered_cmds (λ i, "get mohit" +:+ dec i) k ++ commands (r_trace start)) start.
Proof.
  apply (numbered_tests_complete GetTest.main (λ i, "get mohit" +:+ dec i) start); [by left|intros; apply toy_ptr|intros; apply toy_reply_printable].
Defined.

Lemma zadd_overflows_witness : ZaddTest.main start = Undef.
Proof. exact (zadd_overflows start toy_answering). Defined.

Lemma zrange_overflows_witness : ZrangeTest.main start = Undef.
Proof. exact (zrange_overflows start toy_answering). Defined.

Lemma key_programs_complete_witness :
  ends GetSortedKeys.main (λ ret w, ret = 0 ∧ balanced start [("ZRANGEBYSCORE my 0 2"%string, [])] w ∧
      ∃ es, exchanges (r_trace w) = ("ZRANGEBYSCORE my 0 2"%string, [], REDIS_REPLY_ARRAY es) :: exchanges (r_trace start) ∧
        printed (r_trace w) = key_lines true es ++ printed (r_trace start)) (λ code w, code = 1) start.
Proof.
  apply (key_programs_complete GetSortedKeys.main true "ZRANGEBYSCORE my 0 2"%string start); [right; right; by left|intros; apply toy_ptr| |done].
  intros tr used g. eexists. split; [reflexivity|]. split; [by repeat constructor; eexists|done].
Defined.

Lemma keys_need_array_witness : GetKeys.main (hr := toy_empty) start = Undef.
Proof. apply (keys_need_array (OK := toy_empty_ok) start toy_empty_answering). done. Defined.

(** A world with a connection and an array of two keys. *)
Definition connected : rworld := mk_rw [] 1 NULL {[1]} ∅ {[2 := [3; 4]; 3 := [107; 48; 0]; 4 := [107; 49; 0]]}.

Lemma members_fetched_witness : wp (SetMembers.redis_set_members 1 (Some (codes "test")) true true)
  (λ res w, let a := redis_answer [] (live connected) (redisCommand 1 "SMEMBERS %s" [AStr (codes "test")]) in
      contexts w = contexts connected ∧ replies w = replies connected ∧ members_result a (mem connected) res (mem w) ∧
      exchanges (r_trace w) = [("SMEMBERS %s"%string, [AStr (codes "test")], a_reply a)] ∧ printed (r_trace w) = []) connected.
Proof. refine (proj1 (members_fetched (codes "test") 1 0 5 connected _ _ _)); [cbn; set_solver|done|]. intros. apply toy_reply_copyable. Defined.

Lemma hash_values_lost_witness : wp (SetHash.setHash 2 NULL 2;; SetHash.getHash 2 2) (λ ret w,
    contexts w = contexts connected ∧ replies w = replies connected ∧ strings_at (mem w) ret (replicate 2 [])) connected.
Proof.
  apply (hash_values_lost 2 NULL [codes "k0"; codes "k1"] connected); [intros; apply toy_ptr|done|done|cbn; set_solver|].
  intros [|[|i]] s; [intros [= <-]|intros [= <-]|done].
  - exists [3; 4], 3, [107; 48; 0]. do 3 (split; [reflexivity|]). split; [set_solver|reflexivity].
  - exists [3; 4], 4, [107; 49; 0]. do 3 (split; [reflexivity|]). split; [set_solver|reflexivity].
Defined.

Lemma polling_keeps_memory_witness :
  ends (ConnectionTest.main 7 ["prog"; "127.0.0.1"; "6379"]%string (λ _, 6379))
    (λ _ w, (∃ c, (c ∉ contexts start) ∧ gContext w = c ∧ contexts w = {[c]} ∪ contexts start) ∧ replies w = replies start ∧ mem w = mem start ∧
      commands (r_trace w) = replicate 7 poll_cmd ++ commands (r_trace start))
    (λ code w, code = 1 ∧ commands (r_trace w) = commands (r_trace start)) start.
Proof.
  apply (polling_keeps_memory 7 ["prog"; "127.0.0.1"; "6379"]%string (λ _, 6379) start); [by apply Nat.leb_le| |intros; apply toy_ptr].
  intros ip [= <-]. by apply Nat.ltb_lt.
Defined.

Lemma threads_lose_replies_witness :
  ends (TwoThreads.main [true; false; false])
    (λ _ w, commands (r_trace w) = reverse (thread_cmd <$> [true; false; false]) ++ commands (r_trace start) ∧
      replies start ⊆ replies w ∧ size (replies w) = (size (replies start) + 3)%nat ∧ mem w = mem start)
    (λ code w, code = 1 ∧ ∃ k, commands (r_trace w) = reverse (thread_cmd <$> take k [true; false; false]) ++ commands (r_trace start)) start.
Proof.
  apply (threads_lose_replies [true; false; false] start); [intros; apply toy_ptr|intros; apply toy_reply_printable].
Defined.

Lemma single_complete_witness : ends My.main (λ ret w, ret = 0 ∧ balanced start [("zrevrange cache_prq 0 200", [])%string] w) (λ code _, code = 1) start.
Proof. apply (single_complete start); [intros; apply toy_ptr|intros; apply toy_reply_printable]. Defined.
