(* ===== verification/RedisAsync.v ===== *)
(** * Programs driven by the callbacks of a Redis client (other/redistest, other/redisKeySpaceNotifications)

    The asynchronous programs register callbacks with hiredis and hand control to the loop of
    libev.  Neither library is in the repository: what they do is a list of events, the calls
    of the callbacks and the signals in the order in which they come, and the theorems hold for
    every list, or for those that the documentation of hiredis allows.  The adapter between the
    two libraries, libev.h, is code of the directory and is modelled with the two watchers. *)

From Stdlib Require Import ZArith Lia ZifyBool.
From stdpp Require Import base gmap list strings numbers.
From S2P Require Import Prelude Posix Redis.

(** ** Calls *)

Inductive acall :=
| redisAsyncConnect (ip : string) (port : Z)
| redisLibevAttach
| redisAsyncSetConnectCallback
| redisAsyncSetDisconnectCallback
| redisAsyncCommand (format : string)
| redisAsyncDisconnect
| signal (signo : Z)
| say_line (fmt : string) (args : list arg).

(** The event that made the library call back, or a signal.  A reply is [None] when the pointer
    is NULL. *)
Inductive aevent :=
| EvConnect (status : Z)
| EvReply (r : option redisReply)
| EvDisconnect (status : Z)
| EvSignal (signo : Z).

Definition REDIS_OK : Z := 0.
Definition SIGINT : Z := 2.
Definition SIGPIPE : Z := 13.

(** Whether there is a context, what it was connected to, which callbacks are registered and the
    handler of SIGINT. *)
Record aworld := mk_aw {
  a_calls : list acall;
  gAsyncContext : bool;
  on_connect : bool;
  on_disconnect : bool;
  on_reply : bool;
  on_sigint : bool }.

(** What the libraries choose: the error flag of a new context, its text, the result of
    [redisAsyncCommand], and what [printf] does with a null pointer for [%s], which the language
    leaves undefined and the usual C library prints. *)
Class ASYNC := { connect_err : Z; errstr : list Z; command_ret : Z; null_text : option (list Z) }.

Definition glibc_null : list Z := codes "(null)".

(** ** The calls of the programs *)

Section code.
Context {as_ : ASYNC}.
Abbreviation AM := (M aworld).

Definition acall_ (c : acall) : AM unit :=
  modify (λ w, mk_aw (c :: a_calls w) (gAsyncContext w) (on_connect w) (on_disconnect w) (on_reply w) (on_sigint w)).

Definition say (fmt : string) (args : list arg) : AM unit := acall_ (say_line fmt args).

(** A string argument. *)
Definition text_of (s : option (list Z)) : AM (list Z) :=
  match s with Some s => mret (cstr s) | None => expect null_text end.

(** The calls on a context are undefined without one. *)
Definition on_context (c : acall) : AM unit := w ← get_st; if gAsyncContext w then acall_ c else undef.

Definition async_connect (ip : string) (port : Z) : AM Z :=
  acall_ (redisAsyncConnect ip port);;
  modify (λ w, mk_aw (a_calls w) true (on_connect w) (on_disconnect w) (on_reply w) (on_sigint w));;
  mret connect_err.

Definition attach : AM unit := on_context redisLibevAttach.

Definition set_connect_callback : AM unit :=
  on_context redisAsyncSetConnectCallback;;
  modify (λ w, mk_aw (a_calls w) (gAsyncContext w) true (on_disconnect w) (on_reply w) (on_sigint w)).

Definition set_disconnect_callback : AM unit :=
  on_context redisAsyncSetDisconnectCallback;;
  modify (λ w, mk_aw (a_calls w) (gAsyncContext w) (on_connect w) true (on_reply w) (on_sigint w)).

Definition async_command (format : string) : AM Z :=
  on_context (redisAsyncCommand format);;
  modify (λ w, mk_aw (a_calls w) (gAsyncContext w) (on_connect w) (on_disconnect w) true (on_sigint w));;
  mret command_ret.

Definition async_disconnect : AM unit := on_context redisAsyncDisconnect.

(** [signal(SIGINT, handler)] *)
Definition handle_sigint : AM unit :=
  acall_ (signal SIGINT);;
  modify (λ w, mk_aw (a_calls w) (gAsyncContext w) (on_connect w) (on_disconnect w) (on_reply w) true).

(** ** The loop *)

(** The callbacks of a program. *)
Record callbacks := mk_callbacks {
  connectCb : Z → AM unit;
  replyCb : option redisReply → AM unit;
  disconnectCb : Z → AM unit;
  signalCb : Z → AM unit }.

(** One event.  The library frees the context after the callback of the disconnection. *)
Definition dispatch (cb : callbacks) (e : aevent) : AM unit :=
  w ← get_st;
  match e with
  | EvConnect status => if on_connect w then connectCb cb status else mret tt
  | EvReply r => if on_reply w then replyCb cb r else mret tt
  | EvDisconnect status =>
      (if on_disconnect w then disconnectCb cb status else mret tt);;
      modify (λ w, mk_aw (a_calls w) false (on_connect w) (on_disconnect w) (on_reply w) (on_sigint w))
  | EvSignal signo => if on_sigint w then signalCb cb signo else exit_with (128 + signo)
  end.

Fixpoint ev_loop (cb : callbacks) (evs : list aevent) : AM unit :=
  match evs with [] => mret tt | e :: evs => dispatch cb e;; ev_loop cb evs end.

(** ** Functions that several programs share *)

Definition connectCallback (status : Z) : AM unit :=
  if negb (status =? REDIS_OK) then say "Error: %s" [AStr errstr] else say "Connected..." [].

Definition disconnectCallback (status : Z) : AM unit :=
  if negb (status =? REDIS_OK) then say "Error: %s" [AStr errstr] else say "Disconnected..." [].

Definition print_array (sep : string) (es : list redisReply) : AM unit :=
  for_range (length es) 0 (λ i _, e ← expect (es !! Z.to_nat i); s ← text_of (r_str e); say sep [AStr s]) tt.

(** The branches on the reply, without the case of no reply; [k] is what follows an array. *)
Definition show_reply (k : list redisReply → AM unit) (r : redisReply) : AM unit :=
  match r with
  | REDIS_REPLY_STRING s | REDIS_REPLY_STATUS s => say "REPLY : %s" [AStr (cstr s)]
  | REDIS_REPLY_INTEGER n => say "REPLY : %lld" [AInt n]
  | REDIS_REPLY_ERROR s => say "ERROR : %s" [AStr (cstr s)]
  | REDIS_REPLY_NIL => say "REPLY : nil" []
  | REDIS_REPLY_ARRAY es => say "REPLY : ARRAY" [];; print_array "%s " es;; say "" [];; k es
  end.

Definition commandCallback (error : string) (k : list redisReply → AM unit) (r : option redisReply) : AM unit :=
  say "Inside commandCallback..." [];;
  match r with
  | None => say error [AStr errstr];; exit_with 1
  | Some r => show_reply k r;; say "Returning from commandCallback..." []
  end.

Definition connect2redis (ip : string) (port : Z) : AM unit :=
  say "Inside connect2redis..." [];;
  err ← async_connect ip port;
  if negb (err =? 0) then say "ERROR : %s " [AStr errstr];; exit_with 1
  else attach;; set_connect_callback;; say "Returning from connect2redis..." [].

Definition executeCommand (mycmd : string) : AM unit :=
  say "Inside executeCommand..." [];;
  i ← async_command mycmd;
  say "Returning from executeCommand [%d]..." [AInt i].

Definition mySignalHandler (signo : Z) : AM unit :=
  say "Recieved SIGINT (kill -%d)" [AInt signo];;
  say "Disconnecting from redis..." [];;
  async_disconnect;;
  say "Exiting now..." [];;
  exit_with 0.

(** The shape of three programs; [leave] is what the program does before it waits. *)
Definition subscribe (cb : callbacks) (leave : AM unit) (evs : list aevent) : AM Z :=
  handle_sigint;;
  say "Inside Main..." [];;
  connect2redis "172.19.10.31" 6905;;
  set_disconnect_callback;;
  executeCommand "SUBSCRIBE redis";;
  leave;;
  say "Wait..." [];;
  ev_loop cb evs;;
  say "Returning from Main..." [];;
  mret 0.

End code.

(** ** The programs *)

(** other/redistest/moht.c *)
Module Moht.
Section code.
Context {as_ : ASYNC}.
Definition connectCallback := connectCallback.
Definition disconnectCallback := disconnectCallback.
Definition connect2redis := connect2redis.
Definition executeCommand := executeCommand.
Definition mySignalHandler := mySignalHandler.

(** A message whose third part is quit ends the subscription. *)
Definition quits (es : list redisReply) : bool :=
  match es !! 2%nat with
  | Some e => (3 <=? Z.of_nat (length es)) && (0 <? r_len e) && bool_decide (cstr <$> r_str e = Some (codes "quit"))
  | None => false
  end.

Definition commandCallback := commandCallback "ERROR1 : %s" (λ es, if quits es then async_disconnect else mret tt).
Definition cb : callbacks := mk_callbacks connectCallback commandCallback disconnectCallback mySignalHandler.
Definition main (evs : list aevent) : M aworld Z := subscribe cb (mret tt) evs.
End code.
End Moht.

(** other/redistest/subscriber.c *)
Module Subscriber.
Section code.
Context {as_ : ASYNC}.
Definition connectCallback := connectCallback.
Definition disconnectCallback := disconnectCallback.
Definition connect2redis := connect2redis.
Definition executeCommand := executeCommand.
Definition mySignalHandler := mySignalHandler.
Definition commandCallback := commandCallback "ERROR1 : %s" (λ _, mret tt).
Definition cb : callbacks := mk_callbacks connectCallback commandCallback disconnectCallback mySignalHandler.
Definition main (evs : list aevent) : M aworld Z := subscribe cb (mret tt) evs.
End code.
End Subscriber.

(** other/redistest/test1.c *)
Module Test1.
Section code.
Context {as_ : ASYNC}.
Definition connectCallback := connectCallback.
Definition disconnectCallback := disconnectCallback.
Definition connect2redis := connect2redis.
Definition executeCommand := executeCommand.
Definition mySignalHandler := mySignalHandler.
Definition commandCallback := commandCallback "ERROR : %s" (λ _, mret tt).
Definition cb : callbacks := mk_callbacks connectCallback commandCallback disconnectCallback mySignalHandler.
Definition main (evs : list aevent) : M aworld Z := subscribe cb async_disconnect evs.
End code.
End Test1.

(** other/redistest/publisher.c *)
Module Publisher.
Section code.
Context {as_ : ASYNC}.
Definition connectCallback := connectCallback.
Definition disconnectCallback := disconnectCallback.

Definition getCallback (r : option redisReply) : M aworld unit :=
  match r with
  | None => say "ERROR : %s" [AStr errstr];; exit_with 1
  | Some r => show_reply (λ _, mret tt) r
  end.

Definition cb : callbacks := mk_callbacks connectCallback getCallback disconnectCallback (λ _, mret tt).

Definition main (evs : list aevent) : M aworld Z :=
  acall_ (signal SIGPIPE);;
  err ← async_connect "172.19.3.25" 6900;
  if negb (err =? 0) then say "Error: %s" [AStr errstr];; mret 1
  else
    attach;;
    set_connect_callback;;
    set_disconnect_callback;;
    async_command "PUBLISH redis HELLO";;
    async_disconnect;;
    ev_loop cb evs;;
    mret 0.
End code.
End Publisher.

(** other/redistest/example-libev.c *)
Module ExampleLibev.
Section code.
Context {as_ : ASYNC}.
Definition connectCallback := connectCallback.
Definition disconnectCallback := disconnectCallback.

(** The private data is NULL. *)
Definition getCallback (r : option redisReply) : M aworld unit :=
  match r with
  | None => mret tt
  | Some r =>
      p ← text_of None;
      s ← text_of (r_str r);
      say "argv[%s]: %s" [AStr p; AStr s];;
      async_disconnect
  end.

Definition cb : callbacks := mk_callbacks connectCallback getCallback disconnectCallback (λ _, mret tt).

Definition main (evs : list aevent) : M aworld Z :=
  acall_ (signal SIGPIPE);;
  err ← async_connect "127.0.0.1" 6389;
  if negb (err =? 0) then say "Error: %s" [AStr errstr];; mret 1
  else
    attach;;
    set_connect_callback;;
    set_disconnect_callback;;
    async_command "PUBLISH CHNL hello";;
    ev_loop cb evs;;
    mret 0.
End code.
End ExampleLibev.

(** other/redisKeySpaceNotifications/redisNotifications.c *)
Module Notifications.
Section code.
Context {as_ : ASYNC}.

Definition connectToRedis (redisIP : option string) (redisPort : Z) : M aworld Z :=
  match redisIP with
  | Some ip =>
      if (redisPort <? 0) || (65535 <? redisPort) then say "%s : Invalid params received !!!" [AStr (codes "connectToRedis")];; mret (-1)
      else
        err ← async_connect ip redisPort;
        if negb (err =? 0) then say "%s : Error [%s] in redisAsyncConnect !!!" [AStr (codes "connectToRedis"); AStr errstr];; mret (-1)
        else attach;; set_connect_callback;; mret 0
  | None => say "%s : Invalid params received !!!" [AStr (codes "connectToRedis")];; mret (-1)
  end.

Definition mySignalHandler (signo : Z) : M aworld unit :=
  say "Recieved SIGINT (kill -%d)" [AInt signo];; async_disconnect;; say "Exiting now..." [];; exit_with 0.

(** The global address and port are arguments of the callback. *)
Definition connectCallback (gRedisIP : string) (gRedisPort : Z) (status : Z) : M aworld unit :=
  if negb (status =? REDIS_OK) then say "%s : Error [%s]" [AStr (codes "connectCallback"); AStr errstr]
  else say "%s : Connected successfully to Redis Server [%s : %d]" [AStr (codes "connectCallback"); AStr (codes gRedisIP); AInt gRedisPort].

Definition disconnectCallback := disconnectCallback.

Definition commandCallback (r : option redisReply) : M aworld unit :=
  match r with
  | None => say "%s : Error [%s]" [AStr (codes "commandCallback"); AStr errstr]
  | Some (REDIS_REPLY_ERROR s) => say "%s : Error [%s]" [AStr (codes "commandCallback"); AStr (cstr s)]
  | Some (REDIS_REPLY_ARRAY es) => print_array "[%s]" es
  | Some _ => say "%s : Unexpected reply type !!!" [AStr (codes "commandCallback")]
  end.

Definition cb (ip : string) (port : Z) : callbacks := mk_callbacks (connectCallback ip port) commandCallback disconnectCallback mySignalHandler.

Definition main (argv : list string) (atoi : string → Z) (evs : list aevent) : M aworld Z :=
  handle_sigint;;
  if negb (length argv =? 3)%nat then
    say "%s: Wrong No. of arguments to program!!! Usage : %s <RedisIP>  <RedisPort>" [AStr (codes "main"); AStr (codes (default EmptyString (head argv)))];;
    exit_with 1
  else
    ip ← expect (argv !! 1%nat);
    ip ← expect (c_string (strncpy 16 ip));
    port ← expect (argv !! 2%nat);
    ret ← connectToRedis (Some ip) (atoi port);
    (if negb (ret =? 0) then say "%s : Error in redisConnect !!!" [AStr (codes "main")] else mret tt);;
    set_disconnect_callback;;
    async_command "PSUBSCRIBE __key*__:*";;
    ev_loop (cb ip (atoi port)) evs;;
    mret 0.
End code.
End Notifications.

(** ** The adapter (libev.h)

    hiredis asks for readability and writability of its socket through the hooks that
    [redisLibevAttach] registers; each has a watcher of libev. *)
Module Libev.

Inductive watcher := rev | wev.
#[export] Instance watcher_eq : EqDecision watcher. Proof. solve_decision. Defined.

Inductive lcall := ev_io_init (w : watcher) | ev_io_start (w : watcher) | ev_io_stop (w : watcher) | free_events | HandleRead | HandleWrite.

(** The container, [None] when it has been freed or not been made. *)
Record redisLibevEvents := mk_events { reading : Z; writing : Z }.

(** [hooks] tells whether [ac->ev.data] is set. *)
Record lworld := mk_lw { l_calls : list lcall; hooks : bool; events : option redisLibevEvents }.

Abbreviation LM := (M lworld).

Definition lcall_ (c : lcall) : LM unit := modify (λ w, mk_lw (c :: l_calls w) (hooks w) (events w)).
Definition get_events : LM redisLibevEvents := w ← get_st; expect (events w).
Definition set_events (e : redisLibevEvents) : LM unit := modify (λ w, mk_lw (l_calls w) (hooks w) (Some e)).

Definition redisLibevReadEvent : LM unit := get_events;; lcall_ HandleRead.
Definition redisLibevWriteEvent : LM unit := get_events;; lcall_ HandleWrite.

Definition redisLibevAddRead : LM unit :=
  e ← get_events; if reading e =? 0 then set_events (mk_events 1 (writing e));; lcall_ (ev_io_start rev) else mret tt.

Definition redisLibevDelRead : LM unit :=
  e ← get_events; if negb (reading e =? 0) then set_events (mk_events 0 (writing e));; lcall_ (ev_io_stop rev) else mret tt.

Definition redisLibevAddWrite : LM unit :=
  e ← get_events; if writing e =? 0 then set_events (mk_events (reading e) 1);; lcall_ (ev_io_start wev) else mret tt.

Definition redisLibevDelWrite : LM unit :=
  e ← get_events; if negb (writing e =? 0) then set_events (mk_events (reading e) 0);; lcall_ (ev_io_stop wev) else mret tt.

Definition redisLibevCleanup : LM unit :=
  redisLibevDelRead;;
  redisLibevDelWrite;;
  lcall_ free_events;;
  modify (λ w, mk_lw (l_calls w) (hooks w) None).

(** [alloc] tells whether there is memory: the result of [malloc] is not tested. *)
Definition redisLibevAttach (alloc : bool) : LM Z :=
  w ← get_st;
  if hooks w then mret (-1)
  else if alloc then
    set_events (mk_events 0 0);;
    modify (λ w, mk_lw (l_calls w) true (events w));;
    lcall_ (ev_io_init rev);;
    lcall_ (ev_io_init wev);;
    mret 0
  else undef.

(** What hiredis and libev may call between attaching and cleaning up. *)
Inductive hook := addRead | delRead | addWrite | delWrite | readEvent | writeEvent.

Definition run_hook (h : hook) : LM unit :=
  match h with
  | addRead => redisLibevAddRead | delRead => redisLibevDelRead
  | addWrite => redisLibevAddWrite | delWrite => redisLibevDelWrite
  | readEvent => redisLibevReadEvent | writeEvent => redisLibevWriteEvent
  end.

Fixpoint run_hooks (hs : list hook) : LM unit := match hs with [] => mret tt | h :: hs => run_hook h;; run_hooks hs end.

(** The abstract state: which directions were asked for last. *)
Definition wanted (want : bool * bool) (h : hook) : bool * bool :=
  match h with
  | addRead => (true, want.2) | delRead => (false, want.2)
  | addWrite => (want.1, true) | delWrite => (want.1, false)
  | _ => want
  end.

(** Whether a watcher is active after a history of calls, newest first: started and not stopped
    since; [None] when it is started twice, or stopped while it is not active. *)
Fixpoint active (w : watcher) (cs : list lcall) : option bool :=
  match cs with
  | [] => Some false
  | c :: cs =>
      match active w cs with
      | None => None
      | Some b =>
          match c with
          | ev_io_start w' => if bool_decide (w = w') then (if b then None else Some true) else Some b
          | ev_io_stop w' => if bool_decide (w = w') then (if b then Some false else None) else Some b
          | _ => Some b
          end
      end
  end.

(** The flags of the container, the watchers and the wishes agree. *)
Definition agrees (want : bool * bool) (w : lworld) : Prop :=
  hooks w = true ∧ events w = Some (mk_events (Z.b2z want.1) (Z.b2z want.2)) ∧
  active rev (l_calls w) = Some want.1 ∧ active wev (l_calls w) = Some want.2.

Lemma attach_agrees cs : active rev cs = Some false → active wev cs = Some false →
  wp (redisLibevAttach true) (λ ret w, ret = 0 ∧ agrees (false, false) w) (mk_lw cs false None).
Proof. intros Hr Hw. split; [done|]. split; [done|]. split; [done|]. cbn. by rewrite Hr, Hw. Qed.

Lemma hook_agrees h want w : agrees want w → wp (run_hook h) (λ _ w', agrees (wanted want h) w') w.
Proof.
  destruct w as [cs hk e], want as [r wr]. intros (Hh & He & Hr & Hw). cbn in *. subst hk e.
  destruct h, r, wr; cbv -[active]; (split; [done|]); (split; [done|]); cbn; by rewrite Hr, Hw.
Qed.

Lemma hooks_agree hs want w : agrees want w → wp (run_hooks hs) (λ _ w', agrees (foldl wanted want hs) w') w.
Proof.
  revert want w. induction hs as [|h hs IH]; intros want w Hw; cbn [run_hooks foldl]; [done|].
  apply wp_bind. eapply wp_mono; [by apply hook_agrees|]. intros [] w' Hw'. by apply IH.
Qed.

(** C40: the adapter refines the pair of directions that were asked for last: after attaching and any
    sequence of hooks and events each watcher is active exactly when its direction is wanted,
    no watcher was started twice or stopped while it was not active, and the cleanup leaves
    both inactive and the container freed; attaching a second time is refused. *)
Theorem adapter_refines hs : wp (ret ← redisLibevAttach true; run_hooks hs;; again ← redisLibevAttach true; w ← get_st; redisLibevCleanup;; mret (ret, again, w))
  (λ '(ret, again, mid) w, ret = 0 ∧ again = -1 ∧ agrees (foldl wanted (false, false) hs) mid ∧
    events w = None ∧ active rev (l_calls w) = Some false ∧ active wev (l_calls w) = Some false ∧ head (l_calls w) = Some free_events) (mk_lw [] false None).
Proof.
  apply wp_bind. eapply wp_mono; [by apply attach_agrees|]. intros ret w0 [-> H0]. apply wp_bind. eapply wp_mono; [by apply hooks_agree|].
  intros [] w Hw. destruct (foldl wanted (false, false) hs) as [r wr]. destruct w as [cs hk e]. pose proof Hw as (Hh & He & Hr & Hwr). cbn in Hh, He, Hr, Hwr. subst hk e.
  destruct r, wr; cbv -[active agrees]; (split; [done|]); (split; [done|]); (split; [exact Hw|]); (split; [done|]); cbn; by rewrite Hr, Hwr.
Qed.

(** A hook after the cleanup uses the freed container. *)
Theorem hook_after_cleanup h cs hk : run_hook h (mk_lw cs hk None) = Undef.
Proof. by destruct h. Qed.

End Libev.

(** ** What the programs do with events *)

Section spec.
Context {as_ : ASYNC}.

(** The text that is printed for a string or a null pointer. *)
Definition shown_text (s : option (list Z)) : list Z := match s with Some s => cstr s | None => default [] null_text end.

(** A reply that can be printed. *)
Definition can_show (r : redisReply) : Prop := is_Some null_text ∨ printable r.

Definition array_lines (sep : string) (es : list redisReply) : list acall := (λ e, say_line sep [AStr (shown_text (r_str e))]) <$> es.

(** The calls that a reply leads to, oldest first. *)
Definition reply_calls (quits : list redisReply → bool) (r : redisReply) : list acall :=
  match r with
  | REDIS_REPLY_STRING s | REDIS_REPLY_STATUS s => [say_line "REPLY : %s" [AStr (cstr s)]]
  | REDIS_REPLY_INTEGER n => [say_line "REPLY : %lld" [AInt n]]
  | REDIS_REPLY_ERROR s => [say_line "ERROR : %s" [AStr (cstr s)]]
  | REDIS_REPLY_NIL => [say_line "REPLY : nil" []]
  | REDIS_REPLY_ARRAY es => [say_line "REPLY : ARRAY" []] ++ array_lines "%s " es ++ [say_line "" []] ++ (if quits es then [redisAsyncDisconnect] else [])
  end.

Definition status_line (status : Z) (text : string) : acall :=
  if status =? REDIS_OK then say_line text [] else say_line "Error: %s" [AStr errstr].

(** The calls of a subscriber's callbacks. *)
Definition event_calls (quits : list redisReply → bool) (e : aevent) : list acall :=
  match e with
  | EvConnect status => [status_line status "Connected..."]
  | EvReply (Some r) => [say_line "Inside commandCallback..." []] ++ reply_calls quits r ++ [say_line "Returning from commandCallback..." []]
  | EvDisconnect status => [status_line status "Disconnected..."]
  | _ => []
  end.

(** The library connects and delivers replies that can be printed. *)
Definition delivers (e : aevent) : Prop := match e with EvConnect _ => True | EvReply (Some r) => can_show r | _ => False end.

(** The world after more calls. *)
Definition after (cs : list acall) (w : aworld) : aworld :=
  mk_aw (reverse cs ++ a_calls w) (gAsyncContext w) (on_connect w) (on_disconnect w) (on_reply w) (on_sigint w).

Lemma after_nil w : after [] w = w.
Proof. by destruct w. Qed.

Lemma after_after c d w : after d (after c w) = after (c ++ d) w.
Proof. unfold after. cbn. by rewrite reverse_app, app_assoc. Qed.

(** [m] only makes the calls [cs]. *)
Definition performs (m : M aworld unit) (cs : list acall) (w : aworld) : Prop := m w = Ok tt (after cs w).

Lemma performs_bind m (k : unit → M aworld unit) cs ds w : performs m cs w → performs (k tt) ds (after cs w) → performs (m ≫= k) (cs ++ ds) w.
Proof. unfold performs. intros Hm Hk. unfold mbind, M_bind. rewrite Hm, Hk. by rewrite after_after. Qed.

Lemma performs_ret w : performs (mret tt) [] w.
Proof. unfold performs. by rewrite after_nil. Qed.

Lemma performs_say fmt args w : performs (say fmt args) [say_line fmt args] w.
Proof. done. Qed.

Lemma performs_disconnect w : gAsyncContext w = true → performs async_disconnect [redisAsyncDisconnect] w.
Proof. destruct w as [cs g ? ? ? ?]. cbn. intros ->. done. Qed.

Lemma text_of_shown s w : is_Some null_text ∨ is_Some s → text_of s w = Ok (shown_text s) w.
Proof. destruct s as [s|]; [done|]. intros [[t Ht]|[]]; [|done]. unfold text_of, shown_text. by rewrite Ht. Qed.

Lemma print_array_performs sep es w : is_Some null_text ∨ Forall (λ e, is_Some (r_str e)) es → performs (print_array sep es) (array_lines sep es) w.
Proof.
  intros Hes. unfold performs, print_array.
  assert (wp (for_range (length es) 0 (λ i _, e ← expect (es !! Z.to_nat i); s ← text_of (r_str e); say sep [AStr s]) tt)
    (λ _ w', w' = after (array_lines sep es) w) w) as Hwp.
  { eapply wp_mono; [apply (wp_for_range (λ i _ w', w' = after (array_lines sep (take (Z.to_nat i) es)) w))|].
    - by rewrite after_nil.
    - intros i [] w' Hi ->. destruct (lookup_lt_is_Some_2 es (Z.to_nat i)) as [e He]; [lia|]. rewrite He.
      assert (is_Some null_text ∨ is_Some (r_str e)) as Ht by (destruct Hes as [?|Hes]; [by left|right; by apply (Forall_lookup_1 _ _ _ _ Hes He)]).
      unfold wp, mbind, M_bind, expect. cbn -[text_of say]. rewrite text_of_shown by done. cbn -[after]. 
      replace (Z.to_nat (i + 1)) with (S (Z.to_nat i)) by lia. unfold array_lines. rewrite (take_S_r _ _ _ He), fmap_app. by rewrite <- after_after.
    - intros [] w' ->. by rewrite Z.add_0_l, Nat2Z.id, firstn_all. }
  unfold wp in Hwp. destruct (for_range _ _ _ _ w) as [[] w'| | |]; try done. by subst.
Qed.

Lemma show_reply_performs quits r w : can_show r → (gAsyncContext w = true) →
  performs (show_reply (λ es, if (quits es : bool) then async_disconnect else mret tt) r) (reply_calls quits r) w.
Proof.
  intros Hr Hg. destruct r as [s|es|n| |s|s]; try apply performs_say. cbn [show_reply reply_calls].
  apply performs_bind; [apply performs_say|]. apply performs_bind; [by apply print_array_performs|]. apply performs_bind; [apply performs_say|].
  destruct (quits es); [by apply performs_disconnect|apply performs_ret].
Qed.

Lemma status_performs (status : Z) text w :
  performs (if negb (status =? REDIS_OK) then say "Error: %s" [AStr errstr] else say text []) [status_line status text] w.
Proof. unfold status_line. destruct (status =? REDIS_OK); apply performs_say. Qed.

End spec.

(** The callbacks of a subscriber, and what distinguishes the three. *)
Definition subscriber_cb {as_ : ASYNC} (error : string) (quits : list redisReply → bool) : callbacks :=
  mk_callbacks connectCallback (commandCallback error (λ es, if quits es then async_disconnect else mret tt)) disconnectCallback mySignalHandler.

Section loop.
Context {as_ : ASYNC} (error : string) (quits : list redisReply → bool).

(** A context with all callbacks. *)
Definition ready (w : aworld) : Prop :=
  gAsyncContext w = true ∧ on_connect w = true ∧ on_disconnect w = true ∧ on_reply w = true ∧ on_sigint w = true.

Lemma dispatch_performs e w : ready w → delivers e → performs (dispatch (subscriber_cb error quits) e) (event_calls quits e) w.
Proof.
  intros (Hg & Hc & Hd & Hr & Hs) He. unfold performs, dispatch.
  destruct e as [status|[r|]| |]; try done; unfold mbind, M_bind, get_st; [rewrite Hc|rewrite Hr].
  - apply status_performs.
  - change (performs (commandCallback error (λ es, if quits es then async_disconnect else mret tt) (Some r)) (event_calls quits (EvReply (Some r))) w).
    apply performs_bind; [apply performs_say|]. cbn beta iota. apply performs_bind; [by apply show_reply_performs|apply performs_say].
Qed.

Lemma ready_after cs w : ready w → ready (after cs w).
Proof. done. Qed.

Lemma loop_performs evs w : ready w → Forall delivers evs →
  performs (ev_loop (subscriber_cb error quits) evs) (concat (event_calls quits <$> evs)) w.
Proof.
  revert w. induction evs as [|e evs IH]; intros w Hw Hevs; cbn [ev_loop fmap list_fmap concat]; [apply performs_ret|].
  inversion Hevs. apply performs_bind; [by apply dispatch_performs|]. apply IH; [by apply ready_after|done].
Qed.

Lemma ev_loop_app cb evs1 evs2 w : ev_loop cb (evs1 ++ evs2) w = (ev_loop cb evs1;; ev_loop cb evs2) w.
Proof.
  revert w. induction evs1 as [|e evs1 IH]; intros w; [done|]. cbn [ev_loop app]. unfold mbind, M_bind in *.
  destruct (dispatch cb e w) as [[] w'| | |]; done.
Qed.

Lemma dispatch_disconnect status w : ready w →
  dispatch (subscriber_cb error quits) (EvDisconnect status) w =
    Ok tt (mk_aw (status_line status "Disconnected..." :: a_calls w) false true true true true).
Proof.
  destruct w as [cs g c d r s]. intros (Hg & Hc & Hd & Hr & Hs). cbn in *. subst. unfold status_line, REDIS_OK. 
  unfold dispatch, mbind, M_bind, get_st, subscriber_cb, disconnectCallback, REDIS_OK. cbn [disconnectCb on_disconnect]. by destruct (status =? 0).
Qed.

End loop.

(** The three subscribers: the callbacks, when they quit and whether they leave at once. *)
Definition subscribers {as_ : ASYNC} : list ((list aevent → M aworld Z) * (list redisReply → bool) * bool) :=
  [(Moht.main, Moht.quits, false); (Subscriber.main, λ _, false, false); (Test1.main, λ _, false, true)].

(** What they do before the loop, oldest first. *)
Definition start_calls {as_ : ASYNC} (leaves : bool) : list acall :=
  [signal SIGINT; say_line "Inside Main..." []; say_line "Inside connect2redis..." []; redisAsyncConnect "172.19.10.31" 6905; redisLibevAttach;
   redisAsyncSetConnectCallback; say_line "Returning from connect2redis..." []; redisAsyncSetDisconnectCallback; say_line "Inside executeCommand..." [];
   redisAsyncCommand "SUBSCRIBE redis"; say_line "Returning from executeCommand [%d]..." [AInt command_ret]] ++
  (if leaves then [redisAsyncDisconnect] else []) ++ [say_line "Wait..." []].

Lemma subscriber_runs {as_ : ASYNC} program quits leaves evs w0 : (program, quits, leaves) ∈ subscribers → connect_err = 0 →
  ∃ error, program evs w0 = (ev_loop (subscriber_cb error quits) evs;; say "Returning from Main..." [];; mret 0)
    (after (start_calls leaves) (mk_aw (a_calls w0) true true true true true)).
Proof.
  intros Hin Hc. destruct w0 as [cs g c d r s].
  assert (∀ cb leave, subscribe cb (if (leave : bool) then async_disconnect else mret tt) evs (mk_aw cs g c d r s) =
    (ev_loop cb evs;; say "Returning from Main..." [];; mret 0) (after (start_calls leave) (mk_aw cs true true true true true))) as Hgo.
  { intros cb leave. unfold subscribe, connect2redis, async_connect, mbind, M_bind. cbn -[ev_loop after start_calls]. rewrite Hc. by destruct leave. }
  repeat (apply elem_of_cons in Hin as [[= -> -> ->]|Hin]); [..|by apply elem_of_nil in Hin].
  - exists "ERROR1 : %s"%string. apply (Hgo _ false).
  - exists "ERROR1 : %s"%string. apply (Hgo _ false).
  - exists "ERROR : %s"%string. apply (Hgo _ true).
Qed.

(** ** Theorems *)

(** Evaluation of a program up to what the libraries choose. *)
Ltac a_eval := cbv -[connect_err errstr command_ret null_text codes cstr for_range].

(** The calls of a subscriber, whose reference [event_calls] follows the code. *)
Lemma subscribers_calls {as_ : ASYNC} program quits leaves evs status w0 :
  (program, quits, leaves) ∈ subscribers → connect_err = 0 → Forall delivers evs →
  let last := match status with Some s => [EvDisconnect s] | None => [] end in
  wp (program (evs ++ last)) (λ ret w, ret = 0 ∧ gAsyncContext w = bool_decide (status = None) ∧
    a_calls w = reverse (start_calls leaves ++ concat (event_calls quits <$> evs ++ last) ++ [say_line "Returning from Main..." []]) ++ a_calls w0) w0.
Proof.
  intros Hin Hc Hevs last. destruct (subscriber_runs program quits leaves (evs ++ last) w0 Hin Hc) as [error Hrun].
  unfold wp. rewrite Hrun. set (w1 := after (start_calls leaves) (mk_aw (a_calls w0) true true true true true)).
  assert (ready w1) as Hw1 by done. pose proof (loop_performs error quits evs w1 Hw1 Hevs) as Hloop. unfold performs in Hloop.
  rewrite fmap_app, concat_app, !reverse_app, <- !app_assoc.
  assert (∀ cs ds, a_calls (after cs w1) = ds → ds = reverse cs ++ reverse (start_calls leaves) ++ a_calls w0) as Hw by (intros cs ds <-; done).
  unfold mbind, M_bind. rewrite ev_loop_app. unfold mbind, M_bind. rewrite Hloop. subst last. destruct status as [st|]; cbn [ev_loop].
  - unfold mbind, M_bind. rewrite dispatch_disconnect by done. split; [done|]. split; [done|]. cbn. do 2 f_equal; by apply Hw.
  - split; [done|]. split; [done|]. cbn. f_equal; by apply Hw.
Qed.

(** *** What a subscriber should do

    The library calls in a list of calls, and everything that it prints of what it was given. *)

Definition is_say (c : acall) : bool := match c with say_line _ _ => true | _ => false end.
Definition library_calls (cs : list acall) : list acall := List.filter (λ c, negb (is_say c)) cs.
Definition printed (cs : list acall) : list arg := cs ≫= λ c, match c with say_line _ args => args | _ => [] end.

(** A message of a channel: an array whose third part is the payload; it says quit when the
    payload is that word, alone or before a null byte. *)
Definition says_quit (payload : list Z) : bool :=
  bool_decide (payload = [113; 117; 105; 116] ∨ [113; 117; 105; 116; 0] `prefix_of` payload).

Definition quit_message (e : aevent) : bool :=
  match e with
  | EvReply (Some (REDIS_REPLY_ARRAY (_ :: _ :: part :: _))) =>
      match r_str part with Some payload => says_quit payload | None => false end
  | _ => false
  end.

(** The data of an event: the strings up to their null byte and the numbers of a reply, an array's
    parts in their order, and the library's message for a connection that failed. *)
Definition event_data {as_ : ASYNC} (e : aevent) : list arg :=
  match e with
  | EvReply (Some (REDIS_REPLY_ARRAY es)) => (λ e, AStr (shown_text (r_str e))) <$> es
  | EvReply (Some (REDIS_REPLY_INTEGER n)) => [AInt n]
  | EvReply (Some r) => match r_str r with Some s => [AStr (cstr s)] | None => [] end
  | EvConnect status | EvDisconnect status => if status =? REDIS_OK then [] else [AStr errstr]
  | _ => []
  end.

Lemma cstr_quit s : cstr s = [113; 117; 105; 116] ↔ s = [113; 117; 105; 116] ∨ [113; 117; 105; 116; 0] `prefix_of` s.
Proof.
  split; [intros H|intros [->|[rest ->]]; done].
  destruct s as [|a [|b [|c [|d [|e s]]]]]; cbn in H; repeat (case_match; cbn in H; simplify_eq); try (by left).
  right. exists s. replace e with 0 by lia. done.
Qed.

Lemma moht_quits es : Moht.quits es = quit_message (EvReply (Some (REDIS_REPLY_ARRAY es))).
Proof.
  unfold Moht.quits, quit_message, says_quit. destruct es as [|e0 [|e1 [|e es]]]; try done. cbn [lookup list_lookup].
  change (codes "quit") with [113; 117; 105; 116]. unfold r_len. destruct (r_str e) as [s|]; cbn [fmap option_fmap default].
  - replace (3 <=? Z.of_nat (length (e0 :: e1 :: e :: es))) with true by (cbn [length]; lia). cbn [andb].
    rewrite (bool_decide_ext (Some (cstr s) = Some _) (s = [113; 117; 105; 116] ∨ [113; 117; 105; 116; 0] `prefix_of` s)).
    2: { rewrite <- cstr_quit. by split; [intros [= ->]|intros ->]. }
    destruct s; cbn [length]; [by rewrite bool_decide_eq_false_2 by (by intros [?|[? ?]])|]. done.
  - by rewrite andb_false_r.
Qed.

(** One event served: its data printed in order, and the disconnection asked for if it says quit. *)
Definition served {as_ : ASYNC} (polite : bool) (e : aevent) (cs : list acall) : Prop :=
  printed cs = event_data e ∧ library_calls cs = if polite && quit_message e then [redisAsyncDisconnect] else [].

Lemma array_lines_printed {as_ : ASYNC} es :
  printed (array_lines "%s " es) = (λ e, AStr (shown_text (r_str e))) <$> es ∧ library_calls (array_lines "%s " es) = [].
Proof. unfold printed, library_calls, array_lines. split; induction es as [|e es IH]; cbn; [done|by f_equal|done|done]. Qed.

Lemma event_served {as_ : ASYNC} quits polite e :
  (∀ es, quits es = polite && quit_message (EvReply (Some (REDIS_REPLY_ARRAY es)))) → served polite e (event_calls quits e).
Proof.
  intros Hq. unfold served. destruct e as [status|[r|]|status|signo]; cbn [event_calls].
  - unfold status_line, event_data. rewrite andb_false_r. by destruct (status =? REDIS_OK).
  - destruct r as [str|es|n| |str|str]; cbn [reply_calls app]; rewrite ?andb_false_r; try done.
    destruct (array_lines_printed es) as [Hp Hl]. rewrite Hq. unfold printed, library_calls in *. cbn [mbind list_bind].
    split.
    + rewrite !bind_app. cbn. rewrite Hp. destruct (_ && _); cbn; by rewrite !app_nil_r.
    + cbn. rewrite !filter_app, Hl. by destruct (_ && _).
  - by rewrite andb_false_r.
  - unfold status_line, event_data. rewrite andb_false_r. by destruct (status =? REDIS_OK).
  - by rewrite andb_false_r.
Qed.

(** The programs, whether they obey quit messages and whether they leave at once. *)
Definition subscriber_programs {as_ : ASYNC} : list ((list aevent → M aworld Z) * bool * bool) :=
  [(Moht.main, true, false); (Subscriber.main, false, false); (Test1.main, false, true)].

Lemma program_quits {as_ : ASYNC} program (polite leaves : bool) : (program, polite, leaves) ∈ subscriber_programs →
  ∃ quits, (program, quits, leaves) ∈ subscribers ∧ ∀ es, quits es = polite && quit_message (EvReply (Some (REDIS_REPLY_ARRAY es))).
Proof.
  intros Hin. repeat (apply elem_of_cons in Hin as [[= -> -> ->]|Hin]); [..|by apply elem_of_nil in Hin].
  - exists Moht.quits. split; [by left|apply moht_quits].
  - exists (λ _, false). split; [right; by left|done].
  - exists (λ _, false). split; [do 2 right; by left|done].
Qed.

(** C39: the three subscribers, connected, for any sequence of replies that can be printed and
    with or without a disconnection at the end, return 0.  Before the loop they have installed
    the handler of SIGINT, connected, registered their callbacks and sent SUBSCRIBE, in this
    order, and one of them has asked for the disconnection at once.  Then every event is
    served in the order of arrival: the data it carries is printed, in its order and nothing
    else of what was received, and moht.c asks for the disconnection exactly when the event is
    an array whose third part is the word quit; nothing else is asked of the library.  A reply can
    be printed if its parts are strings, or if the C library prints something for a null
    string, without which the confirmation of the subscription is undefined
    ([confirmation_undefined]). *)
Theorem subscribers_serve {as_ : ASYNC} program (polite leaves : bool) evs status w0 :
  (program, polite, leaves) ∈ subscriber_programs → connect_err = 0 → Forall delivers evs →
  let last := match status with Some s => [EvDisconnect s] | None => [] end in
  wp (program (evs ++ last)) (λ ret w, ret = 0 ∧ gAsyncContext w = bool_decide (status = None) ∧
    ∃ first css, a_calls w = reverse (first ++ concat css ++ [say_line "Returning from Main..." []]) ++ a_calls w0 ∧
      library_calls first = [signal SIGINT; redisAsyncConnect "172.19.10.31" 6905; redisLibevAttach; redisAsyncSetConnectCallback;
        redisAsyncSetDisconnectCallback; redisAsyncCommand "SUBSCRIBE redis"] ++ (if leaves then [redisAsyncDisconnect] else []) ∧
      Forall2 (served polite) (evs ++ last) css) w0.
Proof.
  intros Hin Hc Hevs last. destruct (program_quits program polite leaves Hin) as (quits & Hsub & Hq).
  eapply wp_mono; [by apply (subscribers_calls program quits leaves evs status w0)|]. intros ret w (-> & Hg & Hw).
  split; [done|]. split; [done|]. exists (start_calls leaves), (event_calls quits <$> evs ++ last). split; [exact Hw|].
  split; [by destruct leaves|]. apply Forall2_fmap_r, Forall_Forall2_diag, list.Forall_forall. intros e _. by apply event_served.
Qed.

Lemma subscriber_stops {as_ : ASYNC} program quits leaves evs e rest w0 : (program, quits, leaves) ∈ subscribers → connect_err = 0 → Forall delivers evs →
  ∃ error, program (evs ++ e :: rest) w0 =
    (dispatch (subscriber_cb error quits) e;; ev_loop (subscriber_cb error quits) rest;; say "Returning from Main..." [];; mret 0)
    (after (start_calls leaves ++ concat (event_calls quits <$> evs)) (mk_aw (a_calls w0) true true true true true)).
Proof.
  intros Hin Hc Hevs. destruct (subscriber_runs program quits leaves (evs ++ e :: rest) w0 Hin Hc) as [error Hrun]. exists error. rewrite Hrun.
  unfold mbind, M_bind. rewrite ev_loop_app. unfold mbind, M_bind. rewrite (loop_performs error quits evs) by done. rewrite after_after. cbn [ev_loop].
  unfold mbind, M_bind. by destruct (dispatch _ e _) as [[] w'| | |].
Qed.

(** A subscriber that is interrupted while its context exists asks for the disconnection once more
    and exits with 0; when the library reports a lost connection by a callback without a reply it
    exits with 1.  Whatever was to come after is not served. *)
Theorem subscribers_stop {as_ : ASYNC} program quits leaves evs rest signo w0 :
  (program, quits, leaves) ∈ subscribers → connect_err = 0 → Forall delivers evs →
  let served := reverse (start_calls leaves ++ concat (event_calls quits <$> evs)) ++ a_calls w0 in
  (∃ w, program (evs ++ EvSignal signo :: rest) w0 = Exit 0 w ∧
    a_calls w = [say_line "Exiting now..." []; redisAsyncDisconnect; say_line "Disconnecting from redis..." []; say_line "Recieved SIGINT (kill -%d)" [AInt signo]] ++ served) ∧
  (∃ w error, program (evs ++ EvReply None :: rest) w0 = Exit 1 w ∧ a_calls w = [say_line error [AStr errstr]; say_line "Inside commandCallback..." []] ++ served).
Proof.
  intros Hin Hc Hevs served. split.
  - destruct (subscriber_stops program quits leaves evs (EvSignal signo) rest w0 Hin Hc Hevs) as [error ->]. eexists. split; done.
  - destruct (subscriber_stops program quits leaves evs (EvReply None) rest w0 Hin Hc Hevs) as [error ->]. eexists _, error. split; done.
Qed.

(** An interrupt after the disconnection uses the freed context. *)
Theorem late_interrupt_undefined {as_ : ASYNC} program quits leaves evs rest status signo w0 :
  (program, quits, leaves) ∈ subscribers → connect_err = 0 → Forall delivers evs →
  program (evs ++ EvDisconnect status :: EvSignal signo :: rest) w0 = Undef.
Proof.
  intros Hin Hc Hevs. destruct (subscriber_stops program quits leaves evs (EvDisconnect status) (EvSignal signo :: rest) w0 Hin Hc Hevs) as [error ->].
  unfold mbind, M_bind. by rewrite dispatch_disconnect.
Qed.

(** The confirmation of a subscription has an integer as its third part: a null pointer is given
    to printf.  Where the C library does not print one, this is undefined. *)
Theorem confirmation_undefined {as_ : ASYNC} program quits leaves n rest w0 :
  (program, quits, leaves) ∈ subscribers → connect_err = 0 → null_text = None →
  program (EvConnect REDIS_OK :: EvReply (Some (REDIS_REPLY_ARRAY [REDIS_REPLY_STRING (codes "subscribe"); REDIS_REPLY_STRING (codes "redis"); REDIS_REPLY_INTEGER n])) :: rest) w0 = Undef.
Proof.
  intros Hin Hc Hn. set (e := EvReply _). destruct (subscriber_stops program quits leaves [EvConnect REDIS_OK] e rest w0 Hin Hc ltac:(by repeat constructor)) as [error Hrun].
  cbn [app] in Hrun. rewrite Hrun. unfold mbind at 1, M_bind. set (w := after _ _).
  assert (dispatch (subscriber_cb error quits) e w = Undef) as ->; [|done].
  assert (ready w) as Hw by done. clearbody w. destruct w as [cs g c d r s], Hw as (Hg & ? & ? & Hr & ?). cbn in *. subst.
  cbv -[null_text codes]. by rewrite Hn.
Qed.

(** The publisher, when the server accepts it and answers, prints the number of receivers and
    the disconnection, and returns 0; without a reply it exits with 1, and without a connection
    it returns 1. *)
Theorem publisher_publishes {as_ : ASYNC} n w0 :
  let started := [redisAsyncDisconnect; redisAsyncCommand "PUBLISH redis HELLO"; redisAsyncSetDisconnectCallback; redisAsyncSetConnectCallback;
    redisLibevAttach; redisAsyncConnect "172.19.3.25" 6900; signal SIGPIPE] ++ a_calls w0 in
  (connect_err = 0 →
    wp (Publisher.main [EvConnect REDIS_OK; EvReply (Some (REDIS_REPLY_INTEGER n)); EvDisconnect REDIS_OK]) (λ ret w, ret = 0 ∧ gAsyncContext w = false ∧
      a_calls w = [say_line "Disconnected..." []; say_line "REPLY : %lld" [AInt n]; say_line "Connected..." []] ++ started) w0) ∧
  (connect_err = 0 → ∀ evs, ∃ w, Publisher.main (EvConnect (-1) :: EvReply None :: evs) w0 = Exit 1 w ∧
      a_calls w = [say_line "ERROR : %s" [AStr errstr]; say_line "Error: %s" [AStr errstr]] ++ started) ∧
  (connect_err ≠ 0 → ∀ evs, wp (Publisher.main evs) (λ ret w, ret = 1 ∧
      a_calls w = [say_line "Error: %s" [AStr errstr]; redisAsyncConnect "172.19.3.25" 6900; signal SIGPIPE] ++ a_calls w0) w0).
Proof.
  intros started. destruct w0 as [cs g c d r s]. unfold Publisher.main, async_connect, wp, mbind, M_bind. split; [|split]; intros Hc; cbn -[started].
  - rewrite Hc. a_eval. split; [reflexivity|]. split; reflexivity.
  - intros evs. rewrite Hc. a_eval. eexists. split; reflexivity.
  - intros evs. rewrite (proj2 (Z.eqb_neq _ _) Hc). cbn. split; reflexivity.
Qed.

(** The example gives printf its private data, which is NULL, and the text of the reply: undefined
    at the first reply, whatever it is; a library that prints null pointers disconnects. *)
Theorem example_prints_null {as_ : ASYNC} r rest w0 : connect_err = 0 →
  (null_text = None → ExampleLibev.main (EvConnect REDIS_OK :: EvReply (Some r) :: rest) w0 = Undef) ∧
  (is_Some null_text → wp (ExampleLibev.main [EvConnect REDIS_OK; EvReply (Some r); EvDisconnect REDIS_OK]) (λ ret w, ret = 0 ∧
    take 3 (a_calls w) = [say_line "Disconnected..." []; redisAsyncDisconnect; say_line "argv[%s]: %s" [AStr (shown_text None); AStr (shown_text (r_str r))]]) w0).
Proof.
  intros Hc. destruct w0 as [cs g c d rr s]. unfold ExampleLibev.main, async_connect, wp, mbind, M_bind. split; intros Hn; cbn -[text_of shown_text]; rewrite Hc.
  - a_eval. rewrite Hn. reflexivity.
  - destruct Hn as [t Ht]. a_eval. rewrite Ht. destruct r; split; reflexivity.
Qed.

(** The calls of the notification program's callbacks. *)
Definition notification_calls {as_ : ASYNC} (ip : string) (port : Z) (e : aevent) : list acall :=
  match e with
  | EvConnect status =>
      [if status =? REDIS_OK then say_line "%s : Connected successfully to Redis Server [%s : %d]" [AStr (codes "connectCallback"); AStr (codes ip); AInt port]
       else say_line "%s : Error [%s]" [AStr (codes "connectCallback"); AStr errstr]]
  | EvReply None => [say_line "%s : Error [%s]" [AStr (codes "commandCallback"); AStr errstr]]
  | EvReply (Some (REDIS_REPLY_ERROR s)) => [say_line "%s : Error [%s]" [AStr (codes "commandCallback"); AStr (cstr s)]]
  | EvReply (Some (REDIS_REPLY_ARRAY es)) => array_lines "[%s]" es
  | EvReply (Some _) => [say_line "%s : Unexpected reply type !!!" [AStr (codes "commandCallback")]]
  | EvDisconnect status => [status_line status "Disconnected..."]
  | EvSignal _ => []
  end.

(** Anything but a signal may come, if it can be printed. *)
Definition notifies {as_ : ASYNC} (e : aevent) : Prop := match e with EvReply (Some r) => can_show r | EvSignal _ => False | _ => True end.

(** The program ignores the state of its context. *)
Definition calls_after (cs : list acall) (w w' : aworld) : Prop :=
  a_calls w' = reverse cs ++ a_calls w ∧ on_connect w' = true ∧ on_disconnect w' = true ∧ on_reply w' = true.

Lemma notification_dispatch {as_ : ASYNC} ip port e w : on_connect w = true → on_disconnect w = true → on_reply w = true → notifies e →
  wp (dispatch (Notifications.cb ip port) e) (λ _ w', calls_after (notification_calls ip port e) w w') w.
Proof.
  intros Hc Hd Hr He. unfold wp, dispatch, mbind, M_bind, get_st. destruct e as [st|[r|]|st|]; try done.
  - rewrite Hc. cbn [Notifications.cb connectCb notification_calls]. unfold Notifications.connectCallback. by destruct (st =? REDIS_OK).
  - rewrite Hr. cbn [Notifications.cb replyCb notification_calls]. unfold Notifications.commandCallback.
    destruct r as [|es| | | |]; try done. by rewrite (print_array_performs "[%s]" es w He).
  - by rewrite Hr.
  - rewrite Hd. cbn [Notifications.cb disconnectCb]. unfold Notifications.disconnectCallback, disconnectCallback.
    rewrite (status_performs st "Disconnected..." w). done.
Qed.

Lemma notification_loop {as_ : ASYNC} ip port evs w : on_connect w = true → on_disconnect w = true → on_reply w = true → Forall notifies evs →
  wp (ev_loop (Notifications.cb ip port) evs) (λ _ w', calls_after (concat (notification_calls ip port <$> evs)) w w') w.
Proof.
  revert w. induction evs as [|e evs IH]; intros w Hc Hd Hr Hevs; cbn [ev_loop]; [by split|]. inversion Hevs.
  apply wp_bind. eapply wp_mono; [by apply notification_dispatch|]. intros [] w1 (Hw1 & Hc1 & Hd1 & Hr1). eapply wp_mono; [by apply IH|].
  intros [] w2 (Hw2 & ?). split; [|done]. rewrite Hw2, Hw1. cbn [fmap list_fmap concat]. by rewrite reverse_app, app_assoc.
Qed.

Lemma notifications_start {as_ : ASYNC} prog ip port atoi evs w0 : c_string (strncpy 16 ip) = Some ip → 0 ≤ atoi port ≤ 65535 → connect_err = 0 →
  Notifications.main [prog; ip; port] atoi evs w0 = (ev_loop (Notifications.cb ip (atoi port)) evs;; mret 0)
    (mk_aw (reverse [signal SIGINT; redisAsyncConnect ip (atoi port); redisLibevAttach; redisAsyncSetConnectCallback;
      redisAsyncSetDisconnectCallback; redisAsyncCommand "PSUBSCRIBE __key*__:*"] ++ a_calls w0) true true true true true).
Proof.
  intros Hip Hport Hc. destruct w0 as [cs g c d r s]. assert ((atoi port <? 0) = false) as H0 by lia. assert ((65535 <? atoi port) = false) as H1 by lia.
  unfold Notifications.main, Notifications.connectToRedis, mbind, M_bind. cbv -[ev_loop Notifications.cb c_string strncpy Z.ltb connect_err errstr command_ret codes].
  rewrite Hip, H0, H1, Hc. reflexivity.
Qed.

(** Started with an address and a port in range, and connected, the notification program serves
    any sequence of events but signals: every notification is printed line by line in order,
    and a lost connection or an unexpected reply is reported and does not end it. *)
Theorem notifications_served {as_ : ASYNC} prog ip port atoi evs w0 : c_string (strncpy 16 ip) = Some ip →
  0 ≤ atoi port ≤ 65535 → connect_err = 0 → Forall notifies evs →
  wp (Notifications.main [prog; ip; port] atoi evs) (λ ret w, ret = 0 ∧
    a_calls w = reverse ([signal SIGINT; redisAsyncConnect ip (atoi port); redisLibevAttach; redisAsyncSetConnectCallback;
      redisAsyncSetDisconnectCallback; redisAsyncCommand "PSUBSCRIBE __key*__:*"] ++ concat (notification_calls ip (atoi port) <$> evs)) ++ a_calls w0) w0.
Proof.
  intros Hip Hport Hc Hevs. unfold wp. rewrite (notifications_start _ _ _ _ _ _ Hip Hport Hc). set (w1 := mk_aw _ _ _ _ _ _).
  pose proof (notification_loop ip (atoi port) evs w1 eq_refl eq_refl eq_refl Hevs) as Hloop. unfold wp in Hloop. unfold mbind, M_bind.
  destruct (ev_loop _ evs w1) as [[] w2| | |]; try done. split; [done|]. destruct Hloop as [-> _]. cbn [w1 a_calls]. by rewrite reverse_app, <- app_assoc.
Qed.

(** A port out of range is reported and then ignored: the program registers a callback with a
    context that it does not have. *)
Theorem bad_port_undefined {as_ : ASYNC} prog ip port atoi evs w0 : (String.length ip < 16)%nat → (atoi port < 0 ∨ 65535 < atoi port) → gAsyncContext w0 = false →
  Notifications.main [prog; ip; port] atoi evs w0 = Undef.
Proof.
  intros Hl Hport Hg. destruct w0 as [cs g c d r s]. cbn in Hg. subst g. destruct (strncpy_terminated 16 ip Hl) as [ip' Hip].
  unfold Notifications.main, Notifications.connectToRedis, mbind, M_bind. cbn -[strncpy c_string]. rewrite Hip. cbn -[Z.ltb].
  by replace ((atoi port <? 0) || (65535 <? atoi port)) with true by lia.
Qed.

(** ** Witnesses *)

Definition toy_async (null : option (list Z)) : ASYNC := {| connect_err := 0; errstr := codes "Server closed the connection"; command_ret := 0; null_text := null |}.

Definition a_start : aworld := mk_aw [] false false false false false.

(** A message on the channel, and the confirmation of the subscription. *)
Definition message (s : string) : aevent :=
  EvReply (Some (REDIS_REPLY_ARRAY [REDIS_REPLY_STRING (codes "message"); REDIS_REPLY_STRING (codes "redis"); REDIS_REPLY_STRING (codes s)])).
Definition confirmation : aevent :=
  EvReply (Some (REDIS_REPLY_ARRAY [REDIS_REPLY_STRING (codes "subscribe"); REDIS_REPLY_STRING (codes "redis"); REDIS_REPLY_INTEGER 1])).

Definition session : list aevent := [EvConnect 0; confirmation; message "hello"; message "quit"].

Lemma session_delivers : Forall (delivers (as_ := toy_async (Some glibc_null))) session.
Proof. repeat (apply Forall_cons_2; [first [done|left; by eexists]|]). by apply Forall_nil_2. Qed.

(** How often the disconnection was asked for. *)
Definition disconnects (cs : list acall) : nat := length (omap (λ c, match c with redisAsyncDisconnect => Some tt | _ => None end) cs).

Lemma subscribers_serve_witness : wp (Moht.main (as_ := toy_async (Some glibc_null)) (session ++ [EvDisconnect 0])) (λ ret w, ret = 0 ∧ gAsyncContext w = false ∧
    ∃ first css, a_calls w = reverse (first ++ concat css ++ [say_line "Returning from Main..." []]) ++ [] ∧
      Forall2 (served (as_ := toy_async (Some glibc_null)) true) (session ++ [EvDisconnect 0]) css) a_start.
Proof.
  eapply wp_mono; [apply (subscribers_serve (as_ := toy_async (Some glibc_null)) (Moht.main (as_ := toy_async (Some glibc_null))) true false session (Some 0) a_start); [by left|done|apply session_delivers]|].
  intros ret w (-> & Hg & first & css & Hw & _ & Hs). split; [done|]. split; [exact Hg|]. by exists first, css.
Defined.

(** Of the session's messages one asks to quit. *)
Example session_quits : quit_message <$> session = [false; false; false; true].
Proof. reflexivity. Qed.

Lemma subscribers_stop_witness :
  (∃ w, Subscriber.main (as_ := toy_async None) ([EvConnect 0; message "hello"] ++ [EvSignal SIGINT; message "late"]) a_start = Exit 0 w ∧ disconnects (a_calls w) = 1%nat) ∧
  (∃ w, Subscriber.main (as_ := toy_async None) ([EvConnect 0; message "hello"] ++ [EvReply None; message "late"]) a_start = Exit 1 w ∧ disconnects (a_calls w) = 0%nat).
Proof.
  destruct (subscribers_stop (as_ := toy_async None) (Subscriber.main (as_ := toy_async None)) (λ _, false) false [EvConnect 0; message "hello"] [message "late"] SIGINT a_start) as [(w & Hw & Hc) (w' & e & Hw' & Hc')].
  - right. by left.
  - done.
  - repeat (apply Forall_cons_2; [first [done|right; by repeat constructor; eexists]|]). by apply Forall_nil_2.
  - split; [exists w|exists w']; (split; [done|]); [rewrite Hc|rewrite Hc']; reflexivity.
Defined.

Lemma late_interrupt_undefined_witness : Test1.main (as_ := toy_async None) [EvConnect 0; EvDisconnect 0; EvSignal SIGINT] a_start = Undef.
Proof.
  apply (late_interrupt_undefined (as_ := toy_async None) (Test1.main (as_ := toy_async None)) (λ _, false) true [EvConnect 0] [] 0 SIGINT a_start); [do 2 right; by left|done|by repeat constructor].
Defined.

Lemma confirmation_undefined_witness : Moht.main (as_ := toy_async None) [EvConnect 0; confirmation] a_start = Undef.
Proof. apply (confirmation_undefined (as_ := toy_async None) (Moht.main (as_ := toy_async None)) Moht.quits false 1 [] a_start); [by left|done|done]. Defined.

Lemma publisher_publishes_witness : wp (Publisher.main (as_ := toy_async None) [EvConnect REDIS_OK; EvReply (Some (REDIS_REPLY_INTEGER 2)); EvDisconnect REDIS_OK])
  (λ ret w, ret = 0 ∧ take 3 (a_calls w) = [say_line "Disconnected..." []; say_line "REPLY : %lld" [AInt 2]; say_line "Connected..." []]) a_start.
Proof. eapply wp_mono; [exact (proj1 (publisher_publishes (as_ := toy_async None) 2 a_start) eq_refl)|]. intros ret w (-> & _ & ->). by split. Defined.

Lemma example_prints_null_witness : ExampleLibev.main (as_ := toy_async None) [EvConnect REDIS_OK; EvReply (Some (REDIS_REPLY_INTEGER 0))] a_start = Undef.
Proof. exact (proj1 (example_prints_null (as_ := toy_async None) (REDIS_REPLY_INTEGER 0) [] a_start eq_refl) eq_refl). Defined.

Lemma notifications_served_witness : wp (Notifications.main (as_ := toy_async None) ["prog"; "127.0.0.1"; "6379"]%string (λ _, 6379) [EvConnect 0; message "set"; EvReply None])
  (λ ret w, ret = 0 ∧ length (a_calls w) = 11%nat) a_start.
Proof.
  eapply wp_mono; [apply (notifications_served (as_ := toy_async None) "prog" "127.0.0.1" "6379" (λ _, 6379) [EvConnect 0; message "set"; EvReply None] a_start)|].
  - reflexivity.
  - lia.
  - done.
  - repeat (apply Forall_cons_2; [first [done|right; by repeat constructor; eexists]|]). by apply Forall_nil_2.
  - intros ret w (-> & ->). by split.
Defined.

Lemma bad_port_undefined_witness : Notifications.main (as_ := toy_async None) ["prog"; "127.0.0.1"; "70000"]%string (λ _, 70000) [] a_start = Undef.
Proof. apply (bad_port_undefined (as_ := toy_async None) "prog" "127.0.0.1" "70000" (λ _, 70000) [] a_start); [by apply Nat.ltb_lt|lia|done]. Defined.
