(* ===== verification/Icap.v ===== *)
(** * Test programs of an ICAP client (networking/icap-client-testing)

    The programs connect to an ICAP server, send a request in several parts and receive the
    answer in a second thread.  The client library is not in the repository (its header is): it
    is the class [ICAP], an arbitrary function from the history of calls and the addresses in
    use to the result of the next call.  For [icapReceiveData] the result has the pieces with
    which the library calls back; the callback's own result depends only on the piece, so that
    fixing them at the call loses nothing.

    The threads are trees of calls ([prog]); [par] runs both in any order, one call at a time.
    Four of the programs (connPool.c, getReqMod.c, postReqMod.c, respMod_nullBody.c) were written
    for an earlier version of the library, whose functions have fewer parameters; they are modelled
    as they are written.  Line ends are left out of the formats of lines. *)

From Stdlib Require Import ZArith Lia ZifyBool.
From stdpp Require Import base gmap list strings numbers.
From S2P Require Import Prelude Posix Redis.

(** ** The library (icap_client.h) *)

Inductive eModificationType := ICAP_MOD_REQ | ICAP_MOD_RESP.

Definition ICAP_ERR_INVALID_PARAMS : Z := -2001.
Definition ICAP_ERR_TOO_MANY_CONNECTIONS : Z := -2002.
Definition ICAP_PROTO_ERR_CHUNK_SIZE_EXCEEDED : Z := -3005.

(** Strings that may be NULL are options; [opts] is the rest of the parameters of
    [icapSendHeaders], three or, in the earlier version, two. *)
Inductive icall :=
| icapInitContextPool (poolSize : Z)
| icapFreeContextPool
| icapConnect (icapServerIP : string) (icapServerPort : Z)
| icapDisconnect (context : Z)
| icapSendOptionsRequest (context : Z) (icapService : string)
| icapSendHeaders (context : Z) (icapService icapQuery : string) (eModType : eModificationType) (req res : option (list Z)) (opts : list Z)
| icapSendData (context : Z) (httpBody : list Z)
| icapSendPreviewAndWait (context : Z) (httpBody : list Z)
| icapReceiveData (context : Z) (withCallback : bool) (clientSocket : Z)
| icapGetErrorString (errnum : Z)
| pthread_create
| calloc (size : Z)
| strdup (s : list Z)
| free (p : Z)
| sleep (seconds : Z)
| printf (fmt : string) (args : list arg).

(** The result, the pointer that is returned or stored, the pieces that are delivered to the
    callback ([None] is a null pointer), and the text or data that is returned. *)
Record ianswer := mk_ianswer { i_ret : Z; i_ptr : Z; i_pieces : list (option (list Z)); i_text : list Z }.

Definition ievent : Type := icall * ianswer.

Class ICAP := icap_answer : list ievent → gset Z → icall → ianswer.

(** The history, the contexts that are connected and the blocks of the program. *)
Record iworld := mk_iw { i_trace : list ievent; i_contexts : gset Z; i_mem : gset Z }.

(** The context that a call uses. *)
Definition uses (c : icall) : Z :=
  match c with
  | icapSendOptionsRequest ctx _ | icapSendHeaders ctx _ _ _ _ _ _ | icapSendData ctx _ | icapSendPreviewAndWait ctx _
  | icapReceiveData ctx _ _ | icapDisconnect ctx => ctx
  | _ => NULL
  end.

(** ** Threads as trees of calls *)

Inductive prog (A : Type) := Ret (a : A) | Stuck | Quit (code : Z) | Call (c : icall) (k : ianswer → prog A).
Arguments Ret {A} _.
Arguments Stuck {A}.
Arguments Quit {A} _.
Arguments Call {A} _ _.

#[global] Instance iprog_ret : MRet prog := λ A a, Ret a.
#[global] Instance iprog_bind : MBind prog := λ A B f,
  fix bind p := match p with Ret a => f a | Stuck => Stuck | Quit n => Quit n | Call c k => Call c (λ r, bind (k r)) end.

Definition call (c : icall) : prog ianswer := Call c Ret.
Definition say (fmt : string) (args : list arg) : prog unit := call (printf fmt args);; mret tt.

Section machine.
Context {lib : ICAP}.
Abbreviation IM := (M iworld).

(** One call.  A context that is neither connected nor NULL must not be used, and a block that
    is not allocated must not be freed. *)
Definition icall_ (c : icall) : IM ianswer :=
  w ← get_st;
  if bool_decide (uses c = NULL ∨ uses c ∈ i_contexts w) then
    let a := icap_answer (i_trace w) (i_contexts w ∪ i_mem w) c in
    modify (λ w, mk_iw ((c, a) :: i_trace w) (i_contexts w) (i_mem w));;
    match c with
    | icapConnect _ _ => (if 0 <=? i_ret a then modify (λ w, mk_iw (i_trace w) ({[i_ptr a]} ∪ i_contexts w) (i_mem w)) else mret tt);; mret a
    | icapDisconnect ctx => (if 0 <=? i_ret a then modify (λ w, mk_iw (i_trace w) (i_contexts w ∖ {[ctx]}) (i_mem w)) else mret tt);; mret a
    | calloc _ | strdup _ => (if i_ptr a =? NULL then mret tt else modify (λ w, mk_iw (i_trace w) (i_contexts w) ({[i_ptr a]} ∪ i_mem w)));; mret a
    | free p => if bool_decide (p ∈ i_mem w) then modify (λ w, mk_iw (i_trace w) (i_contexts w) (i_mem w ∖ {[p]}));; mret a else undef
    | _ => mret a
    end
  else undef.

Fixpoint denote {A} (p : prog A) : IM A :=
  match p with Ret a => mret a | Stuck => undef | Quit n => exit_with n | Call c k => r ← icall_ c; denote (k r) end.

Definition step {A} (p : prog A) : IM (prog A) :=
  match p with Ret a => mret (Ret a) | Stuck => undef | Quit n => exit_with n | Call c k => r ← icall_ c; mret (k r) end.

(** The new thread [p] beside the rest [q] of the main thread up to the join; an exit of either
    ends the process. *)
Fixpoint par (sched : list bool) (p q : prog unit) : IM unit :=
  match sched with
  | [] => denote q;; denote p
  | true :: sched => p ← step p; par sched p q
  | false :: sched => q ← step q; par sched p q
  end.

End machine.

(** ** Functions that several programs share *)

(** The copy is one byte longer, which ends the string that is printed. *)
Definition handleIcapData (respData : option (list Z)) : prog Z :=
  match respData with
  | None => say "%s : NO DATA received" [AStr (codes "handleIcapData")];; mret 1
  | Some d =>
      data ← call (calloc (Z.of_nat (length d) + 1));
      if i_ptr data =? NULL then Stuck
      else
        say "%s : DataLength [%d][%s]" [AStr (codes "handleIcapData"); AInt (Z.of_nat (length d)); AStr (cstr d)];;
        call (free (i_ptr data));;
        mret 0
  end.

(** The callbacks that [icapReceiveData] makes before it returns. *)
Fixpoint callbacks (pieces : list (option (list Z))) : prog unit :=
  match pieces with [] => mret tt | d :: pieces => handleIcapData d;; callbacks pieces end.

Definition icap_receive (context : Z) (withCallback : bool) (clientSocket : Z) : prog ianswer :=
  a ← call (icapReceiveData context withCallback clientSocket);
  (if withCallback then callbacks (i_pieces a) else mret tt);;
  mret a.

(** [printf] with the number and the text of an error. *)
Definition complain (fmt : string) (pre : list arg) (ret : Z) : prog unit :=
  s ← call (icapGetErrorString ret); say fmt (pre ++ [AInt ret; AStr (i_text s)]).

(** The thread: [arg] points to the context, and is freed unless there was an error. *)
Definition receiver (withCallback : bool) (context arg : Z) : prog unit :=
  a ← icap_receive context withCallback 0;
  if i_ret a <? 0 then complain "%s : Error [%d] [%s]" [AStr (codes "receiver")] (i_ret a)
  else
    (if withCallback then mret tt
     else say "%s : DataLength [%d][%s]" [AStr (codes "receiver"); AInt (Z.of_nat (length (i_text a))); AStr (cstr (i_text a))]);;
    say "%s : status code = [%d]" [AStr (codes "receiver"); AInt (i_ret a)];;
    call (free arg);;
    mret tt.

(** The thread of the programs for the earlier version. *)
Definition old_receiver (context arg : Z) : prog unit :=
  a ← icap_receive context true 0;
  if i_ret a <? 0 then complain "Error [%d] [%s]" [] (i_ret a)
  else
    say "%s : status code = [%d]" [AStr (codes "receiver"); AInt (i_ret a)];;
    call (free arg);;
    mret tt.

(** A call whose negative result ends the program; [sent] is printed before the test when it
    is there. *)
Definition must (c : icall) (fmt : string) : prog ianswer :=
  a ← call c;
  if i_ret a <? 0 then complain fmt [] (i_ret a);; Quit 1 else mret a.

Definition must_say (c : icall) (sent fmt : string) : prog unit :=
  a ← call c;
  say sent [];;
  if i_ret a <? 0 then complain fmt [] (i_ret a);; Quit 1 else mret tt.

Definition start (pool : Z) (ip : string) (fmt : string) : prog Z :=
  must (icapInitContextPool pool) fmt;;
  a ← must (icapConnect ip 1344) "Error [%d] [%s]";
  say "Connected to ICAP server successfully..." [];;
  mret (i_ptr a).

Definition finish (context : Z) : prog Z :=
  a ← call (icapDisconnect context);
  (if i_ret a <? 0 then say "ERROR disconnecting" [] else mret tt);;
  must icapFreeContextPool "Error [%d] [%s]";;
  mret 0.

Section threads.
Context {lib : ICAP}.

(** The data of the thread, the thread, the rest of the main thread and the join.  The result of
    [pthread_create] is not tested, and joining a thread that was not created is undefined. *)
Definition receive_while (sched : list bool) (thread : Z → Z → prog unit) (context : Z) (q : prog unit) : M iworld unit :=
  t ← icall_ (calloc 16);
  if i_ptr t =? NULL then undef
  else
    r ← icall_ pthread_create;
    if i_ret r =? 0 then par sched (thread context (i_ptr t)) q else denote q;; undef.

End threads.

(** ** Messages *)

Definition crlf : string := String (Ascii.ascii_of_nat 13) (String (Ascii.ascii_of_nat 10) EmptyString).

Definition httpRequestHeaders_gzip : list Z :=
  codes ("GET /origin-resource HTTP/1.1" +:+ crlf +:+ "Host: www.origin-server.com" +:+ crlf +:+ "Accept: text/html, text/plain, image/gif" +:+ crlf +:+
    "Accept-Encoding: gzip, compress" +:+ crlf +:+ crlf).
Definition quote : string := String (Ascii.ascii_of_nat 34) EmptyString.
Definition resp_hdr : list Z :=
  codes ("HTTP/1.1 200 OK" +:+ crlf +:+ "Date: Mon, 10 Jan 2000 09:52:22 GMT" +:+ crlf +:+ "Server: Apache/1.3.6 (Unix)" +:+ crlf +:+
    "ETag: " +:+ quote +:+ "63840-1ab7-378d415b" +:+ quote +:+ crlf +:+ "Content-Type: text/html" +:+ crlf +:+ "Content-Length: 51" +:+ crlf +:+ crlf).
Definition httpResponseHeaders : list Z :=
  codes ("HTTP/1.1 200 OK" +:+ crlf +:+ "Server: Apache/1.3.6(Unix)" +:+ crlf +:+ "Content-Type: text/plain" +:+ crlf +:+ crlf).
Definition httpRequestHeaders_preview : list Z :=
  codes ("GET /origin-resource HTTP/1.1" +:+ crlf +:+ "Host: www.origin-server.com" +:+ crlf +:+ "Accept: text/html, text/plain, image/gif" +:+ crlf +:+ crlf).
Definition httpRequestHeaders_get : list Z :=
  codes ("GET /origin-resource HTTP/1.1" +:+ crlf +:+ "Host: www.origin-server.com" +:+ crlf +:+ "Accept: text/html, text/plain" +:+ crlf +:+ crlf).
Definition httpRequestHeaders_post : list Z :=
  codes ("POST /origin-resource HTTP/1.1" +:+ crlf +:+ "Host: www.origin-server.com" +:+ crlf +:+ "Accept: text/html, text/plain" +:+ crlf +:+ crlf).
Definition httpResponseBody1 : list Z := codes ("d" +:+ crlf +:+ "Some Content1" +:+ crlf).
Definition httpResponseBody2 : list Z := codes ("d" +:+ crlf +:+ "Some Content2" +:+ crlf).
Definition httpResponseBody3 : list Z := codes ("0" +:+ crlf +:+ crlf).
Definition httpRequestBody : list Z := codes ("c" +:+ crlf +:+ "Hi There !!!" +:+ crlf +:+ "0" +:+ crlf +:+ crlf).

(** The three chunks, three seconds apart. *)
Definition send_chunks (context : Z) (fmt last : string) : prog unit :=
  call (sleep 3);;
  must_say (icapSendData context httpResponseBody1) "Chunk1 Sent" fmt;;
  call (sleep 3);;
  must_say (icapSendData context httpResponseBody2) "Chunk2 Sent" fmt;;
  call (sleep 3);;
  must_say (icapSendData context httpResponseBody3) "Chunk3 Sent" last.

(** ** Chunks (formChunkedData) *)

Definition hex_digit (n : Z) : Z := if n <? 10 then 48 + n else 87 + n.

Fixpoint hex_fuel (fuel : nat) (n : Z) : list Z :=
  match fuel with
  | O => []
  | S fuel => if n <? 16 then [hex_digit n] else hex_fuel fuel (n / 16) ++ [hex_digit (n mod 16)]
  end.

(** [%x] of an unsigned number of 32 bits. *)
Definition hex (n : Z) : list Z := hex_fuel 8 n.

(** Bytes written into a block at an offset. *)
Definition write_at (b : list Z) (off : Z) (bytes : list Z) : option (list Z) :=
  if (0 <=? off) && (off + Z.of_nat (length bytes) <=? Z.of_nat (length b)) then
    Some (take (Z.to_nat off) b ++ bytes ++ drop (Z.to_nat off + length bytes) b)
  else None.

Definition expect_ {A} (o : option A) : prog A := match o with Some a => Ret a | None => Stuck end.

Definition ICAP_CHUNK_END : list Z := codes ("0" +:+ crlf +:+ crlf).

(** [out] tells whether the two pointers for the result are not NULL.  The result with the block,
    its bytes and the length, when they are stored. *)
Definition formChunkedData (buf : option (list Z)) (bufLen : Z) (out : bool) : prog (Z * option (Z * list Z * Z)) :=
  if negb out then mret (ICAP_ERR_INVALID_PARAMS, None)
  else if 65535 <? bufLen then mret (ICAP_PROTO_ERR_CHUNK_SIZE_EXCEEDED, None)
  else
    match buf with
    | Some data =>
        if bufLen <? 1 then
          a ← call (strdup ICAP_CHUNK_END);
          mret (0, Some (i_ptr a, ICAP_CHUNK_END ++ [0], Z.of_nat (length ICAP_CHUNK_END)))
        else
          a ← call (calloc (4 + 2 + bufLen + 2 + 4));
          if i_ptr a =? NULL then Stuck
          else
            let b := replicate (Z.to_nat (4 + 2 + bufLen + 2 + 4)) 0 in
            let head := hex bufLen ++ codes crlf in
            b ← expect_ (write_at b 0 (head ++ [0]));
            let offset := Z.of_nat (length head) in
            if Z.of_nat (length data) <? bufLen then Stuck
            else
              b ← expect_ (write_at b offset (take (Z.to_nat bufLen) data));
              let offset := offset + bufLen in
              b ← expect_ (write_at b offset (codes crlf ++ [0]));
              mret (0, Some (i_ptr a, b, offset + Z.of_nat (length (codes crlf))))
    | None =>
        a ← call (strdup ICAP_CHUNK_END);
        mret (0, Some (i_ptr a, ICAP_CHUNK_END ++ [0], Z.of_nat (length ICAP_CHUNK_END)))
    end.

(** ** The programs *)

Module RespMod.
Definition POOL_SIZE : Z := 1.
Definition handleIcapData := handleIcapData.
Definition receiver := receiver true.
Definition main {lib : ICAP} (sched : list bool) : M iworld Z :=
  context ← denote (start POOL_SIZE "172.19.13.96" "Error [%d] [%s]");
  receive_while sched receiver context (
    must (icapSendHeaders context "/" "" ICAP_MOD_RESP (Some httpRequestHeaders_gzip) (Some resp_hdr) [1; 1; -1]) "Error [%d] [%s]";;
    say "Headers Sent" [];;
    send_chunks context "Error [%d] [%s]" "Error [%d] [%s]");;
  denote (finish context).
End RespMod.

Module My.
Definition POOL_SIZE : Z := 1.
Definition handleIcapData := handleIcapData.
Definition receiver := receiver true.
Definition main {lib : ICAP} (sched : list bool) : M iworld Z :=
  context ← denote (start POOL_SIZE "182.18.161.65" "Error [%d] [%s]");
  receive_while sched receiver context (
    must (icapSendHeaders context "/" "" ICAP_MOD_REQ (Some httpRequestHeaders_gzip) None [0; 1; -1]) "Error [%d] [%s]";;
    say "Headers Sent" []);;
  denote (finish context).
End My.

Module OptionsReq.
Definition POOL_SIZE : Z := 5.
Definition handleIcapData := handleIcapData.
Definition receiver := receiver false.
Definition main {lib : ICAP} (sched : list bool) : M iworld Z :=
  context ← denote (start POOL_SIZE "182.18.161.65" "Error [%d] [%s]");
  denote (must (icapSendOptionsRequest context "/RESPMOD") "Error [%d] [%s]");;
  receive_while sched receiver context (mret tt);;
  denote (finish context).
End OptionsReq.

Module GetReqMod.
Definition POOL_SIZE : Z := 5.
Definition handleIcapData := handleIcapData.
Definition receiver := old_receiver.
Definition main {lib : ICAP} (sched : list bool) : M iworld Z :=
  context ← denote (start POOL_SIZE "182.18.161.65" "Error [%d] [%s]");
  denote (must (icapSendHeaders context "/echo" "" ICAP_MOD_REQ (Some httpRequestHeaders_get) None [0; 1]) "Error [%d] [%s]");;
  denote (say "Headers Sent" []);;
  receive_while sched receiver context (mret tt);;
  denote (finish context).
End GetReqMod.

Module PostReqMod.
Definition POOL_SIZE : Z := 5.
Definition handleIcapData := handleIcapData.
Definition receiver := old_receiver.
Definition main {lib : ICAP} (sched : list bool) : M iworld Z :=
  context ← denote (start POOL_SIZE "172.19.3.25" "Error [%d] [%s]");
  denote (must (icapSendHeaders context "/echo" "" ICAP_MOD_REQ (Some httpRequestHeaders_post) None [1; 0]) "Error [%d] [%s]");;
  denote (say "Headers Sent" []);;
  receive_while sched receiver context (must_say (icapSendData context httpRequestBody) "Chunk Sent" "Error [%d] [%s]");;
  denote (finish context).
End PostReqMod.

Module NullBody.
Definition POOL_SIZE : Z := 5.
Definition handleIcapData := handleIcapData.
Definition receiver := old_receiver.
Definition main {lib : ICAP} (sched : list bool) : M iworld Z :=
  context ← denote (start POOL_SIZE "172.19.3.25" "Error [%d] [%s]");
  denote (must (icapSendHeaders context "/echo" "" ICAP_MOD_RESP None (Some httpResponseHeaders) [0; 0]) "Error [%d] [%s]");;
  denote (say "Headers Sent" []);;
  receive_while sched receiver context (mret tt);;
  denote (finish context).
End NullBody.

(** respMod_preview.c *)
Module Preview.
Definition POOL_SIZE : Z := 1.
Definition previewSize : Z := 1024.
Definition handleIcapData := handleIcapData.
Definition receiver := receiver true.

(** The preview, 1024 letters M, as a chunk. *)
Definition make_preview : prog (list Z) :=
  p ← call (calloc previewSize);
  if i_ptr p =? NULL then Stuck
  else
    '(ret, out) ← formChunkedData (Some (replicate (Z.to_nat previewSize) 77)) previewSize true;
    if ret <? 0 then complain "Error [%d] [%s] in formChunkedData " [] ret;; Quit 1
    else '(_, bytes, chunkLen) ← expect_ out; mret (take (Z.to_nat chunkLen) bytes).

Definition main {lib : ICAP} (sched : list bool) : M iworld Z :=
  context ← denote (start POOL_SIZE "172.19.3.25" "Error [%d] [%s] in icapInitContextPool");
  chunk ← denote make_preview;
  denote (must (icapSendHeaders context "/echo" "" ICAP_MOD_RESP (Some httpRequestHeaders_preview) (Some httpResponseHeaders) [1; 1; 1024]) "Error [%d] [%s] in icapSendHeaders");;
  denote (say "Headers Sent" []);;
  a ← denote (must (icapSendPreviewAndWait context chunk) "Error [%d] [%s] in icapSendPreviewAndWait");
  denote (say "StatusCode from ICAP server after preview [%d]" [AInt (i_ret a)]);;
  if negb (i_ret a =? 100) then exit_with 1
  else
    receive_while sched receiver context (send_chunks context "Error [%d] [%s] in icapSendData" "Error [%d] [%s] icapSendData");;
    denote (finish context).
End Preview.

(** connPool.c *)
Module Pool.
Section code.
Context {lib : ICAP}.
Definition POOL_SIZE : Z := 5.
Definition handleIcapData := handleIcapData.
Definition receiver := old_receiver.

Definition err_line (name : string) (ret : Z) : prog unit := complain "%s : Error [%d] [%s]" [AStr (codes name)] ret.

Definition testInitPool : prog Z :=
  a ← call (icapInitContextPool POOL_SIZE);
  if i_ret a <? 0 then err_line "testInitPool" (i_ret a);; mret (-1) else mret 0.

Definition testFreePool : prog Z :=
  a ← call icapFreeContextPool;
  if i_ret a <? 0 then err_line "testFreePool" (i_ret a);; mret (-1) else mret 0.

(** The function ends without a return statement when everything went well: [None]. *)
Definition test1 (sched : list bool) : M iworld (option Z) :=
  c ← icall_ (icapConnect "172.19.3.25" 1344);
  if i_ret c <? 0 then denote (err_line "test1" (i_ret c));; mret (Some (-1))
  else
    a ← icall_ (icapSendOptionsRequest (i_ptr c) "/echo");
    if i_ret a <? 0 then denote (err_line "test1" (i_ret a));; mret (Some (-1))
    else
      receive_while sched receiver (i_ptr c) (mret tt);;
      a ← icall_ (icapDisconnect (i_ptr c));
      if i_ret a <? 0 then denote (err_line "test1" (i_ret a));; mret (Some (-1)) else mret None.

(** The array of contexts is the state of the loops. *)
Definition connect_round (i : Z) (st : list Z * Z) : prog (list Z * Z) :=
  let '(context, flag) := st in
  a ← call (icapConnect "172.19.3.25" 1344);
  let context := <[Z.to_nat i := i_ptr a]> context in
  if i_ret a <? 0 then err_line "test2" (i_ret a);; mret (context, if i_ret a =? ICAP_ERR_TOO_MANY_CONNECTIONS then 1 else flag)
  else mret (context, flag).

Definition disconnect_at (i : nat) (context : list Z) : prog (Z * list Z) :=
  p ← expect_ (context !! i);
  a ← call (icapDisconnect p);
  mret (i_ret a, <[i := i_ptr a]> context).

Definition reconnect_at (i : nat) (context : list Z) : prog (list Z) :=
  a ← call (icapConnect "172.19.3.25" 1344);
  let context := <[i := i_ptr a]> context in
  if i_ret a <? 0 then err_line "test2" (i_ret a);; mret context else mret context.

Definition disconnect_round (i : Z) (context : list Z) : prog (list Z) :=
  '(ret, context) ← disconnect_at (Z.to_nat i) context;
  if ret <? 0 then err_line "test2" ret;; mret context else mret context.

Definition test2 : M iworld Z :=
  '(context, flag) ← for_range 6 0 (λ i st, denote (connect_round i st)) (replicate 6 NULL, 0);
  '(_, context) ← denote (disconnect_at 0 context);
  '(_, context) ← denote (disconnect_at 4 context);
  context ← denote (reconnect_at 0 context);
  context ← denote (reconnect_at 4 context);
  for_range 6 0 (λ i context, denote (disconnect_round i context)) context;;
  if flag =? 0 then mret (-1) else mret 0.

(** The result of a test; using that of a function that returned without one is undefined. *)
Definition report (name : string) (ret : option Z) : M iworld unit :=
  ret ← expect ret;
  if ret <? 0 then denote (say "%s failed...Exiting!!!" [AStr (codes name)]);; exit_with 1
  else denote (say "%s passed." [AStr (codes name)]).

Definition main (sched : list bool) : M iworld Z :=
  r ← denote testInitPool; report "testInitPool" (Some r);;
  r ← test1 sched; report "test1" r;;
  r ← test2; report "test2" (Some r);;
  r ← denote testFreePool; report "testFreePool" (Some r);;
  mret 0.
End code.
End Pool.

(** ** Chunks: a reference decoder *)

Definition hex_value (c : Z) : option Z :=
  if (48 <=? c) && (c <=? 57) then Some (c - 48) else if (97 <=? c) && (c <=? 102) then Some (c - 87) else None.

Fixpoint read_hex (acc : Z) (l : list Z) : Z * list Z :=
  match l with
  | [] => (acc, [])
  | c :: l' => match hex_value c with Some v => read_hex (acc * 16 + v) l' | None => (acc, l) end
  end.

(** The data of the first chunk of a stream, and the rest. *)
Definition unchunk (l : list Z) : option (list Z * list Z) :=
  let '(n, l) := read_hex 0 l in
  match l with
  | 13 :: 10 :: l =>
      match drop (Z.to_nat n) l with
      | 13 :: 10 :: rest => if Z.of_nat (length l) <? n then None else Some (take (Z.to_nat n) l, rest)
      | _ => None
      end
  | _ => None
  end.

Lemma hex_digit_value n : 0 ≤ n < 16 → hex_value (hex_digit n) = Some n.
Proof.
  intros Hn. unfold hex_value, hex_digit. destruct (Z.ltb_spec n 10).
  - replace ((48 <=? 48 + n) && (48 + n <=? 57)) with true by lia. f_equal. lia.
  - replace ((48 <=? 87 + n) && (87 + n <=? 57)) with false by lia. replace ((97 <=? 87 + n) && (87 + n <=? 102)) with true by lia. f_equal. lia.
Qed.

Lemma read_hex_fuel fuel acc n l : 0 ≤ n < 16 ^ Z.of_nat fuel →
  read_hex acc (hex_fuel fuel n ++ l) = read_hex (acc * 16 ^ Z.of_nat (length (hex_fuel fuel n)) + n) l.
Proof.
  revert acc n l. induction fuel as [|fuel IH]; intros acc n l Hn; [cbn in Hn; cbn; f_equal; lia|].
  rewrite Nat2Z.inj_succ, Z.pow_succ_r in Hn by lia. cbn [hex_fuel]. destruct (Z.ltb_spec n 16).
  - cbn [app read_hex length]. rewrite hex_digit_value by lia. f_equal; lia.
  - assert (0 ≤ n / 16 < 16 ^ Z.of_nat fuel) by (split; [apply Z.div_pos|apply Z.div_lt_upper_bound]; lia).
    pose proof (Z.mod_pos_bound n 16). rewrite <- app_assoc, IH by done. cbn [app read_hex]. rewrite hex_digit_value by lia.
    rewrite length_app. cbn [length]. rewrite Nat2Z.inj_add, Z.pow_add_r by lia. change (16 ^ Z.of_nat 1) with 16. f_equal.
    pose proof (Z.div_mod n 16). lia.
Qed.

Lemma hex_length k fuel n : 0 ≤ n < 16 ^ Z.of_nat (S k) → (length (hex_fuel fuel n) ≤ S k)%nat.
Proof.
  revert fuel n. induction k as [|k IH]; intros fuel n Hn; (destruct fuel as [|fuel]; [cbn; lia|]); cbn [hex_fuel].
  - destruct (Z.ltb_spec n 16); [done|]. cbn in Hn. lia.
  - destruct (Z.ltb_spec n 16); [cbn; lia|]. rewrite length_app. cbn [length].
    assert (length (hex_fuel fuel (n / 16)) ≤ S k)%nat; [|lia]. apply IH.
    rewrite Nat2Z.inj_succ, Z.pow_succ_r in Hn by lia. split; [apply Z.div_pos; lia|]. apply Z.div_lt_upper_bound; lia.
Qed.

(** What [unchunk] reads back. *)
Lemma unchunk_chunk data rest : Z.of_nat (length data) ≤ 65535 →
  unchunk (hex (Z.of_nat (length data)) ++ codes crlf ++ data ++ codes crlf ++ rest) = Some (data, rest).
Proof.
  intros Hl. unfold unchunk, hex. rewrite read_hex_fuel by (change (16 ^ Z.of_nat 8) with 4294967296; lia). change (codes crlf) with [13; 10]. cbn [app read_hex].
  change (hex_value 13) with (@None Z). cbn iota. rewrite Z.mul_0_l, Z.add_0_l, Nat2Z.id, drop_app_length, take_app_length. cbn iota. rewrite length_app. cbn [length].
  by replace (Z.of_nat (length data + S (S (length rest))) <? Z.of_nat (length data)) with false by lia.
Qed.

Lemma write_at_prefix b pre bytes : (length pre + length bytes ≤ length b)%nat → take (length pre) b = pre →
  ∃ b', write_at b (Z.of_nat (length pre)) bytes = Some b' ∧ length b' = length b ∧ take (length (pre ++ bytes)) b' = pre ++ bytes.
Proof.
  intros Hl Hp. unfold write_at. replace ((0 <=? Z.of_nat (length pre)) && _) with true by lia. eexists. split; [done|]. rewrite Nat2Z.id, Hp. split.
  - rewrite !length_app, length_drop. lia.
  - rewrite app_assoc, take_app_length. done.
Qed.

Lemma take_prefix {A} (l p q : list A) : take (length (p ++ q)) l = p ++ q → take (length p) l = p.
Proof. intros H. apply (f_equal (take (length p))) in H. rewrite take_take, take_app_length, Nat.min_l in H; [done|]. rewrite length_app. lia. Qed.

(** ** Rules *)

(** What the theorems on the programs assume of the library and the system: new blocks and
    contexts are at new addresses, there is memory and threads can be created. *)
Class ICAP_OK (lib : ICAP) := {
  icap_fresh : ∀ tr used c, i_ptr (icap_answer tr used c) ∉ used;
  icap_mem : ∀ tr used size, i_ptr (icap_answer tr used (calloc size)) ≠ NULL;
  icap_thread : ∀ tr used, i_ret (icap_answer tr used pthread_create) = 0 }.

Lemma denote_bind {lib : ICAP} {A B} (p : prog A) (f : A → prog B) w : denote (p ≫= f) w = (denote p ≫= λ a, denote (f a)) w.
Proof.
  revert w. induction p as [a| |n|c k IH]; intros w; [done..|]. change (denote (Call c k ≫= f)) with (r ← icall_ c; denote (k r ≫= f)).
  unfold mbind, M_bind in *. cbn [denote]. unfold mbind, M_bind. destruct (icall_ c w) as [a w'| | |]; [apply IH|done..].
Qed.

(** The effect of a call on the objects; [None] is a free of a block that is not there. *)
Definition effect (c : icall) (a : ianswer) (w : iworld) : option iworld :=
  let tr := (c, a) :: i_trace w in
  match c with
  | icapConnect _ _ => Some (mk_iw tr (if 0 <=? i_ret a then {[i_ptr a]} ∪ i_contexts w else i_contexts w) (i_mem w))
  | icapDisconnect ctx => Some (mk_iw tr (if 0 <=? i_ret a then i_contexts w ∖ {[ctx]} else i_contexts w) (i_mem w))
  | calloc _ | strdup _ => Some (mk_iw tr (i_contexts w) (if i_ptr a =? NULL then i_mem w else {[i_ptr a]} ∪ i_mem w))
  | free p => if bool_decide (p ∈ i_mem w) then Some (mk_iw tr (i_contexts w) (i_mem w ∖ {[p]})) else None
  | _ => Some (mk_iw tr (i_contexts w) (i_mem w))
  end.

Lemma effect_trace c a w w' : effect c a w = Some w' → i_trace w' = (c, a) :: i_trace w.
Proof. destruct c; cbn; repeat case_bool_decide; by intros [= <-]. Qed.

Lemma icall_run {lib : ICAP} c w : uses c = NULL ∨ uses c ∈ i_contexts w →
  icall_ c w = let a := icap_answer (i_trace w) (i_contexts w ∪ i_mem w) c in match effect c a w with Some w' => Ok a w' | None => Undef end.
Proof.
  intros Hu. destruct w as [tr cs m]. unfold icall_, mbind, M_bind, get_st. rewrite bool_decide_eq_true_2 by done.
  destruct c; cbn -[NULL]; try done; try (by destruct (_ <=? _)); try (by destruct (_ =? _)). by destruct (bool_decide _).
Qed.

Lemma expect_bind {A B} (a : A) (f : A → prog B) : expect_ (Some a) ≫= f = f a.
Proof. done. Qed.

(** The block of a chunk. *)
Lemma form_chunk data : let len := Z.of_nat (length data) in 1 ≤ len ≤ 65535 →
  ∃ b n k, formChunkedData (Some data) len true = Call (calloc (4 + 2 + len + 2 + 4)) k ∧ (∀ a, i_ptr a ≠ NULL → k a = Ret (0, Some (i_ptr a, b, n))) ∧
    0 ≤ n < Z.of_nat (length b) ∧ b !! Z.to_nat n = Some 0 ∧ take (Z.to_nat n) b = hex len ++ codes crlf ++ data ++ codes crlf.
Proof.
  intros len Hlen. set (head := hex len ++ codes crlf). assert (length head ≤ 6)%nat as Hhead.
  { unfold head, hex. rewrite length_app. assert (0 ≤ len < 16 ^ Z.of_nat 4) as Hr by (change (16 ^ Z.of_nat 4) with 65536; lia).
    pose proof (hex_length 3 8 len Hr). change (length (codes crlf)) with 2%nat. lia. }
  set (b0 := replicate (Z.to_nat (4 + 2 + len + 2 + 4)) 0). assert (length b0 = (length data + 12)%nat) as Hb0 by (unfold b0; rewrite length_replicate; lia).
  destruct (write_at_prefix b0 [] (head ++ [0])) as (b1 & Hw1 & Hl1 & Hp1); [rewrite length_app; cbn [length]; lia|done|].
  cbn [app] in Hp1. apply take_prefix in Hp1. change (Z.of_nat (length (@nil Z))) with 0 in Hw1.
  destruct (write_at_prefix b1 head data) as (b2 & Hw2 & Hl2 & Hp2); [lia|done|].
  destruct (write_at_prefix b2 (head ++ data) (codes crlf ++ [0])) as (b3 & Hw3 & Hl3 & Hp3); [rewrite !length_app; change (length (codes crlf)) with 2%nat; cbn [length]; lia|done|].
  set (n := Z.of_nat (length (head ++ data)) + Z.of_nat (length (codes crlf))). assert (Z.to_nat n = length ((head ++ data) ++ codes crlf)) as Hn.
  { unfold n. rewrite (length_app (head ++ data)). lia. }
  rewrite app_assoc in Hp3. pose proof (take_prefix _ _ _ Hp3) as Hp4.
  unfold formChunkedData. cbn [negb]. rewrite (proj2 (Z.ltb_ge 65535 len)), (proj2 (Z.ltb_ge len 1)) by lia.
  exists b3, n. eexists. split; [reflexivity|]. rewrite Hn, Hp4. split; [|split; [|split]].
  - intros a Ha. cbn [mbind iprog_bind]. rewrite (proj2 (Z.eqb_neq _ _) Ha). fold head b0. rewrite Hw1, expect_bind.
    rewrite (proj2 (Z.ltb_ge _ _)), (take_ge data (Z.to_nat len)), Hw2, expect_bind by lia.
    replace (Z.of_nat (length head) + len) with (Z.of_nat (length (head ++ data))) by (rewrite length_app; lia). by rewrite Hw3, expect_bind.
  - rewrite Hl3, Hl2, Hl1, Hb0. unfold n. rewrite length_app. change (length (codes crlf)) with 2%nat. lia.
  - assert (take (length (((head ++ data) ++ codes crlf) ++ [0])) b3 !! length ((head ++ data) ++ codes crlf) = Some 0) as Hl.
    { rewrite Hp3, lookup_app_r, Nat.sub_diag by lia. done. }
    rewrite lookup_take_lt in Hl by (rewrite (length_app _ [0]); cbn [length]; lia). done.
  - unfold head. by rewrite <- !app_assoc.
Qed.

(** C37: a chunk makes the round trip: for any data of 1 to 65535 bytes the block of the chunk is
    large enough, and what is stored in it is read back by a decoder, whatever follows it; the
    byte after it ends the string.  No data gives the last chunk, and more data than the format
    of the size allows is refused. *)
Theorem chunk_roundtrip {lib : ICAP} (data : list Z) w0 :
  (∀ tr used size, i_ptr (icap_answer tr used (calloc size)) ≠ NULL) →
  let len := Z.of_nat (length data) in
  if 65535 <? len then denote (formChunkedData (Some data) len true) w0 = Ok (ICAP_PROTO_ERR_CHUNK_SIZE_EXCEEDED, None) w0
  else wp (denote (formChunkedData (Some data) len true)) (λ '(ret, out) _, ret = 0 ∧ ∃ p b chunkLen, out = Some (p, b, chunkLen) ∧
    0 ≤ chunkLen < Z.of_nat (length b) ∧ b !! Z.to_nat chunkLen = Some 0 ∧
    ∀ rest, unchunk (take (Z.to_nat chunkLen) b ++ rest) = Some (data, rest)) w0.
Proof.
  intros Hmem len. destruct (Z.ltb_spec 65535 len) as [Hbig|Hle]; [unfold formChunkedData; cbn [negb]; by rewrite (proj2 (Z.ltb_lt _ _) Hbig)|].
  destruct (Z.ltb_spec len 1) as [Hz|Hpos].
  { destruct data as [|x data]; [|cbn in len; lia]. unfold wp, formChunkedData. change (65535 <? len) with false. change (len <? 1) with true. cbn [negb].
    rewrite denote_bind. unfold mbind, M_bind. cbn [denote call].
    unfold mbind, M_bind. rewrite icall_run by (by left). cbn -[ICAP_CHUNK_END]. split; [done|]. eexists _, _, _. split; [done|]. by repeat split. }
  destruct (form_chunk data) as (b & n & k & Hform & Hk & Hn & Hb & Ht); [lia|]. fold len in Hform. unfold wp. rewrite Hform. cbn [denote]. unfold mbind, M_bind. rewrite icall_run by (by left).
  cbn [effect]. cbv zeta. rewrite Hk by apply Hmem. split; [done|]. eexists _, _, _. split; [done|]. split; [done|]. split; [done|].
  intros rest. rewrite Ht, <- !app_assoc. apply unchunk_chunk. lia.
Qed.

(** The chunks that the programs send are well formed. *)
Example bodies_decode : unchunk httpResponseBody1 = Some (codes "Some Content1", []) ∧ unchunk httpResponseBody2 = Some (codes "Some Content2", []) ∧
  unchunk httpResponseBody3 = Some ([], []) ∧ unchunk httpRequestBody = Some (codes "Hi There !!!", ICAP_CHUNK_END).
Proof. by vm_compute. Qed.

(** ** Histories *)

(** The requests that were sent, newest first. *)
Definition is_send (c : icall) : bool :=
  match c with icapSendOptionsRequest _ _ | icapSendHeaders _ _ _ _ _ _ _ | icapSendData _ _ | icapSendPreviewAndWait _ _ => true | _ => false end.

Definition sends (tr : list ievent) : list icall := omap (λ e, if is_send e.1 then Some e.1 else None) tr.

(** The result of the last [icapReceiveData]. *)
Fixpoint received (tr : list ievent) : option Z :=
  match tr with [] => None | (icapReceiveData _ _ _, a) :: _ => Some (i_ret a) | _ :: tr => received tr end.

(** ** The receiving thread

    [owns ctx F r H p]: a thread that owns the blocks [H] and has received [r] so far uses only the
    context [ctx] and its own blocks, whatever the library answers, and ends with [F]. *)
Fixpoint owns {A} (ctx : Z) (F : A → option Z → gset Z → Prop) (r : option Z) (H : gset Z) (p : prog A) : Prop :=
  match p with
  | Ret a => F a r H
  | Stuck | Quit _ => False
  | Call c k =>
      match c with
      | calloc _ => ∀ a, i_ptr a ≠ NULL → i_ptr a ∉ H → owns ctx F r ({[i_ptr a]} ∪ H) (k a)
      | free q => q ∈ H ∧ ∀ a, owns ctx F r (H ∖ {[q]}) (k a)
      | icapReceiveData x _ _ => x = ctx ∧ ∀ a, owns ctx F (Some (i_ret a)) H (k a)
      | printf _ _ | icapGetErrorString _ => ∀ a, owns ctx F r H (k a)
      | _ => False
      end
  end.

Lemma owns_bind {A B} ctx (F : B → option Z → gset Z → Prop) r H (p : prog A) (f : A → prog B) :
  owns ctx (λ a r H, owns ctx F r H (f a)) r H p → owns ctx F r H (p ≫= f).
Proof.
  revert r H. induction p as [a| |n|c k IH]; intros r H; [done..|]. change (Call c k ≫= f) with (Call c (λ a, k a ≫= f)).
  destruct c; cbn; try done; try (intros Hp a; apply IH, Hp); try (intros [Hq Hp]; split; [done|]; intros a; apply IH, Hp).
  intros Hp a Hn Hf. by apply IH, Hp.
Qed.

Lemma owns_mono {A} ctx (F G : A → option Z → gset Z → Prop) r H (p : prog A) : (∀ a r H, F a r H → G a r H) → owns ctx F r H p → owns ctx G r H p.
Proof.
  intros HFG. revert r H. induction p as [a| |n|c k IH]; intros r H; [apply HFG|done..|].
  destruct c; cbn; try done; try (intros Hp a; apply IH, Hp); try (intros [Hq Hp]; split; [done|]; intros a; apply IH, Hp).
  intros Hp a Hn Hf. by apply IH, Hp.
Qed.

(** The callback gives back its copy. *)
Lemma handle_owns ctx (d : option (list Z)) r H : owns ctx (λ ret r' H', ret = (match d with Some _ => 0 | None => 1 end) ∧ r' = r ∧ H' = H) r H (handleIcapData d).
Proof.
  destruct d as [d|]; cbn; [|by intros a]. intros a Hn Hf. rewrite (proj2 (Z.eqb_neq _ _) Hn). intros _. split; [set_solver|]. intros _.
  split; [done|]. split; [done|]. set_solver.
Qed.

Lemma callbacks_owns ctx pieces r H : owns ctx (λ _ r' H', r' = r ∧ H' = H) r H (callbacks pieces).
Proof.
  induction pieces as [|d pieces IH]; [done|]. cbn [callbacks]. apply owns_bind. eapply owns_mono; [|apply handle_owns]. by intros ret r' H' (_ & -> & ->).
Qed.

(** What is left at the end: the data of the thread when the library reported an error. *)
Definition left_over (t : Z) (r : option Z) : gset Z := match r with Some n => if n <? 0 then {[t]} else ∅ | None => {[t]} end.

Lemma receive_owns ctx cb r H : owns ctx (λ a r' H', r' = Some (i_ret a) ∧ H' = H) r H (icap_receive ctx cb 0).
Proof.
  unfold icap_receive. apply owns_bind. split; [done|]. intros a. apply owns_bind. destruct cb; [|done]. cbn [owns].
  eapply owns_mono; [|apply callbacks_owns]. by intros [] r' H' [-> ->].
Qed.

Lemma receiver_owns cb ctx t r0 : owns ctx (λ _ r H, H = left_over t r) r0 {[t]} (receiver cb ctx t).
Proof.
  unfold receiver. apply owns_bind. eapply owns_mono; [|apply receive_owns]. intros a r H [-> ->]. cbn beta. unfold left_over.
  destruct (i_ret a <? 0) eqn:E; [intros ??; cbn; by rewrite E|]. apply owns_bind. destruct cb; cbn; intros; (split; [set_solver|]); intros; rewrite E; set_solver.
Qed.

Lemma old_receiver_owns ctx t r0 : owns ctx (λ _ r H, H = left_over t r) r0 {[t]} (old_receiver ctx t).
Proof.
  unfold old_receiver. apply owns_bind. eapply owns_mono; [|apply receive_owns]. intros a r H [-> ->]. cbn beta. unfold left_over.
  destruct (i_ret a <? 0) eqn:E; [intros ??; cbn; by rewrite E|]. cbn. intros _. split; [set_solver|]. intros _. rewrite E. set_solver.
Qed.

(** ** The main thread

    [sender ctx ms p]: it sends the requests [ms] in order over [ctx], unless it exits with 1. *)
Fixpoint sender {A} (ctx : Z) (ms : list icall) (p : prog A) : Prop :=
  match p with
  | Ret a => ms = []
  | Stuck => False
  | Quit n => n = 1
  | Call c k =>
      match c with
      | printf _ _ | icapGetErrorString _ | sleep _ => ∀ a, sender ctx ms (k a)
      | _ => is_send c = true ∧ uses c = ctx ∧ match ms with c' :: ms' => c' = c ∧ ∀ a, sender ctx ms' (k a) | [] => False end
      end
  end.

Lemma sender_bind {A B} ctx ms ms' (p : prog A) (f : A → prog B) : sender ctx ms p → (∀ a, sender ctx ms' (f a)) → sender ctx (ms ++ ms') (p ≫= f).
Proof.
  revert ms. induction p as [a| |n|c k IH]; intros ms Hp Hf; [cbn in Hp; subst; apply Hf|done..|]. change (Call c k ≫= f) with (Call c (λ a, k a ≫= f)).
  destruct c; cbn in *; try (intros a; by apply IH); try (by destruct Hp as [? _]).
  all: destruct Hp as (_ & Hu & Hp); (split; [done|]); (split; [done|]).
  all: destruct ms as [|c' ms]; [done|]; destruct Hp as [-> Hp]; (split; [done|]); intros a; by apply IH.
Qed.

(** Any first part of the requests. *)
Lemma must_sender ctx c fmt : is_send c = true → uses c = ctx → sender ctx [c] (must c fmt).
Proof. intros Hs Hu. destruct c; try done; (split; [done|]); (split; [done|]); (split; [done|]); intros a; cbn; by destruct (i_ret a <? 0). Qed.

Lemma must_say_sender ctx c sent fmt : is_send c = true → uses c = ctx → sender ctx [c] (must_say c sent fmt).
Proof. intros Hs Hu. destruct c; try done; (split; [done|]); (split; [done|]); (split; [done|]); intros a; cbn; intros _; by destruct (i_ret a <? 0). Qed.

Lemma say_sender ctx fmt args : sender ctx [] (say fmt args).
Proof. by intros a. Qed.

Lemma chunks_sender ctx fmt last : sender ctx [icapSendData ctx httpResponseBody1; icapSendData ctx httpResponseBody2; icapSendData ctx httpResponseBody3] (send_chunks ctx fmt last).
Proof.
  unfold send_chunks.
  apply (sender_bind ctx []); [done|]. intros _. apply (sender_bind ctx [_]); [by apply must_say_sender|]. intros _.
  apply (sender_bind ctx []); [done|]. intros _. apply (sender_bind ctx [_]); [by apply must_say_sender|]. intros _.
  apply (sender_bind ctx []); [done|]. intros _. by apply must_say_sender.
Qed.

Section run.
Context {lib : ICAP} {OK : ICAP_OK lib}.
Implicit Types (tr : list ievent) (cs m H : gset Z) (ms : list icall).

(** A first part of the requests has been sent when the program exits. *)
Definition exits (S0 : list icall) ms (code : Z) (w : iworld) : Prop := code = 1 ∧ ∃ k, sends (i_trace w) = reverse (take k ms) ++ S0.

Lemma sender_call {A} ctx ms c (k : ianswer → prog A) tr cs m : ctx ∈ cs → sender ctx ms (Call c k) →
  ∃ a tr' ms1 ms2, icall_ c (mk_iw tr cs m) = Ok a (mk_iw tr' cs m) ∧ ms = ms1 ++ ms2 ∧ sends tr' = reverse ms1 ++ sends tr ∧
    received tr' = received tr ∧ sender ctx ms2 (k a).
Proof using Type.
  clear OK. intros Hctx Hp. assert (uses c = NULL ∨ uses c ∈ i_contexts (mk_iw tr cs m)) as Hu.
  { destruct c; cbn in *; auto; destruct Hp as (_ & <- & _); auto. }
  rewrite icall_run by done. cbv zeta. set (a := icap_answer _ _ c). clearbody a.
  destruct c; cbn [sender] in Hp; try (by destruct Hp as [? _]).
  all: try (eexists a, _, [], ms; split; [done|]; split; [done|]; split; [done|]; split; [done|]; exact (Hp a)).
  all: destruct Hp as (_ & _ & Hp), ms as [|c' ms]; [done|]; destruct Hp as [-> Hp]; eexists a, _, [_], ms; split; [done|]; split; [done|]; split; [done|]; split; [done|]; exact (Hp a).
Qed.

Lemma sender_denote {A} ctx ms (p : prog A) tr cs m : ctx ∈ cs → sender ctx ms p →
  ends (denote p) (λ _ w, ∃ tr', w = mk_iw tr' cs m ∧ sends tr' = reverse ms ++ sends tr ∧ received tr' = received tr) (exits (sends tr) ms) (mk_iw tr cs m).
Proof using Type.
  clear OK. intros Hctx. revert ms tr. induction p as [a| |n|c k IH]; intros ms tr Hp.
  - cbn in Hp. subst. by exists tr.
  - done.
  - cbn in Hp. subst. split; [done|]. by exists 0%nat.
  - destruct (sender_call _ _ _ _ tr cs m Hctx Hp) as (a & tr' & ms1 & ms2 & Hc & -> & Hs & Hr & Hk). cbn [denote].
    unfold ends, mbind, M_bind. rewrite Hc. specialize (IH a ms2 tr' Hk). unfold ends in IH.
    destruct (denote (k a) _) as [x w| |code w|]; try done.
    + destruct IH as (tr2 & -> & Hs2 & Hr2). exists tr2. split; [done|]. split; [|congruence]. by rewrite Hs2, Hs, reverse_app, app_assoc.
    + destruct IH as (-> & j & Hj). split; [done|]. exists (length ms1 + j)%nat. by rewrite Hj, Hs, take_app_add, reverse_app, app_assoc.
Qed.

Lemma owns_call {A} ctx (F : A → option Z → gset Z → Prop) r H c k tr cs m : ctx ∈ cs → received tr = r → m ## H → owns ctx F r H (Call c k) →
  ∃ a tr' r' H', icall_ c (mk_iw tr cs (m ∪ H)) = Ok a (mk_iw tr' cs (m ∪ H')) ∧ received tr' = r' ∧ m ## H' ∧ sends tr' = sends tr ∧ owns ctx F r' H' (k a).
Proof.
  intros Hctx Hr Hd Hp. assert (uses c = NULL ∨ uses c ∈ i_contexts (mk_iw tr cs (m ∪ H))) as Hu.
  { destruct c; cbn in *; auto; try done. destruct Hp as [-> _]. auto. }
  rewrite icall_run by done. cbv zeta. pose proof (icap_fresh tr (cs ∪ (m ∪ H)) c) as Hf. cbn [i_trace i_contexts i_mem].
  destruct c; cbn [owns] in Hp; try done.
  - destruct Hp as [-> Hp]. eexists _, _, _, H. split; [done|]. split; [done|]. split; [done|]. split; [done|]. apply Hp.
  - eexists _, _, r, H. split; [done|]. split; [done|]. split; [done|]. split; [done|]. apply Hp.
  - pose proof (icap_mem tr (cs ∪ (m ∪ H)) size) as Hn. set (a := icap_answer _ _ _) in *. cbn [effect i_trace i_contexts i_mem].
    rewrite (proj2 (Z.eqb_neq _ _) Hn). eexists a, _, r, ({[i_ptr a]} ∪ H).
    split; [do 2 f_equal; set_solver|]. split; [done|]. split; [set_solver|]. split; [done|]. apply Hp; [done|set_solver].
  - destruct Hp as [Hq Hp]. cbn [effect i_trace i_contexts i_mem]. rewrite bool_decide_eq_true_2 by set_solver. eexists _, _, r, (H ∖ {[p]}).
    split; [do 2 f_equal; set_solver|]. split; [done|]. split; [set_solver|]. split; [done|]. apply Hp.
  - eexists _, _, r, H. split; [done|]. split; [done|]. split; [done|]. split; [done|]. apply Hp.
Qed.

Lemma owns_denote {A} ctx (F : A → option Z → gset Z → Prop) r H (p : prog A) tr cs m E : ctx ∈ cs → received tr = r → m ## H → owns ctx F r H p →
  ends (denote p) (λ a w, ∃ tr' r' H', w = mk_iw tr' cs (m ∪ H') ∧ received tr' = r' ∧ m ## H' ∧ sends tr' = sends tr ∧ F a r' H') E (mk_iw tr cs (m ∪ H)).
Proof.
  intros Hctx. revert r H tr. induction p as [a| |n|c k IH]; intros r H tr Hr Hd Hp; [|done..|].
  - by exists tr, r, H.
  - destruct (owns_call _ _ _ _ _ _ tr cs m Hctx Hr Hd Hp) as (a & tr' & r' & H' & Hc & Hr' & Hd' & Hs & Hk). cbn [denote].
    unfold ends, mbind, M_bind. rewrite Hc. specialize (IH a r' H' tr' Hr' Hd' Hk). unfold ends in IH.
    destruct (denote (k a) _) as [x w| |code w|]; try done. destruct IH as (tr2 & r2 & H2 & -> & ? & ? & Hs2 & ?). exists tr2, r2, H2. by rewrite Hs2, Hs.
Qed.

(** Both threads, in any order. *)
Lemma par_ends ctx (F : unit → option Z → gset Z → Prop) ms sched r H p q tr cs m : ctx ∈ cs → received tr = r → m ## H → owns ctx F r H p → sender ctx ms q →
  ends (par sched p q) (λ _ w, ∃ tr' r' H', w = mk_iw tr' cs (m ∪ H') ∧ received tr' = r' ∧ m ## H' ∧ sends tr' = reverse ms ++ sends tr ∧ F tt r' H')
    (exits (sends tr) ms) (mk_iw tr cs (m ∪ H)).
Proof.
  intros Hctx. revert r H p q ms tr. induction sched as [|b sched IH]; intros r H p q ms tr Hr Hd Hp Hq; cbn [par].
  - apply ends_bind. eapply ends_mono; [by eapply sender_denote|]. intros [] w (tr' & -> & Hs & Hr').
    eapply ends_mono; [eapply owns_denote; [done|by rewrite Hr'|done|done]|]. intros [] w (tr2 & r2 & H2 & -> & ? & ? & Hs2 & ?).
    exists tr2, r2, H2. by rewrite Hs2, Hs.
  - destruct b; apply ends_bind.
    + destruct p as [[]| |n|c k]; [by apply IH with r|done|done|]. cbn [step].
      destruct (owns_call _ _ _ _ _ _ tr cs m Hctx Hr Hd Hp) as (a & tr' & r' & H' & Hc & Hr' & Hd' & Hs & Hk).
      unfold ends at 1, mbind, M_bind. rewrite Hc. rewrite <- Hs. by apply IH with r'.
    + destruct q as [[]| |n|c k]; [by apply IH with r|done| |].
      { cbn in Hq. subst. split; [done|]. by exists 0%nat. }
      cbn [step]. destruct (sender_call _ _ _ _ tr cs (m ∪ H) Hctx Hq) as (a & tr' & ms1 & ms2 & Hc & -> & Hs & Hr' & Hk).
      unfold ends at 1, mbind, M_bind. rewrite Hc. cbn. assert (received tr' = r) as Hr2 by congruence.
      pose proof (IH r H p (k a) ms2 tr' Hr2 Hd Hp Hk) as Hgo. unfold ends in *.
      destruct (par sched p (k a) _) as [x w| |code w|]; try done.
      * destruct Hgo as (tr2 & r2 & H2 & -> & ? & ? & Hs2 & ?). exists tr2, r2, H2. split; [done|]. split; [done|]. split; [done|]. split; [|done].
        by rewrite Hs2, Hs, reverse_app, app_assoc.
      * destruct Hgo as (-> & j & Hj). split; [done|]. exists (length ms1 + j)%nat. by rewrite Hj, Hs, take_app_add, reverse_app, app_assoc.
Qed.

Lemma receive_while_ends sched thread ctx ms q tr cs m : ctx ∈ cs → (∀ t r0, owns ctx (λ _ r H, H = left_over t r) r0 {[t]} (thread ctx t)) → sender ctx ms q →
  ends (receive_while sched thread ctx q) (λ _ w, ∃ tr' t, w = mk_iw tr' cs (m ∪ left_over t (received tr')) ∧ (t ∉ m) ∧ sends tr' = reverse ms ++ sends tr)
    (exits (sends tr) ms) (mk_iw tr cs m).
Proof.
  intros Hctx Ht Hq. unfold receive_while. unfold ends, mbind, M_bind. rewrite icall_run by (by left). cbv zeta.
  pose proof (icap_mem tr (cs ∪ m) 16) as Hn. pose proof (icap_fresh tr (cs ∪ m) (calloc 16)) as Hf. cbn [i_trace i_contexts i_mem]. set (t := icap_answer tr _ _) in *. clearbody t.
  cbn [effect i_trace i_contexts i_mem]. rewrite (proj2 (Z.eqb_neq _ _) Hn). rewrite icall_run by (by left). cbv zeta. cbn [effect i_trace i_contexts i_mem].
  rewrite icap_thread. cbn [Z.eqb]. set (a2 := icap_answer _ _ pthread_create). clearbody a2. set (tr1 := (pthread_create, a2) :: (calloc 16, t) :: tr).
  replace ({[i_ptr t]} ∪ m) with (m ∪ {[i_ptr t]}) by set_solver.
  pose proof (par_ends ctx (λ _ r H, H = left_over (i_ptr t) r) ms sched (received tr) {[i_ptr t]} _ q tr1 cs m Hctx eq_refl ltac:(set_solver) (Ht _ _) Hq) as Hgo.
  change (sends tr1) with (sends tr) in Hgo. unfold ends in Hgo. destruct (par _ _ _ _) as [x w| |code w|]; try done.
  destruct Hgo as (tr' & r' & H' & -> & Hr & Hd & Hs & ->). exists tr', (i_ptr t). rewrite Hr. split; [done|]. split; [set_solver|done].
Qed.

(** A call whose failure ends the program. *)
Lemma must_ends c fmt tr cs m (Q : ianswer → iworld → Prop) E : uses c = NULL ∨ uses c ∈ cs → is_send c = false →
  (∀ w, effect c (icap_answer tr (cs ∪ m) c) (mk_iw tr cs m) = Some w → 0 ≤ i_ret (icap_answer tr (cs ∪ m) c) → Q (icap_answer tr (cs ∪ m) c) w) →
  (∀ w, sends (i_trace w) = sends tr → E 1 w) → effect c (icap_answer tr (cs ∪ m) c) (mk_iw tr cs m) ≠ None →
  ends (denote (must c fmt)) Q E (mk_iw tr cs m).
Proof using Type.
  clear OK. intros Hu Hs HQ HE Hne. unfold must. unfold ends. rewrite denote_bind. unfold mbind, M_bind. cbn [denote call]. unfold mbind, M_bind.
  rewrite icall_run by done. cbv zeta. cbn [i_trace i_contexts i_mem]. set (a := icap_answer tr (cs ∪ m) c) in *. clearbody a.
  destruct (effect c a _) as [w|] eqn:Eff; [|done]. unfold mret, M_ret. cbn beta iota. destruct (Z.ltb_spec (i_ret a) 0); [|by apply HQ].
  assert (sends (i_trace w) = sends tr) as Hw.
  { rewrite (effect_trace _ _ _ _ Eff). unfold sends. cbn. by rewrite Hs. }
  cbn. unfold icall_, mbind, M_bind, get_st. cbn. by apply HE.
Qed.

Lemma start_ends pool ip fmt tr cs m :
  ends (denote (start pool ip fmt)) (λ ctx w, ∃ tr', w = mk_iw tr' ({[ctx]} ∪ cs) m ∧ (ctx ∉ cs) ∧ sends tr' = sends tr) (λ code w, code = 1 ∧ sends (i_trace w) = sends tr) (mk_iw tr cs m).
Proof.
  unfold start, ends. rewrite denote_bind. apply ends_bind. eapply must_ends; [by left|done| |done|done]. intros w [= <-] _. unfold ends. rewrite denote_bind. apply ends_bind.
  cbn [i_trace i_contexts i_mem]. match goal with |- ends _ _ _ (mk_iw ?t _ _) => pose proof (icap_fresh t (cs ∪ m) (icapConnect ip 1344)) as Hf end.
  eapply must_ends; [by left|done| |by split|done]. cbn [effect i_trace i_contexts i_mem]. intros w [= <-] Hret. rewrite (proj2 (Z.leb_le _ _) Hret).
  eexists. split; [done|]. split; [set_solver|done].
Qed.
(** Whether the last [icapDisconnect] succeeded. *)
Fixpoint hung_up (tr : list ievent) : bool :=
  match tr with [] => false | (icapDisconnect _, a) :: _ => 0 <=? i_ret a | _ :: tr => hung_up tr end.

Lemma finish_ends ctx tr cs m : ctx ∈ cs →
  ends (denote (finish ctx)) (λ ret w, ret = 0 ∧ ∃ tr', w = mk_iw tr' (if hung_up tr' then cs ∖ {[ctx]} else cs) m ∧ sends tr' = sends tr ∧ received tr' = received tr)
    (λ code w, code = 1 ∧ sends (i_trace w) = sends tr) (mk_iw tr cs m).
Proof using Type.
  clear OK. intros Hctx. unfold finish, ends. rewrite denote_bind. apply ends_bind. unfold ends. cbn [denote call]. unfold mbind, M_bind.
  rewrite icall_run by (by right). cbv zeta. cbn [effect i_trace i_contexts i_mem]. set (a := icap_answer tr _ _). clearbody a. unfold mret, M_ret.
  set (cs' := if 0 <=? i_ret a then cs ∖ {[ctx]} else cs).
  assert (∀ tr1, sends tr1 = sends tr → received tr1 = received tr → hung_up tr1 = (0 <=? i_ret a) →
    ends (denote (must icapFreeContextPool "Error [%d] [%s]";; mret 0)) (λ ret w, ret = 0 ∧ ∃ tr', w = mk_iw tr' (if hung_up tr' then cs ∖ {[ctx]} else cs) m ∧
      sends tr' = sends tr ∧ received tr' = received tr) (λ code w, code = 1 ∧ sends (i_trace w) = sends tr) (mk_iw tr1 cs' m)) as Hgo.
  { intros tr1 Hs Hr Hh. unfold ends. rewrite denote_bind. apply ends_bind. eapply must_ends; [by left|done| |intros w Hw; split; [done|congruence]|done].
    intros w [= <-] _. split; [done|]. eexists ((icapFreeContextPool, _) :: tr1). split; [|by split]. cbn [hung_up i_trace i_contexts i_mem]. by rewrite Hh. }
  rewrite denote_bind. apply ends_bind. destruct (i_ret a <? 0); [|by apply Hgo].
  cbn. unfold icall_, mbind, M_bind, get_st. cbn. by apply Hgo.
Qed.

(** The chunk that is sent as preview. *)
Definition preview_chunk : list Z := hex 1024 ++ codes crlf ++ replicate (Z.to_nat 1024) 77 ++ codes crlf.

Lemma preview_owns ctx r : owns ctx (λ b r' H, b = preview_chunk ∧ r' = r ∧ size H = 2%nat) r ∅ Preview.make_preview.
Proof using Type.
  clear OK. unfold Preview.make_preview. apply owns_bind. cbn [owns call]. intros a1 Hn1 _. rewrite (proj2 (Z.eqb_neq _ _) Hn1). apply owns_bind.
  destruct (form_chunk (replicate (Z.to_nat Preview.previewSize) 77)) as (b & n & k & Hform & Hk & _ & _ & Ht); [by rewrite length_replicate|].
  rewrite length_replicate in Hform, Ht. change (Z.of_nat (Z.to_nat Preview.previewSize)) with Preview.previewSize in *. rewrite Hform. cbn [owns].
  intros a2 Hn2 Hd. rewrite Hk by done. cbn [owns]. change (0 <? 0) with false. cbn [owns expect_ mbind iprog_bind]. split; [exact Ht|]. split; [done|].
  rewrite size_union by set_solver. rewrite union_empty_r_L. by rewrite !size_singleton.
Qed.
End run.

(** ** The programs, what they send and how many blocks they never free *)

Definition icap_programs {lib : ICAP} : list ((list bool → M iworld Z) * (Z → list icall) * nat) :=
  let chunks ctx := [icapSendData ctx httpResponseBody1; icapSendData ctx httpResponseBody2; icapSendData ctx httpResponseBody3] in
  [(RespMod.main, λ ctx, icapSendHeaders ctx "/" "" ICAP_MOD_RESP (Some httpRequestHeaders_gzip) (Some resp_hdr) [1; 1; -1] :: chunks ctx, 0%nat);
   (My.main, λ ctx, [icapSendHeaders ctx "/" "" ICAP_MOD_REQ (Some httpRequestHeaders_gzip) None [0; 1; -1]], 0%nat);
   (OptionsReq.main, λ ctx, [icapSendOptionsRequest ctx "/RESPMOD"], 0%nat);
   (GetReqMod.main, λ ctx, [icapSendHeaders ctx "/echo" "" ICAP_MOD_REQ (Some httpRequestHeaders_get) None [0; 1]], 0%nat);
   (PostReqMod.main, λ ctx, [icapSendHeaders ctx "/echo" "" ICAP_MOD_REQ (Some httpRequestHeaders_post) None [1; 0]; icapSendData ctx httpRequestBody], 0%nat);
   (NullBody.main, λ ctx, [icapSendHeaders ctx "/echo" "" ICAP_MOD_RESP None (Some httpResponseHeaders) [0; 0]], 0%nat);
   (Preview.main, λ ctx, [icapSendHeaders ctx "/echo" "" ICAP_MOD_RESP (Some httpRequestHeaders_preview) (Some httpResponseHeaders) [1; 1; 1024];
      icapSendPreviewAndWait ctx preview_chunk] ++ chunks ctx, 2%nat)].

(** What a program leaves: the context, if hanging up failed, the data of the thread, if receiving
    failed, and [extra] blocks. *)
Definition accounted (w0 : iworld) (ctx : Z) (ms : list icall) (extra : nat) (w : iworld) : Prop :=
  ∃ t X, (ctx ∉ i_contexts w0) ∧ sends (i_trace w) = reverse ms ++ sends (i_trace w0) ∧
    i_contexts w = (if hung_up (i_trace w) then i_contexts w0 else {[ctx]} ∪ i_contexts w0) ∧
    size X = extra ∧ X ## i_mem w0 ∧ (t ∉ X ∪ i_mem w0) ∧ i_mem w = i_mem w0 ∪ X ∪ left_over t (received (i_trace w)).

Section programs.
Context {lib : ICAP} {OK : ICAP_OK lib}.
Implicit Types (tr : list ievent) (cs m X : gset Z) (ms : list icall).

(** The common end of the programs. *)
Lemma tail_ends sched thread ctx ms q w0 tr X pre : (ctx ∉ i_contexts w0) → X ## i_mem w0 → sends tr = reverse pre ++ sends (i_trace w0) →
  (∀ t r0, owns ctx (λ _ r H, H = left_over t r) r0 {[t]} (thread ctx t)) → sender ctx ms q →
  ends (receive_while sched thread ctx q;; denote (finish ctx)) (λ ret w, ret = 0 ∧ accounted w0 ctx (pre ++ ms) (size X) w)
    (exits (sends (i_trace w0)) (pre ++ ms)) (mk_iw tr ({[ctx]} ∪ i_contexts w0) (i_mem w0 ∪ X)).
Proof.
  intros Hctx HX Hpre Ht Hq. apply ends_bind.
  assert (∀ code w, exits (sends tr) ms code w → exits (sends (i_trace w0)) (pre ++ ms) code w) as Hex.
  { intros code w (-> & k & Hk). split; [done|]. exists (length pre + k)%nat. by rewrite Hk, Hpre, take_app_add, reverse_app, app_assoc. }
  assert (∀ (Q : unit → iworld → Prop) w, ends (receive_while sched thread ctx q) Q (exits (sends tr) ms) w → ends (receive_while sched thread ctx q) Q (exits (sends (i_trace w0)) (pre ++ ms)) w) as Hw.
  { intros Q w. unfold ends. destruct (receive_while _ _ _ _ w); auto. }
  eapply ends_mono; [apply Hw, receive_while_ends; [set_solver|done|done]|]. intros [] w (tr1 & t & -> & Htm & Hs).
  pose proof (finish_ends ctx tr1 ({[ctx]} ∪ i_contexts w0) (i_mem w0 ∪ X ∪ left_over t (received tr1)) ltac:(set_solver)) as Hfin.
  unfold ends in *. destruct (denote (finish ctx) _) as [ret w| |code w|]; try done.
  - destruct Hfin as (-> & tr2 & -> & Hs2 & Hr2). split; [done|]. exists t, X. cbn [i_trace i_contexts i_mem]. split; [done|].
    split; [by rewrite Hs2, Hs, Hpre, reverse_app, app_assoc|]. split; [destruct (hung_up tr2); set_solver|]. split; [done|]. split; [done|].
    split; [set_solver|]. by rewrite Hr2.
  - destruct Hfin as (-> & Hfin). apply Hex. split; [done|]. exists (length ms). by rewrite Hfin, Hs, firstn_all.
Qed.

(** Requests sent before the thread is created. *)
Lemma before_ends {A B} ctx ms ms' pre (p : prog A) (k : A → M iworld B) w0 tr cs m (Q : B → iworld → Prop) : ctx ∈ cs → sender ctx ms p →
  sends tr = reverse pre ++ sends (i_trace w0) →
  (∀ a tr', sends tr' = reverse (pre ++ ms) ++ sends (i_trace w0) → ends (k a) Q (exits (sends (i_trace w0)) (pre ++ ms ++ ms')) (mk_iw tr' cs m)) →
  ends (denote p ≫= k) Q (exits (sends (i_trace w0)) (pre ++ ms ++ ms')) (mk_iw tr cs m).
Proof using Type.
  clear OK. intros Hctx Hp Hpre HQ. apply ends_bind. pose proof (sender_denote ctx ms p tr cs m Hctx Hp) as Hs. unfold ends in Hs |- * at 1.
  destruct (denote p _) as [a w| |code w|]; try done.
  - destruct Hs as (tr' & -> & Hs & _). apply HQ. by rewrite Hs, Hpre, reverse_app, app_assoc.
  - destruct Hs as (-> & j & Hj). split; [done|]. exists (length pre + min j (length ms))%nat.
    by rewrite take_app_add, take_app_le, <- take_take, firstn_all, Hj, Hpre, reverse_app, app_assoc by lia.
Qed.

Lemma begin_ends pool ip fmt (k : Z → M iworld Z) (msgs : Z → list icall) extra w0 :
  (∀ ctx tr, (ctx ∉ i_contexts w0) → sends tr = sends (i_trace w0) →
    ends (k ctx) (λ ret w, ret = 0 ∧ accounted w0 ctx (msgs ctx) extra w) (exits (sends (i_trace w0)) (msgs ctx))
      (mk_iw tr ({[ctx]} ∪ i_contexts w0) (i_mem w0))) →
  ends (denote (start pool ip fmt) ≫= k) (λ ret w, ret = 0 ∧ ∃ ctx, accounted w0 ctx (msgs ctx) extra w)
    (λ code w, code = 1 ∧ ∃ ctx k, sends (i_trace w) = reverse (take k (msgs ctx)) ++ sends (i_trace w0)) w0.
Proof.
  intros HQ. apply ends_bind. destruct w0 as [tr cs m]. pose proof (start_ends pool ip fmt tr cs m) as Hs. unfold ends in Hs |- * at 1.
  destruct (denote _ _) as [ctx w| |code w|]; try done.
  - destruct Hs as (tr' & -> & Hc & Hs). specialize (HQ ctx tr' Hc Hs). unfold ends in *. cbn [i_trace i_contexts i_mem] in HQ.
    destruct (k ctx _) as [x w| |code w|]; try done; [destruct HQ as [-> HQ]; split; [done|by exists ctx]|].
    destruct HQ as (-> & j & Hj). split; [done|]. by exists ctx, j.
  - destruct Hs as [-> Hs]. split; [done|]. by exists NULL, 0%nat.
Qed.

(** The common end, when nothing else is allocated. *)
Lemma plain_tail_ends sched thread ctx ms q w0 tr pre : (ctx ∉ i_contexts w0) → sends tr = reverse pre ++ sends (i_trace w0) →
  (∀ t r0, owns ctx (λ _ r H, H = left_over t r) r0 {[t]} (thread ctx t)) → sender ctx ms q →
  ends (receive_while sched thread ctx q;; denote (finish ctx)) (λ ret w, ret = 0 ∧ accounted w0 ctx (pre ++ ms) 0 w)
    (exits (sends (i_trace w0)) (pre ++ ms)) (mk_iw tr ({[ctx]} ∪ i_contexts w0) (i_mem w0)).
Proof.
  intros Hc Hs Ht Hq. replace (i_mem w0) with (i_mem w0 ∪ ∅) by set_solver. change 0%nat with (size (∅ : gset Z)). by apply tail_ends.
Qed.
End programs.


(** ** The pool test (connPool.c) *)

(** How many contexts are connected after a history. *)
Fixpoint lent (tr : list ievent) : Z :=
  match tr with
  | [] => 0
  | (icapConnect _ _, a) :: tr => if 0 <=? i_ret a then lent tr + 1 else lent tr
  | (icapDisconnect _, a) :: tr => if 0 <=? i_ret a then lent tr - 1 else lent tr
  | _ :: tr => lent tr
  end.

(** A library with a pool of five contexts: it connects while there is a free one and refuses
    afterwards; hanging up clears the caller's pointer, and a null pointer is refused. *)
Class ICAP_POOL (lib : ICAP) := {
  pool_connects : ∀ tr used ip port, lent tr < 5 → let a := icap_answer tr used (icapConnect ip port) in 0 ≤ i_ret a ∧ i_ptr a ≠ NULL ∧ i_ptr a ∉ used;
  pool_refuses : ∀ tr used ip port, 5 ≤ lent tr → let a := icap_answer tr used (icapConnect ip port) in i_ret a = ICAP_ERR_TOO_MANY_CONNECTIONS ∧ i_ptr a = NULL;
  pool_hangs_up : ∀ tr used p, let a := icap_answer tr used (icapDisconnect p) in
    i_ptr a = NULL ∧ if p =? NULL then i_ret a = ICAP_ERR_INVALID_PARAMS else 0 ≤ i_ret a }.

Section pool.
Context {lib : ICAP} {OK : ICAP_POOL lib}.
Implicit Types (tr : list ievent) (cs m : gset Z) (ps : list Z).

(** The contexts of an array. *)
Fixpoint connected (ps : list Z) : list Z := match ps with [] => [] | p :: ps => if p =? NULL then connected ps else p :: connected ps end.

(** They are connected, beside [cs]. *)
Definition holding (cs m : gset Z) ps (w : iworld) : Prop :=
  ∃ tr, w = mk_iw tr (list_to_set (connected ps) ∪ cs) m ∧ lent tr = Z.of_nat (length (connected ps)) ∧ NoDup (connected ps) ∧ list_to_set (connected ps) ## cs.

Lemma connected_app l1 l2 : connected (l1 ++ l2) = connected l1 ++ connected l2.
Proof using Type. clear. induction l1 as [|p l1 IH]; cbn; [done|]. by destruct (p =? NULL); rewrite IH. Qed.

Lemma err_line_wp name ret tr cs m (Q : unit → iworld → Prop) : (∀ tr', lent tr' = lent tr → Q tt (mk_iw tr' cs m)) → wp (denote (Pool.err_line name ret)) Q (mk_iw tr cs m).
Proof using Type. clear OK. intros HQ. unfold wp. cbn. unfold icall_, mbind, M_bind, get_st. cbn. by apply HQ. Qed.

Lemma connect_wp ip tr cs m (Q : ianswer → iworld → Prop) :
  (∀ a tr', (if lent tr <? 5 then 0 ≤ i_ret a ∧ i_ptr a ≠ NULL ∧ (i_ptr a ∉ cs) ∧ lent tr' = lent tr + 1 else i_ret a = ICAP_ERR_TOO_MANY_CONNECTIONS ∧ i_ptr a = NULL ∧ lent tr' = lent tr) →
    Q a (mk_iw tr' (if lent tr <? 5 then {[i_ptr a]} ∪ cs else cs) m)) →
  wp (icall_ (icapConnect ip 1344)) Q (mk_iw tr cs m).
Proof.
  intros HQ. unfold wp. rewrite icall_run by (by left). cbv zeta. cbn [effect i_trace i_contexts i_mem].
  pose proof (pool_connects tr (cs ∪ m) ip 1344) as Hc. pose proof (pool_refuses tr (cs ∪ m) ip 1344) as Hr. set (a := icap_answer tr _ _) in *. clearbody a.
  destruct (Z.ltb_spec (lent tr) 5) as [Hlt|Hge].
  - destruct Hc as (Hret & Hn & Hf); [done|]. rewrite (proj2 (Z.leb_le _ _) Hret). apply HQ. cbn [lent]. rewrite (proj2 (Z.leb_le _ _) Hret). split; [done|]. split; [done|]. split; [set_solver|done].
  - destruct Hr as (Hret & Hn); [done|]. rewrite Hret. change (0 <=? ICAP_ERR_TOO_MANY_CONNECTIONS) with false. apply HQ. cbn [lent]. by rewrite Hret.
Qed.

Lemma hang_up_wp p tr cs m (Q : ianswer → iworld → Prop) : p = NULL ∨ p ∈ cs →
  (∀ a tr', i_ptr a = NULL → (if p =? NULL then lent tr' = lent tr else lent tr' = lent tr - 1) →
    Q a (mk_iw tr' (if p =? NULL then cs else cs ∖ {[p]}) m)) →
  wp (icall_ (icapDisconnect p)) Q (mk_iw tr cs m).
Proof.
  intros Hp HQ. unfold wp. rewrite icall_run by done. cbv zeta. cbn [effect i_trace i_contexts i_mem].
  pose proof (pool_hangs_up tr (cs ∪ m) p) as [Hn Hr]. set (a := icap_answer tr _ _) in *. clearbody a. destruct (p =? NULL) eqn:Ep.
  - rewrite Hr. change (0 <=? ICAP_ERR_INVALID_PARAMS) with false. apply HQ; [done|]. cbn [lent]. by rewrite Hr.
  - rewrite (proj2 (Z.leb_le _ _) Hr). apply HQ; [done|]. cbn [lent]. by rewrite (proj2 (Z.leb_le _ _) Hr).
Qed.

(** Connecting and hanging up an entry of the array. *)
Lemma connect_entry ip cs m l1 l2 w (Q : ianswer → iworld → Prop) : holding cs m (l1 ++ NULL :: l2) w →
  (∀ a w', (if Z.of_nat (length (connected (l1 ++ NULL :: l2))) <? 5 then 0 ≤ i_ret a ∧ i_ptr a ≠ NULL else i_ret a = ICAP_ERR_TOO_MANY_CONNECTIONS ∧ i_ptr a = NULL) →
    holding cs m (l1 ++ i_ptr a :: l2) w' → Q a w') → wp (icall_ (icapConnect ip 1344)) Q w.
Proof.
  intros (tr & -> & Hl & Hnd & Hd) HQ. apply connect_wp. rewrite Hl. rewrite connected_app in *. cbn [connected] in *. change (NULL =? NULL) with true in *. cbn iota in *.
  intros a tr' Ha. apply HQ; [destruct (_ <? 5); [by destruct Ha as (? & ? & _)|by destruct Ha as (? & ? & _)]|].
  exists tr'. rewrite connected_app. cbn [connected]. destruct (_ <? 5).
  - destruct Ha as (_ & Hn & Hf & Hl'). rewrite (proj2 (Z.eqb_neq _ _) Hn). rewrite list_to_set_app_L in *. cbn [list_to_set] in *.
    split; [f_equal; set_solver|]. split; [rewrite Hl'; rewrite !length_app; cbn [length]; lia|]. split; [|set_solver].
    rewrite <- Permutation_middle. constructor; [|done]. set_solver.
  - destruct Ha as (_ & -> & Hl'). change (NULL =? NULL) with true. cbn iota. by rewrite Hl'.
Qed.

Lemma hang_up_entry cs m l1 p l2 w (Q : ianswer → iworld → Prop) : holding cs m (l1 ++ p :: l2) w →
  (∀ a w', i_ptr a = NULL → holding cs m (l1 ++ NULL :: l2) w' → Q a w') → wp (icall_ (icapDisconnect p)) Q w.
Proof.
  intros (tr & -> & Hl & Hnd & Hd) HQ. rewrite connected_app in *. cbn [connected] in *. destruct (p =? NULL) eqn:Ep.
  - apply hang_up_wp; [left; lia|]. rewrite Ep. intros a tr' Ha Hl'. apply HQ; [done|]. exists tr'. rewrite connected_app. cbn [connected].
    change (NULL =? NULL) with true. cbn iota. by rewrite Hl'.
  - rewrite list_to_set_app_L in *. cbn [list_to_set] in *. apply hang_up_wp; [right; set_solver|]. rewrite Ep. intros a tr' Ha Hl'. apply HQ; [done|].
    exists tr'. rewrite connected_app. cbn [connected]. change (NULL =? NULL) with true. cbn iota.
    rewrite <- Permutation_middle in Hnd. apply list.NoDup_cons in Hnd as [Hp Hnd]. rewrite list_to_set_app_L.
    assert ((p ∉ connected l1) ∧ (p ∉ connected l2)) as [H1 H2] by set_solver.
    split; [f_equal; apply set_eq; intros x; rewrite !elem_of_difference, !elem_of_union, !elem_of_list_to_set, !elem_of_singleton; destruct (decide (x = p)); set_solver|].
    split; [rewrite Hl', Hl, !length_app; cbn [length]; lia|]. split; [done|set_solver].
Qed.

(** An array split at an entry. *)
Lemma entry_split ps i p : ps !! i = Some p → ∃ l1 l2, ps = l1 ++ p :: l2 ∧ length l1 = i ∧ ∀ q, <[i := q]> ps = l1 ++ q :: l2.
Proof using Type.
  clear. intros Hi. exists (take i ps), (drop (S i) ps). pose proof (lookup_lt_Some _ _ _ Hi). split; [by rewrite take_drop_middle|]. split; [rewrite length_take; lia|].
  intros q. by apply insert_take_drop.
Qed.

Lemma err_line_holding name ret cs m ps w (Q : unit → iworld → Prop) : holding cs m ps w → (∀ w', holding cs m ps w' → Q tt w') → wp (denote (Pool.err_line name ret)) Q w.
Proof using Type. clear OK. intros (tr & -> & Hl & Hr) HQ. apply err_line_wp. intros tr' Ht. apply HQ. exists tr'. by rewrite Ht. Qed.

Lemma wp_denote_bind {A B} (p : prog A) (f : A → prog B) w (Q : B → iworld → Prop) : wp (denote p) (λ a w', wp (denote (f a)) Q w') w → wp (denote (p ≫= f)) Q w.
Proof using Type. clear OK. intros H. unfold wp. rewrite denote_bind. by apply wp_bind. Qed.

Lemma wp_denote_call c w (Q : ianswer → iworld → Prop) : wp (icall_ c) Q w → wp (denote (call c)) Q w.
Proof using Type. clear OK. unfold wp. cbn. unfold mbind, M_bind. by destruct (icall_ c w). Qed.

(** While connecting, the first five of six succeed. *)
Definition connecting (cs m : gset Z) (i : Z) (st : list Z * Z) (w : iworld) : Prop :=
  length st.1 = 6%nat ∧ (∀ j, i ≤ Z.of_nat j → (j < 6)%nat → st.1 !! j = Some NULL) ∧ holding cs m st.1 w ∧
  Z.of_nat (length (connected st.1)) = Z.min i 5 ∧ st.2 = (if i <? 6 then 0 else 1).

Lemma connect_round_wp cs m i st w : 0 ≤ i < 6 → connecting cs m i st w → wp (denote (Pool.connect_round i st)) (λ st' w', connecting cs m (i + 1) st' w') w.
Proof.
  destruct st as [context flag]. intros Hi (Hlen & Hnull & Hh & Hn & Hfl). cbn [fst snd] in *. unfold Pool.connect_round. cbn iota.
  destruct (entry_split context (Z.to_nat i) NULL) as (l1 & l2 & -> & Hl1 & Hset); [apply Hnull; lia|].
  apply wp_denote_bind, wp_denote_call. eapply connect_entry; [exact Hh|]. intros a w1 Ha Hh1. rewrite Hset. rewrite Hn in Ha.
  assert (∀ flag' w', flag' = (if i + 1 <? 6 then 0 else 1) → holding cs m (l1 ++ i_ptr a :: l2) w' → connecting cs m (i + 1) (l1 ++ i_ptr a :: l2, flag') w') as Hgo.
  { intros flag' w' Hf Hh'. split; [cbn [fst]; rewrite length_app in Hlen |- *; exact Hlen|]. split; [|split; [done|split; [|done]]].
    - intros j Hj Hj6. specialize (Hnull j ltac:(lia) Hj6). cbn [fst]. rewrite lookup_app_r in * by lia. by destruct (j - length l1)%nat eqn:Ej; [lia|].
    - cbn [fst]. rewrite connected_app in *. cbn [connected] in *. change (NULL =? NULL) with true in Hn. cbn iota in Hn. rewrite length_app in *.
      destruct (Z.ltb_spec (Z.min i 5) 5); destruct Ha as [_ Ha]; [rewrite (proj2 (Z.eqb_neq _ _) Ha)|rewrite Ha; change (NULL =? NULL) with true]; cbn [length]; lia. }
  destruct (Z.ltb_spec (Z.min i 5) 5) as [Hlt|Hge].
  - destruct Ha as [Hret _]. rewrite (proj2 (Z.ltb_ge _ _)) by lia. apply Hgo; [|done]. rewrite Hfl. by replace (i <? 6) with true by lia; replace (i + 1 <? 6) with true by lia.
  - destruct Ha as [Hret _]. rewrite Hret. change (ICAP_ERR_TOO_MANY_CONNECTIONS <? 0) with true. cbn iota. apply wp_denote_bind.
    eapply err_line_holding; [exact Hh1|]. intros w' Hw'. apply Hgo; [|done]. by replace (i + 1 <? 6) with false by lia.
Qed.

Lemma disconnect_at_wp cs m i context w (Q : Z * list Z → iworld → Prop) : (i < length context)%nat → holding cs m context w →
  (∀ ret w', holding cs m (<[i := NULL]> context) w' → Q (ret, <[i := NULL]> context) w') → wp (denote (Pool.disconnect_at i context)) Q w.
Proof.
  intros Hi Hh HQ. destruct (lookup_lt_is_Some_2 context i Hi) as [p Hp]. destruct (entry_split _ _ _ Hp) as (l1 & l2 & -> & _ & Hset).
  unfold Pool.disconnect_at. rewrite Hp, expect_bind. apply wp_denote_bind, wp_denote_call. eapply hang_up_entry; [exact Hh|]. intros a w' Ha Hw'.
  rewrite Ha. apply HQ. by rewrite Hset.
Qed.

Lemma reconnect_at_wp cs m i context w (Q : list Z → iworld → Prop) : context !! i = Some NULL → holding cs m context w →
  (∀ p w', holding cs m (<[i := p]> context) w' → Q (<[i := p]> context) w') → wp (denote (Pool.reconnect_at i context)) Q w.
Proof.
  intros Hi Hh HQ. destruct (entry_split _ _ _ Hi) as (l1 & l2 & -> & _ & Hset). unfold Pool.reconnect_at. apply wp_denote_bind, wp_denote_call.
  eapply connect_entry; [exact Hh|]. intros a w1 _ Hh1. rewrite <- Hset in Hh1. destruct (i_ret a <? 0); [|by apply HQ].
  apply wp_denote_bind. eapply err_line_holding; [exact Hh1|]. intros w' Hw'. by apply HQ.
Qed.

Lemma disconnect_round_wp cs m i context w (Q : list Z → iworld → Prop) : (Z.to_nat i < length context)%nat → holding cs m context w →
  (∀ w', holding cs m (<[Z.to_nat i := NULL]> context) w' → Q (<[Z.to_nat i := NULL]> context) w') → wp (denote (Pool.disconnect_round i context)) Q w.
Proof.
  intros Hi Hh HQ. unfold Pool.disconnect_round. apply wp_denote_bind. eapply disconnect_at_wp; [done..|]. intros ret w1 Hw1. cbn iota.
  destruct (ret <? 0); [|by apply HQ]. apply wp_denote_bind. by eapply err_line_holding.
Qed.
End pool.

(** With a library that has a pool of five contexts the test of the pool's limit passes: the
    sixth connection is the one that is refused, and at the end every context is given back. *)
Theorem pool_limit_found {lib : ICAP} {OK : ICAP_POOL lib} w0 : lent (i_trace w0) = 0 →
  wp Pool.test2 (λ ret w, ret = 0 ∧ i_contexts w = i_contexts w0 ∧ i_mem w = i_mem w0 ∧ lent (i_trace w) = 0) w0.
Proof.
  intros H0. destruct w0 as [tr cs m]. cbn in H0. unfold Pool.test2. apply wp_bind.
  eapply wp_mono; [apply (wp_for_range (connecting cs m))|].
  - split; [done|]. split; [intros [|[|[|[|[|[|j]]]]]] _ Hj; try done; lia|]. split; [|done]. exists tr. split; [f_equal; set_solver|]. split; [done|]. split; [constructor|set_solver].
  - intros i st w Hi Hw. apply connect_round_wp; [lia|done].
  - intros [context flag] w (Hlen & _ & Hh & _ & Hfl). cbn [fst snd] in *. apply wp_bind. eapply disconnect_at_wp; [lia|done|]. intros r1 w1 Hh1. cbn iota.
    apply wp_bind. eapply disconnect_at_wp; [rewrite length_insert; lia|done|]. intros r2 w2 Hh2. cbn iota.
    apply wp_bind. eapply reconnect_at_wp; [rewrite list_lookup_insert_ne by done; apply list_lookup_insert_eq; lia|done|]. intros p0 w3 Hh3.
    apply wp_bind. eapply reconnect_at_wp; [rewrite list_lookup_insert_ne by done; apply list_lookup_insert_eq; rewrite length_insert; lia|done|]. intros p4 w4 Hh4.
    apply wp_bind. set (c0 := <[_ := p4]> _) in *. assert (length c0 = 6%nat) as Hl0 by (unfold c0; by rewrite !length_insert). clearbody c0.
    eapply wp_mono; [apply (wp_for_range (λ i c w, length c = 6%nat ∧ take (Z.to_nat i) c = replicate (Z.to_nat i) NULL ∧ holding cs m c w)); [done|]|].
    + intros i c w5 Hi (Hlc & Htc & Hhc). eapply disconnect_round_wp; [lia|done|]. intros w' Hw'. split; [by rewrite length_insert|]. split; [|done].
      replace (Z.to_nat (i + 1)) with (S (Z.to_nat i)) by lia. rewrite (take_S_r _ _ NULL) by (apply list_lookup_insert_eq; lia).
      by rewrite take_insert_ge, Htc, replicate_S_end by lia.
    + intros c w5 (Hlc & Htc & (tr5 & -> & Hl5 & _)). change (Z.to_nat (0 + Z.of_nat 6)) with 6%nat in Htc. rewrite take_ge in Htc by lia. subst c flag. cbn in *.
      split; [done|]. split; [set_solver|]. by split.
Qed.

(** The receiving thread alone never exits. *)
Lemma par_alone {lib : ICAP} {OK : ICAP_OK lib} ctx F sched r H p tr cs m : ctx ∈ cs → received tr = r → m ## H → owns ctx F r H p →
  wp (par sched p (mret tt)) (λ _ w, ∃ tr' H', w = mk_iw tr' cs (m ∪ H')) (mk_iw tr cs (m ∪ H)).
Proof.
  intros Hctx. revert r H p tr. induction sched as [|[] sched IH]; intros r H p tr Hr Hd Hp; cbn [par].
  - pose proof (owns_denote ctx F r H p tr cs m (λ _ _, False) Hctx Hr Hd Hp) as Hgo. unfold ends in Hgo. apply wp_bind. change (wp (denote p) (λ _ w, ∃ tr' H', w = mk_iw tr' cs (m ∪ H')) (mk_iw tr cs (m ∪ H))). unfold wp.
    destruct (denote p _) as [[] w| | |]; try done. destruct Hgo as (tr' & r' & H' & -> & _).
    by exists tr', H'.
  - destruct p as [[]| |n|c k]; [by apply IH with r|done|done|]. cbn [step].
    destruct (owns_call _ _ _ _ _ _ tr cs m Hctx Hr Hd Hp) as (a & tr' & r' & H' & Hc & Hr' & Hd' & Hs & Hk).
    apply wp_bind. unfold wp at 1, mbind, M_bind. rewrite Hc. cbn. by apply IH with r'.
  - by apply IH with r.
Qed.

(** When everything works, the first test of the pool program ends without a return value, which
    the program then uses. *)
Theorem pool_program_undefined {lib : ICAP} {OK : ICAP_OK lib} sched w0 : (∀ tr used c, 0 ≤ i_ret (icap_answer tr used c)) → Pool.main sched w0 = Undef.
Proof.
  intros Hret. assert (∀ tr used c, (i_ret (icap_answer tr used c) <? 0) = false) as Hn by (intros; apply Z.ltb_ge, Hret).
  unfold Pool.main. eapply (bind_undef_after _ _ (λ r _, r = 0)).
  { unfold wp, Pool.testInitPool. rewrite denote_bind. unfold mbind, M_bind. cbn [denote call]. unfold mbind, M_bind. rewrite icall_run by (by left).
    cbn [effect]. cbv zeta. unfold mret, M_ret. rewrite Hn. done. }
  intros r w1 ->. eapply (bind_undef_after _ _ (λ _ _, True)); [done|]. intros [] w2 _. apply bind_undef_after with (λ r _, r = None); [|by intros r w3 ->].
  destruct w2 as [tr cs m]. unfold Pool.test1. apply wp_bind. unfold wp at 1. rewrite icall_run by (by left). cbv zeta. cbn [effect i_trace i_contexts i_mem]. rewrite Hn.
  rewrite (proj2 (Z.leb_le _ _) (Hret _ _ _)). set (c := icap_answer tr _ _). apply wp_bind. unfold wp at 1. rewrite icall_run by (right; set_solver). cbv zeta.
  cbn [effect i_trace i_contexts i_mem]. rewrite Hn. apply wp_bind. eapply (wp_mono _ (λ _ w, i_ptr c ∈ i_contexts w)).
  - match goal with |- wp _ _ (mk_iw ?x _ _) => generalize x; intros tr1 end. unfold receive_while. apply wp_bind. unfold wp at 1. rewrite icall_run by (by left). cbv zeta. cbn [effect i_trace i_contexts i_mem].
    pose proof (icap_mem tr1 (({[i_ptr c]} ∪ cs) ∪ m) 16) as Ht. pose proof (icap_fresh tr1 (({[i_ptr c]} ∪ cs) ∪ m) (calloc 16)) as Hf. set (t := icap_answer tr1 _ _) in *.
    rewrite (proj2 (Z.eqb_neq _ _) Ht). apply wp_bind. unfold wp at 1. rewrite icall_run by (by left). cbv zeta. cbn [effect i_trace i_contexts i_mem]. rewrite icap_thread. cbn [Z.eqb].
    replace ({[i_ptr t]} ∪ m) with (m ∪ {[i_ptr t]}) by set_solver.
    eapply wp_mono; [eapply (par_alone (i_ptr c)); [set_solver|done|set_solver|apply old_receiver_owns]|]. intros [] w (tr3 & H' & ->). cbn. set_solver.
  - intros [] w Hw. apply wp_bind. unfold wp at 1. rewrite icall_run by (by right). cbv zeta. cbn [effect]. rewrite Hn. done.
Qed.

(** ** Witnesses *)

#[local] Instance toy_icap : ICAP := λ tr used c,
  mk_ianswer (match c with icapSendPreviewAndWait _ _ => 100 | icapReceiveData _ _ _ => 200 | _ => 0 end) (new_address used) [Some (codes "part"); None] (codes "ok").

#[local] Instance toy_icap_ok : ICAP_OK toy_icap.
Proof. split; [intros; apply new_address_spec|intros; apply toy_ptr|done]. Qed.

Definition toy_pool : ICAP := λ tr used c,
  match c with
  | icapConnect _ _ => if lent tr <? 5 then mk_ianswer 0 (new_address used) [] [] else mk_ianswer ICAP_ERR_TOO_MANY_CONNECTIONS NULL [] []
  | icapDisconnect p => mk_ianswer (if p =? NULL then ICAP_ERR_INVALID_PARAMS else 0) NULL [] []
  | _ => mk_ianswer 0 NULL [] []
  end.

#[local] Instance toy_pool_ok : ICAP_POOL toy_pool.
Proof.
  split.
  - intros tr used ip port Hl. cbn. rewrite (proj2 (Z.ltb_lt _ _) Hl). split; [done|]. split; [apply toy_ptr|apply new_address_spec].
  - intros tr used ip port Hl. cbn. by rewrite (proj2 (Z.ltb_ge _ _) Hl).
  - intros tr used p. cbn. split; [done|]. by destruct (p =? NULL).
Qed.

Definition i_start : iworld := mk_iw [] ∅ ∅.

Lemma chunk_roundtrip_witness : wp (denote (formChunkedData (Some (codes "Some Content1")) 13 true)) (λ '(ret, out) _, ret = 0 ∧ ∃ p b chunkLen, out = Some (p, b, chunkLen) ∧
    0 ≤ chunkLen < Z.of_nat (length b) ∧ b !! Z.to_nat chunkLen = Some 0 ∧ ∀ rest, unchunk (take (Z.to_nat chunkLen) b ++ rest) = Some (codes "Some Content1", rest)) i_start.
Proof. apply (chunk_roundtrip (codes "Some Content1") i_start). intros. apply toy_ptr. Defined.


Lemma pool_limit_found_witness : wp (Pool.test2 (lib := toy_pool)) (λ ret w, ret = 0 ∧ i_contexts w = ∅ ∧ i_mem w = ∅ ∧ lent (i_trace w) = 0) i_start.
Proof. exact (pool_limit_found (lib := toy_pool) i_start eq_refl). Defined.

Lemma pool_program_undefined_witness : Pool.main [true; true] i_start = Undef.
Proof. apply (pool_program_undefined [true; true] i_start). by intros tr used []. Defined.
