(* ===== verification/Files.v ===== *)
(** * Small programs on files (system/memoryMap, other)

    Two programs that share an array through a mapped file and one that changes a byte of a
    file in the same way; a program that makes a file of lines, one that shows when a stream
    reaches its file, and one that prints the output of a command.  What the kernel decides
    are answers of the environment of Posix.v; the bytes of a file are state. *)

From Stdlib Require Import ZArith Lia ZifyBool.
From stdpp Require Import base gmap list strings numbers.
From S2P Require Import Prelude Posix Redis.

(** ** Mapped files *)

(** The bytes of the file, and of the pages that are mapped. *)
Record mfile := mk_mfile { f_bytes : list Z; m_bytes : option (list Z) }.

Definition PAGE : Z := 4096.
Definition MAP_FAILED : Z := -1.
Definition O_RDONLY : Z := 0.
Definition O_RDWR : Z := 2.
Definition O_RDWR_CREAT_TRUNC : Z := 578.

Section map_calls.
Context {os : OS}.
Abbreviation FM := (M (world mfile)).

Definition perror (s : string) : FM unit := sys_ (Ext ("perror " +:+ s) []).

(** A shared mapping of [size] bytes.  The pages that hold bytes of the file can be accessed; in
    the last one the bytes after the end of the file are the environment's, and what is stored
    there does not reach the file. *)
Definition mmap (fd size : Z) : FM Z :=
  r ← sys (Ext "mmap" [fd; size]);
  if r_ret r =? MAP_FAILED then mret MAP_FAILED
  else
    upd_glob (λ g, let pages := (Z.min size (Z.of_nat (length (f_bytes g))) + PAGE - 1) / PAGE in
      mk_mfile (f_bytes g) (Some (resize (Z.to_nat (pages * PAGE)) 0 (f_bytes g ++ r_out r))));;
    mret (r_ret r).

Definition munmap (size : Z) : FM Z :=
  r ← sys (Ext "munmap" [size]);
  upd_glob (λ g, mk_mfile (f_bytes g) None);;
  mret (r_ret r).

(** Bytes stored through the mapping. *)
Definition map_store (off : Z) (bytes : list Z) : FM unit :=
  g ← get_glob;
  m ← expect (m_bytes g);
  if (0 <=? off) && (off + Z.of_nat (length bytes) <=? Z.of_nat (length m)) then
    let m' := take (Z.to_nat off) m ++ bytes ++ drop (Z.to_nat off + length bytes) m in
    set_glob (mk_mfile (take (length (f_bytes g)) m' ++ drop (length m') (f_bytes g)) (Some m'))
  else undef.

Definition map_load (off : Z) (n : nat) : FM (list Z) :=
  g ← get_glob;
  m ← expect (m_bytes g);
  if (0 <=? off) && (off + Z.of_nat n <=? Z.of_nat (length m)) then mret (take n (drop (Z.to_nat off) m)) else undef.

End map_calls.

(** system/memoryMap/writeMmap.c *)
Module WriteMmap.
Definition FILEPATH : string := "./mmapped.mmap".
Definition NUMINTS : Z := 1000.
Definition FILESIZE : Z := NUMINTS * 4.
Section code.
Context {os : OS}.

Definition fail (fd : Z) (s : string) : M (world mfile) Z := sys_ (Close fd);; perror s;; exit_with 1.

(** [write(fd, "", 1)] at the end of the stretch. *)
Definition write_last (fd : Z) : M (world mfile) Z :=
  r ← sys (Write fd [0]);
  (if r_ret r =? 1 then upd_glob (λ g, mk_mfile (resize (Z.to_nat (FILESIZE - 1)) 0 (f_bytes g) ++ [0]) (m_bytes g)) else mret tt);;
  mret (r_ret r).

Definition main : M (world mfile) Z :=
  r ← sys (Open FILEPATH O_RDWR_CREAT_TRUNC);
  let fd := r_ret r in
  if fd =? -1 then perror "Error opening file for writing";; exit_with 1
  else
    upd_glob (λ g, mk_mfile [] (m_bytes g));;
    r ← sys (Ext "lseek" [fd; FILESIZE - 1; 0]);
    if r_ret r =? -1 then fail fd "Error calling lseek() to 'stretch' the file"
    else
      n ← write_last fd;
      if negb (n =? 1) then fail fd "Error writing last byte of the file"
      else
        map ← mmap fd FILESIZE;
        if map =? MAP_FAILED then fail fd "Error mmapping the file"
        else
          for_range (Z.to_nat NUMINTS) 1 (λ i _, map_store (4 * i) (GetSetStruct.le 4 (2 * i))) tt;;
          n ← munmap FILESIZE;
          (if n =? -1 then perror "Error un-mmapping the file" else mret tt);;
          sys_ (Close fd);;
          mret 0.
End code.
End WriteMmap.

(** system/memoryMap/readMmap.c *)
Module ReadMmap.
Section code.
Context {os : OS}.

Definition main : M (world mfile) Z :=
  r ← sys (Open WriteMmap.FILEPATH O_RDONLY);
  let fd := r_ret r in
  if fd =? -1 then perror "Error opening file for reading";; exit_with 1
  else
    map ← mmap fd WriteMmap.FILESIZE;
    if map =? MAP_FAILED then sys_ (Close fd);; perror "Error mmapping the file";; exit_with 1
    else
      for_range (Z.to_nat WriteMmap.NUMINTS) 1 (λ i _, b ← map_load (4 * i) 4; sys_ (Printf "%d: %d" [i; sgn 32 (GetSetStruct.unle b)])) tt;;
      n ← munmap WriteMmap.FILESIZE;
      (if n =? -1 then perror "Error un-mmapping the file" else mret tt);;
      sys_ (Close fd);;
      mret 0.
End code.
End ReadMmap.

(** system/memoryMap/test.c *)
Module MapTest.
Definition FILEPATH : string := "./sample.txt".
Definition NUMINTS : Z := 5.
Definition FILESIZE : Z := NUMINTS * 4.
Section code.
Context {os : OS}.

Definition main : M (world mfile) Z :=
  r ← sys (Open FILEPATH O_RDWR);
  let fd := r_ret r in
  if fd =? -1 then perror "Error opening file for reading";; exit_with 1
  else
    map ← mmap fd FILESIZE;
    if map =? MAP_FAILED then sys_ (Close fd);; perror "Error mmapping the file";; exit_with 1
    else
      for_range (Z.to_nat NUMINTS) 0 (λ i _, b ← map_load i 1; sys_ (Printf "%d: %c" (i :: b))) tt;;
      map_store 2 [57];;
      n ← munmap FILESIZE;
      (if n =? -1 then perror "Error un-mmapping the file" else mret tt);;
      sys_ (Close fd);;
      mret 0.
End code.
End MapTest.

(** ** Streams *)

(** A stream that is written: what is in the file, and what is still in the buffer. *)
Record wstream := mk_ws { ws_file : list Z; ws_buf : list Z }.

(** What the library's buffer holds. *)
Definition BUFSIZ : Z := 4096.

Section streams.
Context {os : OS}.
Abbreviation SM := (M (world wstream)).

(** Output stays in the buffer until it is full; then the buffer goes to the file. *)
Definition fwrite (bytes : list Z) : SM unit :=
  upd_glob (λ s, let b := ws_buf s ++ bytes in
    if Z.of_nat (length b) <? BUFSIZ then mk_ws (ws_file s) b else mk_ws (ws_file s ++ b) []).

Definition fclose : SM unit := sys (Ext "fclose" []);; upd_glob (λ s, mk_ws (ws_file s ++ ws_buf s) []).

End streams.

(** other/createDataFile.c *)
Module CreateDataFile.
Definition LINE_SIZE : Z := 1 * 1024.
Section code.
Context {os : OS}.

(** The number of lines is an int. *)
Definition num_lines (file_size : Z) : Z := if LINE_SIZE <? file_size then sgn 32 (file_size / LINE_SIZE) else 1.

Definition write_line (_ : Z) (_ : unit) : M (world wstream) unit :=
  for_range (Z.to_nat (LINE_SIZE - 2)) 0 (λ _ _, fwrite [100]) tt;;
  fwrite [13; 10].

(** [atol] of the second argument is an argument. *)
Definition main (argc : nat) (file_size : Z) : M (world wstream) Z :=
  if (argc <? 3)%nat then
    sys_ (Printf "%s : Wrong No of Arguments to the program !!!" (codes "main"));;
    sys_ (Printf "Usage : %s FILE_NAME FILE_SIZE" []);;
    mret (-1)
  else
    file_name ← sys (Ext "strdup" []);
    r ← sys (Ext "fopen" [r_ret file_name; 119]);
    if r_ret r =? NULL then sys_ (Printf "%s : Error [%d] [%s] in fopen !!!" [r_errno r]);; mret (-1)
    else
      upd_glob (λ _, mk_ws [] []);;
      for_range (Z.to_nat (num_lines file_size)) 0 write_line tt;;
      fclose;;
      sys_ (Free (r_ret file_name));;
      mret (-1).
End code.
End CreateDataFile.

(** other/dumpingNotDoneTillFclose.c *)
Module Dumping.
Section code.
Context {os : OS}.
Definition buffer : list Z := codes "testing" ++ [13; 10].

(** The loop; closing a null pointer is undefined. *)
Definition write_all : M (world wstream) unit :=
  for_range 3 0 (λ _ _, sys_ (Printf "writing [%s] to file" buffer);; fwrite buffer;; sys_ (Sleep 10)) tt.

Definition main : M (world wstream) Z :=
  r ← sys (Ext "fopen" [97]);
  if r_ret r =? NULL then sys_ (Ext "perror fopen" []);; undef
  else write_all;; fclose;; mret 0.
End code.
End Dumping.

(** other/readShellCommandOutput.c *)
Module ShellOutput.

(** [fgets] into an array of [n]: up to [n - 1] characters, or through the end of the line. *)
Fixpoint fgets (n : nat) (s : list Z) : list Z * list Z :=
  match n, s with
  | S n, c :: s => if c =? 10 then ([c], s) else let '(l, s) := fgets n s in (c :: l, s)
  | _, s => ([], s)
  end.

Section code.
Context {os : OS}.

(** The state is the output of the command that has not been read; [None] of [fgets] is NULL. *)
Definition print_round (_ : unit) : M (world (list Z)) (unit + unit) :=
  s ← get_glob;
  match s with
  | [] => mret (inr tt)
  | _ => let '(line, rest) := fgets 31 s in set_glob rest;; sys_ (Printf "%s" (cstr line));; mret (inl tt)
  end.

Definition main (fuel : nat) (argv : list (list Z)) : M (world (list Z)) Z :=
  match argv with
  | [_; command] =>
      sys_ (Printf "Command = %s" command);;
      r ← sys (Ext "popen" command);
      if r_ret r =? NULL then sys_ (Ext "perror popen" []);; exit_with 1
      else
        set_glob (r_out r);;
        loop fuel print_round tt;;
        sys_ (Printf "Done" []);;
        sys_ (Ext "pclose" []);;
        mret 0
  | _ => sys_ (Printf "Error in passing arguments!!! Usage: %s <command>" (default [] (head argv)));; exit_with 1
  end.
End code.
End ShellOutput.

(** ** Rules *)

Section rules.
Context {os : OS} {G : Type} (E : Z → world G → Prop).

Lemma ends_sys c tr (g : G) (Q : reply → world G → Prop) :
  (∀ r, r = os_answer tr c → Q r (mk_world ((c, r) :: tr) g)) → ends (sys c) Q E (mk_world tr g).
Proof. intros H. by apply H. Qed.

Lemma ends_sys_ c tr (g : G) (Q : unit → world G → Prop) : (∀ r, Q tt (mk_world ((c, r) :: tr) g)) → ends (sys_ c) Q E (mk_world tr g).
Proof. intros H. apply H. Qed.

Lemma ends_upd f tr (g : G) (Q : unit → world G → Prop) : Q tt (mk_world tr (f g)) → ends (upd_glob f) Q E (mk_world tr g).
Proof. done. Qed.

Lemma ends_set g' tr (g : G) (Q : unit → world G → Prop) : Q tt (mk_world tr g') → ends (set_glob g') Q E (mk_world tr g).
Proof. done. Qed.

Lemma ends_glob tr (g : G) (Q : G → world G → Prop) : Q g (mk_world tr g) → ends get_glob Q E (mk_world tr g).
Proof. done. Qed.

Lemma ends_return {A} (a : A) (Q : A → world G → Prop) w : Q a w → ends (mret a) Q E w.
Proof. done. Qed.

Lemma ends_expects {A} (o : option A) a (Q : A → world G → Prop) w : o = Some a → Q a w → ends (expect o) Q E w.
Proof. by intros ->. Qed.

End rules.

Ltac f_step :=
  lazymatch goal with
  | |- ends (mbind _ _) _ _ _ => apply ends_bind; cbn beta
  | |- ends (mret _) _ _ _ => apply ends_return; cbn beta
  | |- ends (sys _) _ _ _ => apply ends_sys; let r := fresh "r" in let Hr := fresh "Hr" in intros r Hr
  | |- ends (sys_ _) _ _ _ => apply ends_sys_; let r := fresh "r" in intros r
  | |- ends (perror _) _ _ _ => unfold perror
  | |- ends (upd_glob _) _ _ _ => apply ends_upd
  | |- ends (set_glob _) _ _ _ => apply ends_set
  | |- ends get_glob _ _ _ => apply ends_glob
  | |- ends (exit_with _) _ _ _ => apply ends_exit
  | |- ends (if ?x then _ else _) _ _ _ => let H := fresh "H" in destruct x eqn:H; try discriminate H
  end.

(** ** Mapped arrays *)

(** Bytes stored in a list. *)
Lemma splice_lookup (m bytes : list Z) off x : (off + length bytes ≤ length m)%nat →
  (take off m ++ bytes ++ drop (off + length bytes) m) !! x = (if decide (off ≤ x < off + length bytes)%nat then bytes !! (x - off)%nat else m !! x).
Proof.
  intros Hl. assert (length (take off m) = off) as Ht by (rewrite length_take; lia). case_decide.
  - rewrite lookup_app_r, Ht, lookup_app_l by lia. done.
  - destruct (decide (x < off)%nat).
    + rewrite lookup_app_l, lookup_take_lt by lia. done.
    + rewrite lookup_app_r, Ht, lookup_app_r, lookup_drop by lia. f_equal. lia.
Qed.

Lemma splice_length (m bytes : list Z) off : (off + length bytes ≤ length m)%nat → length (take off m ++ bytes ++ drop (off + length bytes) m) = length m.
Proof. intros Hl. rewrite !length_app, length_take, length_drop. lia. Qed.

(** The integer [v] is at index [j]. *)
Definition int_at (m : list Z) (j v : Z) : Prop := take 4 (drop (Z.to_nat (4 * j)) m) = GetSetStruct.le 4 v.

Lemma take_drop_lookup {A} (l : list A) o n k : take n (drop o l) !! k = if decide (k < n)%nat then l !! (o + k)%nat else None.
Proof. case_decide; [rewrite lookup_take_lt, lookup_drop by done; done|]. apply lookup_take_ge. lia. Qed.

Lemma int_at_store m i j v : 0 ≤ i → 4 * i + 4 ≤ Z.of_nat (length m) →
  let m' := take (Z.to_nat (4 * i)) m ++ GetSetStruct.le 4 v ++ drop (Z.to_nat (4 * i) + length (GetSetStruct.le 4 v)) m in
  int_at m' i v ∧ (0 ≤ j → j ≠ i → ∀ u, int_at m j u → int_at m' j u).
Proof.
  intros Hi Hl m'. assert (Z.to_nat (4 * i) + length (GetSetStruct.le 4 v) ≤ length m)%nat as Hle by (cbn; lia). split.
  - apply list_eq. intros k. rewrite take_drop_lookup. case_decide; [|symmetry; apply lookup_ge_None; rewrite le_length; lia].
    unfold m'. rewrite splice_lookup, decide_True by (rewrite ?le_length in *; lia). f_equal. lia.
  - intros Hj Hne u Hu. unfold int_at in *. rewrite <- Hu. apply list_eq. intros k. rewrite !take_drop_lookup. case_decide; [|done].
    unfold m'. rewrite splice_lookup, decide_False by (rewrite ?le_length in *; lia). done.
Qed.

(** Equal up to the bytes that an integer takes. *)
Lemma int_at_prefix m m' n j v : take n m = take n m' → 0 ≤ j → 4 * j + 4 ≤ Z.of_nat n → int_at m j v → int_at m' j v.
Proof.
  intros Hp Hj Hn Hv. unfold int_at in *. rewrite <- Hv. apply list_eq. intros k. rewrite !take_drop_lookup. case_decide; [|done].
  rewrite <- (lookup_take_lt m n), <- (lookup_take_lt m' n), Hp by lia. done.
Qed.

(** The loop that writes. *)
Definition writing (tr0 : list event) (i : Z) (w : world mfile) : Prop :=
  ∃ tr m, w = mk_world tr (mk_mfile (take 4000 m) (Some m)) ∧ length m = Z.to_nat 4096 ∧ lines "%d: %d" tr = lines "%d: %d" tr0 ∧ ∀ j, 1 ≤ j < i → int_at m j (2 * j).

Section mapped.
Context {os : OS} (E : Z → world mfile → Prop).

Lemma write_round_ends tr0 i w : 1 ≤ i ≤ 1000 → writing tr0 i w →
  ends (map_store (4 * i) (GetSetStruct.le 4 (2 * i))) (λ _ w', writing tr0 (i + 1) w') E w.
Proof.
  intros Hi (tr & m & -> & Hm & Ht & Hints). unfold map_store. f_step. f_step. f_step. eapply ends_expects; [done|].
  replace ((0 <=? 4 * i) && _) with true by (rewrite le_length, Hm; lia). f_step. cbn [f_bytes]. set (m' := take _ m ++ _).
  assert (length m' = length m) as Hl by (unfold m'; apply splice_length; rewrite le_length, Hm; lia).
  exists tr, m'. split; [|split; [by rewrite Hl|split; [done|]]].
  - f_equal. f_equal. rewrite (drop_ge (take 4000 m)), app_nil_r by (rewrite length_take, Hl; lia). rewrite length_take, Hm. done.
  - intros j Hj. destruct (int_at_store m i j (2 * i) ltac:(lia) ltac:(rewrite Hm; lia)) as [Hi1 Hi2]. destruct (decide (j = i)) as [->|Hne]; [exact Hi1|].
    apply Hi2; [lia|done|]. apply Hints. lia.
Qed.

(** A mapping of the file of the array. *)
Lemma mmap_ends fd tr b mb (Q : Z → world mfile → Prop) : length b = 4000%nat →
  (∀ r, r_ret r = MAP_FAILED → Q MAP_FAILED (mk_world ((Ext "mmap" [fd; 4000], r) :: tr) (mk_mfile b mb))) →
  (∀ r m, r_ret r ≠ MAP_FAILED → take 4000 m = b → length m = Z.to_nat 4096 → Q (r_ret r) (mk_world ((Ext "mmap" [fd; 4000], r) :: tr) (mk_mfile b (Some m)))) →
  ends (mmap fd 4000) Q E (mk_world tr (mk_mfile b mb)).
Proof.
  intros Hb Hfail HQ. unfold mmap. f_step. f_step. destruct (Z.eqb_spec (r_ret r) MAP_FAILED) as [Hf|Hf].
  - f_step. by apply Hfail.
  - f_step. f_step. f_step. cbn [f_bytes m_bytes]. change (Z.min 4000 (Z.of_nat (length b))) with (Z.min 4000 (Z.of_nat (length b))).
    rewrite Hb. change (Z.to_nat ((Z.min 4000 (Z.of_nat 4000) + PAGE - 1) / PAGE * PAGE)) with (Z.to_nat 4096).
    apply HQ; [done| |apply length_resize]. rewrite take_resize_le, resize_app_le, resize_all_alt by lia. done.
Qed.

Lemma unle_int u : -2 ^ 31 ≤ u < 2 ^ 31 → sgn 32 (GetSetStruct.unle (GetSetStruct.le 4 u)) = u.
Proof using Type.
  clear. intros Hu. rewrite unle_le. change (2 ^ (8 * Z.of_nat 4)) with (2 ^ 32). unfold sgn. rewrite Z.mod_mod by lia. apply (sgn_small 32); lia.
Qed.

(** What the reader prints: the array but for its last line, whose number is not in the file. *)
Definition array_lines (n : nat) : list (list Z) := (λ k, [Z.of_nat k; 2 * Z.of_nat k]) <$> seq 1 n.

Lemma array_lines_snoc n : array_lines (S n) = array_lines n ++ [[Z.of_nat (S n); 2 * Z.of_nat (S n)]].
Proof using Type. clear. unfold array_lines. rewrite seq_S, fmap_app. done. Qed.

Lemma read_round_ends i tr b m (Q : unit → world mfile → Prop) : 1 ≤ i ≤ 1000 → length m = Z.to_nat 4096 → (∀ j, 1 ≤ j < 1000 → int_at m j (2 * j)) →
  (∀ r x, (i < 1000 → x = 2 * i) → Q tt (mk_world ((Printf "%d: %d" [i; x], r) :: tr) (mk_mfile b (Some m)))) →
  ends (b ← map_load (4 * i) 4; sys_ (Printf "%d: %d" [i; sgn 32 (GetSetStruct.unle b)])) Q E (mk_world tr (mk_mfile b (Some m))).
Proof using Type.
  intros Hi Hm Hints HQ. f_step. unfold map_load. f_step. f_step. f_step. eapply ends_expects; [done|].
  replace ((0 <=? 4 * i) && _) with true by (rewrite Hm; lia). f_step. f_step. apply HQ. intros Hlt. unfold int_at in Hints. rewrite Hints by lia. apply unle_int. lia.
Qed.

Lemma lines_snoc fmt args r tr : lines fmt ((Printf fmt args, r) :: tr) = lines fmt tr ++ [args].
Proof using Type. clear. cbn. by rewrite String.eqb_refl. Qed.

Lemma read_loop_ends tr b m (Q : unit → world mfile → Prop) : length m = Z.to_nat 4096 → (∀ j, 1 ≤ j < 1000 → int_at m j (2 * j)) →
  (∀ tr' x, lines "%d: %d" tr' = lines "%d: %d" tr ++ array_lines 999 ++ [[1000; x]] → Q tt (mk_world tr' (mk_mfile b (Some m)))) →
  ends (for_range (Z.to_nat 1000) 1 (λ i _, b ← map_load (4 * i) 4; sys_ (Printf "%d: %d" [i; sgn 32 (GetSetStruct.unle b)])) tt) Q E (mk_world tr (mk_mfile b (Some m))).
Proof using Type.
  intros Hm Hints HQ. eapply ends_mono; [apply (ends_for_range _ (λ i _ w, ∃ tr', w = mk_world tr' (mk_mfile b (Some m)) ∧
    if i <? 1001 then lines "%d: %d" tr' = lines "%d: %d" tr ++ array_lines (Z.to_nat (i - 1)) else ∃ x, lines "%d: %d" tr' = lines "%d: %d" tr ++ array_lines 999 ++ [[1000; x]]))|].
  - exists tr. split; [done|]. cbn. by rewrite app_nil_r.
  - intros i [] w Hi (tr' & -> & Hl). replace (i <? 1001) with true in Hl by lia. eapply read_round_ends; [lia|done|done|]. intros r x Hx.
    eexists. split; [done|]. rewrite lines_snoc, Hl, <- app_assoc. destruct (Z.ltb_spec (i + 1) 1001).
    + rewrite Hx by lia. replace (Z.to_nat (i + 1 - 1)) with (S (Z.to_nat (i - 1))) by lia. rewrite array_lines_snoc.
      by replace (Z.of_nat (S (Z.to_nat (i - 1)))) with i by lia.
    + exists x. replace i with 1000 by lia. done.
  - intros [] w (tr' & -> & Hl). change (1 + Z.of_nat (Z.to_nat 1000) <? 1001) with false in Hl. cbn iota in Hl. destruct Hl as [x Hx]. by apply (HQ tr' x).
Qed.

End mapped.

(** The array makes the round trip through the file: the second program prints the numbers
    that the first one stored, all but the last; the last is stored after the end of the file
    and is not read back.  Either program may only stop before, with 1. *)
Theorem mapped_array_roundtrip {os : OS} tr mb f0 :
  ends (WriteMmap.main;; ReadMmap.main) (λ ret w, ret = 0 ∧ length (f_bytes (w_glob w)) = 4000%nat ∧
      (∀ j, 1 ≤ j < 1000 → int_at (f_bytes (w_glob w)) j (2 * j)) ∧
      ∃ x, lines "%d: %d" (w_trace w) = lines "%d: %d" tr ++ array_lines 999 ++ [[1000; x]])
    (λ code _, code = 1) (mk_world tr (mk_mfile f0 mb)).
Proof.
  f_step. unfold WriteMmap.main. f_step. f_step. f_step; [repeat f_step; done|]. f_step. f_step. f_step. f_step. f_step; [unfold WriteMmap.fail; repeat f_step; done|].
  f_step. unfold WriteMmap.write_last. f_step. f_step. f_step. destruct (Z.eqb_spec (r_ret r1) 1) as [Hw|Hw].
  2: { f_step. f_step. rewrite (proj2 (Z.eqb_neq _ _) Hw). cbn [negb]. unfold WriteMmap.fail. repeat f_step. done. }
  f_step. f_step. rewrite Hw. change (negb (1 =? 1)) with false. cbn iota. f_step. cbn [f_bytes m_bytes].
  apply mmap_ends; [by rewrite length_app, length_resize| |].
  { intros r2 _. change (MAP_FAILED =? MAP_FAILED) with true. unfold WriteMmap.fail. repeat f_step. done. }
  intros r2 m Hr2 Hm Hlm. rewrite (proj2 (Z.eqb_neq _ _) Hr2). f_step.
  eapply ends_mono; [apply (ends_for_range _ (λ i _ w, writing tr i w))|].
  - eexists _, m. split; [by rewrite Hm|]. split; [done|]. split; [done|]. lia.
  - intros i [] w Hi Hw'. apply write_round_ends; [change (Z.of_nat (Z.to_nat WriteMmap.NUMINTS)) with 1000 in Hi; lia|done].
  - intros [] w (tr1 & m1 & -> & Hl1 & Ht1 & Hints). change (1 + Z.of_nat (Z.to_nat WriteMmap.NUMINTS)) with 1001 in Hints. f_step. unfold munmap. f_step. f_step. f_step. f_step. f_step.
    cbn [f_bytes]. f_step. apply (ends_mono _ _ (λ _ w, ∃ tr2, w = mk_world tr2 (mk_mfile (take 4000 m1) None) ∧ lines "%d: %d" tr2 = lines "%d: %d" tr)).
    { destruct (r_ret r3 =? -1); [f_step; f_step|f_step]; by eexists. }
    intros [] w (tr2 & -> & Ht2). f_step. f_step. f_step. unfold ReadMmap.main. f_step. f_step. f_step; [repeat f_step; done|]. f_step.
    apply mmap_ends; [rewrite length_take, Hl1; done| |].
    { intros r6 _. change (MAP_FAILED =? MAP_FAILED) with true. repeat f_step. done. }
    intros r6 m2 Hr6 Hm2 Hlm2. rewrite (proj2 (Z.eqb_neq _ _) Hr6). f_step.
    assert (∀ j, 1 ≤ j < 1000 → int_at m2 j (2 * j)) as Hints2 by (intros j Hj; apply (int_at_prefix m1 m2 4000); [done|lia|lia|apply Hints; lia]).
    apply read_loop_ends; [done|done|]. intros tr3 x Hx. f_step. unfold munmap. f_step. f_step. f_step. f_step. f_step. cbn [f_bytes]. f_step.
    apply (ends_mono _ _ (λ _ w, ∃ tr4, w = mk_world tr4 (mk_mfile (take 4000 m1) None) ∧ lines "%d: %d" tr4 = lines "%d: %d" tr3)).
    { destruct (r_ret r7 =? -1); [f_step; f_step|f_step]; by eexists. }
    intros [] w (tr4 & -> & Ht4). f_step. f_step. f_step. split; [done|]. cbn [w_glob f_bytes w_trace]. split; [rewrite length_take, Hl1; done|]. split.
    + intros j Hj. apply (int_at_prefix m1 _ 4000); [by rewrite take_take|lia|lia|]. apply Hints. lia.
    + exists x. cbn [lines]. rewrite Ht4, Hx. f_equal. exact Ht2.
Qed.

(** The third byte of a file, stored through a mapping of its first pages. *)
Lemma stored_byte (f m : list Z) : (5 ≤ length m)%nat → (∀ k, (k < length f)%nat → (k < length m)%nat → m !! k = f !! k) →
  let m' := take (Z.to_nat 2) m ++ [57] ++ drop (Z.to_nat 2 + length [57]) m in take (length f) m' ++ drop (length m') f = <[2%nat := 57]> f.
Proof.
  intros Hm Hmf m'. assert (length m' = length m) as Hlen by (apply (splice_length m [57]); cbn; lia). apply list_eq. intros k. rewrite Hlen.
  destruct (decide (k < length f)%nat) as [Hk|Hk].
  - destruct (decide (k < length m)%nat) as [Hk2|Hk2].
    + rewrite lookup_app_l, lookup_take_lt by (rewrite ?length_take, ?Hlen; lia). unfold m'. rewrite (splice_lookup m [57]) by (cbn; lia).
      cbn [length]. change (Z.to_nat 2) with 2%nat. case_decide.
      * replace k with 2%nat by lia. rewrite list_lookup_insert_eq by lia. done.
      * rewrite list_lookup_insert_ne by lia. apply Hmf; lia.
    + rewrite lookup_app_r, length_take, Hlen, lookup_drop by (rewrite length_take, Hlen; lia). rewrite list_lookup_insert_ne by lia. f_equal. lia.
  - rewrite !(lookup_ge_None_2 _ k); [done|rewrite length_insert; lia|rewrite length_app, length_take, length_drop, Hlen; lia].
Qed.

(** The program that changes a byte of a file that is not empty: it prints the first five bytes
    that the mapping shows, and only the third byte of the file changes, if there is one. *)
Theorem mapped_byte_changed {os : OS} tr f mb : f ≠ [] →
  ends MapTest.main (λ ret w, ret = 0 ∧ f_bytes (w_glob w) = <[2%nat := 57]> f ∧
      ∃ cs, length cs = 5%nat ∧ (∀ k c, cs !! k = Some c → ∃ v, c = [Z.of_nat k; v] ∧ ((k < length f)%nat → f !! k = Some v)) ∧
        lines "%d: %c" (w_trace w) = lines "%d: %c" tr ++ cs) (λ code w, code = 1 ∧ f_bytes (w_glob w) = f) (mk_world tr (mk_mfile f mb)).
Proof.
  intros Hf. assert (1 ≤ length f)%nat as Hlf by (destruct f; [done|cbn; lia]). unfold MapTest.main. f_step. f_step. f_step; [repeat f_step; done|]. f_step. unfold mmap. f_step. f_step.
  destruct (Z.eqb_spec (r_ret r0) MAP_FAILED) as [Hm|Hm]; [repeat f_step; done|]. f_step. f_step. f_step. rewrite (proj2 (Z.eqb_neq _ _) Hm). cbn [f_bytes].
  replace (Z.to_nat ((Z.min MapTest.FILESIZE (Z.of_nat (length f)) + PAGE - 1) / PAGE * PAGE)) with (Z.to_nat 4096)
    by (f_equal; unfold MapTest.FILESIZE, MapTest.NUMINTS, PAGE; assert ((Z.min (5 * 4) (Z.of_nat (length f)) + 4096 - 1) / 4096 = 1) as -> by (symmetry; apply (Z.div_unique _ _ _ (Z.min (5 * 4) (Z.of_nat (length f)) - 1)); lia); done).
  set (m := resize _ _ _). assert (length m = Z.to_nat 4096) as Hlm by apply length_resize.
  assert (∀ k, (k < length f)%nat → (k < length m)%nat → m !! k = f !! k) as Hmf.
  { intros k Hk Hk2. unfold m. rewrite lookup_resize by (rewrite ?length_app; lia). by rewrite lookup_app_l by lia. }
  clearbody m. f_step.
  eapply ends_mono; [apply (ends_for_range _ (λ i _ w, ∃ tr' cs, w = mk_world tr' (mk_mfile f (Some m)) ∧ lines "%d: %c" tr' = lines "%d: %c" tr ++ cs ∧ Z.of_nat (length cs) = i ∧
    ∀ k c, cs !! k = Some c → ∃ v, c = [Z.of_nat k; v] ∧ ((k < length f)%nat → f !! k = Some v)))|].
  - eexists _, []. split; [done|]. split; [by rewrite app_nil_r|]. split; [done|]. intros k c Hk. by rewrite lookup_nil in Hk.
  - intros i [] w Hi (tr' & cs & -> & Hl & Hcs & Hall). change (Z.of_nat (Z.to_nat MapTest.NUMINTS)) with 5 in Hi. f_step. unfold map_load. f_step. f_step. f_step. eapply ends_expects; [done|].
    replace ((0 <=? i) && _) with true by (rewrite Hlm; lia). f_step. f_step. destruct (lookup_lt_is_Some_2 m (Z.to_nat i)) as [v Hv]; [lia|].
    rewrite (drop_S _ _ _ Hv). cbn [take]. eexists _, (cs ++ [[i; v]]). split; [done|]. split; [rewrite lines_snoc, Hl, <- app_assoc; done|].
    split; [rewrite length_app; cbn; lia|]. intros k c Hk. apply lookup_snoc_Some in Hk as [[_ Hk]|[Hk <-]]; [by apply Hall|]. exists v.
    split; [f_equal; lia|]. intros Hlt. rewrite <- Hmf by lia. rewrite <- Hv. f_equal. lia.
  - intros [] w (tr' & cs & -> & Hl & Hcs & Hall). f_step. unfold map_store. f_step. f_step. f_step. eapply ends_expects; [done|].
    replace ((0 <=? 2) && _) with true by (rewrite Hlm; cbn; lia). f_step. cbn [f_bytes]. f_step. unfold munmap. f_step. f_step. f_step. f_step. f_step. cbn [f_bytes]. f_step.
    rewrite (stored_byte f m) by (done || rewrite Hlm; lia).
    destruct (r_ret r1 =? -1); repeat f_step; (split; [done|]); (split; [done|]); exists cs; (split; [change (0 + Z.of_nat (Z.to_nat MapTest.NUMINTS)) with 5 in Hcs; lia|]); (split; [done|]); exact Hl.
Qed.

(** ** Streams *)

(** Everything written so far. *)
Definition written (s : wstream) : list Z := ws_file s ++ ws_buf s.

Section stream_rules.
Context {os : OS} (E : Z → world wstream → Prop).

Lemma fwrite_ends bytes tr s (Q : unit → world wstream → Prop) :
  (∀ s', written s' = written s ++ bytes → (Z.of_nat (length (ws_buf s) + length bytes) < BUFSIZ → ws_file s' = ws_file s ∧ ws_buf s' = ws_buf s ++ bytes) → Q tt (mk_world tr s')) →
  ends (fwrite bytes) Q E (mk_world tr s).
Proof.
  intros HQ. unfold fwrite. f_step. unfold written in HQ. destruct (Z.ltb_spec (Z.of_nat (length (ws_buf s ++ bytes))) BUFSIZ) as [Hlt|Hge].
  - apply HQ; [cbn; by rewrite app_assoc|done].
  - apply HQ; [cbn; by rewrite app_nil_r, app_assoc|]. intros Hlt. rewrite length_app in Hge. lia.
Qed.

Lemma fclose_ends tr s (Q : unit → world wstream → Prop) :
  (∀ r, Q tt (mk_world ((Ext "fclose" [], r) :: tr) (mk_ws (written s) []))) → ends fclose Q E (mk_world tr s).
Proof. intros HQ. unfold fclose. f_step. f_step. f_step. apply HQ. Qed.

End stream_rules.

(** A line of the data file. *)
Definition data_line : list Z := replicate (Z.to_nat 1022) 100 ++ [13; 10].

(** The program that makes a data file writes whole lines of 1024 bytes: the file holds nothing
    else when it is closed, and its size is the requested one rounded down to lines, but at least
    one line.  The program returns -1 also then. *)
Theorem data_file_content {os : OS} argc file_size tr s0 : (3 ≤ argc)%nat → 0 ≤ file_size < 2 ^ 41 →
  ends (CreateDataFile.main argc file_size) (λ ret w, ret = -1 ∧ (w_glob w = s0 ∨
      w_glob w = mk_ws (concat (replicate (Z.to_nat (CreateDataFile.num_lines file_size)) data_line)) [] ∧
      Z.of_nat (length (ws_file (w_glob w))) = 1024 * Z.max 1 (file_size / 1024))) (λ _ _, False) (mk_world tr s0).
Proof.
  intros Hargc Hsize. unfold CreateDataFile.main. rewrite (proj2 (Nat.ltb_ge _ _)) by lia. f_step. f_step. f_step. f_step. f_step.
  { repeat f_step. split; [done|]. by left. }
  f_step. f_step. f_step. set (n := CreateDataFile.num_lines file_size).
  assert (n = Z.max 1 (file_size / 1024)) as Hn.
  { unfold n, CreateDataFile.num_lines, CreateDataFile.LINE_SIZE. change (1 * 1024) with 1024. destruct (Z.ltb_spec 1024 file_size) as [Hlt|Hge].
    - assert (1 ≤ file_size / 1024 < 2 ^ 31) by (split; [apply Z.div_le_lower_bound|apply Z.div_lt_upper_bound]; lia). rewrite sgn_small by lia. lia.
    - assert (file_size / 1024 ≤ 1) by (apply Z.div_le_upper_bound; lia). lia. }
  eapply ends_mono; [apply (ends_for_range _ (λ i _ w, ∃ tr' s, w = mk_world tr' s ∧ written s = concat (replicate (Z.to_nat i) data_line)))|].
  - by eexists _, _.
  - intros i [] w Hi (tr' & s & -> & Hs). unfold CreateDataFile.write_line. f_step.
    eapply ends_mono; [apply (ends_for_range _ (λ j _ w, ∃ tr2 s2, w = mk_world tr2 s2 ∧ written s2 = concat (replicate (Z.to_nat i) data_line) ++ replicate (Z.to_nat j) 100))|].
    + eexists _, s. split; [done|]. cbn. by rewrite app_nil_r.
    + intros j [] w Hj (tr2 & s2 & -> & Hs2). apply fwrite_ends. intros s3 Hs3 _. eexists _, s3. split; [done|]. rewrite Hs3, Hs2, <- app_assoc. f_equal.
      replace (Z.to_nat (j + 1)) with (S (Z.to_nat j)) by lia. by rewrite replicate_S_end.
    + intros [] w (tr2 & s2 & -> & Hs2). change (Z.to_nat (0 + Z.of_nat (Z.to_nat (CreateDataFile.LINE_SIZE - 2)))) with (Z.to_nat 1022) in Hs2.
      apply fwrite_ends. intros s3 Hs3 _. eexists _, s3. split; [done|]. rewrite Hs3, Hs2, <- app_assoc.
      replace (Z.to_nat (i + 1)) with (S (Z.to_nat i)) by lia. rewrite replicate_S_end, concat_app. cbn [concat]. by rewrite app_nil_r.
  - intros [] w (tr' & s & -> & Hs). rewrite Z.add_0_l, Z2Nat.id in Hs by lia. f_step. apply fclose_ends. intros r2. f_step. f_step. f_step. split; [done|]. right.
    rewrite Hs. split; [done|]. cbn [w_glob ws_file].
    assert (∀ k, Z.of_nat (length (concat (replicate k data_line))) = 1024 * Z.of_nat k) as Hlen.
    { induction k as [|k IH]; [done|]. cbn [replicate concat]. rewrite length_app, Nat2Z.inj_add, IH. change (Z.of_nat (length data_line)) with 1024. lia. }
    rewrite Hlen. lia.
Qed.

(** The three lines reach the file only when it is closed, if its buffer was empty. *)
Theorem dumped_at_close {os : OS} tr f :
  ends Dumping.write_all (λ _ w, ws_file (w_glob w) = f) (λ _ _, False) (mk_world tr (mk_ws f [])) ∧
  (r_ret (os_answer tr (Ext "fopen" [97])) ≠ NULL →
    ends Dumping.main (λ ret w, ret = 0 ∧ w_glob w = mk_ws (f ++ Dumping.buffer ++ Dumping.buffer ++ Dumping.buffer) []) (λ _ _, False) (mk_world tr (mk_ws f []))) ∧
  (r_ret (os_answer tr (Ext "fopen" [97])) = NULL → Dumping.main (mk_world tr (mk_ws f [])) = Undef).
Proof.
  assert (∀ tr1, ends Dumping.write_all (λ _ w, w_glob w = mk_ws f (Dumping.buffer ++ Dumping.buffer ++ Dumping.buffer)) (λ _ _, False) (mk_world tr1 (mk_ws f []))) as Hall by done.
  split; [eapply ends_mono; [apply Hall|]; by intros [] w ->|]. unfold Dumping.main. split; intros Hr.
  - f_step. f_step. rewrite <- Hr0 in Hr. rewrite (proj2 (Z.eqb_neq _ _) Hr). f_step. eapply ends_mono; [apply Hall|]. intros [] [tr1 g] Hg. cbn in Hg. subst g.
    f_step. apply fclose_ends. intros r1. f_step. by split.
  - unfold mbind, M_bind, sys. cbn [w_trace]. by rewrite Hr.
Qed.

(** ** The output of a command *)

Lemma fgets_app n s : let '(l, rest) := ShellOutput.fgets n s in s = l ++ rest ∧ ((0 < n)%nat → s ≠ [] → (length rest < length s)%nat).
Proof.
  revert s. induction n as [|n IH]; intros s; [split; [done|lia]|]. destruct s as [|c s]; [done|]. cbn [ShellOutput.fgets]. destruct (c =? 10); [cbn; split; [done|lia]|].
  specialize (IH s). destruct (ShellOutput.fgets n s) as [l rest]. destruct IH as [-> _]. split; [done|]. intros _ _. cbn. rewrite length_app. lia.
Qed.

Lemma cstr_id l : 0 ∉ l → cstr l = l.
Proof.
  induction l as [|c l IH]; intros H; [done|]. cbn. destruct (Z.eqb_spec c 0); [set_solver|]. f_equal. apply IH. set_solver.
Qed.

(** The loop, by induction on what is left of the output. *)
Lemma print_loop_ends {os : OS} E fuel tr out (Q : unit → world (list Z) → Prop) : 0 ∉ out → (length out < fuel)%nat →
  (∀ tr', concat (lines "%s" tr') = concat (lines "%s" tr) ++ out → Q tt (mk_world tr' [])) →
  ends (loop fuel ShellOutput.print_round tt) Q E (mk_world tr out).
Proof.
  revert tr out. induction fuel as [|fuel IH]; intros tr out Hz Hf HQ; [lia|]. cbn [loop]. f_step. unfold ShellOutput.print_round. f_step. f_step.
  destruct out as [|c out]; [f_step; f_step; apply HQ; by rewrite app_nil_r|]. pose proof (fgets_app 31 (c :: out)) as Hg.
  destruct (ShellOutput.fgets 31 (c :: out)) as [line rest]. destruct Hg as [Hs Hlt]. specialize (Hlt ltac:(lia) ltac:(done)).
  f_step. f_step. f_step. f_step. f_step. rewrite Hs in Hz, HQ. apply IH; [set_solver|lia|]. intros tr' Htr'. apply HQ.
  rewrite Htr', lines_snoc, cstr_id, concat_app by set_solver. cbn [concat]. by rewrite app_nil_r, app_assoc.
Qed.

(** The program prints the output of the command completely and in order, however long its
    lines are, when it has no null characters; it ends when the output does. *)
Theorem output_printed {os : OS} fuel name command tr g :
  let tr1 := (Printf "Command = %s" command, os_answer tr (Printf "Command = %s" command)) :: tr in
  let out := r_out (os_answer tr1 (Ext "popen" command)) in
  0 ∉ out → (length out < fuel)%nat →
  ends (ShellOutput.main fuel [name; command]) (λ ret w, ret = 0 ∧ w_glob w = [] ∧ concat (lines "%s" (w_trace w)) = concat (lines "%s" tr) ++ out)
    (λ code _, code = 1 ∧ r_ret (os_answer tr1 (Ext "popen" command)) = NULL) (mk_world tr g).
Proof.
  intros tr1 out Hz Hf. unfold ShellOutput.main. f_step. apply (ends_mono _ _ (λ _ w, w = mk_world tr1 g)); [done|].
  intros [] w ->. f_step. f_step. destruct (Z.eqb_spec (r_ret r) NULL) as [Hn|Hn]; [subst r; repeat f_step; done|].
  f_step. f_step. f_step. subst r. apply print_loop_ends; [done|done|]. intros tr' Htr'. repeat f_step. split; [done|]. split; [done|]. cbn in Htr' |- *. rewrite ?app_nil_r in Htr'. by rewrite ?app_nil_r, Htr'.
Qed.

(** ** Witnesses *)

(** Every call succeeds; the command says "hi". *)
Definition file_os : OS := λ _ c, mk_reply 64 0 (match c with Ext "popen" _ => [104; 105; 10] | _ => [] end).

Lemma data_file_content_witness : ends (CreateDataFile.main (os := file_os) 3 5000) (λ ret w, ret = -1 ∧ (w_glob w = mk_ws [7] [] ∨
      w_glob w = mk_ws (concat (replicate (Z.to_nat (CreateDataFile.num_lines 5000)) data_line)) [] ∧
      Z.of_nat (length (ws_file (w_glob w))) = 1024 * Z.max 1 (5000 / 1024))) (λ _ _, False) (mk_world [] (mk_ws [7] [])).
Proof. apply (@data_file_content file_os 3 5000 [] (mk_ws [7] [])); lia. Defined.

Lemma output_printed_witness : ends (ShellOutput.main (os := file_os) 4 [[97]; [98]])
  (λ ret w, ret = 0 ∧ w_glob w = [] ∧ concat (lines "%s" (w_trace w)) = [104; 105; 10]) (λ code _, code = 1 ∧ 64 = NULL) (mk_world [] []).
Proof. apply (@output_printed file_os 4 [97] [98] [] []); [set_solver|cbn; lia]. Defined.
