(* ===== verification/Namespace.v ===== *)
(** * A command shell in its own namespaces (system/linux_namespace)

    The parent makes a pair of network interfaces and numbers the child's network; the child,
    cloned into new namespaces but into the same memory, sets its interface up and runs typed
    commands.  Both use the buffer [g_cmd].  Every function is a program of atomic accesses,
    so that it can be run alone or interleaved with the other process. *)

From Stdlib Require Import ZArith Lia ZifyBool.
From stdpp Require Import base gmap list strings numbers.
From S2P Require Import Prelude Posix Redis Icap Files.

(** ** Shared memory (globals.c) *)

(** The globals, the terminal's input that has not been read, and the counter file. *)
Record ns := mk_ns { g_cmd : list Z; g_netcnt : Z; g_vethid : Z; stdin : list Z; cnt_file : list Z }.

Definition CMD_SIZE : Z := 512.
Definition NETWORK_COUNT_FILE : string := "/var/.exec_ns_net_cnt".
Definition O_RDWR_CREAT : Z := 66.

Definition set_cmd (c : list Z) (g : ns) : ns := mk_ns c (g_netcnt g) (g_vethid g) (stdin g) (cnt_file g).
Definition set_netcnt (n : Z) (g : ns) : ns := mk_ns (g_cmd g) n (g_vethid g) (stdin g) (cnt_file g).
Definition set_vethid (n : Z) (g : ns) : ns := mk_ns (g_cmd g) (g_netcnt g) n (stdin g) (cnt_file g).
Definition set_stdin (s : list Z) (g : ns) : ns := mk_ns (g_cmd g) (g_netcnt g) (g_vethid g) s (cnt_file g).
Definition set_cnt_file (f : list Z) (g : ns) : ns := mk_ns (g_cmd g) (g_netcnt g) (g_vethid g) (stdin g) f.

(** ** Programs of atomic accesses *)

Inductive prog (A : Type) : Type :=
| Ret (a : A)
| Act {X : Type} (m : M (world ns) X) (k : X → prog A).
Arguments Ret {A} _.
Arguments Act {A X} _ _.

Fixpoint prog_bind {A B} (f : A → prog B) (p : prog A) : prog B :=
  match p with Ret a => f a | Act m k => Act m (λ x, prog_bind f (k x)) end.

#[export] Instance ns_ret : MRet prog := @Ret.
#[export] Instance ns_bind : MBind prog := @prog_bind.

Definition atomic {A} (m : M (world ns) A) : prog A := Act m Ret.

Fixpoint denote {A} (p : prog A) : M (world ns) A :=
  match p with Ret a => mret a | Act m k => x ← m; denote (k x) end.

Definition step {A} (p : prog A) : M (world ns) (prog A) :=
  match p with Ret a => mret (Ret a) | Act m k => x ← m; mret (k x) end.

(** The child [p] beside the rest [q] of the parent. *)
Fixpoint par {A B} (sched : list bool) (p : prog A) (q : prog B) : M (world ns) (A * B) :=
  match sched with
  | [] => b ← denote q; a ← denote p; mret (a, b)
  | true :: sched => p ← step p; par sched p q
  | false :: sched => q ← step q; par sched p q
  end.

(** ** Strings *)

(** [%d] *)
Definition fmt_d (n : Z) : list Z := if n <? 0 then 45 :: codes (dec (- n)) else codes (dec n).

(** [snprintf(b, n, ...)] into a buffer of [n] bytes. *)
Definition snprintf (b : list Z) (n : Z) (s : list Z) : list Z :=
  let t := take (Z.to_nat (n - 1)) s ++ [0] in t ++ drop (length t) b.

(** An argument of type [char *]: a literal or the global buffer. *)
Inductive ptr := Lit (s : list Z) | Cmd.

Section code.
Context {os : OS}.

Definition say (fmt : string) (args : list Z) : prog unit := atomic (sys_ (Printf fmt args)).
Definition perror_ (s : string) : prog unit := atomic (sys_ (Ext ("perror " +:+ s) [])).

(** The string an argument points to; one that does not end inside the buffer is undefined. *)
Definition string_at (p : ptr) : M (world ns) (list Z) :=
  match p with
  | Lit s => mret s
  | Cmd => g ← get_glob; if bool_decide (0 ∈ g_cmd g) then mret (cstr (g_cmd g)) else undef
  end.

(** [g_cmd[i] = v] *)
Definition store_cmd (i v : Z) : M (world ns) unit :=
  if (0 <=? i) && (i <? CMD_SIZE) then upd_glob (λ g, set_cmd (<[Z.to_nat i := v]> (g_cmd g)) g) else undef.

(** ** helper.c *)

Definition system (p : ptr) : prog unit := atomic (s ← string_at p; sys_ (Ext "system" s)).

Definition exec_cmd (cmd : ptr) : prog unit :=
  atomic (s ← string_at cmd; sys_ (Printf "%s" s));;
  system cmd.

(** ** parent.c *)

Definition parent_gen_vethid : prog Z := r ← atomic (sys (Ext "time" [])); mret (r_ret r mod 2 ^ 32).

(** Bytes written at the start of the file. *)
Definition write_cnt (fd cnt : Z) : M (world ns) unit :=
  r ← sys (Write fd (GetSetStruct.le 4 cnt));
  upd_glob (λ g, let n := Z.to_nat (Z.min 4 (r_ret r)) in set_cnt_file (take n (GetSetStruct.le 4 cnt) ++ drop n (cnt_file g)) g).

(** The read returns what the file holds, up to four bytes, unless it fails. *)
Definition read_cnt (fd : Z) : M (world ns) (Z * list Z) :=
  r ← sys (Read fd 4);
  g ← get_glob;
  mret (if r_ret r <? 0 then (r_ret r, []) else let b := take 4 (cnt_file g) in (Z.of_nat (length b), b)).

Definition parent_get_netcnt : prog Z :=
  r ← atomic (sys (Open NETWORK_COUNT_FILE O_RDWR_CREAT));
  let fd := r_ret r in
  if fd <? 0 then perror_ "read";; mret (-1)
  else
    '(ret, b) ← atomic (read_cnt fd);
    if ret <? 0 then perror_ "read";; mret (-1)
    else
      let '(ret, cnt) := if ret <? 4 then (2, 2) else let cnt := GetSetStruct.unle b in (sgn 32 cnt, (cnt + 1) mod 2 ^ 32) in
      atomic (sys_ (Ext "lseek" [fd; 0; 0]));;
      atomic (write_cnt fd cnt);;
      atomic (sys_ (Close fd));;
      mret ret.

Definition link_cmd (vethid child_pid : Z) : list Z :=
  codes "ip link add name vethm" ++ hex vethid ++ codes "-0 type veth peer name vethm" ++ hex vethid ++ codes "-1 netns " ++ fmt_d child_pid.

Definition parent_init_veth_pair (child_pid : Z) : prog unit :=
  id ← parent_gen_vethid;
  atomic (upd_glob (set_vethid id));;
  atomic (upd_glob (λ g, set_cmd (snprintf (g_cmd g) CMD_SIZE (link_cmd (g_vethid g) child_pid)) g));;
  exec_cmd Cmd;;
  n ← parent_get_netcnt;
  atomic (upd_glob (set_netcnt n)).

(** The number of the child's process, as the parent sees it. *)
Definition parent_spawn_child : prog Z :=
  r ← atomic (sys (Ext "clone" []));
  if r_ret r <? 0 then perror_ "clone";; mret (-1) else mret (r_ret r).

(** After the clone: the child may already run. *)
Definition parent_banner (child_pid : Z) : prog unit :=
  r ← atomic (sys (Ext "getpid" [])); say "###Parent Process### PID: %ld, Child PID: %d" [r_ret r; child_pid].

(** ** child.c *)

(** The next character of the terminal, or EOF. *)
Definition getchar : M (world ns) Z :=
  g ← get_glob;
  match stdin g with [] => mret (-1) | c :: s => set_glob (set_stdin s g);; mret c end.

(** The length is not used. *)
Fixpoint child_get_cmd (fuel : nat) (i : Z) : prog unit :=
  match fuel with
  | O => atomic (λ _, OutOfFuel)
  | S fuel =>
      ch ← atomic getchar;
      if ch =? 10 then atomic (store_cmd i 0)
      else atomic (store_cmd i (ch mod 256));; child_get_cmd fuel (i + 1)
  end.

Fixpoint child_cmd_loop (fuel : nat) : prog unit :=
  match fuel with
  | O => atomic (λ _, OutOfFuel)
  | S n =>
      say ">" [];;
      child_get_cmd fuel 0;;
      s ← atomic (string_at Cmd);
      if bool_decide (head s = Some 113) then say "Exiting now..." []
      else
        s ← atomic (string_at Cmd);
        (if (0 <? length s)%nat then system Cmd else mret tt);;
        child_cmd_loop n
  end.

Definition ifconfig_cmd (vethid netcnt : Z) : list Z :=
  codes "ifconfig vethm" ++ hex vethid ++ codes "-1 192.168.1." ++ fmt_d netcnt ++ codes "/24 up".

(** The second half of [child_fn]: the interface is set up, then the loop runs. *)
Definition child_setup (fuel : nat) : prog Z :=
  atomic (upd_glob (λ g, set_cmd (snprintf (g_cmd g) CMD_SIZE (ifconfig_cmd (g_vethid g) (g_netcnt g))) g));;
  exec_cmd Cmd;;
  child_cmd_loop fuel;;
  mret 0.

Definition child_fn (fuel : nat) : prog Z :=
  atomic (sys_ (Sleep 1));;
  p ← atomic (sys (Ext "getpid" []));
  pp ← atomic (sys (Ext "getppid" []));
  say "###Child Process### PID: %ld, PPID: %ld" [r_ret p; r_ret pp];;
  exec_cmd (Lit (codes "ip link"));;
  child_setup fuel.

(** ** main.c *)

(** [sched] says whose access is next once the child exists; [waitpid] comes when it has ended. *)
Definition main (fuel : nat) (sched : list bool) : M (world ns) Z :=
  child_pid ← denote parent_spawn_child;
  if child_pid <? 0 then denote (perror_ "parent_spawn_child");; exit_with 1
  else
    par sched (child_fn fuel) (parent_banner child_pid;; parent_init_veth_pair child_pid);;
    sys_ (Waitpid child_pid 0);;
    mret 0.

End code.

(** ** Rely and guarantee *)

(** The buffer is never written past its end, and its last byte ends every string in it. *)
Definition good (cmd : list Z) : Prop := length cmd = Z.to_nat CMD_SIZE ∧ cmd !! 511%nat = Some 0.

(** What only the child writes once the parent has formatted its command, and what only the
    parent writes. *)
Definition child_view (w : world ns) : list Z * list Z := (stdin (w_glob w), g_cmd (w_glob w)).
Definition parent_view (w : world ns) : Z * Z * list Z := (g_vethid (w_glob w), g_netcnt (w_glob w), cnt_file (w_glob w)).

(** The child when the parent does not write the buffer any more: every access is defined, keeps
    the buffer good and leaves what is the parent's alone. *)
Fixpoint keeps {A} (p : prog A) (Q : A → list Z * list Z → Prop) (v : list Z * list Z) : Prop :=
  match p with
  | Ret a => Q a v
  | Act m k => ∀ w, good (g_cmd (w_glob w)) → child_view w = v →
      wp m (λ x w', good (g_cmd (w_glob w')) ∧ parent_view w' = parent_view w ∧ keeps (k x) Q (child_view w')) w
  end.

(** The child while the parent may still write the buffer, once: [Qf] is for the case that it does. *)
Fixpoint beside {A} (p : prog A) (Q : A → list Z * list Z → Prop) (Qf : A → list Z * list Z → Prop) (v : list Z * list Z) : Prop :=
  (∀ cmd, good cmd → keeps p Qf (v.1, cmd)) ∧
  match p with
  | Ret a => Q a v
  | Act m k => ∀ w, good (g_cmd (w_glob w)) → child_view w = v →
      wp m (λ x w', good (g_cmd (w_glob w')) ∧ parent_view w' = parent_view w ∧ beside (k x) Q Qf (child_view w')) w
  end.

(** The parent, which writes the buffer at most once, as long as [b] is true. *)
Fixpoint guarantees {A} (b : bool) (q : prog A) (Q : bool → A → Z * Z * list Z → Prop) (u : Z * Z * list Z) : Prop :=
  match q with
  | Ret a => Q b a u
  | Act m k => ∀ w, good (g_cmd (w_glob w)) → parent_view w = u →
      wp m (λ x w', stdin (w_glob w') = stdin (w_glob w) ∧ ∃ b',
        (b' = b ∧ g_cmd (w_glob w') = g_cmd (w_glob w) ∨ b = true ∧ b' = false ∧ good (g_cmd (w_glob w'))) ∧
        guarantees b' (k x) Q (parent_view w')) w
  end.

Section rules.
Context {A B : Type}.
Implicit Types (p : prog A) (f : A → prog B) (v : list Z * list Z).

Lemma keeps_bind p f Q v : keeps p (λ a v', keeps (f a) Q v') v → keeps (p ≫= f) Q v.
Proof.
  revert v. induction p as [a|X m k IH]; intros v; [done|]. cbn. intros H w Hg Hv. eapply wp_mono; [by apply H|]. cbn.
  intros x w' (H1 & H2 & H3). split; [done|]. split; [done|]. by apply IH.
Qed.

Lemma keeps_mono p (P Q : A → list Z * list Z → Prop) v : keeps p P v → (∀ a v', P a v' → Q a v') → keeps p Q v.
Proof.
  intros H HPQ. revert v H. induction p as [a|X m k IH]; intros v; [apply HPQ|]. cbn. intros H w Hg Hv. eapply wp_mono; [by apply H|]. cbn.
  intros x w' (H1 & H2 & H3). split; [done|]. split; [done|]. by apply IH.
Qed.

Lemma beside_keeps p Q Qf v cmd : beside p Q Qf v → good cmd → keeps p Qf (v.1, cmd).
Proof. destruct p; intros [H _]; apply H. Qed.

Lemma beside_bind p f Q Qf v : beside p (λ a v', beside (f a) Q Qf v') (λ a v', keeps (f a) Qf v') v → beside (p ≫= f) Q Qf v.
Proof.
  revert v. induction p as [a|X m k IH]; intros v; [by intros [_ H]|]. cbn. intros [Hf H]. split.
  - intros cmd Hc. exact (keeps_bind (Act m k) f Qf _ (Hf cmd Hc)).
  - intros w Hg Hv. eapply wp_mono; [by apply H|]. cbn. intros x w' (H1 & H2 & H3). split; [done|]. split; [done|]. by apply IH.
Qed.

Lemma beside_mono p (P Q Pf Qf : A → list Z * list Z → Prop) v : beside p P Pf v → (∀ a v', P a v' → Q a v') → (∀ a v', Pf a v' → Qf a v') → beside p Q Qf v.
Proof.
  intros H HPQ Hf. revert v H. induction p as [a|X m k IH]; intros v [H1 H2].
  - split; [|by apply HPQ]. intros cmd Hc. by apply Hf, H1.
  - split; [intros cmd Hc; eapply keeps_mono; [by apply H1|done]|]. intros w Hg Hv. eapply wp_mono; [by apply H2|]. cbn.
    intros x w' (H3 & H4 & H5). split; [done|]. split; [done|]. by apply IH.
Qed.

Lemma guarantees_bind b p f Q u : guarantees b p (λ b' a u', guarantees b' (f a) Q u') u → guarantees b (p ≫= f) Q u.
Proof.
  revert b u. induction p as [a|X m k IH]; intros b u H; [by apply H|]. cbn in *. intros w Hg Hu. eapply wp_mono; [by apply H|].
  cbn. intros x w' (Hs & b' & Hb & Hk). split; [done|]. exists b'. split; [done|]. by apply IH.
Qed.

End rules.

(** Both alone. *)
Lemma denote_keeps {A} (p : prog A) Q w : good (g_cmd (w_glob w)) → keeps p Q (child_view w) →
  wp (denote p) (λ a w', good (g_cmd (w_glob w')) ∧ parent_view w' = parent_view w ∧ Q a (child_view w')) w.
Proof.
  revert w. induction p as [a|X m k IH]; intros w Hg H; [done|]. cbn in *. apply wp_bind. eapply wp_mono; [by apply H|].
  cbn. intros x w' (Hg' & Hp & Hk). eapply wp_mono; [by apply IH|]. cbn. intros a w2 (H1 & H2 & H3). split; [done|]. split; [congruence|done].
Qed.

Lemma denote_guarantees {A} b (q : prog A) Q w : good (g_cmd (w_glob w)) → guarantees b q Q (parent_view w) →
  wp (denote q) (λ a w', good (g_cmd (w_glob w')) ∧ stdin (w_glob w') = stdin (w_glob w) ∧ ∃ b',
    (b' = b ∧ g_cmd (w_glob w') = g_cmd (w_glob w) ∨ b = true ∧ b' = false) ∧ Q b' a (parent_view w')) w.
Proof.
  revert b w. induction q as [a|X m k IH]; intros b w Hg H.
  { split; [done|]. split; [done|]. exists b. split; [by left|done]. }
  cbn in *. apply wp_bind. eapply wp_mono; [by apply H|].
  cbn. intros x w' (Hs & b1 & Hb & Hk). assert (good (g_cmd (w_glob w'))) as Hg' by (destruct Hb as [[_ ->]|(_ & _ & ?)]; done).
  eapply wp_mono; [by apply (IH x b1)|]. cbn. intros a w2 (H1 & H2 & b2 & Hb2 & HQ). split; [done|]. split; [congruence|]. exists b2. split; [|done].
  destruct Hb as [[-> Hc]|(-> & -> & _)]; destruct Hb2 as [[-> Hc2]|[? ->]]; try done; [left; split; [done|congruence]|by right|by right].
Qed.

(** Every interleaving, from either situation. *)
Lemma par_keeps {A B} sched (p : prog A) (q : prog B) Q Q' w : good (g_cmd (w_glob w)) →
  keeps p Q (child_view w) → guarantees false q (λ _, Q') (parent_view w) →
  wp (par sched p q) (λ ab w', good (g_cmd (w_glob w')) ∧ Q ab.1 (child_view w') ∧ Q' ab.2 (parent_view w')) w.
Proof.
  revert p q w. induction sched as [|[] sched IH]; intros p q w Hg Hp Hq; cbn [par]; apply wp_bind.
  - eapply wp_mono; [by eapply (denote_guarantees false)|]. cbn. intros b w1 (Hg1 & Hs1 & b' & Hb & HQ). apply wp_bind. destruct Hb as [[_ Hc]|[? _]]; [|done].
    eapply wp_mono; [apply denote_keeps; [done|]|].
    { unfold child_view in Hp |- *. rewrite Hs1, Hc. exact Hp. }
    cbn. intros a w2 (Hg2 & Hp2 & HQ2). split; [done|]. split; [done|]. by rewrite Hp2.
  - destruct p as [a|X m k]; [by apply IH|]. cbn [step]. apply wp_bind. cbn in Hp. eapply wp_mono; [by apply Hp|]. cbn. intros x w1 (Hg1 & Hp1 & Hk).
    apply IH; [done|done|]. by rewrite Hp1.
  - destruct q as [b|X m k]; [by apply IH|]. cbn [step]. apply wp_bind. cbn in Hq. eapply wp_mono; [by apply Hq|]. cbn. intros x w1 (Hs1 & b' & Hb & Hk).
    destruct Hb as [[-> Hc]|[? _]]; [|done]. apply IH; [by rewrite Hc| |done]. unfold child_view in Hp |- *. rewrite Hs1, Hc. exact Hp.
Qed.

Lemma par_beside {A B} sched (p : prog A) (q : prog B) Q Q' w : good (g_cmd (w_glob w)) →
  beside p Q Q (child_view w) → guarantees true q (λ _, Q') (parent_view w) →
  wp (par sched p q) (λ ab w', good (g_cmd (w_glob w')) ∧ Q ab.1 (child_view w') ∧ Q' ab.2 (parent_view w')) w.
Proof.
  revert p q w. induction sched as [|[] sched IH]; intros p q w Hg Hp Hq; cbn [par].
  - apply wp_bind. eapply wp_mono; [by eapply (denote_guarantees true)|]. cbn. intros b w1 (Hg1 & Hs1 & b' & Hb & HQ). apply wp_bind.
    eapply wp_mono; [apply denote_keeps; [done|]|].
    { unfold child_view in Hp |- *. rewrite Hs1. by eapply (beside_keeps _ _ _ (stdin (w_glob w), g_cmd (w_glob w))). }
    cbn. intros a w2 (Hg2 & Hp2 & HQ2). split; [done|]. split; [done|]. by rewrite Hp2.
  - destruct p as [a|X m k]; [apply wp_bind; by apply IH|]. cbn [step]. apply wp_bind, wp_bind. cbn in Hp. eapply wp_mono; [by apply Hp|]. cbn. intros x w1 (Hg1 & Hp1 & Hk).
    apply IH; [done|done|]. by rewrite Hp1.
  - destruct q as [b|X m k]; [apply wp_bind; by apply IH|]. cbn [step]. apply wp_bind, wp_bind. cbn in Hq. eapply wp_mono; [by apply Hq|]. cbn. intros x w1 (Hs1 & b' & Hb & Hk).
    destruct Hb as [[-> Hc]|(_ & -> & Hg1)].
    + apply IH; [by rewrite Hc| |done]. unfold child_view in Hp |- *. rewrite Hs1, Hc. exact Hp.
    + apply par_keeps; [done| |done]. unfold child_view in Hp |- *. rewrite Hs1. by eapply (beside_keeps _ _ _ (stdin (w_glob w), g_cmd (w_glob w))).
Qed.

(** ** The buffer *)

(** A line read into the buffer from index [i]. *)
Fixpoint typed (i : nat) (line cmd : list Z) : list Z :=
  match line with [] => <[i := 0]> cmd | c :: line => typed (S i) line (<[i := c]> cmd) end.

Lemma good_store i v cmd : good cmd → ((i < 511)%nat ∨ v = 0) → good (<[i := v]> cmd).
Proof.
  intros [Hl Hz] Hi. split; [by rewrite length_insert|]. destruct (decide (i = 511%nat)) as [->|Hne].
  - rewrite list_lookup_insert_eq by (rewrite Hl; unfold CMD_SIZE; lia). destruct Hi as [Hi| ->]; [lia|done].
  - by rewrite list_lookup_insert_ne.
Qed.

Lemma good_typed i line cmd : good cmd → (i + length line ≤ 511)%nat → good (typed i line cmd).
Proof.
  revert i cmd. induction line as [|c line IH]; intros i cmd Hg Hi; cbn in *; [apply good_store; auto|]. apply IH; [|lia]. apply good_store; [done|left; lia].
Qed.

Lemma good_terminated cmd : good cmd → 0 ∈ cmd.
Proof. intros [_ Hz]. by eapply list_elem_of_lookup_2. Qed.

Lemma good_snprintf cmd s : good cmd → good (snprintf cmd CMD_SIZE s).
Proof.
  intros [Hl Hz]. unfold snprintf. change (Z.to_nat (CMD_SIZE - 1)) with 511%nat. set (t := take 511 s ++ [0]).
  assert (length t = S (length (take 511 s))) as Ht by (unfold t; rewrite length_app; cbn; lia). assert (length t ≤ 512)%nat by (rewrite Ht, length_take; lia). change (Z.to_nat CMD_SIZE) with 512%nat in Hl. split.
  - rewrite length_app, length_drop, Hl. change (Z.to_nat CMD_SIZE) with 512%nat. lia.
  - destruct (decide (length t = 512%nat)) as [E|E].
    + rewrite lookup_app_l by lia. unfold t. rewrite lookup_app_r by lia. replace (511 - length (take 511 s))%nat with 0%nat by lia. done.
    + rewrite lookup_app_r, lookup_drop by lia. rewrite <- Hz. f_equal. lia.
Qed.

(** A line, its end included, read at the start of the buffer is the string in it. *)
Lemma typed_lookup i line cmd j : (j < i)%nat → typed i line cmd !! j = cmd !! j.
Proof.
  revert i cmd. induction line as [|c line IH]; intros i cmd Hj; cbn; [apply list_lookup_insert_ne; lia|]. rewrite IH by lia. apply list_lookup_insert_ne. lia.
Qed.

Lemma cstr_typed line cmd : (length line < length cmd)%nat → cstr (typed 0 line cmd) = cstr line.
Proof.
  intros Hl. assert (∀ i cmd, (i + length line < length cmd)%nat → cstr (drop i (typed i line cmd)) = cstr line) as H.
  { clear. induction line as [|c line IH]; intros i cmd Hi; cbn [typed length] in *.
    - rewrite (drop_S _ 0) by (apply list_lookup_insert_eq; lia). done.
    - rewrite (drop_S _ c) by (rewrite typed_lookup by lia; apply list_lookup_insert_eq; lia). cbn.
      destruct (c =? 0); [done|]. f_equal. apply IH. rewrite length_insert. lia. }
  specialize (H 0%nat cmd ltac:(lia)). by rewrite drop_0 in H.
Qed.

Lemma head_cstr line : head (cstr line) = Some 113 ↔ head line = Some 113.
Proof. destruct line as [|c line]; [done|]. cbn. destruct (Z.eqb_spec c 0) as [->|]; [|done]. cbn. split; intros [=]. Qed.

(** ** The accesses of the child *)

Section child.
Context {os : OS}.
Implicit Types (v : list Z * list Z).

Lemma keeps_sys c (Q : reply → list Z * list Z → Prop) v : (∀ r, Q r v) → keeps (atomic (sys c)) Q v.
Proof. intros H w Hg <-. split; [done|]. split; [done|]. apply H. Qed.

Lemma keeps_sys_ c (Q : unit → list Z * list Z → Prop) v : Q tt v → keeps (atomic (sys_ c)) Q v.
Proof. intros H w Hg <-. split; [done|]. by split. Qed.

Lemma keeps_upd f (Q : unit → list Z * list Z → Prop) s cmd : (∀ g, good (g_cmd g) → stdin (set_cmd (f g) g) = s → good (f g) ∧ Q tt (s, f g)) →
  keeps (atomic (upd_glob (λ g, set_cmd (f g) g))) Q (s, cmd).
Proof.
  intros H w Hg [= Hs Hc]. destruct (H (w_glob w) Hg Hs) as [H1 H2]. split; [done|]. split; [done|]. unfold child_view. cbn. by rewrite Hs.
Qed.

Lemma string_wp p (Q : list Z → world ns → Prop) w : good (g_cmd (w_glob w)) →
  Q (match p with Lit t => t | Cmd => cstr (g_cmd (w_glob w)) end) w → wp (string_at p) Q w.
Proof.
  intros Hg HQ. destruct p as [t|]; [done|]. cbn [string_at]. wp_step. apply wp_gets. by rewrite bool_decide_eq_true_2 by by apply good_terminated.
Qed.

Lemma keeps_string p (Q : list Z → list Z * list Z → Prop) s cmd : (good cmd → Q (match p with Lit t => t | Cmd => cstr cmd end) (s, cmd)) →
  keeps (atomic (string_at p)) Q (s, cmd).
Proof. intros H w Hg [= <- <-]. apply string_wp; [done|]. split; [done|]. split; [done|]. by apply H. Qed.

Lemma keeps_use p c (Q : unit → list Z * list Z → Prop) v : Q tt v → keeps (atomic (s ← string_at p; sys_ (c s))) Q v.
Proof. intros H w Hg <-. wp_step. apply string_wp; [done|]. by split. Qed.

Lemma keeps_exec p (Q : unit → list Z * list Z → Prop) v : Q tt v → keeps (exec_cmd p) Q v.
Proof. intros H. by apply keeps_bind, keeps_use, (keeps_use p (Ext "system")). Qed.

Lemma keeps_getchar c s cmd (Q : Z → list Z * list Z → Prop) : Q c (s, cmd) → keeps (atomic getchar) Q (c :: s, cmd).
Proof.
  intros H w Hg [= Hs Hc]. unfold getchar. wp_step. apply wp_gets. cbn. rewrite Hs. split; [done|]. split; [done|]. unfold child_view. cbn. by rewrite Hc.
Qed.

Lemma keeps_store i (v : Z) s cmd (Q : unit → list Z * list Z → Prop) : 0 ≤ i ≤ 511 → i < 511 ∨ v = 0 → Q tt (s, <[Z.to_nat i := v]> cmd) →
  keeps (atomic (store_cmd i v)) Q (s, cmd).
Proof.
  intros Hi Hv H w Hg [= Hs Hc]. unfold store_cmd. replace ((0 <=? i) && _) with true by (unfold CMD_SIZE; lia). apply wp_modify. cbn.
  split; [apply good_store; [done|lia]|]. split; [done|]. unfold child_view. cbn. by rewrite Hs, Hc.
Qed.

End child.

(** An access and then the rest: while the parent may write, and after it has written. *)
Lemma beside_atomic {A X} (m : M (world ns) X) (f : X → prog A) Q Qf v :
  keeps (atomic m) (λ x v', beside (f x) Q Qf v') v → (∀ cmd, good cmd → keeps (atomic m ≫= f) Qf (v.1, cmd)) → beside (atomic m ≫= f) Q Qf v.
Proof. intros H Hf. split; [done|]. intros w Hg Hv. eapply wp_mono; [by apply H|]. done. Qed.

Lemma beside_last {A} (m : M (world ns) A) Q Qf v :
  keeps (atomic m) (λ x v', Q x v' ∧ ∀ cmd, good cmd → Qf x (v'.1, cmd)) v → (∀ cmd, good cmd → keeps (atomic m) Qf (v.1, cmd)) → beside (atomic m) Q Qf v.
Proof.
  intros H Hf. split; [done|]. intros w Hg Hv. eapply wp_mono; [by apply H|]. cbn. intros x w' (H1 & H2 & H3 & H4). split; [done|]. split; [done|]. by split.
Qed.

Ltac k_step :=
  lazymatch goal with
  | |- keeps (mbind _ _) _ _ => apply keeps_bind
  | |- keeps (say _ _) _ _ => apply keeps_sys_
  | |- keeps (atomic (sys _)) _ _ => apply keeps_sys; let r := fresh "r" in intros r
  | |- keeps (atomic (sys_ _)) _ _ => apply keeps_sys_
  | |- keeps (atomic (string_at _)) _ _ => apply keeps_string; intros _
  | |- keeps (system ?p) _ _ => apply (keeps_use p (Ext "system"))
  | |- keeps (exec_cmd _) _ _ => apply keeps_exec
  | |- keeps (mret ?a) ?Q ?v => change (Q a v); cbn beta
  end.

(** ** Lines of the terminal *)

Definition input (ls : list (list Z)) : list Z := concat ((λ l, l ++ [10]) <$> ls).
Definition is_line (l : list Z) : Prop := (10 ∉ l) ∧ (length l ≤ 511)%nat ∧ Forall (λ c, 0 ≤ c < 256) l.
Definition quits (l : list Z) : bool := bool_decide (head l = Some 113).
Definition quitting (ls : list (list Z)) : nat := length (filter (λ l, quits l = true) ls).

Lemma quitting_cons l ls : quitting (l :: ls) = ((if decide (head l = Some 113%Z) then 1 else 0) + quitting ls)%nat.
Proof.
  unfold quitting, quits. rewrite filter_cons. destruct (decide (head l = Some 113)) as [H|H].
  - rewrite decide_True by by apply bool_decide_eq_true_2. done.
  - rewrite decide_False; [done|]. by rewrite bool_decide_eq_false_2.
Qed.

Lemma input_cons l ls : input (l :: ls) = l ++ 10 :: input ls.
Proof. unfold input. cbn. by rewrite <- app_assoc. Qed.

Section child.
Context {os : OS}.

Lemma get_keeps fuel i line rest cmd (Q : unit → list Z * list Z → Prop) : 10 ∉ line → Forall (λ c, 0 ≤ c < 256) line → 0 ≤ i → i + Z.of_nat (length line) ≤ 511 →
  (length line < fuel)%nat → Q tt (rest, typed (Z.to_nat i) line cmd) → keeps (child_get_cmd fuel i) Q (line ++ 10 :: rest, cmd).
Proof.
  revert i line cmd. induction fuel as [|fuel IH]; intros i line cmd Hn Hc Hi Hl Hf HQ; [lia|]. cbn [child_get_cmd]. k_step. destruct line as [|c line]; cbn [app length] in *.
  - apply keeps_getchar. cbn. apply keeps_store; [lia|lia|done].
  - apply list.Forall_cons in Hc as [Hc Hcs]. apply keeps_getchar. replace (c =? 10) with false by (symmetry; apply Z.eqb_neq; intros ->; set_solver).
    k_step. apply keeps_store; [lia|lia|]. rewrite Z.mod_small by lia. apply IH; [set_solver|done|lia|lia|lia|].
    cbn in HQ. by replace (Z.to_nat (i + 1)) with (S (Z.to_nat i)) by lia.
Qed.

Lemma loop_keeps fuel ls cmd : Forall is_line ls → (1 ≤ quitting ls)%nat → (length (input ls) < fuel)%nat → good cmd →
  keeps (child_cmd_loop fuel) (λ _ _, True) (input ls, cmd).
Proof.
  revert ls cmd. induction fuel as [|fuel IH]; intros ls cmd Hls Hq Hf Hg; [lia|]. destruct ls as [|l ls]; [cbn in Hq; lia|].
  apply list.Forall_cons in Hls as [(Hn & Hl & Hc) Hls]. rewrite input_cons in Hf |- *. rewrite length_app in Hf. cbn [length] in Hf. cbn [child_cmd_loop]. k_step. k_step. k_step.
  apply get_keeps; [done|done|lia|lia|lia|]. k_step. k_step.
  rewrite cstr_typed by (destruct Hg as [-> _]; unfold CMD_SIZE; lia). destruct (decide (head l = Some 113)) as [Hh|Hh].
  - rewrite bool_decide_eq_true_2 by by apply head_cstr. by k_step.
  - rewrite bool_decide_eq_false_2 by by rewrite head_cstr. k_step. k_step. k_step.
    assert (keeps (child_cmd_loop fuel) (λ _ _, True) (input ls, typed (Z.to_nat 0) l cmd)) as Hrec.
    { apply IH; [done| |lia|by apply good_typed]. rewrite quitting_cons, decide_False in Hq by done. lia. }
    destruct (_ <? _)%nat; by k_step.
Qed.

(** The rest of a round, from the test on, whatever is in the buffer. *)
Definition child_test (fuel : nat) : prog unit :=
  s ← atomic (string_at Cmd);
  if bool_decide (head s = Some 113) then say "Exiting now..." []
  else s ← atomic (string_at Cmd); (if (0 <? length s)%nat then system Cmd else mret tt);; child_cmd_loop fuel.

Lemma test_keeps fuel ls cmd : Forall is_line ls → (1 ≤ quitting ls)%nat → (length (input ls) < fuel)%nat → good cmd →
  keeps (child_test fuel) (λ _ _, True) (input ls, cmd).
Proof.
  intros Hls Hq Hf Hg. unfold child_test. k_step. k_step. destruct (bool_decide _); [by k_step|]. k_step. k_step. k_step.
  destruct (_ <? _)%nat; k_step; by apply loop_keeps.
Qed.

(** Reading a line while the parent may write. *)
Lemma get_beside {A} fuel i line rest cmd (f : unit → prog A) Q Qf : 10 ∉ line → Forall (λ c, 0 ≤ c < 256) line → 0 ≤ i → i + Z.of_nat (length line) ≤ 511 →
  (length line < fuel)%nat → beside (f tt) Q Qf (rest, typed (Z.to_nat i) line cmd) → (∀ cmd, good cmd → keeps (f tt) Qf (rest, cmd)) →
  beside (child_get_cmd fuel i ≫= f) Q Qf (line ++ 10 :: rest, cmd).
Proof.
  revert i line cmd. induction fuel as [|fuel IH]; intros i line cmd Hn Hc Hi Hl Hf HQ HQf; [lia|].
  assert (∀ cmd, good cmd → keeps (child_get_cmd (S fuel) i ≫= f) Qf (line ++ 10 :: rest, cmd)) as Hk.
  { intros cmd' Hg. k_step. apply get_keeps; try done. apply HQf, good_typed; [done|lia]. }
  cbn [child_get_cmd] in *. split; [apply Hk|]. intros w Hg Hv.
  cut (keeps (atomic getchar) (λ ch v, beside ((if ch =? 10 then atomic (store_cmd i 0) else atomic (store_cmd i (ch mod 256));; child_get_cmd fuel (i + 1)) ≫= f) Q Qf v) (line ++ 10 :: rest, cmd));
    [intros H; by apply H|]. clear w Hg Hv. destruct line as [|c line]; cbn [app length] in *.
  - apply keeps_getchar. change (10 =? 10) with true. cbn iota. apply beside_atomic; [apply keeps_store; [lia|lia|done]|]. intros cmd' Hg. k_step. apply keeps_store; [lia|lia|]. apply HQf, good_store; auto.
  - apply list.Forall_cons in Hc as [Hc Hcs]. apply keeps_getchar. replace (c =? 10) with false by (symmetry; apply Z.eqb_neq; intros ->; set_solver).
    split.
    + intros cmd' Hg. refine (keeps_bind (atomic (store_cmd i (c mod 256));; child_get_cmd fuel (i + 1)) f Qf (line ++ 10 :: rest, cmd') _). k_step. apply keeps_store; [lia|lia|]. apply get_keeps; [set_solver|done|lia|lia|lia|].
      apply HQf, good_typed; [apply good_store; [done|lia]|lia].
    + intros w Hg Hv. cut (keeps (atomic (store_cmd i (c mod 256))) (λ _ v, beside (child_get_cmd fuel (i + 1) ≫= f) Q Qf v) (line ++ 10 :: rest, cmd)); [intros H; by apply H|].
      apply keeps_store; [lia|lia|]. rewrite Z.mod_small by lia. apply IH; [set_solver|done|lia|lia|lia| |done].
      cbn in HQ. by replace (Z.to_nat (i + 1)) with (S (Z.to_nat i)) by lia.
Qed.

Lemma loop_beside fuel ls cmd : Forall is_line ls → (2 ≤ quitting ls)%nat → (length (input ls) < fuel)%nat → good cmd →
  beside (child_cmd_loop fuel) (λ _ _, True) (λ _ _, True) (input ls, cmd).
Proof.
  revert ls cmd. induction fuel as [|fuel IH]; intros ls cmd Hls Hq Hf Hg; [lia|]. assert (∀ cmd, good cmd → keeps (child_cmd_loop (S fuel)) (λ _ _, True) (input ls, cmd)) as Hk.
  { intros cmd' Hg'. apply loop_keeps; try done. lia. }
  destruct ls as [|l ls]; [cbn in Hq; lia|]. rewrite input_cons in Hf, Hk |- *. rewrite length_app in Hf. cbn [length] in Hf.
  pose proof Hls as [(Hn & Hl & Hc) Hls']%list.Forall_cons. apply beside_atomic; [|exact Hk]. k_step. apply get_beside; [done|done|lia|lia|lia| |].
  - change (beside (child_test fuel) (λ _ _, True) (λ _ _, True) (input ls, typed (Z.to_nat 0) l cmd)).
    assert (1 ≤ quitting ls)%nat as Hq1. { rewrite quitting_cons in Hq. destruct (decide _); lia. }
    apply beside_atomic; [|intros cmd' Hg'; apply test_keeps; try done; lia]. k_step.
    rewrite cstr_typed by (destruct Hg as [-> _]; unfold CMD_SIZE; lia). destruct (decide (head l = Some 113)) as [Hh|Hh].
    + rewrite bool_decide_eq_true_2 by by apply head_cstr. apply beside_last; [by k_step|]. intros cmd' Hg'. by k_step.
    + rewrite bool_decide_eq_false_2 by by rewrite head_cstr. assert (2 ≤ quitting ls)%nat as Hq2.
      { rewrite quitting_cons, decide_False in Hq by done. lia. }
      assert (∀ cmd, good cmd → keeps (child_cmd_loop fuel) (λ _ _, True) (input ls, cmd)) as Hk2 by (intros cmd' Hg'; apply loop_keeps; done || lia).
      apply beside_atomic.
      * k_step. assert (good (typed (Z.to_nat 0) l cmd)) as Hg2 by by apply good_typed. destruct (_ <? _)%nat; [|apply IH; done || lia].
        apply beside_atomic; [apply (keeps_use Cmd (Ext "system")); apply IH; done || lia|]. intros cmd' Hg'. k_step. apply (keeps_use Cmd (Ext "system")). by apply Hk2.
      * intros cmd' Hg'. k_step. k_step. k_step. destruct (_ <? _)%nat; k_step; by apply Hk2.
  - intros cmd' Hg'. change (keeps (child_test fuel) (λ _ _, True) (input ls, cmd')). apply test_keeps; [done| |lia|done].
    rewrite quitting_cons in Hq. destruct (decide _); lia.
Qed.

Lemma exec_beside p (Q Qf : unit → list Z * list Z → Prop) v : Q tt v → (∀ cmd, good cmd → Qf tt (v.1, cmd)) → beside (exec_cmd p) Q Qf v.
Proof.
  intros HQ Hf. apply beside_atomic; [|intros cmd Hg; k_step; apply keeps_use, (keeps_use p (Ext "system")); by apply Hf].
  apply keeps_use, beside_last; [by apply (keeps_use p (Ext "system"))|]. intros cmd Hg. by apply (keeps_use p (Ext "system")), Hf.
Qed.

Lemma setup_beside fuel ls cmd : Forall is_line ls → (2 ≤ quitting ls)%nat → (length (input ls) < fuel)%nat → good cmd →
  beside (child_setup fuel) (λ a _, a = 0) (λ a _, a = 0) (input ls, cmd).
Proof.
  intros Hls Hq Hf Hg. assert (∀ cmd, good cmd → keeps (child_cmd_loop fuel;; mret 0) (λ a _, a = 0) (input ls, cmd)) as Hk.
  { intros cmd' Hg'. k_step. eapply keeps_mono; [apply loop_keeps; done || lia|done]. }
  apply beside_atomic.
  - apply keeps_upd. intros g Hgg Hs. split; [by apply good_snprintf|]. apply beside_bind, exec_beside; [|exact Hk].
    assert (good (snprintf (g_cmd g) CMD_SIZE (ifconfig_cmd (g_vethid g) (g_netcnt g)))) as Hg' by by apply good_snprintf.
    apply beside_bind. eapply beside_mono; [by apply loop_beside|..]; [|done]. intros [] v _. by split.
  - intros cmd' Hg'. k_step. apply keeps_upd. intros g Hgg Hs. split; [by apply good_snprintf|]. k_step. k_step. by apply Hk, good_snprintf.
Qed.

Lemma child_beside fuel ls cmd : Forall is_line ls → (2 ≤ quitting ls)%nat → (length (input ls) < fuel)%nat → good cmd →
  beside (child_fn fuel) (λ a _, a = 0) (λ a _, a = 0) (input ls, cmd).
Proof.
  intros Hls Hq Hf Hg. assert (∀ cmd, good cmd → keeps (child_setup fuel) (λ a _, a = 0) (input ls, cmd)) as Hk.
  { intros cmd' Hg'. by eapply (beside_keeps _ _ _ (input ls, cmd')), Hg'; apply setup_beside. }
  unfold child_fn. apply beside_atomic; [k_step|intros; repeat k_step; by apply Hk]. apply beside_atomic; [k_step|intros; repeat k_step; by apply Hk].
  apply beside_atomic; [k_step|intros; repeat k_step; by apply Hk]. apply beside_atomic; [k_step|intros; repeat k_step; by apply Hk].
  apply beside_bind, exec_beside; [by apply setup_beside|exact Hk].
Qed.

End child.

(** ** The accesses of the parent *)

(** The number that a run takes from the counter file, and the one it leaves there. *)
Definition next_cnt (f : list Z) : Z * Z :=
  if (length f <? 4)%nat then (2, 2) else let cnt := GetSetStruct.unle (take 4 f) in (sgn 32 cnt, (cnt + 1) mod 2 ^ 32).

(** The file after a run; the write may be short. *)
Definition counted (f : list Z) (n : Z) (f' : list Z) : Prop :=
  n = -1 ∧ f' = f ∨ n = (next_cnt f).1 ∧ ∃ k, (k ≤ 4)%nat ∧ f' = take k (GetSetStruct.le 4 (next_cnt f).2) ++ drop k f.

Section parent.
Context {os : OS}.
Implicit Types (u : Z * Z * list Z).

Lemma grants_sys b c (Q : bool → reply → Z * Z * list Z → Prop) u : (∀ r, Q b r u) → guarantees b (atomic (sys c)) Q u.
Proof. intros H w Hg <-. split; [done|]. exists b. split; [by left|]. apply H. Qed.

Lemma grants_sys_ b c (Q : bool → unit → Z * Z * list Z → Prop) u : Q b tt u → guarantees b (atomic (sys_ c)) Q u.
Proof. intros H w Hg <-. split; [done|]. exists b. split; [by left|]. apply H. Qed.

Lemma grants_use b p c (Q : bool → unit → Z * Z * list Z → Prop) u : Q b tt u → guarantees b (atomic (s ← string_at p; sys_ (c s))) Q u.
Proof. intros H w Hg <-. wp_step. apply string_wp; [done|]. split; [done|]. exists b. by split; [left|]. Qed.

Lemma grants_vethid b id (Q : bool → unit → Z * Z * list Z → Prop) i n f : Q b tt (id, n, f) → guarantees b (atomic (upd_glob (set_vethid id))) Q (i, n, f).
Proof. intros H w Hg [= Hi Hn Hf]. split; [done|]. exists b. split; [by left|]. unfold parent_view. cbn. by rewrite Hn, Hf. Qed.

Lemma grants_netcnt b m (Q : bool → unit → Z * Z * list Z → Prop) i n f : Q b tt (i, m, f) → guarantees b (atomic (upd_glob (set_netcnt m))) Q (i, n, f).
Proof. intros H w Hg [= Hi Hn Hf]. split; [done|]. exists b. split; [by left|]. unfold parent_view. cbn. by rewrite Hi, Hf. Qed.

(** The one write of the buffer. *)
Lemma grants_cmd f (Q : bool → unit → Z * Z * list Z → Prop) u : (∀ g, good (g_cmd g) → good (f g)) → Q false tt u →
  guarantees true (atomic (upd_glob (λ g, set_cmd (f g) g))) Q u.
Proof. intros Hf H w Hg <-. split; [done|]. exists false. split; [|done]. right. split; [done|]. split; [done|]. by apply Hf. Qed.

Lemma grants_read b fd (Q : bool → Z * list Z → Z * Z * list Z → Prop) i n f :
  (∀ ret, ret < 0 → Q b (ret, []) (i, n, f)) → Q b (Z.of_nat (length (take 4 f)), take 4 f) (i, n, f) → guarantees b (atomic (read_cnt fd)) Q (i, n, f).
Proof.
  intros H1 H2 w Hg [= Hi Hn Hf]. unfold read_cnt. wp_step. unfold wp, sys, get_glob, gets, mbind, M_bind. cbn. split; [done|]. exists b. split; [by left|].
  unfold parent_view. cbn. rewrite Hi, Hn, Hf. destruct (Z.ltb_spec (r_ret (os_answer (w_trace w) (Read fd 4))) 0); [by apply H1|done].
Qed.

Lemma grants_write b fd cnt (Q : bool → unit → Z * Z * list Z → Prop) i n f :
  (∀ k, (k ≤ 4)%nat → Q b tt (i, n, take k (GetSetStruct.le 4 cnt) ++ drop k f)) → guarantees b (atomic (write_cnt fd cnt)) Q (i, n, f).
Proof.
  intros H w Hg [= Hi Hn Hf]. unfold write_cnt. wp_step. unfold wp, sys. split; [done|]. exists b. split; [by left|].
  unfold parent_view. cbn. rewrite Hi, Hn, Hf. apply H. lia.
Qed.

End parent.

Ltac g_step :=
  lazymatch goal with
  | |- guarantees _ (mbind _ _) _ _ => apply guarantees_bind
  | |- guarantees _ (say _ _) _ _ => apply grants_sys_
  | |- guarantees _ (perror_ _) _ _ => apply grants_sys_
  | |- guarantees _ (atomic (sys _)) _ _ => apply grants_sys; let r := fresh "r" in intros r
  | |- guarantees _ (atomic (sys_ _)) _ _ => apply grants_sys_
  | |- guarantees _ (system ?p) _ _ => apply (grants_use _ p (Ext "system"))
  | |- guarantees _ (exec_cmd ?p) _ _ => apply guarantees_bind, (grants_use _ p (Printf "%s")), (grants_use _ p (Ext "system"))
  | |- guarantees ?b (mret ?a) ?Q ?u => change (Q b a u); cbn beta
  end.

Section parent.
Context {os : OS}.

Lemma netcnt_grants b i n f (Q : bool → Z → Z * Z * list Z → Prop) : (∀ m f', counted f m f' → Q b m (i, n, f')) → guarantees b parent_get_netcnt Q (i, n, f).
Proof.
  intros H. assert (Q b (-1) (i, n, f)) as Hfail by (apply H; by left). unfold parent_get_netcnt. g_step. g_step. destruct (r_ret r <? 0); [repeat g_step; done|].
  g_step. apply grants_read.
  - intros ret Hret. rewrite (proj2 (Z.ltb_lt _ _) Hret). repeat g_step. done.
  - replace (Z.of_nat (length (take 4 f)) <? 0) with false by lia.
    replace (Z.of_nat (length (take 4 f)) <? 4) with (length f <? 4)%nat by (rewrite length_take; lia).
    destruct ((if (length f <? 4)%nat then _ else _) : Z * Z) as [ret cnt] eqn:E. g_step. g_step. g_step. apply grants_write. intros k Hk. repeat g_step.
    apply H. right. unfold next_cnt. rewrite E. split; [done|]. by exists k.
Qed.

Lemma parent_grants pid i n f : guarantees true (parent_banner pid;; parent_init_veth_pair pid) (λ _ _ u, counted f u.1.2 u.2) (i, n, f).
Proof.
  unfold parent_banner, parent_init_veth_pair, parent_gen_vethid. repeat g_step.
  apply grants_vethid. g_step. apply grants_cmd; [intros g; apply good_snprintf|]. g_step. g_step. g_step. apply netcnt_grants. intros m f' Hm. by apply grants_netcnt.
Qed.

End parent.

(** C22: if every line typed has at most 511 characters and at least two of the lines quit (the parent
    may destroy one of them in the shared buffer), then, whatever the order in which the two processes
    access their shared memory, the program runs to its end without undefined behaviour: the buffer
    is not overrun and always holds a string, and the number of the network comes from the counter
    file; or the program exits with 1 because the child could not be made.  A longer line, or the end
    of the input, does overrun the buffer ([long_line_overflows]). *)
Theorem namespace_processes_safe {os : OS} fuel sched ls tr g : good (g_cmd g) → stdin g = input ls → Forall is_line ls → (2 ≤ quitting ls)%nat → (length (input ls) < fuel)%nat →
  ends (main fuel sched) (λ ret w, ret = 0 ∧ good (g_cmd (w_glob w)) ∧ counted (cnt_file g) (g_netcnt (w_glob w)) (cnt_file (w_glob w)))
    (λ code w, code = 1 ∧ r_ret (os_answer tr (Ext "clone" [])) < 0 ∧ w_glob w = g) (mk_world tr g).
Proof.
  intros Hg Hs Hls Hq Hf. unfold main. f_step. unfold parent_spawn_child. set (r := os_answer tr (Ext "clone" [])).
  apply (ends_mono _ _ (λ pid w, w_glob w = g ∧ (pid < 0 → r_ret r < 0))).
  { cbn [denote mbind ns_bind prog_bind atomic]. f_step. apply ends_sys. intros r' ->. fold r. destruct (Z.ltb_spec (r_ret r) 0); done. }
  intros pid w1 [Hw1 Hpid]. destruct (Z.ltb_spec pid 0) as [Hneg|Hpos]; [split; [done|]; split; [by apply Hpid|done]|].
  f_step. apply ends_wp. subst g. eapply wp_mono; [apply (par_beside sched _ _ (λ a _, a = 0) (λ _ u, counted (cnt_file (w_glob w1)) u.1.2 u.2)); [done| |]|].
  - unfold child_view. rewrite Hs. by apply child_beside.
  - apply parent_grants.
  - intros [a []] w2 (Hg2 & Ha & Hc). by split.
Qed.

(** ** The intended order *)

(** The commands that were run, oldest first. *)
Fixpoint executed (tr : list event) : list (list Z) :=
  match tr with [] => [] | (Ext "system" s, _) :: tr => executed tr ++ [s] | _ :: tr => executed tr end.

(** What a shell does with the lines: it runs each that is not empty, up to the first that quits. *)
Fixpoint shell (ls : list (list Z)) : list (list Z) :=
  match ls with [] => [] | l :: ls => if quits l then [] else (if bool_decide (cstr l = []) then [] else [cstr l]) ++ shell ls end.

(** Numbers print as at most ten characters, none of them null. *)
Definition short (n : nat) (s : list Z) : Prop := (length s ≤ n)%nat ∧ (0 ∉ s).

Lemma short_hex n : 0 ≤ n → short 8 (hex n).
Proof.
  unfold hex. assert (∀ fuel n, 0 ≤ n → short fuel (hex_fuel fuel n)) as H; [|apply H]. induction fuel as [|fuel IH]; intros m Hm; cbn; [split; [done|set_solver]|].
  assert (∀ d, 0 ≤ d < 16 → hex_digit d ≠ 0) as Hd by (intros d ?; unfold hex_digit; destruct (d <? 10); lia).
  destruct (Z.ltb_spec m 16).
  - split; [cbn; lia|]. intros [= Hz]%list_elem_of_singleton. by apply (Hd m).
  - destruct (IH (m / 16)) as [H1 H2]; [apply Z.div_pos; lia|]. split; [rewrite length_app; cbn; lia|]. intros [?|Hz%list_elem_of_singleton]%elem_of_app; [done|].
    by apply (Hd (m mod 16)); [apply Z.mod_pos_bound; lia|].
Qed.

Lemma codes_app a b : codes (a +:+ b) = codes a ++ codes b.
Proof. unfold codes. induction a as [|c a IH]; [done|]. change (String c a +:+ b) with (String c (a +:+ b)). cbn. by f_equal. Qed.

Lemma short_dec n : 0 ≤ n → short 10 (codes (dec n)).
Proof.
  unfold dec. assert (∀ fuel n, 0 ≤ n → short fuel (codes (dec_fuel fuel n))) as H; [|apply H]. induction fuel as [|fuel IH]; intros m Hm; cbn [dec_fuel]; [split; [done|set_solver]|].
  assert (∀ d, 0 ≤ d < 10 → length (codes (digit d)) = 1%nat ∧ (0 ∉ codes (digit d))) as Hd.
  { intros d Hd. assert (d = 0 ∨ d = 1 ∨ d = 2 ∨ d = 3 ∨ d = 4 ∨ d = 5 ∨ d = 6 ∨ d = 7 ∨ d = 8 ∨ d = 9) by lia. destruct_or!; subst d; (split; [done|]); intros [= Hz]%list_elem_of_singleton; lia. }
  destruct (Z.ltb_spec m 10).
  - destruct (Hd m) as [H1 H2]; [lia|]. split; [lia|done].
  - destruct (IH (m / 10)) as [H1 H2]; [apply Z.div_pos; lia|]. destruct (Hd (m mod 10)) as [H3 H4]; [apply Z.mod_pos_bound; lia|].
    rewrite codes_app. split; [rewrite length_app; lia|]. set_solver.
Qed.

Lemma short_app n m a b : short n a → short m b → short (n + m) (a ++ b).
Proof. intros [H1 H2] [H3 H4]. split; [rewrite length_app; lia|set_solver]. Qed.

Lemma short_codes s : bool_decide (0 ∈ codes s) = false → short (length (codes s)) (codes s).
Proof. intros H. split; [done|]. by case_bool_decide. Qed.

Lemma short_fmt n : short 11 (fmt_d n).
Proof.
  unfold fmt_d. destruct (Z.ltb_spec n 0).
  - destruct (short_dec (- n)); [lia|]. split; [cbn [length]; lia|set_solver].
  - destruct (short_dec n); [lia|]. split; [lia|done].
Qed.

Lemma short_le n m s : short n s → (n ≤ m)%nat → short m s.
Proof. intros [H1 H2] Hle. split; [lia|done]. Qed.

Lemma short_link id pid : 0 ≤ id → short 511 (link_cmd id pid).
Proof.
  intros Hid. unfold link_cmd. eapply short_le.
  - apply short_app; [by apply short_codes|]. apply short_app; [by apply short_hex|]. apply short_app; [by apply short_codes|]. apply short_app; [by apply short_hex|].
    apply short_app; [by apply short_codes|]. apply short_fmt.
  - cbn. lia.
Qed.

Lemma short_ifconfig id n : 0 ≤ id → short 511 (ifconfig_cmd id n).
Proof.
  intros Hid. unfold ifconfig_cmd. eapply short_le.
  - apply short_app; [by apply short_codes|]. apply short_app; [by apply short_hex|]. apply short_app; [by apply short_codes|]. apply short_app; [apply short_fmt|]. by apply short_codes.
  - cbn. lia.
Qed.

(** The buffer then holds the whole command. *)
Lemma cstr_snprintf cmd s : short 511 s → cstr (snprintf cmd CMD_SIZE s) = s.
Proof.
  intros [Hl Hz]. unfold snprintf. change (Z.to_nat (CMD_SIZE - 1)) with 511%nat. rewrite take_ge by done. rewrite <- app_assoc. generalize (drop (length (s ++ [0])) cmd) as t. intros t. clear Hl.
  induction s as [|c s IH]; [done|]. cbn. destruct (Z.eqb_spec c 0) as [->|]; [set_solver|]. f_equal. apply IH. set_solver.
Qed.

(** Programs run alone. *)
Section alone.
Context {os : OS} (E : Z → world ns → Prop).

Lemma alone_bind {A B} (p : prog A) (f : A → prog B) Q w : ends (denote p) (λ a w', ends (denote (f a)) Q E w') E w → ends (denote (p ≫= f)) Q E w.
Proof.
  revert w. induction p as [a|X m k IH]; intros w H; [done|]. cbn in *. apply ends_bind. unfold ends at 1 in H. unfold ends at 1. unfold mbind, M_bind in H.
  destruct (m w) as [x w'| |c w'|] eqn:Em; try done. by apply IH.
Qed.

Lemma denote_atomic {A} (m : M (world ns) A) (Q : A → world ns → Prop) w : ends m Q E w → ends (denote (atomic m)) Q E w.
Proof. intros H. cbn. apply ends_bind. eapply ends_mono; [exact H|done]. Qed.

Lemma alone_use p c tr g (Q : unit → world ns → Prop) : good (g_cmd g) →
  (∀ r, Q tt (mk_world ((c (match p with Lit t => t | Cmd => cstr (g_cmd g) end), r) :: tr) g)) →
  ends (denote (atomic (s ← string_at p; sys_ (c s)))) Q E (mk_world tr g).
Proof. intros Hg HQ. apply denote_atomic. f_step. apply ends_wp, string_wp; [done|]. apply HQ. Qed.

Lemma alone_exec p tr g (Q : unit → world ns → Prop) : good (g_cmd g) →
  (∀ tr', executed tr' = executed tr ++ [match p with Lit t => t | Cmd => cstr (g_cmd g) end] → Q tt (mk_world tr' g)) →
  ends (denote (exec_cmd p)) Q E (mk_world tr g).
Proof.
  intros Hg HQ. apply alone_bind, alone_use; [done|]. intros r. apply (alone_use p (Ext "system")); [done|]. intros r'. by apply HQ.
Qed.

(** A line is read. *)
Lemma alone_get fuel i line rest tr g (Q : unit → world ns → Prop) : 10 ∉ line → Forall (λ c, 0 ≤ c < 256) line → 0 ≤ i → i + Z.of_nat (length line) ≤ 511 →
  (length line < fuel)%nat → stdin g = line ++ 10 :: rest → Q tt (mk_world tr (set_stdin rest (set_cmd (typed (Z.to_nat i) line (g_cmd g)) g))) →
  ends (denote (child_get_cmd fuel i)) Q E (mk_world tr g).
Proof.
  revert i line g. induction fuel as [|fuel IH]; intros i line g Hn Hc Hi Hl Hf Hs HQ; [lia|]. cbn [child_get_cmd]. apply alone_bind, denote_atomic. unfold getchar. f_step. f_step.
  rewrite Hs. destruct line as [|c line]; cbn [app length] in *; f_step; f_step; f_step.
  - change (10 =? 10) with true. cbn iota. apply denote_atomic. unfold store_cmd. replace ((0 <=? i) && _) with true by (unfold CMD_SIZE; lia). by f_step.
  - apply list.Forall_cons in Hc as [Hc Hcs]. replace (c =? 10) with false by (symmetry; apply Z.eqb_neq; intros ->; set_solver).
    apply alone_bind, denote_atomic. unfold store_cmd. replace ((0 <=? i) && _) with true by (unfold CMD_SIZE; lia). f_step. rewrite Z.mod_small by lia.
    apply (IH _ line); [set_solver|done|lia|lia|lia|done|]. cbn in HQ |- *. by replace (Z.to_nat (i + 1)) with (S (Z.to_nat i)) by lia.
Qed.

(** The loop is a shell. *)
Lemma alone_loop fuel ls tr g (Q : unit → world ns → Prop) : Forall is_line ls → (1 ≤ quitting ls)%nat → (length (input ls) < fuel)%nat → good (g_cmd g) → stdin g = input ls →
  (∀ tr' g', executed tr' = executed tr ++ shell ls → parent_view (mk_world tr' g') = parent_view (mk_world tr g) → Q tt (mk_world tr' g')) → ends (denote (child_cmd_loop fuel)) Q E (mk_world tr g).
Proof.
  revert ls tr g. induction fuel as [|fuel IH]; intros ls tr g Hls Hq Hf Hg Hs HQ; [lia|]. destruct ls as [|l ls]; [cbn in Hq; lia|].
  apply list.Forall_cons in Hls as [(Hn & Hl & Hc) Hls]. rewrite input_cons in Hf, Hs. rewrite length_app in Hf. cbn [length] in Hf. cbn [child_cmd_loop].
  apply alone_bind, denote_atomic. f_step. apply alone_bind. eapply alone_get; [done|done|lia|lia|lia|done|]. set (g1 := set_stdin _ _).
  assert (good (g_cmd g1)) as Hg1 by by apply good_typed. assert (cstr (g_cmd g1) = cstr l) as Hcl by (apply cstr_typed; destruct Hg as [-> _]; unfold CMD_SIZE; lia).
  apply alone_bind, denote_atomic, ends_wp, string_wp; [done|]. cbn [w_glob]. rewrite Hcl. cbn [shell] in HQ. unfold quits in HQ. destruct (decide (head l = Some 113)) as [Hh|Hh].
  - rewrite bool_decide_eq_true_2 by by apply head_cstr. apply denote_atomic. f_step. apply HQ; [|done]. rewrite bool_decide_eq_true_2 by done. cbn. by rewrite app_nil_r.
  - rewrite bool_decide_eq_false_2 in HQ by done. rewrite bool_decide_eq_false_2 by by rewrite head_cstr. apply alone_bind, denote_atomic, ends_wp, string_wp; [done|]. cbn [w_glob]. rewrite Hcl.
    assert (1 ≤ quitting ls)%nat by (rewrite quitting_cons, decide_False in Hq by done; lia).
    apply alone_bind. destruct (Nat.ltb_spec 0 (length (cstr l))) as [Hpos|Hz].
    + rewrite bool_decide_eq_false_2 in HQ by (intros Hz; rewrite Hz in Hpos; cbn in Hpos; lia). apply (alone_use Cmd (Ext "system")); [done|]. intros r'. apply (IH ls); [done|done|lia|done|done|].
      intros tr' g' Ht Hv. apply HQ; [|done]. rewrite Ht. cbn [executed]. rewrite Hcl, <- app_assoc. done.
    + rewrite bool_decide_eq_true_2 in HQ by (destruct (cstr l); [done|cbn in Hz; lia]). cbn [denote mret ns_ret]. f_step. apply (IH ls); [done|done|lia|done|done|]. intros tr' g' Ht Hv. by apply HQ.
Qed.

Lemma alone_netcnt tr g (Q : Z → world ns → Prop) : (∀ tr' m f', executed tr' = executed tr → counted (cnt_file g) m f' → Q m (mk_world tr' (set_cnt_file f' g))) →
  ends (denote parent_get_netcnt) Q E (mk_world tr g).
Proof.
  intros HQ. assert (∀ tr', executed tr' = executed tr → Q (-1) (mk_world tr' g)) as Hfail.
  { intros tr' Ht. specialize (HQ tr' (-1) (cnt_file g) Ht). destruct g. apply HQ. by left. }
  unfold parent_get_netcnt. apply alone_bind, denote_atomic. f_step. destruct (r_ret r <? 0); [apply alone_bind, denote_atomic; f_step; by apply Hfail|].
  apply alone_bind, denote_atomic. unfold read_cnt. f_step. f_step. f_step. f_step. f_step. destruct (Z.ltb_spec (r_ret r0) 0) as [Hneg|Hpos].
  { rewrite (proj2 (Z.ltb_lt _ _) Hneg). apply alone_bind, denote_atomic. f_step. by apply Hfail. }
  cbn iota beta. replace (Z.of_nat (length (take 4 (cnt_file g))) <? 0) with false by lia.
  replace (Z.of_nat (length (take 4 (cnt_file g))) <? 4) with (length (cnt_file g) <? 4)%nat by (rewrite length_take; lia).
  destruct ((if (length (cnt_file g) <? 4)%nat then _ else _) : Z * Z) as [ret cnt] eqn:E1. apply alone_bind, denote_atomic. f_step.
  apply alone_bind, denote_atomic. unfold write_cnt. f_step. f_step. f_step. apply alone_bind, denote_atomic. f_step. cbn [denote mret ns_ret]. f_step.
  apply HQ; [done|]. right. unfold next_cnt. rewrite E1. split; [done|]. exists (Z.to_nat (Z.min 4 (r_ret r2))). split; [lia|done].
Qed.

Lemma alone_parent pid tr g (Q : unit → world ns → Prop) : good (g_cmd g) →
  (∀ tr' g', executed tr' = executed tr ++ [link_cmd (g_vethid g') pid] → 0 ≤ g_vethid g' → good (g_cmd g') → stdin g' = stdin g →
    counted (cnt_file g) (g_netcnt g') (cnt_file g') → Q tt (mk_world tr' g')) →
  ends (denote (parent_banner pid;; parent_init_veth_pair pid)) Q E (mk_world tr g).
Proof.
  intros Hg HQ. apply alone_bind, alone_bind, denote_atomic. f_step. apply denote_atomic. f_step. unfold parent_init_veth_pair, parent_gen_vethid.
  apply alone_bind, alone_bind, denote_atomic. f_step. cbn [denote mret ns_ret]. f_step. set (id := r_ret r1 mod 2 ^ 32).
  assert (0 ≤ id) as Hid by (apply Z.mod_pos_bound; lia). apply alone_bind, denote_atomic. f_step. apply alone_bind, denote_atomic. f_step. apply alone_bind, alone_exec; [by apply good_snprintf|].
  intros tr' Ht. cbn in Ht. rewrite cstr_snprintf in Ht by by apply short_link. apply alone_bind, alone_netcnt. intros tr2 m f' Ht2 Hc. apply denote_atomic. f_step.
  apply HQ; [by rewrite Ht2|done|by apply good_snprintf|done|done].
Qed.

Lemma alone_child fuel ls tr g (Q : Z → world ns → Prop) : Forall is_line ls → (1 ≤ quitting ls)%nat → (length (input ls) < fuel)%nat → good (g_cmd g) → stdin g = input ls → 0 ≤ g_vethid g →
  (∀ tr' g', executed tr' = executed tr ++ [codes "ip link"; ifconfig_cmd (g_vethid g) (g_netcnt g)] ++ shell ls → parent_view (mk_world tr' g') = parent_view (mk_world tr g) → Q 0 (mk_world tr' g')) →
  ends (denote (exec_cmd (Lit (codes "ip link"));; child_setup fuel)) Q E (mk_world tr g).
Proof.
  intros Hls Hq Hf Hg Hs Hid HQ. apply alone_bind, alone_exec; [done|]. intros tr1 Ht1. apply alone_bind, denote_atomic. f_step. apply alone_bind, alone_exec; [by apply good_snprintf|].
  intros tr2 Ht2. cbn in Ht2. rewrite cstr_snprintf in Ht2 by by apply short_ifconfig. apply alone_bind, (alone_loop _ ls); [done|done|done|by apply good_snprintf|done|].
  intros tr3 g3 Ht3 Hv. apply HQ; [|done]. by rewrite Ht3, Ht2, Ht1, <- !app_assoc.
Qed.

(** An access of the child that only makes a call comes first. *)
Lemma par_sys {A B} c (f : reply → prog A) sched (q : prog B) Q tr g :
  (∀ r, ends (par sched (f r) q) Q E (mk_world ((c, r) :: tr) g)) → ends (par (true :: sched) (atomic (sys c) ≫= f) q) Q E (mk_world tr g).
Proof. intros H. apply H. Qed.

Lemma par_sys_ {A B} c (f : unit → prog A) sched (q : prog B) Q tr g :
  (∀ r, ends (par sched (f tt) q) Q E (mk_world ((c, r) :: tr) g)) → ends (par (true :: sched) (atomic (sys_ c) ≫= f) q) Q E (mk_world tr g).
Proof. intros H. apply H. Qed.

End alone.

(** What the commands are in the end. *)
Definition commands_run (pid : Z) (ls : list (list Z)) (f : list Z) (tr : list event) (w : world ns) : Prop :=
  counted f (g_netcnt (w_glob w)) (cnt_file (w_glob w)) ∧
  executed (w_trace w) = executed tr ++ [link_cmd (g_vethid (w_glob w)) pid; codes "ip link"; ifconfig_cmd (g_vethid (w_glob w)) (g_netcnt (w_glob w))] ++ shell ls.

(** The child is still in its greeting: its rest [p] only makes calls before the second half. *)
Lemma greeting_runs {os : OS} E fuel pid (p : prog Z) ls tr tr1 g : Forall is_line ls → (1 ≤ quitting ls)%nat → (length (input ls) < fuel)%nat → good (g_cmd g) → stdin g = input ls →
  executed tr1 = executed tr → (∀ tr2 g2 Q, (∀ tr3, executed tr3 = executed tr2 → ends (denote (exec_cmd (Lit (codes "ip link"));; child_setup fuel)) Q E (mk_world tr3 g2)) →
      ends (denote p) Q E (mk_world tr2 g2)) →
  ends (par [] p (parent_banner pid;; parent_init_veth_pair pid)) (λ ab w, ab.1 = 0 ∧ commands_run pid ls (cnt_file g) tr w) E (mk_world tr1 g).
Proof.
  intros Hls Hq Hf Hg Hs Ht1 Hp. cbn [par]. f_step. apply alone_parent; [done|]. intros tr2 g2 Ht2 Hid Hg2 Hs2 Hc2. f_step. apply Hp. intros tr3 Ht3.
  apply (alone_child _ _ ls); [done|done|done|done|by rewrite Hs2|done|]. intros tr4 g4 Ht4 [= Hv1 Hv2 Hv3]. f_step. split; [done|]. unfold commands_run. cbn [w_glob w_trace fst].
  rewrite Hv1, Hv2, Hv3. split; [done|]. by rewrite Ht4, Ht3, Ht2, Ht1, <- !app_assoc.
Qed.

(** When the parent is done before the child has got past its greeting, as the sleep intends, the
    commands are those of the source: the pair of interfaces, the list of interfaces, the child's
    interface with the name and the number the parent chose, and then every line typed, empty ones
    aside, up to the first that begins with q. *)
Theorem shell_commands_run {os : OS} k fuel ls tr g : let pid := r_ret (os_answer tr (Ext "clone" [])) in
  (k ≤ 4)%nat → 0 ≤ pid → good (g_cmd g) → stdin g = input ls → Forall is_line ls → (1 ≤ quitting ls)%nat → (length (input ls) < fuel)%nat →
  ends (main fuel (replicate k true)) (λ ret w, ret = 0 ∧ commands_run pid ls (cnt_file g) tr w) (λ _ _, False) (mk_world tr g).
Proof.
  intros pid Hk Hpid Hg Hs Hls Hq Hf. unfold main, parent_spawn_child. f_step. apply alone_bind, denote_atomic. f_step. rewrite Hr. fold pid.
  rewrite (proj2 (Z.ltb_ge _ _) Hpid). cbn [denote mret ns_ret]. f_step. rewrite (proj2 (Z.ltb_ge _ _) Hpid). f_step.
  set (tr0 := (Ext "clone" [], _) :: tr). assert (executed tr0 = executed tr) as Ht0 by done. clearbody tr0 pid.
  apply (ends_mono _ _ (λ ab w, ab.1 = 0 ∧ commands_run pid ls (cnt_file g) tr w)).
  - unfold child_fn. destruct k as [|[|[|[|[|k]]]]]; cbn [replicate]; [| | | | |lia].
    all: repeat lazymatch goal with |- ends (par (true :: _) ?p _) _ _ _ => lazymatch p with mbind _ (atomic (sys _)) => apply par_sys; intros ?; cbn beta | _ => apply par_sys_; intros ?; cbn beta end end; apply (greeting_runs _ fuel); [done|done|done|done|done|exact Ht0|]; intros tr2 g2 Q HQ; repeat (apply alone_bind, denote_atomic; f_step); by apply HQ.
  - intros [a []] [tr5 g5] (H1 & H2 & H3). f_step. f_step. f_step. split; [done|]. split; [done|]. exact H3.
Qed.

(** ** What can go wrong *)

(** The terminal answers everything; the file holds a number. *)
Definition ns_os : OS := λ _ c, mk_reply (match c with Ext "clone" _ => 77 | Ext "time" _ => 4096 | Write _ _ => 4 | _ => 3 end) 0 [].
Definition ns_start (s : list Z) : ns := mk_ns (replicate 512 0) 0 0 s [].

(** Nothing but the sleep keeps the child from formatting its command between the two uses of the
    buffer by the parent: then the parent runs the child's command, and the pair of interfaces is
    never made. *)
Theorem pair_can_be_lost : ∃ sched, match main (os := ns_os) 3 sched (mk_world [] (ns_start (input [[113]]))) with
  | Ok ret w => ret = 0 ∧ (∀ id pid, link_cmd id pid ∉ executed (w_trace w)) ∧ head (tail (executed (w_trace w))) = Some (ifconfig_cmd 4096 0)
  | _ => False
  end.
Proof.
  exists (replicate 5 false ++ replicate 7 true ++ [false; false]). set (r := main _ _ _). vm_compute in r. subst r. cbn iota.
  split; [done|]. split; [|by vm_compute]. intros id pid [k Hk]%list_elem_of_lookup. cbn [executed w_trace app] in Hk.
  do 3 (destruct k as [|k]; [discriminate Hk|]). done.
Qed.

(** A line of 512 characters or more, or the end of the input, writes past the end of the
    buffer: the reader does not look at the length it is given. *)
Theorem long_line_overflows fuel tr g : (10 ∉ take 512 (stdin g)) → (512 < fuel)%nat → denote (child_get_cmd fuel 0) (mk_world tr g) = Undef.
Proof.
  assert (∀ n fuel i tr g, i = 512 - Z.of_nat n → (n ≤ 512)%nat → (10 ∉ take n (stdin g)) → (n < fuel)%nat → denote (child_get_cmd fuel i) (mk_world tr g) = Undef) as H.
  { clear. induction n as [|n IH]; intros [|fuel] i tr g Hi Hn Hc Hf; try lia.
    - assert (∀ v w, store_cmd i v w = Undef) as Hu by (intros v w; unfold store_cmd, CMD_SIZE; replace ((0 <=? i) && _) with false by lia; done).
      cbn. unfold mbind, M_bind. cbn. unfold getchar. cbn. unfold mbind, M_bind. cbn. destruct (stdin g) as [|c s]; cbn; unfold mbind, M_bind; cbn;
        [|destruct (c =? 10)]; cbn; unfold mbind, M_bind; by rewrite Hu.
    - cbn. unfold mbind, M_bind. cbn. unfold getchar. cbn. unfold mbind, M_bind. cbn. destruct (stdin g) as [|c s] eqn:Es; cbn; unfold mbind, M_bind; cbn.
      + unfold mbind, M_bind, store_cmd, CMD_SIZE. replace ((0 <=? i) && _) with true by lia. cbn. apply IH; [lia|lia| |lia]. cbn. by rewrite Es, take_nil.
      + cbn in Hc. replace (c =? 10) with false by (symmetry; apply Z.eqb_neq; intros ->; set_solver). cbn. unfold mbind, M_bind, store_cmd, CMD_SIZE. replace ((0 <=? i) && _) with true by lia. cbn.
        apply IH; [lia|lia| |lia]. cbn. set_solver. }
  intros Hc Hf. by apply (H 512%nat).
Qed.

(** The file can be opened, read and written. *)
Definition file_works {os : OS} : Prop := ∀ tr, 0 ≤ r_ret (os_answer tr (Open NETWORK_COUNT_FILE O_RDWR_CREAT)) ∧
  ∀ fd b, 0 ≤ r_ret (os_answer tr (Read fd 4)) ∧ r_ret (os_answer tr (Write fd b)) = 4.

(** Runs of the program one after the other. *)
Fixpoint numbers_taken {os : OS} (n : nat) : M (world ns) (list Z) :=
  match n with O => mret [] | S n => x ← denote parent_get_netcnt; xs ← numbers_taken n; mret (x :: xs) end.

Lemma netcnt_works {os : OS} tr g (Q : Z → world ns → Prop) : file_works →
  (∀ tr', Q (next_cnt (cnt_file g)).1 (mk_world tr' (set_cnt_file (GetSetStruct.le 4 (next_cnt (cnt_file g)).2 ++ drop 4 (cnt_file g)) g))) →
  ends (denote parent_get_netcnt) Q (λ _ _, False) (mk_world tr g).
Proof.
  intros Hw HQ. unfold parent_get_netcnt. apply alone_bind, denote_atomic. f_step. destruct (Hw tr) as [Ho _]. rewrite <- Hr in Ho. rewrite (proj2 (Z.ltb_ge _ _) Ho).
  apply alone_bind, denote_atomic. unfold read_cnt. f_step. f_step. f_step. f_step. f_step. match type of Hr0 with _ = os_answer ?tr1 _ => destruct (Hw tr1) as [_ Hrw] end.
  destruct (Hrw (r_ret r) []) as [Hrd _]. rewrite <- Hr0 in Hrd. rewrite (proj2 (Z.ltb_ge _ _) Hrd). cbn iota beta. replace (Z.of_nat (length (take 4 (cnt_file g))) <? 0) with false by lia.
  replace (Z.of_nat (length (take 4 (cnt_file g))) <? 4) with (length (cnt_file g) <? 4)%nat by (rewrite length_take; lia).
  unfold next_cnt in HQ. destruct ((if (length (cnt_file g) <? 4)%nat then _ else _) : Z * Z) as [ret cnt] eqn:E1. apply alone_bind, denote_atomic. f_step.
  apply alone_bind, denote_atomic. unfold write_cnt. f_step. f_step. match type of Hr1 with _ = os_answer ?tr2 _ => destruct (Hw tr2) as [_ Hrw2] end.
  destruct (Hrw2 (r_ret r) (GetSetStruct.le 4 cnt)) as [_ Hwr]. rewrite <- Hr1 in Hwr. rewrite Hwr. f_step. change (Z.to_nat (Z.min 4 4)) with 4%nat.
  rewrite (take_ge (GetSetStruct.le 4 cnt)) by by rewrite le_length. apply alone_bind, denote_atomic. f_step. cbn [denote mret ns_ret]. f_step. apply HQ.
Qed.

(** Runs one after the other, the first with no counter file, take the numbers 2, 2, 3, 4 and so
    on: the file is there after the first, but with the number that was taken and not the next. *)
Theorem network_numbers {os : OS} n tr g : file_works → cnt_file g = [] → Z.of_nat n < 2 ^ 31 →
  ends (numbers_taken n) (λ xs _, xs = (λ k, Z.max 2 (Z.of_nat k + 1)) <$> seq 0 n) (λ _ _, False) (mk_world tr g).
Proof.
  intros Hw Hg Hn. assert (∀ n c tr g, cnt_file g = GetSetStruct.le 4 c → 2 ≤ c → c + Z.of_nat n ≤ 2 ^ 31 →
    ends (numbers_taken n) (λ xs _, xs = (λ k, c + Z.of_nat k) <$> seq 0 n) (λ _ _, False) (mk_world tr g)) as Hrest.
  { clear n tr g Hg Hn. induction n as [|n IH]; intros c tr g Hg Hc Hb; [done|]. cbn [numbers_taken]. f_step. apply netcnt_works; [done|]. intros tr'. f_step.
    assert (next_cnt (cnt_file g) = (c, c + 1)) as ->.
    { unfold next_cnt. rewrite Hg, le_length. cbn [Nat.ltb Nat.leb]. rewrite take_ge by by rewrite le_length. rewrite unle_le.
      change (2 ^ (8 * Z.of_nat 4)) with (2 ^ 32). rewrite !Z.mod_small by lia. by rewrite sgn_small by lia. }
    eapply ends_mono; [apply (IH (c + 1)); [|lia|lia]|].
    - cbn. rewrite Hg, drop_ge by by rewrite le_length. done.
    - intros xs w ->. f_step. cbn [seq fst fmap list_fmap]. f_equal; [lia|]. rewrite <- fmap_S_seq, <- list_fmap_compose. apply list_fmap_ext. intros i k _. unfold compose. lia. }
  destruct n as [|n]; [done|]. cbn [numbers_taken]. f_step. apply netcnt_works; [done|]. intros tr'. f_step. rewrite Hg. change (next_cnt []) with (2, 2). eapply ends_mono; [apply (Hrest n 2); [done|lia|lia]|].
  intros xs w ->. f_step. cbn [seq fst fmap list_fmap]. f_equal. rewrite <- fmap_S_seq, <- list_fmap_compose. apply list_fmap_ext. intros i k _. unfold compose. lia.
Qed.

(** ** Witnesses *)

Lemma ns_start_good s : good (g_cmd (ns_start s)).
Proof. split; by vm_compute. Qed.

Lemma is_line_q : is_line [113].
Proof. split; [set_solver|]. split; [cbn; lia|]. apply Forall_cons_2; [lia|]. apply Forall_nil_2. Qed.

Lemma namespace_processes_safe_witness : ends (main (os := ns_os) 5 [false; true; false; true]) (λ ret w, ret = 0 ∧ good (g_cmd (w_glob w)) ∧ counted [] (g_netcnt (w_glob w)) (cnt_file (w_glob w)))
    (λ code w, code = 1 ∧ 77 < 0 ∧ w_glob w = ns_start (input [[113]; [113]])) (mk_world [] (ns_start (input [[113]; [113]]))).
Proof.
  apply (@namespace_processes_safe ns_os 5 [false; true; false; true] [[113]; [113]] [] (ns_start (input [[113]; [113]]))); [apply ns_start_good|done| |by vm_compute|cbn; lia].
  apply Forall_cons_2; [apply is_line_q|]. apply Forall_cons_2; [apply is_line_q|]. apply Forall_nil_2.
Defined.

Lemma shell_commands_run_witness : ends (main (os := ns_os) 4 [true]) (λ ret w, ret = 0 ∧ commands_run 77 [[113]] [] [] w)
    (λ _ _, False) (mk_world [] (ns_start (input [[113]]))).
Proof.
  apply (@shell_commands_run ns_os 1 4 [[113]] [] (ns_start (input [[113]]))); [lia|done|apply ns_start_good|done| |by vm_compute|cbn; lia].
  apply Forall_cons_2; [apply is_line_q|]. apply Forall_nil_2.
Defined.

Lemma long_line_overflows_witness : denote (child_get_cmd 600 0) (mk_world [] (ns_start [])) = Undef.
Proof. apply long_line_overflows; [set_solver|lia]. Defined.

Lemma network_numbers_witness : ends (numbers_taken (os := ns_os) 4) (λ xs _, xs = [2; 2; 3; 4]) (λ _ _, False) (mk_world [] (ns_start [])).
Proof. apply (@network_numbers ns_os 4 [] (ns_start [])); [intros tr; split; [done|]; by intros fd b|done|lia]. Defined.
