(* ===== verification/HttpClient.v ===== *)
(** * HTTP client and parser tests (networking/http_client_test)

    A client that sends what is typed to a server, in pieces of four bytes, and two programs that
    feed a parser.  The parser is the library http_utils, which is not part of the repository: its
    answers are the environment's. *)

From Stdlib Require Import ZArith Lia ZifyBool.
From stdpp Require Import base gmap list strings numbers.
From S2P Require Import Prelude Posix Files SpliceProxy EchoUnix.

(** ** http_client.c *)

Module Client.
Definition BUF_SIZE : Z := 4.

Section code.
Context {os : OS} (fuel : nat).
Abbreviation CM := (M (world unit)).

(** [local_sock] says whether the pointer is given; the result has what was stored there. *)
Definition tcp_connect_to_server (server_ip : option string) (server_port : Z) (local_sock : bool) : CM (Z * option Z) :=
  match server_ip with
  | Some server_ip =>
      if (server_port <? 0) || (65535 <? server_port) || negb local_sock then sys_ (Printf "Invalid params received !!! " []);; mret (-1, None)
      else
        s ← sys Socket;
        let sock := r_ret s in
        if sock <? 0 then sys_ (Printf "Socket Creation Error [%d] [%s]" [r_errno s]);; mret (-1, Some sock)
        else
          a ← sys (InetAton server_ip);
          if r_ret a =? 0 then sys_ (Printf "Error in inet_aton  !!! " []);; mret (-1, Some sock)
          else
            c ← sys (Connect sock (r_out a !!! 0%nat) server_port);
            if r_ret c <? 0 then sys_ (Printf "Error [%d] [%s] in connect !!! " [r_errno c]);; mret (-1, Some sock)
            else mret (0, Some sock)
  | None => sys_ (Printf "Invalid params received !!! " []);; mret (-1, None)
  end.

Definition send_round (socket : Z) (data : list Z) (flags bytes_sent : Z) : CM (Z + Z) :=
  if bytes_sent <? Z.of_nat (length data) then
    r ← sys (Send socket (rest_of data bytes_sent) flags);
    if r_ret r <? 0 then
      if r_errno r =? EINTR then mret (inl bytes_sent)
      else sys_ (Printf "send Error [%d] [%s]" [r_errno r]);; mret (inr (-1))
    else mret (inl (bytes_sent + r_ret r))
  else mret (inr 0).

Definition tcp_send_data (socket : Z) (buf : option (list Z)) (buf_len flags : Z) : CM Z :=
  match buf with
  | Some buf =>
      if (buf_len <? 0) || (socket <? 0) then sys_ (Printf "Invalid params received !!! " []);; mret (-1)
      else loop fuel (send_round socket (take (Z.to_nat buf_len) buf) flags) 0
  | None => sys_ (Printf "Invalid params received !!! " []);; mret (-1)
  end.

(** A round of the loop of [main]; the buffer is used from its start every time. *)
Definition main_round (sock : Z) (buf : list Z) : CM (list Z + unit) :=
  r ← sys (Read 0 BUF_SIZE);
  if 0 <? r_ret r then
    let data := take (Z.to_nat (r_ret r)) (r_out r) in
    let buf := data ++ drop (length data) buf in
    ret ← tcp_send_data sock (Some buf) (r_ret r) 0;
    (if ret <? 0 then sys_ (Printf "Error in tcp_send_data" []) else sys_ (Printf "sending [%.*s]" (take (Z.to_nat (r_ret r)) buf)));;
    mret (inl buf)
  else mret (inr tt).

Definition main : CM Z :=
  c ← tcp_connect_to_server (Some "172.19.13.25"%string) 9404 true;
  match c with
  | (ret, Some sock) =>
      if ret <? 0 then sys_ (Printf "Error in tcp_connect_to_server" []);; exit_with 1
      else
        b ← sys (Calloc BUF_SIZE 1);
        loop fuel (main_round sock) (replicate (Z.to_nat BUF_SIZE) 0);;
        sys_ (Sleep 15);;
        sys_ (Free (r_ret b));;
        mret 0
  | _ => sys_ (Printf "Error in tcp_connect_to_server" []);; exit_with 1
  end.
End code.
End Client.

(** ** test_req.c *)

Module TestReq.
Section code.
Context {os : OS}.

(** The statements after [return 0] are never reached. *)
Definition main : M (world unit) Z :=
  r ← sys (Ext "http_parse_request" []);
  let ret := r_ret r in
  (if ret <? 0 then s ← sys (Ext "http_get_error_string" [ret]); sys_ (Printf "Error [%d] [%s] in http_parse_request" (ret :: r_out s))
   else sys_ (Printf "ret %d" [ret]));;
  mret 0.
End code.
End TestReq.

(** ** test_resp.c *)

Module TestResp.
Definition BUF_SIZE : Z := 1024.

(** The address of the block and its bytes, as many as were requested; the size the code believes
    it has, how much of it is filled, and the parsed response. *)
Record st := mk_st { buf : Z; block : list Z; tot_size : Z; offset : Z; info : Z }.

Section code.
Context {os : OS} (fuel : nat).
Abbreviation TM := (M (world unit)).

(** [realloc] to twice the size; using a NULL block afterwards is undefined. *)
Definition grow (s : st) : TM st :=
  if tot_size s - offset s <=? 256 then
    let tot_size' := 2 * tot_size s in
    if 2 ^ 31 <=? tot_size' then undef
    else
      '(p, b) ← sys_realloc (buf s) (block s) tot_size';
      if p =? NULL then undef else mret (mk_st p b tot_size' (offset s) (info s))
  else mret s.

(** The answer of the parser to the bytes: a result, the response and the length of its header. *)
Definition http_parse_response (s : st) : TM (Z * Z * st) :=
  r ← sys (Ext "http_parse_response" (take (Z.to_nat (offset s)) (block s)));
  mret (r_ret r, r_out r !!! 1%nat, mk_st (buf s) (block s) (tot_size s) (offset s) (r_out r !!! 0%nat)).

Definition show (ret header_length : Z) (s : st) : TM unit :=
  if info s =? NULL then undef
  else
    sys_ (Printf "version [%s] status_code [%s] reason_phrase [%s]" [info s]);;
    sys_ (Printf "HTTP Header Length [%d]" [header_length]);;
    if (0 <=? header_length) && (header_length <=? offset s) then
      sys_ (Printf "HTTP body [%.*s]" (cstr (drop (Z.to_nat header_length) (take (Z.to_nat (offset s)) (block s)))));;
      sys_ (Ext "http_print_headers" [info s])
    else undef.

Definition read_round (s : st) : TM (st + st) :=
  r ← sys (Read 0 (tot_size s - offset s));
  if 0 <? r_ret r then
    b ← store_bytes (block s) (offset s) (take (Z.to_nat (r_ret r)) (r_out r));
    s ← grow (mk_st (buf s) b (tot_size s) (offset s + r_ret r) (info s));
    '(ret, header_length, s) ← http_parse_response s;
    if ret <? 0 then e ← sys (Ext "http_get_error_string" [ret]); sys_ (Printf "Error [%d] [%s] in http_parse_response" (ret :: r_out e));; mret (inr s)
    else if ret =? 0 then show ret header_length s;; mret (inl s)
    else sys_ (Printf "ret %d" [ret]);; mret (inl s)
  else mret (inr s).

(** [main] up to the end of its loop. *)
Definition collect : TM st :=
  '(p, b) ← sys_calloc BUF_SIZE 1;
  if p =? NULL then undef else loop fuel read_round (mk_st p b BUF_SIZE 0 NULL).

Definition main : TM Z :=
  s ← collect;
  print_str "buffer :%s" (block s);;
  (if info s =? NULL then undef else
    v ← sys (Ext "http_get_header_value" (info s :: codes "Server"));
    if r_ret v <? 0 then e ← sys (Ext "http_get_error_string" [r_ret v]); sys_ (Printf "Error [%d] [%s] in http_get_header_value" (r_ret v :: r_out e))
    else sys_ (Printf "HTTP Header Value [%s]" (r_out v)));;
  f ← sys (Ext "http_response_info_free" [info s]);
  (if r_ret f <? 0 then e ← sys (Ext "http_get_error_string" [r_ret f]); sys_ (Printf "Error [%d] [%s] in http_response_info_free" (r_ret f :: r_out e)) else mret tt);;
  sys_ (Free (buf s));;
  mret 0.
End code.
End TestResp.

(** ** The client *)

(** [read] delivers at most what it was asked for. *)
Definition read_sane {os : OS} : Prop := ∀ tr fd n, 0 ≤ n → let r := os_answer tr (Read fd n) in
  r_ret r ≤ n ∧ (0 < r_ret r → length (r_out r) = Z.to_nat (r_ret r)).

Abbreviation failures := (lines "Error in tcp_send_data").

Section client.
Context {os : OS} (fuel K : nat).
Context (Hcalm : calms_down K) (Hfuel : (K < fuel)%nat) (Hsend : send_sane) (Hread : read_sane).

(** A transmission of [data] of which [n] bytes were accepted. *)
Record transmitting (fd : Z) (data : list Z) (tr : list event) (n : Z) (w : world unit) : Prop := {
  t_quiet : quiet tr (w_trace w);
  t_range : 0 ≤ n ≤ Z.of_nat (length data);
  t_sent : sent fd (w_trace w) = sent fd tr ++ take (Z.to_nat n) data;
  t_read : SocketPair.bytes_read 0 (w_trace w) = SocketPair.bytes_read 0 tr;
  t_fail : failures (w_trace w) = failures tr }.

Lemma client_send_wp fd buf len fl tr : 0 ≤ fd → 0 ≤ len → let data := take (Z.to_nat len) buf in
  wp (Client.tcp_send_data fuel fd (Some buf) len fl) (λ ret w, ∃ n, transmitting fd data tr n w ∧
    (ret = 0 ∧ n = Z.of_nat (length data) ∨ ret = -1 ∧ n < Z.of_nat (length data))) (mk_world tr tt).
Proof using Type*.
  intros Hfd Hlen data. unfold Client.tcp_send_data. replace ((len <? 0) || (fd <? 0)) with false by lia. fold data.
  apply (wp_calm_loop K fuel _ (transmitting fd data tr)); [done|done| |].
  - split; cbn; [reflexivity|lia|by rewrite app_nil_r|done|done].
  - intros n [tr1 []] [Hq Hr Hs Hb Hf]. cbn [w_trace] in *. unfold Client.send_round. wp_sys_step; [|wp_sys_step; exists n; split; [by split|lia] ].
    wp_sys_step. wp_sys_step. pose proof (Hsend tr1 fd (rest_of data n) fl) as Hle. rewrite <- Hr0 in Hle. unfold rest_of in *. rewrite length_drop in Hle.
    assert (r_ret r < 0 → take (Z.to_nat (r_ret r)) (drop (Z.to_nat n) data) = []) as Hneg by (intros ?; by replace (Z.to_nat (r_ret r)) with 0%nat by lia).
    destruct (Z.ltb_spec (r_ret r) 0) as [Hn|Hn]; [destruct (Z.eqb_spec (r_errno r) EINTR) as [He|He]|].
    + wp_sys_step. cbn [w_trace]. split_and!; [|ext_solve|busy_solve]. split; cbn [w_trace sent SocketPair.bytes_read lines]; [quiet_solve|done| |done|done].
      rewrite Z.eqb_refl, Hneg, app_nil_r by done. done.
    + wp_run. exists n. split; [|right; lia]. split; cbn [w_trace sent SocketPair.bytes_read lines]; [quiet_solve|done| |done|by rewrite app_nil_r].
      rewrite Z.eqb_refl, Hneg, app_nil_r by done. done.
    + wp_sys_step. cbn [w_trace]. split_and!; [|ext_solve|busy_solve]. split; cbn [w_trace sent SocketPair.bytes_read lines]; [quiet_solve|lia| |done|done].
      rewrite Z.eqb_refl, Hs, <- app_assoc. f_equal. rewrite Z2Nat.inj_add by lia. by rewrite take_take_drop.
Qed.

(** The pieces read so far, each with the part of it that was sent. *)
Definition relayed (sock : Z) (tr0 tr : list event) : Prop := ∃ pieces : list (list Z * list Z),
  SocketPair.bytes_read 0 tr = SocketPair.bytes_read 0 tr0 ++ concat (pieces.*1) ∧ sent sock tr = sent sock tr0 ++ concat (pieces.*2) ∧
  Forall (λ p, p.1 ≠ [] ∧ (length p.1 ≤ 4)%nat ∧ p.2 `prefix_of` p.1) pieces ∧
  length (failures tr) = (length (failures tr0) + length (filter (λ p, bool_decide (p.1 = p.2) = false) pieces))%nat.

Lemma main_loop_wp sock b tr : 0 ≤ sock →
  wp (loop fuel (Client.main_round fuel sock) b) (λ _ w, quiet tr (w_trace w) ∧ relayed sock tr (w_trace w)) (mk_world tr tt).
Proof using Type*.
  intros Hsock. apply (wp_calm_loop K fuel _ (λ _ w, quiet tr (w_trace w) ∧ relayed sock tr (w_trace w))); [done|done| |].
  { split; [reflexivity|]. exists []. cbn. rewrite !app_nil_r. split; [done|]. split; [done|]. split; [apply Forall_nil_2|lia]. }
  intros buf [tr1 []] [Hq (ps & Hb & Hs & Hps & Hf)]. cbn [w_trace] in *. unfold Client.main_round. wp_sys_step. wp_sys_step.
  destruct (Hread tr1 0 Client.BUF_SIZE) as [Hle Hlen]; [done|]. rewrite <- Hr in Hle, Hlen. destruct (Z.ltb_spec 0 (r_ret r)) as [Hpos|Hneg].
  - specialize (Hlen Hpos). assert (take (Z.to_nat (r_ret r)) (r_out r) = r_out r) as Ht by (apply take_ge; lia). rewrite Ht. wp_sys_step.
    eapply wp_mono; [apply client_send_wp; lia|]. cbn zeta. rewrite take_app_le, take_ge by lia. intros ret [tr2 []] (n & [Hq2 Hn Hs2 Hb2 Hf2] & Hret). cbn [w_trace] in *.
    assert (quiet tr1 tr2) as Hq12. { eapply transitivity; [|exact Hq2]. quiet_solve. }
    assert ((busy_count tr1 < busy_count tr2)%nat) as Hbusy.
    { destruct Hq2 as [_ Hx]. apply os_ext_busy in Hx. rewrite busy_count_cons in Hx. unfold busy in Hx. cbn [fst snd] in Hx. replace (0 <? r_ret r) with true in Hx by lia. rewrite orb_true_r in Hx. lia. }
    assert (∀ c r', r' = os_answer tr2 c → quiet tr2 ((c, r') :: tr2) → SocketPair.bytes_read 0 ((c, r') :: tr2) = SocketPair.bytes_read 0 tr2 → sent sock ((c, r') :: tr2) = sent sock tr2 →
      length (failures ((c, r') :: tr2)) = (length (failures tr2) + if bool_decide (r_out r = take (Z.to_nat n) (r_out r)) then 0 else 1)%nat →
      (quiet tr ((c, r') :: tr2) ∧ relayed sock tr ((c, r') :: tr2)) ∧ os_ext tr1 ((c, r') :: tr2) ∧ (busy_count tr1 < busy_count ((c, r') :: tr2))%nat) as Hend.
    { intros c r' Hr' Hq3 Hb3 Hs3 Hf3. split; [split|split].
      - etrans; [exact Hq|]. by etrans.
      - exists (ps ++ [(r_out r, take (Z.to_nat n) (r_out r))]). rewrite !fmap_app, !concat_app, Hb3, Hs3, Hb2, Hs2. cbn [SocketPair.bytes_read sent fmap list_fmap concat fst snd].
        rewrite Z.eqb_refl, Ht, Hb, Hs, !app_nil_r, !app_assoc. split; [done|]. split; [done|]. split.
        + apply list.Forall_app. split; [done|]. apply Forall_cons_2; [|apply Forall_nil_2]. cbn. split; [intros E; rewrite E in Hlen; cbn in Hlen; lia|]. unfold Client.BUF_SIZE in Hle. split; [lia|]. apply prefix_take.
        + rewrite Hf3, Hf2. cbn [lines]. rewrite Hf, list.filter_app, length_app, filter_cons, filter_nil. cbn [fst snd]. destruct (bool_decide (r_out r = _)); [rewrite decide_False by done|rewrite decide_True by done]; cbn; lia.
      - by destruct Hq12, Hq3; ext_solve.
      - rewrite busy_count_cons. lia. }
    wp_sys_step. destruct Hret as [[-> Hn2]|[-> Hn2]]; [change (0 <? 0) with false|change (-1 <? 0) with true]; cbn iota; wp_run; (apply Hend; [done|quiet_solve|done|done|]).
    + cbn [lines]. rewrite app_nil_r, Hn2, Nat2Z.id, take_ge by done. rewrite bool_decide_eq_true_2 by done. lia.
    + cbn [lines]. rewrite String.eqb_refl, length_app. rewrite bool_decide_eq_false_2; [done|]. intros E. apply (f_equal length) in E. rewrite length_take in E. lia.
  - wp_sys_step. split; [quiet_solve|]. exists ps. cbn [w_trace SocketPair.bytes_read sent lines]. rewrite Z.eqb_refl. replace (Z.to_nat (r_ret r)) with 0%nat by lia. rewrite take_0, app_nil_r. done.
Qed.

End client.

(** C33: the client ends, and has sent every piece of at most four bytes that it read, in order,
    wholly or up to a failure of [send] that it reported; with no such failure the server is sent
    exactly what was typed.  The block is freed; the socket is left to the system. *)
Theorem client_relays_input {os : OS} fuel K tr : calms_down K → (K < fuel)%nat → send_sane → read_sane →
  ends (Client.main fuel) (λ ret w, ret = 0 ∧ ∃ sock, relayed sock tr (w_trace w) ∧ res_delta tr (w_trace w) [sock] [] ∧
      (length (failures (w_trace w)) = length (failures tr) → ∃ data,
        SocketPair.bytes_read 0 (w_trace w) = SocketPair.bytes_read 0 tr ++ data ∧ sent sock (w_trace w) = sent sock tr ++ data))
    (λ code w, code = 1 ∧ SocketPair.bytes_read 0 (w_trace w) = SocketPair.bytes_read 0 tr) (mk_world tr tt).
Proof.
  intros HK Hf Hs Hr. unfold Client.main, Client.tcp_connect_to_server. change ((9404 <? 0) || (65535 <? 9404) || negb true) with false. cbn iota.
  f_step. f_step. f_step. f_step; [repeat f_step; done|]. f_step. f_step. f_step; [repeat f_step; done|]. f_step. f_step. f_step; [repeat f_step; done|]. f_step.
  change (0 <? 0) with false. cbn iota. f_step. f_step. f_step. set (sock := r_ret r) in *. match goal with |- ends _ _ _ (mk_world ?t _) => set (tr1 := t) end.
  apply ends_wp. eapply wp_mono; [by eapply (main_loop_wp fuel K); [..|lia]|]. intros [] [tr2 []] [[Hq _] (ps & Hb & Hse & Hps & Hfa)]. cbn [w_trace] in *.
  wp_run. split; [done|]. exists sock. cbn [w_trace].
  change (SocketPair.bytes_read 0 tr1) with (SocketPair.bytes_read 0 tr) in Hb. change (sent sock tr1) with (sent sock tr) in Hse. change (failures tr1) with (failures tr) in Hfa. split; [by exists ps|]. split.
  - unfold tr1 in Hq. clear - Hq H. unfold sock in *. res_solve.
  - intros Hnone. exists (concat (ps.*1)). split; [done|]. change (sent sock tr2 = sent sock tr ++ concat (ps.*1)). rewrite Hse. do 2 f_equal.
    change (length (failures tr2) = length (failures tr)) in Hnone. rewrite Hfa in Hnone. assert (length (filter (λ p, bool_decide (p.1 = p.2) = false) ps) = 0%nat) as Hz by lia. clear - Hz.
    induction ps as [|p ps IH]; [done|]. rewrite filter_cons in Hz. destruct (decide _) as [|Hd]; [done|]. apply not_false_is_true, bool_decide_eq_true_1 in Hd. cbn. f_equal; [done|by apply IH].
Qed.

(** ** The growing buffer of the response *)

Abbreviation typed_in := (SocketPair.bytes_read 0).
Abbreviation printed := (lines "buffer :%s").

(** At most [N] bytes are typed in all. *)
Definition stdin_small {os : OS} (N : Z) : Prop :=
  ∀ tr n, let r := os_answer tr (Read 0 n) in 0 < r_ret r → Z.of_nat (length (typed_in tr)) + r_ret r ≤ N.

(** What the library promises: with 0 there is a response, and its header is in the buffer. *)
Definition parser_sane {os : OS} : Prop := ∀ tr b, let r := os_answer tr (Ext "http_parse_response" b) in
  r_ret r = 0 → r_out r !!! 0%nat ≠ NULL ∧ 0 ≤ r_out r !!! 1%nat ≤ Z.of_nat (length b).

Definition realloc_works {os : OS} : Prop := ∀ tr p n, r_ret (os_answer tr (Realloc p n)) ≠ NULL.

(** All that was read is at the start of the block, which has as many bytes as the code believes,
    room for more than 256 bytes is left, and as long as the block has not grown the rest of it is null. *)
Record collected (N : Z) (s : TestResp.st) (tr : list event) : Prop := {
  c_data : take (Z.to_nat (TestResp.offset s)) (TestResp.block s) = typed_in tr;
  c_offset : TestResp.offset s = Z.of_nat (length (typed_in tr));
  c_small : TestResp.offset s ≤ Z.max 0 N;
  c_block : Z.of_nat (length (TestResp.block s)) = TestResp.tot_size s;
  c_room : 256 < TestResp.tot_size s - TestResp.offset s;
  c_size : 1024 ≤ TestResp.tot_size s;
  c_rest : drop (Z.to_nat (TestResp.offset s)) (TestResp.block s) = replicate (Z.to_nat (1024 - TestResp.offset s)) 0 ∨ 768 ≤ TestResp.offset s }.

(** A library that makes a response of every input, if only to describe the error. *)
Definition parser_leaves {os : OS} : Prop := ∀ tr b, r_out (os_answer tr (Ext "http_parse_response" b)) !!! 0%nat ≠ NULL.
Definition parsed {os : OS} (s : TestResp.st) (tr : list event) : Prop := parser_leaves → typed_in tr ≠ [] → TestResp.info s ≠ NULL.

Section response.
Context {os : OS} (N : Z).
Context (HN : N < 2 ^ 29) (Hread : read_sane) (Hsmall : stdin_small N) (Hparse : parser_sane) (Hrealloc : realloc_works).

(** After a read there is room again. *)
Lemma resp_grow_wp (s : TestResp.st) tr (Q : TestResp.st → world unit → Prop) :
  take (Z.to_nat (TestResp.offset s)) (TestResp.block s) = typed_in tr → TestResp.offset s = Z.of_nat (length (typed_in tr)) → 0 < TestResp.offset s ≤ N →
  TestResp.offset s ≤ TestResp.tot_size s → 1024 ≤ TestResp.tot_size s → Z.of_nat (length (TestResp.block s)) = TestResp.tot_size s →
  (drop (Z.to_nat (TestResp.offset s)) (TestResp.block s) = replicate (Z.to_nat (1024 - TestResp.offset s)) 0 ∨ 768 ≤ TestResp.offset s) →
  (∀ s' tr', collected N s' tr' → TestResp.offset s' = TestResp.offset s → TestResp.info s' = TestResp.info s → typed_in tr' = typed_in tr → printed tr' = printed tr → Q s' (mk_world tr' tt)) →
  wp (TestResp.grow s) Q (mk_world tr tt).
Proof using Hrealloc HN.
  intros Hd Ho Hpos Hle Hsz Hblk Hrest HQ. unfold TestResp.grow. destruct (Z.leb_spec (TestResp.tot_size s - TestResp.offset s) 256) as [Hlow|Hroom].
  - replace (2 ^ 31 <=? 2 * TestResp.tot_size s) with false by lia. unfold sys_realloc. do 4 wp_sys_step. pose proof (Hrealloc tr (TestResp.buf s) (2 * TestResp.tot_size s)) as Hnn. rewrite <- Hr in Hnn.
    rewrite (proj2 (Z.eqb_neq _ _) Hnn). wp_sys_step. apply HQ; [|done|done|done|done].
    split; cbn; rewrite ?length_resize; [by rewrite take_resize_grow by lia|done|lia|lia|lia|lia|right; lia].
  - wp_sys_step. apply HQ; [|done|done|done|done]. split; [done|done|lia|done|lia|done|done].
Qed.

Lemma resp_round_wp s tr : collected N s tr → parsed s tr →
  wp (TestResp.read_round s) (λ r w, match r with
    | inl s' => (collected N s' (w_trace w) ∧ parsed s' (w_trace w) ∧ printed (w_trace w) = printed tr) ∧ (length (typed_in tr) < length (typed_in (w_trace w)))%nat
    | inr s' => (collected N s' (w_trace w) ∧ parsed s' (w_trace w) ∧ printed (w_trace w) = printed tr) ∧
        (0 < r_ret (os_answer tr (Read 0 (TestResp.tot_size s - TestResp.offset s))) → typed_in (w_trace w) ≠ []) ∧ (typed_in tr ≠ [] → typed_in (w_trace w) ≠ []) end) (mk_world tr tt).
Proof using Type*.
  intros [Hd Ho Hle Hblk Hroom Hsz Hrest] Hparsed. unfold TestResp.read_round. wp_sys_step. wp_sys_step.
  destruct (Hread tr 0 (TestResp.tot_size s - TestResp.offset s)) as [Hmax Hlen]; [lia|]. rewrite <- Hr in Hmax, Hlen. destruct (Z.ltb_spec 0 (r_ret r)) as [Hpos|Hneg].
  2: { wp_sys_step. cbn [w_trace]. assert (typed_in ((Read 0 (TestResp.tot_size s - TestResp.offset s), r) :: tr) = typed_in tr) as Ht.
       { cbn. replace (Z.to_nat (r_ret r)) with 0%nat by lia. rewrite take_0. apply app_nil_r. }
       split; [|rewrite Ht, <- Hr; split; [lia|done] ]. split; [split; rewrite ?Ht; done|]. unfold parsed. by rewrite Ht. }
  specialize (Hlen Hpos). pose proof (Hsmall tr (TestResp.tot_size s - TestResp.offset s)) as Hsm. rewrite <- Hr in Hsm. specialize (Hsm Hpos).
  rewrite (take_ge (r_out r)) by lia. assert (0 ≤ TestResp.offset s ∧ TestResp.offset s + Z.of_nat (length (r_out r)) ≤ Z.of_nat (length (TestResp.block s))) as Hfit by lia.
  assert (take (Z.to_nat (TestResp.offset s)) (TestResp.block s) ++ r_out r = typed_in ((Read 0 (TestResp.tot_size s - TestResp.offset s), r) :: tr)) as Ht.
  { cbn [SocketPair.bytes_read]. rewrite Z.eqb_refl, (take_ge (r_out r)) by lia. by rewrite Hd. }
  wp_sys_step. apply wp_store_bytes; [done|]. wp_sys_step. apply resp_grow_wp; cbn [TestResp.block TestResp.offset TestResp.info TestResp.tot_size].
  - rewrite take_overwrite by lia. exact Ht.
  - rewrite <- Ht, length_app, length_take. lia.
  - lia.
  - lia.
  - lia.
  - by rewrite length_overwrite.
  - destruct Hrest as [Hz|Hbig]; [|right; lia]. left. rewrite drop_overwrite, Z2Nat.inj_add, <- drop_drop, Hz, drop_replicate by lia. f_equal. lia.
  - intros s' tr' Hc Hoff' Hinfo Htr' Hpr'. assert (typed_in tr' ≠ []) as Hne by (rewrite Htr', <- Ht; intros [_ E]%app_eq_nil; rewrite E in Hlen; cbn in Hlen; lia).
    assert (length (typed_in tr) < length (typed_in tr'))%nat as Hgrow by (rewrite Htr', <- Ht, length_app, Hd; lia).
    unfold TestResp.http_parse_response. wp_sys_step. wp_sys_step. wp_sys_step. wp_sys_step. set (s2 := TestResp.mk_st _ _ _ _ _).
    assert (∀ tr2, typed_in tr2 = typed_in tr' → collected N s2 tr2 ∧ parsed s2 tr2) as Hc2.
    { intros tr2 E. split; [destruct Hc; split; rewrite ?E; done|]. intros Hl _. cbn. rewrite Hr0. apply Hl. }
    destruct (Z.ltb_spec (r_ret r0) 0) as [Hn|Hn]; [wp_run; cbn [w_trace typed_in lines app]; rewrite ?app_nil_r; split; [split; [by apply Hc2|split; [by apply Hc2|exact Hpr']]|by split]|]. destruct (Z.eqb_spec (r_ret r0) 0) as [Hz|Hz].
    + unfold TestResp.show. destruct (Hparse tr' (take (Z.to_nat (TestResp.offset s')) (TestResp.block s'))) as [Hnn Hhl]; [by rewrite <- Hr0|]. rewrite <- Hr0 in Hnn, Hhl.
      cbn [s2 TestResp.info]. rewrite (proj2 (Z.eqb_neq _ _) Hnn). change (TestResp.offset s2) with (TestResp.offset s'). rewrite length_take in Hhl.
      replace ((0 <=? r_out r0 !!! 1%nat) && (r_out r0 !!! 1%nat <=? TestResp.offset s')) with true by lia.
      wp_run. cbn [w_trace lines]. split; [|exact Hgrow]. split; [by apply Hc2|]. split; [by apply Hc2|]. rewrite ?app_nil_r. exact Hpr'.
    + wp_run. cbn [w_trace lines]. split; [|exact Hgrow]. split; [by apply Hc2|]. split; [by apply Hc2|]. rewrite ?app_nil_r. exact Hpr'.
Qed.

End response.

(** The loop, whatever the sizes of the reads. *)
Lemma read_loop_wp {os : OS} fuel N tr p : N < 2 ^ 29 → read_sane → stdin_small N → parser_sane → realloc_works → typed_in tr = [] → (Z.to_nat N < fuel)%nat →
  wp (loop fuel TestResp.read_round (TestResp.mk_st p (replicate (Z.to_nat TestResp.BUF_SIZE) 0) TestResp.BUF_SIZE 0 NULL)) (λ s w,
    collected N s (w_trace w) ∧ parsed s (w_trace w) ∧ printed (w_trace w) = printed tr ∧ (0 < r_ret (os_answer tr (Read 0 1024)) → typed_in (w_trace w) ≠ [])) (mk_world tr tt).
Proof.
  intros HN Hr Hs Hp Hre H0 Hf. set (s0 := TestResp.mk_st _ _ _ _ _).
  apply (wp_loop (λ s w, collected N s (w_trace w) ∧ parsed s (w_trace w) ∧ printed (w_trace w) = printed tr ∧ (s = s0 ∧ w_trace w = tr ∨ typed_in (w_trace w) ≠ []))
    (λ s w, Z.to_nat N - length (typed_in (w_trace w)))%nat).
  - intros s [tr1 []] (Hc & Hpa & Hpr & Hst). eapply wp_mono; [by apply (resp_round_wp N)|]. cbn [w_trace] in *. intros [s'|s'] w.
    + intros [(Hc' & Hpa' & Hpr') Hlt]. split; [split; [done|]; split; [done|]; split; [congruence|]; right; by intros E; rewrite E in Hlt; cbn in Hlt; lia|].
      destruct Hc as [_ Ho Hle _ _ _ _], Hc' as [_ Ho' Hle' _ _ _ _]. cbn [w_trace] in *. lia.
    + intros [(Hc' & Hpa' & Hpr') [Hpos Hne]]. split; [done|]. split; [done|]. split; [congruence|]. destruct Hst as [[-> ->]|Hst]; [exact Hpos|by intros _; apply Hne].
  - split; [unfold s0; split; cbn [TestResp.offset TestResp.block w_trace]; rewrite ?H0; [done|done|lia|by vm_compute|by vm_compute|by vm_compute|by left]|].
    split; [by intros _ Hne; cbn [w_trace] in Hne; rewrite H0 in Hne|]. split; [done|]. by left.
  - cbn. lia.
Qed.

(** C16: the buffer of the parser test never overflows.  When memory is not exhausted, [read] delivers no
    more than it is asked for, fewer than 2^29 bytes are typed in all and the parser reports no header longer than its input, the loop
    ends whatever the sizes of the reads, without storing outside the block that was allocated; the block then
    has exactly [tot_size] bytes, starts with all that was typed, in order, and more than 256 bytes of it are free. *)
Theorem response_collected {os : OS} fuel N tr : N < 2 ^ 29 → read_sane → stdin_small N → parser_sane → realloc_works →
  r_ret (os_answer tr (Calloc TestResp.BUF_SIZE 1)) ≠ NULL → typed_in tr = [] → (Z.to_nat N < fuel)%nat →
  wp (TestResp.collect fuel) (λ s w,
    take (Z.to_nat (TestResp.offset s)) (TestResp.block s) = typed_in (w_trace w) ∧ TestResp.offset s = Z.of_nat (length (typed_in (w_trace w))) ∧
    Z.of_nat (length (TestResp.block s)) = TestResp.tot_size s ∧ 256 < TestResp.tot_size s - TestResp.offset s) (mk_world tr tt).
Proof.
  intros HN Hr Hs Hp Hre Hc H0 Hf. unfold TestResp.collect, sys_calloc. do 4 wp_sys_step. rewrite Hr0, (proj2 (Z.eqb_neq _ _) Hc). eapply wp_mono; [by apply (read_loop_wp _ N)|].
  by intros s w [[] _].
Qed.

(** The block holds a string, and it is what was typed. *)
Lemma collected_string N s tr : collected N s tr → TestResp.offset s ≤ 767 → 0 ∈ TestResp.block s ∧ cstr (TestResp.block s) = cstr (typed_in tr).
Proof.
  intros [Hd Ho Hle Hblk Hroom Hsz [Hrest|?]] Hsmall; [|lia]. rewrite <- (take_drop (Z.to_nat (TestResp.offset s)) (TestResp.block s)), Hd, Hrest.
  replace (Z.to_nat (1024 - TestResp.offset s)) with (S (Z.to_nat (1023 - TestResp.offset s))) by lia. cbn [replicate]. split; [set_solver|].
  generalize (replicate (Z.to_nat (1023 - TestResp.offset s)) 0). clear. intros l. induction (typed_in tr) as [|c t IH]; [done|]. cbn. by rewrite IH.
Qed.

(** The whole program on an input of 1 to 767 bytes: it prints the input, up to its first null
    byte.  Without any input it uses a response that was never made. *)
Theorem response_printed {os : OS} fuel N tr : N ≤ 767 → read_sane → stdin_small N → parser_sane → realloc_works → parser_leaves → typed_in tr = [] → (Z.to_nat N < fuel)%nat →
  let c := os_answer tr (Calloc TestResp.BUF_SIZE 1) in let first := r_ret (os_answer ((Calloc TestResp.BUF_SIZE 1, c) :: tr) (Read 0 1024)) in r_ret c ≠ NULL →
  (0 < first → wp (TestResp.main fuel) (λ ret w, ret = 0 ∧ printed (w_trace w) = printed tr ++ [cstr (typed_in (w_trace w))]) (mk_world tr tt)) ∧
  (first ≤ 0 → TestResp.main fuel (mk_world tr tt) = Undef).
Proof.
  intros HN Hr Hs Hp Hre Hle H0 Hf c first Hc. split; intros Hfirst; unfold TestResp.main, TestResp.collect, sys_calloc.
  - do 5 wp_sys_step. subst r. fold c. rewrite (proj2 (Z.eqb_neq _ _) Hc). eapply wp_mono; [apply (read_loop_wp fuel N); [lia|done|done|done|done|exact H0|done]|].
    intros s [tr1 []] (Hcol & Hpa & Hpr & Hne). cbn [w_trace] in *. specialize (Hpa Hle (Hne Hfirst)). pose proof (c_small _ _ _ Hcol).
    destruct (collected_string _ _ _ Hcol ltac:(lia)) as [Hin Hstr]. wp_sys_step. unfold print_str. rewrite bool_decide_eq_true_2 by done. wp_sys_step. rewrite (proj2 (Z.eqb_neq _ _) Hpa).
    wp_sys_step. wp_run; cbn [w_trace lines SocketPair.bytes_read]; rewrite ?app_nil_r, String.eqb_refl, Hstr, Hpr; done.
  - destruct fuel as [|fuel]; [lia|]. set (tr1 := (Calloc TestResp.BUF_SIZE 1, c) :: tr) in *. set (b := replicate (Z.to_nat (TestResp.BUF_SIZE * 1)) 0).
    set (s0 := TestResp.mk_st (r_ret c) b TestResp.BUF_SIZE 0 NULL). set (w1 := mk_world ((Read 0 1024, os_answer tr1 (Read 0 1024)) :: tr1) tt).
    assert (TestResp.read_round s0 (mk_world tr1 tt) = Ok (inr s0) w1) as E.
    { unfold TestResp.read_round. change (TestResp.tot_size s0 - TestResp.offset s0) with 1024. unfold mbind, M_bind, sys. cbn [w_trace w_glob]. fold first. by rewrite (proj2 (Z.ltb_ge _ _) Hfirst). }
    assert ((sys (Calloc TestResp.BUF_SIZE 1) ≫= λ r, mret (r_ret r, b)) (mk_world tr tt) = Ok (r_ret c, b) (mk_world tr1 tt)) as Ec by done.
    rewrite (bind_ok _ _ _ s0 w1); [|rewrite (bind_ok _ _ _ _ _ Ec), (proj2 (Z.eqb_neq _ _) Hc); by apply loop_done].
    unfold print_str. rewrite bool_decide_eq_true_2 by (apply elem_of_replicate; split; [done|by vm_compute]). done.
Qed.

(** ** Witnesses *)

(** Three bytes are typed; everything succeeds. *)
Definition http_os : OS := λ tr c,
  match c with
  | Read _ n => if (length (typed_in tr) =? 0)%nat then mk_reply (Z.min n 3) 0 (take (Z.to_nat (Z.min n 3)) [72; 105; 10]) else mk_reply 0 0 []
  | Send _ b _ => mk_reply (Z.of_nat (length b)) 0 []
  | Ext "http_parse_response" _ => mk_reply 0 0 [64; 0]
  | _ => mk_reply 5 0 [1]
  end.
Definition calm_http : OS := calm_os 9 http_os.

Lemma calm_http_read : read_sane (os := calm_http).
Proof.
  intros tr fd n Hn. unfold os_answer, calm_http, calm_os, http_os. destruct (_ <=? _)%nat; cbn; [lia|]. destruct (_ =? _)%nat; cbn; [|lia].
  split; [lia|]. intros Hp. rewrite length_take. cbn. lia.
Qed.

Lemma http_read : read_sane (os := http_os).
Proof.
  intros tr fd n Hn. unfold os_answer, http_os. destruct (_ =? _)%nat; cbn; [|lia]. split; [lia|]. intros Hp. rewrite length_take. cbn. lia.
Qed.

Lemma http_small : stdin_small (os := http_os) 3.
Proof. intros tr n. unfold os_answer, http_os. destruct (Nat.eqb_spec (length (typed_in tr)) 0) as [->|]; cbn; lia. Qed.

Lemma http_parser : parser_sane (os := http_os).
Proof. intros tr b. cbn zeta. intros Hr. clear Hr. change (64 ≠ NULL ∧ 0 ≤ 0 ≤ Z.of_nat (length b)). unfold NULL. lia. Qed.

Lemma calm_http_send : send_sane (os := calm_http).
Proof. intros tr fd b fl. unfold os_answer, calm_http, calm_os, http_os. destruct (_ <=? _)%nat; cbn; lia. Qed.

Lemma client_relays_input_witness : ends (Client.main (os := calm_http) 10) (λ ret w, ret = 0 ∧ ∃ sock, relayed sock [] (w_trace w) ∧ res_delta [] (w_trace w) [sock] [] ∧
      (length (failures (w_trace w)) = length (failures []) → ∃ data, typed_in (w_trace w) = typed_in [] ++ data ∧ sent sock (w_trace w) = sent sock [] ++ data))
    (λ code w, code = 1 ∧ typed_in (w_trace w) = typed_in []) (mk_world [] tt).
Proof. apply (@client_relays_input calm_http 10 9 []); [apply calm_os_calms|lia|apply calm_http_send|apply calm_http_read]. Defined.

Lemma response_collected_witness :
  wp (TestResp.collect (os := http_os) 4) (λ s w,
    take (Z.to_nat (TestResp.offset s)) (TestResp.block s) = typed_in (w_trace w) ∧ TestResp.offset s = Z.of_nat (length (typed_in (w_trace w))) ∧
    Z.of_nat (length (TestResp.block s)) = TestResp.tot_size s ∧ 256 < TestResp.tot_size s - TestResp.offset s) (mk_world [] tt).
Proof.
  apply (@response_collected http_os 4 3 []); [lia|apply http_read|apply http_small|apply http_parser|done|done|done|cbn; lia].
Defined.

Lemma response_printed_witness :
  wp (TestResp.main (os := http_os) 4) (λ ret w, ret = 0 ∧ printed (w_trace w) = printed [] ++ [cstr (typed_in (w_trace w))]) (mk_world [] tt).
Proof.
  apply (@response_printed http_os 4 3 []); [lia|apply http_read|apply http_small|apply http_parser|done|done|done|cbn; lia|done|by vm_compute].
Defined.

(** A response that fills the first 1024 bytes makes the block grow, and the new half is not
    initialised: the last printf may run off its end. *)
Definition junk_os : OS := λ tr c,
  match c with
  | Read _ _ => if (length (typed_in tr) =? 0)%nat then mk_reply 1024 0 (replicate 1024 97) else mk_reply 0 0 []
  | Realloc _ _ => mk_reply 64 0 (replicate 1024 255)
  | Ext "http_parse_response" _ => mk_reply 0 0 [64; 0]
  | _ => mk_reply 5 0 []
  end.

Lemma grown_buffer_unterminated : TestResp.main (os := junk_os) 9 (mk_world [] tt) = Undef.
Proof. by vm_compute. Qed.
