(* ===== verification/NetExamples.v ===== *)
(** * Small network programs (networking/dnsLookup, other/showip.c, system/poller/poll.c,
    networking/socket/unixSock/unix_dgram_*.c)

    Two programs that look names up, one that echoes words until a timeout, and a pair that sends
    a message over a Unix datagram socket. *)

From Stdlib Require Import ZArith Lia ZifyBool.
From stdpp Require Import base gmap list strings numbers.
From S2P Require Import Prelude Posix Files.

(** ** Name lookup *)

Record addrinfo := mk_ai {
  ai_flags : Z; ai_family : Z; ai_socktype : Z; ai_protocol : Z; ai_addrlen : Z;
  ai_addr : list Z; ai_port : Z; ai_canonname : option (list Z) }.

(** The resolver: the result of [getaddrinfo] with its list, by what has happened and the hints
    (flags, family, socket type and protocol). *)
Class RESOLVER := resolve : list event → Z * Z * Z * Z → Z * list addrinfo.

Definition AF_UNSPEC : Z := 0.
Definition AF_INET : Z := 2.
Definition SOCK_STREAM : Z := 1.

Section lookups.
Context {os : OS} {rs : RESOLVER}.
Abbreviation LM := (M (world unit)).

Definition getaddrinfo (hints : Z * Z * Z * Z) : LM (Z * list addrinfo) :=
  tr ← gets w_trace;
  sys_ (Ext "getaddrinfo" []);;
  mret (resolve tr hints).
End lookups.

(** networking/dnsLookup/dns_lookup.c *)
Module DnsLookup.
Section code.
Context {os : OS} {rs : RESOLVER}.

(** [inet_ntoa] and [ntohs] of the address; a null name must not be printed with [%s]. *)
Definition show (tmp : addrinfo) : M (world unit) unit :=
  ip ← sys (InetNtoa (ai_addr tmp !!! 0%nat));
  match ai_canonname tmp with
  | None => undef
  | Some name =>
      sys_ (Printf "ai_flags [%d] ai_famnily [%d] ai_socktype [%d] ai_protocol [%d] ai_addrlen [%d] ip [%s] port [%d] ai_canonname [%s]"
        ([ai_flags tmp; ai_family tmp; ai_socktype tmp; ai_protocol tmp; ai_addrlen tmp] ++ r_out ip ++ [ai_port tmp] ++ name))
  end.

Fixpoint walk (tmp : list addrinfo) : M (world unit) unit :=
  match tmp with [] => mret tt | a :: tmp => show a;; walk tmp end.

Definition main (argc : nat) : M (world unit) Z :=
  if (argc <? 3)%nat then
    sys_ (Printf "%s : Wrong number of arguments to the program" (codes "main"));;
    sys_ (Printf "Usage: %s <host> <service>" []);;
    exit_with 1
  else
    host ← sys (Ext "strdup" []);
    service ← sys (Ext "strdup" []);
    '(ret, res) ← getaddrinfo (0, AF_INET, SOCK_STREAM, 6);
    (if ret <? 0 then sys_ (Printf "%s : Error [%d] [%s] in getaddrinfo !!!" (codes "main" ++ [ret])) else walk res);;
    sys_ Socket;;
    sys_ (Sleep 1000);;
    sys_ (Free (r_ret host));;
    sys_ (Free (r_ret service));;
    sys_ (Ext "freeaddrinfo" []);;
    mret 0.
End code.
End DnsLookup.

(** other/showip.c *)
Module ShowIp.
Section code.
Context {os : OS} {rs : RESOLVER}.

Definition ipver (a : addrinfo) : list Z := codes (if ai_family a =? AF_INET then "IPv4" else "IPv6").

(** When [inet_ntop] fails the buffer is as it was: nothing at first. *)
Definition show (ipstr : option (list Z)) (p : addrinfo) : M (world unit) (option (list Z)) :=
  r ← sys (Ext "inet_ntop" (ai_family p :: ai_addr p));
  let ipstr := if r_ret r =? NULL then ipstr else Some (r_out r) in
  s ← expect ipstr;
  sys_ (Printf "%s:%s" (ipver p ++ s));;
  mret ipstr.

Fixpoint walk (ipstr : option (list Z)) (p : list addrinfo) : M (world unit) unit :=
  match p with [] => mret tt | a :: p => ipstr ← show ipstr a; walk ipstr p end.

Definition main (argc : nat) : M (world unit) Z :=
  if negb (argc =? 2)%nat then sys_ (Printf "Usage: showip hostname" []);; mret 1
  else
    '(status, res) ← getaddrinfo (0, AF_UNSPEC, SOCK_STREAM, 0);
    if negb (status =? 0) then sys_ (Printf "getaddrinfo:%s" [status]);; mret 2
    else
      sys_ (Printf "IP Addresses for %s" []);;
      walk None res;;
      sys_ (Ext "freeaddrinfo" []);;
      mret 0.
End code.
End ShowIp.

(** ** system/poller/poll.c *)

Module PollExample.
Section code.
Context {os : OS}.

(** [scanf("%s", buf)]: the word and its terminator must fit; without a word the buffer stays. *)
Definition scanf (buf : list Z) : M (world unit) (list Z) :=
  r ← sys (Ext "scanf" []);
  if r_ret r =? 1 then
    if (length (r_out r) <? 10)%nat then mret (r_out r ++ [0] ++ drop (S (length (r_out r))) buf) else undef
  else mret buf.

Definition round (buf : list Z) : M (world unit) (list Z + unit) :=
  r ← sys (Poll [(0, POLLIN)] (5 * 1000));
  let rv := r_ret r in
  if rv =? -1 then sys_ (Ext "perror poll" []);; sys_ (Ext "fflush" []);; mret (inl buf)
  else if rv =? 0 then sys_ (Printf "Timeout occurred!" []);; mret (inr tt)
  else if has_bits (r_out r !!! 0%nat) POLLIN then
    buf ← scanf buf;
    if bool_decide (0 ∈ buf) then
      if bool_decide (cstr buf = codes "quit") then mret (inr tt)
      else sys_ (Printf "buf = %s" (cstr buf));; sys_ (Ext "fflush" []);; mret (inl buf)
    else undef
  else sys_ (Ext "fflush" []);; mret (inl buf).

(** [buf] is what the buffer holds at first. *)
Definition main (fuel : nat) (buf : list Z) : M (world unit) Z := loop fuel round buf;; mret 0.
End code.
End PollExample.

(** ** networking/socket/unixSock *)

(** unix_dgram_client.c *)
Module DgramClient.
Definition DATA : list Z := codes "This is a test msg !" ++ [10; 0].
Section code.
Context {os : OS}.

Definition round (sock : Z) (_ : unit) : M (world unit) (unit + unit) :=
  sys_ (Printf "sending msg..." []);;
  r ← sys (Sendto sock DATA 0 0);
  (if r_ret r <? 0 then sys_ (Ext "perror sending datagram message" []) else mret tt);;
  sys_ (Printf "msg sent." []);;
  mret (inl tt).

Definition main (fuel : nat) : M (world unit) unit :=
  s ← sys Socket;
  if r_ret s <? 0 then sys_ (Ext "perror opening datagram socket" []);; exit_with 1
  else loop fuel (round (r_ret s)) tt.
End code.
End DgramClient.

(** unix_dgram_server.c *)
Module DgramServer.
Section code.
Context {os : OS}.

(** [buf]: the 1024 bytes of the array before the read. *)
Definition main (buf : list Z) : M (world unit) unit :=
  s ← sys Socket;
  let sock := r_ret s in
  if sock <? 0 then sys_ (Ext "perror opening datagram socket" []);; exit_with 1
  else
    b ← sys (Bind sock 0 0);
    if negb (r_ret b =? 0) then sys_ (Ext "perror binding name to datagram socket" []);; exit_with 1
    else
      r ← sys (Read sock 1024);
      let n := Z.to_nat (r_ret r) in
      (if r_ret r <? 0 then sys_ (Ext "perror receiving datagram packet" []) else mret tt);;
      print_str "-->%s" (take n (r_out r) ++ drop (length (take n (r_out r))) buf);;
      sys_ (Sleep 3600);;
      sys_ (Close sock).
End code.
End DgramServer.

(** ** Theorems *)

Section walks.
Context {os : OS} (ntop : Z → list Z → list Z).
Context (Hntop : ∀ tr f a, os_answer tr (Ext "inet_ntop" (f :: a)) = mk_reply 1 0 (ntop f a)).

Lemma showip_walk E res ipstr tr (Q : unit → world unit → Prop) :
  (∀ tr', lines "%s:%s" tr' = lines "%s:%s" tr ++ ((λ a, ShowIp.ipver a ++ ntop (ai_family a) (ai_addr a)) <$> res) → Q tt (mk_world tr' tt)) →
  ends (ShowIp.walk ipstr res) Q E (mk_world tr tt).
Proof using Hntop.
  revert ipstr tr. induction res as [|a res IH]; intros ipstr tr HQ; cbn [ShowIp.walk]; [apply HQ; by rewrite app_nil_r|]. f_step. unfold ShowIp.show. f_step. f_step.
  subst r. rewrite Hntop. f_step. eapply ends_expects; [done|]. f_step. f_step. f_step. apply IH. intros tr' Ht. apply HQ. rewrite Ht, lines_snoc, <- app_assoc. done.
Qed.

End walks.

(** The program prints one line for each address found, in order, with its version and its text,
    and gives the list back; a lookup that fails is reported with 2. *)
Theorem addresses_shown {os : OS} {rs : RESOLVER} (ntop : Z → list Z → list Z) tr :
  (∀ tr f a, os_answer tr (Ext "inet_ntop" (f :: a)) = mk_reply 1 0 (ntop f a)) →
  let '(status, res) := resolve tr (0, AF_UNSPEC, SOCK_STREAM, 0) in
  ends (ShowIp.main 2) (λ ret w, (status ≠ 0 ∧ ret = 2 ∧ lines "%s:%s" (w_trace w) = lines "%s:%s" tr) ∨
    (status = 0 ∧ ret = 0 ∧ lines "%s:%s" (w_trace w) = lines "%s:%s" tr ++ ((λ a, ShowIp.ipver a ++ ntop (ai_family a) (ai_addr a)) <$> res))) (λ _ _, False) (mk_world tr tt).
Proof.
  intros Hn. destruct (resolve tr (0, AF_UNSPEC, SOCK_STREAM, 0)) as [status res] eqn:E. unfold ShowIp.main, getaddrinfo. cbn [Nat.eqb negb]. f_step. f_step.
  apply ends_wp, wp_gets. cbn [w_trace]. f_step. f_step. f_step. rewrite E. destruct (Z.eqb_spec status 0) as [->|Hs]; cbn [negb].
  - f_step. f_step. f_step. apply (showip_walk ntop Hn). intros tr' Ht. f_step. f_step. f_step. right. split; [done|]. split; [done|]. cbn [w_trace lines] in *. rewrite Ht. cbn [lines String.eqb]. by rewrite app_nil_r.
  - f_step. f_step. f_step. left. split; [done|]. split; [done|]. cbn [w_trace lines]. apply app_nil_r.
Qed.

(** A name is stored only when it was asked for. *)
Definition resolver_sane {rs : RESOLVER} : Prop := ∀ tr h, h.1.1.1 = 0 → Forall (λ a, ai_canonname a = None) (resolve tr h).2.

(** A lookup that finds an address prints a null pointer as a string: the hints do not ask for
    the name that the program prints. *)
Theorem dns_prints_null {os : OS} {rs : RESOLVER} argc tr : resolver_sane → (3 ≤ argc)%nat →
  (∀ tr, 0 ≤ (resolve tr (0, AF_INET, SOCK_STREAM, 6)).1 ∧ (resolve tr (0, AF_INET, SOCK_STREAM, 6)).2 ≠ []) → DnsLookup.main argc (mk_world tr tt) = Undef.
Proof.
  intros Hs Ha Hf. unfold DnsLookup.main. rewrite (proj2 (Nat.ltb_ge _ _)) by lia. unfold mbind, M_bind, sys, getaddrinfo, gets, sys_, mbind, M_bind, sys. cbn [w_trace].
  match goal with |- context [resolve ?t ?h] => destruct (Hf t) as [H1 H2]; pose proof (Hs t h eq_refl) as H3; destruct (resolve t h) as [ret res] end. cbn [fst snd] in *.
  unfold mret, M_ret. cbv beta iota. rewrite (proj2 (Z.ltb_ge _ _)) by done. destruct res as [|a res]; [done|]. apply list.Forall_cons in H3 as [Hn _]. cbn. unfold mbind, M_bind. cbn. unfold DnsLookup.show, mbind, M_bind, sys. cbn. by rewrite Hn.
Qed.

(** ** The echo of words *)

(** The words read, and the words printed. *)
Fixpoint scanned (tr : list event) : list (list Z) :=
  match tr with [] => [] | (Ext "scanf" _, r) :: tr => scanned tr ++ [r_out r] | _ :: tr => scanned tr end.

(** [scanf] finds a word, shorter than the buffer and without null characters; [poll] fails only when
    it is interrupted, and reports input. *)
Definition terminal_sane {os : OS} : Prop :=
  (∀ tr a, let r := os_answer tr (Ext "scanf" a) in r_ret r = 1 ∧ (length (r_out r) < 10)%nat ∧ (0 ∉ r_out r)) ∧
  (∀ tr f t, let r := os_answer tr (Poll f t) in (r_ret r = -1 ∧ r_errno r = EINTR) ∨ r_ret r = 0 ∨ 0 < r_ret r ∧ has_bits (r_out r !!! 0%nat) POLLIN = true).

Definition echoed (tr0 tr : list event) : Prop := ∃ ws, scanned tr = scanned tr0 ++ ws ∧ lines "buf = %s" tr = lines "buf = %s" tr0 ++ ws ∧ (codes "quit" ∉ ws).

Lemma cstr_word s t : 0 ∉ s → cstr (s ++ 0 :: t) = s.
Proof. induction s as [|c s IH]; intros H; [done|]. cbn. destruct (Z.eqb_spec c 0) as [->|]; [set_solver|]. f_equal. apply IH. set_solver. Qed.

(** The program echoes every word, in order, until it is quit or nothing is typed for
    five seconds. *)
Theorem words_echoed {os : OS} fuel K buf tr : calms_down K → (K < fuel)%nat → terminal_sane →
  wp (PollExample.main fuel buf) (λ ret w, ret = 0 ∧ ∃ ws, lines "buf = %s" (w_trace w) = lines "buf = %s" tr ++ ws ∧ (codes "quit" ∉ ws) ∧
    (scanned (w_trace w) = scanned tr ++ ws ∨ scanned (w_trace w) = scanned tr ++ ws ++ [codes "quit"])) (mk_world tr tt).
Proof.
  intros HK Hf [Hsc Hpo]. unfold PollExample.main. wp_sys_step. eapply wp_mono.
  - apply (wp_calm_loop K fuel _ (λ _ w, echoed tr (w_trace w)) (λ _ w, ∃ ws, lines "buf = %s" (w_trace w) = lines "buf = %s" tr ++ ws ∧ (codes "quit" ∉ ws) ∧
      (scanned (w_trace w) = scanned tr ++ ws ∨ scanned (w_trace w) = scanned tr ++ ws ++ [codes "quit"]))); [done|done| |].
    { exists []. rewrite !app_nil_r. split; [done|]. split; [done|set_solver]. }
    intros b [tr1 []] (ws & Hs & Hl & Hq). cbn [w_trace] in *. unfold PollExample.round. wp_sys_step. wp_sys_step.
    specialize (Hpo tr1 [(0, POLLIN)] (5 * 1000)). rewrite <- Hr in Hpo. cbn zeta in Hpo.
    destruct (Z.eqb_spec (r_ret r) (-1)) as [Hm|Hm].
    { wp_run. cbn [w_trace]. split; [by exists ws|]. split; [ext_solve|busy_solve]. }
    destruct (Z.eqb_spec (r_ret r) 0) as [Hz|Hz].
    { wp_run. cbn [w_trace lines scanned]. exists ws. rewrite app_nil_r. split; [done|]. split; [done|by left]. }
    destruct Hpo as [[? _]|[?|[Hpos Hin]]]; [done|done|]. rewrite Hin. wp_sys_step. unfold PollExample.scanf. wp_sys_step. wp_sys_step.
    destruct (Hsc ((Poll [(0, POLLIN)] (5 * 1000), r) :: tr1) []) as (H1 & H2 & H3). rewrite <- Hr0 in H1, H2, H3. rewrite H1. change (1 =? 1) with true. rewrite (proj2 (Nat.ltb_lt _ _)) by done.
    wp_sys_step. change ([0] ++ ?t) with (0 :: t). rewrite bool_decide_eq_true_2 by set_solver. rewrite cstr_word by done. case_bool_decide as Hquit.
    + wp_sys_step. exists ws. cbn [w_trace lines scanned]. split; [done|]. split; [done|]. right. by rewrite Hs, Hquit, <- app_assoc.
    + wp_run. cbn [w_trace]. split; [|split; [ext_solve|busy_solve] ]. exists (ws ++ [r_out r0]). cbn [lines scanned]. rewrite String.eqb_refl, Hs, Hl, !app_assoc. split; [done|]. split; [done|set_solver].
  - intros [] w H. wp_sys_step. by split.
Qed.

(** ** Datagrams *)

(** The message that the client sends, which ends with a null character, is what the server
    prints, whatever was in its buffer; the socket is closed.  It may only stop before, with 1. *)
Theorem datagram_printed {os : OS} buf tr : (∀ tr fd n, os_answer tr (Read fd n) = mk_reply (Z.of_nat (length DgramClient.DATA)) 0 DgramClient.DATA) →
  ends (DgramServer.main buf) (λ _ w, lines "-->%s" (w_trace w) = lines "-->%s" tr ++ [codes "This is a test msg !" ++ [10]] ∧ res_eq tr (w_trace w)) (λ code _, code = 1) (mk_world tr tt).
Proof.
  intros Hread. unfold DgramServer.main. f_step. f_step. f_step; [repeat f_step; done|]. f_step. f_step. f_step; [repeat f_step; done|]. f_step. f_step.
  assert (r1 = mk_reply (Z.of_nat (length DgramClient.DATA)) 0 DgramClient.DATA) as -> by (by rewrite Hr1, Hread). cbn [r_ret r_out].
  change (Z.of_nat (length DgramClient.DATA) <? 0) with false. cbn iota. f_step. f_step. f_step. rewrite Nat2Z.id, firstn_all. unfold print_str.
  rewrite bool_decide_eq_true_2 by (apply elem_of_app; left; by vm_compute; set_solver).
  change (cstr (DgramClient.DATA ++ _)) with (codes "This is a test msg !" ++ [10]). f_step. f_step. f_step. f_step. cbn [w_trace lines]. rewrite String.eqb_refl. split; [done|]. clear Hr1. res_solve.
Qed.

(** The client never stops once it has its socket: any number of rounds sends the message that
    many times. *)
Theorem client_keeps_sending {os : OS} fuel tr : 0 ≤ r_ret (os_answer tr Socket) → DgramClient.main fuel (mk_world tr tt) = OutOfFuel.
Proof.
  intros Hs. unfold DgramClient.main, mbind, M_bind, sys. cbn [w_trace w_glob]. rewrite (proj2 (Z.ltb_ge _ _)) by done.
  apply (rounds_forever (λ _ _, True)); [|done]. intros [] [tr1 []] _. unfold DgramClient.round. wp_run; done.
Qed.

(** ** Witnesses *)

Definition net_os : OS := λ _ c,
  match c with
  | Read _ _ => mk_reply (Z.of_nat (length DgramClient.DATA)) 0 DgramClient.DATA
  | Ext "inet_ntop" _ => mk_reply 1 0 [49]
  | _ => mk_reply 0 0 []
  end.

(** One word is typed. *)
Definition word_os : OS := λ tr c,
  match c with
  | Poll _ _ => if (busy_count tr =? 0)%nat then mk_reply 1 0 [POLLIN] else mk_reply 0 0 []
  | Ext "scanf" _ => mk_reply 1 0 [97; 98]
  | _ => mk_reply (-1) 0 []
  end.

Definition net_rs : RESOLVER := λ _ _, (0, [mk_ai 0 2 1 6 16 [1] 80 None; mk_ai 0 10 1 6 28 [2] 80 None]).

Lemma dns_prints_null_witness : DnsLookup.main (os := net_os) (rs := net_rs) 3 (mk_world [] tt) = Undef.
Proof. apply (@dns_prints_null net_os net_rs 3 []); [intros tr h _; repeat (apply Forall_cons_2; [done|]); apply Forall_nil_2|lia|done]. Defined.

Lemma datagram_printed_witness : ends (DgramServer.main (os := net_os) (replicate 1024 255))
  (λ _ w, lines "-->%s" (w_trace w) = lines "-->%s" [] ++ [codes "This is a test msg !" ++ [10]] ∧ res_eq [] (w_trace w)) (λ code _, code = 1) (mk_world [] tt).
Proof. apply (@datagram_printed net_os (replicate 1024 255) []). intros tr fd n. reflexivity. Defined.

Lemma words_echoed_witness : wp (PollExample.main (os := word_os) 2 (replicate 10 0)) (λ ret w, ret = 0 ∧ ∃ ws, lines "buf = %s" (w_trace w) = lines "buf = %s" [] ++ ws ∧ (codes "quit" ∉ ws) ∧
    (scanned (w_trace w) = scanned [] ++ ws ∨ scanned (w_trace w) = scanned [] ++ ws ++ [codes "quit"])) (mk_world [] tt).
Proof.
  apply (@words_echoed word_os 2 1 (replicate 10 0) []).
  - intros tr c Hb. unfold os_answer, word_os, busy, interrupted. destruct c; try done; cbn; repeat case_match; try done. apply Nat.eqb_eq in H. lia.
  - lia.
  - split; [intros tr a; split; [done|]; split; [cbn; lia|set_solver]|]. intros tr f t. unfold os_answer, word_os. destruct (_ =? _)%nat; cbn; [right; right; split; [lia|done]|by right; left].
Defined.

Lemma addresses_shown_witness : ends (ShowIp.main (os := net_os) (rs := net_rs) 2) (λ ret w, (0 ≠ 0 ∧ ret = 2 ∧ lines "%s:%s" (w_trace w) = []) ∨
  (0 = 0 ∧ ret = 0 ∧ lines "%s:%s" (w_trace w) = [codes "IPv4" ++ [49]; codes "IPv6" ++ [49]])) (λ _ _, False) (mk_world [] tt).
Proof. apply (@addresses_shown net_os net_rs (λ _ _, [49]) []). intros tr f a. reflexivity. Defined.
