(* ===== verification/Exercises.v ===== *)
(** * Language and kernel exercises (system/c, system/reentrant, system/endianness,
    system/load_so_runtime, system/newmalloc, other)

    A signal handler that sees half an assignment, an opaque structure, callbacks, a library loaded
    at run time, allocations in a loop, and programs on integers, bytes and buffers. *)

From Stdlib Require Import ZArith Lia ZifyBool.
From stdpp Require Import base gmap list strings numbers.
From S2P Require Import Prelude Posix Redis Files NetExamples.

(** ** A structure that is assigned in two steps (system/reentrant/fail.c) *)

Module Reentrant.

Record two_int := mk_two { a : Z; b : Z }.
Definition zeros : two_int := mk_two 0 0.
Definition ones : two_int := mk_two 1 1.

(** Where [main] is: the members of the structure that is being assigned, and which comes next. *)
Inductive pc := Assign (src : two_int) (second : bool).

Record state := mk_state { data : two_int; at_ : pc; printed : list (Z * Z) }.

(** The first assignment is before the alarm is set. *)
Definition init : state := mk_state zeros (Assign zeros false) [].

(** One store; the loop assigns the zeros and the ones in turn. *)
Definition store (s : state) : state :=
  match at_ s with
  | Assign src false => mk_state (mk_two (a src) (b (data s))) (Assign src true) (printed s)
  | Assign src true => mk_state (mk_two (a (data s)) (b src)) (Assign (if a src =? 0 then ones else zeros) false) (printed s)
  end.

(** The handler prints the structure as it is and sets the next alarm. *)
Definition signal_handler (s : state) : state := mk_state (data s) (at_ s) (printed s ++ [(a (data s), b (data s))]).

Inductive step (s : state) : state → Prop :=
| step_store : step s (store s)
| step_signal : step s (signal_handler s).

Inductive reachable : state → Prop :=
| reach_init : reachable init
| reach_step s s' : reachable s → step s s' → reachable s'.

End Reentrant.

(** ** An opaque structure (system/c/opaquepointer) *)

Module Opaque.

(** The objects: the identifier of each; the variable [id1] of [main] is at no address here. *)
Abbreviation heap := (gmap Z Z).

Section code.
Context {os : OS}.
Abbreviation OM := (M (world heap)).

Definition obj_getSize : Z := 4.

Definition obj_setID (o id : Z) : OM Z :=
  if o =? NULL then mret (-1)
  else h ← get_glob; _ ← expect (h !! o); set_glob (<[o := id]> h);; mret 0.

(** The pointer for the result is given or not. *)
Definition obj_getID (o : Z) (id : bool) : OM (Z * option Z) :=
  if (o =? NULL) || negb id then mret (-1, None)
  else h ← get_glob; v ← expect (h !! o); mret (0, Some v).

(** [calloc] makes an object with the identifier 0. *)
Definition new_obj : OM Z :=
  r ← sys (Calloc 1 obj_getSize);
  (if r_ret r =? NULL then mret tt else upd_glob (λ h, <[r_ret r := 0]> h));;
  mret (r_ret r).

Definition main : OM Z :=
  o1 ← new_obj;
  ret ← obj_setID o1 99;
  if negb (ret =? 0) then sys_ (Printf "Error in setting obj id !!!" []);; exit_with 1
  else
    '(ret, id1) ← obj_getID o1 true;
    match id1 with
    | Some id1 => if negb (ret =? 0) then sys_ (Printf "Error in getting obj id !!!" []);; exit_with 1 else sys_ (Printf "id = %d" [id1]);; mret 0
    | None => sys_ (Printf "Error in getting obj id !!!" []);; exit_with 1
    end.
End code.
End Opaque.

(** ** Callbacks (system/c/callback) *)

Module Callback.
Section code.
Context {os : OS}.
Abbreviation CM := (M (world unit)).

Definition my_callback (msg : list Z) : CM Z := sys_ (Printf "%s" msg);; sys_ (Sleep 3);; mret 0.

(** reg_callback.c *)
Definition reg_callback (ptr_reg_callback : list Z → CM Z) : CM unit :=
  sys_ (Printf "Inside register callback" []);;
  ret ← ptr_reg_callback (codes "Hi this is a callback message !!!");
  sys_ (Printf "ret = %d" [ret]).

Definition main : CM Z :=
  sys_ (Printf "Inside Main... " []);;
  reg_callback my_callback;;
  sys_ (Printf "Returned to Main..." []);;
  mret 0.

(** catchAlarm.c: [pause] returns when a signal that has a handler has been handled; the answer
    is the number of the signal. *)
Definition sig_handler (signo : Z) : CM unit := sys_ (Printf "Got alarm signal %d" [signo]).
Definition SIGALRM : Z := 14.

Definition alarm_main : CM Z :=
  sys_ (Sigaction SIGALRM "sig_handler");;
  sys_ (Ext "alarm" [10]);;
  r ← sys (Ext "pause" []);
  (if r_ret r =? SIGALRM then sig_handler SIGALRM else mret tt);;
  sys_ (Printf "back to main" []);;
  mret 0.
End code.
End Callback.

(** ** A library loaded at run time (system/load_so_runtime) *)

Module LoadLib.

(** lib/my_lib.c *)
Section lib.
Context {os : OS} {G : Type}.
Definition do_something (str : option (list Z)) : M (world G) Z :=
  match str with
  | None => sys_ (Printf "NULL params received !!!" []);; mret (-1)
  | Some s => sys_ (Printf "TEST123456 String [%s]" s);; mret 0
  end.
End lib.

Section code.
Context {os : OS}.

(** The state is the message of the last error, which [dlerror] returns once. *)
Abbreviation LM := (M (world (option (list Z)))).

Definition dlopen : LM Z := r ← sys (Ext "dlopen" []); (if r_ret r =? NULL then set_glob (Some (r_out r)) else mret tt);; mret (r_ret r).
Definition dlsym (h : Z) : LM Z := r ← sys (Ext "dlsym" [h]); set_glob (if r_ret r =? NULL then Some (r_out r) else None);; mret (r_ret r).
Definition dlerror : LM (option (list Z)) := e ← get_glob; set_glob None;; mret e.

(** A null pointer must not be printed with [%s]. *)
Definition print_error (fmt : string) (e : option (list Z)) : LM unit := s ← expect e; sys_ (Printf fmt s).

Definition round (_ : unit) : LM (unit + unit) :=
  so_handle ← dlopen;
  if so_handle =? NULL then e ← dlerror; print_error "Error [%s] in dlopen for file [%s]" e;; exit_with 1
  else
    fn_ptr ← dlsym so_handle;
    error ← dlerror;
    match error with
    | Some _ => e ← dlerror; print_error "Error [%s] in loading symbol [%s]" e;; exit_with 1
    | None =>
        do_something (Some (codes "##### New Way to Say Hurray #####"));;
        sys_ (Ext "dlclose" [so_handle]);;
        sys_ (Sleep 5);;
        mret (inl tt)
    end.

Definition main (fuel : nat) (argc : nat) : LM unit :=
  if negb (argc =? 2)%nat then sys_ (Printf "Invalid arguments to the program !!! Usage : %s <so_filename>" []);; exit_with 1
  else sys_ (Ext "strdup" []);; loop fuel round tt.

(** test.c: the same library, linked. *)
Definition test_main : LM Z := do_something (Some (codes "Hi This is a test"));; mret 0.
End code.
End LoadLib.

(** ** A detached thread (system/threading/detachThread.c) *)

Module Detach.
Section code.
Context {os : OS}.

Definition worker : M (world unit) unit :=
  for_range 10 0 (λ _ _, sys_ (Printf "%s : Inside worker thread !!!" (codes "worker"));; sys_ (Sleep 2)) tt.

(** The process lives until the worker has ended, if there is one. *)
Definition main : M (world unit) unit :=
  r ← sys (PthreadCreate "worker" 0);
  sys_ (Ext "pthread_detach" []);;
  sys_ (Ext "pthread_exit" []);;
  if r_ret r =? 0 then worker else mret tt.
End code.
End Detach.

(** ** Allocations (system/newmalloc, other/maxUsableMem.c) *)

Module NewMalloc.
Definition SMALL : Z := 1024.
Definition MEDIUM : Z := 1048576.
Definition BIG : Z := 10485760.
Definition NUM_TIMES : Z := 100000.
Section code.
Context {os : OS}.
Abbreviation NM := (M (world unit)).

(** A string is copied into a new block, which is not tested, twice. *)
Definition use_block (size : Z) : NM unit :=
  r ← sys (Malloc size);
  if r_ret r =? NULL then undef
  else if (length (codes "mohit singh") <? Z.to_nat size)%nat && (length (codes "aaaaaaaaaaa") <? Z.to_nat size)%nat then sys_ (Free (r_ret r)) else undef.

(** malloc_test.c *)
Definition doSomething : NM unit := for_range 1 0 (λ _ _, use_block SMALL;; use_block MEDIUM;; use_block BIG) tt.

(** tcmalloc_test.c; [tc_malloc] and [tc_free] do what [malloc] and [free] do. *)
Definition doSomething_tc : NM unit := sys_ (Ext "numa_run_on_node" [0]);; sys_ (Ext "numa_set_preferred" [0]);; doSomething.

(** The queue of work runs the function given to it, in its threads; the calls are its answers. *)
Definition main : NM unit :=
  r ← sys (Ext "WorkQInit" [5; 500]);
  if negb (r_ret r =? 0) then sys_ (Printf "%s: Error intialising workq !!!" (codes "main"));; exit_with 1
  else
    for_range (Z.to_nat NUM_TIMES) 0 (λ _ _,
      r ← sys (Ext "WorkQAdd" []);
      if negb (r_ret r =? 0) then sys_ (Printf "%s : Error addding to workq !!!" (codes "main")) else mret tt) tt;;
    sys_ (Ext "pthread_exit" []).

(** old.c; [n] is the number of rounds, 90000000. *)
Definition old_main (n : nat) : NM Z := for_range n 0 (λ _ _, use_block 2048) tt;; mret 0.

(** tcmalloc_test.c and test.c: the same with another allocator. *)
Definition tc_main : NM unit := main.
Definition tc_old_main : nat → NM Z := old_main.
End code.
End NewMalloc.

Module MaxUsableMem.
Definition oneHundredMiB : Z := 100 * 1048576.
Section code.
Context {os : OS}.

(** A round of the loop; [tmp] is never assigned. *)
Definition round (tmp : Z) (st : Z * Z) : M (world unit) ((Z * Z) + Z) :=
  let '(memPointer, maxMemMiB) := st in
  (if negb (memPointer =? NULL) then sys_ (Printf "Max Tested Memory = %lld" [maxMemMiB]);; sys_ (Free memPointer) else mret tt);;
  let maxMemMiB := maxMemMiB + oneHundredMiB in
  r ← sys (Calloc 1 maxMemMiB);
  (if tmp =? NULL then sys_ (Ext "perror malloc" []) else mret tt);;
  mret (if negb (r_ret r =? NULL) then inl (r_ret r, maxMemMiB) else inr maxMemMiB).

Definition main (fuel : nat) (tmp : Z) : M (world unit) Z :=
  maxMemMiB ← loop fuel (round tmp) (NULL, 0);
  sys_ (Printf "Max Usable Memory aprox = %lld" [maxMemMiB - oneHundredMiB]);;
  sys_ (Sleep 60);;
  mret 0.
End code.
End MaxUsableMem.

(** ** Integers, bytes and buffers *)

(** other/byteOrder.c; [order] says how the machine stores a short. *)
Module ByteOrder.
Section code.
Context {os : OS}.

Definition main (order : list Z → list Z) : M (world unit) unit :=
  let c := order (GetSetStruct.le 2 258) in
  sys_ (Printf "sizeof(short) = %d" [2]);;
  (if (c !!! 0%nat =? 1) && (c !!! 1%nat =? 2) then sys_ (Printf "big-endian" [])
   else if (c !!! 0%nat =? 2) && (c !!! 1%nat =? 1) then sys_ (Printf "little-endian" [])
   else sys_ (Printf "unknown" []));;
  exit_with 0.

(** system/endianness/endianness.c has the same text. *)
Definition endianness_main : (list Z → list Z) → M (world unit) unit := main.
End code.
End ByteOrder.

(** other/bug.c: the comparison is made with the unsigned type of [sizeof]. *)
Module Bug.
Section code.
Context {os : OS}.
Definition array : list Z := [1; 2; 3; 4; 5].
Definition SIZE : Z := 4 * Z.of_nat (length array).

Definition main (i : Z) : M (world unit) Z :=
  sys_ (Printf "i = %d and SIZE = %d" [i; SIZE]);;
  (if i mod 2 ^ 64 <=? SIZE then sys_ (Printf "TRUE" []) else sys_ (Printf "FALSE" []));;
  mret 0.
End code.
End Bug.

(** other/buffer_overflow.c *)
Module BufferOverflow.
Section code.
Context {os : OS}.

(** [gets] into an array of eight. *)
Definition gets : M (world unit) (list Z) :=
  r ← sys (Ext "gets" []);
  if (length (r_out r) <? 8)%nat then mret (r_out r) else undef.

Definition main : M (world unit) Z :=
  sys_ (Printf "Enter the password : " []);;
  buff ← gets;
  pass ← (if bool_decide (cstr buff = codes "mohit") then sys_ (Printf "Correct Password " []);; mret 1 else sys_ (Printf "Wrong Password " []);; mret 0);
  (if negb (pass =? 0) then sys_ (Printf "Root privileges given to the user " []) else mret tt);;
  mret 0.
End code.
End BufferOverflow.

(** ** Programs that print what the system says (other, system/get_ram, system/numaTest) *)

Module SystemInfo.
Section code.
Context {os : OS}.
Abbreviation SM := (M (world unit)).

(** A product of two longs, which must fit. *)
Definition mul_long (x y : Z) : SM Z := if (- 2 ^ 63 <=? x * y) && (x * y <? 2 ^ 63) then mret (x * y) else undef.

(** other/getRAM.c *)
Definition getRAM_main : SM Z :=
  pages ← sys (Ext "sysconf _SC_AVPHYS_PAGES" []);
  size ← sys (Ext "sysconf _SC_PAGESIZE" []);
  total_available_ram ← mul_long (r_ret pages) (r_ret size);
  sys_ (Printf "RAM = [%ld]" [total_available_ram]);;
  mret 0.

(** get_ram_1.c: the members are unsigned. *)
Definition get_ram_1_main : SM Z :=
  r ← sys (Ext "sysinfo" []);
  if r_ret r <? 0 then mret 1
  else sys_ (Printf "total ram = %llu" [(r_out r !!! 0%nat * r_out r !!! 1%nat) mod 2 ^ 64]);; mret 0.

(** get_ram_2.c: a long printed as an unsigned number. *)
Definition get_ram_2_main : SM Z :=
  pages ← sys (Ext "sysconf _SC_PHYS_PAGES" []);
  size ← sys (Ext "sysconf _SC_PAGE_SIZE" []);
  n ← mul_long (r_ret pages) (r_ret size);
  sys_ (Printf "total ram = %llu" [n mod 2 ^ 64]);;
  mret 0.

(** numaTest.c *)
Definition numa_main : SM Z :=
  r ← sys (Ext "numa_available" []);
  if r_ret r <? 0 then sys_ (Printf "System does not support NUMA api !!!" []);; exit_with 1
  else
    sys_ (Printf "System supports NUMA api !!!" []);;
    n ← sys (Ext "numa_max_node" []);
    sys_ (Printf "No of numa nodes available = [%d]" [r_ret n]);;
    mret 0.

(** convertTime.c: [unixTS] is the number in the argument; [localtime] stores the six members that are printed. *)
Definition convert_main (argc : nat) (unixTS : Z) : SM Z :=
  if negb (argc =? 2)%nat then sys_ (Printf "Error in passing arguments !!! Usage : %s <%s>" (codes "unixTimeStamp"));; exit_with 1
  else
    r ← sys (Ext "localtime" [unixTS]);
    if r_ret r =? NULL then undef
    else
      let t i := r_out r !!! (i : nat) in
      sys_ (Printf "%ld -> %d/%d/%d %d:%d:%d" [unixTS; t 0%nat; t 1%nat + 1; t 2%nat + 1900; t 3%nat; t 4%nat; t 5%nat]);;
      mret 0.

(** clock.c: [a++] of an int. *)
Definition incr (x : Z) : SM Z := if x + 1 <? 2 ^ 31 then mret (x + 1) else undef.

Definition test : SM Z :=
  sys_ (Ext "getchar" []);;
  for_range (Z.to_nat 1000000000) 0 (λ _ x, x ← incr x; incr x) 0.

(** The time is a quotient of the two clocks and is printed as such here. *)
Definition clock_main : SM Z :=
  s ← sys (Ext "clock" []);
  test;;
  e ← sys (Ext "clock" []);
  let t := r_ret e - r_ret s in
  sys_ (Printf "%ld %ld %f" [r_ret s; r_ret e; t]);;
  mret 0.

(** networking/tcp_conn_rating/tcp_conn_rating.c: with enough arguments nothing is returned. *)
Inductive errcodes := ERR_NONE | ERR_CMD_LINE_PARAMS | ERR_LAST.

Definition parse_command_line (argc : nat) : SM (option errcodes) :=
  if (argc <? 3)%nat then sys_ (Printf "" []);; mret (Some ERR_CMD_LINE_PARAMS) else mret None.

Definition rating_main : SM Z := mret 0.
End code.
End SystemInfo.

(** ** Theorems *)

Definition bit (x : Z) : Prop := x = 0 ∨ x = 1.

(** What is in the structure and in what is printed. *)
Definition torn_inv (s : Reentrant.state) : Prop :=
  (bit (Reentrant.a (Reentrant.data s)) ∧ bit (Reentrant.b (Reentrant.data s))) ∧
  (let '(Reentrant.Assign src _) := Reentrant.at_ s in src = Reentrant.zeros ∨ src = Reentrant.ones) ∧
  Forall (λ p, bit p.1 ∧ bit p.2) (Reentrant.printed s).

Lemma torn_inv_reachable s : Reentrant.reachable s → torn_inv s.
Proof.
  induction 1 as [|s s' _ IH Hs]; [split; [split; by left|]; split; [by left|apply Forall_nil_2]|].
  destruct IH as ((Ha & Hb) & Hsrc & Hp), s as [[x y] [src snd] out], Hs; cbn in *.
  - destruct Hsrc as [-> | ->], snd; (split; [split; cbn; (done || by (left + right))|]); (split; [cbn; (by left) || (by right)|done]).
  - split; [done|]. split; [done|]. apply list.Forall_app. split; [done|]. apply Forall_cons_2; [done|apply Forall_nil_2].
Qed.

Lemma reach_stores n s : Reentrant.reachable s → Reentrant.reachable (Nat.iter n Reentrant.store s).
Proof. intros H. induction n as [|n IH]; [done|]. cbn. by eapply Reentrant.reach_step, Reentrant.step_store. Qed.

(** The handler can see the structure between the two stores of an assignment: it prints only
    zeros and ones, and every pair of them can be printed, also those that were never assigned. *)
Theorem torn_pairs_printed : (∀ s p, Reentrant.reachable s → p ∈ Reentrant.printed s → bit p.1 ∧ bit p.2) ∧
  ∀ x y, bit x → bit y → ∃ s, Reentrant.reachable s ∧ (x, y) ∈ Reentrant.printed s.
Proof.
  split.
  - intros s p Hs Hp. destruct (torn_inv_reachable s Hs) as (_ & _ & Hall). rewrite list.Forall_forall in Hall. by apply Hall.
  - intros x y Hx Hy. pose (n := if x =? 0 then if y =? 0 then 0%nat else 5%nat else if y =? 0 then 3%nat else 4%nat).
    exists (Reentrant.signal_handler (Nat.iter n Reentrant.store Reentrant.init)).
    split; [eapply Reentrant.reach_step; [apply reach_stores, Reentrant.reach_init|apply Reentrant.step_signal]|]. destruct Hx as [-> | ->], Hy as [-> | ->]; cbn; set_solver.
Qed.

(** The identifier that was set is the one that is got, and the other objects keep theirs; a null
    pointer is refused. *)
Theorem id_roundtrip {os : OS} o id tr h : is_Some (h !! o) → o ≠ NULL →
  wp (Opaque.obj_setID o id;; Opaque.obj_getID o true) (λ r w, r = (0, Some id) ∧ w_trace w = tr ∧ ∀ o', o' ≠ o → w_glob w !! o' = h !! o') (mk_world tr h) ∧
  wp (Opaque.obj_setID NULL id) (λ r w, r = -1 ∧ w = mk_world tr h) (mk_world tr h).
Proof.
  intros [v Hv] Ho. unfold Opaque.obj_setID, Opaque.obj_getID. split; [|by rewrite Z.eqb_refl]. rewrite (proj2 (Z.eqb_neq _ _) Ho). cbn [orb negb]. wp_sys_step. wp_sys_step. wp_sys_step. wp_sys_step.
  eapply wp_expect; [done|]. wp_run. eapply wp_expect; [apply lookup_insert_eq|]. wp_run. split; [done|]. split; [done|]. intros o' Hne. by apply lookup_insert_ne.
Qed.

(** The program prints 99, or stops with 1 when there is no memory. *)
Theorem opaque_main {os : OS} tr h : ends Opaque.main (λ ret w, ret = 0 ∧ lines "id = %d" (w_trace w) = lines "id = %d" tr ++ [[99]])
  (λ code _, code = 1 ∧ r_ret (os_answer tr (Calloc 1 4)) = NULL) (mk_world tr h).
Proof.
  unfold Opaque.main, Opaque.new_obj, Opaque.obj_setID, Opaque.obj_getID, Opaque.obj_getSize. f_step. f_step. f_step. f_step.
  destruct (Z.eqb_spec (r_ret r) NULL) as [Hn|Hn]; f_step; f_step; f_step.
  - rewrite Hn, Z.eqb_refl. repeat f_step. by rewrite <- Hr.
  - rewrite (proj2 (Z.eqb_neq _ _) Hn). f_step. f_step. f_step. eapply ends_expects; [apply lookup_insert_eq|]. f_step. f_step. f_step. change (0 =? 0) with true. cbn [negb orb]. f_step. f_step. f_step. f_step.
    eapply ends_expects; [apply lookup_insert_eq|]. f_step. change (0 =? 0) with true. cbn [negb]. f_step. f_step. f_step. split; [done|]. exact (lines_snoc "id = %d" [99] r0 ((Calloc 1 4, r) :: tr)).
Qed.

(** ** The loaded library *)

Fixpoint calls (name : string) (tr : list event) : nat :=
  match tr with [] => 0%nat | (Ext n _, _) :: tr => ((if String.eqb n name then 1 else 0) + calls name tr)%nat | _ :: tr => calls name tr end.

Definition greeted (n : nat) (tr0 tr : list event) : Prop :=
  length (lines "TEST123456 String [%s]" tr) = (length (lines "TEST123456 String [%s]" tr0) + n)%nat ∧
  calls "dlopen" tr = (calls "dlopen" tr0 + n)%nat ∧ calls "dlclose" tr = (calls "dlclose" tr0 + n)%nat.

(** With a library that has the function the loop never ends: every round opens it, calls the
    function and closes it.  When the function is missing the message is fetched a second time, which
    gives the null pointer that is printed. *)
Theorem library_rounds {os : OS} tr e : (∀ tr, r_ret (os_answer tr (Ext "dlopen" [])) ≠ NULL) →
  ((∀ tr h, r_ret (os_answer tr (Ext "dlsym" [h])) ≠ NULL) → ∀ n, LoadLib.main n 2 (mk_world tr e) = OutOfFuel ∧
    wp (rounds n LoadLib.round tt) (λ r w, r = inl tt ∧ greeted n tr (w_trace w)) (mk_world tr e)) ∧
  ((∀ tr h, r_ret (os_answer tr (Ext "dlsym" [h])) = NULL) → LoadLib.round tt (mk_world tr e) = Undef).
Proof.
  intros Ho. split; intros Hs.
  - assert (∀ tr0 n e w, w_glob w = e → greeted n tr0 (w_trace w) → wp (LoadLib.round tt) (λ r w', r = inl tt ∧ greeted (S n) tr0 (w_trace w')) w) as Hround.
    { intros tr0 n e0 [tr1 g1] _ (H1 & H2 & H3). cbn [w_trace] in *. unfold LoadLib.round, LoadLib.dlopen, LoadLib.dlsym, LoadLib.dlerror, LoadLib.do_something.
      wp_sys_step. wp_sys_step. wp_sys_step. assert (r_ret r ≠ NULL) as Hn by (rewrite Hr; apply Ho). rewrite (proj2 (Z.eqb_neq _ _) Hn). wp_sys_step. wp_sys_step. wp_sys_step. rewrite (proj2 (Z.eqb_neq _ _) Hn).
      wp_sys_step. wp_sys_step. wp_sys_step. wp_sys_step. assert (r_ret r0 ≠ NULL) as Hn0 by (rewrite Hr0; apply Hs). rewrite (proj2 (Z.eqb_neq _ _) Hn0). wp_run.
      split; [done|]. unfold greeted. cbn [w_trace lines calls]. rewrite String.eqb_refl, length_app. cbn. lia. }
    intros n. split.
    + unfold LoadLib.main. change (negb (2 =? 2)%nat) with false. cbn iota. unfold mbind, M_bind, sys_, mbind, M_bind, sys. cbn.
      apply (rounds_forever (λ _ w, ∃ k, greeted k tr (w_trace w))); [|exists 0%nat; unfold greeted; cbn; lia]. intros [] w (k & Hk). eapply wp_mono; [by eapply (Hround tr k)|]. intros x w' [-> Hg]. by exists (S k).
    + assert (∀ m k w, greeted k tr (w_trace w) → wp (rounds m LoadLib.round tt) (λ r w', r = inl tt ∧ greeted (m + k) tr (w_trace w')) w) as Hrs.
      { induction m as [|m IH]; intros k w Hk; [done|]. cbn [rounds]. wp_sys_step. eapply wp_mono; [by eapply (Hround tr k)|]. intros x w' [-> Hg]. eapply wp_mono; [by apply (IH (S k))|].
        intros y w2 [-> Hg2]. split; [done|]. by replace (S m + k)%nat with (m + S k)%nat by lia. }
      specialize (Hrs n 0%nat (mk_world tr e)). rewrite Nat.add_0_r in Hrs. apply Hrs. unfold greeted. by rewrite !Nat.add_0_r.
  - unfold LoadLib.round, LoadLib.dlopen, LoadLib.dlsym, LoadLib.dlerror, LoadLib.print_error. unfold mbind, M_bind, sys. cbn. pose proof (Ho tr) as Hn. rewrite (proj2 (Z.eqb_neq _ _) Hn). cbn. rewrite (proj2 (Z.eqb_neq _ _) Hn).
    cbn. rewrite Hs. done.
Qed.

(** ** Allocations *)

(** Whatever the thread function allocates it gives back, if no allocation fails; the first failure
    is not noticed. *)
Theorem blocks_given_back {os : OS} tr :
  ((∀ tr n, r_ret (os_answer tr (Malloc n)) ≠ NULL) → wp NewMalloc.doSomething_tc (λ _ w, res_eq tr (w_trace w)) (mk_world tr tt) ∧
    ∀ n, wp (NewMalloc.old_main n) (λ ret w, ret = 0 ∧ res_eq tr (w_trace w)) (mk_world tr tt)) ∧
  (r_ret (os_answer tr (Malloc NewMalloc.SMALL)) = NULL → NewMalloc.doSomething (mk_world tr tt) = Undef).
Proof.
  split.
  - intros Hm. assert (∀ size tr1 (Q : unit → world unit → Prop), 12 ≤ size → (∀ tr2, res_eq tr1 tr2 → Q tt (mk_world tr2 tt)) → wp (NewMalloc.use_block size) Q (mk_world tr1 tt)) as Hu.
    { intros size tr1 Q Hs HQ. unfold NewMalloc.use_block. wp_sys_step. wp_sys_step. assert (r_ret r ≠ NULL) as Hn by (rewrite Hr; apply Hm). rewrite (proj2 (Z.eqb_neq _ _) Hn).
      change (length (codes "mohit singh")) with 11%nat. change (length (codes "aaaaaaaaaaa")) with 11%nat. replace ((11 <? Z.to_nat size)%nat && (11 <? Z.to_nat size)%nat) with true by lia.
      wp_sys_step. apply HQ. res_solve. }
    split.
    + unfold NewMalloc.doSomething_tc, NewMalloc.doSomething. wp_sys_step. wp_sys_step. wp_sys_step. wp_sys_step. cbn [for_range]. wp_sys_step. wp_sys_step.
      apply Hu; [done|]. intros tr1 H1. wp_sys_step. apply Hu; [done|]. intros tr2 H2. apply Hu; [done|]. intros tr3 H3. wp_run. cbn [w_trace]. rewrite <- H3, <- H2, <- H1. res_solve.
    + intros n. unfold NewMalloc.old_main. wp_sys_step. eapply wp_mono; [apply (wp_for_range (λ _ _ w, res_eq tr (w_trace w)))|].
      * reflexivity.
      * intros i [] [tr1 []] _ H1. apply Hu; [lia|]. intros tr2 H2. cbn [w_trace] in *. by rewrite <- H2.
      * intros [] w H. wp_sys_step. by split.
  - intros Hn. unfold NewMalloc.doSomething, NewMalloc.use_block. cbn [for_range]. unfold mbind, M_bind, sys. cbn [w_trace]. by rewrite Hn.
Qed.

(** The state of the search: [k] blocks were tried, and only the last is held. *)
Abbreviation usable := (lines "Max Usable Memory aprox = %lld").
Definition searching (limit : Z) (tr : list event) (st : Z * Z) (w : world unit) : Prop :=
  ∃ k, st.2 = k * MaxUsableMem.oneHundredMiB ∧ 0 ≤ k ≤ limit / MaxUsableMem.oneHundredMiB ∧ usable (w_trace w) = usable tr ∧
    res_delta tr (w_trace w) [] (if st.1 =? NULL then [] else [st.1]).

Lemma search_round {os : OS} limit tmp tr st w : 0 ≤ limit → (∀ tr s, r_ret (os_answer tr (Calloc 1 s)) = NULL ↔ limit < s) → searching limit tr st w →
  wp (MaxUsableMem.round tmp st) (λ r w', match r with
    | inl st' => searching limit tr st' w' ∧ st'.2 = st.2 + MaxUsableMem.oneHundredMiB
    | inr m => res_eq tr (w_trace w') ∧ usable (w_trace w') = usable tr ∧ m - MaxUsableMem.oneHundredMiB = limit / MaxUsableMem.oneHundredMiB * MaxUsableMem.oneHundredMiB end) w.
Proof.
  intros Hl0 Hl (k & Hk & Hkr & Hli & Hres). destruct st as [p m], w as [tr1 []]. cbn [fst snd w_trace] in *. subst m. unfold MaxUsableMem.round. set (H := MaxUsableMem.oneHundredMiB) in *.
  assert (0 < H) as HH by (unfold H; by vm_compute). wp_sys_step.
  eapply (wp_mono _ (λ _ w, usable (w_trace w) = usable tr ∧ res_eq tr (w_trace w))).
  { destruct (Z.eqb_spec p NULL) as [->|Hp]; cbn [negb]; wp_run; cbn [w_trace lines]; rewrite ?app_nil_r; split; [done|done|done|]. unfold NULL in *. res_solve. }
  intros [] [tr2 []] [Hli2 Hres2]. cbn [w_trace] in *. wp_sys_step. wp_sys_step. specialize (Hl tr2 (k * H + H)). rewrite <- Hr in Hl.
  assert (limit < k * H + H ↔ limit / H ≤ k) as Hdiv. { split; intros ?; [assert (limit / H < k + 1) by (apply Z.div_lt_upper_bound; lia); lia|]. pose proof (Z.mul_succ_div_gt limit H HH). nia. }
  wp_sys_step. eapply (wp_mono _ (λ _ w, usable (w_trace w) = usable tr ∧ res_delta tr (w_trace w) [] (if r_ret r =? NULL then [] else [r_ret r]))).
  { destruct (tmp =? NULL), (Z.eqb_spec (r_ret r) NULL) as [Hn|Hn]; wp_run; cbn [w_trace lines]; (split; [done|]); unfold NULL in *; res_solve. }
  intros [] [tr3 []] [Hli3 Hres3]. cbn [w_trace] in *. wp_sys_step. destruct (Z.eqb_spec (r_ret r) NULL) as [Hn|Hn]; cbn [negb].
  - split; [done|]. split; [done|]. apply Hl, Hdiv in Hn. replace k with (limit / H) by lia. lia.
  - split; [|done]. exists (k + 1). cbn [fst snd w_trace]. fold H. assert (¬ limit / H ≤ k) by (rewrite <- Hdiv, <- Hl; done). split; [ring|]. split; [lia|]. split; [done|]. by rewrite (proj2 (Z.eqb_neq _ _) Hn).
Qed.

(** With a limit to what can be allocated the search for it ends: the program prints the largest
    multiple of 100 MiB that is not above the limit, and holds no block then. *)
Theorem usable_memory_found {os : OS} fuel limit tmp tr : 0 ≤ limit → (∀ tr s, r_ret (os_answer tr (Calloc 1 s)) = NULL ↔ limit < s) → limit / MaxUsableMem.oneHundredMiB < Z.of_nat fuel →
  wp (MaxUsableMem.main fuel tmp) (λ ret w, ret = 0 ∧ res_eq tr (w_trace w) ∧
    usable (w_trace w) = usable tr ++ [[limit / MaxUsableMem.oneHundredMiB * MaxUsableMem.oneHundredMiB]]) (mk_world tr tt).
Proof.
  intros Hl0 Hl Hf. unfold MaxUsableMem.main. wp_sys_step. eapply wp_mono.
  - apply (wp_loop (searching limit tr) (λ st _, Z.to_nat (limit / MaxUsableMem.oneHundredMiB - st.2 / MaxUsableMem.oneHundredMiB)) _
      (λ m w, res_eq tr (w_trace w) ∧ usable (w_trace w) = usable tr ∧ m - MaxUsableMem.oneHundredMiB = limit / MaxUsableMem.oneHundredMiB * MaxUsableMem.oneHundredMiB)).
    + intros st w Hs. eapply wp_mono; [by apply (search_round limit tmp tr)|]. intros [st'|m] w'; [|done]. intros [Hs' E]. split; [done|].
      destruct Hs as (k & Hk & Hkr & _), Hs' as (k' & Hk' & Hkr' & _). rewrite Hk, Hk' in *. rewrite !Z.div_mul by done. unfold MaxUsableMem.oneHundredMiB in *. lia.
    + exists 0. split; [done|]. split; [|split; [done|change (res_eq tr tr); reflexivity] ]. split; [done|]. apply Z.div_pos; [done|by vm_compute].
    + cbn [snd]. change (0 / MaxUsableMem.oneHundredMiB) with 0. assert (0 ≤ limit / MaxUsableMem.oneHundredMiB) by (apply Z.div_pos; [done|by vm_compute]). lia.
  - intros m [tr1 []] (Hres & Hli & ->). cbn [w_trace] in *. wp_run. split; [done|]. cbn [w_trace lines]. rewrite String.eqb_refl, Hli. split; [res_solve|done].
Qed.

(** ** Integers, bytes and buffers *)

(** The byte order is recognised, on both kinds of machine. *)
Theorem byte_order_found {os : OS} tr :
  ends (ByteOrder.main id) (λ _ _, False) (λ code w, code = 0 ∧ lines "little-endian" (w_trace w) = lines "little-endian" tr ++ [[]]) (mk_world tr tt) ∧
  ends (ByteOrder.main reverse) (λ _ _, False) (λ code w, code = 0 ∧ lines "big-endian" (w_trace w) = lines "big-endian" tr ++ [[]]) (mk_world tr tt).
Proof.
  split; unfold ByteOrder.main; [change (id (GetSetStruct.le 2 258)) with [2; 1]|change (reverse (GetSetStruct.le 2 258)) with [1; 2] ]; f_step; f_step; f_step; cbn; (split; [done|]); cbn [w_trace lines]; by rewrite app_nil_r.
Qed.

(** No negative number passes the test that means to bound it from above: it is compared as an
    unsigned number.  From 0 on the test is the intended one. *)
Theorem negative_compares_large {os : OS} i tr : -2 ^ 31 ≤ i < 2 ^ 31 →
  wp (Bug.main i) (λ ret w, ret = 0 ∧ lines "TRUE" (w_trace w) = lines "TRUE" tr ++ (if (0 <=? i) && (i <=? Bug.SIZE) then [[]] else [])) (mk_world tr tt).
Proof.
  intros Hi. unfold Bug.main. wp_sys_step. wp_sys_step. wp_sys_step. change Bug.SIZE with 20. assert ((i mod 2 ^ 64 <=? 20) = ((0 <=? i) && (i <=? 20))) as ->.
  { destruct (Z.leb_spec 0 i) as [Hp|Hn]; [by rewrite Z.mod_small by lia|]. cbn [andb]. apply Z.leb_gt. rewrite <- (Z.mod_add i 1) by lia. rewrite Z.mod_small; lia. }
  destruct ((0 <=? i) && (i <=? 20)); wp_run; (split; [done|]); cbn [w_trace lines]; by rewrite !app_nil_r.
Qed.

(** Privileges are given exactly for the password, as long as what is typed fits the buffer; a
    line of eight characters or more overruns it, which may change the variable that decides. *)
Theorem password_checked {os : OS} tr : let c := Printf "Enter the password : " [] in
  let line := r_out (os_answer ((c, os_answer tr c) :: tr) (Ext "gets" [])) in
  ((length line < 8)%nat → wp BufferOverflow.main (λ ret w, ret = 0 ∧
      lines "Root privileges given to the user " (w_trace w) = lines "Root privileges given to the user " tr ++ (if bool_decide (cstr line = codes "mohit") then [[]] else [])) (mk_world tr tt)) ∧
  ((8 ≤ length line)%nat → BufferOverflow.main (mk_world tr tt) = Undef).
Proof.
  intros c line. unfold BufferOverflow.main, BufferOverflow.gets. split; intros Hl.
  - wp_sys_step. wp_sys_step. wp_sys_step. wp_sys_step. wp_sys_step. subst r. fold c in Hr0. assert (r_out r0 = line) as -> by by rewrite Hr0. rewrite (proj2 (Nat.ltb_lt _ _) Hl). wp_sys_step.
    destruct (bool_decide (cstr line = codes "mohit")); wp_run; (split; [done|]); cbn [w_trace lines]; by rewrite ?app_nil_r.
  - unfold mbind, M_bind, sys_, mbind, M_bind, sys. cbn [w_trace w_glob]. fold c. unfold mret, M_ret. cbn [w_trace w_glob]. fold line. by rewrite (proj2 (Nat.ltb_ge _ _) Hl).
Qed.

(** The loop that is timed, two increments in each of a thousand million rounds, does not overflow its
    int: it ends at 2000000000, and the program prints the two clocks and their difference. *)
Theorem timed_loop_fits {os : OS} tr :
  wp SystemInfo.test (λ x w, x = 2000000000 ∧ lines "%ld %ld %f" (w_trace w) = lines "%ld %ld %f" tr) (mk_world tr tt) ∧
  wp SystemInfo.clock_main (λ ret w, ret = 0 ∧ ∃ s e, lines "%ld %ld %f" (w_trace w) = lines "%ld %ld %f" tr ++ [[s; e; e - s]]) (mk_world tr tt).
Proof.
  assert (∀ tr1, wp SystemInfo.test (λ x w, x = 2000000000 ∧ ∃ tr2, w = mk_world tr2 tt ∧ lines "%ld %ld %f" tr2 = lines "%ld %ld %f" tr1) (mk_world tr1 tt)) as Ht.
  { intros tr1. unfold SystemInfo.test. assert (Z.of_nat (Z.to_nat 1000000000) = 1000000000) as Hn by (apply Z2Nat.id; lia). revert Hn. generalize (Z.to_nat 1000000000). intros n Hn.
    wp_sys_step. wp_sys_step. eapply wp_mono; [apply (wp_for_range (λ i x w, x = 2 * i ∧ ∃ tr2, w = mk_world tr2 tt ∧ lines "%ld %ld %f" tr2 = lines "%ld %ld %f" tr1))|].
    - split; [done|]. by eexists.
    - intros i x w Hi [-> (tr2 & -> & Hl)]. unfold SystemInfo.incr. rewrite !(proj2 (Z.ltb_lt _ _)) by lia. wp_sys_step. wp_sys_step. rewrite !(proj2 (Z.ltb_lt _ _)) by lia. wp_sys_step. split; [lia|]. by eexists.
    - intros x w [-> Hw]. split; [lia|done]. }
  split.
  { refine (wp_mono _ _ _ _ (Ht tr) _). intros x w [-> (tr2 & -> & Hl)]. split; [reflexivity|exact Hl]. }
  unfold SystemInfo.clock_main. wp_sys_step. wp_sys_step. wp_sys_step. refine (wp_mono _ _ _ _ (Ht _) _). intros x w [-> (tr2 & -> & Hl)].
  wp_run. split; [done|]. exists (r_ret r), (r_ret r0). cbn [w_trace lines] in *. by rewrite String.eqb_refl, Hl.
Qed.

(** The two ways to ask for the memory print the same number, if the system counts in pages and it
    fits a long. *)
Theorem same_ram_printed {os : OS} pages size tr : 0 ≤ pages → 0 ≤ size → pages * size < 2 ^ 63 →
  (∀ tr, os_answer tr (Ext "sysinfo" []) = mk_reply 0 0 [pages; size]) → (∀ tr, r_ret (os_answer tr (Ext "sysconf _SC_PHYS_PAGES" [])) = pages) → (∀ tr, r_ret (os_answer tr (Ext "sysconf _SC_PAGE_SIZE" [])) = size) →
  let post (ret : Z) (w : world unit) := ret = 0 ∧ lines "total ram = %llu" (w_trace w) = lines "total ram = %llu" tr ++ [[pages * size]] in
  wp SystemInfo.get_ram_1_main post (mk_world tr tt) ∧ wp SystemInfo.get_ram_2_main post (mk_world tr tt).
Proof.
  intros Hp Hs Hb Hi Hc1 Hc2 post. assert (0 ≤ pages * size) by nia. split.
  - unfold SystemInfo.get_ram_1_main. wp_sys_step. wp_sys_step. rewrite Hi in Hr. subst r. cbn [r_ret]. change (0 <? 0) with false. cbn iota. wp_run. split; [done|]. cbn [w_trace lines]. rewrite String.eqb_refl.
    cbn [r_out]. change ([pages; size] !!! 0%nat) with pages. change ([pages; size] !!! 1%nat) with size. by rewrite Z.mod_small by lia.
  - unfold SystemInfo.get_ram_2_main, SystemInfo.mul_long. wp_sys_step. wp_sys_step. wp_sys_step. wp_sys_step. assert (r_ret r = pages) as E1 by by rewrite Hr. assert (r_ret r0 = size) as E2 by by rewrite Hr0. rewrite E1, E2.
    assert ((- 2 ^ 63 <=? pages * size) && (pages * size <? 2 ^ 63) = true) as -> by lia.
    wp_sys_step. wp_sys_step. wp_run. split; [done|]. cbn [w_trace lines]. by rewrite String.eqb_refl, Z.mod_small by lia.
Qed.

(** ** Witnesses *)

(** A kilobyte short of 300 MiB can be allocated. *)
Definition limit_os : OS := λ _ c, match c with Calloc _ s => mk_reply (if 314571776 <? s then NULL else 64) 0 [] | _ => mk_reply 0 0 [] end.

Lemma usable_memory_found_witness : wp (MaxUsableMem.main (os := limit_os) 3 7) (λ ret w, ret = 0 ∧ res_eq [] (w_trace w) ∧ usable (w_trace w) = [[209715200]]) (mk_world [] tt).
Proof.
  apply (@usable_memory_found limit_os 3 314571776 7 []); [lia| |by vm_compute]. intros tr s. unfold os_answer, limit_os. cbn [r_ret]. destruct (Z.ltb_spec 314571776 s); unfold NULL; lia.
Defined.
